(* ===== verification/_CoqProject ===== *)
-Q . S2P
Prelude.v
Strings.v
Wire.v
Wal.v
Outbox.v
Uploader.v
Db.v
CommandStore.v
CommandOps.v
Bus.v
CommandUpload.v
Pipeline.v
Sessions.v
Names.v
Facade.v
Control.v
Nonce.v
Quantity.v
OutputBuffer.v
Executor.v
Producer.v
Context.v
Turn.v
TurnSpec.v
Transcript.v
Drain.v
DrainSpec.v
DrainLoop.v
Wired.v
Threads.v
Paths.v
Workspace.v
Config.v
Providers.v
Runner.v
RunnerSpec.v
Iam.v
Policies.v
IamSpec.v
Membership.v
MembershipSpec.v
Runes.v
Mentions.v
MentionsSpec.v
Messages.v
Inbox.v
Posting.v
MessagesSpec.v
Tasks.v
TasksSpec.v
Reminders.v
RemindersSpec.v
Requests.v
RoomDemo.v
ReminderDemo.v
Jwt.v
Provision.v
Tokens.v
AgentTokens.v
Machines.v
TokensSpec.v
Credentials.v
MachinesSpec.v
Device.v
LoginRequests.v
DeviceSpec.v
CredentialDemo.v
