(* ===== verification/Prelude.v ===== *)
(** * Laelia: a verification library

    Laelia runs LLM agents on machines and shows their work in a web manager.
    The manager hands a machine the assignments of its agents; a runner per agent
    builds a runtime for each turn (a command), a turn produces records (output,
    events, a final result), the machine keeps them in a durable log per agent and
    uploads them in batches; the manager stores them, moves the command through
    its states, and passes what is new to live watchers.  This library models that
    path from the form an administrator fills to the manager's tables and streams,
    and, around it, the conversations where users and agents meet: who may do what,
    who is in a channel, what is posted, what wakes an agent and what it reads.  It
    proves what each part promises to the next.

    ** Parts and files

    Shared:
    - [Prelude]: results, the state-and-error monad, Go's integer widths,
      durations, tactics.  [Strings]: the part of package strings the code uses.
      [Paths]: package filepath.  [Threads]: programs of critical sections, pools
      under any schedule, and a rely-guarantee logic.

    The configuration and the runner of an agent (on the machine):
    - [Config]: [backend/agent/executor/acp_config.go], [backend/agent/pi/config.go],
      the provider registry, and the manager's validation and resolution of a form
      ([manager/api/v1/agent_config.go], [agent_api_provider.go]).
    - [Providers]: the global LLM providers ([api_provider_service.go] over
      [store/api_provider.go]).
    - [Runner]: [backend/agent/client/runner.go], its slots, the assignment, cold
      restart and stop, the runtime of a turn; [RunnerSpec]: its goroutines.
    - [Workspace]: [backend/agent/workspace], paths, listing and preview.

    A turn:
    - [OutputBuffer], [Executor]: the batching of text and the limits of the ACP
      executor ([backend/agent/executor]).
    - [Producer]: the state of a command stream and its report sink
      ([command_stream.go], [command_outbox.go]); [Context]: the context observer
      ([context_observer.go], [context_state.go]); [Turn], [TurnSpec],
      [Transcript]: runCommand and drainOutput; [Drain], [DrainSpec], [DrainLoop]:
      runSession and drainLoop ([drain_runner.go]).
    - [Wired]: the sink of a turn over the outbox and the uploader.

    The log and its upload:
    - [Wire]: the upload envelope and the protobuf codec, an interface with laws.
    - [Wal]: the log library under the outbox, an interface with laws
      ([WalOps], [WalLaws]) and an in-memory implementation ([MemWal]).
    - [Outbox]: [backend/agent/outbox/outbox.go].  State: the log handle, the
      append buffer, the closed flag.  Every method is a monadic definition.
    - [Uploader]: [backend/agent/outbox/uploader.go].  The upload function is a
      parameter over an environment; waits are a list of (interference, wake-up)
      pairs, so loops end when the list does ([UStuck]) and theorems speak of
      what holds when they return.

    The manager:
    - [Db], [CommandStore], [CommandOps]:
      [backend/manager/store/command_upload.go] and [command.go] over rows held
      in finite maps.  A [Server] decides which statement fails and which
      placeholders a statement may bind; a transaction aborts at its first failed
      statement, as in PostgreSQL.
    - [Bus]: [command_bus.go], [command_tracker.go], [pending_replies.go] and
      [roomhub.go] over a heap of buffered channels, where a runtime panic is
      [None].
    - [CommandUpload]: [dispatcher/command_upload.go], the upload handler.
    - [Pipeline]: the uploader against the handler over a network that may lose
      the answer.
    - [Sessions]: the control streams' registry, connects and disconnects, the
      ping monitor ([session_registry.go], [session_lifecycle.go],
      [liveness.go], [provisioner.go]); operations are functions, their
      interleavings the relation [step].
    - [Names]: [backend/common/resource_name.go].  [Quantity]:
      [backend/common/quantity] and the parameters of a machine.
    - [Facade]: [dispatcher.go] and [provisioner_dispatch.go]: sends, round trips,
      prompt release notices, BeginSession.
    - [Control]: [agent_control.go], [agent_pending_control.go] and
      [command_reaper.go].
    - [Nonce]: [component/state/nonce.go].

    Conversations (on the manager):
    - [Iam], [Policies], [IamSpec]: [component/iam], the permission catalog and the
      predefined roles, the evaluation of bindings ([manager/utils/member.go],
      [common/cel.go]), the interceptor and the resolution of a request's
      resources ([api/v1/iam.go], [resource_resolver.go]).  CEL is a parameter.
    - [Membership], [MembershipSpec]: the membership of channels
      ([api/v1/channel_members.go], [channel.go], [store/conversation_member.go],
      [conversation_policy.go], [policy.go]).
    - [Runes]: UTF-8 and case mapping, over an interface of Unicode classes.
      [Mentions], [MentionsSpec]: [api/v1/mention.go] and
      [store/mention_index.go].
    - [Messages], [Inbox], [Posting], [MessagesSpec]: [store/chat_message.go],
      [agent_channel_cursor.go], [thread_participant.go], and the handlers that
      post and read ([channel_message.go], [message_create.go],
      [command_message.go]).  State: the tables as [Room]; a handler is a monadic
      program, and other sessions commit at its gaps ([w_others]).
    - [Tasks], [TasksSpec]: [store/task.go] and [api/v1/task.go].
    - [Reminders], [RemindersSpec]: [store/reminder.go], [api/v1/reminder.go], the
      scheduler that fires them ([component/scheduler]) and the next fire
      ([component/schedule]); the parser of cron expressions is an interface
      ([CronLib]).
    - [Requests]: all requests of a room, and the ticks of the scheduler, in
      sequence.  What a relation between tables must say of the writes for every
      handler to keep it is a class ([Kept], [KeptTasks]), proved once for the
      invariant and once for "the reminders are not touched".  [RoomDemo],
      [ReminderDemo]: a channel and a reminder run, with the theorems of these
      files at their tables.

    Credentials (on the manager):
    - [Jwt]: [manager/api/auth], the claims, the minting and the parsing of tokens
      and what is read off a request's headers.  The JWT package and SHA-256 are
      interfaces ([Jwt], [Digest]) with laws ([JwtLaws]).
    - [Tokens]: the tables of machines, agents, provisioners, their tokens and
      sessions ([store/machine_token.go] and its neighbours), the interceptor, and
      the checks a refresh makes ([token_refresh.go]).  [AgentTokens]:
      [agent_token.go], [agent_connection.go].  [Machines]: [machine_token.go],
      [machine_connection.go], [machine.go], [provisioner.go],
      [provisioner_stream.go].  [Provision]: the images and the phases of a
      provisioned machine.  State: [Tokens.Db]; a handler is a monadic program,
      and other requests run at its gaps ([tw_others]).
    - [Device]: the device login ([component/device], [api/v1/device.go]), its
      sessions in a heap.
    - [TokensSpec], [Credentials], [MachinesSpec], [DeviceSpec], [LoginRequests]:
      the theorems; [LoginRequests] is about all these requests, in sequence and
      interleaved.  [CredentialDemo]: a JWT that satisfies the laws, a workspace,
      and the theorems at it.

    ** What the theorems show

    - From the form to the launch: a form the manager accepts builds on the
      machine ([Config]); stored entries stay usable, a referenced provider is not
      deleted ([Providers]).
    - A runner: under any interleaving of its goroutines every session is stopped
      in the end, the pi config and its session stay paired, and an assignment
      applied again touches nothing ([RunnerSpec]).
    - A turn: however it ends it settles its command, numbers its events by its
      sends and reports the cancel it heard; its text is recorded exactly
      ([TurnSpec], [Transcript]), sessions are spaced and leave the stream idle
      ([DrainLoop], [DrainSpec]), and what it was told is recorded is durable
      ([Wired]).
    - Access: no byte of a sensitive file leaves a workspace ([Workspace]); what a
      check answers is what the rules of access say, a call goes through exactly
      when everything it is judged on is granted: for a scoped permission every
      resource the request names, else the workspace ([IamSpec]); over any sequence of
      requests a channel has one owner and its roster mirrors its policy
      ([MembershipSpec]).
    - Conversations: under any requests, interleaved with others, ids are unique,
      versions number the messages without a gap, tasks and reminders are
      well-formed and nothing is lost ([Requests.rooms_stay_numbered]); an agent is woken exactly
      for what it has not processed, a post that nobody races skips nothing, a
      page of history is the tail of what came before ([MessagesSpec]); the scan
      for mentions finds the tokens a relation on the text defines, and no others
      ([MentionsSpec]); a claim is exclusive, a
      close idempotent, a board complete ([TasksSpec]).
    - Reminders: a scan fires exactly what is due, an agent that stays away is
      tried five more times over 125 seconds, a completion answers once
      ([RemindersSpec]), and a reminder that ended stays so
      ([Requests.closed_reminders_stay]).
    - Credentials: who a request acts for is who its token names
      ([Credentials.request_is_its_bearers]); a refresh hands over, and what was
      spent is never exchanged again, under any interleaving
      ([LoginRequests.spent_tokens_stay_spent]); a revoked machine is shut out for
      good; an approved device login ends with a credential that works
      ([DeviceSpec]).
    - Durability on the machine: an accepted record is on disk or in the buffer,
      in order, after any write fault ([Outbox]); a cycle of the uploader drops a
      record only when the manager settled it ([Uploader]); after the self-check
      every command in the log has a terminal record.
    - The batch transaction: acks cover exactly what was applied, a retransmitted
      batch changes nothing, a decided outcome moves only by the two documented
      corrections, foreign commands are untouched ([CommandStore]).
    - End to end ([Pipeline]): one cycle loses no record, whether the request
      fails, the answer is lost or it arrives, and a handled batch settles.
    - Delivery: the handler and the buses never panic, a broadcast reaches the
      watchers with room, a reply reaches its waiter once ([Bus],
      [CommandUpload]); the registered session of an id is the live one under
      every interleaving ([Sessions]); a control interaction is sent or queued,
      and the drain removes exactly what it settled ([Control]); a release
      notice is sent or stored ([Facade]).
    - Safety of inputs: a name is accepted exactly for the id it formats ([Names]),
      quantities exactly by their grammar, parameters exactly when each is in order,
      on the int64 the code compares ([Quantity]), a nonce is accepted once
      ([Nonce]).

    Theorems about behaviour the code does not intend are stated the same way,
    among them: an update of a provider that breaks every reference to its entries
    ([Providers.update_breaks_references]), a restart that misses a starting turn
    and a config update a pi agent ignores ([RunnerSpec]), the append that loses
    buffered output ([OutputBuffer.racing_append_loses_output]), the cancel that
    comes too early ([DrainLoop.early_cancel_lost]), the quantity that overflows
    ([Quantity.overflow_passes_maximum]), the upload cursor that outlives a
    quarantine ([Uploader.UploaderDemo.quarantine_skips_unsent]), the result with
    one summary that blocks its batch ([CommandOps.single_summary_blocks_batch]),
    the listing that loses the machine and the reaper that therefore never reaps
    ([CommandOps.listed_commands_lose_machine], [Control.sweep_never_reaps]), the
    broadcast key without the kind
    ([Pipeline.PipelineDemo.broadcast_key_collision]), the read error that drops a
    cancel ([Control.ControlDemo.read_error_drops_cancel]), the send that writes to
    a replaced stream ([Sessions.SessionsDemo.racing_send_reaches_old_stream]),
    the edit that brings a completed reminder back and the retry that is never
    made up for ([RemindersSpec]), the refresh token that is exchanged twice when
    two requests race and the agent tokens accepted as bearers whatever their type
    ([Credentials]), the denial the CLI is never told ([DeviceSpec]), the refused
    deletion that tears a machine down ([MachinesSpec]), the nonce accepted in another spelling
    ([Nonce.NonceDemo.respelled_nonce_accepted]) and Close without a flush
    ([Outbox.close_leaves_the_buffer_unwritten]).

    ** Conventions

    Definitions keep the names of the source.  Integers are [Z] with their
    wrap-around written where it can happen ([u64], [i32], [i64]); times are
    nanoseconds; a nil pointer is [None]; Go's random map order is a parameter or
    an arbitrary permutation.  What the database, the clock, the network and
    third-party packages decide is an argument: [fails n q] (the server refuses
    statement [n]), [others] (what other sessions commit between two statements),
    [now], the answers of stores that are not modelled.  Each file ends with a
    module of concrete runs on which its theorems are applied.

    ** Bounds and fuel

    [Outbox.read_loop] takes a step count; ReadRecords gives it one more than the
    indexes of its window, which [Outbox.read_records_spec] shows to be enough.  [Uploader.orphan_loop] takes
    the number of shards; [scan_bound] steps are enough for the whole log
    ([Uploader.synthesis_terminates_every_group]).  The waiting loops recurse on the list
    of wake-ups, a turn and the drain loop on a list of picks, one per select, a
    pool on a schedule.  Everything else is structural.

    ** Not modelled, and next

    The interleaving of goroutines outside [Sessions.step], [Wired] and [Threads],
    metrics except where a branch depends on them, logging, LRU caches, context
    deadlines (a deadline is a failed statement), the subprocesses and protocols of
    the executors (their messages are inputs of a turn), generated code and
    third-party packages.  In the conversations: reactions, search, the activity a
    message generates, direct conversations, pins, mutes and closings; the clean-up
    of unverified accounts; and the writes of custom roles and workspace policies.
    Of credentials: sign-in and identity providers, the bootstrap script and the
    docker and kubernetes backends, and the lists, renames and transfers of
    machines and agents.
    Next: the policy service, the heartbeat buffer and the activity view, the MCP
    address policy, the machine's registry of runners, the supervisor's state
    machine, handles and the migrator. *)

From stdpp Require Import base gmap sets list strings numbers fin_maps.
Local Open Scope Z_scope.

(** ** Results and the state-and-error monad

    Go code returns [(value, error)]; [res] is that pair with exactly one side
    meaningful.  [M St Er A] threads a state through fallible code and, as Go
    does, keeps the effects made before an error. *)

Inductive res (Er A : Type) : Type :=
| Ok (a : A)
| Err (e : Er).

Arguments Ok {Er A} a.
Arguments Err {Er A} e.

Definition M (St Er A : Type) : Type := St → St * res Er A.

#[export] Instance M_ret St Er : MRet (M St Er) := λ A a s, (s, Ok a).

#[export] Instance M_bind St Er : MBind (M St Er) := λ A B k m s,
  match m s with
  | (s', Ok a) => k a s'
  | (s', Err e) => (s', Err e)
  end.

(** [throw e]: [return ..., e]. *)
Definition throw {St Er A} (e : Er) : M St Er A := λ s, (s, Err e).

(** [gets f]: read a field of the state. *)
Definition gets {St Er A} (f : St → A) : M St Er A := λ s, (s, Ok (f s)).

(** [modify f]: assign to fields of the state. *)
Definition modify {St Er} (f : St → St) : M St Er unit := λ s, (f s, Ok tt).

(** [attempt m]: run [m] and hand its error to the caller ([if err := ...]). *)
Definition attempt {St Er A} (m : M St Er A) : M St Er (res Er A) := λ s,
  let '(s', r) := m s in (s', Ok r).

(** [lift_res r]: a pure fallible call. *)
Definition lift_res {St Er A} (r : res Er A) : M St Er A := λ s, (s, r).

Definition is_ok {Er A} (r : res Er A) : bool :=
  match r with Ok _ => true | Err _ => false end.

(** ** Machine-width integers, as Go wraps them *)

Definition u64 (z : Z) : Z := z `mod` 2^64.
Definition wrap_signed (w z : Z) : Z := (z + 2^(w-1)) `mod` 2^w - 2^(w-1).
Definition i32 (z : Z) : Z := wrap_signed 32 z.
Definition i64 (z : Z) : Z := wrap_signed 64 z.

Definition max_int32 : Z := 2^31 - 1.
Definition max_int64 : Z := 2^63 - 1.
Definition in_i32 (z : Z) : Prop := - 2^31 ≤ z < 2^31.
Definition in_i64 (z : Z) : Prop := - 2^63 ≤ z < 2^63.
Definition in_u64 (z : Z) : Prop := 0 ≤ z < 2^64.

(** Durations are nanosecond counts ([time.Duration]). *)
Definition Second : Z := 1000000000.
Definition Minute : Z := 60 * Second.
Definition Millisecond : Z := 1000000.

(** ** Lemmas *)

Create HintDb laelia.

Lemma u64_small z : in_u64 z → u64 z = z.
Proof. unfold in_u64, u64. intros. by apply Z.mod_small. Qed.

Lemma wrap_signed_small w z :
  0 < w → - 2^(w-1) ≤ z < 2^(w-1) → wrap_signed w z = z.
Proof.
  intros Hw Hz. unfold wrap_signed.
  assert (2^w = 2 * 2^(w-1)) as E.
  { rewrite <-Z.pow_succ_r by lia. f_equal. lia. }
  rewrite Z.mod_small; lia.
Qed.

Lemma i32_small z : in_i32 z → i32 z = z.
Proof. intros H. apply wrap_signed_small; [lia|exact H]. Qed.

Lemma i64_small z : in_i64 z → i64 z = z.
Proof. intros H. apply wrap_signed_small; [lia|exact H]. Qed.

Lemma wrap_signed_range w z :
  0 < w → - 2^(w-1) ≤ wrap_signed w z < 2^(w-1).
Proof.
  intros Hw. unfold wrap_signed.
  assert (2^w = 2 * 2^(w-1)) as E.
  { rewrite <-Z.pow_succ_r by lia. f_equal. lia. }
  pose proof (Z.mod_pos_bound (z + 2^(w-1)) (2^w)).
  assert (0 < 2^(w-1)) by (apply Z.pow_pos_nonneg; lia). lia.
Qed.

Lemma i32_range z : in_i32 (i32 z).
Proof. unfold in_i32. by apply (wrap_signed_range 32). Qed.

Lemma i64_range z : in_i64 (i64 z).
Proof. unfold in_i64. by apply (wrap_signed_range 64). Qed.

#[export] Hint Resolve i32_range i64_range : laelia.

Section monad.
Context {St Er : Type}.

Lemma bind_ok_inv {A B} (m : M St Er A) (k : A → M St Er B) s s' b :
  mbind k m s = (s', Ok b) → ∃ s1 a, m s = (s1, Ok a) ∧ k a s1 = (s', Ok b).
Proof.
  unfold mbind, M_bind. destruct (m s) as [s1 [a|e]]; [eauto|done].
Qed.

Lemma bind_ret {A B} (a : A) (k : A → M St Er B) s :
  mbind k (mret a) s = k a s.
Proof. done. Qed.

Lemma bind_throw {A B} (e : Er) (k : A → M St Er B) s :
  mbind k (throw e) s = (s, Err e).
Proof. done. Qed.

Lemma bind_assoc {A B C} (m : M St Er A) (f : A → M St Er B) (g : B → M St Er C) s :
  mbind g (mbind f m) s = mbind (λ a, mbind g (f a)) m s.
Proof. unfold mbind, M_bind. by destruct (m s) as [s1 [a|e]]. Qed.
End monad.

(** ** Tactics *)

(** Unfold the monad and simplify. *)
Ltac msimp :=
  unfold mbind, M_bind, mret, M_ret, throw, gets, modify, attempt, lift_res in *;
  simpl in *.

(** Case analysis on a [match]/[if] scrutinee of the goal, keeping its equation. *)
Ltac case_goal :=
  match goal with
  | |- context [match ?x with _ => _ end] =>
      lazymatch x with
      | context [match _ with _ => _ end] => fail
      | _ => destruct x eqn:?
      end
  end.

(** The same in a hypothesis. *)
Ltac case_in H :=
  match type of H with
  | context [match ?x with _ => _ end] =>
      lazymatch x with
      | context [match _ with _ => _ end] => fail
      | _ => destruct x eqn:?
      end
  end.

Ltac case_all H := repeat (case_in H; simplify_eq/=).
