(* ===== verification/Strings.v ===== *)
(** The functions of Go's [strings] and [strconv] packages that the modelled
    code calls, on Go strings, which are byte strings. *)

From Stdlib Require Import Ascii.
From stdpp Require Import base list strings numbers.
From S2P Require Import Prelude.
Local Open Scope Z_scope.

Module Strings.

Definition byte_of (z : Z) : ascii := ascii_of_N (Z.to_N z).
Definition str_of (bs : list Z) : string := String.string_of_list_ascii (byte_of <$> bs).
Definition code (c : ascii) : Z := Z.of_N (N_of_ascii c).

Definition is_digit (c : ascii) : bool := (48 <=? code c) && (code c <=? 57).
Definition is_lower (c : ascii) : bool := (97 <=? code c) && (code c <=? 122).
Definition is_upper (c : ascii) : bool := (65 <=? code c) && (code c <=? 90).
Definition is_alnum (c : ascii) : bool := is_digit c || is_lower c || is_upper c.

Fixpoint str_forallb (p : ascii → bool) (s : string) : bool :=
  match s with
  | EmptyString => true
  | String c s' => p c && str_forallb p s'
  end.

(** The UTF-8 encodings of the runes [unicode.IsSpace] accepts. *)
Definition space_encodings : list (list ascii) :=
  (λ bs : list Z, byte_of <$> bs) <$>
  [ [9]; [10]; [11]; [12]; [13]; [32]; [194; 133]; [194; 160]; [225; 154; 128];
    [226; 128; 128]; [226; 128; 129]; [226; 128; 130]; [226; 128; 131];
    [226; 128; 132]; [226; 128; 133]; [226; 128; 134]; [226; 128; 135];
    [226; 128; 136]; [226; 128; 137]; [226; 128; 138]; [226; 128; 168];
    [226; 128; 169]; [226; 128; 175]; [226; 129; 159]; [227; 128; 128] ].

Fixpoint strip (p l : list ascii) : option (list ascii) :=
  match p, l with
  | [], _ => Some l
  | a :: p', b :: l' => if Ascii.eqb a b then strip p' l' else None
  | _ :: _, [] => None
  end.

(** The first prefix of [ps] that [l] starts with, stripped. *)
Fixpoint strip_any (ps : list (list ascii)) (l : list ascii) : option (list ascii) :=
  match ps with
  | [] => None
  | p :: ps' => match strip p l with Some r => Some r | None => strip_any ps' l end
  end.

(** One rune is at least one byte, so the length of [l] is fuel enough. *)
Fixpoint trim_left (ps : list (list ascii)) (fuel : nat) (l : list ascii) : list ascii :=
  match fuel with
  | O => l
  | S fuel' => match strip_any ps l with Some r => trim_left ps fuel' r | None => l end
  end.

Definition trim_list (l : list ascii) : list ascii :=
  let l1 := trim_left space_encodings (length l) l in
  rev (trim_left (rev (A:=ascii) <$> space_encodings) (length l1) (rev l1)).

(** strings.TrimSpace *)
Definition TrimSpace (s : string) : string :=
  String.string_of_list_ascii (trim_list (String.list_ascii_of_string s)).

(** The longest prefix of bytes that satisfy [p], and the rest. *)
Fixpoint span (p : ascii → bool) (s : string) : string * string :=
  match s with
  | EmptyString => (EmptyString, EmptyString)
  | String c s' =>
      if p c then let '(a, b) := span p s' in (String c a, b) else (EmptyString, s)
  end.

(** strings.TrimPrefix *)
Definition TrimPrefix (s prefix : string) : string :=
  if String.prefix prefix s then String.substring (String.length prefix) (String.length s) s
  else s.

(** strings.Cut at a one-byte separator. *)
Fixpoint Cut (s : string) (sep : ascii) : string * string * bool :=
  match s with
  | EmptyString => (EmptyString, EmptyString, false)
  | String c s' =>
      if Ascii.eqb c sep then (EmptyString, s', true)
      else let '(a, b, found) := Cut s' sep in (String c a, b, found)
  end.

(** The value of a string of decimal digits. *)
Fixpoint dec_from (acc : Z) (s : string) : Z :=
  match s with
  | EmptyString => acc
  | String c s' => dec_from (10 * acc + (code c - 48)) s'
  end.
Definition dec (s : string) : Z := dec_from 0 s.

(** strconv.ParseUint in base 10 with a bit size below 64; [None] is its error. *)
Definition ParseUint (s : string) (bits : Z) : option Z :=
  if (0 <? Z.of_nat (String.length s)) && str_forallb is_digit s && (dec s <? 2^bits)
  then Some (dec s) else None.

(** ** Lemmas *)

(** A printable ASCII byte starts (and ends) no whitespace rune. *)
Definition graphic (c : ascii) : bool := (33 <=? code c) && (code c <=? 126).

Lemma is_digit_graphic c : is_digit c = true → graphic c = true.
Proof. unfold is_digit, graphic. rewrite !andb_true_iff, !Z.leb_le. lia. Qed.

Lemma is_alnum_graphic c : is_alnum c = true → graphic c = true.
Proof.
  unfold is_alnum, is_digit, is_lower, is_upper, graphic.
  rewrite !orb_true_iff, !andb_true_iff, !Z.leb_le. lia.
Qed.

Definition never_graphic (ps : list (list ascii)) : bool :=
  forallb (λ p, match p with a :: _ => negb (graphic a) | [] => false end) ps.

Lemma strip_any_graphic ps c l :
  never_graphic ps = true → graphic c = true → strip_any ps (c :: l) = None.
Proof.
  intros Hp Hc. induction ps as [|p ps IH]; [done|].
  simpl in Hp. apply andb_prop in Hp as [H1 H2]. destruct p as [|a p]; [done|].
  simpl. destruct (Ascii.eqb a c) eqn:E; [|by apply IH].
  apply Ascii.eqb_eq in E. subst. by rewrite Hc in H1.
Qed.

Lemma trim_left_graphic ps n c l :
  never_graphic ps = true → graphic c = true → trim_left ps n (c :: l) = c :: l.
Proof. intros. destruct n; [done|]. simpl. by rewrite strip_any_graphic. Qed.

(** A string between two printable bytes is its own trimming. *)
Lemma TrimSpace_id s a b l :
  String.list_ascii_of_string s = a :: l → list.last (a :: l) = Some b →
  graphic a = true → graphic b = true → TrimSpace s = s.
Proof.
  intros Hs Hl Ha Hb. unfold TrimSpace, trim_list. rewrite Hs.
  rewrite (trim_left_graphic space_encodings) by done. cbv zeta.
  apply last_Some in Hl as [m Hm].
  assert (rev (a :: l) = b :: rev m) as Er by (rewrite Hm; apply rev_app_distr).
  rewrite Er, trim_left_graphic by done.
  rewrite <-Er, rev_involutive, <-Hs. apply String.string_of_list_ascii_of_string.
Qed.

(** [printable s]: [s] starts and ends with a printable byte. *)
Definition printable (s : string) : bool :=
  match String.list_ascii_of_string s with
  | [] => false
  | a :: l =>
      graphic a && match list.last (a :: l) with Some b => graphic b | None => false end
  end.

Lemma TrimSpace_printable s : printable s = true → TrimSpace s = s.
Proof.
  unfold printable. destruct (String.list_ascii_of_string s) as [|a l] eqn:E; [done|].
  destruct (list.last (a :: l)) as [b|] eqn:El; intros H; apply andb_prop in H as [Ha Hb]; [|done].
  by apply (TrimSpace_id s a b l).
Qed.

Lemma list_ascii_app a b :
  String.list_ascii_of_string (a +:+ b) = String.list_ascii_of_string a ++ String.list_ascii_of_string b.
Proof. induction a as [|c a IH]; [done|]. simpl. by f_equal. Qed.

(** One trailing blank is trimmed. *)
Lemma TrimSpace_blank s : printable s = true → TrimSpace (s +:+ " ") = s.
Proof.
  unfold printable. destruct (String.list_ascii_of_string s) as [|a l] eqn:E; [done|].
  destruct (list.last (a :: l)) as [b|] eqn:El; intros H; apply andb_prop in H as [Ha Hb]; [|done].
  unfold TrimSpace, trim_list. rewrite list_ascii_app, E.
  change ((a :: l) ++ String.list_ascii_of_string " ") with (a :: (l ++ [" "%char])).
  rewrite (trim_left_graphic space_encodings) by done. cbv zeta.
  apply last_Some in El as [m Hm].
  assert (rev (a :: (l ++ [" "%char])) = " "%char :: b :: rev m) as ->.
  { rewrite app_comm_cons, rev_app_distr, Hm, rev_app_distr. done. }
  change (length (a :: l ++ [" "%char])) with (S (length (l ++ [" "%char]))).
  simpl trim_left. rewrite trim_left_graphic by done.
  assert (b :: rev m = rev (a :: l)) as -> by (rewrite Hm, rev_app_distr; done).
  rewrite rev_involutive, <-E. apply String.string_of_list_ascii_of_string.
Qed.

Lemma printable_nonempty s : printable s = true → s ≠ "".
Proof. by intros H ->. Qed.

Lemma str_cons_app c a b : String c a +:+ b = String c (a +:+ b).
Proof. done. Qed.

Lemma str_forallb_app p a b : str_forallb p (a +:+ b) = str_forallb p a && str_forallb p b.
Proof. induction a; [done|]. rewrite str_cons_app. simpl. by rewrite IHa, andb_assoc. Qed.

Lemma str_app_nil a : a +:+ "" = a.
Proof. induction a; [done|]. rewrite str_cons_app. by f_equal. Qed.

Lemma str_append_assoc a b c : (a +:+ b) +:+ c = a +:+ (b +:+ c).
Proof. induction a; [done|]. rewrite !str_cons_app. by f_equal. Qed.

Lemma str_length_app a b : String.length (a +:+ b) = (String.length a + String.length b)%nat.
Proof. induction a; [done|]. rewrite str_cons_app. simpl. by rewrite IHa. Qed.

(** [head_stops p s]: [s] is empty or starts with a byte outside [p]. *)
Definition head_stops (p : ascii → bool) (s : string) : bool :=
  match s with EmptyString => true | String c _ => negb (p c) end.

Lemma span_app p a b :
  str_forallb p a = true → head_stops p b = true → span p (a +:+ b) = (a, b).
Proof.
  intros Ha Hb. induction a as [|c a IH]; simpl in *.
  - destruct b as [|c b]; [done|]. simpl in *. by destruct (p c).
  - apply andb_prop in Ha as [Hc Ha]. by rewrite Hc, IH.
Qed.

Lemma span_spec p s a b :
  span p s = (a, b) → s = a +:+ b ∧ str_forallb p a = true ∧ head_stops p b = true.
Proof.
  revert a b. induction s as [|c s IH]; intros a b H; simpl in H.
  - by simplify_eq.
  - destruct (p c) eqn:Ec.
    + destruct (span p s) as [a' b'] eqn:Es. simplify_eq.
      destruct (IH a' b eq_refl) as (-> & Ha & Hb). simpl. by rewrite Ec.
    + simplify_eq. simpl. by rewrite Ec.
Qed.

Lemma prefix_app a b : String.prefix a (a +:+ b) = true.
Proof. induction a as [|c a IH]; [by destruct b|]. rewrite str_cons_app. simpl. by destruct (Ascii.ascii_dec c c). Qed.

Lemma substring_all s n : (String.length s ≤ n)%nat → String.substring 0 n s = s.
Proof.
  revert n. induction s as [|c s IH]; intros [|n] Hn; simpl in *; try done; try lia.
  rewrite IH by lia. done.
Qed.

Lemma substring_app a b n :
  (String.length b ≤ n)%nat → String.substring (String.length a) n (a +:+ b) = b.
Proof. induction a as [|c a IH]; intros Hn; [by apply substring_all|]. by apply IH. Qed.

Lemma TrimPrefix_app a b : TrimPrefix (a +:+ b) a = b.
Proof.
  unfold TrimPrefix. rewrite prefix_app. apply substring_app.
  rewrite str_length_app. lia.
Qed.

Lemma Cut_app s sep a b : Cut s sep = (a, b, true) → s = a +:+ String sep b.
Proof.
  revert a b. induction s as [|c s IH]; intros a b H; simpl in H; [done|].
  destruct (Ascii.eqb c sep) eqn:E.
  - apply Ascii.eqb_eq in E. by simplify_eq.
  - destruct (Cut s sep) as [[a' b'] f']. simplify_eq. rewrite str_cons_app. f_equal. by apply IH.
Qed.

Lemma Cut_none s sep a b : Cut s sep = (a, b, false) → a = s ∧ b = "".
Proof.
  revert a b. induction s as [|c s IH]; intros a b H; simpl in H; [by simplify_eq|].
  destruct (Ascii.eqb c sep); [done|]. destruct (Cut s sep) as [[a' b'] f']. simplify_eq.
  by destruct (IH a' b eq_refl) as [-> ->].
Qed.

Lemma Cut_first a sep b :
  str_forallb (λ c, negb (Ascii.eqb c sep)) a = true → Cut (a +:+ String sep b) sep = (a, b, true).
Proof.
  induction a as [|c a IH]; intros H.
  - simpl. by rewrite Ascii.eqb_refl.
  - rewrite str_cons_app. simpl in *. apply andb_prop in H as [H1 H2]. apply negb_true_iff in H1. rewrite H1. by rewrite IH.
Qed.

Lemma Cut_absent a sep :
  str_forallb (λ c, negb (Ascii.eqb c sep)) a = true → Cut a sep = (a, "", false).
Proof.
  induction a as [|c a IH]; simpl; intros H; [done|].
  apply andb_prop in H as [H1 H2]. apply negb_true_iff in H1. by rewrite H1, IH.
Qed.

Lemma str_forallb_impl (p q : ascii → bool) s :
  (∀ c, p c = true → q c = true) → str_forallb p s = true → str_forallb q s = true.
Proof.
  intros Hpq. induction s as [|c s IH]; simpl; [done|].
  rewrite !andb_true_iff. intros [??]. auto.
Qed.

Lemma dec_from_bounds acc s :
  str_forallb is_digit s = true → 0 ≤ acc →
  acc * 10 ^ Z.of_nat (String.length s) ≤ dec_from acc s
    < (acc + 1) * 10 ^ Z.of_nat (String.length s).
Proof.
  revert acc. induction s as [|c s IH]; intros acc Hs Ha; simpl in *; [lia|].
  apply andb_prop in Hs as [Hc Hs]. unfold is_digit in Hc.
  apply andb_prop in Hc as [H1 H2]. apply Z.leb_le in H1, H2.
  specialize (IH (10 * acc + (code c - 48)) Hs ltac:(lia)).
  change (String.length (String c s)) with (S (String.length s)).
  rewrite Nat2Z.inj_succ, Z.pow_succ_r by lia.
  assert (0 < 10 ^ Z.of_nat (String.length s)) by (apply Z.pow_pos_nonneg; lia). nia.
Qed.

Lemma dec_bounds s :
  str_forallb is_digit s = true → 0 ≤ dec s < 10 ^ Z.of_nat (String.length s).
Proof. intros H. pose proof (dec_from_bounds 0 s H ltac:(lia)). unfold dec. lia. Qed.

(** *** Trimming twice *)

Lemma strip_spec p l r : strip p l = Some r ↔ l = p ++ r.
Proof.
  revert l. induction p as [|a p IHp]; intros l; simpl; [naive_solver|].
  destruct l as [|b l]; [done|]. destruct (Ascii.eqb_spec a b) as [->|Hne].
  - rewrite IHp. split; [by intros ->|by intros [= ->]].
  - split; [done|]. by intros [= ->].
Qed.

Lemma strip_any_none ps l : strip_any ps l = None ↔ Forall (λ p, ∀ r, l ≠ p ++ r) ps.
Proof.
  induction ps as [|p ps IHps]; simpl; [by split|]. destruct (strip p l) as [r|] eqn:E.
  - apply strip_spec in E. split; [done|]. intros [H _]%Forall_cons_1. by destruct (H r).
  - rewrite IHps. split; [|by intros [_ ?]%Forall_cons_1]. intros H. constructor; [|done].
    intros r Hr. apply strip_spec in Hr. congruence.
Qed.

Lemma strip_any_some ps l r :
  strip_any ps l = Some r → ∃ p, p ∈ ps ∧ l = p ++ r.
Proof.
  induction ps as [|p ps IHps]; simpl; [done|]. destruct (strip p l) as [r'|] eqn:E.
  - intros [= ->]. exists p. split; [by left|by apply strip_spec].
  - intros H. apply IHps in H as (q & Hq & ->). exists q. split; [by right|done].
Qed.

Lemma trim_left_done ps n l :
  Forall (λ p, p ≠ []) ps → (length l ≤ n)%nat → strip_any ps (trim_left ps n l) = None.
Proof.
  intros Hps. revert l. induction n as [|n IH]; intros l Hn; simpl.
  - destruct l; [|simpl in Hn; lia]. apply strip_any_none. eapply Forall_impl; [|exact Hps].
    intros p Hp r Hr. by destruct p.
  - destruct (strip_any ps l) as [r|] eqn:E; [|done]. apply IH.
    apply strip_any_some in E as (p & Hp & ->). rewrite Forall_forall in Hps. specialize (Hps p (proj1 (list_elem_of_In _ _) Hp)).
    rewrite length_app in Hn. destruct p; [done|]. simpl in Hn. lia.
Qed.

Lemma trim_left_suffix ps n l : ∃ k, l = k ++ trim_left ps n l.
Proof.
  revert l. induction n as [|n IH]; intros l; simpl; [by exists []|].
  destruct (strip_any ps l) as [r|] eqn:E; [|by exists []].
  apply strip_any_some in E as (p & _ & ->). destruct (IH r) as [k Hk]. exists (p ++ k). by rewrite <-app_assoc, <-Hk.
Qed.

Lemma trim_left_fix ps n l : strip_any ps l = None → trim_left ps n l = l.
Proof. intros H. destruct n; [done|]. simpl. by rewrite H. Qed.

Lemma trim_list_idem l : trim_list (trim_list l) = trim_list l.
Proof.
  unfold trim_list at 2 3. set (l1 := trim_left space_encodings (length l) l).
  set (ps' := rev (A:=ascii) <$> space_encodings). set (r := rev (trim_left ps' (length l1) (rev l1))).
  assert (strip_any space_encodings l1 = None) as H1.
  { apply trim_left_done; [|done]. repeat first [apply Forall_cons_2 | apply Forall_nil_2]; done. }
  assert (strip_any ps' (rev r) = None) as H2.
  { unfold r. rewrite rev_involutive. apply trim_left_done; [|by rewrite length_rev].
    repeat first [apply Forall_cons_2 | apply Forall_nil_2]; done. }
  assert (strip_any space_encodings r = None) as H3.
  { destruct (trim_left_suffix ps' (length l1) (rev l1)) as [k Hk].
    assert (l1 = r ++ rev k) as Hl1 by (unfold r; rewrite <-rev_app_distr, <-Hk; by rewrite rev_involutive).
    apply strip_any_none. apply strip_any_none in H1. eapply Forall_impl; [|exact H1].
    intros p Hp x Hx. apply (Hp (x ++ rev k)). by rewrite Hl1, Hx, app_assoc. }
  unfold trim_list. rewrite (trim_left_fix space_encodings) by done. cbv zeta. fold ps'.
  rewrite (trim_left_fix ps') by done. apply rev_involutive.
Qed.

Lemma TrimSpace_idem s : TrimSpace (TrimSpace s) = TrimSpace s.
Proof. unfold TrimSpace. by rewrite String.list_ascii_of_string_of_list_ascii, trim_list_idem. Qed.
End Strings.
