(* ===== verification/Wire.v ===== *)
(** The wire data shared by the machine and the manager: the
    UploadCommandData envelope, its payloads, acks and rejections
    (the messages [proto/v1/v1/machine.proto] and [command.proto] define), and
    the interface of the protobuf codec the Go code calls. *)

From S2P Require Import Prelude.
From stdpp Require Import base gmap list strings numbers.
Local Open Scope Z_scope.

(** ** Enumerations

    Proto enums are open [int32]s in Go: any value can arrive, the named ones are
    constants. *)

Definition UPLOAD_ENTRY_KIND_PROGRESS : Z := 1.
Definition UPLOAD_ENTRY_KIND_EVENT : Z := 2.
Definition UPLOAD_ENTRY_KIND_RESULT : Z := 3.

Definition CommandOutput_STDOUT : Z := 1.
Definition CommandOutput_STDERR : Z := 2.
Definition CommandOutput_SYSTEM : Z := 3.
Definition CommandOutput_ASSISTANT : Z := 4.

Definition CommandEventType_LIFECYCLE : Z := 1.
Definition CommandEventType_TEXT_DELTA : Z := 2.
Definition CommandEventType_TOOL_CALL_STARTED : Z := 3.
Definition CommandEventType_TOOL_CALL_FINISHED : Z := 4.
Definition CommandEventType_DIFF_EMITTED : Z := 5.
Definition CommandEventType_WARNING : Z := 6.
Definition CommandEventType_RAW_ACP : Z := 7.
Definition CommandEventType_FINAL_SUMMARY : Z := 8.
Definition CommandEventType_CONTEXT_COMPACTION_STARTED : Z := 12.
Definition CommandEventType_CONTEXT_COMPACTION_FINISHED : Z := 13.
Definition CommandEventType_CONTEXT_USAGE_UPDATE : Z := 14.
Definition CommandEventType_TOKEN_USAGE : Z := 15.
Definition CommandEventType_SYSTEM : Z := 16.

(** ** Payloads

    Timestamps are optional message pointers; a valid one is its Unix
    nanosecond count.  A [google.protobuf.Struct] is kept as an opaque text. *)

Record CommandProgress := MkProgress {
  cp_command_id : string;
  cp_type : Z;
  cp_content : string;
  cp_seq_no : Z;
  cp_timestamp : option Z
}.

Inductive EventPayload :=
| EvLifecycle (executor_kind profile : string)
| EvTextDelta (stream_type content : string)
| EvToolCallStarted (title raw_input tool_call_id : string)
| EvToolCallFinished (status raw_output tool_call_id : string)
| EvDiffEmitted (path old_text new_text : string)
| EvWarning (message : string)
| EvRawAcp (data : string)
| EvFinalSummary (stop_reason session_id : string)
| EvContextCompaction (reason : string) (inferred : bool)
| EvContextUsage (size used : Z)
| EvTokenUsage (input output cache_read cache_write total : Z).

Record CommandEvent := MkEvent {
  ce_command_id : string;
  ce_seq_no : Z;
  ce_type : Z;
  ce_summary : string;
  ce_timestamp : option Z;
  ce_payload : option EventPayload
}.

Record CommandResult := MkResult {
  cr_command_id : string;
  cr_exit_code : Z;
  cr_duration_ms : Z;
  cr_error_message : string;
  cr_last_seq_no : Z;
  cr_final_summary : string;
  cr_result : option string
}.

Inductive Payload :=
| PProgress (p : CommandProgress)
| PEvent (e : CommandEvent)
| PResult (r : CommandResult).

(** [UploadCommandDataEntry], the durable envelope. *)
Record Entry := MkEntry {
  en_command_id : string;
  en_kind : Z;
  en_seq_no : Z;
  en_agent_side_timestamp : option Z;
  en_payload : option Payload
}.

(** The generated getters: nil-safe projections of the oneof. *)
Definition GetProgress (e : Entry) : option CommandProgress :=
  match en_payload e with Some (PProgress p) => Some p | _ => None end.
Definition GetEvent (e : Entry) : option CommandEvent :=
  match en_payload e with Some (PEvent v) => Some v | _ => None end.
Definition GetResult (e : Entry) : option CommandResult :=
  match en_payload e with Some (PResult r) => Some r | _ => None end.

Record Ack := MkAck {
  ack_command_id : string;
  ack_last_progress_seq : Z;
  ack_last_event_seq : Z;
  ack_result_acked : bool
}.

Record Rejection := MkRejection {
  rej_command_id : string;
  rej_kind : Z;
  rej_seq_no : Z;
  rej_reason : string
}.

Record UploadResponse := MkResponse {
  resp_acks : list Ack;
  resp_rejected : list Rejection
}.

#[export] Instance CommandProgress_eq_dec : EqDecision CommandProgress.
Proof. solve_decision. Defined.
#[export] Instance EventPayload_eq_dec : EqDecision EventPayload.
Proof. solve_decision. Defined.
#[export] Instance CommandEvent_eq_dec : EqDecision CommandEvent.
Proof. solve_decision. Defined.
#[export] Instance CommandResult_eq_dec : EqDecision CommandResult.
Proof. solve_decision. Defined.
#[export] Instance Payload_eq_dec : EqDecision Payload.
Proof. solve_decision. Defined.
#[export] Instance Entry_eq_dec : EqDecision Entry.
Proof. solve_decision. Defined.
#[export] Instance Ack_eq_dec : EqDecision Ack.
Proof. solve_decision. Defined.
#[export] Instance Rejection_eq_dec : EqDecision Rejection.
Proof. solve_decision. Defined.

(** ** The protobuf codec (google.golang.org/protobuf), an interface

    [proto.Marshal], [proto.Unmarshal] and [proto.Size] on envelopes.  The
    bytes are opaque; the outbox looks only at their number. *)

Class Codec := {
  bytes : Type;
  nil_bytes : bytes;
  blen : bytes → Z;
  proto_size : Entry → Z;
  proto_marshal : Entry → option bytes;
  proto_unmarshal : bytes → option Entry
}.

Class CodecLaws (C : Codec) := {
  blen_nonneg b : 0 ≤ blen b;
  unmarshal_marshal e b : proto_marshal e = Some b → proto_unmarshal b = Some e;
  size_marshal e b : proto_marshal e = Some b → proto_size e = blen b
}.

(** A concrete codec, for evaluation: a record is its envelope, torn data is
    [None], and a frame has ten bytes plus its progress content. *)
Definition ref_len (e : Entry) : Z :=
  10 + match GetProgress e with Some p => Z.of_nat (String.length (cp_content p)) | None => 0 end.

Definition ref_codec : Codec := {|
  bytes := option Entry;
  nil_bytes := None;
  blen := λ b, match b with Some e => ref_len e | None => 0 end;
  proto_size := ref_len;
  proto_marshal := λ e, Some (Some e);
  proto_unmarshal := λ b, b
|}.

Lemma ref_codec_laws : CodecLaws ref_codec.
Proof.
  split; simpl.
  - intros [e|]; [|lia]. unfold ref_len. destruct (GetProgress e); lia.
  - congruence.
  - intros e b [= <-]. done.
Qed.
