(* ===== verification/Wal.v ===== *)
(** The write-ahead log the outbox stands on (github.com/tidwall/wal) and the
    directory operations around it ([os.Rename], the segment sizes), as an
    interface: [WalOps] is what [outbox.go] calls, [WalLaws] the documented
    behaviour it relies on.  [MemWal] is a reference implementation with
    scheduled faults; it discharges the laws and lets examples run. *)

From S2P Require Import Prelude Wire.
From stdpp Require Import base list strings numbers.
Local Open Scope Z_scope.

(** The library's errors the outbox distinguishes; every other one (a closed
    log, a full or read-only disk) is [ErrIO]. *)
Inductive werr :=
| ErrCorrupt           (* wal.ErrCorrupt *)
| ErrNotFound          (* wal.ErrNotFound *)
| ErrOutOfRange        (* wal.ErrOutOfRange *)
| ErrIO (msg : string).

#[export] Instance werr_eq_dec : EqDecision werr.
Proof. solve_decision. Defined.

(** [errors.Is] on an error of the library. *)
Definition werr_is (e target : werr) : bool := bool_decide (e = target).

(** [W] is the outbox's directory as the library and the file system keep it,
    [H] an open log handle. *)
Class WalOps (B W H : Type) := {
  wal_open : W → W * res werr H;
  wal_close : W → H → W * res werr unit;
  wal_first : W → H → res werr Z;
  wal_last : W → H → res werr Z;
  wal_read : W → H → Z → res werr B;
  wal_write_batch : W → H → list (Z * B) → W * res werr unit;
  wal_truncate_front : W → H → Z → W * res werr unit;
  fs_rename_aside : W → W * res werr unit;
  fs_dir_size : W → res werr Z
}.

(** The records with consecutive indexes from [i]. *)
Fixpoint indexed {A} (i : Z) (l : list A) : list (Z * A) :=
  match l with
  | [] => []
  | x :: l' => (i, x) :: indexed (i + 1) l'
  end.

Class WalLaws {B W H} (ops : WalOps B W H) := {
  (** The first index and the records on disk. *)
  wal_content : W → Z * list B;
  (** The handle is the current, healthy one. *)
  wal_ok : W → H → Prop;
  (** Indexes are positive [uint64]s, and so is the next one. *)
  content_range w h f rs :
    wal_ok w h → wal_content w = (f, rs) → 1 ≤ f ∧ f + Z.of_nat (length rs) < 2^64;
  open_ok w w' h :
    wal_open w = (w', Ok h) → wal_content w' = wal_content w ∧ wal_ok w' h;
  open_err w w' e : wal_open w = (w', Err e) → wal_content w' = wal_content w;
  close_content w h w' r : wal_close w h = (w', r) → wal_content w' = wal_content w;
  first_ok w h f rs :
    wal_ok w h → wal_content w = (f, rs) → wal_first w h = Ok f;
  last_ok w h f rs :
    wal_ok w h → wal_content w = (f, rs) →
    wal_last w h = Ok (f + Z.of_nat (length rs) - 1);
  (** Reading inside the range never answers "not found"; a value that is
      returned is the stored record. *)
  read_in_range w h f rs i :
    wal_ok w h → wal_content w = (f, rs) → f ≤ i < f + Z.of_nat (length rs) →
    match wal_read w h i with
    | Ok b => rs !! Z.to_nat (i - f) = Some b
    | Err e => werr_is e ErrNotFound = false
    end;
  (** One fsync'd batch right after the last record; a failed batch may have
      left any prefix on disk. *)
  write_batch_ok w h f rs bs w' :
    wal_ok w h → wal_content w = (f, rs) →
    wal_write_batch w h (indexed (f + Z.of_nat (length rs)) bs) = (w', Ok tt) →
    wal_content w' = (f, rs ++ bs) ∧ wal_ok w' h;
  write_batch_err w h f rs bs w' e :
    wal_ok w h → wal_content w = (f, rs) →
    wal_write_batch w h (indexed (f + Z.of_nat (length rs)) bs) = (w', Err e) →
    ∃ n, wal_content w' = (f, rs ++ take n bs);
  (** Truncation up to and including everything ([AllowEmpty]). *)
  truncate_ok w h f rs i w' :
    wal_ok w h → wal_content w = (f, rs) → f ≤ i ≤ f + Z.of_nat (length rs) →
    wal_truncate_front w h i = (w', Ok tt) →
    wal_content w' = (i, drop (Z.to_nat (i - f)) rs) ∧ wal_ok w' h;
  truncate_err w h f rs i w' e :
    wal_ok w h → wal_content w = (f, rs) → f ≤ i ≤ f + Z.of_nat (length rs) →
    wal_truncate_front w h i = (w', Err e) →
    e ≠ ErrOutOfRange ∧
    (wal_content w' = (f, rs) ∨ wal_content w' = (i, drop (Z.to_nat (i - f)) rs));
  rename_ok w w' : fs_rename_aside w = (w', Ok tt) → wal_content w' = (1, []);
  rename_err w w' e : fs_rename_aside w = (w', Err e) → wal_content w' = wal_content w
}.

Lemma length_indexed {A} i (l : list A) : length (indexed i l) = length l.
Proof. revert i. induction l; simpl; auto. Qed.

Lemma indexed_app {A} i (l1 l2 : list A) :
  indexed i (l1 ++ l2) = indexed i l1 ++ indexed (i + Z.of_nat (length l1)) l2.
Proof.
  revert i. induction l1 as [|x l1 IH]; intros i; simpl.
  - by rewrite Z.add_0_r.
  - rewrite IH. do 3 f_equal. lia.
Qed.

Lemma snd_indexed {A} i (l : list A) : (indexed i l).*2 = l.
Proof. revert i. induction l; intros i; simpl; [done|]. by rewrite IHl. Qed.

Lemma lookup_indexed {A} i (l : list A) k :
  indexed i l !! k = (λ x, (i + Z.of_nat k, x)) <$> (l !! k).
Proof.
  revert i k. induction l as [|x l IH]; intros i [|k]; simpl; try done.
  - by rewrite Z.add_0_r.
  - rewrite IH. destruct (l !! k); simpl; [|done]. do 2 f_equal. lia.
Qed.

Lemma lookup_indexed_Some {A} i (l : list A) k j x :
  indexed i l !! k = Some (j, x) ↔ j = i + Z.of_nat k ∧ l !! k = Some x.
Proof.
  rewrite lookup_indexed. destruct (l !! k); simpl; split; intros; simplify_eq; destruct_and?; simplify_eq; done.
Qed.

Lemma elem_of_indexed {A} i (l : list A) j x :
  (j, x) ∈ indexed i l ↔ i ≤ j ∧ l !! Z.to_nat (j - i) = Some x.
Proof.
  rewrite list_elem_of_lookup. setoid_rewrite lookup_indexed_Some. split.
  - intros (k & -> & Hk). replace (Z.to_nat (i + Z.of_nat k - i)) with k by lia. split; [lia|done].
  - intros [Hi Hl]. exists (Z.to_nat (j - i)). split; [lia|done].
Qed.

(** ** A reference log: contents in memory, one scheduled fault per call *)
Module MemWal.
Section mem.
Context {B : Type}.

(** [mw_faults]: for each mutating call, [Some (n, e)] makes it fail with [e]
  after [n] records of its effect.  [mw_bad]: an unreadable index. *)
Record memwal := MkMem {
mw_first : Z;
mw_recs : list B;
mw_gen : nat;
mw_faults : list (option (nat * werr));
mw_bad : option Z;
mw_size : Z
}.

Definition fault (w : memwal) : option (nat * werr) * memwal :=
match mw_faults w with
| [] => (None, w)
| x :: fs => (x, MkMem (mw_first w) (mw_recs w) (mw_gen w) fs (mw_bad w) (mw_size w))
end.

Definition in_range (f : Z) (rs : list B) : bool :=
(1 <=? f) && (f + Z.of_nat (length rs) <? 2^64).

Definition set_recs (w : memwal) (f : Z) (rs : list B) (gen : nat) : memwal :=
MkMem f rs gen (mw_faults w) (mw_bad w) (mw_size w).

Definition next (w : memwal) : Z := mw_first w + Z.of_nat (length (mw_recs w)).

Definition open (w : memwal) : memwal * res werr nat :=
match fault w with
| (Some (_, e), w') => (w', Err e)
| (None, w') =>
    if in_range (mw_first w') (mw_recs w')
    then (set_recs w' (mw_first w') (mw_recs w') (S (mw_gen w')), Ok (S (mw_gen w')))
    else (w', Err ErrCorrupt)
end.

Definition write_batch (w : memwal) (h : nat) (b : list (Z * B)) : memwal * res werr unit :=
match fault w with
| (Some (n, e), w') =>
    (set_recs w' (mw_first w') (mw_recs w' ++ take n b.*2) (S (mw_gen w')), Err e)
| (None, w') =>
    if in_range (mw_first w') (mw_recs w' ++ b.*2)
    then (set_recs w' (mw_first w') (mw_recs w' ++ b.*2) (mw_gen w'), Ok tt)
    else (w', Err (ErrIO "no space"))
end.

Definition truncate_front (w : memwal) (h : nat) (i : Z) : memwal * res werr unit :=
match fault w with
| (Some (_, e), w') => (w', Err (if werr_is e ErrOutOfRange then ErrIO "io" else e))
| (None, w') =>
    if (mw_first w' <=? i) && (i <=? next w')
    then (set_recs w' i (drop (Z.to_nat (i - mw_first w')) (mw_recs w')) (mw_gen w'), Ok tt)
    else (w', Err ErrOutOfRange)
end.

Definition rename_aside (w : memwal) : memwal * res werr unit :=
match fault w with
| (Some (_, e), w') => (w', Err e)
| (None, w') => (set_recs w' 1 [] (S (mw_gen w')), Ok tt)
end.

Definition read (w : memwal) (h : nat) (i : Z) : res werr B :=
if bool_decide (mw_bad w = Some i) then Err (ErrIO "bad sector") else
if (mw_first w <=? i) && (i <? next w)
then match mw_recs w !! Z.to_nat (i - mw_first w) with
     | Some b => Ok b
     | None => Err ErrNotFound
     end
else Err ErrNotFound.

Definition ops : WalOps B memwal nat := {|
wal_open := open;
wal_close := λ w _, (w, Ok tt);
wal_first := λ w _, Ok (mw_first w);
wal_last := λ w _, Ok (next w - 1);
wal_read := read;
wal_write_batch := write_batch;
wal_truncate_front := truncate_front;
fs_rename_aside := rename_aside;
fs_dir_size := λ w, Ok (mw_size w)
|}.

Definition ok (w : memwal) (h : nat) : Prop :=
h = mw_gen w ∧ in_range (mw_first w) (mw_recs w) = true.

Lemma fault_content w x w' :
fault w = (x, w') →
mw_first w' = mw_first w ∧ mw_recs w' = mw_recs w ∧ mw_gen w' = mw_gen w.
Proof. unfold fault. destruct (mw_faults w); intros [= <- <-]; done. Qed.

Ltac start :=
unfold ok in *; intros; destruct_and?; simplify_eq/=;
repeat match goal with
| HH : context [fault ?w] |- _ =>
    let Hf := fresh "Hf" in
    destruct (fault w) as [[[? ?]|] ?] eqn:Hf;
    pose proof (fault_content _ _ _ Hf) as (? & ? & ?); clear Hf
end; simplify_eq/=.

Lemma open_spec w w' h :
open w = (w', Ok h) → mw_first w' = mw_first w ∧ mw_recs w' = mw_recs w ∧ ok w' h.
Proof. unfold open. start. case_match; simplify_eq/=. repeat split; congruence. Qed.

Lemma open_err_spec w w' e :
open w = (w', Err e) → mw_first w' = mw_first w ∧ mw_recs w' = mw_recs w.
Proof. unfold open. start; [split; congruence|]. case_match; simplify_eq/=. split; congruence. Qed.

Lemma write_ok_spec w h bs w' :
write_batch w h bs = (w', Ok tt) → ok w h →
mw_first w' = mw_first w ∧ mw_recs w' = mw_recs w ++ bs.*2 ∧ ok w' h.
Proof. unfold write_batch. start. case_match; simplify_eq/=. repeat split; congruence. Qed.

Lemma write_err_spec w h bs w' e :
write_batch w h bs = (w', Err e) →
∃ n, mw_first w' = mw_first w ∧ mw_recs w' = mw_recs w ++ take n bs.*2.
Proof.
unfold write_batch. start.
- eexists. split; [done|]. by f_equal.
- case_match; simplify_eq/=. exists 0%nat. rewrite take_0, app_nil_r. done.
Qed.

Lemma truncate_ok_spec w h i w' :
truncate_front w h i = (w', Ok tt) → ok w h →
mw_first w ≤ i ≤ mw_first w + Z.of_nat (length (mw_recs w)) →
mw_first w' = i ∧ mw_recs w' = drop (Z.to_nat (i - mw_first w)) (mw_recs w) ∧ ok w' h.
Proof.
unfold truncate_front, next. start. case_match; simplify_eq/=.
repeat split; try congruence. unfold in_range in *.
rewrite length_drop. apply andb_true_iff.
rewrite ?andb_true_iff in *. destruct_and!.
repeat match goal with HH : mw_first _ = _ |- _ => rewrite HH in * end.
repeat match goal with HH : mw_recs _ = _ |- _ => rewrite HH in * end.
rewrite ?Z.leb_le, ?Z.ltb_lt in *. lia.
Qed.

Lemma truncate_err_spec w h i w' e :
truncate_front w h i = (w', Err e) →
mw_first w ≤ i ≤ next w →
e ≠ ErrOutOfRange ∧ mw_first w' = mw_first w ∧ mw_recs w' = mw_recs w.
Proof.
unfold truncate_front, next, werr_is. start.
- split; [by case_bool_decide|done].
- repeat match goal with HH : mw_first _ = _ |- _ => rewrite HH in * end.
  repeat match goal with HH : mw_recs _ = _ |- _ => rewrite HH in * end.
  case_match eqn:E; simplify_eq/=. apply andb_false_iff in E. lia.
Qed.

Lemma rename_spec w w' r :
rename_aside w = (w', r) →
match r with
| Ok _ => mw_first w' = 1 ∧ mw_recs w' = []
| Err _ => mw_first w' = mw_first w ∧ mw_recs w' = mw_recs w
end.
Proof. unfold rename_aside. start; done. Qed.

Lemma read_spec w h i :
mw_first w ≤ i < next w →
match read w h i with
| Ok b => mw_recs w !! Z.to_nat (i - mw_first w) = Some b
| Err e => werr_is e ErrNotFound = false
end.
Proof.
unfold read, next. intros Hi. case_bool_decide; [done|].
destruct ((_ <=? _) && _) eqn:E; [|apply andb_false_iff in E; lia].
destruct (_ !! _) eqn:El; [done|].
apply lookup_ge_None in El. lia.
Qed.

#[program] Definition laws : WalLaws ops := {|
wal_content := λ w, (mw_first w, mw_recs w);
wal_ok := ok
|}.
Next Obligation.
intros w h f rs [-> Hr] [= <- <-]. unfold in_range in Hr.
apply andb_true_iff in Hr as [??]. lia.
Qed.
Next Obligation. intros w w' h Ho. apply open_spec in Ho as (-> & -> & ?). done. Qed.
Next Obligation. intros w w' e Ho. apply open_err_spec in Ho as (-> & ->). done. Qed.
Next Obligation. intros w h w' r [= <- <-]. done. Qed.
Next Obligation. intros w h f rs _ [= <- <-]. done. Qed.
Next Obligation. intros w h f rs _ [= <- <-]. done. Qed.
Next Obligation. intros w h f rs i _ [= <- <-]. apply read_spec. Qed.
Next Obligation.
intros w h f rs bs w' Hok [= <- <-] Hw.
apply write_ok_spec in Hw as (-> & -> & ?); [|done]. by rewrite snd_indexed.
Qed.
Next Obligation.
intros w h f rs bs w' e _ [= <- <-] Hw.
apply write_err_spec in Hw as (n & -> & ->). rewrite snd_indexed. eauto.
Qed.
Next Obligation.
intros w h f rs i w' Hok [= <- <-] Hi Hw.
apply truncate_ok_spec in Hw as (-> & -> & ?); done.
Qed.
Next Obligation.
intros w h f rs i w' e _ [= <- <-] Hi Hw.
apply truncate_err_spec in Hw as (? & -> & ->); [|done]. split; [done|by left].
Qed.
Next Obligation. intros w w' Hr. apply rename_spec in Hr as (-> & ->). done. Qed.
Next Obligation. intros w w' e Hr. apply rename_spec in Hr as (-> & ->). done. Qed.
End mem.

Arguments memwal : clear implicits.
End MemWal.
