(* ===== verification/Outbox.v ===== *)
(** The machine-side durable outbox, [backend/agent/outbox/outbox.go]: one
    agent's command data log, appended to by the turn loop and read, evicted and
    capped by the uploader.  The log library and the codec are the interfaces of
    [Wal] and [Wire]; the mutex makes each operation one atomic step, so an
    operation is one transition of the state [outbox]. *)

From S2P Require Import Prelude Wire Wal.
From stdpp Require Import base list strings numbers.
Local Open Scope Z_scope.

Definition flushThresholdBytes : Z := 64 * 1024.
Definition MaxBytes : Z := Z.shiftl 512 20.
Definition ReadBatchMaxEntries : Z := 4096.

(** The errors the operations return: [ErrClosed], an error of the log
    library, or [errors.Join].  [OutOfSteps] is no Go value: it marks a read
    loop that used up the model's steps (never, [read_records_spec]). *)
Inductive oerr :=
| ErrClosed
| ErrWal (e : werr)
| ErrJoin (e1 e2 : oerr)
| OutOfSteps.

#[export] Instance oerr_eq_dec : EqDecision oerr.
Proof. solve_decision. Defined.

(** [Record]: a WAL index and its envelope; no envelope is a poison record. *)
Record record := MkRecord { rec_index : Z; rec_entry : option Entry }.

#[export] Instance record_eq_dec : EqDecision record.
Proof. solve_decision. Defined.

Section outbox.
Context {C : Codec} {W H : Type} {ops : WalOps bytes W H}.

(** [ob_w] is the directory [dir] with the library's own state. *)
Record outbox := MkOutbox {
  ob_w : W;
  ob_log : option H;
  ob_closed : bool;
  ob_buffered : list Entry;
  ob_bufferedBytes : Z
}.

Definition set_w (w : W) (o : outbox) : outbox :=
  MkOutbox w (ob_log o) (ob_closed o) (ob_buffered o) (ob_bufferedBytes o).
Definition set_log (h : option H) (o : outbox) : outbox :=
  MkOutbox (ob_w o) h (ob_closed o) (ob_buffered o) (ob_bufferedBytes o).
Definition set_closed (b : bool) (o : outbox) : outbox :=
  MkOutbox (ob_w o) (ob_log o) b (ob_buffered o) (ob_bufferedBytes o).
Definition set_buffered (l : list Entry) (n : Z) (o : outbox) : outbox :=
  MkOutbox (ob_w o) (ob_log o) (ob_closed o) l n.

Definition OM : Type → Type := M outbox oerr.

(** A call into the library, on the current directory. *)
Definition wal_call {A} (f : W → W * res werr A) : OM A := λ o,
  match f (ob_w o) with
  | (w', Ok a) => (set_w w' o, Ok a)
  | (w', Err e) => (set_w w' o, Err (ErrWal e))
  end.

Definition wal_query {A} (f : W → res werr A) : OM A := λ o,
  match f (ob_w o) with
  | Ok a => (o, Ok a)
  | Err e => (o, Err (ErrWal e))
  end.

(** Open: one retry on corruption, then quarantine and start fresh. *)
Definition Open (w : W) : W * res werr outbox :=
  let opened w' h := (w', Ok (MkOutbox w' (Some h) false [] 0)) in
  match wal_open w with
  | (w1, Ok h) => opened w1 h
  | (w1, Err e) =>
      if negb (werr_is e ErrCorrupt) then (w1, Err e) else
      match wal_open w1 with
      | (w2, Ok h) => opened w2 h
      | (w2, Err _) =>
          let '(w3, _) := fs_rename_aside w2 in
          match wal_open w3 with
          | (w4, Ok h) => opened w4 h
          | (w4, Err e') => (w4, Err e')
          end
      end
  end.

Definition marshalEnvelope (e : Entry) : bytes :=
  match proto_marshal e with Some b => b | None => nil_bytes end.

(** walRange *)
Definition walRange (h : H) : OM (Z * Z) :=
  first ← wal_query (λ w, wal_first w h);
  last ← wal_query (λ w, wal_last w h);
  mret (first, last).

(** [batch.Write(next, ...); next++] over the entries. *)
Fixpoint batch_writes (next : Z) (entries : list Entry) : list (Z * bytes) :=
  match entries with
  | [] => []
  | e :: es => (next, marshalEnvelope e) :: batch_writes (next + 1) es
  end.

Definition appendBatchLocked (entries : list Entry) : OM unit :=
  l ← gets ob_log;
  match l with
  | None => throw ErrClosed
  | Some h =>
      '(_, last) ← walRange h;
      wal_call (λ w, wal_write_batch w h (batch_writes (last + 1) entries))
  end.

(** [if o.log != nil { _ = o.log.Close(); o.log = nil }] *)
Definition closeLog : OM unit :=
  l ← gets ob_log;
  match l with
  | None => mret tt
  | Some h =>
      _ ← attempt (wal_call (λ w, wal_close w h));
      modify (set_log None)
  end.

Definition reopenLocked : OM unit :=
  closeLog;;
  h ← wal_call wal_open;
  modify (set_log (Some h)).

Definition ensureLogLocked : OM H :=
  l ← gets ob_log;
  match l with
  | Some h => mret h
  | None =>
      c ← gets ob_closed;
      if (c : bool) then throw ErrClosed else
      h ← wal_call wal_open;
      modify (set_log (Some h));;
      mret h
  end.

(** The second-failure block of writeLocked: close, move the directory
    aside, start a fresh log, report the write error. *)
Definition isolateLocked (err : oerr) : OM unit :=
  closeLog;;
  _ ← attempt (wal_call fs_rename_aside);
  fresh ← attempt (wal_call wal_open);
  match fresh with
  | Err openErr => throw (ErrJoin err openErr)
  | Ok h => modify (set_log (Some h));; throw err
  end.

Definition writeLocked (entries : list Entry) : OM unit :=
  r ← attempt (appendBatchLocked entries);
  match r with
  | Ok _ => mret tt
  | Err _ =>
      reopenLocked;;
      r2 ← attempt (appendBatchLocked entries);
      match r2 with
      | Ok _ => mret tt
      | Err err => isolateLocked err
      end
  end.

Definition flushLocked : OM unit :=
  b ← gets ob_buffered;
  match b with
  | [] => mret tt
  | _ => writeLocked b;; modify (set_buffered [] 0)
  end.

Definition Append (entry : Entry) : OM unit :=
  c ← gets ob_closed;
  if (c : bool) then throw ErrClosed else
  modify (λ o, set_buffered (ob_buffered o ++ [entry]) (ob_bufferedBytes o + proto_size entry) o);;
  n ← gets ob_bufferedBytes;
  if flushThresholdBytes <=? n then flushLocked else mret tt.

Definition Flush : OM unit :=
  c ← gets ob_closed;
  if (c : bool) then throw ErrClosed else flushLocked.

(** The loop of ReadRecords, from [first] with [records] collected. *)
Fixpoint read_loop (steps : nat) (h : H) (maxRecords maxBytes first last : Z)
    (records : list record) : OM (list record) :=
  match steps with
  | O => throw OutOfSteps
  | S steps' =>
      if negb (Z.of_nat (length records) <? maxRecords) then mret records else
      if last <? first then mret records else
      r ← attempt (wal_query (λ w, wal_read w h first));
      match r with
      | Err (ErrWal ErrNotFound) =>
          '(first', last') ← walRange h;
          if last' <? first' then mret records
          else read_loop steps' h maxRecords maxBytes first' last' records
      | Err rErr =>
          o ← attempt reopenLocked;
          match o with
          | Err oErr => throw (ErrJoin rErr oErr)
          | Ok _ => throw rErr
          end
      | Ok data =>
          if (0 <? Z.of_nat (length records)) && (maxBytes - blen data <? 0)
          then mret records else
          let records' := records ++ [MkRecord first (proto_unmarshal data)] in
          let maxBytes' := maxBytes - blen data in
          if maxBytes' <=? 0 then mret records'
          else read_loop steps' h maxRecords maxBytes' (first + 1) last records'
      end
  end.

Definition ReadRecords (maxRecords maxBytes from : Z) : OM (list record) :=
  c ← gets ob_closed;
  if (c : bool) then throw ErrClosed else
  _ ← ensureLogLocked;
  flushLocked;;
  l ← gets ob_log;
  match l with
  | None => throw ErrClosed
  | Some h =>
      '(first, last) ← walRange h;
      let from' := if last + 1 <? from then first else from in
      let first' := if first <? from' then from' else first in
      read_loop (S (Z.to_nat (last - first' + 1))) h maxRecords maxBytes first' last []
  end.

Definition EvictThrough (index : Z) : OM unit :=
  c ← gets ob_closed;
  if (c : bool) then throw ErrClosed else
  h ← ensureLogLocked;
  '(first, last) ← walRange h;
  if (last <? first) || (index <? first) then mret tt else
  let index' := if last <? index then last else index in
  r ← attempt (wal_call (λ w, wal_truncate_front w h (index' + 1)));
  match r with
  | Ok _ => mret tt
  | Err (ErrWal ErrOutOfRange) => mret tt
  | Err err =>
      o ← attempt reopenLocked;
      match o with
      | Err rErr => throw (ErrJoin err rErr)
      | Ok _ => throw err
      end
  end.

(** Empty reports [(true, err)] on an error; the error is what callers read. *)
Definition Empty : OM bool :=
  c ← gets ob_closed;
  if (c : bool) then throw ErrClosed else
  h ← ensureLogLocked;
  b ← gets ob_buffered;
  match b with
  | _ :: _ => mret false
  | [] =>
      '(first, last) ← walRange h;
      mret (last <? first)
  end.

Definition EnforceCap : OM unit :=
  c ← gets ob_closed;
  l ← gets ob_log;
  match (c : bool), l with
  | false, Some h =>
      size ← attempt (wal_query fs_dir_size);
      match size with
      | Err _ => mret tt
      | Ok size =>
          if size <? MaxBytes then mret tt else
          range ← attempt (walRange h);
          match range with
          | Err _ => mret tt
          | Ok (first, last) =>
              if last <? first then mret tt else
              r ← attempt (wal_call (λ w, wal_truncate_front w h (last + 1)));
              match r with
              | Ok _ => mret tt
              | Err _ => _ ← attempt reopenLocked; mret tt
              end
          end
      end
  | _, _ => mret tt
  end.

(** The comment says "flushes and closes"; the code only closes. *)
Definition Close : OM unit :=
  modify (set_closed true);;
  l ← gets ob_log;
  match l with
  | None => mret tt
  | Some h =>
      r ← attempt (wal_call (λ w, wal_close w h));
      modify (set_log None);;
      lift_res r
  end.

Definition rangeForMetrics : OM (Z * Z) :=
  c ← gets ob_closed;
  l ← gets ob_log;
  match (c : bool), l with
  | false, Some h => walRange h
  | _, _ => throw ErrClosed
  end.
End outbox.

Arguments outbox : clear implicits.

(** ** Specification *)

Section spec.
Context {C : Codec} {CL : CodecLaws C} {W H : Type} {ops : WalOps bytes W H} {WL : WalLaws ops}.
Implicit Types (o : outbox W H) (es : list Entry).

(** The invariant: an open handle is the current, healthy one. *)
Definition ob_inv o : Prop := ∀ h, ob_log o = Some h → wal_ok (ob_w o) h.

(** What is durable, and what a flush would write. *)
Definition content o : Z * list bytes := wal_content (ob_w o).
Definition marshal_all es : list bytes := marshalEnvelope <$> es.

(** [upd P o o']: only the directory and the handle may have changed. *)
Definition same_rest o o' : Prop :=
  ob_closed o' = ob_closed o ∧ ob_buffered o' = ob_buffered o ∧
  ob_bufferedBytes o' = ob_bufferedBytes o.

#[local] Instance same_rest_preorder : PreOrder same_rest.
Proof.
  split.
  - intros o. by unfold same_rest.
  - intros o1 o2 o3 (?&?&?) (?&?&?). unfold same_rest. split_and!; congruence.
Qed.

Lemma batch_writes_indexed next es :
  batch_writes next es = indexed next (marshal_all es).
Proof. revert next. induction es; intros; simpl; [done|]. by rewrite IHes. Qed.

Lemma wal_query_first o h f rs :
  wal_ok (ob_w o) h → content o = (f, rs) →
  walRange h o = (o, Ok (f, f + Z.of_nat (length rs) - 1)).
Proof.
  intros Hok Hc. unfold walRange, wal_query. msimp.
  rewrite (first_ok _ _ _ _ Hok Hc). simpl.
  by rewrite (last_ok _ _ _ _ Hok Hc).
Qed.

Lemma closeLog_spec o :
  ∃ o', closeLog o = (o', Ok tt) ∧ ob_log o' = None ∧ content o' = content o ∧ same_rest o o'.
Proof.
  unfold closeLog, wal_call, content, same_rest. msimp.
  destruct (ob_log o) as [h|] eqn:El; [|eauto 10].
  destruct (wal_close (ob_w o) h) as [w' [u|e]] eqn:Ec; simpl;
    (eexists; split; [done|]); simpl; rewrite (close_content _ _ _ _ Ec); done.
Qed.

Lemma reopenLocked_spec o o' r :
  reopenLocked o = (o', r) →
  content o' = content o ∧ same_rest o o' ∧ ob_inv o' ∧
  match r with Ok _ => is_Some (ob_log o') | Err _ => ob_log o' = None end.
Proof.
  unfold reopenLocked. unfold mbind, M_bind.
  destruct (closeLog_spec o) as (o1 & -> & Hl & Hc & Hs).
  unfold wal_call, modify, content, ob_inv in *.
  destruct (wal_open (ob_w o1)) as [w' [h|e]] eqn:Eo; intros [= <- <-]; simpl.
  - apply open_ok in Eo as [E Hok]. rewrite E. split_and!; [done|done| |eauto].
    intros ? [= <-]. done.
  - apply open_err in Eo. rewrite Eo. split_and!; [done|done| |done]. congruence.
Qed.

(** Appending a batch: all of it on success, some prefix on failure. *)
Lemma appendBatchLocked_spec o es o' r f rs :
  ob_inv o → content o = (f, rs) → appendBatchLocked es o = (o', r) →
  same_rest o o' ∧ ob_log o' = ob_log o ∧
  match r with
  | Ok _ => content o' = (f, rs ++ marshal_all es) ∧ ob_inv o' ∧ is_Some (ob_log o')
  | Err _ => ∃ n, content o' = (f, rs ++ take n (marshal_all es))
  end.
Proof.
  intros Hinv Hc. unfold appendBatchLocked, gets. unfold mbind, M_bind.
  destruct (ob_log o) as [h|] eqn:El.
  2:{ intros [= <- <-]. split_and!; try done. exists 0%nat. by rewrite take_0, app_nil_r. }
  pose proof (Hinv _ El) as Hok.
  rewrite (wal_query_first o h f rs Hok Hc), batch_writes_indexed.
  replace (f + _ - 1 + 1) with (f + Z.of_nat (length rs)) by lia.
  unfold wal_call. destruct (wal_write_batch _ _ _) as [w' [[]|e]] eqn:Ew;
    intros [= <- <-]; (split; [done|]); (split; [done|]); unfold content; simpl.
  - apply (write_batch_ok _ _ _ _ _ _ Hok Hc) in Ew as [??]. split_and!; [done| |by eexists].
    intros h' Eh. simpl in *. congruence.
  - by apply (write_batch_err _ _ _ _ _ _ _ Hok Hc) in Ew.
Qed.

Lemma isolateLocked_spec err o o' r :
  isolateLocked err o = (o', r) →
  same_rest o o' ∧ ob_inv o' ∧ is_ok r = false ∧
  (content o' = (1, []) ∨ content o' = content o).
Proof.
  unfold isolateLocked, mbind, M_bind, attempt.
  destruct (closeLog_spec o) as (o4 & -> & L4 & C4 & S4).
  unfold wal_call, modify, throw, content, ob_inv in *.
  destruct (fs_rename_aside (ob_w o4)) as [w5 r5] eqn:E5.
  assert (wal_content w5 = (1, []) ∨ wal_content w5 = wal_content (ob_w o)) as C5.
  { rewrite <-C4. destruct r5 as [[]|]; [left; by eapply rename_ok|right; by eapply rename_err]. }
  destruct r5 as [u|e5]; simpl;
  destruct (wal_open w5) as [w6 [h|e6]] eqn:E6; intros [= <- <-]; simpl; (split; [done|]);
    first [apply open_ok in E6 as [C6 Ok6]; rewrite C6
          |apply open_err in E6; rewrite E6];
    (split_and!; [congruence|done|done]).
Qed.

(** The whole write path, its isolation and quarantine included. *)
Lemma writeLocked_spec o es o' r f rs :
  ob_inv o → content o = (f, rs) → writeLocked es o = (o', r) →
  same_rest o o' ∧ ob_inv o' ∧
  match r with
  | Ok _ => is_Some (ob_log o') ∧
      ∃ n, content o' = (f, rs ++ take n (marshal_all es) ++ marshal_all es)
  | Err _ => content o' = (1, []) ∨
      ∃ n m, content o' = (f, rs ++ take n (marshal_all es) ++ take m (marshal_all es))
  end.
Proof.
  intros Hinv Hc. unfold writeLocked, mbind, M_bind, attempt.
  destruct (appendBatchLocked es o) as [o1 r1] eqn:E1.
  apply (appendBatchLocked_spec _ _ _ _ _ _ Hinv Hc) in E1 as (S1 & L1 & D1).
  destruct r1 as [[]|e1].
  { intros [= <- <-]. destruct D1 as (D1 & ? & ?). split_and!; try done.
    exists 0%nat. by rewrite take_0. }
  destruct D1 as [n D1].
  destruct (reopenLocked o1) as [o2 r2] eqn:E2.
  apply reopenLocked_spec in E2 as (C2 & S2 & I2 & L2). rewrite D1 in C2.
  destruct r2 as [[]|e2].
  2:{ intros [= <- <-]. split_and!; [by etrans|done|]. right. exists n, 0%nat.
      by rewrite take_0, app_nil_r. }
  destruct (appendBatchLocked es o2) as [o3 r3] eqn:E3.
  apply (appendBatchLocked_spec _ _ _ _ _ _ I2 C2) in E3 as (S3 & L3 & D3).
  destruct r3 as [[]|e3].
  { intros [= <- <-]. destruct D3 as (D3 & ? & ?).
    split_and!; [by repeat (etrans; [eassumption|])|done|done|].
    exists n. by rewrite <-app_assoc in D3. }
  destruct D3 as [m D3]. rewrite <-app_assoc in D3. intros E4.
  apply isolateLocked_spec in E4 as (S4 & I4 & R4 & C4).
  split_and!; [by repeat (etrans; [eassumption|])|done|].
  destruct r; [done|]. rewrite D3 in C4. destruct C4 as [->| ->]; [by left|right; eauto].
Qed.

(** Flushing writes the whole buffer and empties it, or keeps it. *)
Lemma flushLocked_spec o o' r f rs :
  ob_inv o → content o = (f, rs) → flushLocked o = (o', r) →
  ob_closed o' = ob_closed o ∧ ob_inv o' ∧
  (is_Some (ob_log o) → is_ok r = true → is_Some (ob_log o')) ∧
  match r with
  | Ok _ => ob_buffered o' = [] ∧
      ∃ n, content o' = (f, rs ++ take n (marshal_all (ob_buffered o))
                               ++ marshal_all (ob_buffered o))
  | Err _ => ob_buffered o' = ob_buffered o ∧ ob_bufferedBytes o' = ob_bufferedBytes o
  end.
Proof.
  intros Hinv Hc. unfold flushLocked, gets, modify, mbind, M_bind.
  destruct (ob_buffered o) as [|e es] eqn:Eb.
  { intros [= <- <-]. rewrite Eb. split_and!; try done. exists 0%nat.
    simpl. by rewrite app_nil_r. }
  destruct (writeLocked (e :: es) o) as [o1 r1] eqn:E1.
  apply (writeLocked_spec _ _ _ _ _ _ Hinv Hc) in E1 as ((Sc & Sb & Sn) & I1 & D1).
  destruct r1 as [[]|e1]; intros [= <- <-].
  - destruct D1 as [Hl D1]. done.
  - rewrite Sb, Sn, Eb. done.
Qed.

(** *** Reading *)

Definition decode_rec (p : Z * bytes) : record := MkRecord p.1 (proto_unmarshal p.2).

(** The records of the log with indexes from [i]. *)
Definition window f rs (i : Z) : list (Z * bytes) :=
  drop (Z.to_nat (i - f)) (indexed f rs).

(** The request cap: at most [n] records, the first one always, a further one
    only while its payload fits in what is left of [maxBytes]. *)
Fixpoint shard (fst : bool) (n : nat) (maxBytes : Z) (l : list (Z * bytes)) : list (Z * bytes) :=
  match n, l with
  | S n', p :: l' =>
      if negb fst && (maxBytes - blen p.2 <? 0) then [] else
      p :: (if maxBytes - blen p.2 <=? 0 then [] else shard false n' (maxBytes - blen p.2) l')
  | _, _ => []
  end.

Lemma window_cons f rs i b :
  f ≤ i → rs !! Z.to_nat (i - f) = Some b → window f rs i = (i, b) :: window f rs (i + 1).
Proof.
  intros Hi Hb. unfold window.
  rewrite (drop_S _ (i, b) (Z.to_nat (i - f))).
  - f_equal. f_equal. lia.
  - apply lookup_indexed_Some. split; [lia|done].
Qed.

Lemma window_nil f rs i : f + Z.of_nat (length rs) ≤ i → window f rs i = [].
Proof. intros Hi. unfold window. apply drop_ge. rewrite length_indexed. lia. Qed.

Lemma shard_nil b n m : shard b n m [] = [].
Proof. by destruct n. Qed.

Lemma read_loop_spec steps o h maxRecords maxBytes f rs first acc o' r :
  ob_inv o → wal_ok (ob_w o) h → content o = (f, rs) → f ≤ first →
  let last := f + Z.of_nat (length rs) - 1 in
  (Z.to_nat (last - first + 1) < steps)%nat →
  read_loop steps h maxRecords maxBytes first last acc o = (o', r) →
  content o' = content o ∧ same_rest o o' ∧ ob_inv o' ∧
  match r with
  | Ok out => o' = o ∧
      out = acc ++ (decode_rec <$> shard (bool_decide (acc = []))
               (Z.to_nat (maxRecords - Z.of_nat (length acc))) maxBytes (window f rs first))
  | Err e => e ≠ OutOfSteps
  end.
Proof.
  intros Hinv Hok Hc Hf last. revert first maxBytes acc Hf.
  induction steps as [|steps IH]; intros first maxBytes acc Hf Hs; [lia|]. simpl.
  destruct (Z.ltb_spec (Z.of_nat (length acc)) maxRecords) as [Hm|Hm]; simpl.
  2:{ intros [= <- <-]. split_and!; try done.
      rewrite Z2Nat.nonpos by lia. simpl. by rewrite app_nil_r. }
  destruct (Z.ltb_spec last first) as [Hl|Hl].
  { intros [= <- <-]. split_and!; try done. rewrite window_nil by (subst last; lia).
    rewrite shard_nil. simpl. by rewrite app_nil_r. }
  unfold mbind at 1, M_bind, attempt, wal_query.
  pose proof (read_in_range _ _ _ _ first Hok Hc ltac:(subst last; lia)) as Hr.
  destruct (wal_read (ob_w o) h first) as [b|e].
  - rewrite (window_cons _ _ _ _ Hf Hr).
    destruct (Z.to_nat (maxRecords - Z.of_nat (length acc))) as [|n] eqn:En; [lia|]. simpl.
    assert (negb (bool_decide (acc = [])) = (0 <? Z.of_nat (length acc))) as Eacc.
    { destruct acc; [done|]. rewrite bool_decide_eq_false_2 by done.
      symmetry. apply Z.ltb_lt. simpl. lia. }
    rewrite Eacc. destruct (_ && _).
    { intros [= <- <-]. split_and!; try done. by rewrite app_nil_r. }
    destruct (maxBytes - blen b <=? 0).
    { intros [= <- <-]. split_and!; try done. }
    intros Hrun. apply IH in Hrun; [|lia|lia].
    destruct Hrun as (? & ? & ? & Hres). split_and!; try done.
    destruct r as [out|]; [|done]. destruct Hres as [-> ->]. split; [done|].
    rewrite bool_decide_eq_false_2 by (by destruct acc).
    rewrite <-app_assoc. simpl. do 4 f_equal. rewrite length_app. simpl. lia.
  - assert (∀ rr, (mbind (λ x : res oerr unit, match x with
        | Ok _ => throw (ErrWal e) | Err oErr => throw (ErrJoin (ErrWal e) oErr) end)
        (attempt reopenLocked) : OM (list record)) o = (o', rr) →
        content o' = content o ∧ same_rest o o' ∧ ob_inv o' ∧
        ∃ e', rr = Err e' ∧ e' ≠ OutOfSteps) as Hfail.
    { intros rr. unfold mbind, M_bind, attempt, throw.
      destruct (reopenLocked o) as [o1 r1] eqn:E1.
      apply reopenLocked_spec in E1 as (? & ? & ? & ?).
      destruct r1; intros [= <- <-]; split_and!; eauto. }
    unfold werr_is in Hr. apply bool_decide_eq_false in Hr.
    destruct e; try done; intros Hx; apply Hfail in Hx as (? & ? & ? & e' & -> & ?); done.
Qed.

Lemma ensureLogLocked_spec o o' r :
  ob_inv o → ensureLogLocked o = (o', r) →
  content o' = content o ∧ same_rest o o' ∧ ob_inv o' ∧
  match r with
  | Ok h => ob_log o' = Some h
  | Err e => ob_log o' = None ∧ e ≠ OutOfSteps
  end.
Proof.
  intros Hinv. unfold ensureLogLocked, gets, modify, throw, wal_call, mbind, M_bind, mret, M_ret.
  destruct (ob_log o) as [h|] eqn:El; [by intros [= <- <-]|].
  destruct (ob_closed o) eqn:Ecl; [by intros [= <- <-]|].
  destruct (wal_open (ob_w o)) as [w' [h|e]] eqn:Eo; intros [= <- <-]; unfold content, ob_inv; simpl.
  - apply open_ok in Eo as [-> Hok]. split_and!; [done|done| |done]. by intros ? [= <-].
  - apply open_err in Eo as ->. split_and!; [done|done|congruence|done|done].
Qed.

(** No operation but the read loop can run out of steps. *)
Definition never_stuck {A} (m : OM (W:=W) (H:=H) A) : Prop :=
  ∀ o, (m o).2 ≠ Err OutOfSteps.

Lemma never_stuck_bind {A B} (m : OM A) (k : A → OM B) :
  never_stuck m → (∀ a, never_stuck (k a)) → never_stuck (mbind k m).
Proof.
  intros Hm Hk o. unfold mbind, M_bind. specialize (Hm o).
  destruct (m o) as [o1 [a|e]]; simpl in *; [apply Hk|congruence].
Qed.
Lemma never_stuck_attempt {A} (m : OM A) : never_stuck (attempt m).
Proof. intros o. unfold attempt. by destruct (m o). Qed.
Lemma never_stuck_call {A} (f : W → W * res werr A) : never_stuck (wal_call f).
Proof. intros o. unfold wal_call. by destruct (f (ob_w o)) as [? []]. Qed.
Lemma never_stuck_query {A} (f : W → res werr A) : never_stuck (wal_query f).
Proof. intros o. unfold wal_query. by destruct (f (ob_w o)). Qed.
Lemma never_stuck_throw {A} e : e ≠ OutOfSteps → never_stuck (throw (A:=A) e).
Proof. intros ? o. simpl. congruence. Qed.

Ltac never_stuck :=
  repeat first
    [ match goal with |- ∀ _, _ => intros ? end
    | apply never_stuck_bind; [|intros ?] | apply never_stuck_attempt
    | apply never_stuck_call | apply never_stuck_query
    | apply never_stuck_throw; discriminate | by intros ? | case_match ].

Lemma closeLog_never_stuck : never_stuck closeLog.
Proof. unfold closeLog. never_stuck. Qed.
Lemma appendBatchLocked_never_stuck es : never_stuck (appendBatchLocked es).
Proof. unfold appendBatchLocked, walRange. never_stuck. Qed.

Lemma flushLocked_never_stuck : never_stuck flushLocked.
Proof.
  apply never_stuck_bind; [done|]. intros [|e es]; [done|].
  apply never_stuck_bind; [|done].
  intros o. unfold writeLocked, mbind, M_bind, attempt.
  destruct (appendBatchLocked (e :: es) o) as [o1 [[]|e1]]; [done|].
  assert (never_stuck reopenLocked) as Hr.
  { unfold reopenLocked. apply never_stuck_bind; [apply closeLog_never_stuck|]. never_stuck. }
  specialize (Hr o1). destruct (reopenLocked o1) as [o2 [[]|e2]]; [|done].
  pose proof (appendBatchLocked_never_stuck (e :: es) o2) as Ha.
  destruct (appendBatchLocked (e :: es) o2) as [o3 [[]|e3]]; [done|].
  assert (e3 ≠ OutOfSteps) by (simpl in Ha; congruence). clear Ha.
  unfold isolateLocked. revert o3. change (never_stuck (A:=unit)
    (closeLog;; _ ← attempt (wal_call fs_rename_aside); fresh ← attempt (wal_call wal_open);
     match fresh with Err openErr => throw (ErrJoin e3 openErr)
     | Ok h => modify (set_log (Some h));; throw e3 end)).
  apply never_stuck_bind; [apply closeLog_never_stuck|intros _]. never_stuck.
  by apply never_stuck_throw.
Qed.

Lemma ReadRecords_open o mr mb from o' r :
  ob_inv o → ob_closed o = false → ReadRecords mr mb from o = (o', r) →
  ob_inv o' ∧ ob_closed o' = false ∧
  match r with
  | Ok out =>
      ∃ f rs first, content o' = (f, rs) ∧ ob_buffered o' = [] ∧
        first = (if f + Z.of_nat (length rs) <? from then f else Z.max f from) ∧
        out = decode_rec <$> shard true (Z.to_nat mr) mb (window f rs first) ∧
        ∃ n, rs = (content o).2 ++ take n (marshal_all (ob_buffered o))
                    ++ marshal_all (ob_buffered o) ∧ f = (content o).1
        ∧ 1 ≤ f ∧ f + Z.of_nat (length rs) < 2^64
  | Err e => e ≠ OutOfSteps
  end.
Proof.
  intros Hinv Hcl. unfold ReadRecords, gets. unfold mbind at 1, M_bind. rewrite Hcl.
  unfold mbind at 1, M_bind.
  destruct (ensureLogLocked o) as [o1 r1] eqn:E1.
  apply ensureLogLocked_spec in E1 as (C1 & (Sc1 & Sb1 & Sn1) & I1 & L1); [|done].
  destruct r1 as [h1|e1]; [|intros [= <- <-]; split_and!; [done|congruence|apply L1]].
  destruct (content o1) as [f rs0] eqn:Ec1. unfold mbind at 1, M_bind.
  destruct (flushLocked o1) as [o2 r2] eqn:E2. pose proof E2 as F2.
  apply (flushLocked_spec _ _ _ _ _ I1 Ec1) in F2 as (Sc2 & I2 & L2 & D2).
  destruct r2 as [[]|e2].
  2:{ intros [= <- <-]. pose proof (flushLocked_never_stuck o1) as Hne. rewrite E2 in Hne.
      simpl in Hne. split_and!; [done|congruence|congruence]. }
  destruct D2 as (B2 & n & D2). destruct (L2 ltac:(eauto) eq_refl) as [h Hh].
  unfold mbind at 1, M_bind. rewrite Hh. pose proof (I2 _ Hh) as Hok.
  unfold mbind at 1, M_bind. rewrite (wal_query_first o2 h _ _ Hok D2).
  set (rs := rs0 ++ _ ++ _) in *.
  set (first := if f <? (if _ <? from then f else from) then _ else f).
  intros Hrun.
  assert (first = (if f + Z.of_nat (length rs) <? from then f else Z.max f from)) as Hfirst.
  { subst first. replace (f + Z.of_nat (length rs) - 1 + 1) with (f + Z.of_nat (length rs)) by lia.
    destruct (Z.ltb_spec (f + Z.of_nat (length rs)) from); [by rewrite Z.ltb_irrefl|].
    destruct (Z.ltb_spec f from); lia. }
  apply (read_loop_spec _ _ _ _ _ f rs) in Hrun as (C3 & (Sc3 & Sb3 & Sn3) & I3 & D3);
    [|done|done|done|rewrite Hfirst; case_match; lia|lia].
  split_and!; [done|congruence|]. destruct r as [out|]; [|done].
  destruct D3 as [-> ->]. exists f, rs, first. split_and!; try done.
  - by rewrite Z.sub_0_r.
  - pose proof (content_range _ _ _ _ Hok D2) as [??]. exists n. by rewrite <-Sb1, <-C1.
Qed.

(** The log without the records up to [index]. *)
Definition evicted f rs (index : Z) : Z * list bytes :=
  let last := f + Z.of_nat (length rs) - 1 in
  if (last <? f) || (index <? f) then (f, rs)
  else (Z.min index last + 1, drop (Z.to_nat (Z.min index last + 1 - f)) rs).

Lemma elem_of_evicted f rs index i b :
  (i, b) ∈ indexed (evicted f rs index).1 (evicted f rs index).2 ↔
  (i, b) ∈ indexed f rs ∧ index < i.
Proof.
  rewrite !elem_of_indexed. unfold evicted. set (last := f + Z.of_nat (length rs) - 1). cbn zeta.
  destruct (_ || _) eqn:Eb; simpl.
  - split; [|tauto]. intros [Hi Hk]. split; [done|].
    apply lookup_lt_Some in Hk.
    apply orb_true_iff in Eb as [Eb|Eb]; apply Z.ltb_lt in Eb; subst last; lia.
  - apply orb_false_iff in Eb as [Eb1 Eb2]. rewrite Z.ltb_ge in *.
    set (m := Z.min index last) in *. rewrite lookup_drop. split.
    + intros [Hi Hk]. apply lookup_lt_Some in Hk as Hk'.
      replace (Z.to_nat (m + 1 - f) + Z.to_nat (i - (m + 1)))%nat with (Z.to_nat (i - f)) in * by lia.
      subst last m. repeat split; try done; lia.
    + intros [[Hi Hk] Hlt]. apply lookup_lt_Some in Hk as Hk'.
      assert (m + 1 ≤ i) by (subst m last; lia). split; [done|].
      replace (Z.to_nat (m + 1 - f) + Z.to_nat (i - (m + 1)))%nat with (Z.to_nat (i - f)) by lia. done.
Qed.

Lemma EvictThrough_open o index o' r f rs :
  ob_inv o → ob_closed o = false → content o = (f, rs) →
  EvictThrough index o = (o', r) →
  ob_inv o' ∧ same_rest o o' ∧
  match r with
  | Ok _ => content o' = evicted f rs index
  | Err _ => content o' = (f, rs) ∨ content o' = evicted f rs index
  end.
Proof.
  intros Hinv Hcl Hc. unfold EvictThrough, gets. unfold mbind at 1, M_bind. rewrite Hcl.
  unfold mbind at 1, M_bind. destruct (ensureLogLocked o) as [o1 r1] eqn:E1.
  apply ensureLogLocked_spec in E1 as (C1 & S1 & I1 & L1); [|done]. rewrite Hc in C1.
  destruct r1 as [h|e1]; [|intros [= <- <-]; split_and!; [done|done|by left]].
  pose proof (I1 _ L1) as Hok. unfold mbind at 1, M_bind.
  rewrite (wal_query_first o1 h _ _ Hok C1).
  unfold evicted. set (last := f + Z.of_nat (length rs) - 1). simpl.
  destruct ((last <? f) || (index <? f)) eqn:Eb; [by intros [= <- <-]|].
  apply orb_false_iff in Eb as [Eb1 Eb2]. rewrite Z.ltb_ge in *.
  assert ((if last <? index then last else index) = Z.min index last) as ->
    by (destruct (Z.ltb_spec last index); lia).
  unfold mbind at 1, M_bind, attempt, wal_call.
  assert (f ≤ Z.min index last + 1 ≤ f + Z.of_nat (length rs)) as Hi by (subst last; lia).
  destruct (wal_truncate_front (ob_w o1) h (Z.min index last + 1)) as [w2 [[]|e2]] eqn:E2.
  - intros [= <- <-]. apply (truncate_ok _ _ _ _ _ _ Hok C1 Hi) in E2 as [C2 Ok2].
    split_and!; [|done|done]. intros h' Hh'. simpl in *. congruence.
  - apply (truncate_err _ _ _ _ _ _ _ Hok C1 Hi) in E2 as [Hne Hcw].
    assert (∀ rr (m : oerr), (mbind (λ x : res oerr unit, match x with
        | Ok _ => throw m | Err rErr => throw (ErrJoin m rErr) end)
        (attempt reopenLocked) : OM unit) (set_w w2 o1) = (o', rr) →
        ob_inv o' ∧ same_rest o o' ∧ is_ok rr = false ∧
        content o' = wal_content w2) as Hfail.
    { intros rr m. unfold mbind, M_bind, attempt, throw.
      destruct (reopenLocked _) as [o3 r3] eqn:E3.
      apply reopenLocked_spec in E3 as (? & ? & ? & ?).
      assert (same_rest o1 (set_w w2 o1)) by done.
      destruct r3; intros [= <- <-]; split_and!; try done;
        by repeat (etrans; [eassumption|]). }
    destruct e2; try done; intros Hx; apply Hfail in Hx as (? & ? & ? & Hc');
      (split; [done|split; [done|]]); (destruct r; [done|rewrite Hc'; exact Hcw]).
Qed.

(** *** The operations as steps, and what each one promises *)

Inductive op :=
| OpAppend (e : Entry)
| OpFlush
| OpRead (maxRecords maxBytes from : Z)
| OpEvict (index : Z)
| OpEmpty
| OpEnforceCap
| OpClose.

Definition run_op (p : op) : OM (W:=W) (H:=H) unit :=
  match p with
  | OpAppend e => Append e
  | OpFlush => Flush
  | OpRead mr mb from => _ ← ReadRecords mr mb from; mret tt
  | OpEvict i => EvictThrough i
  | OpEmpty => _ ← Empty; mret tt
  | OpEnforceCap => EnforceCap
  | OpClose => Close
  end.

(** The queue an outbox holds: what is on disk, then what is buffered. *)
Definition queue o : list bytes := (content o).2 ++ marshal_all (ob_buffered o).

Lemma content_pair o : content o = ((content o).1, (content o).2).
Proof. apply surjective_pairing. Qed.

Lemma Append_open o e o' r :
  ob_inv o → ob_closed o = false → Append e o = (o', r) →
  ob_inv o' ∧ ob_closed o' = false ∧
  match r with
  | Ok _ => ob_bufferedBytes o' < flushThresholdBytes ∧
      ∃ n, queue o' = (content o).2 ++ take n (marshal_all (ob_buffered o ++ [e]))
                        ++ marshal_all (ob_buffered o ++ [e])
  | Err _ => ob_buffered o' = ob_buffered o ++ [e]
  end.
Proof.
  intros Hinv Hcl. unfold Append, gets, modify. unfold mbind at 1, M_bind. rewrite Hcl.
  unfold mbind at 1, M_bind. unfold mbind at 1, M_bind.
  set (o1 := set_buffered _ _ o).
  assert (ob_inv o1) as I1 by exact Hinv.
  destruct (Z.leb_spec flushThresholdBytes (ob_bufferedBytes o1)) as [Hn|Hn].
  - intros Hf. pose proof Hf as Hf'.
    apply (flushLocked_spec _ _ _ _ _ I1 (content_pair o1)) in Hf as (Sc & I2 & _ & D2).
    split_and!; [done|by rewrite Sc|]. destruct r as [[]|]; [|apply D2].
    destruct D2 as (B2 & n & D2). split.
    + revert Hf'. unfold flushLocked, gets, modify, mbind, M_bind.
      destruct (ob_buffered o1) eqn:Eb1.
      { by destruct (ob_buffered o). }
      destruct (writeLocked _ o1) as [o2 [[]|]]; [|done]. intros [= <-].
      simpl. unfold flushThresholdBytes. lia.
    + exists n. unfold queue. rewrite D2, B2. simpl. by rewrite app_nil_r.
  - intros [= <- <-]. split_and!; [done|done|done|]. exists 0%nat. done.
Qed.

Lemma Flush_inv o : ob_inv o → ob_inv (Flush o).1.
Proof.
  intros Hinv. unfold Flush, gets, mbind, M_bind. destruct (ob_closed o); [done|].
  destruct (flushLocked o) as [o1 r1] eqn:E1.
  by apply (flushLocked_spec _ _ _ _ _ Hinv (content_pair o)) in E1 as (_ & ? & _).
Qed.

Lemma Empty_open o o' r :
  ob_inv o → ob_closed o = false → Empty o = (o', r) →
  ob_inv o' ∧ same_rest o o' ∧ content o' = content o ∧
  match r with
  | Ok b => b = bool_decide (queue o = [])
  | Err _ => True
  end.
Proof.
  intros Hinv Hcl. unfold Empty, gets. unfold mbind at 1, M_bind. rewrite Hcl.
  unfold mbind at 1, M_bind. destruct (ensureLogLocked o) as [o1 r1] eqn:E1.
  apply ensureLogLocked_spec in E1 as (C1 & S1 & I1 & L1); [|done].
  destruct r1 as [h|e1]; [|intros [= <- <-]; done].
  unfold mbind at 1, M_bind. pose proof S1 as (_ & Sb & _). rewrite Sb.
  destruct (ob_buffered o) as [|e es] eqn:Eb; simpl.
  - pose proof (I1 _ L1) as Hok. destruct (content o) as [f rs] eqn:Ec.
    unfold mbind, M_bind. rewrite (wal_query_first o1 h _ _ Hok C1).
    intros [= <- <-]. split_and!; [done|done|done|]. unfold queue. rewrite Ec, Eb.
    change (marshal_all []) with (@nil bytes). rewrite app_nil_r. cbn [snd].
    destruct rs as [|b rs].
    + rewrite bool_decide_eq_true_2 by done. apply Z.ltb_lt. simpl. lia.
    + rewrite bool_decide_eq_false_2 by done. apply Z.ltb_ge. simpl. lia.
  - intros [= <- <-]. split_and!; [done|done|done|]. unfold queue. rewrite Eb.
    rewrite bool_decide_eq_false_2; [done|]. by destruct (content o).2.
Qed.

Lemma EnforceCap_inv o : ob_inv o → ob_inv (EnforceCap o).1.
Proof.
  intros Hinv. unfold EnforceCap, gets. unfold mbind at 1, M_bind. unfold mbind at 1, M_bind.
  destruct (ob_closed o) eqn:Ecl; [done|]. destruct (ob_log o) as [h|] eqn:El; [|done].
  pose proof (Hinv _ El) as Hok. destruct (content o) as [f rs] eqn:Ec.
  unfold mbind at 1, M_bind, attempt, wal_query at 1.
  destruct (fs_dir_size (ob_w o)) as [size|]; [|done]. destruct (size <? MaxBytes); [done|].
  unfold mbind at 1, M_bind. rewrite (wal_query_first o h _ _ Hok Ec).
  destruct (Z.ltb_spec (f + Z.of_nat (length rs) - 1) f); [done|].
  unfold mbind at 1, M_bind, wal_call.
  destruct (wal_truncate_front _ _ _) as [w2 [[]|e2]] eqn:E2; simpl.
  - apply (truncate_ok _ _ _ _ _ _ Hok Ec) in E2 as [_ ?]; [|lia].
    intros h' Hh'. simpl in *. congruence.
  - unfold mbind, M_bind. destruct (reopenLocked _) as [o3 r3] eqn:E3.
    by apply reopenLocked_spec in E3 as (_ & _ & ? & _).
Qed.

(** The retention backstop keeps the log or drops all of it. *)
Lemma EnforceCap_content o o' r f rs :
  ob_inv o → content o = (f, rs) → EnforceCap o = (o', r) →
  r = Ok tt ∧ same_rest o o' ∧
  (content o' = (f, rs) ∨
   content o' = (f + Z.of_nat (length rs), []) ∧
   is_Some (ob_log o) ∧ ∃ n, fs_dir_size (ob_w o) = Ok n ∧ MaxBytes ≤ n).
Proof.
  intros Hinv Ec. unfold EnforceCap, gets. unfold mbind at 1, M_bind. unfold mbind at 1, M_bind.
  assert (∀ rr : res oerr unit, (o, Ok tt) = (o', rr) → rr = Ok tt ∧ same_rest o o' ∧ (content o' = (f, rs) ∨
   content o' = (f + Z.of_nat (length rs), []) ∧
   is_Some (ob_log o) ∧ ∃ n, fs_dir_size (ob_w o) = Ok n ∧ MaxBytes ≤ n)) as Hsame.
  { intros rr [= <- <-]. split; [done|]. split; [done|by left]. }
  destruct (ob_closed o) eqn:Ecl; [apply Hsame|].
  destruct (ob_log o) as [h|] eqn:El; [|apply Hsame].
  pose proof (Hinv _ El) as Hok.
  unfold mbind at 1, M_bind, attempt, wal_query at 1.
  destruct (fs_dir_size (ob_w o)) as [size|] eqn:Es; [|apply Hsame].
  destruct (Z.ltb_spec size MaxBytes); [apply Hsame|].
  unfold mbind at 1, M_bind. rewrite (wal_query_first o h _ _ Hok Ec).
  set (last := f + Z.of_nat (length rs) - 1).
  destruct (Z.ltb_spec last f); [apply Hsame|]. clear Hsame.
  unfold mbind at 1, M_bind, wal_call.
  assert (last + 1 = f + Z.of_nat (length rs)) as -> by (subst last; lia).
  destruct (wal_truncate_front _ _ _) as [w2 [[]|e2]] eqn:E2; simpl.
  - intros [= <- <-]. apply (truncate_ok _ _ _ _ _ _ Hok Ec) in E2 as [E2 _]; [|lia].
    split; [done|]. split; [done|]. right. split; [|split; [by eexists|eauto]]. unfold content. simpl. rewrite E2.
    by rewrite drop_ge by lia.
  - apply (truncate_err _ _ _ _ _ _ _ Hok Ec) in E2 as [_ E2]; [|lia].
    unfold mbind, M_bind. destruct (reopenLocked _) as [o3 r3] eqn:E3.
    apply reopenLocked_spec in E3 as (C3 & S3 & _). intros [= <- <-].
    split; [done|]. split; [by destruct S3 as (?&?&?)|]. rewrite C3.
    destruct E2 as [E2|E2]; [by left|right]. split; [|split; [by eexists|eauto]].
    etrans; [exact E2|]. by rewrite drop_ge by lia.
Qed.

Lemma Close_spec o :
  ob_closed (Close o).1 = true ∧ ob_log (Close o).1 = None ∧
  content (Close o).1 = content o ∧ ob_buffered (Close o).1 = ob_buffered o.
Proof.
  unfold Close, gets, modify, mbind, M_bind, attempt, wal_call, lift_res, content.
  simpl. destruct (ob_log o) as [h|] eqn:El; [|done]. simpl.
  destruct (wal_close (ob_w o) h) as [w' [u|e]] eqn:Ec; simpl; (split_and!; try done);
    by eapply close_content.
Qed.

Lemma run_op_closed o p :
  ob_closed o = true →
  match p with
  | OpEnforceCap => run_op p o = (o, Ok tt)
  | OpClose => True
  | _ => run_op p o = (o, Err ErrClosed)
  end.
Proof.
  intros Hcl. destruct p; [..|done];
    unfold run_op, Append, Flush, ReadRecords, EvictThrough, Empty, EnforceCap,
      gets, modify, mbind, M_bind; by rewrite Hcl.
Qed.

Lemma run_op_open_inv o p : ob_inv o → ob_closed o = false → ob_inv (run_op p o).1.
Proof.
  intros Hinv Hcl. destruct p as [e| |mr mb from|i| | |]; simpl.
  - destruct (Append e o) as [o' r] eqn:E. by apply Append_open in E as (? & _).
  - by apply Flush_inv.
  - unfold mbind, M_bind. destruct (ReadRecords mr mb from o) as [o' r] eqn:E.
    apply ReadRecords_open in E as (? & _); [|done|done]. by destruct r.
  - destruct (EvictThrough i o) as [o' r] eqn:E.
    by apply (EvictThrough_open _ _ _ _ _ _ Hinv Hcl (content_pair o)) in E as (? & _).
  - unfold mbind, M_bind. destruct (Empty o) as [o' r] eqn:E.
    apply Empty_open in E as (? & _); [|done|done]. by destruct r.
  - by apply EnforceCap_inv.
  - intros h Hh. by rewrite (proj1 (proj2 (Close_spec o))) in Hh.
Qed.

(** Every operation preserves the handle invariant, and once the outbox is
    closed no operation touches the disk again: each one but the cap sweep
    (which has no result) and a repeated Close answers ErrClosed. *)
Theorem outbox_step_invariant o p :
  ob_inv o →
  ob_inv (run_op p o).1 ∧
  (ob_closed o = true →
    content (run_op p o).1 = content o ∧ ob_closed (run_op p o).1 = true ∧
    match p with OpEnforceCap | OpClose => True | _ => (run_op p o).2 = Err ErrClosed end).
Proof.
  intros Hinv. split.
  - destruct (ob_closed o) eqn:Hcl; [|by apply run_op_open_inv].
    pose proof (run_op_closed o p Hcl) as Hc. destruct p; try (rewrite Hc; done).
    intros h Hh. simpl in Hh. by rewrite (proj1 (proj2 (Close_spec o))) in Hh.
  - intros Hcl. pose proof (run_op_closed o p Hcl) as Hc.
    destruct p; try (rewrite Hc; done). simpl.
    split; [apply (Close_spec o)|]. split; [apply (Close_spec o)|done].
Qed.

(** C20: an accepted record is kept.  After a successful Append the outbox
    holds the durable records it had, then every buffered record and the new
    one in order, preceded by at most one repeated prefix of that batch (the
    re-write after a partial batch), and the buffer is below the flush
    threshold; after a failed Append the record is still buffered. *)
Theorem append_keeps_every_record o e o' r :
  ob_inv o → ob_closed o = false → Append e o = (o', r) →
  match r with
  | Ok _ => ob_bufferedBytes o' < flushThresholdBytes ∧
      ∃ n, queue o' = (content o).2 ++ take n (marshal_all (ob_buffered o ++ [e]))
                        ++ marshal_all (ob_buffered o ++ [e])
  | Err _ => ob_buffered o' = ob_buffered o ++ [e]
  end.
Proof. intros Hi Hc Ha. by apply Append_open in Ha as (_ & _ & ?). Qed.

(** ReadRecords flushes, then returns exactly the request-capped shard of
    the log from the clamped cursor, in log order, torn frames as poison
    records; its loop always ends. *)
Theorem read_records_spec o maxRecords maxBytes from o' r :
  ob_inv o → ob_closed o = false →
  ReadRecords maxRecords maxBytes from o = (o', r) →
  match r with
  | Ok out =>
      ∃ f rs first, content o' = (f, rs) ∧ ob_buffered o' = [] ∧
        first = (if f + Z.of_nat (length rs) <? from then f else Z.max f from) ∧
        out = decode_rec <$> shard true (Z.to_nat maxRecords) maxBytes (window f rs first) ∧
        ∃ n, rs = (content o).2 ++ take n (marshal_all (ob_buffered o))
                    ++ marshal_all (ob_buffered o) ∧ f = (content o).1
        ∧ 1 ≤ f ∧ f + Z.of_nat (length rs) < 2^64
  | Err e => e ≠ OutOfSteps
  end.
Proof. intros Hi Hc Hr. by apply ReadRecords_open in Hr as (_ & _ & ?). Qed.

(** EvictThrough removes exactly the records up to the settled index
    (nothing when the index is before the log, everything when it is past the
    end) and touches nothing else. *)
Theorem evict_through_spec o index o' f rs :
  ob_inv o → ob_closed o = false → content o = (f, rs) →
  EvictThrough index o = (o', Ok tt) →
  ob_buffered o' = ob_buffered o ∧
  ∀ i b, (i, b) ∈ indexed (content o').1 (content o').2 ↔
    (i, b) ∈ indexed f rs ∧ index < i.
Proof.
  intros Hi Hcl Hc He.
  apply (EvictThrough_open _ _ _ _ _ _ Hi Hcl Hc) in He as (_ & (_ & Sb & _) & C').
  split; [done|]. intros i b. rewrite C'. apply elem_of_evicted.
Qed.

Lemma shard_take b n m l : ∃ k, shard b n m l = take k l.
Proof.
  revert b m l. induction n as [|n IH]; intros b m [|p l]; simpl; try by exists 0%nat.
  destruct (_ && _); [by exists 0%nat|]. destruct (_ <=? _); [by exists 1%nat|].
  destruct (IH false (m - blen p.2) l) as [k ->]. by exists (S k).
Qed.

Lemma shard_length b n m l : (length (shard b n m l) ≤ n)%nat.
Proof.
  revert b m l. induction n as [|n IH]; intros b m [|p l]; simpl; try lia.
  destruct (_ && _); simpl; [lia|]. destruct (_ <=? _); simpl; [lia|].
  specialize (IH false (m - blen p.2) l). lia.
Qed.

Definition payload (l : list (Z * bytes)) : Z := foldr (λ p n, blen p.2 + n) 0 l.

Lemma shard_payload n m l : 0 ≤ m → payload (shard false n m l) ≤ m.
Proof.
  revert m l. induction n as [|n IH]; intros m [|p l] Hm; simpl; try lia.
  destruct (Z.ltb_spec (m - blen p.2) 0); simpl; [lia|].
  destruct (Z.leb_spec (m - blen p.2) 0); simpl; [lia|].
  specialize (IH (m - blen p.2) l ltac:(lia)). lia.
Qed.

Lemma shard_first n m p l : (0 < n)%nat → ∃ l', shard true n m (p :: l) = p :: l' ∧
  (l' ≠ [] → payload (p :: l') ≤ m).
Proof.
  intros Hn. destruct n as [|n]; [lia|]. simpl. eexists. split; [done|].
  destruct (Z.leb_spec (m - blen p.2) 0); [done|]. intros _.
  pose proof (shard_payload n (m - blen p.2) l ltac:(lia)). lia.
Qed.

(** The request cap.  ReadRecords returns a prefix of what follows the
    cursor, at most [maxRecords] records; when something is there it returns at
    least one record, and more than one only if their payloads together stay
    within [maxBytes]. *)
Theorem read_records_cap o maxRecords maxBytes from o' out :
  ob_inv o → ob_closed o = false → 0 < maxRecords →
  ReadRecords maxRecords maxBytes from o = (o', Ok out) →
  ∃ i k, let win := window (content o').1 (content o').2 i in
    out = decode_rec <$> take k win ∧
    Z.of_nat (length out) ≤ maxRecords ∧
    (win ≠ [] → out ≠ []) ∧
    ((1 < length out)%nat → payload (take k win) ≤ maxBytes).
Proof.
  intros Hi Hcl Hm Hr. apply ReadRecords_open in Hr as (_ & _ & Hr); [|done|done].
  destruct Hr as (f & rs & first & Hc & _ & _ & -> & _). rewrite Hc. simpl.
  exists first. set (win := window f rs first).
  destruct (shard_take true (Z.to_nat maxRecords) maxBytes win) as [k Hk].
  exists k. rewrite <-Hk. split; [done|]. rewrite length_fmap.
  pose proof (shard_length true (Z.to_nat maxRecords) maxBytes win).
  split; [lia|]. destruct win as [|p win].
  { rewrite shard_nil. split; [done|]. simpl. lia. }
  destruct (shard_first (Z.to_nat maxRecords) maxBytes p win) as (l' & -> & Hp); [lia|].
  split; [done|]. intros Hl. apply Hp. destruct l'; [simpl in Hl; lia|done].
Qed.

(** The turn-start barrier's test.  Empty answers [true] exactly when no
    record is on disk and none is buffered, and changes nothing that is
    stored. *)
Theorem empty_iff_drained o o' b :
  ob_inv o → ob_closed o = false → Empty o = (o', Ok b) →
  queue o' = queue o ∧ (b = true ↔ queue o = []).
Proof.
  intros Hi Hcl He. apply Empty_open in He as (_ & (_ & Sb & _) & Hc & ->); [|done|done].
  split; [unfold queue; by rewrite Hc, Sb|]. by rewrite bool_decide_eq_true.
Qed.

(** Close does not flush: what is on disk stays, and every record still
    in the append buffer is left unwritten on an outbox that answers ErrClosed
    from then on. *)
Theorem close_leaves_the_buffer_unwritten o :
  content (Close o).1 = content o ∧ ob_buffered (Close o).1 = ob_buffered o ∧
  ob_log (Close o).1 = None ∧ (Flush (Close o).1).2 = Err ErrClosed.
Proof.
  destruct (Close_spec o) as (Hcl & Hl & Hc & Hb). split_and!; try done.
  pose proof (run_op_closed _ OpFlush Hcl) as E. simpl in E. by rewrite E.
Qed.
End spec.

Arguments op : clear implicits.

(** ** Concrete runs: the theorems above at a log with scheduled faults *)

Module Demo.
Definition C := ref_codec.
#[local] Existing Instance C.
#[local] Existing Instance ref_codec_laws.
Definition wops : WalOps (@bytes C) (MemWal.memwal (option Entry)) nat := MemWal.ops.
#[local] Existing Instance wops.
Definition wlaws : WalLaws wops := MemWal.laws.
#[local] Existing Instance wlaws.

Definition entry (seq : Z) : Entry :=
  MkEntry "c1" UPLOAD_ENTRY_KIND_PROGRESS seq None
    (Some (PProgress (MkProgress "c1" CommandOutput_STDOUT "x" seq None))).

(** One durable record, one buffered; [faults] schedules failing calls. *)
Definition ob (faults : list (option (nat * werr))) (n : Z) : outbox (MemWal.memwal (option Entry)) nat :=
  MkOutbox (MemWal.MkMem 1 [Some (entry 1)] 0 faults None 0) (Some 0%nat) false [entry 2] n.

(** Three durable records of which the second is torn, nothing buffered. *)
Definition ob3 : outbox (MemWal.memwal (option Entry)) nat :=
  MkOutbox (MemWal.MkMem 5 [Some (entry 1); None; Some (entry 3)] 0 [] None 0) (Some 0%nat) false [] 0.

Lemma ob_inv_demo faults n : ob_inv (ob faults n).
Proof. intros h [= <-]. split; reflexivity. Qed.
Lemma ob3_inv : ob_inv ob3.
Proof. intros h [= <-]. split; reflexivity. Qed.

Lemma outbox_step_invariant_witness :
  ob_inv (run_op OpClose (ob [] 0)).1 ∧
  (run_op OpFlush (run_op OpClose (ob [] 0)).1).2 = Err ErrClosed.
Proof.
  split; [apply (outbox_step_invariant (ob [] 0) OpClose), ob_inv_demo|].
  apply (outbox_step_invariant (run_op OpClose (ob [] 0)).1 OpFlush); [|reflexivity].
  intros h Hh. discriminate Hh.
Defined.

(** The first write fails after one record; the re-write duplicates it. *)
Lemma append_keeps_every_record_witness :
  let o := ob [Some (1%nat, ErrIO "disk")] flushThresholdBytes in
  (Append (entry 3) o).2 = Ok tt ∧
  queue (Append (entry 3) o).1
    = [Some (entry 1); Some (entry 2); Some (entry 2); Some (entry 3)] ∧
  ∃ n, queue (Append (entry 3) o).1
    = [Some (entry 1)] ++ take n [Some (entry 2); Some (entry 3)] ++ [Some (entry 2); Some (entry 3)].
Proof.
  split; [reflexivity|]. split; [reflexivity|].
  exact (proj2 (append_keeps_every_record (ob [Some (1%nat, ErrIO "disk")] flushThresholdBytes)
    (entry 3) _ (Ok tt) (ob_inv_demo _ _) eq_refl eq_refl)).
Defined.

Lemma read_records_spec_witness :
  content (WL:=wlaws) (ReadRecords (ops:=wops) 2 1000 6 ob3).1 = (5, [Some (entry 1); None; Some (entry 3)]) ∧
  [MkRecord 6 None; MkRecord 7 (Some (entry 3))]
    = decode_rec <$> shard (C:=C) true 2 1000
        (window (C:=C) 5 [Some (entry 1); None; Some (entry 3)] 6).
Proof.
  destruct (read_records_spec (WL:=wlaws) ob3 2 1000 6 (ReadRecords (ops:=wops) 2 1000 6 ob3).1
    (Ok [MkRecord 6 None; MkRecord 7 (Some (entry 3))]) ob3_inv eq_refl
    ltac:(vm_compute; reflexivity))
    as (f & rs & first & Hc & _ & Hf & Ho & _).
  injection Hc as <- <-. simpl in Hf. subst first. split; [reflexivity|exact Ho].
Defined.

(** Two records of 11 and 0 bytes fit in 12; the third does not. *)
Lemma read_records_cap_witness :
  ∃ i k, let win := window (C:=C) 5 [Some (entry 1); None; Some (entry 3)] i in
    [MkRecord 5 (Some (entry 1)); MkRecord 6 None] = decode_rec <$> take k win ∧
    payload (C:=C) (take k win) ≤ 12.
Proof.
  destruct (read_records_cap (WL:=wlaws) ob3 3 12 0 (ReadRecords (ops:=wops) 3 12 0 ob3).1
    [MkRecord 5 (Some (entry 1)); MkRecord 6 None] ob3_inv eq_refl eq_refl
    ltac:(vm_compute; reflexivity))
    as (i & k & Ho & Hn & _ & Hp).
  exists i, k. split; [exact Ho|]. apply Hp. simpl. lia.
Defined.

Lemma evict_through_spec_witness :
  let o' := (EvictThrough (ops:=wops) 6 ob3).1 in
  content (WL:=wlaws) o' = (7, [Some (entry 3)]) ∧
  ((6, None) ∈ indexed (content (WL:=wlaws) o').1 (content (WL:=wlaws) o').2 ↔
    (6, None) ∈ indexed 5 [Some (entry 1); None; Some (entry 3)] ∧ 6 < 6).
Proof.
  split; [reflexivity|].
  exact (proj2 (evict_through_spec (WL:=wlaws) ob3 6 (EvictThrough (ops:=wops) 6 ob3).1 5
    [Some (entry 1); None; Some (entry 3)] ob3_inv eq_refl eq_refl eq_refl) 6 None).
Defined.

Lemma empty_iff_drained_witness :
  false = true ↔ queue (WL:=wlaws) ob3 = [].
Proof. exact (proj2 (empty_iff_drained (WL:=wlaws) ob3 (Empty (ops:=wops) ob3).1 false ob3_inv eq_refl eq_refl)). Defined.
End Demo.
