(* ===== verification/Uploader.v ===== *)
(** The uploader that drains one agent's outbox to the manager
    ([backend/agent/outbox/uploader.go]): the turn-start barrier, the orphan
    scan and the synthetic terminals, the backoff, the upload cycle and the fold
    of a response into the eviction boundary and the cursor. *)

From stdpp Require Import base list strings numbers gmap sets pretty sorting.
From S2P Require Import Prelude Wire Wal Outbox.
Local Open Scope Z_scope.

Definition max32 (a b : Z) : Z := if a <? b then b else a.

Definition BatchWindow : Z := 200 * Millisecond.
Definition UploadMaxBytes : Z := Z.shiftl 4 20.
Definition TruncateThresholdBytes : Z := Z.shiftl 64 20.
Definition backoffBase : Z := 2 * Second.
Definition backoffMax : Z := 1 * Minute.
Definition agentStoppedMessage : string := "agent stopped before the turn reported a result".

(** The errors: the outbox's, the transport's, the context's.  [UStuck] marks a
    loop that used up the model's steps. *)
Inductive uerr :=
| UOutbox (e : oerr)
| UUpload (msg : string)
| UCtxDone
| UStuck.

(** ** Orphan groups *)

Record orphanGroup := MkOrphan { commandID : string; lastProgressSeq : Z }.

#[export] Instance orphanGroup_eq_dec : EqDecision orphanGroup.
Proof. solve_decision. Defined.

(** The scan's local [group] struct. *)
Record group := MkGroup { hasTerminal : bool; lastProgSeq : Z }.

(** One iteration of the scan loops: [skip] is the barrier's own command. *)
Definition scan_step (skip : option string) (groups : gmap string group) (r : record)
    : gmap string group :=
  match rec_entry r with
  | None => groups
  | Some e =>
      if bool_decide (skip = Some (en_command_id e)) then groups else
      let g := default (MkGroup false 0) (groups !! en_command_id e) in
      let g' :=
        if en_kind e =? UPLOAD_ENTRY_KIND_RESULT then MkGroup true (lastProgSeq g)
        else if en_kind e =? UPLOAD_ENTRY_KIND_PROGRESS
        then MkGroup (hasTerminal g) (max32 (lastProgSeq g) (en_seq_no e))
        else g in
      <[en_command_id e := g']> groups
  end.

Definition scan (skip : option string) (groups : gmap string group) (rs : list record)
    : gmap string group := foldl (scan_step skip) groups rs.

(** [strings.Compare(a, b) <= 0] *)
Definition orphan_le (a b : orphanGroup) : Prop :=
  String.leb (commandID a) (commandID b) = true.
#[export] Instance orphan_le_dec : RelDecision orphan_le.
Proof. intros a b. unfold orphan_le. apply _. Defined.

(** Ranging over the map (in any order) and sorting by command id. *)
Definition collect_orphans (groups : list (string * group)) : list orphanGroup :=
  merge_sort orphan_le
    (omap (λ p, if hasTerminal p.2 then None else Some (MkOrphan p.1 (lastProgSeq p.2))) groups).

Definition syntheticTerminal (o : orphanGroup) (message : string) : Entry :=
  MkEntry (commandID o) UPLOAD_ENTRY_KIND_RESULT 1 None
    (Some (PResult (MkResult (commandID o) (-1) 0 message (lastProgressSeq o) "" None))).

(** ** The fold's view of a response *)

Definition rejectionKey (commandID : string) (kind seq : Z) : string :=
  commandID +:+ "|" +:+ pretty kind +:+ "|" +:+ pretty seq.

Record settle_view := MkView {
  sv_acks : gmap string Ack;
  sv_rejected : gmap string string;
  sv_terminalRejected : gset string
}.

Definition response_view (resp : UploadResponse) : settle_view :=
  MkView
    (foldl (λ m a, <[ack_command_id a := a]> m) ∅ (resp_acks resp))
    (foldl (λ m r, <[rejectionKey (rej_command_id r) (rej_kind r) (rej_seq_no r) := rej_reason r]> m)
       ∅ (resp_rejected resp))
    (foldl (λ s r, if rej_kind r =? UPLOAD_ENTRY_KIND_RESULT then {[rej_command_id r]} ∪ s else s)
       ∅ (resp_rejected resp)).

Definition recordSettled (r : record) (v : settle_view) : bool :=
  match rec_entry r with
  | None => true
  | Some e =>
      if bool_decide (en_command_id e ∈ sv_terminalRejected v) then true else
      match sv_rejected v !! rejectionKey (en_command_id e) (en_kind e) (en_seq_no e) with
      | Some _ => true
      | None =>
          match sv_acks v !! en_command_id e with
          | None => false
          | Some a =>
              if en_kind e =? UPLOAD_ENTRY_KIND_PROGRESS then en_seq_no e <=? ack_last_progress_seq a
              else if en_kind e =? UPLOAD_ENTRY_KIND_EVENT then en_seq_no e <=? ack_last_event_seq a
              else if en_kind e =? UPLOAD_ENTRY_KIND_RESULT then ack_result_acked a
              else false
          end
      end
  end.

Section uploader.
Context {C : Codec} {W H : Type} {ops : WalOps bytes W H}.
(** The transport: [E] is everything behind it (the network, the manager). *)
Context {E : Type} (upload : E → list Entry → E * res string UploadResponse).

(** [Uploader]; [nextTry] is [None] for the zero time, [flushNow] the one slot
    of its channel, [gaugeLag]/[gaugeBytes] and the counters its metrics. *)
Record uploader := MkUploader {
  up_ob : outbox W H;
  up_env : E;
  flushNow : bool;
  backoff : Z;
  nextTry : option Z;
  readFrom : Z;
  settledSinceEvict : Z;
  gaugeLag : Z;
  gaugeBytes : Z;
  poisonTotal : Z;
  flushNowTotal : Z
}.

Definition UM : Type → Type := M uploader uerr.

Definition set_ob (o : outbox W H) (u : uploader) : uploader :=
  MkUploader o (up_env u) (flushNow u) (backoff u) (nextTry u) (readFrom u)
    (settledSinceEvict u) (gaugeLag u) (gaugeBytes u) (poisonTotal u) (flushNowTotal u).
Definition set_env (e : E) (u : uploader) : uploader :=
  MkUploader (up_ob u) e (flushNow u) (backoff u) (nextTry u) (readFrom u)
    (settledSinceEvict u) (gaugeLag u) (gaugeBytes u) (poisonTotal u) (flushNowTotal u).
Definition set_flushNow (b : bool) (u : uploader) : uploader :=
  MkUploader (up_ob u) (up_env u) b (backoff u) (nextTry u) (readFrom u)
    (settledSinceEvict u) (gaugeLag u) (gaugeBytes u) (poisonTotal u) (flushNowTotal u).
Definition set_backoff (b : Z) (t : option Z) (u : uploader) : uploader :=
  MkUploader (up_ob u) (up_env u) (flushNow u) b t (readFrom u)
    (settledSinceEvict u) (gaugeLag u) (gaugeBytes u) (poisonTotal u) (flushNowTotal u).
Definition set_readFrom (i : Z) (u : uploader) : uploader :=
  MkUploader (up_ob u) (up_env u) (flushNow u) (backoff u) (nextTry u) i
    (settledSinceEvict u) (gaugeLag u) (gaugeBytes u) (poisonTotal u) (flushNowTotal u).
Definition set_settled (n : Z) (u : uploader) : uploader :=
  MkUploader (up_ob u) (up_env u) (flushNow u) (backoff u) (nextTry u) (readFrom u)
    n (gaugeLag u) (gaugeBytes u) (poisonTotal u) (flushNowTotal u).
Definition set_gaugeLag (n : Z) (u : uploader) : uploader :=
  MkUploader (up_ob u) (up_env u) (flushNow u) (backoff u) (nextTry u) (readFrom u)
    (settledSinceEvict u) n (gaugeBytes u) (poisonTotal u) (flushNowTotal u).
Definition set_gaugeBytes (n : Z) (u : uploader) : uploader :=
  MkUploader (up_ob u) (up_env u) (flushNow u) (backoff u) (nextTry u) (readFrom u)
    (settledSinceEvict u) (gaugeLag u) n (poisonTotal u) (flushNowTotal u).
Definition set_poison (n : Z) (u : uploader) : uploader :=
  MkUploader (up_ob u) (up_env u) (flushNow u) (backoff u) (nextTry u) (readFrom u)
    (settledSinceEvict u) (gaugeLag u) (gaugeBytes u) n (flushNowTotal u).
Definition set_flushNowTotal (n : Z) (u : uploader) : uploader :=
  MkUploader (up_ob u) (up_env u) (flushNow u) (backoff u) (nextTry u) (readFrom u)
    (settledSinceEvict u) (gaugeLag u) (gaugeBytes u) (poisonTotal u) n.

(** An operation of the outbox, which serializes itself on its own mutex. *)
Definition on_ob {A} (m : OM A) : UM A := λ u,
  match m (up_ob u) with
  | (o', Ok a) => (set_ob o' u, Ok a)
  | (o', Err e) => (set_ob o' u, Err (UOutbox e))
  end.

Definition call_upload (entries : list Entry) : UM UploadResponse := λ u,
  match upload (up_env u) entries with
  | (e', Ok r) => (set_env e' u, Ok r)
  | (e', Err m) => (set_env e' u, Err (UUpload m))
  end.

Definition NewUploader (ob : outbox W H) (env : E) : uploader :=
  MkUploader ob env false 0 None 0 0 0 0 0 0.

(** FlushNow: a non-blocking send on a channel of capacity one. *)
Definition FlushNow : UM unit :=
  modify (λ u, set_flushNow true (set_flushNowTotal (flushNowTotal u + 1) u)).

(** How a [select] on the context, the channel and a timer ends, after the
    other goroutines made [others] of the state. *)
Inductive wakeup := WakeCtxDone | WakeFlushNow | WakeTimer.

Definition wait (w : (uploader → uploader) * wakeup) : UM unit := λ u,
  let u' := w.1 u in
  match w.2 with
  | WakeCtxDone => (u', Err UCtxDone)
  | WakeFlushNow => (set_flushNow false u', Ok tt)
  | WakeTimer => (u', Ok tt)
  end.

Fixpoint drained_loop (ws : list ((uploader → uploader) * wakeup)) : UM unit :=
  empty ← on_ob Empty;
  if (empty : bool) then mret tt else
  match ws with
  | [] => throw UStuck
  | w :: ws' => wait w;; drained_loop ws'
  end.

Definition WaitDrained (ws : list ((uploader → uploader) * wakeup)) : UM unit :=
  FlushNow;; drained_loop ws.

Definition blockingFor (commandID : string) : UM (bool * list orphanGroup) :=
  records ← on_ob (ReadRecords ReadBatchMaxEntries UploadMaxBytes 0);
  let others := scan (Some commandID) ∅ records in
  let blocked := existsb (λ r, match rec_entry r with
    | Some e => negb (String.eqb (en_command_id e) commandID) | None => false end) records in
  mret (blocked, collect_orphans (map_to_list others)).

(** Append a synthetic terminal for each orphan; the first failure stops. *)
Fixpoint append_terminals (orphans : list orphanGroup) (message : string) : UM unit :=
  match orphans with
  | [] => mret tt
  | o :: os => on_ob (Append (syntheticTerminal o message));; append_terminals os message
  end.

Fixpoint WaitClearFor (ws : list ((uploader → uploader) * wakeup)) (commandID : string) : UM unit :=
  '(blocked, orphans) ← blockingFor commandID;
  if negb (blocked : bool) then mret tt else
  append_terminals orphans agentStoppedMessage;;
  FlushNow;;
  match ws with
  | [] => throw UStuck
  | w :: ws' => wait w;; WaitClearFor ws' commandID
  end.

(** The full scan, shard by shard, from [from]. *)
Fixpoint orphan_loop (steps : nat) (from : Z) (groups : gmap string group)
    : UM (gmap string group) :=
  match steps with
  | O => throw UStuck
  | S steps' =>
      records ← on_ob (ReadRecords ReadBatchMaxEntries UploadMaxBytes from);
      match last records with
      | None => mret groups
      | Some r => orphan_loop steps' (rec_index r + 1) (scan None groups records)
      end
  end.

Definition orphanGroups (steps : nat) : UM (list orphanGroup) :=
  groups ← orphan_loop steps 0 ∅;
  mret (collect_orphans (map_to_list groups)).

Definition SynthesizeInterruptedTerminals (steps : nat) (message : string) : UM unit :=
  orphans ← orphanGroups steps;
  append_terminals orphans message;;
  on_ob Flush.

(** ** Backoff; [now] is the clock when the function reads it. *)

Definition after_now (t : option Z) (now : Z) : bool :=
  match t with Some t => now <? t | None => false end.

Definition currentWait (now : Z) (u : uploader) : Z :=
  match nextTry u with
  | Some t => if now <? t then t - now else BatchWindow
  | None => BatchWindow
  end.

Definition recordFailure (now : Z) : UM unit := modify (λ u,
  if after_now (nextTry u) now then u else
  let b := if backoff u =? 0 then backoffBase
           else let b2 := backoff u * 2 in if backoffMax <? b2 then backoffMax else b2 in
  set_backoff b (Some (now + b)) u).

Definition recordSuccess : UM unit := modify (set_backoff 0 None).

Definition BypassUpload (entry : option Entry) : UM unit :=
  match entry with
  | None => mret tt
  | Some e => _ ← call_upload [e]; mret tt
  end.

(** ** Cursor, accumulator and gauges *)

Definition setReadFrom (index : Z) : UM unit := modify (λ u,
  if readFrom u <? index then set_readFrom index u else u).

Definition addSettledBytes (n : Z) : UM bool :=
  modify (λ u, set_settled (i64 (settledSinceEvict u + n)) u);;
  gets (λ u, TruncateThresholdBytes <=? settledSinceEvict u).

Definition resetSettledBytes : UM unit := modify (set_settled 0).

Definition updateGauges (boundary : Z) : UM unit :=
  range ← attempt (on_ob rangeForMetrics);
  match range with
  | Err _ => mret tt
  | Ok (first, last) =>
      let lag :=
        if first <=? last then
          let from := if boundary <? first then first else boundary in
          if from <=? last then i64 (last - from + 1) else 0
        else 0 in
      modify (set_gaugeLag lag);;
      size ← attempt (on_ob (wal_query fs_dir_size));
      match size with
      | Ok n => modify (set_gaugeBytes n)
      | Err _ => mret tt
      end
  end.

(** ** The fold *)

(** The walk: the boundary, the settled bytes, whether a terminal settled. *)
Fixpoint fold_walk (v : settle_view) (records : list record)
    (boundary settledBytes : Z) (terminalSettled : bool) : Z * Z * bool :=
  match records with
  | [] => (boundary, settledBytes, terminalSettled)
  | r :: rs =>
      if negb (recordSettled r v) then (boundary, settledBytes, terminalSettled) else
      match rec_entry r with
      | None => fold_walk v rs (rec_index r) settledBytes terminalSettled
      | Some e =>
          fold_walk v rs (rec_index r) (i64 (settledBytes + blen (marshalEnvelope e)))
            (terminalSettled || (en_kind e =? UPLOAD_ENTRY_KIND_RESULT))
      end
  end.

(** The amortized truncation; [terminal] is
    [terminalSettled || terminalRejectedSeen]. *)
Definition fold_evict (boundary settledBytes : Z) (terminal : bool) : UM unit :=
  due ← (if terminal then mret true else addSettledBytes settledBytes);
  if (due : bool) then
    r ← attempt (on_ob (EvictThrough boundary));
    match r with
    | Err _ => mret tt
    | Ok _ => resetSettledBytes
    end
  else mret tt.

Definition fold (records : list record) (resp : UploadResponse) : UM unit :=
  let v := response_view resp in
  let '(boundary, settledBytes, terminalSettled) := fold_walk v records 0 0 false in
  let terminalRejectedSeen := negb (bool_decide (sv_terminalRejected v = ∅)) in
  (if 0 <? boundary
   then fold_evict boundary settledBytes (terminalSettled || terminalRejectedSeen)
   else mret tt);;
  if 0 <? boundary then setReadFrom (boundary + 1) else mret tt.

(** ** One cycle, the drain and the run loop *)

Definition uploadCycle (now : Z) : UM unit :=
  from ← gets readFrom;
  r ← attempt (on_ob (ReadRecords ReadBatchMaxEntries UploadMaxBytes from));
  match r with
  | Err _ => recordFailure now
  | Ok [] => updateGauges 0
  | Ok records =>
      let entries := omap rec_entry records in
      modify (λ u, set_poison (poisonTotal u + (Z.of_nat (length records) - Z.of_nat (length entries))) u);;
      resp ← attempt (call_upload entries);
      match resp with
      | Err _ => recordFailure now
      | Ok resp =>
          recordSuccess;;
          fold records resp;;
          from' ← gets readFrom;
          updateGauges from';;
          on_ob EnforceCap
      end
  end.

(** Drain: [ctx.Done()] or a batch window after each cycle. *)
Fixpoint Drain (ws : list ((uploader → uploader) * bool)) (nows : list Z) : UM unit :=
  e ← attempt (on_ob Empty);
  match e with
  | Err _ => mret tt
  | Ok true => mret tt
  | Ok false =>
      match ws, nows with
      | (others, ctxDone) :: ws', now :: nows' =>
          uploadCycle now;;
          modify others;;
          if (ctxDone : bool) then mret tt else Drain ws' nows'
      | _, _ => throw UStuck
      end
  end.

(** Run: an iteration reads the clock twice (the cycle, the wait), and its
    sleep is the current wait; it ends with the context. *)
Fixpoint Run (ws : list (Z * ((uploader → uploader) * wakeup))) : UM unit :=
  match ws with
  | [] => throw UStuck
  | (now, w) :: ws' =>
      uploadCycle now;;
      r ← attempt (wait w);
      match r with Err _ => mret tt | Ok _ => Run ws' end
  end.
End uploader.

Arguments uploader : clear implicits.

(** ** Lemmas on the scan *)

Definition grp_upd (g : group) (e : Entry) : group :=
  if en_kind e =? UPLOAD_ENTRY_KIND_RESULT then MkGroup true (lastProgSeq g)
  else if en_kind e =? UPLOAD_ENTRY_KIND_PROGRESS
  then MkGroup (hasTerminal g) (max32 (lastProgSeq g) (en_seq_no e))
  else g.

Definition of_cmd (id : string) (rs : list record) : list Entry :=
  filter (λ e, en_command_id e = id) (omap rec_entry rs).

Lemma scan_lookup skip m rs id :
  skip ≠ Some id →
  scan skip m rs !! id =
    match of_cmd id rs with
    | [] => m !! id
    | es => Some (foldl grp_upd (default (MkGroup false 0) (m !! id)) es)
    end.
Proof.
  intros Hs. revert m. induction rs as [|r rs IH]; intros m; [done|].
  change (scan skip m (r :: rs)) with (scan skip (scan_step skip m r) rs). rewrite IH.
  unfold of_cmd, scan_step. simpl. destruct (rec_entry r) as [e|]; [|done].
  rewrite filter_cons. case_decide as He.
  - rewrite bool_decide_eq_false_2 by congruence. rewrite He, lookup_insert_eq. simpl.
    fold (grp_upd (default (MkGroup false 0) (m !! id)) e).
    by destruct (filter _ _).
  - case_bool_decide; [done|]. rewrite lookup_insert_ne by congruence. done.
Qed.

Definition is_result (e : Entry) : Prop := en_kind e = UPLOAD_ENTRY_KIND_RESULT.
#[export] Instance is_result_dec e : Decision (is_result e).
Proof. unfold is_result. apply _. Defined.

(** The highest progress sequence number among the entries, from 0. *)
Definition max_progress (es : list Entry) : Z :=
  foldr Z.max 0 (en_seq_no <$> filter (λ e, en_kind e = UPLOAD_ENTRY_KIND_PROGRESS) es).

Lemma max32_max a b : max32 a b = Z.max a b.
Proof. unfold max32. destruct (Z.ltb_spec a b); lia. Qed.

Lemma grp_foldl g es :
  hasTerminal (foldl grp_upd g es) = hasTerminal g || bool_decide (Exists is_result es) ∧
  lastProgSeq (foldl grp_upd g es) =
    foldl Z.max (lastProgSeq g)
      (en_seq_no <$> filter (λ e, en_kind e = UPLOAD_ENTRY_KIND_PROGRESS) es).
Proof.
  revert g. induction es as [|e es IH]; intros g; cbn [foldl].
  { split; [|done]. by destruct (hasTerminal g). }
  destruct (IH (grp_upd g e)) as [-> ->]. clear IH. rewrite filter_cons. unfold grp_upd at 1 2.
  destruct (Z.eqb_spec (en_kind e) UPLOAD_ENTRY_KIND_RESULT) as [E|E]; simpl.
  - rewrite decide_False by (rewrite E; done). split; [|done].
    rewrite (bool_decide_eq_true_2 (Exists is_result (e :: es))) by (by left).
    by rewrite orb_true_r.
  - assert (bool_decide (Exists is_result (e :: es)) = bool_decide (Exists is_result es)) as ->.
    { apply bool_decide_ext. rewrite Exists_cons. unfold is_result. tauto. }
    destruct (Z.eqb_spec (en_kind e) UPLOAD_ENTRY_KIND_PROGRESS); simpl.
    + rewrite decide_True by done. simpl. by rewrite max32_max.
    + rewrite decide_False by done. done.
Qed.

Lemma foldl_max_foldr l a : foldl Z.max a l = Z.max a (foldr Z.max a l).
Proof. revert a. induction l as [|x l IH]; intros a; simpl; [lia|]. rewrite IH.
  assert (∀ b c, foldr Z.max (Z.max b c) l = Z.max c (foldr Z.max b l)) as Hm.
  { intros b c. clear. induction l; simpl; [lia|]. rewrite IHl. lia. }
  rewrite Hm. lia.
Qed.

Lemma max_progress_foldl es :
  foldl Z.max 0 (en_seq_no <$> filter (λ e, en_kind e = UPLOAD_ENTRY_KIND_PROGRESS) es)
  = max_progress es.
Proof.
  rewrite foldl_max_foldr. unfold max_progress.
  assert (∀ l, 0 ≤ foldr Z.max 0 l) as H0 by (intros l; induction l; simpl; lia).
  specialize (H0 (en_seq_no <$> filter (λ e, en_kind e = UPLOAD_ENTRY_KIND_PROGRESS) es)). lia.
Qed.

Lemma grp_of_entries es :
  foldl grp_upd (MkGroup false 0) es =
    MkGroup (bool_decide (Exists is_result es)) (max_progress es).
Proof.
  destruct (grp_foldl (MkGroup false 0) es) as [Ht Hl]. rewrite max_progress_foldl in Hl.
  destruct (foldl grp_upd (MkGroup false 0) es). simpl in *. by subst.
Qed.

(** A command is orphaned in a log: it has records and none is a result. *)
Definition orphaned (rs : list record) (id : string) : Prop :=
  of_cmd id rs ≠ [] ∧ ¬ Exists is_result (of_cmd id rs).

Lemma elem_of_collect_orphans (m : gmap string group) o :
  o ∈ collect_orphans (map_to_list m) ↔
  ∃ g, m !! commandID o = Some g ∧ hasTerminal g = false ∧ lastProgSeq g = lastProgressSeq o.
Proof.
  unfold collect_orphans. rewrite merge_sort_Permutation, list_elem_of_omap. split.
  - intros ([id g] & Hin & Ho). apply elem_of_map_to_list in Hin. simpl in Ho.
    destruct (hasTerminal g) eqn:Eg; simplify_eq/=. eauto.
  - intros (g & Hg & Ht & Hl). exists (commandID o, g). split; [by apply elem_of_map_to_list|].
    simpl. rewrite Ht, Hl. by destruct o.
Qed.

#[export] Instance orphan_le_total : Total orphan_le.
Proof. intros a b. unfold orphan_le. destruct (String.leb_total (commandID a) (commandID b)); auto. Qed.

Lemma collect_orphans_sorted (m : gmap string group) :
  Sorted orphan_le (collect_orphans (map_to_list m)) ∧
  NoDup (commandID <$> collect_orphans (map_to_list m)).
Proof.
  split; [apply Sorted_merge_sort, _|].
  unfold collect_orphans. rewrite merge_sort_Permutation.
  pose proof (NoDup_fst_map_to_list m) as Hn. revert Hn.
  generalize (map_to_list m). intros l. induction l as [|[id g] l IH]; simpl; [constructor|].
  intros [Hni Hn]%NoDup_cons. destruct (hasTerminal g); simpl; [by apply IH|].
  constructor; [|by apply IH]. contradict Hni.
  apply list_elem_of_fmap in Hni as (o & -> & Ho). apply list_elem_of_omap in Ho as ([i' g'] & Hin & Ho).
  simpl in Ho. destruct (hasTerminal g'); simplify_eq/=.
  apply list_elem_of_fmap. by exists (i', g').
Qed.

Lemma scan_orphans rs o :
  o ∈ collect_orphans (map_to_list (scan None ∅ rs)) ↔
  orphaned rs (commandID o) ∧ lastProgressSeq o = max_progress (of_cmd (commandID o) rs).
Proof.
  rewrite elem_of_collect_orphans, scan_lookup by done. rewrite lookup_empty.
  unfold orphaned. destruct (of_cmd (commandID o) rs) as [|e es].
  { split; [by intros (? & ? & _)|]. by intros [[? _] _]. }
  change (default _ None) with (MkGroup false 0). rewrite grp_of_entries.
  split.
  - intros (g & [= <-] & Hg & Hp). cbn [hasTerminal lastProgSeq] in *. rewrite <-Hp.
    apply bool_decide_eq_false in Hg. done.
  - intros [[_ Hn] ->]. eexists. split; [done|]. split; [|done].
    by apply bool_decide_eq_false_2.
Qed.

(** ** Specification *)

Section spec.
Context {C : Codec} {CL : CodecLaws C} {W H : Type} {ops : WalOps bytes W H} {WL : WalLaws ops}.
Context {E : Type} (upload : E → list Entry → E * res string UploadResponse).
Implicit Types u : uploader W H E.

(** The outbox is open with a healthy handle. *)
Definition up_inv u : Prop := ob_inv (up_ob u) ∧ ob_closed (up_ob u) = false.

(** The records of the log on disk, decoded. *)
Definition log_records u : list record :=
  decode_rec <$> indexed (content (up_ob u)).1 (content (up_ob u)).2.

Lemma on_ob_inv {A} (m : OM A) u u' r :
  on_ob m u = (u', r) →
  ∃ o' r', m (up_ob u) = (o', r') ∧ u' = set_ob o' u ∧
    r = match r' with Ok a => Ok a | Err e => Err (UOutbox e) end.
Proof. unfold on_ob. destruct (m (up_ob u)) as [o' [a|e]]; intros [= <- <-]; eauto 10. Qed.

Lemma window_indexed f rs i : f ≤ i → window f rs i = indexed i (drop (Z.to_nat (i - f)) rs).
Proof.
  intros Hi. unfold window. apply list_eq. intros k.
  rewrite lookup_drop, !lookup_indexed, lookup_drop.
  destruct (rs !! _); simpl; [|done]. do 2 f_equal. lia.
Qed.

Lemma take_indexed {A} n i (l : list A) : take n (indexed i l) = indexed i (take n l).
Proof. revert i l. induction n; intros i [|x l]; simpl; [done..|]. by rewrite IHn. Qed.

(** A shard of the window ends just before the next cursor. *)
Lemma shard_window f rs i n m :
  (0 < n)%nat → f ≤ i ≤ f + Z.of_nat (length rs) →
  ∃ k, shard true n m (window f rs i) = indexed i (take k (drop (Z.to_nat (i - f)) rs)) ∧
    (k ≤ Z.to_nat (f + Z.of_nat (length rs) - i))%nat ∧
    (i < f + Z.of_nat (length rs) → (0 < k)%nat).
Proof.
  intros Hn Hi. rewrite window_indexed by lia.
  destruct (shard_take true n m (indexed i (drop (Z.to_nat (i - f)) rs))) as [k Hk].
  rewrite Hk, take_indexed.
  assert (length (drop (Z.to_nat (i - f)) rs) = Z.to_nat (f + Z.of_nat (length rs) - i)) as Hl.
  { rewrite length_drop. lia. }
  exists (min k (length (drop (Z.to_nat (i - f)) rs))).
  split_and!; [|lia|].
  - f_equal. destruct (decide (k ≤ length (drop (Z.to_nat (i - f)) rs))%nat).
    + by rewrite Nat.min_l.
    + rewrite Nat.min_r by lia. rewrite !take_ge by lia. done.
  - intros Hlt. destruct (drop (Z.to_nat (i - f)) rs) as [|b l] eqn:Ed; [simpl in Hl; lia|].
    simpl indexed in Hk. destruct (shard_first n m (i, b) (indexed (i + 1) l) Hn) as (l' & E' & _).
    rewrite E' in Hk. destruct k; [done|]. simpl. lia.
Qed.

Lemma last_decoded i (l : list bytes) :
  match last (decode_rec <$> indexed i l) with
  | Some r => rec_index r = i + Z.of_nat (length l) - 1 ∧ l ≠ []
  | None => l = []
  end.
Proof.
  destruct l as [|b l] using rev_ind; [done|].
  rewrite indexed_app, fmap_app. simpl. rewrite last_snoc, length_app. simpl.
  split; [lia|]. by destruct l.
Qed.

Lemma ReadRecords_up u mr mb from u' r :
  up_inv u → on_ob (ReadRecords mr mb from) u = (u', r) →
  up_inv u' ∧ u' = set_ob (up_ob u') u ∧
  match r with
  | Ok out =>
      ∃ f rs first n, content (up_ob u') = (f, rs) ∧ ob_buffered (up_ob u') = [] ∧
        first = (if f + Z.of_nat (length rs) <? from then f else Z.max f from) ∧
        out = decode_rec <$> shard true (Z.to_nat mr) mb (window f rs first) ∧
        rs = (content (up_ob u)).2 ++ take n (marshal_all (ob_buffered (up_ob u)))
               ++ marshal_all (ob_buffered (up_ob u)) ∧
        f = (content (up_ob u)).1 ∧ 1 ≤ f ∧ f + Z.of_nat (length rs) < 2^64
  | Err e => e ≠ UStuck
  end.
Proof.
  intros [Hi Hc] Hr. apply on_ob_inv in Hr as (o' & r' & Hr & -> & ->).
  apply ReadRecords_open in Hr as (? & ? & Hr); [|done|done].
  split_and!; [done|done|]. destruct r' as [out|]; [|done].
  destruct Hr as (f & rs & first & ? & ? & ? & ? & n & ?). by exists f, rs, first, n.
Qed.

(** Reading at a cursor inside a flushed log: the next shard, the log as is. *)
Lemma read_flushed u f rs from u' out :
  up_inv u → content (up_ob u) = (f, rs) → ob_buffered (up_ob u) = [] →
  f ≤ from ≤ f + Z.of_nat (length rs) →
  on_ob (ReadRecords ReadBatchMaxEntries UploadMaxBytes from) u = (u', Ok out) →
  content (up_ob u') = (f, rs) ∧ ob_buffered (up_ob u') = [] ∧
  ∃ k, out = decode_rec <$> indexed from (take k (drop (Z.to_nat (from - f)) rs)) ∧
    (k ≤ Z.to_nat (f + Z.of_nat (length rs) - from))%nat ∧
    (from < f + Z.of_nat (length rs) → (0 < k)%nat).
Proof.
  intros Hu Hc Hb Hf Hr. apply ReadRecords_up in Hr as (_ & _ & Hr); [|done].
  destruct Hr as (f' & rs' & first & n & Hc' & Hb' & Hfirst & -> & Hrs & Hf' & _).
  rewrite Hc in Hrs, Hf'. rewrite Hb in Hrs. change (marshal_all []) with (@nil bytes) in Hrs.
  rewrite take_nil, !app_nil_r in Hrs. simpl in Hrs, Hf'. subst f' rs'.
  rewrite (proj2 (Z.ltb_ge _ _)) in Hfirst by lia. rewrite Z.max_r in Hfirst by lia. subst first.
  split_and!; [done|done|].
  destruct (shard_window f rs from (Z.to_nat ReadBatchMaxEntries) UploadMaxBytes) as (k & Hk & ?);
    [compute; lia|lia|]. exists k. by rewrite Hk.
Qed.

Lemma scan_app skip m l1 l2 : scan skip m (l1 ++ l2) = scan skip (scan skip m l1) l2.
Proof. apply foldl_app. Qed.

(** The scan of a flushed log from a cursor inside it, whole. *)
Lemma orphan_loop_flushed steps u f rs from m u' r :
  up_inv u → content (up_ob u) = (f, rs) → ob_buffered (up_ob u) = [] →
  f ≤ from ≤ f + Z.of_nat (length rs) →
  (Z.to_nat (f + Z.of_nat (length rs) - from) < steps)%nat →
  orphan_loop steps from m u = (u', r) →
  up_inv u' ∧ u' = set_ob (up_ob u') u ∧
  match r with
  | Ok g => content (up_ob u') = (f, rs) ∧ ob_buffered (up_ob u') = [] ∧
      g = scan None m (decode_rec <$> indexed from (drop (Z.to_nat (from - f)) rs))
  | Err e => e ≠ UStuck
  end.
Proof.
  revert u from m. induction steps as [|steps IH]; intros u from m Hu Hc Hb Hf Hs; [lia|].
  simpl. unfold mbind, M_bind.
  destruct (on_ob _ u) as [u1 [out|e]] eqn:E1; pose proof E1 as E2;
    apply ReadRecords_up in E2 as (Hu1 & Hset & Hrest); [|done| |done].
  2:{ by intros [= <- <-]. }
  apply (read_flushed _ f rs) in E1 as (Hc1 & Hb1 & k & -> & Hk & Hk'); [|done..].
  clear Hrest. set (rest := drop (Z.to_nat (from - f)) rs) in *.
  assert (length rest = Z.to_nat (f + Z.of_nat (length rs) - from)) as Hlen.
  { subst rest. rewrite length_drop. lia. }
  pose proof (last_decoded from (take k rest)) as Hl.
  destruct (last _) as [p|].
  - destruct Hl as [-> Hne]. rewrite length_take_le by lia.
    assert (0 < k)%nat by (destruct k; [done|lia]).
    replace (from + Z.of_nat k - 1 + 1) with (from + Z.of_nat k) by lia.
    intros Hrun. apply IH in Hrun as (Hu' & Hset' & Hr); [|done..|lia|lia].
    split_and!; [done|rewrite Hset'; rewrite Hset; done|].
    destruct r as [g|]; [|done]. destruct Hr as (? & ? & ->). split_and!; [done..|].
    rewrite <-scan_app, <-fmap_app. do 2 f_equal.
    replace (Z.to_nat (from + Z.of_nat k - f)) with (Z.to_nat (from - f) + k)%nat by lia.
    rewrite <-drop_drop. fold rest.
    trans (indexed from (take k rest ++ drop k rest)); [|by rewrite take_drop].
    rewrite indexed_app, length_take_le by lia. done.
  - intros [= <- <-]. split_and!; [done..|].
    assert (k = 0%nat ∨ rest = []) as [-> |Hrest].
    { destruct k; [by left|right]. by destruct rest. }
    + destruct rest; [done|]. simpl in Hlen. lia.
    + by rewrite Hrest.
Qed.

(** Steps enough for a scan: the log, with everything buffered written twice. *)
Definition scan_bound u : nat :=
  length (content (up_ob u)).2 + 2 * length (ob_buffered (up_ob u)) + 2.

Lemma length_flushed rs0 n (bs : list bytes) :
  (length (rs0 ++ take n bs ++ bs) ≤ length rs0 + 2 * length bs)%nat.
Proof. rewrite !length_app, length_take. lia. Qed.

Lemma orphanGroups_flushed steps u u' r :
  up_inv u → (scan_bound u ≤ steps)%nat → orphanGroups steps u = (u', r) →
  up_inv u' ∧ u' = set_ob (up_ob u') u ∧
  match r with
  | Ok os => ob_buffered (up_ob u') = [] ∧
      os = collect_orphans (map_to_list (scan None ∅ (log_records u'))) ∧
      (content (up_ob u')).1 = (content (up_ob u)).1 ∧
      ∃ n, (content (up_ob u')).2 = (content (up_ob u)).2
        ++ take n (marshal_all (ob_buffered (up_ob u))) ++ marshal_all (ob_buffered (up_ob u))
  | Err e => e ≠ UStuck
  end.
Proof.
  intros Hu Hs. unfold orphanGroups, mbind at 1, M_bind.
  destruct steps as [|steps]; [unfold scan_bound in Hs; lia|]. simpl orphan_loop.
  unfold mbind at 1, M_bind.
  destruct (on_ob _ u) as [u1 [out|e]] eqn:E1; apply ReadRecords_up in E1 as (Hu1 & Hset & Hr);
    [|done| |done]; [|by intros [= <- <-]].
  destruct Hr as (f & rs & first & n & Hc & Hb & Hfirst & -> & Hrs & Hf & Hf1 & _).
  assert (length rs ≤ length (content (up_ob u)).2 + 2 * length (ob_buffered (up_ob u)))%nat as Hlen.
  { rewrite Hrs. etrans; [apply length_flushed|]. unfold marshal_all. rewrite length_fmap. lia. }
  rewrite (proj2 (Z.ltb_ge _ _)), Z.max_l in Hfirst by lia. subst first.
  destruct (shard_window f rs f (Z.to_nat ReadBatchMaxEntries) UploadMaxBytes) as (k & -> & Hk & Hk');
    [compute; lia|lia|].
  rewrite Z.sub_diag in *. rewrite drop_0 in *.
  assert (∀ u2, content (up_ob u2) = (f, rs) → log_records u2 = decode_rec <$> indexed f rs) as Hlog.
  { intros u2 E2. unfold log_records. by rewrite E2. }
  pose proof (last_decoded f (take k rs)) as Hl. destruct (last _) as [p|].
  - destruct Hl as [-> Hne]. rewrite length_take_le by lia.
    replace (f + Z.of_nat k - 1 + 1) with (f + Z.of_nat k) by lia.
    destruct (orphan_loop _ _ _ u1) as [u2 r2] eqn:E2. 
    apply (orphan_loop_flushed _ _ f rs) in E2 as (Hu2 & Hset2 & Hr2);
      [|done..|lia|unfold scan_bound in Hs; lia].
    destruct r2 as [g|e]; intros [= <- <-]; (split; [done|split; [by rewrite Hset2, Hset|]]); [|done].
    destruct Hr2 as (Hc2 & Hb2 & ->). split; [done|]. split.
    + do 2 f_equal. rewrite (Hlog _ Hc2), <-scan_app, <-fmap_app. do 2 f_equal.
      replace (Z.to_nat (f + Z.of_nat k - f)) with k by lia.
      trans (indexed f (take k rs ++ drop k rs)); [|by rewrite take_drop].
      by rewrite indexed_app, length_take_le by lia.
    + rewrite Hc2. simpl. eauto.
  - intros [= <- <-]. split_and!; [done..| |by rewrite Hc|rewrite Hc; eauto].
    assert (rs = []) as -> by (destruct rs; [done|destruct k; [simpl in Hk'; lia|done]]).
    by rewrite (Hlog _ Hc).
Qed.

Lemma elem_of_log_cmd u id e :
  e ∈ of_cmd id (log_records u) ↔
  en_command_id e = id ∧ ∃ b, b ∈ (content (up_ob u)).2 ∧ proto_unmarshal b = Some e.
Proof.
  unfold of_cmd, log_records. rewrite list_elem_of_filter, list_elem_of_omap. f_equiv.
  destruct (content (up_ob u)) as [f rs]. cbn [fst snd]. split.
  - intros (r & Hr & He). apply list_elem_of_fmap in Hr as ([i b] & -> & Hin).
    exists b. split; [|done]. rewrite <-(snd_indexed f rs). apply list_elem_of_fmap. by exists (i, b).
  - intros (b & Hb & He). rewrite <-(snd_indexed f rs) in Hb.
    apply list_elem_of_fmap in Hb as ([i b'] & -> & Hin).
    exists (decode_rec (i, b')). split; [|done]. apply list_elem_of_fmap. by exists (i, b').
Qed.

(** Membership in the queue: what appends and flushes preserve. *)
Lemma Append_members u e u' :
  up_inv u → on_ob (Append e) u = (u', Ok tt) →
  up_inv u' ∧ u' = set_ob (up_ob u') u ∧
  ∀ x, x ∈ queue (up_ob u') ↔ x ∈ queue (up_ob u) ∨ x = marshalEnvelope e.
Proof.
  intros [Hi Hc] Ha. apply on_ob_inv in Ha as (o' & r' & Ha & -> & Hr).
  apply Append_open in Ha as (? & ? & Hr'); [|done|done]. destruct r' as [[]|]; [|done].
  split_and!; [done|done|]. intros x. destruct Hr' as (_ & n & Hq).
  simpl up_ob. rewrite Hq. unfold queue, marshal_all. rewrite fmap_app, !elem_of_app.
  simpl fmap. rewrite list_elem_of_singleton.
  assert (x ∈ take n ((marshalEnvelope <$> ob_buffered (up_ob u)) ++ [marshalEnvelope e]) →
    x ∈ marshalEnvelope <$> ob_buffered (up_ob u) ∨ x = marshalEnvelope e).
  { intros Hx. apply subseteq_take in Hx. by rewrite elem_of_app, list_elem_of_singleton in Hx. }
  tauto.
Qed.

(** An accepted append only extends the log. *)
Lemma Append_log u e u' :
  up_inv u → on_ob (Append e) u = (u', Ok tt) →
  ∃ l, content (up_ob u') = ((content (up_ob u)).1, (content (up_ob u)).2 ++ l).
Proof.
  intros [Hi Hc] Ha. apply on_ob_inv in Ha as (o' & r' & Ha & -> & Hr). simpl up_ob.
  unfold Append, gets, modify in Ha. unfold mbind at 1, M_bind in Ha. rewrite Hc in Ha.
  unfold mbind at 1, M_bind in Ha. unfold mbind at 1, M_bind in Ha.
  set (o1 := set_buffered _ _ (up_ob u)) in Ha.
  destruct (Z.leb_spec flushThresholdBytes (ob_bufferedBytes o1)) as [Hn|Hn].
  - apply (flushLocked_spec _ _ _ _ _ (Hi : ob_inv o1) (content_pair o1)) in Ha as (_ & _ & _ & Hd).
    destruct r' as [[]|]; [|done]. destruct Hd as (_ & n & Hd). rewrite Hd. by eexists.
  - injection Ha as <- <-. exists []. rewrite app_nil_r. exact (content_pair (up_ob u)).
Qed.

Lemma Flush_members u u' :
  up_inv u → on_ob Flush u = (u', Ok tt) →
  up_inv u' ∧ ob_buffered (up_ob u') = [] ∧
  (ob_buffered (up_ob u) = [] → content (up_ob u') = content (up_ob u)) ∧
  ∀ x, x ∈ (content (up_ob u')).2 ↔ x ∈ queue (up_ob u).
Proof.
  intros [Hi Hc] Ha. apply on_ob_inv in Ha as (o' & r' & Ha & -> & Hr).
  unfold Flush, gets, mbind, M_bind in Ha. rewrite Hc in Ha.
  apply (flushLocked_spec _ _ _ _ _ Hi (content_pair _)) in Ha as (Hc' & Hi' & _ & Hr').
  destruct r' as [[]|]; [|done]. destruct Hr' as (Hb & n & Hq). simpl up_ob.
  split; [split; [done|simpl; congruence]|]. split_and!; [done| |].
  - intros Hb0. rewrite Hq, Hb0. change (marshal_all []) with (@nil bytes).
    rewrite take_nil, !app_nil_r. by destruct (content (up_ob u)).
  - intros x. rewrite Hq. simpl snd. unfold queue. rewrite !elem_of_app.
    assert (x ∈ take n (marshal_all (ob_buffered (up_ob u))) →
      x ∈ marshal_all (ob_buffered (up_ob u))) by apply subseteq_take. tauto.
Qed.

Lemma append_terminals_members os msg u u' :
  up_inv u → append_terminals os msg u = (u', Ok tt) →
  up_inv u' ∧ ∀ x, x ∈ queue (up_ob u') ↔
    x ∈ queue (up_ob u) ∨ ∃ o, o ∈ os ∧ x = marshalEnvelope (syntheticTerminal o msg).
Proof.
  revert u. induction os as [|o os IH]; intros u Hu; simpl.
  { intros [= <-]. split; [done|]. intros x. split; [tauto|].
    intros [?|(o & Ho & _)]; [done|]. by apply elem_of_nil in Ho. }
  intros Ha. apply bind_ok_inv in Ha as (u1 & [] & H1 & H2).
  apply Append_members in H1 as (Hu1 & _ & H1); [|done].
  apply IH in H2 as (? & H2); [|done]. split; [done|]. intros x. rewrite H2, H1.
  setoid_rewrite elem_of_cons. split.
  - intros [[?|?]|(o' & ? & ?)]; eauto.
  - intros [?|(o' & [->|?] & ?)]; eauto.
Qed.

Lemma append_terminals_nil msg u : append_terminals [] msg u = (u, Ok tt).
Proof. done. Qed.

(** *** The fold's walk *)

Lemma fold_walk_spec v rs b n t b' n' t' :
  fold_walk v rs b n t = (b', n', t') →
  ∃ pre post, rs = pre ++ post ∧
    Forall (λ r, recordSettled r v = true) pre ∧
    (∀ r, head post = Some r → recordSettled r v = false) ∧
    b' = default b (rec_index <$> last pre) ∧
    t' = t || bool_decide (Exists is_result (omap rec_entry pre)).
Proof.
  revert b n t. induction rs as [|r rs IH]; intros b n t; simpl.
  { intros [= <- <- <-]. exists [], []. split_and!; try done. by destruct t. }
  destruct (recordSettled r v) eqn:Hr; simpl.
  2:{ intros [= <- <- <-]. exists [], (r :: rs). split_and!; try done; [|by destruct t].
      intros ? [= <-]. done. }
  intros Hw.
  assert (∃ n1 t1, fold_walk v rs (rec_index r) n1 t1 = (b', n', t') ∧
    t1 = t || bool_decide (Exists is_result (omap rec_entry [r]))) as (n1 & t1 & Hw' & Ht1).
  { simpl omap. destruct (rec_entry r) as [e|]; eexists _, _; (split; [exact Hw|]).
    - f_equal. symmetry. destruct (Z.eqb_spec (en_kind e) UPLOAD_ENTRY_KIND_RESULT) as [He|He].
      + apply bool_decide_eq_true_2. by left.
      + apply bool_decide_eq_false_2. intros [?|?%Exists_nil]%Exists_cons; done.
    - by destruct t. }
  apply IH in Hw' as (pre & post & -> & Hpre & Hpost & -> & ->).
  exists (r :: pre), post. split_and!; [done|by constructor|done| |].
  - rewrite last_cons. by destruct (last pre).
  - rewrite Ht1. change (r :: pre) with ([r] ++ pre). rewrite omap_app, <-orb_assoc. f_equal.
    rewrite <-bool_decide_or. apply bool_decide_ext. by rewrite Exists_app.
Qed.

Lemma addSettledBytes_run n u : ∃ k b, addSettledBytes n u = (set_settled k u, Ok b).
Proof. eexists _, _. reflexivity. Qed.

(** Everything but the outbox and the accumulator is left alone. *)
Lemma fold_evict_run b n t u u' r f rs :
  up_inv u → content (up_ob u) = (f, rs) → fold_evict b n t u = (u', r) →
  r = Ok tt ∧ up_inv u' ∧ same_rest (up_ob u) (up_ob u') ∧
  (∃ k, u' = set_settled k (set_ob (up_ob u') u)) ∧
  (content (up_ob u') = (f, rs) ∨ content (up_ob u') = evicted f rs b).
Proof.
  intros [Hi Hcl] Hc. unfold fold_evict.
  assert (∃ k d, (if t then mret true else addSettledBytes n) u = (set_settled k u, Ok d))
    as (k & d & Hdue).
  { destruct t; [|eauto using addSettledBytes_run].
    exists (settledSinceEvict u), true. by destruct u. }
  unfold mbind at 1, M_bind. rewrite Hdue. destruct d.
  2:{ intros [= <- <-]. split; [done|]. split; [done|]. split; [done|].
      split; [by exists k|]. by left. }
  unfold mbind at 1, M_bind, attempt, on_ob.
  destruct (EvictThrough _ _) as [o2 r2] eqn:E2.
  apply (EvictThrough_open _ _ _ _ f rs Hi Hcl Hc) in E2 as (Hi2 & S2 & C2).
  assert (ob_closed o2 = false) by (destruct S2 as (-> & _); done).
  destruct r2 as [[]|e2]; intros [= <- <-]; (split; [done|]); (split; [done|]);
    (split; [exact S2|]); (split; [by eexists|]); [by right|exact C2].
Qed.

(** What a fold does to the log and the cursor: the boundary is the end of the
    longest settled prefix of the batch. *)
Lemma fold_run records resp u u' r f rs :
  up_inv u → content (up_ob u) = (f, rs) → Forall (λ p, 0 < rec_index p) records →
  fold records resp u = (u', r) →
  r = Ok tt ∧ up_inv u' ∧ same_rest (up_ob u) (up_ob u') ∧ backoff u' = backoff u ∧
  ∃ pre post, records = pre ++ post ∧
    Forall (λ r, recordSettled r (response_view resp) = true) pre ∧
    (∀ r, head post = Some r → recordSettled r (response_view resp) = false) ∧
    match last pre with
    | None => content (up_ob u') = (f, rs) ∧ readFrom u' = readFrom u
    | Some p =>
        readFrom u' = Z.max (readFrom u) (rec_index p + 1) ∧
        (content (up_ob u') = (f, rs) ∨ content (up_ob u') = evicted f rs (rec_index p))
    end.
Proof.
  intros Hu Hc Hpos. unfold fold.
  destruct (fold_walk _ records 0 0 false) as [[b n] t] eqn:Ew.
  apply fold_walk_spec in Ew as (pre & post & -> & Hpre & Hpost & Hb & Ht).
  destruct (last pre) as [p|] eqn:Ep; simpl in Hb; subst b.
  2:{ intros [= <- <-]. repeat (split; [done|]). exists pre, post. by rewrite Ep. }
  assert (0 < rec_index p) as Hp.
  { apply Forall_app in Hpos as [Hpos _]. rewrite Forall_forall in Hpos.
    apply Hpos, last_Some_elem_of, Ep. }
  rewrite (proj2 (Z.ltb_lt _ _) Hp). unfold mbind at 1, M_bind.
  destruct (fold_evict _ _ _ u) as [u1 r1] eqn:E1.
  apply (fold_evict_run _ _ _ _ _ _ _ _ Hu Hc) in E1 as (-> & Hu1 & S1 & (k & Hk) & C1).
  assert (readFrom u1 = readFrom u) as Hrf by (rewrite Hk; done).
  assert (backoff u1 = backoff u) as Hbo by (rewrite Hk; done).
  unfold setReadFrom, modify. rewrite Hrf.
  destruct (Z.ltb_spec (readFrom u) (rec_index p + 1)); intros [= <- <-];
    repeat (split; [done|]); exists pre, post; rewrite Ep; split_and!; try done; simpl; lia.
Qed.

Lemma updateGauges_run b u u' r :
  up_inv u → updateGauges b u = (u', r) →
  r = Ok tt ∧ up_ob u' = up_ob u ∧ readFrom u' = readFrom u ∧ backoff u' = backoff u ∧
  ∀ n, is_Some (ob_log (up_ob u)) → fs_dir_size (ob_w (up_ob u)) = Ok n → gaugeBytes u' = n.
Proof.
  intros [Hi Hcl]. unfold updateGauges. unfold mbind at 1, M_bind, attempt, on_ob at 1.
  unfold rangeForMetrics, gets. unfold mbind at 1, M_bind. unfold mbind at 1, M_bind. rewrite Hcl.
  destruct (ob_log (up_ob u)) as [h|] eqn:El.
  2:{ intros [= <- <-]. repeat (split; [done|]). intros n [? Hx]. done. }
  destruct (content (up_ob u)) as [f rs] eqn:Ec.
  rewrite (wal_query_first _ h _ _ (Hi _ El) Ec).
  unfold modify. unfold mbind at 1, M_bind. unfold mbind at 1, M_bind, on_ob, wal_query. simpl.
  destruct (fs_dir_size (ob_w (up_ob u))) as [n|e]; intros [= <- <-]; simpl;
    repeat (split; [done|]); naive_solver.
Qed.

(** *** The cursor and what has been settled

    [S i]: the record at index [i] has been settled by some response. *)
Definition cursor_inv (S : Z → Prop) u : Prop :=
  readFrom u ≤ (content (up_ob u)).1 + Z.of_nat (length (content (up_ob u)).2) ∧
  ∀ i b, (i, b) ∈ indexed (content (up_ob u)).1 (content (up_ob u)).2 → i < readFrom u → S i.

(** A batch read at the cursor, by position. *)
Lemma read_at_cursor (S : Z → Prop) u u1 records :
  up_inv u → cursor_inv S u →
  on_ob (ReadRecords ReadBatchMaxEntries UploadMaxBytes (readFrom u)) u = (u1, Ok records) →
  up_inv u1 ∧ u1 = set_ob (up_ob u1) u ∧ cursor_inv S u1 ∧
  ∃ f rs first k, content (up_ob u1) = (f, rs) ∧ first = Z.max f (readFrom u) ∧ 1 ≤ f ∧
    first ≤ f + Z.of_nat (length rs) ∧
    records = decode_rec <$> indexed first (take k (drop (Z.to_nat (first - f)) rs)).
Proof.
  intros Hu [Hle HS] Hr. apply ReadRecords_up in Hr as (Hu1 & Hset & Hr); [|done].
  destruct Hr as (f & rs & first & n & Hc & Hb & Hfirst & -> & Hrs & Hf & Hf1 & _).
  assert (readFrom u1 = readFrom u) as Hrf by (by rewrite Hset).
  assert (length (content (up_ob u)).2 ≤ length rs)%nat by (rewrite Hrs, length_app; lia).
  assert (readFrom u ≤ f + Z.of_nat (length rs)) by (rewrite Hf; lia).
  rewrite (proj2 (Z.ltb_ge _ _)) in Hfirst by lia.
  split; [done|]. split; [done|]. split.
  - split; [rewrite Hc, Hrf; simpl; lia|]. rewrite Hc, Hrf. simpl. intros i b Hin Hi.
    apply (HS i b); [|done]. apply elem_of_indexed in Hin as [Hfi Hl]. apply elem_of_indexed.
    rewrite <-Hf. split; [done|]. rewrite Hrs, lookup_app_l in Hl by lia. done.
  - destruct (shard_window f rs first (Z.to_nat ReadBatchMaxEntries) UploadMaxBytes) as (k & -> & _);
      [compute; lia|lia|]. exists f, rs, first, k. split_and!; try done. lia.
Qed.

Lemma last_take_indexed (pre post : list record) first (l : list bytes) p :
  pre ++ post = decode_rec <$> indexed first l → last pre = Some p →
  rec_index p = first + Z.of_nat (length pre) - 1 ∧ (length pre ≤ length l)%nat ∧
  ∀ i, first ≤ i ≤ rec_index p → ∃ q, q ∈ pre ∧ rec_index q = i.
Proof.
  intros Heq Hl.
  assert (length (pre ++ post) = length l) as Hlen by (by rewrite Heq, length_fmap, length_indexed).
  rewrite length_app in Hlen.
  assert (∀ j q, pre !! j = Some q → rec_index q = first + Z.of_nat j) as Hidx.
  { intros j q Hj. assert ((pre ++ post) !! j = Some q) as Hj' by (by apply lookup_app_l_Some).
    rewrite Heq, list_lookup_fmap, lookup_indexed in Hj'.
    destruct (l !! j); simplify_eq/=. done. }
  assert (rec_index p = first + Z.of_nat (length pre) - 1) as Hp.
  { destruct pre as [|q pre] using rev_ind; [done|]. clear IHpre.
    rewrite last_snoc in Hl. injection Hl as ->.
    rewrite (Hidx (length pre) p) by apply list_lookup_middle, eq_refl. rewrite length_app. simpl. lia. }
  split; [done|]. split; [lia|]. intros i Hi.
  destruct (lookup_lt_is_Some_2 pre (Z.to_nat (i - first))) as [q Hq]; [lia|].
  exists q. split; [by eapply list_elem_of_lookup_2|]. rewrite (Hidx _ _ Hq). lia.
Qed.

Lemma evicted_end f rs index :
  (evicted f rs index).1 + Z.of_nat (length (evicted f rs index).2) = f + Z.of_nat (length rs).
Proof.
  unfold evicted. set (last := _ - 1). destruct (_ || _) eqn:Eb; [done|].
  apply orb_false_iff in Eb as [E1 E2]. rewrite Z.ltb_ge in *. simpl. rewrite length_drop.
  subst last. lia.
Qed.

(** The settled history after a cycle. *)
Definition settled_by (S : Z → Prop) u (records : list record) (i : Z) : Prop :=
  S i ∨ ∃ resp p, (upload (up_env u) (omap rec_entry records)).2 = Ok resp ∧
    p ∈ records ∧ rec_index p = i ∧ recordSettled p (response_view resp) = true.

Lemma cursor_inv_mono (S S' : Z → Prop) u : (∀ i, S i → S' i) → cursor_inv S u → cursor_inv S' u.
Proof. intros HS [? Hi]. split; [done|]. eauto. Qed.

(** The fold keeps the cursor behind what is settled. *)
Lemma fold_cursor (S S' : Z → Prop) records resp u u' r f rs first k :
  up_inv u → cursor_inv S u → (∀ i, S i → S' i) →
  content (up_ob u) = (f, rs) → first = Z.max f (readFrom u) → 1 ≤ f →
  first ≤ f + Z.of_nat (length rs) →
  records = decode_rec <$> indexed first (take k (drop (Z.to_nat (first - f)) rs)) →
  (∀ p, p ∈ records → recordSettled p (response_view resp) = true → S' (rec_index p)) →
  fold records resp u = (u', r) →
  r = Ok tt ∧ up_inv u' ∧ cursor_inv S' u' ∧ backoff u' = backoff u ∧
  (∀ i b, (i, b) ∈ indexed f rs →
    (i, b) ∈ indexed (content (up_ob u')).1 (content (up_ob u')).2 ∨ S' i) ∧
  ∀ i b, (i, b) ∈ indexed (content (up_ob u')).1 (content (up_ob u')).2 → (i, b) ∈ indexed f rs.
Proof.
  intros Hu [Hle HS] HSS Hc Hfirst Hf1 Hfl Hrec Hset Hfold. rewrite Hc in Hle, HS. simpl in Hle, HS.
  apply (fold_run _ _ _ _ _ f rs) in Hfold as (-> & Hu' & _ & Hbo & pre & post & Happ & Hpre & _ & Hl);
    [|done|done|].
  2:{ rewrite Hrec. apply Forall_forall. intros p Hp.
      apply list_elem_of_fmap in Hp as ([i b] & -> & Hin). apply elem_of_indexed in Hin as [? _].
      simpl. lia. }
  do 2 (split; [done|]). destruct (last pre) as [p|] eqn:Ep.
  2:{ destruct Hl as [Hc' Hrf]. unfold cursor_inv. rewrite Hc', Hrf. simpl. split; [|split; [done|split; [|done]]].
      - split; [done|]. eauto.
      - intros i b ?. by left. }
  destruct Hl as [Hrf Hc']. rewrite Hrec in Happ.
  destruct (last_take_indexed pre post first _ p (eq_sym Happ) Ep) as (Hp & Hlen & Hcover).
  rewrite length_take, length_drop in Hlen.
  assert (∀ i b, (i, b) ∈ indexed f rs → i ≤ rec_index p → S' i) as Hbelow.
  { intros i b Hin Hi. destruct (Z.ltb_spec i first).
    - apply elem_of_indexed in Hin as Hin'. apply HSS, (HS i b); [done|]. lia.
    - destruct (Hcover i ltac:(lia)) as (q & Hq & <-). apply Hset.
      + rewrite Hrec, Happ. apply elem_of_app. by left.
      + rewrite Forall_forall in Hpre. by apply Hpre. }
  assert (∀ i b, (i, b) ∈ indexed (content (up_ob u')).1 (content (up_ob u')).2 →
    (i, b) ∈ indexed f rs) as Hsub.
  { intros i b. destruct Hc' as [-> | ->]; [done|]. rewrite elem_of_evicted. tauto. }
  split; [|split; [done|split; [|exact Hsub]]].
  - assert ((content (up_ob u')).1 + Z.of_nat (length (content (up_ob u')).2)
      = f + Z.of_nat (length rs)) as Hend by (destruct Hc' as [-> | ->]; [done|apply evicted_end]).
    split; [rewrite Hend, Hrf; lia|]. intros i b Hin Hi. apply Hsub in Hin.
    destruct (Z.leb_spec i (rec_index p)); [eauto|]. apply HSS, (HS i b Hin). lia.
  - intros i b Hin. destruct Hc' as [-> | ->]; [by left|]. rewrite elem_of_evicted.
    destruct (Z.ltb_spec (rec_index p) i); [by left|right]. by eapply Hbelow.
Qed.

(** The tail of a cycle after a response: gauges, then the cap. *)
Lemma cycle_tail u u' r f rs :
  up_inv u → content (up_ob u) = (f, rs) →
  (from' ← gets readFrom; updateGauges from';; on_ob EnforceCap) u = (u', r) →
  r = Ok tt ∧ up_inv u' ∧ readFrom u' = readFrom u ∧ backoff u' = backoff u ∧
  (content (up_ob u') = (f, rs) ∨
   content (up_ob u') = (f + Z.of_nat (length rs), []) ∧ MaxBytes ≤ gaugeBytes u').
Proof.
  intros Hu Hc. unfold gets. unfold mbind at 1, M_bind. unfold mbind at 1, M_bind.
  destruct (updateGauges _ u) as [u1 r1] eqn:E1.
  apply updateGauges_run in E1 as (-> & Hob & Hrf & Hbo & Hg); [|done].
  unfold on_ob. rewrite Hob. destruct Hu as [Hi Hcl].
  pose proof (EnforceCap_inv _ Hi) as Hi'.
  destruct (EnforceCap (up_ob u)) as [o' r'] eqn:E2.
  apply (EnforceCap_content _ _ _ f rs Hi Hc) in E2 as (-> & (Hs & _) & Hcap).
  intros [= <- <-]. split; [done|]. split; [split; [done|simpl; congruence]|].
  split; [done|]. split; [done|]. destruct Hcap as [?|(? & ? & n & Hn & ?)]; [by left|right].
  split; [done|]. simpl. by rewrite (Hg n).
Qed.

(** A cycle whose read succeeded, branch by branch. *)
Lemma uploadCycle_keeps (S : Z → Prop) now u u1 u' r records :
  up_inv u → cursor_inv S u →
  on_ob (ReadRecords ReadBatchMaxEntries UploadMaxBytes (readFrom u)) u = (u1, Ok records) →
  uploadCycle upload now u = (u', r) →
  let S' := settled_by S u records in
  r = Ok tt ∧ up_inv u' ∧ cursor_inv S' u' ∧
  (∀ i b, (i, b) ∈ indexed (content (up_ob u1)).1 (content (up_ob u1)).2 →
    (i, b) ∈ indexed (content (up_ob u')).1 (content (up_ob u')).2 ∨ S' i ∨
    MaxBytes ≤ gaugeBytes u') ∧
  ∀ i b, (i, b) ∈ indexed (content (up_ob u')).1 (content (up_ob u')).2 →
    (i, b) ∈ indexed (content (up_ob u1)).1 (content (up_ob u1)).2.
Proof.
  intros Hu HC Hr Hcyc S'. pose proof Hr as Hr0.
  apply (read_at_cursor S) in Hr as (Hu1 & Hset & HC1 & f & rs & first & k & Hc1 & Hfirst & Hf1 & Hfl & Hrec);
    [|done..].
  assert (readFrom u1 = readFrom u) as Hrf1 by (by rewrite Hset).
  assert (∀ i, S i → S' i) as HSS by (intros i ?; by left).
  assert (∀ u2, up_inv u2 → cursor_inv S u2 → content (up_ob u2) = content (up_ob u1) →
    Ok tt = r → u2 = u' → r = Ok tt ∧ up_inv u' ∧ cursor_inv S' u' ∧
    (∀ i b, (i, b) ∈ indexed (content (up_ob u1)).1 (content (up_ob u1)).2 →
    (i, b) ∈ indexed (content (up_ob u')).1 (content (up_ob u')).2 ∨ S' i ∨
    MaxBytes ≤ gaugeBytes u') ∧
    ∀ i b, (i, b) ∈ indexed (content (up_ob u')).1 (content (up_ob u')).2 →
    (i, b) ∈ indexed (content (up_ob u1)).1 (content (up_ob u1)).2) as Hstop.
  { intros u2 ? ? Heq <- <-. split; [done|]. split; [done|].
    split; [by eapply cursor_inv_mono|]. rewrite Heq. auto. }
  unfold uploadCycle, gets in Hcyc. unfold mbind at 1, M_bind in Hcyc.
  unfold mbind at 1, M_bind, attempt in Hcyc. rewrite Hr0 in Hcyc.
  destruct records as [|q records].
  { apply updateGauges_run in Hcyc as (-> & Hob & Hrf & _); [|done].
    apply (Hstop u'); try done; [|unfold cursor_inv; by rewrite Hob, Hrf|by rewrite Hob].
    unfold up_inv. by rewrite Hob. }
  unfold modify, call_upload in Hcyc. unfold mbind at 1, M_bind in Hcyc.
  unfold mbind at 1, M_bind in Hcyc. simpl up_env in Hcyc.
  assert (up_env u1 = up_env u) as Henv by (by rewrite Hset). rewrite Henv in Hcyc.
  destruct (upload (up_env u) (omap rec_entry (q :: records))) as [e' [resp|m]] eqn:Eup.
  2:{ unfold recordFailure, modify in Hcyc. injection Hcyc as <- <-.
      eapply Hstop; [..|done|reflexivity]; by destruct (after_now _ _). }
  unfold recordSuccess, modify in Hcyc. unfold mbind at 1, M_bind in Hcyc.
  unfold mbind at 1, M_bind in Hcyc.
  destruct (fold _ resp _) as [u3 r3] eqn:E3.
  apply (fold_cursor S S' _ _ _ _ _ f rs first k) in E3 as (-> & Hu3 & HC3 & _ & Hkeep & Hsub);
    [|done|done|done|done|by simpl; rewrite Hrf1|done|done|done|].
  2:{ intros p Hp Hs. right. exists resp, p. by rewrite Eup. }
  destruct (content (up_ob u3)) as [f3 rs3] eqn:Hc3. simpl in Hkeep, Hsub.
  apply (cycle_tail _ _ _ f3 rs3) in Hcyc as (-> & Hu' & Hrf' & _ & Hc'); [|done..].
  split; [done|]. split; [done|]. unfold cursor_inv in HC3 |- *. rewrite Hrf'. rewrite Hc3 in HC3.
  rewrite Hc1. simpl in HC3 |- *.
  destruct Hc' as [-> |[-> Hcap]]; simpl.
  - split; [done|]. split; [|exact Hsub]. intros i b Hin. destruct (Hkeep i b Hin); auto.
  - split; [split; [lia|]|split; [by auto|]]; intros i b Hin; by apply elem_of_nil in Hin.
Qed.

(** No unsettled record is lost.  Whatever the manager answers, a cycle
    whose read succeeds keeps the cursor invariant (everything before the cursor
    has been settled) and every record of the flushed log is still in the log,
    or settled by this or an earlier response, unless the retention cap dropped
    the log. *)
Theorem upload_cycle_keeps_unsettled (S : Z → Prop) now u u1 u' r records :
  up_inv u → cursor_inv S u →
  on_ob (ReadRecords ReadBatchMaxEntries UploadMaxBytes (readFrom u)) u = (u1, Ok records) →
  uploadCycle upload now u = (u', r) →
  let S' := settled_by S u records in
  r = Ok tt ∧ up_inv u' ∧ cursor_inv S' u' ∧
  ∀ i b, (i, b) ∈ indexed (content (up_ob u1)).1 (content (up_ob u1)).2 →
    (i, b) ∈ indexed (content (up_ob u')).1 (content (up_ob u')).2 ∨ S' i ∨
    MaxBytes ≤ gaugeBytes u'.
Proof.
  intros Hu HC Hr Hcyc. destruct (uploadCycle_keeps S now u u1 u' r records Hu HC Hr Hcyc) as (?&?&?&?&_). done.
Qed.

(** Progress.  When the manager answers and settles the whole batch, the
    cursor moves past the last record read and the backoff is cleared. *)
Theorem upload_cycle_progress (S : Z → Prop) now u u1 u' r records resp :
  up_inv u → cursor_inv S u →
  on_ob (ReadRecords ReadBatchMaxEntries UploadMaxBytes (readFrom u)) u = (u1, Ok records) →
  records ≠ [] →
  (upload (up_env u) (omap rec_entry records)).2 = Ok resp →
  Forall (λ p, recordSettled p (response_view resp) = true) records →
  uploadCycle upload now u = (u', r) →
  backoff u' = 0 ∧ readFrom u < readFrom u' ∧
  ∃ p, last records = Some p ∧ readFrom u' = rec_index p + 1.
Proof.
  intros Hu HC Hr Hne Hresp Hall Hcyc. pose proof Hr as Hr0.
  apply (read_at_cursor S) in Hr as (Hu1 & Hset & HC1 & f & rs & first & k & Hc1 & Hfirst & Hf1 & Hfl & Hrec);
    [|done..].
  unfold uploadCycle, gets in Hcyc. unfold mbind at 1, M_bind in Hcyc.
  unfold mbind at 1, M_bind, attempt in Hcyc. rewrite Hr0 in Hcyc.
  destruct records as [|q records]; [done|].
  unfold modify, call_upload in Hcyc. unfold mbind at 1, M_bind in Hcyc.
  unfold mbind at 1, M_bind in Hcyc. simpl up_env in Hcyc.
  assert (up_env u1 = up_env u) as Henv by (by rewrite Hset). rewrite Henv in Hcyc.
  destruct (upload (up_env u) (omap rec_entry (q :: records))) as [e' r'] eqn:Eup.
  simpl in Hresp. subst r'.
  unfold recordSuccess, modify in Hcyc. unfold mbind at 1, M_bind in Hcyc.
  unfold mbind at 1, M_bind in Hcyc.
  destruct (fold _ resp _) as [u3 r3] eqn:E3.
  apply (fold_run _ _ _ _ _ f rs) in E3 as (-> & Hu3 & _ & Hbo3 & pre & post & Happ & _ & Hpost & Hl);
    [|done|done|].
  2:{ rewrite Hrec. apply Forall_forall. intros p Hp.
      apply list_elem_of_fmap in Hp as ([i b] & -> & Hin). apply elem_of_indexed in Hin as [? _].
      simpl. lia. }
  assert (post = []) as ->.
  { destruct post as [|p post]; [done|]. specialize (Hpost p eq_refl).
    rewrite Happ in Hall. apply Forall_app in Hall as [_ [Hp _]%Forall_cons]. congruence. }
  rewrite app_nil_r in Happ. subst pre.
  destruct (last (q :: records)) as [p|] eqn:Ep; [|by apply last_None in Ep].
  destruct Hl as [Hrf3 _]. rewrite Hrec in Ep.
  pose proof (last_decoded first (take k (drop (Z.to_nat (first - f)) rs))) as Hlast.
  rewrite Ep in Hlast. destruct Hlast as [Hp Hnn].
  assert (0 < length (take k (drop (Z.to_nat (first - f)) rs)))%nat
    by (destruct (take _ _); [done|simpl; lia]).
  destruct (content (up_ob u3)) as [f3 rs3] eqn:Hc3.
  apply (cycle_tail _ _ _ f3 rs3) in Hcyc as (-> & _ & Hrf' & Hbo' & _); [|done..].
  assert (readFrom u1 = readFrom u) as Hrf1 by (by rewrite Hset).
  simpl readFrom in Hrf3. rewrite Hrf1 in Hrf3.
  split; [by rewrite Hbo', Hbo3|]. rewrite Hrf', Hrf3.
  split; [lia|]. exists p. split; [done|]. lia.
Qed.

(** *** Orphans, synthesis and the barrier *)

Lemma orphaned_iff u id :
  orphaned (log_records u) id ↔
  (∃ b e, b ∈ (content (up_ob u)).2 ∧ proto_unmarshal b = Some e ∧ en_command_id e = id) ∧
  ∀ b e, b ∈ (content (up_ob u)).2 → proto_unmarshal b = Some e → en_command_id e = id →
    ¬ is_result e.
Proof.
  unfold orphaned. split.
  - intros [Hne Hno]. split.
    + destruct (of_cmd id (log_records u)) as [|e es] eqn:Eo; [done|].
      assert (e ∈ of_cmd id (log_records u)) as He by (rewrite Eo; by left).
      apply elem_of_log_cmd in He as (? & b & ? & ?). eauto.
    + intros b e Hb He Hid Hres. apply Hno, Exists_exists. exists e. split; [|done].
      apply elem_of_log_cmd. eauto.
  - intros [(b & e & Hb & He & Hid) Hno].
    assert (e ∈ of_cmd id (log_records u)) as Hin by (apply elem_of_log_cmd; eauto).
    split.
    + intros Heq. rewrite Heq in Hin. by apply elem_of_nil in Hin.
    + intros Hex. apply Exists_exists in Hex as (e' & Hin' & Hres).
      apply elem_of_log_cmd in Hin' as (? & b' & ? & ?). by eapply Hno.
Qed.

(** The interrupted-turn self-check.  When it succeeds, every command with a
    record in the log has a terminal record in it, nothing that was queued is
    missing, and the check is idempotent: a second run that succeeds leaves the
    log as it is.  (Marshalling the terminal, whose strings come from decoded
    records, succeeds.)  The steps bound is enough: no run is stuck. *)
Theorem synthesis_terminates_every_group steps msg u u' :
  up_inv u → (scan_bound u ≤ steps)%nat →
  (∀ o, is_Some (proto_marshal (syntheticTerminal o msg))) →
  SynthesizeInterruptedTerminals steps msg u = (u', Ok tt) →
  (∀ id, ¬ orphaned (log_records u') id) ∧
  (∀ b, b ∈ queue (up_ob u) → b ∈ (content (up_ob u')).2) ∧
  ∀ steps' u'', (scan_bound u' ≤ steps')%nat →
    SynthesizeInterruptedTerminals steps' msg u' = (u'', Ok tt) →
    content (up_ob u'') = content (up_ob u').
Proof.
  intros Hu Hs Hmar Hrun.
  assert (∀ o, ∃ b, proto_unmarshal b = Some (syntheticTerminal o msg) ∧
    marshalEnvelope (syntheticTerminal o msg) = b) as Hdec.
  { intros o. destruct (Hmar o) as [b Hb]. exists b. unfold marshalEnvelope. rewrite Hb.
    split; [by apply unmarshal_marshal|done]. }
  apply bind_ok_inv in Hrun as (u1 & os & H1 & Hrun).
  apply orphanGroups_flushed in H1 as (Hu1 & _ & Hb1 & -> & _ & n & Hc1); [|done..].
  apply bind_ok_inv in Hrun as (u2 & [] & H2 & H3).
  apply append_terminals_members in H2 as (Hu2 & Hq2); [|done].
  apply Flush_members in H3 as (Hu' & Hb' & _ & Hc'); [|done].
  assert (∀ x, x ∈ (content (up_ob u1)).2 ↔ x ∈ queue (up_ob u1)) as Hq1.
  { intros x. unfold queue. rewrite Hb1. change (marshal_all []) with (@nil bytes).
    by rewrite app_nil_r. }
  assert (∀ id, ¬ orphaned (log_records u') id) as Hnone.
  { intros id Hor. pose proof Hor as Hor'.
    apply orphaned_iff in Hor as [(b & e & Hb & He & Hid) Hno].
    assert (orphaned (log_records u1) id) as Hor1.
    { apply orphaned_iff. split.
      - apply Hc', Hq2 in Hb as [Hb|(o & Ho & ->)]; [apply Hq1 in Hb; eauto|].
        destruct (Hdec o) as (b & Hd & <-). rewrite Hd in He. injection He as <-.
        exfalso. eapply (Hno (marshalEnvelope (syntheticTerminal o msg))); [|exact Hd|exact Hid|done].
        apply Hc', Hq2. right. eauto.
      - intros b' e' Hbx He'. apply (Hno b' e'); [|done].
        apply Hc', Hq2. left. by apply Hq1. }
    destruct (Hdec (MkOrphan id (max_progress (of_cmd id (log_records u1))))) as (b' & Hd & Heq).
    eapply Hno; [|exact Hd|done|done]. apply Hc', Hq2. right. eexists. split; [|by rewrite <-Heq].
    apply scan_orphans. done. }
  split; [done|]. split.
  - intros b Hb. apply Hc', Hq2. left. apply Hq1. rewrite Hc1. unfold queue in Hb.
    rewrite !elem_of_app. apply elem_of_app in Hb. tauto.
  - intros steps' u'' Hs' Hrun.
    apply bind_ok_inv in Hrun as (u3 & os & H1 & Hrun).
    apply orphanGroups_flushed in H1 as (Hu3 & _ & Hb3 & Hos & Hf3 & n3 & Hc3); [|done..].
    rewrite Hb' in Hc3. change (marshal_all []) with (@nil bytes) in Hc3.
    rewrite take_nil, !app_nil_r in Hc3.
    assert (content (up_ob u3) = content (up_ob u')) as Heq
      by (by rewrite (content_pair (up_ob u3)), (content_pair (up_ob u')), Hf3, Hc3).
    assert (os = []) as ->.
    { destruct os as [|o os]; [done|]. exfalso.
      assert (o ∈ collect_orphans (map_to_list (scan None ∅ (log_records u3)))) as Ho
        by (rewrite <-Hos; by left).
      apply scan_orphans in Ho as [Ho _]. apply (Hnone (commandID o)).
      unfold log_records in *. by rewrite <-Heq. }
    apply bind_ok_inv in Hrun as (u4 & [] & [= <-] & H4).
    apply Flush_members in H4 as (_ & _ & Hkeep & _); [|done]. by rewrite Hkeep.
Qed.

(** The orphan scan.  It reads the whole flushed log, always ends, and
    returns, sorted by command and without repetition, exactly the commands with
    records but no result, each with its highest progress sequence number. *)
Theorem orphan_groups_spec steps u u' r :
  up_inv u → (scan_bound u ≤ steps)%nat → orphanGroups steps u = (u', r) →
  match r with
  | Ok os =>
      Sorted orphan_le os ∧ NoDup (commandID <$> os) ∧
      ∀ o, o ∈ os ↔ orphaned (log_records u') (commandID o) ∧
        lastProgressSeq o = max_progress (of_cmd (commandID o) (log_records u'))
  | Err e => e ≠ UStuck
  end.
Proof.
  intros Hu Hs Hr. apply orphanGroups_flushed in Hr as (_ & _ & Hr); [|done..].
  destruct r as [os|]; [|done]. destruct Hr as (_ & -> & _).
  destruct (collect_orphans_sorted (scan None ∅ (log_records u'))) as [? ?].
  split; [done|]. split; [done|]. intros o. apply scan_orphans.
Qed.

Lemma blocked_false records id :
  existsb (λ r, match rec_entry r with
    | Some e => negb (String.eqb (en_command_id e) id) | None => false end) records = false →
  ∀ r e, r ∈ records → rec_entry r = Some e → en_command_id e = id.
Proof.
  intros Hb r e Hr He. destruct (decide (en_command_id e = id)) as [|Hne]; [done|].
  assert (existsb (λ r, match rec_entry r with
    | Some e => negb (String.eqb (en_command_id e) id) | None => false end) records = true) as Hx;
    [|congruence].
  apply existsb_exists. exists r. split; [by apply list_elem_of_In|]. rewrite He.
  apply String.eqb_neq in Hne. by rewrite Hne.
Qed.

(** The turn-start barrier.  However the waits go and whatever the rest of
    the system does meanwhile, WaitClearFor returns nil only when the first
    shard of the log holds no decodable record of another command. *)
Theorem wait_clear_for_barrier ws id u u' :
  WaitClearFor ws id u = (u', Ok tt) →
  ∃ u1 records,
    on_ob (ReadRecords ReadBatchMaxEntries UploadMaxBytes 0) u1 = (u', Ok records) ∧
    ∀ r e, r ∈ records → rec_entry r = Some e → en_command_id e = id.
Proof.
  assert (∀ (v v' : uploader W H E) orphans, blockingFor id v = (v', Ok (false, orphans)) →
    ∃ records, on_ob (ReadRecords ReadBatchMaxEntries UploadMaxBytes 0) v = (v', Ok records) ∧
    ∀ r e, r ∈ records → rec_entry r = Some e → en_command_id e = id) as Hb.
  { intros v v' orphans Hv. apply bind_ok_inv in Hv as (v1 & records & Hr & Hv).
    injection Hv as <- Hbl _. exists records. split; [done|]. by apply blocked_false. }
  revert u. induction ws as [|w ws IH]; intros u; simpl;
    intros Hrun; apply bind_ok_inv in Hrun as (u1 & [blocked orphans] & Hbl & Hrun);
    destruct blocked; simpl in Hrun.
  - apply bind_ok_inv in Hrun as (u2 & [] & _ & Hrun).
    apply bind_ok_inv in Hrun as (u3 & [] & _ & Hrun). done.
  - injection Hrun as <-. apply Hb in Hbl as (records & ? & ?). eauto.
  - apply bind_ok_inv in Hrun as (u2 & [] & _ & Hrun).
    apply bind_ok_inv in Hrun as (u3 & [] & _ & Hrun).
    apply bind_ok_inv in Hrun as (u4 & [] & _ & Hrun). eauto.
  - injection Hrun as <-. apply Hb in Hbl as (records & ? & ?). eauto.
Qed.

(** *** Backoff *)

(** Failures at the times [nows], each after the previous wait has run out. *)
Fixpoint failures (nows : list Z) u : uploader W H E :=
  match nows with
  | [] => u
  | now :: nows' => failures nows' (recordFailure now u).1
  end.

Fixpoint spaced (nows : list Z) u : Prop :=
  match nows with
  | [] => True
  | now :: nows' => after_now (nextTry u) now = false ∧ spaced nows' (recordFailure now u).1
  end.

(** The schedule: 2s, 4s, ..., capped at a minute. *)
Definition backoff_after (k : nat) : Z :=
  match k with O => 0 | S k' => Z.min (backoffBase * 2 ^ Z.of_nat k') backoffMax end.

Lemma backoff_after_S k :
  backoff_after (S k) =
  if backoff_after k =? 0 then backoffBase
  else if backoffMax <? backoff_after k * 2 then backoffMax else backoff_after k * 2.
Proof.
  destruct k as [|k]; [done|]. unfold backoff_after.
  rewrite Nat2Z.inj_succ, Z.pow_succ_r by lia.
  assert (0 < 2 ^ Z.of_nat k) by (apply Z.pow_pos_nonneg; lia).
  unfold backoffBase, backoffMax, Minute, Second.
  destruct (Z.eqb_spec (Z.min (2 * 1000000000 * 2 ^ Z.of_nat k) (1 * (60 * 1000000000))) 0); [lia|].
  destruct (Z.ltb_spec (1 * (60 * 1000000000)) (Z.min (2 * 1000000000 * 2 ^ Z.of_nat k) (1 * (60 * 1000000000)) * 2)); lia.
Qed.

Lemma recordFailure_step k now u :
  backoff u = backoff_after k → after_now (nextTry u) now = false →
  backoff (recordFailure now u).1 = backoff_after (S k) ∧
  nextTry (recordFailure now u).1 = Some (now + backoff_after (S k)).
Proof.
  intros Hb Hn. unfold recordFailure, modify. simpl. rewrite Hn, Hb. simpl backoff.
  rewrite <-backoff_after_S. done.
Qed.

(** The retry schedule.  After a success (or at the start) [k] failed
    attempts that each waited out the previous backoff leave a backoff of
    [min (2s * 2^(k-1)) 60s]; the sleep that follows is at most that, a failure
    inside the wait changes nothing, and one success clears it. *)
Theorem backoff_schedule nows u now :
  backoff u = 0 → spaced nows u → nows ≠ [] →
  let u' := failures nows u in
  let k := length nows in
  backoff u' = backoff_after k ∧ backoff_after k ≤ 60 * Second ∧
  (∀ t, last nows = Some t → t ≤ now → currentWait now u' ≤ Z.max BatchWindow (backoff_after k)) ∧
  (∀ t, last nows = Some t → t ≤ now < t + backoff_after k → recordFailure now u' = (u', Ok tt)) ∧
  backoff (recordSuccess u').1 = 0 ∧ currentWait now (recordSuccess u').1 = BatchWindow.
Proof.
  intros Hb Hsp Hne.
  assert (∀ nows k u, backoff u = backoff_after k → spaced nows u →
    backoff (failures nows u) = backoff_after (length nows + k) ∧
    (∀ t, last nows = Some t → nextTry (failures nows u) = Some (t + backoff_after (length nows + k))))
    as Hgen.
  { clear. intros nows. induction nows as [|t nows IH]; intros k u Hb Hsp; [done|].
    destruct Hsp as [Hn Hsp]. destruct (recordFailure_step k t u Hb Hn) as [Hb' Ht'].
    destruct (IH (S k) _ Hb' Hsp) as [IHb IHt]. simpl length. simpl failures.
    replace (S (length nows) + k)%nat with (length nows + S k)%nat by lia. split; [done|].
    intros t' Hl. rewrite last_cons in Hl. destruct (last nows) as [t2|] eqn:El; [by apply IHt|].
    apply last_None in El as ->. injection Hl as <-. exact Ht'. }
  destruct (Hgen nows 0%nat u Hb Hsp) as [Hb' Ht']. rewrite Nat.add_0_r in *. cbn zeta.
  split; [done|]. split.
  { destruct nows; [done|]. unfold backoff_after. simpl. unfold backoffMax, Minute. lia. }
  split_and!; [| |done|done].
  - intros t Hl Hle. unfold currentWait. rewrite (Ht' t Hl).
    destruct (Z.ltb_spec now (t + backoff_after (length nows))); lia.
  - intros t Hl [Hle Hlt]. unfold recordFailure, modify. rewrite (Ht' t Hl). simpl after_now.
    by rewrite (proj2 (Z.ltb_lt _ _) Hlt).
Qed.
End spec.

(** ** Concrete runs *)

Module UploaderDemo.
Import Outbox.Demo.
#[local] Existing Instances C ref_codec_laws wops wlaws.

(** A transport that remembers what reached the manager and acks all of it;
    the first [fails] calls fail. *)
Record net := MkNet { fails : nat; sent : list Entry }.

Definition acker (n : net) (es : list Entry) : net * res string UploadResponse :=
  match fails n with
  | S k => (MkNet k (sent n), Err "unavailable"%string)
  | O => (MkNet 0 (sent n ++ es),
          Ok (MkResponse ((λ e, MkAck (en_command_id e) 1000 1000 true) <$> es) []))
  end.

Definition upl : Type := uploader (MemWal.memwal (option Entry)) nat net.

Definition result_entry (id : string) : Entry :=
  MkEntry id UPLOAD_ENTRY_KIND_RESULT 1 None (Some (PResult (MkResult id 0 5 "" 3 "" None))).

(** Two commands on disk, neither with a result. *)
Definition u0 : upl :=
  NewUploader (MkOutbox (MemWal.MkMem 5
      [Some (entry 1); None; Some (MkEntry "c0" UPLOAD_ENTRY_KIND_PROGRESS 9 None None)] 0 [] None 7)
      (Some 0%nat) false [] 0) (MkNet 0 []).

Lemma u0_inv : up_inv (WL:=wlaws) u0.
Proof. split; [|reflexivity]. intros h [= <-]. split; reflexivity. Qed.

Lemma u0_cursor : cursor_inv (WL:=wlaws) (λ _, False) u0.
Proof.
  split; [vm_compute; discriminate|]. intros i b Hin Hi.
  apply elem_of_indexed in Hin as [Hf _]. simpl in Hf, Hi. lia.
Qed.

Definition batch0 : list record :=
  [MkRecord 5 (Some (entry 1)); MkRecord 6 None;
   MkRecord 7 (Some (MkEntry "c0" UPLOAD_ENTRY_KIND_PROGRESS 9 None None))].

Lemma upload_cycle_keeps_unsettled_witness :
  let u' := (uploadCycle (ops:=wops) acker 0 u0).1 in
  cursor_inv (WL:=wlaws) (settled_by acker (λ _, False) u0 batch0) u' ∧
  readFrom u' = 8.
Proof.
  split; [|reflexivity].
  destruct (upload_cycle_keeps_unsettled (WL:=wlaws) acker (λ _, False) 0 u0
    (on_ob (ReadRecords (ops:=wops) ReadBatchMaxEntries UploadMaxBytes 0) u0).1
    (uploadCycle (ops:=wops) acker 0 u0).1 (Ok tt) batch0
    u0_inv u0_cursor ltac:(vm_compute; reflexivity) ltac:(vm_compute; reflexivity)) as (_ & _ & Hc & _).
  exact Hc.
Defined.

Lemma upload_cycle_progress_witness :
  readFrom u0 < readFrom (uploadCycle (ops:=wops) acker 0 u0).1.
Proof.
  apply (upload_cycle_progress (WL:=wlaws) acker (λ _, False) 0 u0
    (on_ob (ReadRecords (ops:=wops) ReadBatchMaxEntries UploadMaxBytes 0) u0).1
    (uploadCycle (ops:=wops) acker 0 u0).1 (Ok tt) batch0
    (MkResponse [MkAck "c1" 1000 1000 true; MkAck "c0" 1000 1000 true] [])
    u0_inv u0_cursor ltac:(vm_compute; reflexivity)); try discriminate; try (vm_compute; reflexivity).
  repeat constructor; vm_compute; reflexivity.
Defined.

Definition u0_synth : upl := (SynthesizeInterruptedTerminals (ops:=wops) 9 "restarted" u0).1.

Lemma synthesis_terminates_every_group_witness :
  length (log_records (WL:=wlaws) u0_synth) = 5%nat ∧
  ¬ orphaned (log_records (WL:=wlaws) u0_synth) "c0" ∧ ¬ orphaned (log_records (WL:=wlaws) u0_synth) "c1".
Proof.
  split; [vm_compute; reflexivity|].
  assert (∀ id, ¬ orphaned (log_records (WL:=wlaws) u0_synth) id) as Hn; [|split; apply Hn].
  apply (synthesis_terminates_every_group (WL:=wlaws) 9 "restarted" u0 u0_synth u0_inv);
    [unfold scan_bound; simpl; lia|by eexists|vm_compute; reflexivity].
Defined.

Lemma orphan_groups_spec_witness :
  Sorted orphan_le [MkOrphan "c0" 9; MkOrphan "c1" 1].
Proof.
  apply (orphan_groups_spec (WL:=wlaws) 9 u0 (orphanGroups (ops:=wops) 9 u0).1
    (Ok [MkOrphan "c0" 9; MkOrphan "c1" 1]) u0_inv);
    [unfold scan_bound; simpl; lia|vm_compute; reflexivity].
Defined.

(** The barrier of "c1" first sees "c0", synthesizes its terminal and waits for a
    cycle; then the log is empty. *)
Definition cycle (u : upl) : upl := (uploadCycle (ops:=wops) acker 0 u).1.

Lemma wait_clear_for_barrier_witness :
  ∃ u1 records,
    on_ob (ReadRecords (ops:=wops) ReadBatchMaxEntries UploadMaxBytes 0) u1
      = ((WaitClearFor (ops:=wops) [(cycle, WakeTimer)] "c1" u0).1, Ok records) ∧
    ∀ r e, r ∈ records → rec_entry r = Some e → en_command_id e = "c1"%string.
Proof.
  apply (wait_clear_for_barrier [(cycle, WakeTimer)] "c1" u0). vm_compute. reflexivity.
Defined.

Lemma backoff_schedule_witness :
  backoff (failures (W:=MemWal.memwal (option Entry)) (H:=nat) [0; 2 * Second; 6 * Second] u0)
    = 8 * Second.
Proof.
  apply (backoff_schedule [0; 2 * Second; 6 * Second] u0 0);
    [reflexivity|vm_compute; auto|discriminate].
Defined.

(** Three records were settled and the cursor is at 4; the disk then fails twice. *)
Definition u_settled : upl :=
  set_readFrom 4 (NewUploader (MkOutbox (MemWal.MkMem 1 [Some (entry 1); Some (entry 2); Some (entry 3)]
      0 [Some (0%nat, ErrIO "disk"); None; Some (0%nat, ErrIO "disk")] None 0)
      (Some 0%nat) false [entry 4] 64) (MkNet 0 [])).

Definition append (e : Entry) (u : upl) : upl := (on_ob (Append (ops:=wops) e) u).1.

(** The cursor outlives a quarantine.  After the log was moved aside its
    indexes restart at 1 while the cursor stays at 4: the next records (4, 5, 6,
    at indexes 1 to 3) are never read, and when the terminal behind them is
    acked they are evicted without having been sent. *)
Theorem quarantine_skips_unsent :
  let u := cycle (append (result_entry "c1")
             (cycle (append (entry 6) (append (entry 5) (cycle u_settled))))) in
  sent (up_env u) = [result_entry "c1"] ∧ queue (WL:=wlaws) (up_ob u) = [] ∧
  queue (WL:=wlaws) (up_ob (cycle (append (entry 6) (append (entry 5) (cycle u_settled)))))
    = [Some (entry 4); Some (entry 5); Some (entry 6)].
Proof. vm_compute. split_and!; reflexivity. Qed.
End UploaderDemo.
