(* ===== verification/Db.v ===== *)
(** The manager's database as the command store uses it
    ([backend/manager/store/command.go], [command_upload.go], and the tables of
    [migration/LATEST.sql]): the rows, the effect of each SQL statement, and
    transactions.

    The database server is not part of the repository.  What the code relies on
    is: a statement has the effect its text says; a statement the server refuses
    aborts the open transaction, every later statement of that transaction fails
    and it can only be rolled back; the driver sends a statement only when its
    placeholders are exactly [$1 .. $n] for [n] arguments.  Which statements the
    server refuses is the parameter [fails] of [Server]. *)

From stdpp Require Import base list strings numbers gmap sets.
From S2P Require Import Prelude.
Local Open Scope Z_scope.

(** A [uuid.UUID] (16 bytes) as its 128-bit number. *)
Definition UUID : Type := N.

(** A row of [command]; [option] columns are nullable. *)
Record CommandRow := MkCommandRow {
  c_agent_id : Z;
  c_machine_id : option Z;
  c_principal_id : Z;
  c_command : string;
  c_instruction : string;
  c_profile : string;
  c_allow_diff : bool;
  c_status : Z;
  c_failure_kind : option string;
  c_exit_code : option Z;
  c_duration_ms : option Z;
  c_created_at : Z;
  c_started_at : option Z;
  c_completed_at : option Z;
  c_error_message : string;
  c_final_summary : string;
  c_result_json : string;
  c_env : string;
  c_working_dir : string;
  c_timeout_seconds : Z;
  c_last_ack_seq : Z;
  c_conversation_id : option UUID
}.

Record OutputRow := MkOutputRow { o_stream_type : Z; o_content : string; o_created_at : Z }.
Record EventRow := MkEventRow { ev_event_type : Z; ev_summary : string; ev_payload_json : string }.
Record TokenRow := MkTokenRow {
  t_agent_id : Z; t_principal_id : Z; t_machine_id : option Z;
  t_input : Z; t_output : Z; t_cache_read : Z; t_cache_write : Z; t_total : Z
}.

Record DB := MkDB {
  db_command : gmap UUID CommandRow;
  db_output : gmap (UUID * Z) OutputRow;      (* unique (command_id, seq_no) *)
  db_event : gmap (UUID * Z) EventRow;        (* unique (command_id, seq_no) *)
  db_token : gmap UUID TokenRow;              (* unique command_id *)
  db_conversation : gset (UUID * UUID)        (* command_conversation *)
}.

Definition set_command (m : gmap UUID CommandRow) (db : DB) : DB :=
  MkDB m (db_output db) (db_event db) (db_token db) (db_conversation db).
Definition set_output (m : gmap (UUID * Z) OutputRow) (db : DB) : DB :=
  MkDB (db_command db) m (db_event db) (db_token db) (db_conversation db).
Definition set_event (m : gmap (UUID * Z) EventRow) (db : DB) : DB :=
  MkDB (db_command db) (db_output db) m (db_token db) (db_conversation db).
Definition set_token (m : gmap UUID TokenRow) (db : DB) : DB :=
  MkDB (db_command db) (db_output db) (db_event db) m (db_conversation db).
Definition set_conversation (s : gset (UUID * UUID)) (db : DB) : DB :=
  MkDB (db_command db) (db_output db) (db_event db) (db_token db) s.

(** ** Column assignments *)

Definition set_status (s : Z) (r : CommandRow) : CommandRow :=
  MkCommandRow (c_agent_id r) (c_machine_id r) (c_principal_id r) (c_command r) (c_instruction r)
    (c_profile r) (c_allow_diff r) s (c_failure_kind r) (c_exit_code r) (c_duration_ms r)
    (c_created_at r) (c_started_at r) (c_completed_at r) (c_error_message r) (c_final_summary r)
    (c_result_json r) (c_env r) (c_working_dir r) (c_timeout_seconds r) (c_last_ack_seq r)
    (c_conversation_id r).
Definition set_failure_kind (k : option string) (r : CommandRow) : CommandRow :=
  MkCommandRow (c_agent_id r) (c_machine_id r) (c_principal_id r) (c_command r) (c_instruction r)
    (c_profile r) (c_allow_diff r) (c_status r) k (c_exit_code r) (c_duration_ms r)
    (c_created_at r) (c_started_at r) (c_completed_at r) (c_error_message r) (c_final_summary r)
    (c_result_json r) (c_env r) (c_working_dir r) (c_timeout_seconds r) (c_last_ack_seq r)
    (c_conversation_id r).
Definition set_exit_code (x : option Z) (r : CommandRow) : CommandRow :=
  MkCommandRow (c_agent_id r) (c_machine_id r) (c_principal_id r) (c_command r) (c_instruction r)
    (c_profile r) (c_allow_diff r) (c_status r) (c_failure_kind r) x (c_duration_ms r)
    (c_created_at r) (c_started_at r) (c_completed_at r) (c_error_message r) (c_final_summary r)
    (c_result_json r) (c_env r) (c_working_dir r) (c_timeout_seconds r) (c_last_ack_seq r)
    (c_conversation_id r).
Definition set_duration_ms (x : option Z) (r : CommandRow) : CommandRow :=
  MkCommandRow (c_agent_id r) (c_machine_id r) (c_principal_id r) (c_command r) (c_instruction r)
    (c_profile r) (c_allow_diff r) (c_status r) (c_failure_kind r) (c_exit_code r) x
    (c_created_at r) (c_started_at r) (c_completed_at r) (c_error_message r) (c_final_summary r)
    (c_result_json r) (c_env r) (c_working_dir r) (c_timeout_seconds r) (c_last_ack_seq r)
    (c_conversation_id r).
Definition set_started_at (x : option Z) (r : CommandRow) : CommandRow :=
  MkCommandRow (c_agent_id r) (c_machine_id r) (c_principal_id r) (c_command r) (c_instruction r)
    (c_profile r) (c_allow_diff r) (c_status r) (c_failure_kind r) (c_exit_code r) (c_duration_ms r)
    (c_created_at r) x (c_completed_at r) (c_error_message r) (c_final_summary r)
    (c_result_json r) (c_env r) (c_working_dir r) (c_timeout_seconds r) (c_last_ack_seq r)
    (c_conversation_id r).
Definition set_completed_at (x : option Z) (r : CommandRow) : CommandRow :=
  MkCommandRow (c_agent_id r) (c_machine_id r) (c_principal_id r) (c_command r) (c_instruction r)
    (c_profile r) (c_allow_diff r) (c_status r) (c_failure_kind r) (c_exit_code r) (c_duration_ms r)
    (c_created_at r) (c_started_at r) x (c_error_message r) (c_final_summary r)
    (c_result_json r) (c_env r) (c_working_dir r) (c_timeout_seconds r) (c_last_ack_seq r)
    (c_conversation_id r).
Definition set_error_message (x : string) (r : CommandRow) : CommandRow :=
  MkCommandRow (c_agent_id r) (c_machine_id r) (c_principal_id r) (c_command r) (c_instruction r)
    (c_profile r) (c_allow_diff r) (c_status r) (c_failure_kind r) (c_exit_code r) (c_duration_ms r)
    (c_created_at r) (c_started_at r) (c_completed_at r) x (c_final_summary r)
    (c_result_json r) (c_env r) (c_working_dir r) (c_timeout_seconds r) (c_last_ack_seq r)
    (c_conversation_id r).
Definition set_final_summary (x : string) (r : CommandRow) : CommandRow :=
  MkCommandRow (c_agent_id r) (c_machine_id r) (c_principal_id r) (c_command r) (c_instruction r)
    (c_profile r) (c_allow_diff r) (c_status r) (c_failure_kind r) (c_exit_code r) (c_duration_ms r)
    (c_created_at r) (c_started_at r) (c_completed_at r) (c_error_message r) x
    (c_result_json r) (c_env r) (c_working_dir r) (c_timeout_seconds r) (c_last_ack_seq r)
    (c_conversation_id r).
Definition set_result_json (x : string) (r : CommandRow) : CommandRow :=
  MkCommandRow (c_agent_id r) (c_machine_id r) (c_principal_id r) (c_command r) (c_instruction r)
    (c_profile r) (c_allow_diff r) (c_status r) (c_failure_kind r) (c_exit_code r) (c_duration_ms r)
    (c_created_at r) (c_started_at r) (c_completed_at r) (c_error_message r) (c_final_summary r)
    x (c_env r) (c_working_dir r) (c_timeout_seconds r) (c_last_ack_seq r)
    (c_conversation_id r).
Definition set_last_ack_seq (x : Z) (r : CommandRow) : CommandRow :=
  MkCommandRow (c_agent_id r) (c_machine_id r) (c_principal_id r) (c_command r) (c_instruction r)
    (c_profile r) (c_allow_diff r) (c_status r) (c_failure_kind r) (c_exit_code r) (c_duration_ms r)
    (c_created_at r) (c_started_at r) (c_completed_at r) (c_error_message r) (c_final_summary r)
    (c_result_json r) (c_env r) (c_working_dir r) (c_timeout_seconds r) x
    (c_conversation_id r).
Definition set_conversation_id (x : option UUID) (r : CommandRow) : CommandRow :=
  MkCommandRow (c_agent_id r) (c_machine_id r) (c_principal_id r) (c_command r) (c_instruction r)
    (c_profile r) (c_allow_diff r) (c_status r) (c_failure_kind r) (c_exit_code r) (c_duration_ms r)
    (c_created_at r) (c_started_at r) (c_completed_at r) (c_error_message r) (c_final_summary r)
    (c_result_json r) (c_env r) (c_working_dir r) (c_timeout_seconds r) (c_last_ack_seq r)
    x.

(** [UPDATE command SET f WHERE id = $id AND p]: the new table and whether a row
    matched. *)
Definition update_where (id : UUID) (p : CommandRow → bool) (f : CommandRow → CommandRow)
    (db : DB) : DB * bool :=
  match db_command db !! id with
  | Some r => if p r then (set_command (<[id := f r]> (db_command db)) db, true) else (db, false)
  | None => (db, false)
  end.

(** [INSERT ... ON CONFLICT DO NOTHING]: the rows affected. *)
Definition insert_ignore {K V} `{Countable K} (k : K) (v : V) (m : gmap K V) : gmap K V * Z :=
  match m !! k with Some _ => (m, 0) | None => (<[k := v]> m, 1) end.

(** ** The server and transactions *)

Inductive sqlerr :=
| ErrAborted                  (* current transaction is aborted *)
| ErrServer (msg : string)    (* the server refused the statement *)
| ErrDriver (msg : string)    (* the driver refused to send it *)
| ErrUnique                   (* unique violation *)
| ErrNoRows.                  (* sql.ErrNoRows *)

(** [fails n q]: the server refuses the [n]th statement of the session, whose
    text is [q]. [bind_ok ps n]: the driver accepts placeholders [ps] with [n]
    arguments. *)
Class Server := {
  fails : nat → string → bool;
  bind_ok : list nat → nat → bool
}.

Class ServerLaws (Sv : Server) := {
  bind_exact ps n : bind_ok ps n = true ↔ ∀ k, k ∈ ps ↔ (1 ≤ k ≤ n)%nat
}.

(** A server that refuses the listed statement numbers. *)
Definition all_bound (ps : list nat) (n : nat) : bool :=
  bool_decide (list_to_set (C:=gset nat) ps = list_to_set (seq 1 n)).
Definition test_server (bad : list nat) : Server := {|
  fails := λ n _, bool_decide (n ∈ bad);
  bind_ok := all_bound
|}.

Lemma iff_id_l (P Q R : Prop) : (Q ↔ R) → ((P ↔ Q) ↔ (P ↔ R)).
Proof. tauto. Qed.

Lemma test_server_laws bad : ServerLaws (test_server bad).
Proof.
  split. intros ps n. simpl. unfold all_bound. rewrite bool_decide_eq_true, set_eq.
  apply forall_proper. intros k. rewrite !elem_of_list_to_set, elem_of_seq.
  apply iff_id_l. lia.
Qed.

Record txstate := MkTx { tx_db : DB; tx_aborted : bool; tx_count : nat }.

Definition TM : Type → Type := M txstate sqlerr.

Section tx.
Context {Sv : Server}.

(** One statement inside a transaction. *)
Definition tx_stmt {A} (q : string) (f : DB → res sqlerr (DB * A)) : TM A := λ s,
  if tx_aborted s then (s, Err ErrAborted) else
  if fails (tx_count s) q then (MkTx (tx_db s) true (S (tx_count s)), Err (ErrServer q)) else
  match f (tx_db s) with
  | Ok (db', a) => (MkTx db' false (S (tx_count s)), Ok a)
  | Err e => (MkTx (tx_db s) true (S (tx_count s)), Err e)
  end.

(** A statement whose placeholders do not match its arguments. *)
Definition tx_bind (ps : list nat) (n : nat) : TM unit := λ s,
  if tx_aborted s then (s, Err ErrAborted) else
  if bind_ok ps n then (s, Ok tt)
  else (MkTx (tx_db s) true (tx_count s), Err (ErrDriver "bind")).

(** [BeginTx; defer Rollback; body; Commit]: an error leaves the database as it
    was; committing an aborted transaction fails. *)
Definition run_tx {A} (n : nat) (body : TM A) (db : DB) : DB * res sqlerr A :=
  match body (MkTx db false n) with
  | (s, Ok a) => if tx_aborted s then (db, Err ErrAborted) else
                 if fails (tx_count s) "COMMIT" then (db, Err (ErrServer "COMMIT"))
                 else (tx_db s, Ok a)
  | (_, Err e) => (db, Err e)
  end.
End tx.

(** ** Reasoning about transactions

    [tx_spec R P m Q]: whatever happens, errors included, [m] changes the
    transaction's database along [R] from one that satisfies [P], and a value it
    returns satisfies [Q] with the resulting database. *)

Section logic.
Context {Sv : Server}.

Definition tx_spec {A} (R : DB → DB → Prop) (P : DB → Prop) (m : TM A) (Q : A → DB → Prop) : Prop :=
  ∀ s s' r, P (tx_db s) → m s = (s', r) →
    R (tx_db s) (tx_db s') ∧ ∀ a, r = Ok a → Q a (tx_db s').

Section rules.
Context (R : DB → DB → Prop) `{!PreOrder R}.

Lemma spec_ret {A} P (a : A) (Q : A → DB → Prop) :
  (∀ db, P db → Q a db) → tx_spec R P (mret a) Q.
Proof. intros HQ s s' r HP [= <- <-]. split; [reflexivity|]. intros ? [= <-]. eauto. Qed.

Lemma spec_throw {A} P e (Q : A → DB → Prop) : tx_spec R P (throw e) Q.
Proof. intros s s' r _ [= <- <-]. split; [reflexivity|done]. Qed.

Lemma spec_bind {A B} P (m : TM A) (k : A → TM B) (Q : A → DB → Prop) (Q' : B → DB → Prop) :
  tx_spec R P m Q → (∀ a, tx_spec R (Q a) (k a) Q') → tx_spec R P (mbind k m) Q'.
Proof.
  intros Hm Hk s s' r HP. unfold mbind, M_bind. destruct (m s) as [s1 [a|e]] eqn:E1.
  - apply Hm in E1 as [HR HQ]; [|done]. intros E2. apply Hk in E2 as [HR' HQ']; [|eauto].
    split; [by etrans|done].
  - apply Hm in E1 as [HR _]; [|done]. intros [= <- <-]. split; [done|]. by intros ? [=].
Qed.

Lemma spec_attempt {A} P (m : TM A) (Q : A → DB → Prop) :
  tx_spec R P m Q → tx_spec R P (attempt m) (λ _ db', ∃ db, P db ∧ R db db').
Proof.
  intros Hm s s' r HP. unfold attempt. destruct (m s) as [s1 r1] eqn:E1.
  apply Hm in E1 as [HR _]; [|done]. intros [= <- <-]. split; [done|]. eauto.
Qed.

Lemma spec_stmt {A} P q (f : DB → res sqlerr (DB * A)) (Q : A → DB → Prop) :
  (∀ db db' a, P db → f db = Ok (db', a) → R db db' ∧ Q a db') → tx_spec R P (tx_stmt q f) Q.
Proof.
  intros Hf s s' r HP. unfold tx_stmt.
  destruct (tx_aborted s); [intros [= <- <-]; split; [reflexivity|done]|].
  destruct (fails _ _); [intros [= <- <-]; split; [reflexivity|done]|].
  destruct (f (tx_db s)) as [[db' a]|e] eqn:Ef; intros [= <- <-]; simpl.
  - destruct (Hf _ _ _ HP Ef). split; [done|]. by intros ? [= <-].
  - split; [reflexivity|done].
Qed.

Lemma spec_bind_check P ps n : tx_spec R P (tx_bind ps n) (λ _, P).
Proof.
  intros s s' r HP. unfold tx_bind. destruct (tx_aborted s); [by intros [= <- <-]|].
  by destruct (bind_ok ps n); intros [= <- <-].
Qed.

Lemma spec_conseq {A} (P P' : DB → Prop) (m : TM A) (Q Q' : A → DB → Prop) :
  tx_spec R P m Q → (∀ db, P' db → P db) → (∀ a db, Q a db → Q' a db) → tx_spec R P' m Q'.
Proof. intros Hm HP HQ s s' r HP' E. destruct (Hm _ _ _ (HP _ HP') E). split; [done|]. eauto. Qed.

(** A relation known for every run can be used in the postcondition. *)
Lemma spec_frame {A} (P : DB → Prop) (m : TM A) (Q : A → DB → Prop) :
  tx_spec R (λ _, True) m Q →
  tx_spec R P m (λ a db', Q a db' ∧ ∃ db, P db ∧ R db db').
Proof.
  intros Hm s s' r HP E. destruct (Hm _ _ _ I E) as [HR HQ]. split; [done|]. eauto.
Qed.

Lemma spec_keep {A} (P : DB → Prop) (m : TM A) (Q : A → DB → Prop) :
  tx_spec R P m Q → tx_spec R P m (λ a db', Q a db' ∧ ∃ db, P db ∧ R db db').
Proof.
  intros Hm s s' r HP E. destruct (Hm _ _ _ HP E) as [HR HQ]. split; [done|]. eauto.
Qed.

Lemma run_tx_spec {A} n (body : TM A) (P : DB → Prop) Q db db' r :
  P db → tx_spec R P body Q → run_tx n body db = (db', r) →
  R db db' ∧ ∀ a, r = Ok a → Q a db'.
Proof.
  intros HP Hb. unfold run_tx. destruct (body (MkTx db false n)) as [s [a|e]] eqn:E;
    apply Hb in E as [HR HQ]; simpl in *; [|done| |done]; [|by intros [= <- <-]].
  destruct (tx_aborted s); [by intros [= <- <-]|].
  destruct (fails _ _); [by intros [= <- <-]|].
  intros [= <- <-]. split; [done|]. by intros ? [= <-]; apply HQ.
Qed.
End rules.

Lemma run_tx_err {A} n (body : TM A) db db' e : run_tx n body db = (db', Err e) → db' = db.
Proof. unfold run_tx. intros H. case_all H; done. Qed.
End logic.

Lemma update_where_lookup id p f db db' b :
  update_where id p f db = (db', b) →
  db_output db' = db_output db ∧ db_event db' = db_event db ∧ db_token db' = db_token db ∧
  db_conversation db' = db_conversation db ∧
  ∀ id', db_command db' !! id' =
    if bool_decide (id' = id) then (λ r, if p r then f r else r) <$> db_command db !! id'
    else db_command db !! id'.
Proof.
  unfold update_where. intros Hu.
  destruct (db_command db !! id) as [r|] eqn:Er; [destruct (p r) eqn:Ep|]; injection Hu as <- <-;
    simpl; (split_and!; try done); intros id'; case_bool_decide as Hid; subst; try done.
  - rewrite lookup_insert_eq, Er. simpl. by rewrite Ep.
  - by rewrite lookup_insert_ne by done.
  - rewrite Er. simpl. by rewrite Ep.
  - by rewrite Er.
Qed.

Lemma insert_ignore_spec {K V} `{Countable K} (k : K) (v : V) (m m' : gmap K V) n :
  insert_ignore k v m = (m', n) →
  m ⊆ m' ∧ is_Some (m' !! k) ∧ (∀ k', k' ≠ k → m' !! k' = m !! k') ∧
  (m !! k = None ∧ n = 1 ∧ m' = <[k := v]> m ∨ is_Some (m !! k) ∧ n = 0 ∧ m' = m).
Proof.
  unfold insert_ignore. destruct (m !! k) eqn:Ek; intros [= <- <-].
  - split_and!; [done|by eexists|done|right; eauto].
  - split_and!; [by apply insert_subseteq|rewrite lookup_insert_eq; eauto| |by left].
    intros k' Hk. by rewrite lookup_insert_ne.
Qed.
