(* ===== verification/CommandStore.v ===== *)
(** The command store: [backend/manager/store/command_upload.go] (the batch an
    uploader sends, in one transaction) and [command.go] (creation, status
    updates, reaping, cancelling, queries), over the database of [Db]. *)

From stdpp Require Import base list strings numbers gmap sets sorting.
From S2P Require Import Prelude Db.
Local Open Scope Z_scope.

Definition CommandStatusPending : Z := 1.
Definition CommandStatusRunning : Z := 2.
Definition CommandStatusCompleted : Z := 3.
Definition CommandStatusFailed : Z := 4.
Definition CommandStatusCancelled : Z := 5.
Definition CommandStatusTimeout : Z := 6.

Definition CommandFailureKindMachineUnreachable : string := "machine_unreachable".
Definition CommandFailureKindAgentFailed : string := "agent_failed".

Definition UploadKindProgress : Z := 1.
Definition UploadKindEvent : Z := 2.
Definition UploadKindResult : Z := 3.

Definition CommandEventTypeSystem : Z := 16.
Definition regradeEventSummary : string :=
  "Marked failed while the machine was unreachable; re-graded to completed from the late result.".

(** [CommandUploadEntry]; [ue_Timestamp] is [None] for the zero time. *)
Record CommandUploadEntry := MkUploadEntry {
  ue_CommandID : UUID;
  ue_Kind : Z;
  ue_SeqNo : Z;
  ue_Timestamp : option Z;
  ue_StreamType : Z;
  ue_Content : string;
  ue_EventType : Z;
  ue_Summary : string;
  ue_PayloadJSON : string;
  ue_InputTokens : Z;
  ue_OutputTokens : Z;
  ue_CacheReadTokens : Z;
  ue_CacheWriteTokens : Z;
  ue_TotalTokens : Z;
  ue_HasTokenUsage : bool;
  ue_ExitCode : Z;
  ue_DurationMs : Z;
  ue_ErrorMessage : string;
  ue_FinalSummary : string;
  ue_ResultJSON : string;
  ue_LastSeqNo : Z
}.

Record CommandUploadAck := MkUploadAck {
  ua_CommandID : UUID; ua_LastProgressSeq : Z; ua_LastEventSeq : Z; ua_ResultAcked : bool }.
Record CommandUploadRejection := MkUploadRejection {
  ur_CommandID : UUID; ur_Kind : Z; ur_SeqNo : Z; ur_Reason : string }.
Record CommandUploadTerminal := MkUploadTerminal {
  ut_CommandID : UUID; ut_AgentID : Z; ut_Status : Z }.
Record CommandOutputMessage := MkOutputMessage {
  com_CommandID : UUID; com_SeqNo : Z; com_StreamType : Z; com_Content : string; com_CreatedAt : Z }.
Record CommandEventMessage := MkEventMessage {
  cem_CommandID : UUID; cem_SeqNo : Z; cem_EventType : Z; cem_Summary : string;
  cem_PayloadJSON : string; cem_CreatedAt : Z }.
Record CommandUploadRegrade := MkRegrade {
  rg_CommandID : UUID; rg_AgentID : Z; rg_Event : CommandEventMessage }.

Record CommandUploadBatchResult := MkBatchResult {
  br_Acks : list CommandUploadAck;
  br_Rejected : list CommandUploadRejection;
  br_Terminals : list CommandUploadTerminal;
  br_Regrades : list CommandUploadRegrade;
  br_InsertedOutputs : list CommandOutputMessage;
  br_InsertedEvents : list CommandEventMessage;
  br_LateFailures : Z
}.

Definition empty_result : CommandUploadBatchResult := MkBatchResult [] [] [] [] [] [] 0.

Definition add_ack a r := MkBatchResult (br_Acks r ++ [a]) (br_Rejected r) (br_Terminals r)
  (br_Regrades r) (br_InsertedOutputs r) (br_InsertedEvents r) (br_LateFailures r).
Definition add_rejected x r := MkBatchResult (br_Acks r) (br_Rejected r ++ [x]) (br_Terminals r)
  (br_Regrades r) (br_InsertedOutputs r) (br_InsertedEvents r) (br_LateFailures r).
Definition add_terminal x r := MkBatchResult (br_Acks r) (br_Rejected r) (br_Terminals r ++ [x])
  (br_Regrades r) (br_InsertedOutputs r) (br_InsertedEvents r) (br_LateFailures r).
Definition add_regrade x r := MkBatchResult (br_Acks r) (br_Rejected r) (br_Terminals r)
  (br_Regrades r ++ [x]) (br_InsertedOutputs r) (br_InsertedEvents r) (br_LateFailures r).
Definition add_output x r := MkBatchResult (br_Acks r) (br_Rejected r) (br_Terminals r)
  (br_Regrades r) (br_InsertedOutputs r ++ [x]) (br_InsertedEvents r) (br_LateFailures r).
Definition add_event x r := MkBatchResult (br_Acks r) (br_Rejected r) (br_Terminals r)
  (br_Regrades r) (br_InsertedOutputs r) (br_InsertedEvents r ++ [x]) (br_LateFailures r).
Definition add_late r := MkBatchResult (br_Acks r) (br_Rejected r) (br_Terminals r)
  (br_Regrades r) (br_InsertedOutputs r) (br_InsertedEvents r) (br_LateFailures r + 1).

(** The locals [cmdState], [watermark] of ApplyCommandUploadBatch. *)
Record cmdState := MkCmdState {
  st_machineID : Z; st_status : Z; st_agentID : Z; st_failureKind : string }.
Record watermark := MkMark { wm_progress : Z; wm_event : Z; wm_ack : Z; wm_result : bool }.

Definition zero_mark : watermark := MkMark 0 0 0 false.
Abbreviation marks := (gmap UUID watermark).

(** [if x > w.f { w.f = x }] for the three cursors. *)
Definition raise (x cur : Z) : Z := if cur <? x then x else cur.
Definition mark_progress (s : Z) (w : watermark) : watermark :=
  MkMark (raise s (wm_progress w)) (wm_event w) (wm_ack w) (wm_result w).
Definition mark_event (s : Z) (w : watermark) : watermark :=
  MkMark (wm_progress w) (raise s (wm_event w)) (raise s (wm_ack w)) (wm_result w).
Definition mark_result (lastSeq : Z) (w : watermark) : watermark :=
  MkMark (wm_progress w) (wm_event w) (raise lastSeq (wm_ack w)) true.
(** [wm(id)] followed by an update through the pointer. *)
Definition on_mark (id : UUID) (f : watermark → watermark) (m : marks) : marks :=
  <[id := f (default zero_mark (m !! id))]> m.

(** [uploadOwnershipSQL]: the rows of the batch's commands. *)
Definition load_state (r : CommandRow) : cmdState :=
  MkCmdState (default 0 (c_machine_id r)) (c_status r) (c_agent_id r)
    (default ""%string (c_failure_kind r)).
Definition load_states (ids : list UUID) (db : DB) : gmap UUID cmdState :=
  load_state <$> filter (λ p, p.1 ∈ ids) (db_command db).

Section store.
Context {Sv : Server}.

(** ** The statements of a batch *)

Definition stmt_output (e : CommandUploadEntry) (ts : Z) : TM Z :=
  tx_stmt "uploadAppendOutputSQL" (λ db,
    match db_command db !! ue_CommandID e with
    | None => Err (ErrServer "foreign key")
    | Some _ =>
        let '(m, n) := insert_ignore (ue_CommandID e, ue_SeqNo e)
          (MkOutputRow (ue_StreamType e) (ue_Content e) ts) (db_output db) in
        Ok (set_output m db, n)
    end).

Definition stmt_event (id : UUID) (seq type : Z) (summary payload : string) : TM Z :=
  tx_stmt "uploadAppendEventSQL" (λ db,
    match db_command db !! id with
    | None => Err (ErrServer "foreign key")
    | Some _ =>
        let '(m, n) := insert_ignore (id, seq) (MkEventRow type summary payload) (db_event db) in
        Ok (set_event m db, n)
    end).

Definition is_open (r : CommandRow) : bool :=
  (c_status r =? CommandStatusPending) || (c_status r =? CommandStatusRunning).

Definition is_unreachable (r : CommandRow) : bool :=
  (c_status r =? CommandStatusFailed) &&
  bool_decide (c_failure_kind r = Some CommandFailureKindMachineUnreachable).

Definition stmt_terminal (e : CommandUploadEntry) (status ts : Z) (failureKind : string) : TM bool :=
  tx_stmt "uploadTerminalSQL" (λ db, Ok (update_where (ue_CommandID e) is_open
    (λ r, set_failure_kind (Some failureKind) (set_error_message (ue_ErrorMessage e)
      (set_duration_ms (Some (ue_DurationMs e)) (set_exit_code (Some (ue_ExitCode e))
      (set_completed_at (Some ts) (set_status status r)))))) db)).

Definition stmt_regrade (e : CommandUploadEntry) (ts : Z) : TM bool :=
  tx_stmt "uploadRegradeSQL" (λ db, Ok (update_where (ue_CommandID e) is_unreachable
    (λ r, set_failure_kind None (set_error_message "" (set_duration_ms (Some (ue_DurationMs e))
      (set_exit_code (Some (ue_ExitCode e)) (set_completed_at (Some ts)
      (set_status CommandStatusCompleted r)))))) db)).

Definition stmt_late_failure (e : CommandUploadEntry) : TM bool :=
  tx_stmt "uploadLateFailureSQL" (λ db, Ok (update_where (ue_CommandID e) is_unreachable
    (λ r, set_error_message (if String.eqb (ue_ErrorMessage e) "" then c_error_message r
                             else ue_ErrorMessage e)
      (set_failure_kind (Some CommandFailureKindAgentFailed) r)) db)).

Definition stmt_ack_seq (id : UUID) (ack : Z) : TM bool :=
  tx_stmt "uploadAckSeqSQL" (λ db, Ok (update_where id (λ _, true)
    (λ r, set_last_ack_seq (Z.max (c_last_ack_seq r) ack) r) db)).

(** [SELECT COALESCE(MAX(seq_no), 0) FROM command_event WHERE command_id = id] *)
Definition event_seqs (id : UUID) (db : DB) : list Z :=
  omap (λ p, if bool_decide (p.1.1 = id) then Some p.1.2 else None) (map_to_list (db_event db)).
Definition max_event_seq (id : UUID) (db : DB) : Z :=
  match event_seqs id db with [] => 0 | x :: xs => foldr Z.max x xs end.

Definition appendRegradeEventTx (commandID : UUID) (now : Z) : TM CommandEventMessage :=
  lastSeq ← tx_stmt "regradeEventSeqSQL" (λ db, Ok (db, max_event_seq commandID db));
  let seq := i32 (lastSeq + 1) in
  tx_stmt "insertRegradeEventSQL" (λ db,
    match db_event db !! (commandID, seq) with
    | Some _ => Err ErrUnique
    | None => Ok (set_event (<[(commandID, seq) :=
                MkEventRow CommandEventTypeSystem regradeEventSummary "{}"]> (db_event db)) db, tt)
    end);;
  mret (MkEventMessage commandID seq CommandEventTypeSystem regradeEventSummary "{}" now).

Definition recordCommandTokenUsageTx (e : CommandUploadEntry) : TM unit :=
  dims ← tx_stmt "SELECT agent_id, principal_id, machine_id" (λ db,
    match db_command db !! ue_CommandID e with
    | Some r => Ok (db, Some (c_agent_id r, c_principal_id r, c_machine_id r))
    | None => Ok (db, None)
    end);
  match dims with
  | None => throw ErrNoRows
  | Some (agentID, principalID, machineID) =>
      _ ← tx_stmt "INSERT INTO command_token_usage" (λ db,
        let '(m, n) := insert_ignore (ue_CommandID e)
          (MkTokenRow agentID principalID machineID (ue_InputTokens e) (ue_OutputTokens e)
             (ue_CacheReadTokens e) (ue_CacheWriteTokens e) (ue_TotalTokens e)) (db_token db) in
        Ok (set_token m db, n));
      mret tt
  end.

(** [sets]: the SET list, each column with its placeholder number. *)
Definition summary_sets_tx (finalSummary resultJSON : string) : list (nat * (CommandRow → CommandRow)) :=
  (if String.eqb finalSummary "" then [] else [(1%nat, set_final_summary finalSummary)]) ++
  (if String.eqb resultJSON "" then [] else [(2%nat, set_result_json resultJSON)]).

Definition apply_sets (sets : list (nat * (CommandRow → CommandRow))) (r : CommandRow) : CommandRow :=
  foldl (λ r s, s.2 r) r sets.

(** The text always says [$1], [$2] and [WHERE id = $3]. *)
Definition updateCommandResultSummaryTx (id : UUID) (finalSummary resultJSON : string) : TM unit :=
  let sets := summary_sets_tx finalSummary resultJSON in
  if bool_decide (length sets = 0%nat) then mret tt else
  tx_bind (sets.*1 ++ [3%nat]) (length sets + 1);;
  _ ← tx_stmt "UPDATE command SET" (λ db, Ok (update_where id (λ _, true) (apply_sets sets) db));
  mret tt.

(** ** ApplyCommandUploadBatch *)

Definition upd_acc : Type := CommandUploadBatchResult * marks.

Definition reject (e : CommandUploadEntry) (reason : string) (a : upd_acc) : upd_acc :=
  (add_rejected (MkUploadRejection (ue_CommandID e) (ue_Kind e) (ue_SeqNo e) reason) a.1, a.2).

Definition apply_progress (e : CommandUploadEntry) (ts : Z) (a : upd_acc) : TM upd_acc :=
  n ← stmt_output e ts;
  let '(res, m) := a in
  let m' := on_mark (ue_CommandID e) (mark_progress (ue_SeqNo e)) m in
  mret (if 0 <? n
        then add_output (MkOutputMessage (ue_CommandID e) (ue_SeqNo e) (ue_StreamType e) (ue_Content e) ts) res
        else res, m').

Definition apply_event (e : CommandUploadEntry) (ts : Z) (a : upd_acc) : TM upd_acc :=
  let payload := if String.eqb (ue_PayloadJSON e) "" then "{}"%string else ue_PayloadJSON e in
  n ← stmt_event (ue_CommandID e) (ue_SeqNo e) (ue_EventType e) (ue_Summary e) payload;
  _ ← (if ue_HasTokenUsage e then attempt (recordCommandTokenUsageTx e) else mret (Ok tt));
  let '(res, m) := a in
  let m' := on_mark (ue_CommandID e) (mark_event (ue_SeqNo e)) m in
  mret (if 0 <? n
        then add_event (MkEventMessage (ue_CommandID e) (ue_SeqNo e) (ue_EventType e) (ue_Summary e) payload ts) res
        else res, m').

(** The three-way switch on the command's loaded state. *)
Definition apply_terminal (st : cmdState) (e : CommandUploadEntry) (ts now : Z)
    (res : CommandUploadBatchResult) : TM CommandUploadBatchResult :=
  let status := if ue_ExitCode e =? 0 then CommandStatusCompleted else CommandStatusFailed in
  let failureKind := if status =? CommandStatusFailed then CommandFailureKindAgentFailed else ""%string in
  let unreachable := (st_status st =? CommandStatusFailed) &&
    String.eqb (st_failureKind st) CommandFailureKindMachineUnreachable in
  if (st_status st =? CommandStatusPending) || (st_status st =? CommandStatusRunning) then
    _ ← stmt_terminal e status ts failureKind;
    mret (add_terminal (MkUploadTerminal (ue_CommandID e) (st_agentID st) status) res)
  else if unreachable && (status =? CommandStatusCompleted) then
    found ← stmt_regrade e ts;
    if (found : bool) then
      event ← appendRegradeEventTx (ue_CommandID e) now;
      mret (add_regrade (MkRegrade (ue_CommandID e) (st_agentID st) event) res)
    else mret res
  else if unreachable && (status =? CommandStatusFailed) then
    _ ← stmt_late_failure e;
    mret (add_late res)
  else mret res.

Definition apply_result (st : cmdState) (e : CommandUploadEntry) (ts now : Z) (a : upd_acc) : TM upd_acc :=
  let '(res, m) := a in
  res' ← apply_terminal st e ts now res;
  updateCommandResultSummaryTx (ue_CommandID e) (ue_FinalSummary e) (ue_ResultJSON e);;
  mret (res', on_mark (ue_CommandID e) (mark_result (ue_LastSeqNo e)) m).

(** The body of the loop over the entries. *)
Definition apply_entry (states : gmap UUID cmdState) (machineID now : Z)
    (e : CommandUploadEntry) (a : upd_acc) : TM upd_acc :=
  match states !! ue_CommandID e with
  | None => mret (reject e "command not found" a)
  | Some st =>
      if negb (st_machineID st =? machineID)
      then mret (reject e "command is not bound to the authenticated machine" a)
      else if ue_SeqNo e <? 1 then mret (reject e "sequence number must be positive" a)
      else
        let ts := default now (ue_Timestamp e) in
        if ue_Kind e =? UploadKindProgress then apply_progress e ts a
        else if ue_Kind e =? UploadKindEvent then apply_event e ts a
        else if ue_Kind e =? UploadKindResult then apply_result st e ts now a
        else mret (reject e "unknown upload entry kind" a)
  end.

Fixpoint apply_entries (states : gmap UUID cmdState) (machineID now : Z)
    (entries : list CommandUploadEntry) (a : upd_acc) : TM upd_acc :=
  match entries with
  | [] => mret a
  | e :: es => a' ← apply_entry states machineID now e a; apply_entries states machineID now es a'
  end.

(** Fold the watermarks; the map's iteration order is [ms]'s. *)
Fixpoint fold_marks (ms : list (UUID * watermark)) (res : CommandUploadBatchResult)
    : TM CommandUploadBatchResult :=
  match ms with
  | [] => mret res
  | (id, w) :: ms' =>
      _ ← (if 0 <? wm_ack w then stmt_ack_seq id (wm_ack w) else mret false);
      fold_marks ms' (add_ack (MkUploadAck id (wm_progress w) (wm_event w) (wm_result w)) res)
  end.

Definition batch_body (states : gmap UUID cmdState) (machineID now : Z)
    (entries : list CommandUploadEntry) : TM CommandUploadBatchResult :=
  '(res, m) ← apply_entries states machineID now entries (empty_result, ∅);
  fold_marks (map_to_list m) res.

(** The ownership query runs outside the transaction: [others] is what other
    sessions commit meanwhile, before the transaction. *)
Definition ApplyCommandUploadBatch (others : DB → DB) (machineID now : Z)
    (entries : list CommandUploadEntry) (db : DB) : DB * res sqlerr CommandUploadBatchResult :=
  let db1 := others db in
  match entries with
  | [] => (db1, Ok empty_result)
  | _ =>
      if fails 0 "uploadOwnershipSQL" then (db1, Err (ErrServer "uploadOwnershipSQL")) else
      let states := load_states (ue_CommandID <$> entries) db in
      run_tx 1 (batch_body states machineID now entries) db1
  end.
End store.

(** ** What a batch may change

    [outcome]: the columns that say how a command ended. *)
Definition outcome (r : CommandRow) :=
  (c_status r, c_failure_kind r, c_exit_code r, c_duration_ms r, c_completed_at r, c_error_message r).

(** The outcome an upload may write: completed, or failed by the agent. *)
Definition decided (r : CommandRow) : Prop :=
  c_status r = CommandStatusCompleted ∨
  (c_status r = CommandStatusFailed ∧ c_failure_kind r = Some CommandFailureKindAgentFailed).

Definition outcome_le (r r' : CommandRow) : Prop :=
  outcome r' = outcome r ∨ ((is_open r = true ∨ is_unreachable r = true) ∧ decided r').

(** The columns no upload writes. *)
Definition identity (r : CommandRow) :=
  (c_agent_id r, c_machine_id r, c_principal_id r, c_command r, c_instruction r, c_profile r,
   c_allow_diff r, c_created_at r, c_started_at r, (c_env r, c_working_dir r, c_timeout_seconds r,
   c_conversation_id r)).

Lemma decided_frozen r : decided r → is_open r = false ∧ is_unreachable r = false.
Proof.
  unfold decided, is_open, is_unreachable. intros [->|[-> ->]]; done.
Qed.

Lemma outcome_flags r r' : outcome r' = outcome r →
  is_open r' = is_open r ∧ is_unreachable r' = is_unreachable r ∧ (decided r' ↔ decided r).
Proof.
  unfold outcome, is_open, is_unreachable, decided. intros [= Hs Hf He Hd Hc Hm].
  by rewrite Hs, Hf.
Qed.

#[export] Instance outcome_le_preorder : PreOrder outcome_le.
Proof.
  split; [by left|]. intros r1 r2 r3 [E1|[H1 D1]] [E2|[H2 D2]].
  - left. congruence.
  - right. split; [|done]. destruct (outcome_flags _ _ E1) as (<- & <- & _). done.
  - right. split; [done|]. by apply (outcome_flags _ _ E2).
  - right. done.
Qed.

Section batch_le.
Context (owned : UUID → Prop).

Record row_le (id : UUID) (r r' : CommandRow) : Prop := {
  rl_foreign : ¬ owned id → r' = r;
  rl_outcome : outcome_le r r';
  rl_ack : c_last_ack_seq r ≤ c_last_ack_seq r';
  rl_identity : identity r' = identity r
}.

Definition table_le {K V} `{Countable K} (key : K → UUID) (m m' : gmap K V) : Prop :=
  m ⊆ m' ∧ ∀ k, ¬ owned (key k) → m' !! k = m !! k.

Record batch_le (db db' : DB) : Prop := {
  bl_command id : option_Forall2 (row_le id) (db_command db !! id) (db_command db' !! id);
  bl_output : table_le fst (db_output db) (db_output db');
  bl_event : table_le fst (db_event db) (db_event db');
  bl_token : table_le id (db_token db) (db_token db');
  bl_conversation : db_conversation db' = db_conversation db
}.

#[global] Instance row_le_preorder id : PreOrder (row_le id).
Proof.
  split; [by intros r; split|]. intros r1 r2 r3 [] []. split.
  - intros Hn. etrans; [by apply rl_foreign1|by apply rl_foreign0].
  - by etrans.
  - lia.
  - congruence.
Qed.

#[global] Instance table_le_preorder {K V} `{Countable K} (key : K → UUID) :
  PreOrder (table_le (V:=V) key).
Proof.
  split; [by split|]. intros m1 m2 m3 [H1 H1'] [H2 H2']. split; [by etrans|].
  intros k Hk. by rewrite H2', H1'.
Qed.

#[global] Instance batch_le_preorder : PreOrder batch_le.
Proof.
  split.
  - intros db. by split.
  - intros d1 d2 d3 [] []. split; try (by etrans); try congruence. intros i.
    specialize (bl_command0 i). specialize (bl_command1 i).
    destruct bl_command0; inversion bl_command1; subst; constructor. by etrans.
Qed.

(** The three shapes of statements. *)
Lemma update_where_le id p f db db' b :
  owned id → update_where id p f db = (db', b) →
  (∀ r, db_command db !! id = Some r → p r = true → row_le id r (f r)) → batch_le db db'.
Proof.
  intros Ho Hu Hf. apply update_where_lookup in Hu as (Eo & Ee & Et & Ec & Hl).
  split; rewrite ?Eo, ?Ee, ?Et; try done. intros i. rewrite Hl. case_bool_decide as Hi; subst.
  - destruct (db_command db !! id) as [r|] eqn:Er; simpl; constructor.
    destruct (p r) eqn:Ep; [eauto|done].
  - destruct (db_command db !! i); by constructor.
Qed.

Lemma insert_ignore_le {K V} `{Countable K} (key : K → UUID) (k : K) (v : V) m m' n :
  insert_ignore k v m = (m', n) → owned (key k) → table_le key m m'.
Proof.
  intros Hi Ho. apply insert_ignore_spec in Hi as (? & _ & Hne & _). split; [done|].
  intros k' Hk. apply Hne. by intros ->.
Qed.
End batch_le.

(** The parts of a result the loop over the entries leaves to others. *)
Definition frozen (r r' : CommandUploadBatchResult) : Prop :=
  br_Rejected r' = br_Rejected r ∧ br_Acks r' = br_Acks r.

Section specs.
Context {Sv : Server} (states : gmap UUID cmdState) (machineID now : Z).

Definition owned_by (id : UUID) : Prop :=
  ∃ st, states !! id = Some st ∧ st_machineID st = machineID.
#[local] Abbreviation le := (batch_le owned_by).
#[local] Abbreviation T := (λ _ : DB, True).

Ltac row_le_solve :=
  split; [by intros []; eauto| |simpl; lia|done].

Lemma stmt_output_spec e ts :
  owned_by (ue_CommandID e) →
  tx_spec le T (stmt_output e ts) (λ n db,
    is_Some (db_output db !! (ue_CommandID e, ue_SeqNo e))).
Proof.
  intros Ho. apply spec_stmt; [apply _|]. intros db db' n _ Hf.
  destruct (db_command db !! ue_CommandID e); [|done].
  destruct (insert_ignore _ _ _) as [m k] eqn:Ei; injection Hf as <- <-. split.
  - split; try done. exact (insert_ignore_le owned_by fst _ _ _ _ _ Ei Ho).
  - by apply insert_ignore_spec in Ei as (_ & ? & _).
Qed.

Lemma stmt_event_spec id seq ty su pl :
  owned_by id →
  tx_spec le T (stmt_event id seq ty su pl) (λ n db, is_Some (db_event db !! (id, seq))).
Proof.
  intros Ho. apply spec_stmt; [apply _|]. intros db db' n _ Hf.
  destruct (db_command db !! id); [|done].
  destruct (insert_ignore _ _ _) as [m k] eqn:Ei; injection Hf as <- <-. split.
  - split; try done. exact (insert_ignore_le owned_by fst _ _ _ _ _ Ei Ho).
  - by apply insert_ignore_spec in Ei as (_ & ? & _).
Qed.

(** A guarded update of an owned command's row. *)
Lemma update_spec q id p f :
  owned_by id → (∀ r, p r = true → row_le owned_by id r (f r)) →
  tx_spec le T (tx_stmt q (λ db, Ok (update_where id p f db))) (λ _ _, True).
Proof.
  intros Ho Hf. apply spec_stmt; [apply _|]. intros db db' b _ [= Hu]. split; [|done].
  eapply update_where_le; eauto.
Qed.

Lemma appendRegradeEventTx_spec id n :
  owned_by id → tx_spec le T (appendRegradeEventTx id n) (λ _ _, True).
Proof.
  intros Ho. eapply (spec_bind _ _ _ _ (λ _ _, True)).
  { apply spec_stmt; [apply _|]. by intros ??? _ [= <- <-]. }
  intros q. eapply (spec_bind _ _ _ _ (λ _ _, True)); [|intros ?; by apply spec_ret; [apply _|]].
  apply spec_stmt; [apply _|]. intros db db' [] _ Hf.
  destruct (db_event db !! _) eqn:Ee; [done|]. injection Hf as <-. split; [|done].
  split; try done. split; [by apply insert_subseteq|]. intros k Hk. simpl.
  rewrite lookup_insert_ne; [done|]. by intros <-.
Qed.

Lemma apply_terminal_spec st e ts r :
  owned_by (ue_CommandID e) →
  tx_spec le T (apply_terminal st e ts now r) (λ r' _, frozen r r').
Proof.
  intros Ho. unfold apply_terminal.
  set (status := if ue_ExitCode e =? 0 then _ else _).
  destruct (_ || _).
  { eapply spec_bind; [apply _|apply update_spec; [done|]|intros ?; by apply spec_ret; [apply _|]].
    intros row Hrow. split; [by intros []| |simpl; lia|done]. right. split; [by left|].
    subst status. destruct (ue_ExitCode e =? 0); [by left|by right]. }
  destruct (_ && (status =? CommandStatusCompleted)).
  { eapply spec_bind; [apply _|apply update_spec; [done|]|intros []; [|by apply spec_ret; [apply _|]]].
    - intros row Hrow. split; [by intros []| |simpl; lia|done]. right. split; [by right|by left].
    - eapply spec_bind; [apply _|by apply appendRegradeEventTx_spec|].
      intros ?; by apply spec_ret; [apply _|]. }
  destruct (_ && _); [|by apply spec_ret; [apply _|]].
  eapply spec_bind; [apply _|apply update_spec; [done|]|intros ?; by apply spec_ret; [apply _|]].
  intros row Hrow. split; [by intros []| |simpl; lia|done]. right. split; [by right|right].
  simpl. unfold is_unreachable in Hrow. apply andb_true_iff in Hrow as [Hs _].
  apply Z.eqb_eq in Hs. by rewrite Hs.
Qed.

Lemma summary_spec id fs rj :
  owned_by id → tx_spec le T (updateCommandResultSummaryTx id fs rj) (λ _ _, True).
Proof.
  intros Ho. unfold updateCommandResultSummaryTx. case_bool_decide; [by apply spec_ret; [apply _|]|].
  eapply (spec_bind _ _ _ _ (λ _ _, True)); [by apply spec_bind_check; apply _|intros _].
  eapply (spec_bind _ _ _ _ (λ _ _, True)); [|intros ?; by apply spec_ret; [apply _|]].
  apply update_spec; [done|]. intros r _. unfold apply_sets, summary_sets_tx.
  destruct (String.eqb fs ""), (String.eqb rj ""); (split; [by intros []|by left|simpl; lia|done]).
Qed.

Lemma token_spec e :
  owned_by (ue_CommandID e) → tx_spec le T (recordCommandTokenUsageTx e) (λ _ _, True).
Proof.
  intros Ho. eapply (spec_bind _ _ _ _ (λ _ _, True)).
  { apply spec_stmt; [apply _|]. intros db db' a _ Hf.
    destruct (db_command db !! _); injection Hf as <- <-; by split. }
  intros [[[a p] m]|]; [|by apply spec_throw; apply _].
  eapply (spec_bind _ _ _ _ (λ _ _, True)); [|intros ?; by apply spec_ret; [apply _|]].
  apply spec_stmt; [apply _|]. intros db db' n _ Hf.
  destruct (insert_ignore _ _ _) as [t k] eqn:Ei; injection Hf as <- <-. split; [|done].
  split; try done. exact (insert_ignore_le owned_by id _ _ _ _ _ Ei Ho).
Qed.

(** Which entries the batch refuses, and why. *)
Definition verdict (e : CommandUploadEntry) : option string :=
  match states !! ue_CommandID e with
  | None => Some "command not found"%string
  | Some st =>
      if negb (st_machineID st =? machineID)
      then Some "command is not bound to the authenticated machine"%string
      else if ue_SeqNo e <? 1 then Some "sequence number must be positive"%string
      else if (ue_Kind e =? UploadKindProgress) || (ue_Kind e =? UploadKindEvent)
              || (ue_Kind e =? UploadKindResult) then None
      else Some "unknown upload entry kind"%string
  end.

Definition rejection (e : CommandUploadEntry) (reason : string) : CommandUploadRejection :=
  MkUploadRejection (ue_CommandID e) (ue_Kind e) (ue_SeqNo e) reason.

(** An accepted entry is on disk and under its command's watermark. *)
Definition persisted (db : DB) (e : CommandUploadEntry) (progress event : Z) (result : bool) : Prop :=
  (ue_Kind e = UploadKindProgress ∧ ue_SeqNo e ≤ progress ∧
     is_Some (db_output db !! (ue_CommandID e, ue_SeqNo e))) ∨
  (ue_Kind e = UploadKindEvent ∧ ue_SeqNo e ≤ event ∧
     is_Some (db_event db !! (ue_CommandID e, ue_SeqNo e))) ∨
  (ue_Kind e = UploadKindResult ∧ result = true).

Definition covered (a : upd_acc) (db : DB) (e : CommandUploadEntry) : Prop :=
  match verdict e with
  | Some reason => rejection e reason ∈ br_Rejected a.1
  | None => ∃ w, a.2 !! ue_CommandID e = Some w ∧
      persisted db e (wm_progress w) (wm_event w) (wm_result w)
  end.

Definition mark_le (w w' : watermark) : Prop :=
  wm_progress w ≤ wm_progress w' ∧ wm_event w ≤ wm_event w' ∧
  (wm_result w = true → wm_result w' = true).

(** How the accumulator grows; [es] are the entries just handled. *)
Record acc_le (es : list CommandUploadEntry) (a a' : upd_acc) : Prop := {
  al_rejected x : x ∈ br_Rejected a.1 → x ∈ br_Rejected a'.1;
  al_only x : x ∈ br_Rejected a'.1 → x ∈ br_Rejected a.1 ∨
    ∃ e reason, e ∈ es ∧ verdict e = Some reason ∧ x = rejection e reason;
  al_marks id w : a.2 !! id = Some w → ∃ w', a'.2 !! id = Some w' ∧ mark_le w w';
  al_owned id : is_Some (a'.2 !! id) → is_Some (a.2 !! id) ∨ owned_by id;
  al_acks : br_Acks a'.1 = br_Acks a.1
}.

Lemma acc_le_nil a : acc_le [] a a.
Proof. split; [done|by left| |by left|done]. intros id w Hw. exists w. unfold mark_le. split; [done|lia || auto with lia]. Qed.

Lemma acc_le_app es1 es2 a1 a2 a3 : acc_le es1 a1 a2 → acc_le es2 a2 a3 → acc_le (es1 ++ es2) a1 a3.
Proof.
  intros [] []. split.
  - auto.
  - intros x Hx. setoid_rewrite elem_of_app.
    destruct (al_only1 _ Hx) as [Hx'|(e & re & ? & ? & ?)]; [|right; exists e, re; auto].
    destruct (al_only0 _ Hx') as [|(e & re & ? & ? & ?)]; [by left|right; exists e, re; auto].
  - intros id w Hw. destruct (al_marks0 _ _ Hw) as (w' & Hw' & ? & ? & ?).
    destruct (al_marks1 _ _ Hw') as (w'' & ? & ? & ? & ?). exists w''.
    split; [done|]. repeat split; [lia|lia|auto].
  - intros id Hi. destruct (al_owned1 _ Hi) as [Hi'|]; [|by right]. auto.
  - congruence.
Qed.

Lemma persisted_mono db db' e p p' v v' b b' :
  batch_le owned_by db db' → p ≤ p' → v ≤ v' → (b = true → b' = true) →
  persisted db e p v b → persisted db' e p' v' b'.
Proof.
  intros [_ [Ho _] [He _] _ _] ? ? ? [(? & ? & [x Hx])|[(? & ? & [x Hx])|(? & ?)]].
  - left. split; [done|]. split; [lia|]. eapply lookup_weaken in Hx; [|exact Ho]. eauto.
  - right; left. split; [done|]. split; [lia|]. eapply lookup_weaken in Hx; [|exact He]. eauto.
  - right; right. auto.
Qed.

Lemma covered_mono es a a' db db' e :
  acc_le es a a' → batch_le owned_by db db' → covered a db e → covered a' db' e.
Proof.
  intros [] Hle. unfold covered. destruct (verdict e); [auto|].
  intros (w & Hw & Hp). destruct (al_marks0 _ _ Hw) as (w' & Hw' & ? & ? & ?).
  exists w'. split; [done|]. by eapply persisted_mono.
Qed.

Lemma raise_max x c : raise x c = Z.max c x.
Proof. unfold raise. destruct (Z.ltb_spec c x); lia. Qed.

(** Updating a mark of an owned command, keeping the rejections. *)
Lemma acc_le_mark es (a : upd_acc) (r' : CommandUploadBatchResult) id f :
  owned_by id → frozen a.1 r' → (∀ w, mark_le w (f w)) →
  acc_le es a (r', on_mark id f a.2).
Proof.
  intros Ho [Hr Ha] Hf. unfold on_mark. split; simpl; [..|done].
  - intros x. by rewrite Hr.
  - intros x. rewrite Hr. by left.
  - intros i w Hw. destruct (decide (i = id)) as [->|Hne].
    + exists (f w). by rewrite lookup_insert_eq, Hw.
    + exists w. rewrite lookup_insert_ne by done. split; [done|]. unfold mark_le. auto with lia.
  - intros i. destruct (decide (i = id)) as [->|Hne]; [by right|].
    rewrite lookup_insert_ne by done. by left.
Qed.

Lemma mark_progress_le q w : mark_le w (mark_progress q w).
Proof. unfold mark_le. simpl. rewrite raise_max. auto with lia. Qed.
Lemma mark_event_le q w : mark_le w (mark_event q w).
Proof. unfold mark_le. simpl. rewrite raise_max. auto with lia. Qed.
Lemma mark_result_le q w : mark_le w (mark_result q w).
Proof. unfold mark_le. simpl. auto with lia. Qed.

Lemma verdict_None e :
  verdict e = None → owned_by (ue_CommandID e) ∧ 1 ≤ ue_SeqNo e.
Proof.
  unfold verdict, owned_by. destruct (states !! ue_CommandID e) as [st|]; [|done].
  destruct (Z.eqb_spec (st_machineID st) machineID); [|done]. simpl.
  destruct (Z.ltb_spec (ue_SeqNo e) 1); [done|]. eauto.
Qed.

Lemma acc_le_reject e reason a :
  verdict e = Some reason → acc_le [e] a (reject e reason a) ∧ ∀ db, covered (reject e reason a) db e.
Proof.
  intros Hv. split.
  - split; simpl.
    + intros x Hx. apply elem_of_app. by left.
    + intros x [Hx|Hx]%elem_of_app; [by left|]. apply list_elem_of_singleton in Hx as ->.
      right. exists e, reason. by rewrite list_elem_of_singleton.
    + intros id w Hw. exists w. split; [done|]. unfold mark_le. auto with lia.
    + by left.
    + done.
  - intros db. unfold covered. rewrite Hv. apply elem_of_app. right. by apply list_elem_of_singleton.
Qed.

Lemma apply_progress_spec e ts a :
  verdict e = None → ue_Kind e = UploadKindProgress →
  tx_spec le T (apply_progress e ts a) (λ a' db, acc_le [e] a a' ∧ covered a' db e).
Proof.
  intros Hv Hk. destruct (verdict_None e Hv) as [Ho Hs].
  eapply spec_bind; [apply _|by apply stmt_output_spec|]. intros n. destruct a as [r m].
  apply spec_ret; [apply _|]. intros db Hdb. split.
  - apply (acc_le_mark _ (r, m)); [done|by destruct (0 <? n)|apply mark_progress_le].
  - unfold covered. rewrite Hv. simpl. unfold on_mark. eexists. rewrite lookup_insert_eq.
    split; [done|]. left. simpl. rewrite raise_max. auto with lia.
Qed.

Lemma apply_event_spec e ts a :
  verdict e = None → ue_Kind e = UploadKindEvent →
  tx_spec le T (apply_event e ts a) (λ a' db, acc_le [e] a a' ∧ covered a' db e).
Proof.
  intros Hv Hk. destruct (verdict_None e Hv) as [Ho Hs].
  eapply spec_bind; [apply _|by apply stmt_event_spec|]. intros n.
  eapply (spec_bind _ _ _ _ (λ _ db, is_Some (db_event db !! (ue_CommandID e, ue_SeqNo e)))).
  { destruct (ue_HasTokenUsage e); [|apply spec_ret; [apply _|by intros db ?]].
    intros s s' x Hdb E. eapply spec_attempt in E as [Hle _]; [|by apply token_spec|done].
    split; [done|]. intros _ _. destruct Hdb as [y Hy], Hle as [_ _ [He _] _ _].
    eapply lookup_weaken in Hy; eauto. }
  intros _. destruct a as [r m].
  apply spec_ret; [apply _|]. intros db Hdb. split.
  - apply (acc_le_mark _ (r, m)); [done|by destruct (0 <? n)|apply mark_event_le].
  - unfold covered. rewrite Hv. simpl. unfold on_mark. eexists. rewrite lookup_insert_eq.
    split; [done|]. right; left. simpl. rewrite raise_max. auto with lia.
Qed.

Lemma apply_result_spec st e ts a :
  verdict e = None → ue_Kind e = UploadKindResult →
  tx_spec le T (apply_result st e ts now a) (λ a' db, acc_le [e] a a' ∧ covered a' db e).
Proof.
  intros Hv Hk. destruct (verdict_None e Hv) as [Ho Hs]. destruct a as [r m].
  eapply spec_bind; [apply _|by apply apply_terminal_spec|]. intros r'.
  eapply (spec_bind _ _ _ _ (λ _ _, frozen r r')).
  { intros s s' x Hr E. split; [by eapply summary_spec in E as [? _]|done]. }
  intros _. apply spec_ret; [apply _|]. intros db Hr. split.
  - apply (acc_le_mark _ (r, m)); [done|done|apply mark_result_le].
  - unfold covered. rewrite Hv. simpl. unfold on_mark. eexists. rewrite lookup_insert_eq.
    split; [done|]. right; right. done.
Qed.

Lemma verdict_kind e :
  verdict e = None →
  ue_Kind e = UploadKindProgress ∨ ue_Kind e = UploadKindEvent ∨ ue_Kind e = UploadKindResult.
Proof.
  unfold verdict. destruct (states !! _); [|done]. destruct (negb _); [done|].
  destruct (_ <? 1); [done|].
  destruct (Z.eqb_spec (ue_Kind e) UploadKindProgress); [auto|].
  destruct (Z.eqb_spec (ue_Kind e) UploadKindEvent); [auto|].
  destruct (Z.eqb_spec (ue_Kind e) UploadKindResult); [auto|done].
Qed.

(** The loop body by verdict and kind. *)
Lemma apply_entry_rejects e reason a :
  verdict e = Some reason → apply_entry states machineID now e a = mret (reject e reason a).
Proof.
  unfold apply_entry, verdict. destruct (states !! ue_CommandID e) as [st|]; [|congruence].
  destruct (negb _); [congruence|]. destruct (ue_SeqNo e <? 1); [congruence|].
  destruct (ue_Kind e =? UploadKindProgress); [done|].
  destruct (ue_Kind e =? UploadKindEvent); [done|].
  destruct (ue_Kind e =? UploadKindResult); [done|]. simpl. congruence.
Qed.

Lemma apply_entry_progress e a :
  verdict e = None → ue_Kind e = UploadKindProgress →
  apply_entry states machineID now e a = apply_progress e (default now (ue_Timestamp e)) a.
Proof.
  unfold apply_entry, verdict. intros Hv Hk. destruct (states !! _); [|done].
  destruct (negb _); [done|]. destruct (ue_SeqNo e <? 1); [done|]. by rewrite Hk.
Qed.

Lemma apply_entry_event e a :
  verdict e = None → ue_Kind e = UploadKindEvent →
  apply_entry states machineID now e a = apply_event e (default now (ue_Timestamp e)) a.
Proof.
  unfold apply_entry, verdict. intros Hv Hk. destruct (states !! _); [|done].
  destruct (negb _); [done|]. destruct (ue_SeqNo e <? 1); [done|]. by rewrite Hk.
Qed.

Lemma apply_entry_result e a st :
  verdict e = None → ue_Kind e = UploadKindResult → states !! ue_CommandID e = Some st →
  apply_entry states machineID now e a = apply_result st e (default now (ue_Timestamp e)) now a.
Proof.
  unfold apply_entry, verdict. intros Hv Hk Hst. rewrite Hst in Hv |- *.
  destruct (negb _); [done|]. destruct (ue_SeqNo e <? 1); [done|]. by rewrite Hk.
Qed.

Lemma apply_entry_spec e a :
  tx_spec le T (apply_entry states machineID now e a) (λ a' db, acc_le [e] a a' ∧ covered a' db e).
Proof.
  destruct (verdict e) as [reason|] eqn:Hv.
  - destruct (acc_le_reject e reason a Hv) as [H1 H2].
    rewrite (apply_entry_rejects e reason a Hv). by apply spec_ret; [apply _|].
  - destruct (verdict_None e Hv) as [(st & Hst & _) _].
    destruct (verdict_kind e Hv) as [Hk|[Hk|Hk]].
    + rewrite (apply_entry_progress e a Hv Hk). by apply apply_progress_spec.
    + rewrite (apply_entry_event e a Hv Hk). by apply apply_event_spec.
    + rewrite (apply_entry_result e a st Hv Hk Hst). by apply apply_result_spec.
Qed.

Lemma apply_entries_spec es a :
  tx_spec le T (apply_entries states machineID now es a)
    (λ a' db, acc_le es a a' ∧ ∀ e, e ∈ es → covered a' db e).
Proof.
  revert a. induction es as [|e es IH]; intros a; simpl.
  { apply spec_ret; [apply _|]. intros db _. split; [apply acc_le_nil|].
    intros e He. by apply elem_of_nil in He. }
  eapply spec_bind; [apply _|apply apply_entry_spec|]. intros a1.
  eapply spec_conseq; [apply (spec_frame _ (λ db, acc_le [e] a a1 ∧ covered a1 db e)), IH|done|].
  intros a2 db2 ([H2 C2] & db1 & (H1 & C1) & Hle). split.
  - by apply (acc_le_app [e]) with a1.
  - intros e' [->|He]%elem_of_cons; [|auto]. by eapply covered_mono.
Qed.

Lemma ack_seq_spec id ack :
  owned_by id → tx_spec le T (stmt_ack_seq id ack) (λ _ _, True).
Proof.
  intros Ho. apply update_spec; [done|]. intros r _. split; [by intros []|by left|simpl; lia|done].
Qed.

Lemma fold_marks_spec ms r :
  (∀ id w, (id, w) ∈ ms → owned_by id) →
  tx_spec le T (fold_marks ms r) (λ r' _, br_Rejected r' = br_Rejected r ∧
    br_Acks r' = br_Acks r ++
      ((λ p, MkUploadAck p.1 (wm_progress p.2) (wm_event p.2) (wm_result p.2)) <$> ms)).
Proof.
  revert r. induction ms as [|[id w] ms IH]; intros r Ho; simpl.
  { apply spec_ret; [apply _|]. intros _ _. by rewrite app_nil_r. }
  eapply (spec_bind _ _ _ _ (λ _ _, True)).
  { destruct (0 <? wm_ack w); [|by apply spec_ret; [apply _|]].
    apply ack_seq_spec. apply (Ho id w). by left. }
  intros _. eapply spec_conseq; [apply IH|done|].
  - intros id' w' Hin. apply (Ho id' w'). by right.
  - intros r' _ [-> ->]. simpl. by rewrite <-app_assoc.
Qed.

(** The whole body, from any snapshot of the ownership states. *)
Lemma batch_body_spec es :
  tx_spec le T (batch_body states machineID now es) (λ r db,
    NoDup (ua_CommandID <$> br_Acks r) ∧
    (∀ x, x ∈ br_Rejected r ↔ ∃ e reason, e ∈ es ∧ verdict e = Some reason ∧ x = rejection e reason) ∧
    ∀ e, e ∈ es → verdict e = None → ∃ a, a ∈ br_Acks r ∧ ua_CommandID a = ue_CommandID e ∧
      persisted db e (ua_LastProgressSeq a) (ua_LastEventSeq a) (ua_ResultAcked a)).
Proof.
  eapply spec_bind; [apply _|apply apply_entries_spec|]. intros [r m].
  intros s s' x [Ha Hcov] E. pose proof E as E'.
  assert (∀ id w, (id, w) ∈ map_to_list m → owned_by id) as Ho.
  { intros id w Hin. apply elem_of_map_to_list in Hin.
    destruct (al_owned _ _ _ Ha id) as [[? Hx]|]; [by eexists| |done].
    simpl in Hx. by rewrite lookup_empty in Hx. }
  destruct (fold_marks_spec _ r Ho s s' x I E) as [Hle Hq]. split; [done|].
  intros r' ->. destruct (Hq r' eq_refl) as [Hrej Hacks].
  pose proof (al_acks _ _ _ Ha) as Hr0. simpl in Hr0. rewrite Hr0 in Hacks. simpl in Hacks.
  split; [|split].
  - rewrite Hacks, <-list_fmap_compose. apply NoDup_fst_map_to_list.
  - intros y. rewrite Hrej. split.
    + intros Hy. destruct (al_only _ _ _ Ha y Hy) as [Hn|?]; [by apply elem_of_nil in Hn|done].
    + intros (e & reason & He & Hv & ->). specialize (Hcov e He). unfold covered in Hcov.
      by rewrite Hv in Hcov.
  - intros e He Hv. specialize (Hcov e He). unfold covered in Hcov. rewrite Hv in Hcov.
    destruct Hcov as (w & Hw & Hp). eexists. rewrite Hacks. split.
    + apply list_elem_of_fmap. eexists (_, w). split; [reflexivity|]. by apply elem_of_map_to_list.
    + split; [done|]. simpl. eapply persisted_mono; [exact Hle|reflexivity|reflexivity|done|exact Hp].
Qed.

(** *** A result closes its command

    [snapshot]: the loaded states are earlier states of the rows. *)
Definition snapshot (db : DB) : Prop :=
  ∀ id st, states !! id = Some st → ∃ r0 r, load_state r0 = st ∧
    db_command db !! id = Some r ∧ outcome_le r0 r.

Definition closed (id : UUID) (db : DB) : Prop :=
  ∀ r, db_command db !! id = Some r → is_open r = false ∧ is_unreachable r = false.

Lemma batch_le_row db db' id r :
  batch_le owned_by db db' → db_command db !! id = Some r →
  ∃ r', db_command db' !! id = Some r' ∧ row_le owned_by id r r'.
Proof.
  intros [Hc _ _ _ _] Hr. specialize (Hc id). rewrite Hr in Hc. inversion Hc; subst. eauto.
Qed.

Lemma snapshot_mono db db' : batch_le owned_by db db' → snapshot db → snapshot db'.
Proof.
  intros Hle Hs id st Hst. destruct (Hs id st Hst) as (r0 & r & ? & Hr & ?).
  destruct (batch_le_row _ _ _ _ Hle Hr) as (r' & ? & []). exists r0, r'.
  split; [done|]. split; [done|]. by etrans.
Qed.

Lemma closed_mono id db db' : batch_le owned_by db db' → closed id db → closed id db'.
Proof.
  intros [Hc _ _ _ _] Hcl r' Hr'. specialize (Hc id). rewrite Hr' in Hc.
  inversion Hc as [r ? [_ Ho _ _] Hr|]; subst. destruct (Hcl r (eq_sym Hr)) as [H1 H2].
  destruct Ho as [E|[[?|?] _]]; [|congruence..].
  destruct (outcome_flags _ _ E) as (-> & -> & _). done.
Qed.

(** A guarded update of a row whose snapshot satisfied the guard. *)
Lemma update_closes q id st p f :
  owned_by id → states !! id = Some st →
  (∀ r, p r = true → row_le owned_by id r (f r) ∧ decided (f r)) →
  (∀ r0, load_state r0 = st → p r0 = true ∧ (p r0 = is_open r0 ∨ p r0 = is_unreachable r0)) →
  (∀ r r', outcome r' = outcome r → p r' = p r) →
  tx_spec le snapshot (tx_stmt q (λ db, Ok (update_where id p f db))) (λ _ db, closed id db).
Proof.
  intros Ho Hst Hf Hp Hpo. apply spec_stmt; [apply _|]. intros db db' b Hs [= Hu].
  split; [eapply update_where_le; [done|exact Hu|]; by intros; apply Hf|].
  destruct (Hs id st Hst) as (r0 & r & Hr0 & Hr & Hor).
  destruct (Hp r0 Hr0) as [Hpt _].
  apply update_where_lookup in Hu as (_ & _ & _ & _ & Hl).
  intros r' Hr'. rewrite Hl, bool_decide_eq_true_2, Hr in Hr' by done. simpl in Hr'.
  injection Hr' as <-. destruct (p r) eqn:Epr; [by apply decided_frozen, Hf|].
  destruct Hor as [E|[_ D]]; [|by apply decided_frozen].
  rewrite (Hpo _ _ E) in Epr. congruence.
Qed.

Lemma load_state_open r0 st : load_state r0 = st →
  is_open r0 = (st_status st =? CommandStatusPending) || (st_status st =? CommandStatusRunning) ∧
  is_unreachable r0 = (st_status st =? CommandStatusFailed) &&
    String.eqb (st_failureKind st) CommandFailureKindMachineUnreachable.
Proof.
  intros <-. unfold is_open, is_unreachable, load_state. simpl. split; [done|]. f_equal.
  destruct (c_failure_kind r0) as [k|]; simpl.
  - destruct (String.eqb_spec k CommandFailureKindMachineUnreachable) as [->|Hne].
    + by apply bool_decide_eq_true_2.
    + apply bool_decide_eq_false_2. congruence.
  - done.
Qed.

Lemma apply_terminal_closes st e ts r :
  owned_by (ue_CommandID e) → states !! ue_CommandID e = Some st →
  tx_spec le snapshot (apply_terminal st e ts now r) (λ _ db, closed (ue_CommandID e) db).
Proof.
  intros Ho Hst. unfold apply_terminal.
  set (status := if ue_ExitCode e =? 0 then _ else _).
  assert (status = CommandStatusCompleted ∨ status = CommandStatusFailed) as Hstatus
    by (subst status; destruct (_ =? 0); auto).
  destruct (_ || _) eqn:Eo.
  { eapply (spec_bind _ _ _ _ (λ _ db, closed (ue_CommandID e) db));
      [|intros ?; by apply spec_ret; [apply _|]].
    eapply update_closes; [done|done| | |by intros ??(<- & _)%outcome_flags].
    - intros row Hrow. destruct Hstatus as [-> | ->]; (split;
        [split; [by intros []|right; split; [by left|]|simpl; lia|done]|]); by (left + right).
    - intros r0 [-> _]%load_state_open. auto. }
  set (un := _ && String.eqb _ _). destruct (un && (status =? CommandStatusCompleted)) eqn:Ec.
  { apply andb_true_iff in Ec as [Eu _].
    eapply (spec_bind _ _ _ _ (λ _ db, closed (ue_CommandID e) db)); [|intros [|]].
    - eapply update_closes; [done|done| | |by intros ??(_ & <- & _)%outcome_flags].
      + intros row Hrow. split; [|by left]. split; [by intros []| |simpl; lia|done].
        right. split; [by right|by left].
      + intros r0 [_ ->]%load_state_open. fold un. auto.
    - eapply (spec_bind _ _ _ _ (λ _ db, closed (ue_CommandID e) db));
        [|intros ?; by apply spec_ret; [apply _|]].
      intros s s' x Hcl E.
      assert (tx_spec le T (appendRegradeEventTx (ue_CommandID e) now) (λ _ _, True)) as Ha
        by by apply appendRegradeEventTx_spec.
      apply Ha in E as [Hle _]; [|done]. split; [done|]. intros _ _. by eapply closed_mono.
    - by apply spec_ret; [apply _|]. }
  destruct (un && (status =? CommandStatusFailed)) eqn:Ef.
  { apply andb_true_iff in Ef as [Eu _].
    eapply (spec_bind _ _ _ _ (λ _ db, closed (ue_CommandID e) db));
      [|intros ?; by apply spec_ret; [apply _|]].
    eapply update_closes; [done|done| | |by intros ??(_ & <- & _)%outcome_flags].
    - intros row Hrow.
      assert (c_status row = CommandStatusFailed) as Hs.
      { unfold is_unreachable in Hrow. apply andb_true_iff in Hrow as [Hs _]. by apply Z.eqb_eq. }
      split; [|by right]. split; [by intros []| |simpl; lia|done]. right. split; [by right|by right].
    - intros r0 [_ ->]%load_state_open. fold un. auto. }
  apply spec_ret; [apply _|]. intros db Hs row Hrow.
  destruct (Hs _ _ Hst) as (r0 & r1 & Hr0 & Hr1 & Hor). rewrite Hrow in Hr1. injection Hr1 as <-.
  apply load_state_open in Hr0 as [Ho0 Hu0]. rewrite Eo in Ho0. fold un in Hu0.
  assert (un = false) as Hun.
  { destruct un; [|done]. simpl in Ec, Ef. destruct Hstatus as [E|E]; by rewrite E in Ec, Ef. }
  rewrite Hun in Hu0. destruct Hor as [E|[_ D]]; [|by apply decided_frozen].
  destruct (outcome_flags _ _ E) as (-> & -> & _). done.
Qed.

Lemma apply_entry_closes e a :
  tx_spec le snapshot (apply_entry states machineID now e a) (λ _ db,
    verdict e = None → ue_Kind e = UploadKindResult → closed (ue_CommandID e) db).
Proof.
  destruct (decide (verdict e = None)) as [Hv|Hv];
    [|by eapply spec_conseq; [apply apply_entry_spec|done|]; intros].
  destruct (decide (ue_Kind e = UploadKindResult)) as [Hk|Hk];
    [|by eapply spec_conseq; [apply apply_entry_spec|done|]; intros].
  destruct (verdict_None e Hv) as [Ho _]. pose proof Ho as (st & Hst & _).
  rewrite (apply_entry_result e a st) by done. destruct a as [r m].
  eapply (spec_bind _ _ _ _ (λ _ db, closed (ue_CommandID e) db)); [by apply apply_terminal_closes|].
  intros r'. eapply (spec_bind _ _ _ _ (λ _ db, closed (ue_CommandID e) db));
    [|intros ?; by apply spec_ret; [apply _|]].
  intros s s' x Hcl E. eapply summary_spec in E as [Hle _]; [|done|done]. split; [done|].
  intros _ _. by eapply closed_mono.
Qed.

Lemma apply_entries_closes es a :
  tx_spec le snapshot (apply_entries states machineID now es a) (λ _ db, ∀ e, e ∈ es →
    verdict e = None → ue_Kind e = UploadKindResult → closed (ue_CommandID e) db).
Proof.
  revert a. induction es as [|e es IH]; intros a; simpl.
  { apply spec_ret; [apply _|]. intros db _ e He. by apply elem_of_nil in He. }
  eapply spec_bind; [apply _|apply (spec_keep _ _ _ _ (apply_entry_closes e a))|]. intros a1.
  match goal with |- tx_spec _ ?P' _ _ =>
    assert (tx_spec le P' (apply_entries states machineID now es a1) (λ _ db, ∀ e, e ∈ es →
      verdict e = None → ue_Kind e = UploadKindResult → closed (ue_CommandID e) db)) as Hih
  end.
  { eapply spec_conseq; [apply IH| |done]. intros db1 (_ & db & Hs & Hle). by eapply snapshot_mono. }
  eapply spec_conseq; [apply (spec_keep _ _ _ _ Hih)|done|].
  intros a2 db2 [H2 (db1 & [H1 _] & Hle)] e' [->|He]%elem_of_cons Hv Hk; [|auto].
  eapply closed_mono; eauto.
Qed.

(** *** A batch that is already stored changes nothing *)

(** Equal up to summaries, token rows and cursors. *)
Definition core (db : DB) := (db_output db, db_event db, λ id, outcome <$> db_command db !! id).
Definition core_eq (db db' : DB) : Prop :=
  db_output db' = db_output db ∧ db_event db' = db_event db ∧
  ∀ id, outcome <$> db_command db' !! id = outcome <$> db_command db !! id.

#[global] Instance core_eq_preorder : PreOrder core_eq.
Proof.
  split; [by split|]. intros d1 d2 d3 (H1 & H2 & H3) (H4 & H5 & H6).
  split; [congruence|]. split; [congruence|]. intros id. by rewrite H6.
Qed.

(** Nothing new to report. *)
Definition quiet (r r' : CommandUploadBatchResult) : Prop :=
  br_Terminals r' = br_Terminals r ∧ br_Regrades r' = br_Regrades r ∧
  br_InsertedOutputs r' = br_InsertedOutputs r ∧ br_InsertedEvents r' = br_InsertedEvents r ∧
  br_LateFailures r' = br_LateFailures r.

(** The entry's effect is in [db] already; its command's loaded state is final. *)
Definition stored (db : DB) (e : CommandUploadEntry) : Prop :=
  verdict e = None →
  (ue_Kind e = UploadKindProgress → is_Some (db_output db !! (ue_CommandID e, ue_SeqNo e))) ∧
  (ue_Kind e = UploadKindEvent → is_Some (db_event db !! (ue_CommandID e, ue_SeqNo e))) ∧
  (ue_Kind e = UploadKindResult → ∀ st, states !! ue_CommandID e = Some st →
     ∃ r0, load_state r0 = st ∧ is_open r0 = false ∧ is_unreachable r0 = false).

Lemma stored_mono db db' e : core_eq db db' → stored db e → stored db' e.
Proof. intros (Ho & He & _) Hs Hv. rewrite Ho, He. by apply Hs. Qed.

Lemma core_update q id f P :
  (∀ r, outcome (f r) = outcome r) →
  tx_spec core_eq P (tx_stmt q (λ db, Ok (update_where id (λ _, true) f db))) (λ _ _, True).
Proof.
  intros Hf. apply spec_stmt; [apply _|]. intros db db' b _ [= Hu]. split; [|done].
  apply update_where_lookup in Hu as (Eo & Ee & _ & _ & Hl). split; [done|]. split; [done|].
  intros i. rewrite Hl. case_bool_decide; [|done]. destruct (db_command db !! i); [|done].
  simpl. by rewrite Hf.
Qed.

Lemma core_insert {K} `{Countable K} {V} (k : K) (v x : V) m m' n :
  m !! k = Some x → insert_ignore k v m = (m', n) → m' = m ∧ n = 0.
Proof. unfold insert_ignore. intros ->. by intros [= <- <-]. Qed.

Lemma token_core e P : tx_spec core_eq P (recordCommandTokenUsageTx e) (λ _ _, True).
Proof.
  eapply (spec_bind _ _ _ _ (λ _ _, True)).
  { apply spec_stmt; [apply _|]. intros db db' a _ Hf.
    destruct (db_command db !! _); injection Hf as <- <-; by split. }
  intros [[[a p] m]|]; [|by apply spec_throw; apply _].
  eapply (spec_bind _ _ _ _ (λ _ _, True)); [|intros ?; by apply spec_ret; [apply _|]].
  apply spec_stmt; [apply _|]. intros db db' n _ Hf.
  destruct (insert_ignore _ _ _) as [t k]; injection Hf as <- <-. split; [|done]. done.
Qed.

Lemma apply_result_core e st a db0 :
  stored db0 e → verdict e = None → ue_Kind e = UploadKindResult → states !! ue_CommandID e = Some st →
  tx_spec core_eq T (apply_result st e (default now (ue_Timestamp e)) now a)
    (λ a' _, quiet a.1 a'.1).
Proof.
  intros Hs Hv Hk Hst. destruct (Hs Hv) as (_ & _ & H3).
  destruct (H3 Hk st Hst) as (r0 & Hr0 & Ho & Hu).
  apply load_state_open in Hr0 as [Ho' Hu']. destruct a as [r m]. unfold apply_result, apply_terminal.
  rewrite <-Ho', Ho, <-Hu', Hu.
  change (tx_spec core_eq T
    (updateCommandResultSummaryTx (ue_CommandID e) (ue_FinalSummary e) (ue_ResultJSON e);;
     mret (r, on_mark (ue_CommandID e) (mark_result (ue_LastSeqNo e)) m)) (λ a' _, quiet r a'.1)).
  eapply (spec_bind _ _ _ _ (λ _ _, True)); [|intros ?; by apply spec_ret; [apply _|]].
  unfold updateCommandResultSummaryTx. case_bool_decide; [by apply spec_ret; [apply _|]|].
  eapply (spec_bind _ _ _ _ (λ _ _, True)); [by apply spec_bind_check; apply _|intros _].
  eapply (spec_bind _ _ _ _ (λ _ _, True)); [|intros ?; by apply spec_ret; [apply _|]].
  apply core_update. intros row. unfold apply_sets, summary_sets_tx.
  destruct (String.eqb (ue_FinalSummary e) ""), (String.eqb (ue_ResultJSON e) ""); reflexivity.
Qed.

Lemma apply_entry_core e a db0 :
  stored db0 e →
  tx_spec core_eq (core_eq db0) (apply_entry states machineID now e a) (λ a' _, quiet a.1 a'.1).
Proof.
  intros Hs. destruct (verdict e) as [reason|] eqn:Hv.
  - assert (apply_entry states machineID now e a = mret (reject e reason a)) as ->;
      [by apply apply_entry_rejects|]. by apply spec_ret; [apply _|].
  - pose proof (verdict_None e Hv) as [(st & Hst & _) _].
    destruct (verdict_kind e Hv) as [Hk|[Hk|Hk]].
    + rewrite (apply_entry_progress e a) by done. destruct a as [r m].
      eapply (spec_bind _ _ _ _ (λ n _, n = 0)).
      { apply spec_stmt; [apply _|]. intros db db' n Hc Hf.
        destruct (db_command db !! _); [|done].
        destruct (insert_ignore _ _ _) as [o k] eqn:Ei. injection Hf as <- <-.
        pose proof (stored_mono _ _ _ Hc Hs Hv) as ([x Hx] & _ & _); [done|].
        destruct (core_insert _ _ _ _ _ _ Hx Ei) as [-> ->]. by split. }
      intros n. apply spec_ret; [apply _|]. by intros _ ->.
    + rewrite (apply_entry_event e a) by done. destruct a as [r m].
      eapply (spec_bind _ _ _ _ (λ n _, n = 0)).
      { apply spec_stmt; [apply _|]. intros db db' n Hc Hf.
        destruct (db_command db !! _); [|done].
        destruct (insert_ignore _ _ _) as [o k] eqn:Ei. injection Hf as <- <-.
        pose proof (stored_mono _ _ _ Hc Hs Hv) as (_ & Hx & _). destruct (Hx Hk) as [x Hx'].
        destruct (core_insert _ _ _ _ _ _ Hx' Ei) as [-> ->]. by split. }
      intros n. eapply (spec_bind _ _ _ _ (λ _ _, n = 0)).
      { destruct (ue_HasTokenUsage e); [|by apply spec_ret; [apply _|]].
        intros s s' x Hn E. eapply spec_attempt in E as [Hle _]; [|apply (token_core _ T)|done].
        done. }
      intros _. apply spec_ret; [apply _|]. by intros _ ->.
    + rewrite (apply_entry_result e a st) by done.
      eapply spec_conseq; [by apply (apply_result_core e st a db0)|done|done].
Qed.

Lemma quiet_trans r1 r2 r3 : quiet r1 r2 → quiet r2 r3 → quiet r1 r3.
Proof. unfold quiet. intros (?&?&?&?&?) (?&?&?&?&?). split_and!; congruence. Qed.

Lemma apply_entries_core es a db0 :
  (∀ e, e ∈ es → stored db0 e) →
  tx_spec core_eq (core_eq db0) (apply_entries states machineID now es a) (λ a' _, quiet a.1 a'.1).
Proof.
  revert a. induction es as [|e es IH]; intros a Hs; simpl; [by apply spec_ret; [apply _|]|].
  eapply spec_bind; [apply _|apply (spec_keep _ _ _ _ (apply_entry_core e a db0 (Hs e ltac:(by left))))|].
  intros a1 s s' r (Hq & db & Hc & Hle) E.
  apply IH in E as [? Hr]; [|by intros; apply Hs; right|by etrans].
  split; [done|]. intros a2 ->. eapply quiet_trans; [done|]. by apply Hr.
Qed.

Lemma fold_marks_core ms r P :
  tx_spec core_eq P (fold_marks ms r) (λ r' _, quiet r r').
Proof.
  revert r P. induction ms as [|[id w] ms IH]; intros r P; simpl; [by apply spec_ret; [apply _|]|].
  eapply (spec_bind _ _ _ _ (λ _ _, True)).
  { destruct (0 <? wm_ack w); [by apply core_update|by apply spec_ret; [apply _|]]. }
  intros _. eapply (spec_conseq _ (λ _, True)); [apply IH|done|]. intros r' db Hq. exact Hq.
Qed.

Lemma batch_body_closes es s s' r :
  snapshot (tx_db s) → batch_body states machineID now es s = (s', Ok r) →
  ∀ e, e ∈ es → verdict e = None → ue_Kind e = UploadKindResult → closed (ue_CommandID e) (tx_db s').
Proof.
  intros Hs Hb. apply bind_ok_inv in Hb as (s1 & [r1 m] & H1 & H2).
  pose proof H1 as H1'. apply apply_entries_closes in H1' as [_ Hcl]; [|done].
  apply apply_entries_spec in H1 as [_ Ha]; [|done]. destruct (Ha _ eq_refl) as [Hacc _].
  apply fold_marks_spec in H2 as [Hle _]; [| |done].
  - intros e He Hv Hk. eapply closed_mono; [exact Hle|]. by eapply (Hcl (r1, m)).
  - intros id w Hin. apply elem_of_map_to_list in Hin.
    destruct (al_owned _ _ _ Hacc id) as [[? Hx]|]; [by eexists| |done].
    simpl in Hx. by rewrite lookup_empty in Hx.
Qed.

Lemma batch_body_core es db0 :
  (∀ e, e ∈ es → stored db0 e) →
  tx_spec core_eq (core_eq db0) (batch_body states machineID now es) (λ r _, quiet empty_result r).
Proof.
  intros Hs. eapply spec_bind; [apply _|by apply apply_entries_core|]. intros [r m].
  intros s s' x Hq E. apply (fold_marks_core _ _ T) in E as [? Hr]; [|done]. split; [done|].
  intros r' ->. eapply quiet_trans; [exact Hq|]. by apply Hr.
Qed.
End specs.

Lemma load_states_lookup ids db id st :
  load_states ids db !! id = Some st ↔
  id ∈ ids ∧ ∃ r, db_command db !! id = Some r ∧ load_state r = st.
Proof.
  unfold load_states. rewrite lookup_fmap_Some. setoid_rewrite map_lookup_filter_Some. simpl.
  split; [intros (r & ? & ? & ?); eauto|intros (? & r & ? & ?); eauto].
Qed.

(** The states a batch loads before its transaction. *)
Definition batch_states (entries : list CommandUploadEntry) (db : DB) : gmap UUID cmdState :=
  load_states (ue_CommandID <$> entries) db.

Section properties.
Context {Sv : Server}.

Lemma ApplyCommandUploadBatch_run others machineID now entries db db' r :
  ApplyCommandUploadBatch others machineID now entries db = (db', r) →
  db' = others db ∧ (entries = [] ∧ r = Ok empty_result ∨ is_ok r = false) ∨
  run_tx 1 (batch_body (batch_states entries db) machineID now entries) (others db) = (db', r).
Proof.
  unfold ApplyCommandUploadBatch. destruct entries as [|e es]; [intros [= <- <-]; auto|].
  destruct (fails 0 _); [intros [= <- <-]; auto|]. by right.
Qed.

(** A run of the transaction, from any snapshot. *)
Lemma batch_run states machineID now entries db db' r :
  run_tx 1 (batch_body states machineID now entries) db = (db', r) →
  batch_le (owned_by states machineID) db db' ∧ ∀ res, r = Ok res →
    NoDup (ua_CommandID <$> br_Acks res) ∧
    (∀ x, x ∈ br_Rejected res ↔ ∃ e reason, e ∈ entries ∧
       verdict states machineID e = Some reason ∧ x = rejection e reason) ∧
    ∀ e, e ∈ entries → verdict states machineID e = None →
      ∃ a, a ∈ br_Acks res ∧ ua_CommandID a = ue_CommandID e ∧
        persisted db' e (ua_LastProgressSeq a) (ua_LastEventSeq a) (ua_ResultAcked a).
Proof.
  intros Hb. exact (run_tx_spec (batch_le (owned_by states machineID)) _ _ (λ _, True) _ _ _ _ I
    (batch_body_spec states machineID now entries) Hb).
Qed.

(** Without interleaving, an accepted result leaves its command final. *)
Lemma batch_run_closes machineID now entries db db' r :
  run_tx 1 (batch_body (batch_states entries db) machineID now entries) db = (db', Ok r) →
  ∀ e, e ∈ entries → verdict (batch_states entries db) machineID e = None →
    ue_Kind e = UploadKindResult → closed (ue_CommandID e) db'.
Proof.
  intros H1. unfold run_tx in H1. destruct (batch_body _ _ _ _ _) as [s1 [r1|e]] eqn:Eb; [|done].
  destruct (tx_aborted s1); [done|]. destruct (fails _ _); [done|]. injection H1 as <- ->.
  intros e He Hv Hk.
  eapply (batch_body_closes (batch_states entries db) machineID now entries); [|exact Eb|done..].
  intros cid st Hst. apply load_states_lookup in Hst as (_ & row & Hrow & <-). exists row, row.
  by split_and!.
Qed.

(** The answer to a batch.  An error leaves the database to the other
    sessions' commits alone.  On success the rejections are exactly the entries
    of unknown or foreign commands, non-positive sequence numbers or unknown
    kinds, each with its reason; every other entry is in its table and under its
    command's watermark (or its result is acked); and a command has one ack. *)
Theorem upload_batch_answer others machineID now entries db db' r :
  ApplyCommandUploadBatch others machineID now entries db = (db', r) →
  let bad := verdict (batch_states entries db) machineID in
  match r with
  | Err _ => db' = others db
  | Ok res =>
      NoDup (ua_CommandID <$> br_Acks res) ∧
      (∀ x, x ∈ br_Rejected res ↔
        ∃ e reason, e ∈ entries ∧ bad e = Some reason ∧ x = rejection e reason) ∧
      ∀ e, e ∈ entries → bad e = None → ∃ a, a ∈ br_Acks res ∧ ua_CommandID a = ue_CommandID e ∧
        persisted db' e (ua_LastProgressSeq a) (ua_LastEventSeq a) (ua_ResultAcked a)
  end.
Proof.
  intros Hb bad. destruct r as [res|e].
  - apply ApplyCommandUploadBatch_run in Hb as [(-> & [[-> [= ->]]|?])|Hb]; [|done|].
    + simpl. split; [constructor|]. split; [|intros e He; by apply elem_of_nil in He].
      intros x. split; [by intros ?%elem_of_nil|]. intros (e & ? & He & _). by apply elem_of_nil in He.
    + apply batch_run in Hb as [_ Hq]. by apply Hq.
  - apply ApplyCommandUploadBatch_run in Hb as [(-> & _)|Hb]; [done|]. by apply run_tx_err in Hb.
Qed.

(** C35: the irreversible anchor.  Whatever a machine uploads and whatever other
    sessions commit between the batch's state query and its transaction, a
    command's outcome (status, failure kind, exit code, duration, completion
    time, error) changes only from PENDING, RUNNING or a machine_unreachable
    failure, and only to COMPLETED or an agent failure; its cursor never goes
    back, its identity never changes, and no command appears or vanishes. *)
Theorem upload_respects_anchor others machineID now entries db db' r id :
  ApplyCommandUploadBatch others machineID now entries db = (db', r) →
  match db_command (others db) !! id, db_command db' !! id with
  | Some row, Some row' =>
      outcome_le row row' ∧ c_last_ack_seq row ≤ c_last_ack_seq row' ∧ identity row' = identity row
  | None, None => True
  | _, _ => False
  end.
Proof.
  intros Hb.
  assert (batch_le (owned_by (batch_states entries db) machineID) (others db) db') as [Hc _ _ _ _].
  { apply ApplyCommandUploadBatch_run in Hb as [(-> & _)|Hb]; [done|].
    by apply batch_run in Hb as [? _]. }
  specialize (Hc id). destruct Hc as [? ? [? ? ? ?]|]; done.
Qed.

(** Ownership.  A command not bound to the authenticated machine when the
    batch loaded its states keeps its row, its outputs, its events and its token
    usage untouched, and stored outputs, events and usage rows are never
    overwritten. *)
Theorem upload_touches_only_own others machineID now entries db db' r :
  ApplyCommandUploadBatch others machineID now entries db = (db', r) →
  (∀ id, (∀ row, db_command db !! id = Some row → default 0 (c_machine_id row) ≠ machineID) →
    db_command db' !! id = db_command (others db) !! id ∧
    db_token db' !! id = db_token (others db) !! id ∧
    ∀ q, db_output db' !! (id, q) = db_output (others db) !! (id, q) ∧
         db_event db' !! (id, q) = db_event (others db) !! (id, q)) ∧
  db_output (others db) ⊆ db_output db' ∧ db_event (others db) ⊆ db_event db' ∧
  db_token (others db) ⊆ db_token db'.
Proof.
  intros Hb.
  assert (batch_le (owned_by (batch_states entries db) machineID) (others db) db')
    as [Hc [Ho Ho'] [He He'] [Ht Ht'] _].
  { apply ApplyCommandUploadBatch_run in Hb as [(-> & _)|Hb]; [done|].
    by apply batch_run in Hb as [? _]. }
  split; [|done]. intros id Hid.
  assert (¬ owned_by (batch_states entries db) machineID id) as Hno.
  { intros (st & Hst & Hm). apply load_states_lookup in Hst as (_ & row & Hrow & <-).
    by apply (Hid row). }
  split; [|split; [by apply Ht'|]].
  - specialize (Hc id). destruct Hc as [row row' [Hf _ _ _]|]; [|done]. by rewrite Hf.
  - intros q. split; [by apply Ho'|by apply He'].
Qed.

Lemma verdict_load machineID entries db db1 e :
  batch_le (owned_by (batch_states entries db) machineID) db db1 →
  verdict (batch_states entries db1) machineID e = verdict (batch_states entries db) machineID e.
Proof.
  intros [Hc _ _ _ _]. specialize (Hc (ue_CommandID e)). unfold verdict.
  destruct (batch_states entries db !! ue_CommandID e) as [st|] eqn:E.
  - pose proof E as E'. apply load_states_lookup in E' as (Hin & row & Hrow & <-).
    rewrite Hrow in Hc. inversion Hc as [x row1 [_ _ _ Hi] Hx Hrow1|]; subst.
    assert (batch_states entries db1 !! ue_CommandID e = Some (load_state row1)) as ->.
    { apply load_states_lookup. eauto. }
    simpl. unfold identity in Hi. injection Hi as _ -> _. done.
  - destruct (batch_states entries db1 !! ue_CommandID e) as [st|] eqn:E1; [|done].
    apply load_states_lookup in E1 as (Hin & row1 & Hrow1 & <-). rewrite Hrow1 in Hc.
    inversion Hc as [row x Hx Hrow Hy|]; subst. exfalso.
    assert (batch_states entries db !! ue_CommandID e = Some (load_state row)); [|congruence].
    apply load_states_lookup. eauto.
Qed.

(** Retransmission.  Applying an applied batch again succeeds without
    effect: no output or event is inserted, no terminal, re-grade or late failure
    is reported, the output and event tables and every command's outcome stay as
    they are. *)
Theorem retransmitted_batch_is_noop machineID now1 now2 entries db db1 db2 r1 r2 :
  ApplyCommandUploadBatch id machineID now1 entries db = (db1, Ok r1) →
  ApplyCommandUploadBatch id machineID now2 entries db1 = (db2, Ok r2) →
  br_InsertedOutputs r2 = [] ∧ br_InsertedEvents r2 = [] ∧ br_Terminals r2 = [] ∧
  br_Regrades r2 = [] ∧ br_LateFailures r2 = 0 ∧
  db_output db2 = db_output db1 ∧ db_event db2 = db_event db1 ∧
  ∀ cid, outcome <$> db_command db2 !! cid = outcome <$> db_command db1 !! cid.
Proof.
  intros H1 H2. destruct (decide (entries = [])) as [->|Hne].
  { injection H2 as <- <-. done. }
  apply ApplyCommandUploadBatch_run in H1 as [(_ & [[? _]|?])|H1]; [done..|].
  apply ApplyCommandUploadBatch_run in H2 as [(_ & [[? _]|?])|H2]; [done..|]. simpl in H1, H2.
  set (st1 := batch_states entries db) in *.
  pose proof H1 as H1'.
  apply batch_run in H1' as [Hle Hq].
  destruct (Hq _ eq_refl) as (_ & _ & Hper).
  pose proof (batch_run_closes _ _ _ _ _ _ H1) as Hclosed.
  assert (∀ e, e ∈ entries → stored (batch_states entries db1) machineID db1 e) as Hstored.
  { intros e He Hv. rewrite (verdict_load _ _ _ _ _ Hle) in Hv. fold st1 in Hv.
    destruct (Hper e He Hv) as (a & _ & _ & Hp). unfold persisted in Hp.
    split; [|split].
    - intros Hk. destruct Hp as [(_ & _ & ?)|[(Hk' & _)|(Hk' & _)]]; [done|..]; by rewrite Hk in Hk'.
    - intros Hk. destruct Hp as [(Hk' & _)|[(_ & _ & ?)|(Hk' & _)]]; [by rewrite Hk in Hk'|done|by rewrite Hk in Hk'].
    - intros Hk st Hst. apply load_states_lookup in Hst as (_ & row & Hrow & <-).
      exists row. split; [done|]. by apply (Hclosed e). }
  apply (run_tx_spec core_eq _ _ (core_eq db1) (λ r _, quiet empty_result r)) in H2
    as [(Ho & He & Hc) Hr]; [|reflexivity|by apply batch_body_core].
  destruct (Hr _ eq_refl) as (-> & -> & -> & -> & ->). done.
Qed.
End properties.

(** ** Concrete runs *)

Module StoreDemo.

Definition row (machine status : Z) (kind : option string) : CommandRow :=
  MkCommandRow 1 (Some machine) 1 "" "" "" false status kind None None 0 None None "" "" "{}" "{}" "" 0 0 None.

(** Command 2 runs on machine 7, 3 was reaped there, 4 belongs to machine 8. *)
Definition db0 : DB := MkDB
  (<[2%N := row 7 CommandStatusRunning None]>
   (<[3%N := row 7 CommandStatusFailed (Some CommandFailureKindMachineUnreachable)]>
    (<[4%N := row 8 CommandStatusRunning None]> ∅))) ∅ ∅ ∅ ∅.

Definition progress (id : UUID) (seq : Z) : CommandUploadEntry :=
  MkUploadEntry id UploadKindProgress seq (Some 5) 1 "out" 0 "" "" 0 0 0 0 0 false 0 0 "" "" "" 0.
Definition result (id : UUID) (exit : Z) (summary json : string) : CommandUploadEntry :=
  MkUploadEntry id UploadKindResult 1 (Some 9) 0 "" 0 "" "" 0 0 0 0 0 false exit 3 "" summary json 1.

Definition batch : list CommandUploadEntry :=
  [progress 2%N 1; progress 4%N 1; result 2%N 0 "" ""; result 3%N 0 "done" "{}"; progress 2%N 0].

Definition sv : Server := test_server [].
#[local] Existing Instance sv.

Definition run1 : DB * res sqlerr CommandUploadBatchResult := ApplyCommandUploadBatch id 7 100 batch db0.

Definition result_of (r : res sqlerr CommandUploadBatchResult) : CommandUploadBatchResult :=
  match r with Ok x => x | Err _ => empty_result end.

Definition ans1 : CommandUploadBatchResult := Eval vm_compute in result_of run1.2.
Definition db1 : DB := Eval vm_compute in run1.1.
Definition run2 : DB * res sqlerr CommandUploadBatchResult := ApplyCommandUploadBatch id 7 200 batch db1.
Definition ans2 : CommandUploadBatchResult := Eval vm_compute in result_of run2.2.
Definition db2 : DB := Eval vm_compute in run2.1.

Lemma run1_eq : ApplyCommandUploadBatch id 7 100 batch db0 = (db1, Ok ans1).
Proof. vm_compute. reflexivity. Qed.

Lemma run2_eq : ApplyCommandUploadBatch id 7 200 batch db1 = (db2, Ok ans2).
Proof. vm_compute. reflexivity. Qed.

Lemma upload_batch_answer_witness :
  NoDup (ua_CommandID <$> br_Acks ans1) ∧ length (br_Rejected ans1) = 2%nat.
Proof.
  pose proof (upload_batch_answer id 7 100 batch db0 db1 (Ok ans1) run1_eq) as [H _].
  split; [exact H|reflexivity].
Defined.

Lemma upload_respects_anchor_witness :
  match db_command db0 !! 3%N, db_command db1 !! 3%N with
  | Some row, Some row' => outcome_le row row' ∧ c_last_ack_seq row ≤ c_last_ack_seq row' ∧
                           identity row' = identity row
  | None, None => True
  | _, _ => False
  end.
Proof. exact (upload_respects_anchor id 7 100 batch db0 db1 (Ok ans1) 3%N run1_eq). Defined.

Lemma upload_touches_only_own_witness : db_command db1 !! 4%N = db_command db0 !! 4%N.
Proof.
  apply (proj1 (upload_touches_only_own id 7 100 batch db0 db1 (Ok ans1) run1_eq) 4%N).
  intros r [= <-]. discriminate.
Defined.

Lemma retransmitted_batch_is_noop_witness :
  br_InsertedOutputs ans2 = [] ∧ br_Terminals ans2 = [] ∧ br_InsertedOutputs ans1 ≠ [].
Proof.
  destruct (retransmitted_batch_is_noop 7 100 200 batch db0 db1 db2 ans1 ans2 run1_eq run2_eq)
    as (H1 & _ & H3 & _).
  split; [exact H1|]. split; [exact H3|discriminate].
Defined.
End StoreDemo.
