(* ===== verification/CommandOps.v ===== *)
(** The single-statement operations of [backend/manager/store/command.go]:
    creating, linking, reading, updating, reaping and cancelling commands. *)

From stdpp Require Import base list strings numbers gmap sets sorting.
From S2P Require Import Prelude Db CommandStore.
Local Open Scope Z_scope.

(** [CommandMessage]; the joined columns are the agent's resource id and the
    principal's name. *)
Record CommandMessage := MkCommandMessage {
  cm_ID : UUID;
  cm_AgentID : Z;
  cm_AgentResourceID : string;
  cm_MachineID : Z;
  cm_PrincipalID : Z;
  cm_PrincipalName : string;
  cm_Command : string;
  cm_Instruction : string;
  cm_Profile : string;
  cm_AllowDiff : bool;
  cm_Status : Z;
  cm_ExitCode : option Z;
  cm_DurationMs : option Z;
  cm_CreatedAt : Z;
  cm_StartedAt : option Z;
  cm_CompletedAt : option Z;
  cm_ErrorMessage : string;
  cm_FinalSummary : string;
  cm_ResultJSON : string;
  cm_Env : string;
  cm_WorkingDir : string;
  cm_TimeoutSeconds : Z;
  cm_LastAckSeq : Z;
  cm_ConversationID : option UUID
}.

Record FindCommandMessage := MkFind {
  f_AgentID : option Z; f_Status : option Z; f_Limit : option Z; f_Offset : option Z }.

Record RunningCommandInfo := MkRunningInfo {
  rci_AgentID : Z; rci_CommandID : UUID; rci_EventType : Z; rci_Summary : option string }.

Record CancelledCommand := MkCancelled { cc_ID : UUID; cc_AgentID : Z }.

Definition coerceEnvJSON (env : string) : string := if String.eqb env "" then "{}" else env.

Section ops.
Context {Sv : Server}.
(** The joined tables [agent] and [principal]. *)
Context (agent_resource principal_name : Z → string).

(** One statement in its own transaction; [n] is its number in the session. *)
Definition exec1 {A} (n : nat) (q : string) (f : DB → res sqlerr (DB * A)) (db : DB)
    : DB * res sqlerr A :=
  if fails n q then (db, Err (ErrServer q)) else
  match f db with Ok (db', a) => (db', Ok a) | Err e => (db, Err e) end.

(** [id] and [createdAt] are the server's [gen_random_uuid()] and [now()]. *)
Definition CreateCommand (id : UUID) (createdAt : Z) (cmd : CommandMessage) (db : DB)
    : DB * res sqlerr CommandMessage :=
  let env := coerceEnvJSON (cm_Env cmd) in
  let machineID := if 0 <? cm_MachineID cmd then Some (cm_MachineID cmd) else None in
  run_tx 0 (
    tx_stmt "INSERT INTO command" (λ db,
      match db_command db !! id with
      | Some _ => Err ErrUnique
      | None => Ok (set_command (<[id := MkCommandRow (cm_AgentID cmd) machineID (cm_PrincipalID cmd)
          (cm_Command cmd) (cm_Instruction cmd) (cm_Profile cmd) (cm_AllowDiff cmd) (cm_Status cmd)
          None None None createdAt None None "" "" "{}" env (cm_WorkingDir cmd)
          (cm_TimeoutSeconds cmd) 0 (cm_ConversationID cmd)]> (db_command db)) db, tt)
      end);;
    mret (MkCommandMessage id (cm_AgentID cmd) "" (cm_MachineID cmd) (cm_PrincipalID cmd) ""
      (cm_Command cmd) (cm_Instruction cmd) (cm_Profile cmd) (cm_AllowDiff cmd) (cm_Status cmd)
      None None createdAt None None "" "" "" env (cm_WorkingDir cmd) (cm_TimeoutSeconds cmd) 0
      (cm_ConversationID cmd))) db.

Definition LinkCommandConversation (commandID conversationID : UUID) (db : DB) : DB * res sqlerr unit :=
  match exec1 0 "INSERT INTO command_conversation" (λ db,
      match db_command db !! commandID with
      | None => Err (ErrServer "foreign key")
      | Some _ => Ok (set_conversation ({[(commandID, conversationID)]} ∪ db_conversation db) db, tt)
      end) db with
  | (db1, Err e) => (db1, Err e)
  | (db1, Ok _) =>
      match exec1 1 "UPDATE command SET conversation_id" (λ db,
          Ok (update_where commandID (λ r, bool_decide (c_conversation_id r = None))
                (set_conversation_id (Some conversationID)) db)) db1 with
      | (db2, Err e) => (db2, Err e)
      | (db2, Ok _) => (db2, Ok tt)
      end
  end.

(** [members]: the rows of [conversation_member_meta]. *)
Definition IsCommandConversationMember (members : gset (UUID * Z * string)) (commandID : UUID)
    (memberType : Z) (memberID : string) (db : DB) : res sqlerr bool :=
  if fails 0 "SELECT EXISTS" then Err (ErrServer "SELECT EXISTS") else
  Ok (existsb (λ p, bool_decide (p.1 = commandID) &&
                    bool_decide ((p.2, memberType, memberID) ∈ members))
        (elements (db_conversation db))).

(** The shared column list and scan; it does not read [machine_id]. *)
Definition scan_command (id : UUID) (r : CommandRow) : CommandMessage :=
  MkCommandMessage id (c_agent_id r) (agent_resource (c_agent_id r)) 0 (c_principal_id r)
    (principal_name (c_principal_id r)) (c_command r) (c_instruction r) (c_profile r)
    (c_allow_diff r) (c_status r) (c_exit_code r) (c_duration_ms r) (c_created_at r)
    (c_started_at r) (c_completed_at r) (c_error_message r) (c_final_summary r) (c_result_json r)
    (c_env r) (c_working_dir r) (c_timeout_seconds r) (c_last_ack_seq r) (c_conversation_id r).

Definition GetCommand (id : UUID) (db : DB) : res sqlerr CommandMessage :=
  if fails 0 "SELECT command" then Err (ErrServer "SELECT command") else
  match db_command db !! id with
  | Some r => Ok (scan_command id r)
  | None => Err ErrNoRows
  end.

Definition created_desc (a b : CommandMessage) : Prop := cm_CreatedAt b ≤ cm_CreatedAt a.
Definition created_asc (a b : CommandMessage) : Prop := cm_CreatedAt a ≤ cm_CreatedAt b.
#[local] Instance created_desc_dec : RelDecision created_desc.
Proof. intros a b. unfold created_desc. apply _. Defined.
#[local] Instance created_asc_dec : RelDecision created_asc.
Proof. intros a b. unfold created_asc. apply _. Defined.

(** [SELECT ... WHERE p]. *)
Definition select_commands (p : CommandRow → bool) (db : DB) : list CommandMessage :=
  omap (λ q, if p q.2 then Some (scan_command q.1 q.2) else None) (map_to_list (db_command db)).

Definition opt_eq (o : option Z) (x : Z) : bool :=
  match o with Some v => x =? v | None => true end.

Definition ListCommands (find : FindCommandMessage) (db : DB) : res sqlerr (list CommandMessage) :=
  if fails 0 "SELECT command" then Err (ErrServer "SELECT command") else
  let rows := merge_sort created_desc
    (select_commands (λ r, opt_eq (f_AgentID find) (c_agent_id r) &&
                           opt_eq (f_Status find) (c_status r)) db) in
  match f_Offset find, f_Limit find with
  | Some o, _ => if o <? 0 then Err (ErrServer "OFFSET must not be negative") else
      match f_Limit find with
      | Some l => if l <? 0 then Err (ErrServer "LIMIT must not be negative")
                  else Ok (take (Z.to_nat l) (drop (Z.to_nat o) rows))
      | None => Ok (drop (Z.to_nat o) rows)
      end
  | None, Some l => if l <? 0 then Err (ErrServer "LIMIT must not be negative")
                    else Ok (take (Z.to_nat l) rows)
  | None, None => Ok rows
  end.

(** The SET list grows with the arguments: each placeholder is [len(args)+1]. *)
Definition add_set (x : option (CommandRow → CommandRow)) (sets : list (nat * (CommandRow → CommandRow)))
    : list (nat * (CommandRow → CommandRow)) :=
  match x with Some f => sets ++ [(S (length sets), f)] | None => sets end.

(** [UPDATE command SET sets WHERE id = $len(args)] with the id as last argument. *)
Definition exec_sets (sets : list (nat * (CommandRow → CommandRow))) (id : UUID) : TM unit :=
  tx_bind (sets.*1 ++ [S (length sets)]) (S (length sets));;
  _ ← tx_stmt "UPDATE command SET" (λ db, Ok (update_where id (λ _, true) (apply_sets sets) db));
  mret tt.

Definition UpdateCommandStatus (id : UUID) (status : Z) (startedAt completedAt exitCode durationMs : option Z)
    (errorMsg : string) (db : DB) : DB * res sqlerr unit :=
  let sets := [(1%nat, set_status status)] in
  let sets := add_set ((λ x, set_started_at (Some x)) <$> startedAt) sets in
  let sets := add_set ((λ x, set_completed_at (Some x)) <$> completedAt) sets in
  let sets := add_set ((λ x, set_exit_code (Some x)) <$> exitCode) sets in
  let sets := add_set ((λ x, set_duration_ms (Some x)) <$> durationMs) sets in
  let sets := add_set (if String.eqb errorMsg "" then None else Some (set_error_message errorMsg)) sets in
  run_tx 0 (exec_sets sets id) db.

Definition UpdateCommandAckSeq (id : UUID) (seq : Z) (db : DB) : DB * res sqlerr bool :=
  exec1 0 "UPDATE command SET last_ack_seq" (λ db,
    Ok (update_where id (λ _, true) (set_last_ack_seq seq) db)) db.

Definition summary_sets (finalSummary resultJSON : string) : list (nat * (CommandRow → CommandRow)) :=
  add_set (if String.eqb resultJSON "" then None else Some (set_result_json resultJSON))
    (add_set (if String.eqb finalSummary "" then None else Some (set_final_summary finalSummary)) []).

Definition UpdateCommandResultSummary (id : UUID) (finalSummary resultJSON : string) (db : DB)
    : DB * res sqlerr unit :=
  let sets := summary_sets finalSummary resultJSON in
  if bool_decide (length sets = 0%nat) then (db, Ok tt) else run_tx 0 (exec_sets sets id) db.

Definition AppendCommandOutput (cmdID : UUID) (seqNo streamType : Z) (content : string) (createdAt : Z)
    (db : DB) : DB * res sqlerr unit :=
  exec1 0 "INSERT INTO command_output" (λ db,
    match db_command db !! cmdID with
    | None => Err (ErrServer "foreign key")
    | Some _ => Ok (set_output (insert_ignore (cmdID, seqNo) (MkOutputRow streamType content createdAt)
                      (db_output db)).1 db, tt)
    end) db.

Definition AppendCommandEvent (event : CommandEventMessage) (db : DB) : DB * res sqlerr unit :=
  exec1 0 "INSERT INTO command_event" (λ db,
    match db_command db !! cem_CommandID event with
    | None => Err (ErrServer "foreign key")
    | Some _ => Ok (set_event (insert_ignore (cem_CommandID event, cem_SeqNo event)
        (MkEventRow (cem_EventType event) (cem_Summary event) (cem_PayloadJSON event)) (db_event db)).1 db, tt)
    end) db.

Definition seq_le (a b : CommandOutputMessage) : Prop := com_SeqNo a ≤ com_SeqNo b.
#[local] Instance seq_le_dec : RelDecision seq_le.
Proof. intros a b. unfold seq_le. apply _. Defined.
Definition eseq_le (a b : CommandEventMessage) : Prop := cem_SeqNo a ≤ cem_SeqNo b.
#[local] Instance eseq_le_dec : RelDecision eseq_le.
Proof. intros a b. unfold eseq_le. apply _. Defined.

Definition GetCommandOutput (cmdID : UUID) (afterSeq : Z) (db : DB)
    : res sqlerr (list CommandOutputMessage) :=
  if fails 0 "SELECT command_output" then Err (ErrServer "SELECT command_output") else
  Ok (merge_sort seq_le (omap (λ p : (UUID * Z) * OutputRow,
    if bool_decide (p.1.1 = cmdID) && (afterSeq <? p.1.2)
    then Some (MkOutputMessage p.1.1 p.1.2 (o_stream_type p.2) (o_content p.2) (o_created_at p.2))
    else None) (map_to_list (db_output db)))).

(** The event rows' insertion times are not modelled: [eventTime]. *)
Definition GetCommandEvents (eventTime : UUID * Z → Z) (cmdID : UUID) (afterSeq : Z) (db : DB)
    : res sqlerr (list CommandEventMessage) :=
  if fails 0 "SELECT command_event" then Err (ErrServer "SELECT command_event") else
  Ok (merge_sort eseq_le (omap (λ p : (UUID * Z) * EventRow,
    if bool_decide (p.1.1 = cmdID) && (afterSeq <? p.1.2)
    then Some (MkEventMessage p.1.1 p.1.2 (ev_event_type p.2) (ev_summary p.2) (ev_payload_json p.2)
                 (eventTime p.1))
    else None) (map_to_list (db_event db)))).

Definition GetRunningCommand (agentID : Z) (db : DB) : res sqlerr (option CommandMessage) :=
  if fails 0 "SELECT command" then Err (ErrServer "SELECT command") else
  Ok (head (merge_sort created_desc (select_commands
    (λ r, (c_agent_id r =? agentID) && (c_status r =? 2)) db))).

Definition ListPendingCommandsByAgent (agentID : Z) (db : DB) : res sqlerr (list CommandMessage) :=
  if fails 0 "SELECT command" then Err (ErrServer "SELECT command") else
  Ok (merge_sort created_asc (select_commands
    (λ r, (c_agent_id r =? agentID) && (c_status r =? 1)) db)).

Definition RecordCommandTokenUsage (e : CommandUploadEntry) (db : DB) : DB * res sqlerr unit :=
  match exec1 0 "SELECT agent_id, principal_id, machine_id" (λ db,
      match db_command db !! ue_CommandID e with
      | Some r => Ok (db, (c_agent_id r, c_principal_id r, c_machine_id r))
      | None => Err ErrNoRows
      end) db with
  | (db1, Err e) => (db1, Err e)
  | (db1, Ok (agentID, principalID, machineID)) =>
      exec1 1 "INSERT INTO command_token_usage" (λ db,
        Ok (set_token (insert_ignore (ue_CommandID e)
          (MkTokenRow agentID principalID machineID (ue_InputTokens e) (ue_OutputTokens e)
             (ue_CacheReadTokens e) (ue_CacheWriteTokens e) (ue_TotalTokens e)) (db_token db)).1 db, tt)) db1
  end.

Definition ReapRunningCommand (commandID : UUID) (completedAt : Z) (errorMsg failureKind : string)
    (db : DB) : DB * res sqlerr bool :=
  exec1 0 "reapRunningCommandSQL" (λ db, Ok (update_where commandID
    (λ r, c_status r =? CommandStatusRunning)
    (λ r, set_failure_kind (Some failureKind) (set_error_message errorMsg
       (set_completed_at (Some completedAt) (set_status CommandStatusFailed r)))) db)) db.

(** The latest event of a command: [ORDER BY seq_no DESC LIMIT 1]. *)
Definition latest_event (id : UUID) (db : DB) : option EventRow :=
  match event_seqs id db with
  | [] => None
  | x :: xs => db_event db !! (id, foldr Z.max x xs)
  end.

(** A command without events has a NULL event type, which the scan into an
    [int32] refuses. *)
Fixpoint scan_running (rows : list (UUID * CommandRow)) (db : DB) : res sqlerr (list RunningCommandInfo) :=
  match rows with
  | [] => Ok []
  | (id, r) :: rows' =>
      match latest_event id db with
      | None => Err (ErrDriver "converting NULL to int32 is unsupported")
      | Some ev =>
          match scan_running rows' db with
          | Ok l => Ok (MkRunningInfo (c_agent_id r) id (ev_event_type ev) (Some (ev_summary ev)) :: l)
          | Err e => Err e
          end
      end
  end.

Definition GetRunningCommandsForConversation (agentIDs : list Z) (conversationID : UUID) (db : DB)
    : res sqlerr (list RunningCommandInfo) :=
  match agentIDs with
  | [] => Ok []
  | _ =>
      if fails 0 "SELECT running" then Err (ErrServer "SELECT running") else
      scan_running (omap (λ p : UUID * CommandRow,
        if bool_decide (c_agent_id p.2 ∈ agentIDs) && (c_status p.2 =? 2)
           && bool_decide ((p.1, conversationID) ∈ db_conversation db)
        then Some p else None) (map_to_list (db_command db))) db
  end.

Definition cancellable (machineID : Z) (r : CommandRow) : bool :=
  (default 0 (c_machine_id r) =? machineID) && is_open r.

Definition CancelRunningCommandsForMachine (machineID : Z) (db : DB)
    : DB * res sqlerr (list CancelledCommand) :=
  exec1 0 "cancelRunningForMachineSQL" (λ db,
    Ok (set_command ((λ r, if cancellable machineID r then set_status CommandStatusCancelled r else r)
          <$> db_command db) db,
        omap (λ p : UUID * CommandRow, if cancellable machineID p.2
          then Some (MkCancelled p.1 (c_agent_id p.2)) else None) (map_to_list (db_command db)))) db.
End ops.

(** ** Properties *)

Section properties.
Context {Sv : Server} {SL : ServerLaws Sv}.

(** Placeholders numbered by position are always accepted. *)
Definition numbered (sets : list (nat * (CommandRow → CommandRow))) : Prop :=
  sets.*1 = seq 1 (length sets).

Lemma add_set_numbered x sets : numbered sets → numbered (add_set x sets).
Proof.
  unfold numbered, add_set. destruct x; [|done]. intros H.
  by rewrite fmap_app, H, length_app, seq_app.
Qed.

Lemma numbered_binds sets : numbered sets → bind_ok (sets.*1 ++ [S (length sets)]) (S (length sets)) = true.
Proof.
  intros ->. apply bind_exact. intros k.
  rewrite elem_of_app, elem_of_seq, list_elem_of_singleton. lia.
Qed.

Lemma summary_sets_numbered fs rj : numbered (summary_sets fs rj).
Proof. unfold summary_sets. by repeat apply add_set_numbered. Qed.

(** The transaction's own statement is accepted only with both columns. *)
Lemma summary_tx_binds fs rj :
  let sets := summary_sets_tx fs rj in
  sets ≠ [] → bind_ok (sets.*1 ++ [3%nat]) (length sets + 1) = true ↔ fs ≠ ""%string ∧ rj ≠ ""%string.
Proof.
  unfold summary_sets_tx.
  destruct (String.eqb_spec fs ""), (String.eqb_spec rj ""); simpl; intros Hne; try done.
  - split; [|naive_solver]. rewrite bind_exact. intros Hk. specialize (Hk 3%nat).
    assert (3 ∈ [2; 3])%nat as H3 by set_solver. apply Hk in H3. lia.
  - split; [|naive_solver]. rewrite bind_exact. intros Hk. specialize (Hk 3%nat).
    assert (3 ∈ [1; 3])%nat as H3 by set_solver. apply Hk in H3. lia.
  - split; [done|]. intros _. apply bind_exact. intros k.
    rewrite !elem_of_cons, elem_of_nil. lia.
Qed.

Definition one_summary (e : CommandUploadEntry) : Prop :=
  (ue_FinalSummary e = ""%string ∧ ue_ResultJSON e ≠ ""%string) ∨
  (ue_FinalSummary e ≠ ""%string ∧ ue_ResultJSON e = ""%string).

Lemma summary_one_fails e s s' r :
  one_summary e →
  updateCommandResultSummaryTx (ue_CommandID e) (ue_FinalSummary e) (ue_ResultJSON e) s = (s', Ok r) → False.
Proof.
  intros Ho. unfold updateCommandResultSummaryTx.
  assert (summary_sets_tx (ue_FinalSummary e) (ue_ResultJSON e) ≠ []) as Hne.
  { unfold summary_sets_tx. destruct Ho as [[-> Hn]|[Hn ->]]; simpl;
      by apply String.eqb_neq in Hn as ->. }
  rewrite bool_decide_eq_false_2 by (by destruct (summary_sets_tx _ _)).
  intros Hr. apply bind_ok_inv in Hr as (s1 & [] & Hr & _). revert Hr. unfold tx_bind.
  destruct (tx_aborted s); [done|]. destruct (bind_ok _ _) eqn:Eb; [|done].
  apply (summary_tx_binds _ _ Hne) in Eb. destruct Ho; naive_solver.
Qed.

Lemma apply_entries_one_fails states machineID now es e a s s' r :
  e ∈ es → verdict states machineID e = None → ue_Kind e = UploadKindResult → one_summary e →
  apply_entries states machineID now es a s = (s', Ok r) → False.
Proof.
  intros Hin Hv Hk Ho. revert a s. induction es as [|e' es IH]; intros a s Hr; [by apply elem_of_nil in Hin|].
  simpl in Hr. apply bind_ok_inv in Hr as (s1 & a1 & H1 & H2).
  apply elem_of_cons in Hin as [->|Hin]; [|by eapply IH].
  destruct (verdict_None _ _ _ Hv) as [(st & Hst & _) _].
  rewrite (apply_entry_result _ _ _ _ _ _ Hv Hk Hst) in H1. destruct a as [r0 m].
  apply bind_ok_inv in H1 as (s2 & r2 & _ & H1). apply bind_ok_inv in H1 as (s3 & [] & H1 & _).
  by eapply summary_one_fails.
Qed.

(** The result summary's statement.  The standalone update numbers its
    placeholders by position and is always accepted by the driver; the one used
    inside a batch says [$1], [$2] and [$3] whatever it sets, so it is accepted
    only with both columns, and one owned result that carries just a final
    summary or just a result makes its whole batch fail, every time. *)
Theorem single_summary_blocks_batch others machineID now entries db e fs rj :
  e ∈ entries → verdict (batch_states entries db) machineID e = None →
  ue_Kind e = UploadKindResult → one_summary e →
  is_ok (ApplyCommandUploadBatch others machineID now entries db).2 = false ∧
  let sets := summary_sets fs rj in
  bind_ok (sets.*1 ++ [S (length sets)]) (S (length sets)) = true.
Proof.
  intros Hin Hv Hk Ho. split; [|apply numbered_binds, summary_sets_numbered].
  destruct (ApplyCommandUploadBatch _ _ _ _ _) as [db' [res|err]] eqn:Eb; [|done].
  apply ApplyCommandUploadBatch_run in Eb as [(_ & [[-> _]|?])|Hb]; [by apply elem_of_nil in Hin|done|].
  exfalso. unfold run_tx in Hb. destruct (batch_body _ _ _ _ _) as [s [r|?]] eqn:Ebody; [|done].
  apply bind_ok_inv in Ebody as (s1 & [r1 m] & H1 & _). by eapply apply_entries_one_fails.
Qed.

(** The reaper's and the disconnect's guards.  A reap reports true exactly
    for a RUNNING row, which it fails with its kind; a machine's cancel cancels
    exactly its PENDING and RUNNING rows and returns exactly those; every other
    row is left as it was, and a later upload finds a cancelled row final. *)
Theorem reap_and_cancel_guards id completedAt msg kind machineID db db1 db2 b cancelled :
  ReapRunningCommand id completedAt msg kind db = (db1, Ok b) →
  CancelRunningCommandsForMachine machineID db = (db2, Ok cancelled) →
  (b = true ↔ ∃ r, db_command db !! id = Some r ∧ c_status r = CommandStatusRunning) ∧
  (∀ i r, db_command db !! i = Some r → ∃ r', db_command db1 !! i = Some r' ∧
    if bool_decide (i = id) && (c_status r =? CommandStatusRunning)
    then c_status r' = CommandStatusFailed ∧ c_failure_kind r' = Some kind ∧ identity r' = identity r
    else r' = r) ∧
  (∀ i r, db_command db !! i = Some r → ∃ r', db_command db2 !! i = Some r' ∧
    if cancellable machineID r
    then r' = set_status CommandStatusCancelled r ∧ is_open r' = false ∧ is_unreachable r' = false ∧
         MkCancelled i (c_agent_id r) ∈ cancelled
    else r' = r ∧ MkCancelled i (c_agent_id r) ∉ cancelled).
Proof.
  unfold ReapRunningCommand, CancelRunningCommandsForMachine, exec1. intros H1 H2.
  destruct (fails 0 "reapRunningCommandSQL"); [done|]. destruct (fails 0 _); [done|].
  destruct (update_where _ _ _ db) as [dbx bx] eqn:Eu. injection H1 as <- <-.
  injection H2 as <- <-. split; [|split].
  - revert Eu. unfold update_where. destruct (db_command db !! id) as [r|] eqn:Er.
    + destruct (Z.eqb_spec (c_status r) CommandStatusRunning); intros [= _ <-]; split; eauto; [done|].
      intros (r' & [= <-] & ?). done.
    + intros [= _ <-]. split; [done|]. by intros (? & ? & _).
  - intros i r Hr. apply update_where_lookup in Eu as (_ & _ & _ & _ & Hl). rewrite Hl, Hr.
    case_bool_decide; simpl; [|eauto]. eexists. split; [done|].
    by destruct (c_status r =? CommandStatusRunning).
  - intros i r Hr. simpl. exists (if cancellable machineID r then set_status CommandStatusCancelled r else r).
    rewrite lookup_fmap, Hr. split; [done|].
    set (l := omap _ _).
    assert (MkCancelled i (c_agent_id r) ∈ l ↔ cancellable machineID r = true) as Hin.
    { subst l. rewrite list_elem_of_omap. split.
      - intros ([j q] & Hj & Hq). apply elem_of_map_to_list in Hj. simpl in Hq.
        destruct (cancellable machineID q) eqn:Ec; [|done]. injection Hq as -> _. congruence.
      - intros Hc. exists (i, r). split; [by apply elem_of_map_to_list|]. simpl. by rewrite Hc. }
    destruct (cancellable machineID r) eqn:Ec; [|split; [done|by rewrite Hin]].
    split; [done|]. split; [done|]. split; [done|]. by apply Hin.
Qed.

Context (agent_resource principal_name : Z → string).

Lemma ListCommands_rows find db l :
  ListCommands agent_resource principal_name find db = Ok l →
  ∀ c, c ∈ l → cm_MachineID c = 0 ∧ ∃ r, db_command db !! cm_ID c = Some r ∧ cm_Status c = c_status r.
Proof.
  unfold ListCommands. destruct (fails 0 _); [done|]. intros Hl.
  set (rows := merge_sort _ _) in Hl.
  assert (∀ c, c ∈ l → c ∈ rows) as Hsub.
  { intros c Hc. destruct (f_Offset find) as [o|], (f_Limit find) as [n|]; simpl in Hl;
      repeat (match type of Hl with context [if ?b then _ else _] => destruct b end; try done);
      injection Hl as <-; eauto using subseteq_take, subseteq_drop.
    apply subseteq_take in Hc. by apply subseteq_drop in Hc.
    all: first [by apply subseteq_take in Hc|by apply subseteq_drop in Hc]. }
  intros c Hc. apply Hsub in Hc. subst rows. rewrite merge_sort_Permutation in Hc.
  unfold select_commands in Hc. apply list_elem_of_omap in Hc as ([i r] & Hin & Hc).
  apply elem_of_map_to_list in Hin. simpl in Hc. destruct (_ && _); [|done]. injection Hc as <-.
  split; [done|]. by exists r.
Qed.

(** A listed or fetched command never carries its machine: the shared column
    list leaves [machine_id] out, so MachineID is 0 whatever the row says. *)
Theorem listed_commands_lose_machine find db l id cmd :
  ListCommands agent_resource principal_name find db = Ok l →
  GetCommand agent_resource principal_name id db = Ok cmd →
  cm_MachineID cmd = 0 ∧ ∀ c, c ∈ l → cm_MachineID c = 0 ∧
    ∃ r, db_command db !! cm_ID c = Some r ∧ cm_Status c = c_status r.
Proof.
  intros Hl Hg. split; [|by eapply ListCommands_rows]. revert Hg. unfold GetCommand.
  destruct (fails 0 _); [done|]. destruct (db_command db !! id); [|done]. by intros [= <-].
Qed.

(** The stored output of a command reads back.  GetCommandOutput returns, in
    strictly increasing sequence order, exactly the rows of the command past the
    cursor; an append that succeeds makes its row readable unless the sequence
    number was taken, and then the stored row stands. *)
Theorem output_roundtrip cmdID seq type content at_ after db db' out :
  AppendCommandOutput cmdID seq type content at_ db = (db', Ok tt) →
  GetCommandOutput cmdID after db' = Ok out →
  Sorted seq_le out ∧ NoDup (com_SeqNo <$> out) ∧
  (∀ m, m ∈ out ↔ com_CommandID m = cmdID ∧ after < com_SeqNo m ∧
     db_output db' !! (cmdID, com_SeqNo m)
       = Some (MkOutputRow (com_StreamType m) (com_Content m) (com_CreatedAt m))) ∧
  db_output db' !! (cmdID, seq) =
    Some (default (MkOutputRow type content at_) (db_output db !! (cmdID, seq))).
Proof.
  unfold AppendCommandOutput, GetCommandOutput, exec1. intros Ha Hg.
  destruct (fails 0 "SELECT command_output"); [done|]. injection Hg as <-.
  destruct (fails 0 _); [done|]. destruct (db_command db !! cmdID); [|done].
  destruct (insert_ignore _ _ _) as [m' n] eqn:Ei. injection Ha as <-. simpl.
  apply insert_ignore_spec in Ei as (_ & _ & _ & Hi).
  split; [apply Sorted_merge_sort; intros a b; unfold seq_le; lia|].
  set (rows := omap _ _).
  assert (∀ x, x ∈ rows ↔ com_CommandID x = cmdID ∧ after < com_SeqNo x ∧
    m' !! (cmdID, com_SeqNo x)
       = Some (MkOutputRow (com_StreamType x) (com_Content x) (com_CreatedAt x))) as Hrows.
  { intros x. subst rows. rewrite list_elem_of_omap. split.
    - intros ([[i q] row] & Hin & Hx). apply elem_of_map_to_list in Hin. simpl in Hx.
      case_bool_decide; [|done]. destruct (Z.ltb_spec after q); [|done]. injection Hx as <-.
      subst i. simpl. destruct row. done.
    - intros (Hid & Hq & Hx). eexists. rewrite elem_of_map_to_list. split; [exact Hx|]. simpl.
      rewrite bool_decide_eq_true_2 by done. rewrite (proj2 (Z.ltb_lt _ _) Hq). simpl.
      rewrite <-Hid. by destruct x. }
  split; [|split].
  - rewrite merge_sort_Permutation. subst rows.
    pose proof (NoDup_fst_map_to_list m') as Hn. revert Hn. generalize (map_to_list m').
    intros l. induction l as [|[[i q] row] l IH]; simpl; [constructor|].
    intros [Hni Hn]%NoDup_cons. case_bool_decide as Hcid; [|by apply IH].
    destruct (after <? q); simpl; [|by apply IH]. constructor; [|by apply IH].
    contradict Hni. apply list_elem_of_fmap in Hni as (x & -> & Hx).
    apply list_elem_of_omap in Hx as ([[i' q'] row'] & Hin & Hx). simpl in Hx.
    case_bool_decide; [|done]. destruct (after <? q'); [|done]. injection Hx as <-. simpl.
    apply list_elem_of_fmap. exists ((i', q'), row'). subst. done.
  - intros x. rewrite merge_sort_Permutation. apply Hrows.
  - destruct Hi as [(-> & _ & ->)|([x Hx] & _ & ->)].
    + by rewrite lookup_insert_eq.
    + by rewrite Hx.
Qed.
End properties.

(** ** Concrete runs *)

Module OpsDemo.
Import StoreDemo.
#[local] Existing Instance sv.
#[local] Existing Instance test_server_laws.

Lemma single_summary_blocks_batch_witness :
  is_ok (ApplyCommandUploadBatch id 7 100 [progress 2%N 1; result 2%N 0 "done" ""] db0).2 = false ∧
  is_ok (ApplyCommandUploadBatch id 7 100 [progress 2%N 1; result 2%N 0 "done" "{}"] db0).2 = true.
Proof.
  split; [|vm_compute; reflexivity].
  apply (single_summary_blocks_batch (SL:=test_server_laws []) id 7 100
    [progress 2%N 1; result 2%N 0 "done" ""] db0 (result 2%N 0 "done" "") "" "");
    [right; left|vm_compute; reflexivity|reflexivity|right; split; [discriminate|reflexivity]].
Defined.

Lemma reap_and_cancel_guards_witness :
  true = true ↔ ∃ r, db_command db0 !! 2%N = Some r ∧ c_status r = CommandStatusRunning.
Proof.
  apply (reap_and_cancel_guards 2%N 50 "lost" CommandFailureKindMachineUnreachable 7 db0
    (ReapRunningCommand 2%N 50 "lost" CommandFailureKindMachineUnreachable db0).1
    (CancelRunningCommandsForMachine 7 db0).1 true [MkCancelled 2%N 1]);
    vm_compute; reflexivity.
Defined.

Definition names (_ : Z) : string := "n".

Lemma listed_commands_lose_machine_witness :
  (c_machine_id <$> db_command db0 !! 2%N) = Some (Some 7) ∧
  ∃ c, GetCommand names names 2%N db0 = Ok c ∧ cm_MachineID c = 0.
Proof.
  split; [reflexivity|]. eexists. split; [reflexivity|].
  apply (listed_commands_lose_machine names names (MkFind None (Some CommandStatusRunning) None None)
    db0 (match ListCommands names names (MkFind None (Some CommandStatusRunning) None None) db0 with
         | Ok l => l | Err _ => [] end) 2%N); vm_compute; reflexivity.
Defined.

Definition db_a : DB := Eval vm_compute in (AppendCommandOutput (Sv:=sv) 2%N 1 1 "a" 10 db0).1.
Definition db_ac : DB := Eval vm_compute in (AppendCommandOutput (Sv:=sv) 2%N 3 1 "c" 30 db_a).1.
Definition outs : list CommandOutputMessage :=
  [MkOutputMessage 2%N 1 1 "a" 10; MkOutputMessage 2%N 3 1 "c" 30].

Lemma db_ac_eq : AppendCommandOutput (Sv:=sv) 2%N 3 1 "c" 30 db_a = (db_ac, Ok ()).
Proof. vm_compute. reflexivity. Qed.

Lemma outs_eq : GetCommandOutput 2%N 0 db_ac = Ok outs.
Proof. vm_compute. reflexivity. Qed.

Lemma output_roundtrip_witness :
  db_output db_ac !! (2%N, 3) = Some (MkOutputRow 1 "c" 30) ∧ Sorted seq_le outs.
Proof.
  destruct (output_roundtrip 2%N 3 1 "c" 30 0 db_a db_ac outs db_ac_eq outs_eq) as (H1 & _ & _ & H4).
  split; [exact H4|exact H1].
Defined.
End OpsDemo.
