(* ===== verification/Bus.v ===== *)
(** Live fan-out inside the manager
    ([backend/manager/component/dispatcher/command_bus.go],
    [command_tracker.go], [pending_replies.go] and [roomhub/roomhub.go]): Go
    channels as a heap of buffered queues, the command watchers, the tracker of
    each agent's current command, the request/reply table and the room hub.

    Closing a closed channel and sending on a closed one panic in Go; here they
    are [None].  A mutex makes each operation one step. *)

From stdpp Require Import base list strings numbers gmap sets fin_maps.
From S2P Require Import Prelude Db.
Local Open Scope Z_scope.

(** ** Channels *)

Record chan (A : Type) := MkChan { ch_buf : list A; ch_cap : nat; ch_closed : bool }.
Arguments MkChan {A}.
Arguments ch_buf {A}.
Arguments ch_cap {A}.
Arguments ch_closed {A}.

Abbreviation heap A := (gmap nat (chan A)).

(** [select { case ch <- m: default: }]: [Some (h, true)] when it was sent. *)
Definition try_send {A} (c : nat) (m : A) (h : heap A) : option (heap A * bool) :=
  match h !! c with
  | Some ch =>
      if ch_closed ch then None else
      if bool_decide (length (ch_buf ch) < ch_cap ch)%nat
      then Some (<[c := MkChan (ch_buf ch ++ [m]) (ch_cap ch) false]> h, true)
      else Some (h, false)
  | None => None
  end.

Definition close {A} (c : nat) (h : heap A) : option (heap A) :=
  match h !! c with
  | Some ch => if ch_closed ch then None
               else Some (<[c := MkChan (ch_buf ch) (ch_cap ch) true]> h)
  | None => None
  end.

(** A non-blocking receive. *)
Definition try_recv {A} (c : nat) (h : heap A) : heap A * option A :=
  match h !! c with
  | Some ch => match ch_buf ch with
               | m :: b => (<[c := MkChan b (ch_cap ch) (ch_closed ch)]> h, Some m)
               | [] => (h, None)
               end
  | None => (h, None)
  end.

(** [make(chan A, n)] *)
Definition make_chan {A} (n : nat) (h : heap A) : nat * heap A :=
  let c := fresh (dom h : gset nat) in (c, <[c := MkChan [] n false]> h).

(** ** The command bus

    One side of [commandBus] (outputs, or events: the two halves are the same
    code).  A watcher is identified by its channel; the map's value is its
    [dropped] counter. *)

Definition watcherBufSize : nat := 256.

(** [watcher.drop]: count one drop, log when [n & (n-1) == 0]. *)
Definition drop (dropped : Z) : Z * bool :=
  let n := i64 (dropped + 1) in (n, Z.land n (i64 (n - 1)) =? 0).

Section bus.
Context {A : Type}.

Record bus := MkBus {
  b_chans : heap A;
  b_watchers : gmap string (gmap nat Z);
  b_droppedTotal : Z;
  b_logged : Z
}.

Definition newCommandBus : bus := MkBus ∅ ∅ 0 0.

Definition subscribe (commandID : string) (b : bus) : nat * bus :=
  let '(c, h) := make_chan watcherBufSize (b_chans b) in
  (c, MkBus h (<[commandID := <[c := 0]> (default ∅ (b_watchers b !! commandID))]> (b_watchers b))
        (b_droppedTotal b) (b_logged b)).

Definition unsubscribe (commandID : string) (c : nat) (b : bus) : option bus :=
  match b_watchers b !! commandID with
  | None => Some b
  | Some ws =>
      match ws !! c with
      | Some _ =>
          h ← close c (b_chans b);
          let ws' := delete c ws in
          Some (MkBus h (if bool_decide (ws' = ∅) then delete commandID (b_watchers b)
                         else <[commandID := ws']> (b_watchers b)) (b_droppedTotal b) (b_logged b))
      | None =>
          Some (if bool_decide (ws = ∅)
                then MkBus (b_chans b) (delete commandID (b_watchers b)) (b_droppedTotal b) (b_logged b)
                else b)
      end
  end.

(** One iteration of the broadcast loop, for the watcher of channel [c]. *)
Definition broadcast_one (commandID : string) (m : A) (c : nat) (b : bus) : option bus :=
  '(h, sent) ← try_send c m (b_chans b);
  if (sent : bool) then Some (MkBus h (b_watchers b) (b_droppedTotal b) (b_logged b)) else
  let ws := default ∅ (b_watchers b !! commandID) in
  let '(n, log) := drop (default 0 (ws !! c)) in
  Some (MkBus h (<[commandID := <[c := n]> ws]> (b_watchers b)) (b_droppedTotal b + 1)
          (if (log : bool) then b_logged b + 1 else b_logged b)).

Fixpoint broadcast_loop (commandID : string) (m : A) (cs : list nat) (b : bus) : option bus :=
  match cs with
  | [] => Some b
  | c :: cs' => b' ← broadcast_one commandID m c b; broadcast_loop commandID m cs' b'
  end.

Definition broadcast (commandID : string) (m : A) (b : bus) : option bus :=
  broadcast_loop commandID m (map_to_list (default ∅ (b_watchers b !! commandID))).*1 b.

Fixpoint close_all (cs : list nat) (h : heap A) : option (heap A) :=
  match cs with
  | [] => Some h
  | c :: cs' => h' ← close c h; close_all cs' h'
  end.

(** closeOutput, closeEvents *)
Definition close_watchers (commandID : string) (b : bus) : option bus :=
  h ← close_all (map_to_list (default ∅ (b_watchers b !! commandID))).*1 (b_chans b);
  Some (MkBus h (delete commandID (b_watchers b)) (b_droppedTotal b) (b_logged b)).

(** A consumer's receive. *)
Definition receive (c : nat) (b : bus) : bus * option A :=
  let '(h, r) := try_recv c (b_chans b) in
  (MkBus h (b_watchers b) (b_droppedTotal b) (b_logged b), r).
End bus.
Arguments bus : clear implicits.

(** ** commandTracker *)

Abbreviation tracker := (gmap Z string).
Definition tracker_set (agentID : Z) (commandID : string) (t : tracker) : tracker :=
  <[agentID := commandID]> t.
(** A missing key reads as the empty string. *)
Definition tracker_get (agentID : Z) (t : tracker) : string := default ""%string (t !! agentID).
Definition tracker_clear (agentID : Z) (commandID : string) (t : tracker) : tracker :=
  if String.eqb (tracker_get agentID t) commandID then delete agentID t else t.

(** ** pendingReplies *)

Section pending.
Context {A : Type}.

Record pendingReplies := MkPending { p_chans : heap A; p_m : gmap string nat }.

Definition register (requestID : string) (p : pendingReplies) : nat * pendingReplies :=
  let '(c, h) := make_chan 1 (p_chans p) in (c, MkPending h (<[requestID := c]> (p_m p))).
Definition cancel (requestID : string) (p : pendingReplies) : pendingReplies :=
  MkPending (p_chans p) (delete requestID (p_m p)).
Definition complete (requestID : string) (msg : A) (p : pendingReplies) : option pendingReplies :=
  match p_m p !! requestID with
  | None => Some p
  | Some c => '(h, _) ← try_send c msg (p_chans p);
              Some (MkPending h (delete requestID (p_m p)))
  end.
End pending.
Arguments pendingReplies : clear implicits.

(** ** The room hub *)

Record Hub := MkHub { hub_chans : heap unit; hub_waiters : gmap UUID (gset nat) }.

Definition Subscribe (conversationID : UUID) (h : Hub) : nat * Hub :=
  let '(c, hp) := make_chan 1 (hub_chans h) in
  (c, MkHub hp (<[conversationID := {[c]} ∪ default ∅ (hub_waiters h !! conversationID)]> (hub_waiters h))).

Definition Unsubscribe (conversationID : UUID) (c : nat) (h : Hub) : Hub :=
  match hub_waiters h !! conversationID with
  | None => h
  | Some m =>
      let m' := m ∖ {[c]} in
      MkHub (hub_chans h) (if bool_decide (m' = ∅) then delete conversationID (hub_waiters h)
                           else <[conversationID := m']> (hub_waiters h))
  end.

Fixpoint notify_loop (cs : list nat) (hp : heap unit) : option (heap unit) :=
  match cs with
  | [] => Some hp
  | c :: cs' => '(hp', _) ← try_send c tt hp; notify_loop cs' hp'
  end.

Definition NotifyConversation (conversationID : UUID) (h : Hub) : option Hub :=
  hp ← notify_loop (elements (default ∅ (hub_waiters h !! conversationID))) (hub_chans h);
  Some (MkHub hp (hub_waiters h)).

(** ** Lemmas and properties *)

Lemma fresh_chan {A} (h : heap A) c ch : h !! c = Some ch → c ≠ fresh (dom h : gset nat).
Proof.
  intros Hc ->. pose proof (is_fresh (dom h : gset nat)) as Hf.
  rewrite not_elem_of_dom in Hf. congruence.
Qed.

Section spec.
Context {A : Type}.
Implicit Types b : bus A.

(** A live watcher's channel: open, of the bus's capacity. *)
Definition live (h : heap A) (c : nat) : Prop :=
  ∃ ch, h !! c = Some ch ∧ ch_closed ch = false ∧ ch_cap ch = watcherBufSize ∧
    (length (ch_buf ch) ≤ watcherBufSize)%nat.

Record bus_inv b : Prop := {
  bi_live cmd ws c : b_watchers b !! cmd = Some ws → is_Some (ws !! c) → live (b_chans b) c;
  bi_unique cmd1 cmd2 ws1 ws2 c : b_watchers b !! cmd1 = Some ws1 → b_watchers b !! cmd2 = Some ws2 →
    is_Some (ws1 !! c) → is_Some (ws2 !! c) → cmd1 = cmd2
}.

(** What a broadcast does to one channel. *)
Definition full (ch : chan A) : bool := bool_decide (ch_cap ch ≤ length (ch_buf ch))%nat.
Definition push (m : A) (ch : chan A) : chan A :=
  if full ch then ch else MkChan (ch_buf ch ++ [m]) (ch_cap ch) (ch_closed ch).

Lemma live_push h c ch m : h !! c = Some ch → live h c → live (<[c := push m ch]> h) c.
Proof.
  intros Hc (ch' & Hc' & Hcl & Hcap & Hlen). rewrite Hc in Hc'. injection Hc' as <-.
  exists (push m ch). rewrite lookup_insert_eq. split; [done|]. unfold push, full.
  case_bool_decide; [done|]. simpl. rewrite length_app, Hcap in *. simpl. auto with lia.
Qed.

Lemma live_insert_ne h c c' ch : c ≠ c' → live h c → live (<[c' := ch]> h) c.
Proof. intros Hne (x & Hx & ?). exists x. by rewrite lookup_insert_ne. Qed.

Lemma try_send_live (h : heap A) c m :
  live h c → ∃ ch, h !! c = Some ch ∧
    try_send c m h = Some (if full ch then (h, false) else (<[c := push m ch]> h, true)).
Proof.
  intros (ch & Hc & Hcl & Hcap & _). exists ch. split; [done|].
  unfold try_send, push, full. rewrite Hc, Hcl.
  destruct (decide (ch_cap ch ≤ length (ch_buf ch))%nat).
  - rewrite bool_decide_eq_false_2, bool_decide_eq_true_2 by lia. done.
  - rewrite bool_decide_eq_true_2, bool_decide_eq_false_2 by lia. done.
Qed.

Lemma broadcast_one_spec cmd m c b ws d :
  bus_inv b → b_watchers b !! cmd = Some ws → ws !! c = Some d →
  ∃ b' ch, broadcast_one cmd m c b = Some b' ∧ bus_inv b' ∧ b_chans b !! c = Some ch ∧
    b_chans b' = <[c := push m ch]> (b_chans b) ∧
    b_watchers b' = <[cmd := <[c := if full ch then (drop d).1 else d]> ws]> (b_watchers b).
Proof.
  intros Hi Hws Hd.
  destruct (try_send_live (b_chans b) c m) as (ch & Hc & Hs); [by eapply bi_live; eauto|].
  unfold broadcast_one. rewrite Hs. simpl.
  assert (∀ x x', bus_inv (MkBus (<[c := push m ch]> (b_chans b))
    (<[cmd := <[c := x']> ws]> (b_watchers b)) x (b_logged b))) as Hinv.
  { intros x x'. split; simpl.
    - intros cmd' ws' c' Hw' Hc'. destruct (decide (c' = c)) as [->|Hne].
      + apply live_push; [done|]. by eapply bi_live; eauto.
      + apply live_insert_ne; [done|]. destruct (decide (cmd' = cmd)) as [->|].
        * rewrite lookup_insert_eq in Hw'. injection Hw' as <-.
          rewrite lookup_insert_ne in Hc' by done. by eapply bi_live.
        * rewrite lookup_insert_ne in Hw' by done. by eapply bi_live.
    - assert (∀ cmd' ws' c', <[cmd := <[c := x']> ws]> (b_watchers b) !! cmd' = Some ws' →
        is_Some (ws' !! c') → ∃ ws'', b_watchers b !! cmd' = Some ws'' ∧ is_Some (ws'' !! c')) as Hb.
      { intros cmd' ws' c' Hw' Hc'. destruct (decide (cmd' = cmd)) as [->|].
        - rewrite lookup_insert_eq in Hw'. injection Hw' as <-. exists ws. split; [done|].
          destruct (decide (c' = c)) as [->|]; [eauto|]. by rewrite lookup_insert_ne in Hc'.
        - rewrite lookup_insert_ne in Hw' by done. eauto. }
      intros cmd1 cmd2 ws1 ws2 c' H1 H2 I1 I2.
      destruct (Hb _ _ _ H1 I1) as (? & ? & ?), (Hb _ _ _ H2 I2) as (? & ? & ?).
      by eapply bi_unique. }
  destruct (full ch) eqn:Ef; simpl.
  - rewrite Hws. simpl. rewrite Hd. simpl.
    assert (push m ch = ch) as Hp by (unfold push; by rewrite Ef).
    eexists _, ch. split; [done|]. split; [|split; [done|split; [|by rewrite Ef]]].
    + specialize (Hinv (b_droppedTotal b + 1) (i64 (d + 1))). rewrite Hp, insert_id in Hinv by done.
      destruct Hinv as [H1 H2]. by split.
    + simpl. by rewrite Hp, insert_id.
  - eexists _, ch. split; [done|]. split; [|split; [done|split; [done|]]].
    + specialize (Hinv (b_droppedTotal b) d). rewrite (insert_id ws), (insert_id (b_watchers b)) in Hinv by done. done.
    + rewrite Ef. simpl. by rewrite (insert_id ws), (insert_id (b_watchers b)).
Qed.

Lemma broadcast_loop_spec cmd m cs b ws :
  bus_inv b → b_watchers b !! cmd = Some ws → NoDup cs → (∀ c, c ∈ cs → is_Some (ws !! c)) →
  ∃ b' ws', broadcast_loop cmd m cs b = Some b' ∧ bus_inv b' ∧
    b_watchers b' = <[cmd := ws']> (b_watchers b) ∧
    (∀ c, b_chans b' !! c = if bool_decide (c ∈ cs) then push m <$> b_chans b !! c else b_chans b !! c) ∧
    (∀ c, ws' !! c = if bool_decide (c ∈ cs)
       then (λ d, if default false (full <$> b_chans b !! c) then (drop d).1 else d) <$> ws !! c
       else ws !! c).
Proof.
  revert b ws. induction cs as [|c cs IH]; intros b ws Hi Hws Hnd Hin; cbn [broadcast_loop].
  { exists b, ws. split; [done|]. split; [done|]. split; [by rewrite insert_id|].
    split; intros c; by rewrite bool_decide_eq_false_2 by (by intros ?%elem_of_nil). }
  apply NoDup_cons in Hnd as [Hni Hnd]. destruct (Hin c ltac:(by left)) as [d Hd].
  destruct (broadcast_one_spec cmd m c b ws d Hi Hws Hd) as (b1 & ch & H1 & Hi1 & Hch & Hc1 & Hw1).
  rewrite H1. simpl.
  destruct (IH b1 (<[c := if full ch then (drop d).1 else d]> ws)) as (b' & ws' & H2 & Hi2 & Hw2 & Hc2 & Hd2).
  - done.
  - by rewrite Hw1, lookup_insert_eq.
  - done.
  - intros c' Hc'. rewrite lookup_insert_ne by (by intros <-). apply Hin. by right.
  - exists b', ws'. split; [done|]. split; [done|]. split; [by rewrite Hw2, Hw1, insert_insert_eq|].
    split; intros c'.
    + rewrite Hc2, Hc1. destruct (decide (c' = c)) as [->|Hne].
      * rewrite bool_decide_eq_false_2 by done. rewrite bool_decide_eq_true_2 by (by left).
        by rewrite lookup_insert_eq, Hch.
      * rewrite lookup_insert_ne by done. by rewrite (bool_decide_ext (c' ∈ c :: cs) (c' ∈ cs))
          by (rewrite elem_of_cons; tauto).
    + rewrite Hd2, Hc1. destruct (decide (c' = c)) as [->|Hne].
      * rewrite bool_decide_eq_false_2 by done. rewrite bool_decide_eq_true_2 by (by left).
        by rewrite lookup_insert_eq, Hch, Hd.
      * rewrite !lookup_insert_ne by done. by rewrite (bool_decide_ext (c' ∈ c :: cs) (c' ∈ cs))
          by (rewrite elem_of_cons; tauto).
Qed.

Lemma elem_of_keys {V} (m : gmap nat V) c : c ∈ (map_to_list m).*1 ↔ is_Some (m !! c).
Proof.
  rewrite list_elem_of_fmap. split.
  - intros ([c' d] & -> & Hin). apply elem_of_map_to_list in Hin. eauto.
  - intros [d Hd]. exists (c, d). split; [done|]. by apply elem_of_map_to_list.
Qed.

(** What a broadcast does, watcher by watcher. *)
Lemma broadcast_spec cmd m b :
  bus_inv b → ∃ b', broadcast cmd m b = Some b' ∧ bus_inv b' ∧
    (∀ cmd', cmd' ≠ cmd → b_watchers b' !! cmd' = b_watchers b !! cmd') ∧
    (∀ c, b_chans b' !! c = if bool_decide (is_Some (default ∅ (b_watchers b !! cmd) !! c))
       then push m <$> b_chans b !! c else b_chans b !! c) ∧
    ∀ c, default ∅ (b_watchers b' !! cmd) !! c =
       (λ d, if default false (full <$> b_chans b !! c) then (drop d).1 else d)
         <$> default ∅ (b_watchers b !! cmd) !! c.
Proof.
  intros Hi. unfold broadcast. destruct (b_watchers b !! cmd) as [ws|] eqn:Hws; simpl.
  - destruct (broadcast_loop_spec cmd m (map_to_list ws).*1 b ws) as (b' & ws' & H1 & H2 & H3 & H4 & H5).
    + done.
    + done.
    + apply NoDup_fst_map_to_list.
    + intros c. apply elem_of_keys.
    + exists b'. split; [done|]. split; [done|]. split; [|split].
      * intros cmd' Hne. by rewrite H3, lookup_insert_ne.
      * intros c. rewrite H4. by rewrite (bool_decide_ext _ _ (elem_of_keys ws c)).
      * intros c. rewrite H3, lookup_insert_eq. simpl. rewrite H5.
        rewrite (bool_decide_ext _ _ (elem_of_keys ws c)). case_bool_decide as Hc; [done|].
        destruct (ws !! c) eqn:E; [|done]. destruct Hc. eauto.
  - exists b. split; [done|]. split; [done|]. split; [done|]. split.
    + intros c. rewrite lookup_empty, bool_decide_eq_false_2; [done|]. by intros [??].
    + intros c. rewrite Hws. simpl. by rewrite lookup_empty.
Qed.

Lemma close_all_spec cs (h : heap A) :
  NoDup cs → (∀ c, c ∈ cs → live h c) →
  ∃ h', close_all cs h = Some h' ∧ ∀ c, c ∉ cs → h' !! c = h !! c.
Proof.
  revert h. induction cs as [|c cs IH]; intros h Hnd Hl; simpl; [eauto|].
  apply NoDup_cons in Hnd as [Hni Hnd]. destruct (Hl c ltac:(by left)) as (ch & Hc & Hcl & _).
  unfold close. rewrite Hc, Hcl. simpl.
  destruct (IH (<[c := MkChan (ch_buf ch) (ch_cap ch) true]> h)) as (h' & Hh' & Hout).
  - done.
  - intros c' Hc'. apply live_insert_ne; [by intros ->|]. apply Hl. by right.
  - exists h'. split; [done|]. intros c' Hc'. rewrite Hout, lookup_insert_ne; [done|..].
    + intros <-. apply Hc'. by left.
    + intros Hc2. apply Hc'. by right.
Qed.

(** The operations. *)
Inductive bus_op :=
| OpSubscribe (cmd : string)
| OpUnsubscribe (cmd : string) (c : nat)
| OpBroadcast (cmd : string) (m : A)
| OpClose (cmd : string)
| OpReceive (c : nat).

Definition run_bus_op (p : bus_op) b : option (bus A) :=
  match p with
  | OpSubscribe cmd => Some (subscribe cmd b).2
  | OpUnsubscribe cmd c => unsubscribe cmd c b
  | OpBroadcast cmd m => broadcast cmd m b
  | OpClose cmd => close_watchers cmd b
  | OpReceive c => Some (receive c b).1
  end.

Lemma bus_inv_sub b h w x y :
  bus_inv b → (∀ cmd ws c, w !! cmd = Some ws → is_Some (ws !! c) →
    (∃ ws', b_watchers b !! cmd = Some ws' ∧ is_Some (ws' !! c)) ∧ live h c) →
  bus_inv (MkBus h w x y).
Proof.
  intros [_ Hu] Hw. split; simpl.
  - intros cmd ws c H1 H2. by apply (Hw cmd ws c).
  - intros cmd1 cmd2 ws1 ws2 c H1 H2 I1 I2.
    destruct (Hw _ _ _ H1 I1) as [(? & ? & ?) _], (Hw _ _ _ H2 I2) as [(? & ? & ?) _]. by eapply Hu.
Qed.

Lemma subscribe_inv cmd b : bus_inv b → bus_inv (subscribe cmd b).2.
Proof.
  intros Hi. unfold subscribe, make_chan. simpl. set (c0 := fresh _).
  assert (∀ cmd' ws' c, <[cmd := <[c0 := 0]> (default ∅ (b_watchers b !! cmd))]> (b_watchers b) !! cmd'
    = Some ws' → is_Some (ws' !! c) → (c = c0 ∧ cmd' = cmd) ∨
    (c ≠ c0 ∧ ∃ ws'', b_watchers b !! cmd' = Some ws'' ∧ is_Some (ws'' !! c))) as Hw.
  { intros cmd' ws' c Hw Hc.
    assert (∀ ws'', b_watchers b !! cmd' = Some ws'' → is_Some (ws'' !! c) → c ≠ c0) as Hne.
    { intros ws'' H1 H2. destruct (bi_live b Hi _ _ _ H1 H2) as (ch & Hch & _). by eapply fresh_chan. }
    destruct (decide (cmd' = cmd)) as [->|].
    - rewrite lookup_insert_eq in Hw. injection Hw as <-.
      destruct (decide (c = c0)) as [->|]; [by left|]. rewrite lookup_insert_ne in Hc by done.
      right. split; [done|]. destruct (b_watchers b !! cmd) as [ws|]; [eauto|].
      simpl in Hc. rewrite lookup_empty in Hc. by destruct Hc.
    - rewrite lookup_insert_ne in Hw by done. right. eauto. }
  split; simpl.
  - intros cmd' ws' c H1 H2. destruct (Hw _ _ _ H1 H2) as [[-> ->]|(Hne & ws'' & H3 & H4)].
    + exists (MkChan [] watcherBufSize false). rewrite lookup_insert_eq. simpl. auto with lia.
    + apply live_insert_ne; [done|]. by eapply bi_live.
  - intros cmd1 cmd2 ws1 ws2 c H1 H2 I1 I2.
    destruct (Hw _ _ _ H1 I1) as [[-> ->]|(Hne & ws'' & H3 & H4)];
      destruct (Hw _ _ _ H2 I2) as [[? ->]|(Hne' & ws''' & H5 & H6)]; try done. by eapply bi_unique.
Qed.

Lemma unsubscribe_inv cmd c b : bus_inv b → ∃ b', unsubscribe cmd c b = Some b' ∧ bus_inv b'.
Proof.
  intros Hi. unfold unsubscribe. destruct (b_watchers b !! cmd) as [ws|] eqn:Hws; [|eauto].
  destruct (ws !! c) as [d|] eqn:Hd.
  - destruct (bi_live b Hi cmd ws c Hws ltac:(eauto)) as (ch & Hch & Hcl & _).
    unfold close. rewrite Hch, Hcl. simpl. eexists. split; [done|].
    apply (bus_inv_sub b); [done|]. intros cmd' ws' c' Hw Hc'.
    assert (∃ ws'', b_watchers b !! cmd' = Some ws'' ∧ is_Some (ws'' !! c') ∧ c' ≠ c) as (ws'' & H1 & H2 & H3).
    { destruct (decide (cmd' = cmd)) as [->|Hne].
      - case_bool_decide; [by rewrite lookup_delete_eq in Hw|].
        rewrite lookup_insert_eq in Hw. injection Hw as <-. exists ws. split; [done|].
        destruct (decide (c' = c)) as [->|]; [rewrite lookup_delete_eq in Hc'; by destruct Hc'|].
        by rewrite lookup_delete_ne in Hc'.
      - assert (b_watchers b !! cmd' = Some ws') as Hw'.
        { case_bool_decide; [by rewrite lookup_delete_ne in Hw|by rewrite lookup_insert_ne in Hw]. }
        exists ws'. split; [done|]. split; [done|]. intros ->. apply Hne.
        eapply (bi_unique b Hi); eauto. }
    split; [eauto|]. apply live_insert_ne; [done|]. by eapply bi_live.
  - eexists. split; [done|]. case_bool_decide; [|done].
    apply (bus_inv_sub b); [done|]. intros cmd' ws' c' Hw Hc'.
    assert (b_watchers b !! cmd' = Some ws') by (by apply lookup_delete_Some in Hw as [_ ?]).
    split; [eauto|]. by eapply bi_live.
Qed.

Lemma close_watchers_inv cmd b : bus_inv b → ∃ b', close_watchers cmd b = Some b' ∧ bus_inv b'.
Proof.
  intros Hi. unfold close_watchers.
  destruct (close_all_spec (map_to_list (default ∅ (b_watchers b !! cmd))).*1 (b_chans b)) as (h & Hh & Hout).
  - apply NoDup_fst_map_to_list.
  - intros c Hc. apply elem_of_keys in Hc. destruct (b_watchers b !! cmd) eqn:E.
    + by eapply bi_live.
    + simpl in Hc. rewrite lookup_empty in Hc. by destruct Hc.
  - rewrite Hh. simpl. eexists. split; [done|]. apply (bus_inv_sub b); [done|].
    intros cmd' ws' c' [Hne Hw]%lookup_delete_Some Hc'. split; [eauto|].
    destruct (bi_live b Hi cmd' ws' c' Hw Hc') as (ch & Hch & ?). exists ch. rewrite Hout; [done|].
    rewrite elem_of_keys. intros Hc2. destruct (b_watchers b !! cmd) eqn:E.
    + apply Hne. by eapply (bi_unique b Hi).
    + simpl in Hc2. rewrite lookup_empty in Hc2. by destruct Hc2.
Qed.

Lemma receive_inv c b : bus_inv b → bus_inv (receive c b).1.
Proof.
  intros Hi. unfold receive, try_recv. destruct (b_chans b !! c) as [ch|] eqn:Hc; simpl; [|by destruct b].
  destruct (ch_buf ch) as [|m l] eqn:Hb; simpl; [by destruct b|].
  apply (bus_inv_sub b); [done|]. intros cmd ws c' Hw Hc'. split; [eauto|].
  destruct (bi_live b Hi cmd ws c' Hw Hc') as (ch' & Hch & Hcl & Hcap & Hlen).
  destruct (decide (c' = c)) as [->|]; [|apply live_insert_ne; [done|by exists ch']].
  rewrite Hc in Hch. injection Hch as <-. exists (MkChan l (ch_cap ch) (ch_closed ch)).
  rewrite lookup_insert_eq. rewrite Hb in Hlen. simpl in *. auto with lia.
Qed.

(** No panic.  From the empty bus, however subscriptions, cancellations,
    broadcasts, terminal closes and receives interleave, no channel is ever
    closed twice or sent to after its close, and every registered watcher's
    channel is open and within its buffer. *)
Theorem bus_never_panics ops :
  ∃ b, foldl (λ ob p, ob ≫= run_bus_op p) (Some newCommandBus) ops = Some b ∧ bus_inv b.
Proof.
  induction ops as [|p ops (b & Hb & Hi)] using rev_ind.
  { exists newCommandBus. split; [done|]. by split. }
  rewrite foldl_app, Hb. simpl. destruct p as [cmd|cmd c|cmd m|cmd|c]; simpl.
  - eexists. split; [done|]. by apply subscribe_inv.
  - by apply unsubscribe_inv.
  - destruct (broadcast_spec cmd m b Hi) as (b' & ? & ? & _). eauto.
  - by apply close_watchers_inv.
  - eexists. split; [done|]. by apply receive_inv.
Qed.

(** Delivery.  A broadcast puts the message at the end of the buffer of
    every watcher of the command that has room, counts one drop for every one
    that has none, and touches no other channel and no other command's watchers. *)
Theorem broadcast_delivers cmd m b b' :
  bus_inv b → broadcast cmd m b = Some b' →
  (∀ cmd', cmd' ≠ cmd → b_watchers b' !! cmd' = b_watchers b !! cmd') ∧
  ∀ c ch, b_chans b !! c = Some ch →
    match default ∅ (b_watchers b !! cmd) !! c with
    | None => b_chans b' !! c = Some ch
    | Some d => ∃ ch' d', b_chans b' !! c = Some ch' ∧
        default ∅ (b_watchers b' !! cmd) !! c = Some d' ∧
        if bool_decide (length (ch_buf ch) < watcherBufSize)%nat
        then ch_buf ch' = ch_buf ch ++ [m] ∧ d' = d
        else ch' = ch ∧ d' = i64 (d + 1)
    end.
Proof.
  intros Hi Hb. destruct (broadcast_spec cmd m b Hi) as (b1 & Hb1 & _ & Hw & Hc & Hd).
  rewrite Hb in Hb1. injection Hb1 as <-. split; [done|]. intros c ch Hch.
  specialize (Hc c). specialize (Hd c). destruct (b_watchers b !! cmd) as [ws|] eqn:Hws; simpl in *.
  2:{ rewrite lookup_empty in *. rewrite bool_decide_eq_false_2 in Hc by (by intros [??]).
      by rewrite Hc. }
  destruct (ws !! c) as [d|] eqn:Ed.
  - rewrite bool_decide_eq_true_2, Hch in Hc by eauto. rewrite Hch in Hd. simpl in Hc, Hd.
    destruct (bi_live b Hi cmd ws c Hws ltac:(eauto)) as (ch' & Hch' & _ & Hcap & Hlen).
    rewrite Hch in Hch'. injection Hch' as <-. rewrite Hc, Hd. do 2 eexists.
    split; [done|]. split; [done|]. unfold push, full. rewrite Hcap.
    destruct (decide (length (ch_buf ch) < watcherBufSize)%nat).
    + rewrite bool_decide_eq_true_2, bool_decide_eq_false_2 by lia. done.
    + rewrite bool_decide_eq_false_2, bool_decide_eq_true_2 by lia. done.
  - rewrite bool_decide_eq_false_2 in Hc by (by intros [??]). by rewrite Hc.
Qed.
End spec.

(** Powers of two by the [n & (n-1)] test. *)
Lemma land_pred_pow2 k : 0 ≤ k → Z.land (2 ^ k) (2 ^ k - 1) = 0.
Proof.
  intros Hk. rewrite Z.sub_1_r, <-Z.ones_equiv, Z.land_ones by done.
  apply Z.mod_same. pose proof (Z.pow_pos_nonneg 2 k). lia.
Qed.

(** Drops are logged logarithmically: the [n]th drop of a watcher is logged
    exactly when [n] is a power of two. *)
Theorem drop_logs_powers_of_two d :
  0 ≤ d → d + 1 < 2^63 →
  (drop d).1 = d + 1 ∧ ((drop d).2 = true ↔ ∃ k, 0 ≤ k ∧ d + 1 = 2 ^ k).
Proof.
  intros Hd Hb. unfold drop. rewrite (i64_small (d + 1)) by (unfold in_i64; lia).
  rewrite i64_small by (unfold in_i64; lia). split; [done|]. simpl. rewrite Z.eqb_eq. split.
  - intros Hl. exists (Z.log2 (d + 1)). split; [apply Z.log2_nonneg|].
    destruct (Z.log2_spec (d + 1)) as [Hlo Hhi]; [lia|].
    destruct (Z.eq_dec (d + 1) (2 ^ Z.log2 (d + 1))) as [|Hne]; [done|]. exfalso.
    assert (Z.testbit (Z.land (d + 1) (d + 1 - 1)) (Z.log2 (d + 1)) = true) as Ht.
    { rewrite Z.land_spec, Z.bit_log2 by lia. simpl.
      assert (Z.log2 (d + 1 - 1) = Z.log2 (d + 1)) as <-.
      { apply Z.log2_unique; [apply Z.log2_nonneg|lia]. }
      apply Z.bit_log2. pose proof (Z.pow_pos_nonneg 2 (Z.log2 (d + 1))).
      pose proof (Z.log2_nonneg (d + 1)). lia. }
    rewrite Hl in Ht. by rewrite Z.bits_0 in Ht.
  - intros (k & Hk & ->). by apply land_pred_pow2.
Qed.

(** ** Concrete runs *)

(** ** Round trips *)

Section replies.
Context {A : Type}.
Implicit Types p : pendingReplies A.

Inductive pend_op :=
| PRegister (requestID : string)
| PCancel (requestID : string)
| PComplete (requestID : string) (msg : A)
| PReceive (c : nat).

Definition run_pend_op (o : pend_op) p : option (pendingReplies A) :=
  match o with
  | PRegister rid => Some (register rid p).2
  | PCancel rid => Some (cancel rid p)
  | PComplete rid m => complete rid m p
  | PReceive c => Some (MkPending (try_recv c (p_chans p)).1 (p_m p))
  end.

(** A registered request owns an open, empty one-slot channel of its own. *)
Record pend_inv p : Prop := {
  pi_chan rid c : p_m p !! rid = Some c → p_chans p !! c = Some (MkChan [] 1 false);
  pi_inj rid1 rid2 c : p_m p !! rid1 = Some c → p_m p !! rid2 = Some c → rid1 = rid2
}.

Lemma register_pend_inv rid p : pend_inv p → pend_inv (register rid p).2.
Proof.
  intros [Hc Hi]. unfold register, make_chan. simpl.
  assert (∀ r c, p_m p !! r = Some c → c ≠ fresh (dom (p_chans p) : gset nat)) as Hf.
  { intros r c Hr. eapply fresh_chan. by eapply Hc. }
  split; simpl.
  - intros r c. destruct (decide (r = rid)) as [->|Hne].
    + rewrite lookup_insert_eq. intros [= <-]. by rewrite lookup_insert_eq.
    + rewrite lookup_insert_ne by done. intros Hr. rewrite lookup_insert_ne; [by eapply Hc|].
      apply not_eq_sym. by eapply Hf.
  - intros r1 r2 c. destruct (decide (r1 = rid)) as [->|H1], (decide (r2 = rid)) as [->|H2];
      rewrite ?lookup_insert_eq, ?lookup_insert_ne by done; [done| | |apply Hi].
    + intros [= <-] Hr. by apply Hf in Hr.
    + intros Hr [= <-]. by apply Hf in Hr.
Qed.

Lemma cancel_pend_inv rid p : pend_inv p → pend_inv (cancel rid p).
Proof.
  intros [Hc Hi]. split; simpl.
  - intros r c [_ Hr]%lookup_delete_Some. by eapply Hc.
  - intros r1 r2 c [_ H1]%lookup_delete_Some [_ H2]%lookup_delete_Some. by eapply Hi.
Qed.

Lemma complete_registered rid c m p :
  pend_inv p → p_m p !! rid = Some c →
  complete rid m p = Some (MkPending (<[c := MkChan [m] 1 false]> (p_chans p)) (delete rid (p_m p))).
Proof.
  intros [Hc _] Hr. unfold complete, try_send. rewrite Hr. rewrite (Hc _ _ Hr). done.
Qed.

Lemma run_pend_op_inv o p : pend_inv p → ∃ p', run_pend_op o p = Some p' ∧ pend_inv p'.
Proof.
  intros Hi. destruct o as [rid|rid|rid m|c]; simpl.
  - eexists. split; [done|]. by apply register_pend_inv.
  - eexists. split; [done|]. by apply cancel_pend_inv.
  - destruct (p_m p !! rid) as [c|] eqn:Hr; [|unfold complete; rewrite Hr; eauto].
    rewrite (complete_registered _ c _ _ Hi Hr). eexists. split; [done|]. split; simpl.
    + intros r c' [Hne Hr']%lookup_delete_Some. rewrite lookup_insert_ne; [by eapply pi_chan|].
      intros <-. apply Hne. by eapply pi_inj.
    + intros r1 r2 c' [_ H1]%lookup_delete_Some [_ H2]%lookup_delete_Some. by eapply pi_inj.
  - eexists. split; [done|]. split; simpl; [|by eapply pi_inj].
    intros r c' Hr. pose proof (pi_chan _ Hi _ _ Hr) as Hc'. unfold try_recv.
    destruct (p_chans p !! c) as [ch|] eqn:Ec; [|done]. destruct (ch_buf ch) eqn:Eb; [done|]. simpl.
    rewrite lookup_insert_ne; [done|]. intros ->. rewrite Hc' in Ec. injection Ec as <-. done.
Qed.

Definition run_pend_ops (ops : list pend_op) : option (pendingReplies A) :=
  foldl (λ acc o, acc ≫= run_pend_op o) (Some (MkPending ∅ ∅)) ops.

Lemma run_pend_ops_inv ops : ∃ p, run_pend_ops ops = Some p ∧ pend_inv p.
Proof.
  unfold run_pend_ops. assert (pend_inv (MkPending (A:=A) ∅ ∅)) as H0.
  { split; simpl; intros *; by rewrite lookup_empty. }
  revert H0. generalize (MkPending (A:=A) ∅ ∅). induction ops as [|o ops IH]; intros p Hp; [eauto|].
  simpl. destruct (run_pend_op_inv o p Hp) as (p' & -> & Hp'). by apply IH.
Qed.

(** A reply reaches its waiter, once.  After any registrations, cancels,
    completions and receives (no completion ever panics), the reply to a
    registered request lands in that request's channel and in no other, and the
    request is forgotten; a reply to any other request is dropped. *)
Theorem reply_reaches_waiter ops :
  ∃ p, run_pend_ops ops = Some p ∧ ∀ rid m,
    match p_m p !! rid with
    | Some c => ∃ p', complete rid m p = Some p' ∧
        p_chans p' !! c = Some (MkChan [m] 1 false) ∧ p_m p' !! rid = None ∧
        (∀ c', c' ≠ c → p_chans p' !! c' = p_chans p !! c') ∧
        (∀ rid', rid' ≠ rid → p_m p' !! rid' = p_m p !! rid') ∧
        ∀ m', complete rid m' p' = Some p'
    | None => complete rid m p = Some p
    end.
Proof.
  destruct (run_pend_ops_inv ops) as (p & Hp & Hi). exists p. split; [done|]. intros rid m.
  destruct (p_m p !! rid) as [c|] eqn:Hr; [|by unfold complete; rewrite Hr].
  rewrite (complete_registered _ c _ _ Hi Hr). eexists. split; [done|]. simpl.
  split; [by rewrite lookup_insert_eq|]. split; [by rewrite lookup_delete_eq|].
  split; [intros c' Hc; by rewrite lookup_insert_ne|].
  split; [intros r Hne; by rewrite lookup_delete_ne|].
  intros m'. unfold complete. simpl. by rewrite lookup_delete_eq.
Qed.
End replies.

Module BusDemo.

(** Two watchers of "c", one of "d", and a message already queued. *)
Definition b0 : bus nat :=
  default newCommandBus (broadcast "c" 7%nat
    (subscribe "d" (subscribe "c" (subscribe "c" (newCommandBus (A:=nat))).2).2).2).

Lemma b0_inv : bus_inv b0.
Proof.
  pose proof (subscribe_inv "d" _ (subscribe_inv "c" _ (subscribe_inv "c" (newCommandBus (A:=nat))
    ltac:(by split)))) as Hi.
  destruct (broadcast_spec "c" 7%nat _ Hi) as (b' & Hb & Hi' & _).
  unfold b0. rewrite Hb. exact Hi'.
Qed.

Lemma broadcast_delivers_witness :
  b_chans b0 !! 0%nat = Some (MkChan [7%nat] 256 false) ∧
  ∃ ch' d', b_chans (default b0 (broadcast "c" 8%nat b0)) !! 0%nat = Some ch' ∧
    default ∅ (b_watchers (default b0 (broadcast "c" 8%nat b0)) !! "c"%string) !! 0%nat = Some d' ∧
    ch_buf ch' = [7%nat; 8%nat] ∧ d' = 0.
Proof.
  split; [reflexivity|].
  destruct (broadcast_delivers "c" 8%nat b0 (default b0 (broadcast "c" 8%nat b0)) b0_inv
    ltac:(vm_compute; reflexivity)) as [_ H].
  exact (H 0%nat (MkChan [7%nat] 256 false) ltac:(vm_compute; reflexivity)).
Defined.

Lemma drop_logs_powers_of_two_witness :
  (drop 3).1 = 4 ∧ ((drop 3).2 = true ↔ ∃ k, 0 ≤ k ∧ 4 = 2 ^ k).
Proof. apply (drop_logs_powers_of_two 3); lia. Defined.
End BusDemo.
