(* ===== verification/CommandUpload.v ===== *)
(** The manager's side of an upload
    ([backend/manager/component/dispatcher/command_upload.go] and
    [marshalEventPayload] of [command_handler.go]): wire entries are validated
    and converted, applied by the store, broadcast to live watchers, and
    answered with acks and rejections.

    [uuid.Parse]/[uuid.UUID.String] and [protojson.Marshal] are not in the
    repository: they are the class [WireLib]. *)

From Stdlib Require Import Ascii.
From stdpp Require Import base list strings numbers gmap sets pretty.
From S2P Require Import Prelude Wire Db CommandStore Bus.
Local Open Scope Z_scope.

Class WireLib := {
  uuid_parse : string → option UUID;
  uuid_string : UUID → string;
  (** [protojson.Marshal] of an event payload ([None]: a nil message) and of a
      Struct; [None] is its error. *)
  protojson_event : option EventPayload → option string;
  protojson_struct : string → option string
}.

(** RFC 4122 text: parsing what String printed gives the id back. *)
Class WireLibLaws (L : WireLib) := {
  parse_string u : uuid_parse (uuid_string u) = Some u
}.

(** [time.Time{}] as Unix nanoseconds. *)
Definition zeroTime : Z := - 62135596800 * Second.

(** The watchers' messages; a nil event is [None]. *)
Record CommandOutput := MkCommandOutput {
  co_CommandId : string; co_Type : Z; co_Content : string; co_SeqNo : Z; co_Timestamp : option Z }.

Section upload.
Context {L : WireLib} {Sv : Server}.

(** The typed getters return nil when the payload is of another type. *)
Definition marshalEventPayload (event : CommandEvent) : option (option string) :=
  let marshal (p : option EventPayload) : option (option string) := Some <$> protojson_event p in
  let only (f : EventPayload → bool) : option EventPayload :=
    match ce_payload event with Some p => if f p then Some p else None | None => None end in
  let t := ce_type event in
  if t =? CommandEventType_LIFECYCLE then
    marshal (only (λ p, match p with EvLifecycle _ _ => true | _ => false end))
  else if t =? CommandEventType_TEXT_DELTA then
    marshal (only (λ p, match p with EvTextDelta _ _ => true | _ => false end))
  else if t =? CommandEventType_TOOL_CALL_STARTED then
    marshal (only (λ p, match p with EvToolCallStarted _ _ _ => true | _ => false end))
  else if t =? CommandEventType_TOOL_CALL_FINISHED then
    marshal (only (λ p, match p with EvToolCallFinished _ _ _ => true | _ => false end))
  else if t =? CommandEventType_DIFF_EMITTED then
    marshal (only (λ p, match p with EvDiffEmitted _ _ _ => true | _ => false end))
  else if t =? CommandEventType_WARNING then
    marshal (only (λ p, match p with EvWarning _ => true | _ => false end))
  else if t =? CommandEventType_RAW_ACP then
    marshal (only (λ p, match p with EvRawAcp _ => true | _ => false end))
  else if t =? CommandEventType_FINAL_SUMMARY then
    marshal (only (λ p, match p with EvFinalSummary _ _ => true | _ => false end))
  else if (t =? CommandEventType_CONTEXT_COMPACTION_STARTED)
       || (t =? CommandEventType_CONTEXT_COMPACTION_FINISHED) then
    marshal (only (λ p, match p with EvContextCompaction _ _ => true | _ => false end))
  else if t =? CommandEventType_CONTEXT_USAGE_UPDATE then
    marshal (only (λ p, match p with EvContextUsage _ _ => true | _ => false end))
  else if t =? CommandEventType_TOKEN_USAGE then
    marshal (only (λ p, match p with EvTokenUsage _ _ _ _ _ => true | _ => false end))
  else Some None.

(** [se] with the fields every kind sets. *)
Definition base_entry (id : UUID) (we : Entry) : CommandUploadEntry :=
  let ts := match en_agent_side_timestamp we with
            | Some t => if t =? zeroTime then None else Some t | None => None end in
  MkUploadEntry id (en_kind we) (en_seq_no we) ts 0 "" 0 "" "" 0 0 0 0 0 false 0 0 "" "" "" 0.

Definition convert_progress (se : CommandUploadEntry) (p : CommandProgress) : CommandUploadEntry :=
  MkUploadEntry (ue_CommandID se) (ue_Kind se) (ue_SeqNo se) (ue_Timestamp se)
    (cp_type p) (cp_content p) 0 "" "" 0 0 0 0 0 false 0 0 "" "" "" 0.

Definition convert_event (se : CommandUploadEntry) (ev : CommandEvent) (payloadJSON : string)
    : CommandUploadEntry :=
  let mk i o r w t has := MkUploadEntry (ue_CommandID se) (ue_Kind se) (ue_SeqNo se) (ue_Timestamp se)
    0 "" (ce_type ev) (ce_summary ev) payloadJSON i o r w t has 0 0 "" "" "" 0 in
  match ce_payload ev with
  | Some (EvTokenUsage i o r w t) => mk i o r w t true
  | _ => mk 0 0 0 0 0 false
  end.

Definition convert_result (se : CommandUploadEntry) (r : CommandResult) (resultJSON : string)
    : CommandUploadEntry :=
  MkUploadEntry (ue_CommandID se) (ue_Kind se) (ue_SeqNo se) (ue_Timestamp se)
    0 "" 0 "" "" 0 0 0 0 0 false (cr_exit_code r) (cr_duration_ms r) (cr_error_message r)
    (cr_final_summary r) resultJSON (cr_last_seq_no r).

Definition known_stream (t : Z) : bool :=
  (t =? CommandOutput_STDOUT) || (t =? CommandOutput_STDERR) ||
  (t =? CommandOutput_SYSTEM) || (t =? CommandOutput_ASSISTANT).

(** The store form, or the poison reason. *)
Definition convertUploadEntry (we : Entry) : CommandUploadEntry + string :=
  match uuid_parse (en_command_id we) with
  | None => inr "invalid command id"%string
  | Some id =>
      let se := base_entry id we in
      if en_kind we =? UPLOAD_ENTRY_KIND_PROGRESS then
        match GetProgress we with
        | None => inr "progress payload missing"%string
        | Some p => if known_stream (cp_type p) then inl (convert_progress se p)
                    else inr "unknown progress stream type"%string
        end
      else if en_kind we =? UPLOAD_ENTRY_KIND_EVENT then
        match GetEvent we with
        | None => inr "event payload missing"%string
        | Some ev =>
            if bool_decide (ce_payload ev = None) && negb (ce_type ev =? CommandEventType_SYSTEM)
            then inr "unknown event payload"%string else
            match marshalEventPayload ev with
            | None => inr "event payload marshal failed"%string
            | Some payloadJSON => inl (convert_event se ev (default "{}"%string payloadJSON))
            end
        end
      else if en_kind we =? UPLOAD_ENTRY_KIND_RESULT then
        match GetResult we with
        | None => inr "result payload missing"%string
        | Some r =>
            match cr_result r with
            | None => inl (convert_result se r "")
            | Some s => match protojson_struct s with
                        | None => inr "result struct marshal failed"%string
                        | Some data => inl (convert_result se r data)
                        end
            end
        end
      else inr "unknown upload entry kind"%string
  end.

(** The bus at its two message types (the source writes each operation twice). *)
Definition subscribeOutput : string → bus CommandOutput → nat * bus CommandOutput := subscribe.
Definition unsubscribeOutput : string → nat → bus CommandOutput → option (bus CommandOutput) := unsubscribe.
Definition broadcastOutput : string → CommandOutput → bus CommandOutput → option (bus CommandOutput) := broadcast.
Definition closeOutput : string → bus CommandOutput → option (bus CommandOutput) := close_watchers.
Definition subscribeEvent : string → bus (option CommandEvent) → nat * bus (option CommandEvent) := subscribe.
Definition unsubscribeEvent : string → nat → bus (option CommandEvent) → option (bus (option CommandEvent)) :=
  unsubscribe.
Definition broadcastEvent : string → option CommandEvent → bus (option CommandEvent) →
  option (bus (option CommandEvent)) := broadcast.
Definition closeEvents : string → bus (option CommandEvent) → option (bus (option CommandEvent)) := close_watchers.

(** The dispatcher's state an upload touches.  [d_closing]: commands whose
    watchers a goroutine closes after 100 ms. *)
Record dispatcher := MkDispatcher {
  d_store : DB;
  d_outputs : bus CommandOutput;
  d_events : bus (option CommandEvent);
  d_tracker : tracker;
  d_closing : list string;
  d_regraded : Z;
  d_lateFailures : Z
}.

(** The first loop: converted entries with their wire forms, and the poison. *)
Fixpoint convert_all (entries : list Entry)
    : list CommandUploadEntry * list Entry * list Rejection :=
  match entries with
  | [] => ([], [], [])
  | we :: es =>
      let '(c, a, r) := convert_all es in
      match convertUploadEntry we with
      | inl se => (se :: c, we :: a, r)
      | inr reason => (c, a, MkRejection (en_command_id we) (en_kind we) (en_seq_no we) reason :: r)
      end
  end.

(** The broadcast key leaves the kind out. *)
Definition wire_key (commandID : string) (seq : Z) : string := commandID +:+ "|" +:+ pretty seq.
Definition wireByKey (accepted : list Entry) : gmap string Entry :=
  foldl (λ m we, <[wire_key (en_command_id we) (en_seq_no we) := we]> m) ∅ accepted.

(** A nil progress reads as its zero value. *)
Definition output_of (we : Entry) : CommandOutput :=
  match GetProgress we with
  | Some p => MkCommandOutput (cp_command_id p) (cp_type p) (cp_content p) (cp_seq_no p) (cp_timestamp p)
  | None => MkCommandOutput "" 0 "" 0 None
  end.

Fixpoint broadcast_outputs (keys : gmap string Entry) (os : list CommandOutputMessage)
    (b : bus CommandOutput) : option (bus CommandOutput) :=
  match os with
  | [] => Some b
  | o :: os' =>
      match keys !! wire_key (uuid_string (com_CommandID o)) (com_SeqNo o) with
      | None => broadcast_outputs keys os' b
      | Some we => b' ← broadcast (uuid_string (com_CommandID o)) (output_of we) b;
                   broadcast_outputs keys os' b'
      end
  end.

Fixpoint broadcast_events (keys : gmap string Entry) (evs : list CommandEventMessage)
    (b : bus (option CommandEvent)) : option (bus (option CommandEvent)) :=
  match evs with
  | [] => Some b
  | ev :: evs' =>
      match keys !! wire_key (uuid_string (cem_CommandID ev)) (cem_SeqNo ev) with
      | None => broadcast_events keys evs' b
      | Some we =>
          let e := GetEvent we in
          b' ← broadcast (match e with Some v => ce_command_id v | None => "" end) e b;
          broadcast_events keys evs' b'
      end
  end.

(** clearCurrentCommand; scheduleWatcherClose. *)
Definition clearCurrentCommand (agentID : Z) (commandID : string) (d : dispatcher) : dispatcher :=
  MkDispatcher (d_store d) (d_outputs d) (d_events d) (tracker_clear agentID commandID (d_tracker d))
    (d_closing d) (d_regraded d) (d_lateFailures d).
Definition scheduleWatcherClose (commandID : string) (d : dispatcher) : dispatcher :=
  MkDispatcher (d_store d) (d_outputs d) (d_events d) (d_tracker d)
    (d_closing d ++ [commandID]) (d_regraded d) (d_lateFailures d).
(** The goroutine's body when its timer fires. *)
Definition watcher_close_fires (commandID : string) (d : dispatcher) : option dispatcher :=
  o ← close_watchers commandID (d_outputs d);
  e ← close_watchers commandID (d_events d);
  Some (MkDispatcher (d_store d) o e (d_tracker d) (d_closing d) (d_regraded d) (d_lateFailures d)).

Definition finish_terminals (ts : list CommandUploadTerminal) (d : dispatcher) : dispatcher :=
  foldl (λ d t, scheduleWatcherClose (uuid_string (ut_CommandID t))
                  (clearCurrentCommand (ut_AgentID t) (uuid_string (ut_CommandID t)) d)) d ts.

Fixpoint finish_regrades (rs : list CommandUploadRegrade) (d : dispatcher) : option dispatcher :=
  match rs with
  | [] => Some d
  | rg :: rs' =>
      let id := uuid_string (rg_CommandID rg) in
      let ev := rg_Event rg in
      let evid := uuid_string (cem_CommandID ev) in
      let d1 := clearCurrentCommand (rg_AgentID rg) id
        (MkDispatcher (d_store d) (d_outputs d) (d_events d) (d_tracker d) (d_closing d)
           (d_regraded d + 1) (d_lateFailures d)) in
      b ← broadcast evid (Some (MkEvent evid (cem_SeqNo ev) (cem_EventType ev) (cem_Summary ev) None None))
            (d_events d1);
      finish_regrades rs' (scheduleWatcherClose id
        (MkDispatcher (d_store d1) (d_outputs d1) b (d_tracker d1) (d_closing d1)
           (d_regraded d1) (d_lateFailures d1)))
  end.

Definition wire_ack (a : CommandUploadAck) : Ack :=
  MkAck (uuid_string (ua_CommandID a)) (ua_LastProgressSeq a) (ua_LastEventSeq a) (ua_ResultAcked a).
Definition wire_rejection (r : CommandUploadRejection) : Rejection :=
  MkRejection (uuid_string (ur_CommandID r)) (ur_Kind r) (ur_SeqNo r) (ur_Reason r).

Definition response (rejected : list Rejection) (res : CommandUploadBatchResult) : UploadResponse :=
  MkResponse (wire_ack <$> br_Acks res) (rejected ++ (wire_rejection <$> br_Rejected res)).

(** [None] is a panic; [others] and [now] as for the store. *)
Definition ApplyCommandUpload (others : DB → DB) (machineID now : Z) (entries : list Entry)
    (d : dispatcher) : option (dispatcher * res sqlerr UploadResponse) :=
  let '(converted, accepted, rejected) := convert_all entries in
  let '(db', r) := ApplyCommandUploadBatch others machineID now converted (d_store d) in
  let d1 := MkDispatcher db' (d_outputs d) (d_events d) (d_tracker d) (d_closing d)
              (d_regraded d) (d_lateFailures d) in
  match r with
  | Err e => Some (d1, Err e)
  | Ok res =>
      let keys := wireByKey accepted in
      o ← broadcast_outputs keys (br_InsertedOutputs res) (d_outputs d1);
      e ← broadcast_events keys (br_InsertedEvents res) (d_events d1);
      let d2 := finish_terminals (br_Terminals res)
        (MkDispatcher (d_store d1) o e (d_tracker d1) (d_closing d1) (d_regraded d1) (d_lateFailures d1)) in
      d3 ← finish_regrades (br_Regrades res) d2;
      Some (MkDispatcher (d_store d3) (d_outputs d3) (d_events d3) (d_tracker d3) (d_closing d3)
              (d_regraded d3) (d_lateFailures d3 + br_LateFailures res),
            Ok (response rejected res))
  end.
End upload.

(** ** A reference library: ids printed bit by bit, payloads by their kind *)

Fixpoint pos_string (p : positive) : string :=
  match p with
  | xH => "" | xO q => String "0"%char (pos_string q) | xI q => String "1"%char (pos_string q)
  end.
Fixpoint string_pos (s : string) : option positive :=
  match s with
  | "" => Some xH
  | String "0"%char t => xO <$> string_pos t
  | String "1"%char t => xI <$> string_pos t
  | _ => None
  end.
Definition ref_wire : WireLib := {|
  uuid_parse := λ s, if String.eqb s "z" then Some 0%N else Npos <$> string_pos s;
  uuid_string := λ u, match u with N0 => "z"%string | Npos p => pos_string p end;
  protojson_event := λ p, Some (match p with Some _ => "{event}"%string | None => "{}"%string end);
  protojson_struct := λ s, Some s
|}.

Lemma string_pos_string p : string_pos (pos_string p) = Some p.
Proof. induction p as [p IH|p IH|]; simpl; [by rewrite IH|by rewrite IH|done]. Qed.

Lemma ref_wire_laws : WireLibLaws ref_wire.
Proof.
  split. intros [|p]; [done|]. simpl.
  assert (String.eqb (pos_string p) "z" = false) as ->.
  { apply String.eqb_neq. destruct p; simpl; discriminate. }
  by rewrite string_pos_string.
Qed.

(** ** The handler never panics *)

Section safety.
Context {L : WireLib} {Sv : Server}.

Definition disp_inv (d : dispatcher) : Prop := bus_inv (d_outputs d) ∧ bus_inv (d_events d).

Lemma broadcast_outputs_inv keys os b :
  bus_inv b → ∃ b', broadcast_outputs keys os b = Some b' ∧ bus_inv b'.
Proof.
  revert b. induction os as [|o os IH]; intros b Hi; simpl; [eauto|].
  destruct (keys !! _) as [we|]; [|by apply IH].
  destruct (broadcast_spec (uuid_string (com_CommandID o)) (output_of we) b Hi) as (b1 & -> & Hi1 & _).
  simpl. by apply IH.
Qed.

Lemma broadcast_events_inv keys evs b :
  bus_inv b → ∃ b', broadcast_events keys evs b = Some b' ∧ bus_inv b'.
Proof.
  revert b. induction evs as [|ev evs IH]; intros b Hi; simpl; [eauto|].
  destruct (keys !! _) as [we|]; [|by apply IH].
  destruct (broadcast_spec (match GetEvent we with Some v => ce_command_id v | None => "" end)
    (GetEvent we) b Hi) as (b1 & -> & Hi1 & _).
  simpl. by apply IH.
Qed.

Lemma finish_terminals_frame ts d :
  d_store (finish_terminals ts d) = d_store d ∧ d_outputs (finish_terminals ts d) = d_outputs d ∧
  d_events (finish_terminals ts d) = d_events d ∧
  d_closing (finish_terminals ts d) = d_closing d ++ (uuid_string ∘ ut_CommandID <$> ts).
Proof.
  revert d. induction ts as [|t ts IH]; intros d; [by rewrite app_nil_r|].
  change (finish_terminals (t :: ts) d) with (finish_terminals ts (scheduleWatcherClose
    (uuid_string (ut_CommandID t)) (clearCurrentCommand (ut_AgentID t) (uuid_string (ut_CommandID t)) d))).
  destruct (IH (scheduleWatcherClose (uuid_string (ut_CommandID t))
    (clearCurrentCommand (ut_AgentID t) (uuid_string (ut_CommandID t)) d))) as (-> & -> & -> & ->).
  simpl. by rewrite <-app_assoc.
Qed.

Lemma finish_regrades_inv rs d :
  disp_inv d → ∃ d', finish_regrades rs d = Some d' ∧ disp_inv d' ∧ d_store d' = d_store d ∧
    d_closing d' = d_closing d ++ (uuid_string ∘ rg_CommandID <$> rs).
Proof.
  revert d. induction rs as [|rg rs IH]; intros d [Ho He]; simpl.
  { exists d. rewrite app_nil_r. split; [done|]. split; [by split|done]. }
  match goal with |- context [broadcast ?c ?m (d_events d)] =>
    destruct (broadcast_spec c m (d_events d) He) as (b1 & -> & Hi1 & _) end.
  simpl. match goal with |- context [finish_regrades rs ?d1] =>
    destruct (IH d1) as (d' & ? & ? & ? & Hc); [by split|] end.
  exists d'. split; [done|]. split; [done|]. split; [done|]. rewrite Hc. simpl. by rewrite <-app_assoc.
Qed.

(** The upload handler is total and closes what it finishes.  It never
    panics on a channel, keeps both buses sound, and on success schedules a
    watcher close for exactly the commands whose terminal or re-grade it
    reported; on a store error nothing is broadcast or scheduled. *)
Theorem upload_handler_total others machineID now entries d :
  disp_inv d →
  ∃ d' r, ApplyCommandUpload others machineID now entries d = Some (d', r) ∧ disp_inv d' ∧
    match r with
    | Err _ => d_outputs d' = d_outputs d ∧ d_events d' = d_events d ∧ d_closing d' = d_closing d ∧
               d_store d' = others (d_store d)
    | Ok _ => ∃ res, (ApplyCommandUploadBatch others machineID now (convert_all entries).1.1 (d_store d)).2 = Ok res ∧
        d_closing d' = d_closing d ++ (uuid_string ∘ ut_CommandID <$> br_Terminals res)
                         ++ (uuid_string ∘ rg_CommandID <$> br_Regrades res)
    end.
Proof.
  intros [Ho He]. unfold ApplyCommandUpload.
  destruct (convert_all entries) as [[c a] rj]. simpl.
  destruct (ApplyCommandUploadBatch others machineID now c (d_store d)) as [db' [res|e]] eqn:Eb; simpl.
  2:{ eexists _, (Err e). split; [done|]. split; [done|]. simpl. repeat split; try done.
      apply ApplyCommandUploadBatch_run in Eb as [(-> & _)|Eb]; [done|]. by apply run_tx_err in Eb. }
  destruct (broadcast_outputs_inv (wireByKey a) (br_InsertedOutputs res) _ Ho) as (o & -> & Ho').
  destruct (broadcast_events_inv (wireByKey a) (br_InsertedEvents res) _ He) as (e & -> & He'). simpl.
  set (d2 := finish_terminals _ _).
  destruct (finish_terminals_frame (br_Terminals res)
    (MkDispatcher db' o e (d_tracker d) (d_closing d) (d_regraded d) (d_lateFailures d)))
    as (Hs & Hfo & Hfe & Hfc). fold d2 in Hs, Hfo, Hfe, Hfc. simpl in Hs, Hfo, Hfe, Hfc.
  destruct (finish_regrades_inv (br_Regrades res) d2) as (d3 & -> & [Ho3 He3] & Hs3 & Hc3).
  { split; [by rewrite Hfo|by rewrite Hfe]. }
  simpl. eexists _, (Ok _). split; [done|]. split; [done|]. exists res. split; [done|].
  simpl. by rewrite Hc3, Hfc, <-app_assoc.
Qed.
End safety.
