(* ===== verification/Pipeline.v ===== *)
(** The upload path end to end: the machine's uploader ([Uploader]) over the
    manager's handler ([CommandUpload]) and its store ([CommandStore]). *)

From stdpp Require Import base list strings numbers gmap sets pretty.
From S2P Require Import Prelude Wire Wal Outbox Uploader Db CommandStore Bus CommandUpload.
Local Open Scope Z_scope.

(** ** The fold's reading of a response *)

Lemma view_rejected resp r :
  r ∈ resp_rejected resp →
  is_Some (sv_rejected (response_view resp) !! rejectionKey (rej_command_id r) (rej_kind r) (rej_seq_no r)).
Proof.
  simpl. generalize (resp_rejected resp). intros l.
  enough (∀ m : gmap string string, (r ∈ l ∨
    is_Some (m !! rejectionKey (rej_command_id r) (rej_kind r) (rej_seq_no r))) → is_Some
    (foldl (λ m r, <[rejectionKey (rej_command_id r) (rej_kind r) (rej_seq_no r) := rej_reason r]> m) m l
       !! rejectionKey (rej_command_id r) (rej_kind r) (rej_seq_no r))) as Hg by eauto.
  induction l as [|x l IH]; intros m; simpl.
  - intros [Hn|?]; [by apply elem_of_nil in Hn|done].
  - intros Hm. apply IH.
    destruct (decide (rejectionKey (rej_command_id x) (rej_kind x) (rej_seq_no x)
      = rejectionKey (rej_command_id r) (rej_kind r) (rej_seq_no r))) as [E|E].
    + right. rewrite E, lookup_insert_eq. eauto.
    + rewrite lookup_insert_ne by done. destruct Hm as [[->|?]%elem_of_cons|?]; [done|auto..].
Qed.

Lemma view_ack resp a :
  NoDup (ack_command_id <$> resp_acks resp) → a ∈ resp_acks resp →
  sv_acks (response_view resp) !! ack_command_id a = Some a.
Proof.
  simpl. generalize (resp_acks resp). intros l.
  enough (∀ m : gmap string Ack, NoDup (ack_command_id <$> l) →
    (a ∈ l → foldl (λ m a, <[ack_command_id a := a]> m) m l !! ack_command_id a = Some a) ∧
    (ack_command_id a ∉ ack_command_id <$> l →
     foldl (λ m a, <[ack_command_id a := a]> m) m l !! ack_command_id a = m !! ack_command_id a)) as Hg
    by (intros; by apply Hg).
  induction l as [|x l IH]; intros m; simpl.
  - split; [by intros ?%elem_of_nil|done].
  - intros [Hni Hnd]%NoDup_cons. destruct (IH (<[ack_command_id x := x]> m) Hnd) as [H1 H2]. split.
    + intros [->|Hin]%elem_of_cons; [|by apply H1]. by rewrite H2, lookup_insert_eq.
    + intros [Hne Hni']%not_elem_of_cons. by rewrite H2, lookup_insert_ne.
Qed.

Lemma settled_rejected resp i e reason :
  MkRejection (en_command_id e) (en_kind e) (en_seq_no e) reason ∈ resp_rejected resp →
  recordSettled (MkRecord i (Some e)) (response_view resp) = true.
Proof.
  intros Hin. destruct (view_rejected _ _ Hin) as [x Hx]. simpl in Hx.
  unfold recordSettled. cbn [rec_entry]. destruct (bool_decide _); [done|].
  cbn [sv_rejected response_view] in *. by rewrite Hx.
Qed.

Lemma settled_acked resp i e a :
  NoDup (ack_command_id <$> resp_acks resp) → a ∈ resp_acks resp →
  ack_command_id a = en_command_id e →
  (en_kind e = UPLOAD_ENTRY_KIND_PROGRESS ∧ en_seq_no e ≤ ack_last_progress_seq a) ∨
  (en_kind e = UPLOAD_ENTRY_KIND_EVENT ∧ en_seq_no e ≤ ack_last_event_seq a) ∨
  (en_kind e = UPLOAD_ENTRY_KIND_RESULT ∧ ack_result_acked a = true) →
  recordSettled (MkRecord i (Some e)) (response_view resp) = true.
Proof.
  intros Hnd Hin Hid Hc. unfold recordSettled. cbn [rec_entry]. destruct (bool_decide _); [done|].
  destruct (_ !! rejectionKey _ _ _); [done|].
  rewrite <-Hid, (view_ack _ _ Hnd Hin).
  destruct Hc as [[-> ?]|[[-> ?]|[-> ?]]]; simpl; [by apply Z.leb_le..|done].
Qed.

Section pipeline.
Context {L : WireLib} {LL : WireLibLaws L} {Sv : Server}.

Lemma convert_fields we se :
  convertUploadEntry we = inl se →
  uuid_parse (en_command_id we) = Some (ue_CommandID se) ∧
  ue_Kind se = en_kind we ∧ ue_SeqNo se = en_seq_no we.
Proof.
  unfold convertUploadEntry. destruct (uuid_parse _) as [id|]; [|done]. intros Hc.
  repeat (case_in Hc; simplify_eq/=); try done;
    unfold convert_progress, convert_event, convert_result, base_entry in *; simpl;
    repeat case_match; done.
Qed.

Lemma convert_all_spec entries c a r :
  convert_all entries = (c, a, r) →
  (∀ se, se ∈ c → ∃ we, we ∈ entries ∧ convertUploadEntry we = inl se) ∧
  (∀ we, we ∈ entries → match convertUploadEntry we with
     | inl se => se ∈ c
     | inr reason => MkRejection (en_command_id we) (en_kind we) (en_seq_no we) reason ∈ r
     end).
Proof.
  revert c a r. induction entries as [|we es IH]; intros c a r; simpl.
  { intros [= <- <- <-]. split; intros x Hx; by apply elem_of_nil in Hx. }
  destruct (convert_all es) as [[c0 a0] r0]. destruct (IH c0 a0 r0 eq_refl) as [H1 H2].
  destruct (convertUploadEntry we) as [se|reason] eqn:Ec; intros [= <- <- <-]; split.
  - intros x [->|Hx]%elem_of_cons; [exists we; split; [by left|done]|].
    destruct (H1 _ Hx) as (w & ? & ?). exists w. split; [by right|done].
  - intros w [->|Hw]%elem_of_cons; [rewrite Ec; by left|].
    specialize (H2 _ Hw). destruct (convertUploadEntry w); [by right|done].
  - intros x Hx. destruct (H1 _ Hx) as (w & ? & ?). exists w. split; [by right|done].
  - intros w [->|Hw]%elem_of_cons; [rewrite Ec; by left|].
    specialize (H2 _ Hw). destruct (convertUploadEntry w); [done|by right].
Qed.

Lemma uuid_string_inj u v : uuid_string u = uuid_string v → u = v.
Proof. intros E. pose proof (parse_string u) as H. rewrite E, parse_string in H. congruence. Qed.

(** The id is printed the way the machine sent it. *)
Definition canonical (e : Entry) : Prop :=
  ∀ id, uuid_parse (en_command_id e) = Some id → uuid_string id = en_command_id e.

(** What is kept of an entry: its row, or, for a result, the command's final
    state ([calm]: no other session interfered). *)
Definition entry_kept (calm : Prop) (db : DB) (e : Entry) : Prop :=
  ∃ id, uuid_parse (en_command_id e) = Some id ∧
    ((en_kind e = UPLOAD_ENTRY_KIND_PROGRESS ∧ is_Some (db_output db !! (id, en_seq_no e))) ∨
     (en_kind e = UPLOAD_ENTRY_KIND_EVENT ∧ is_Some (db_event db !! (id, en_seq_no e))) ∨
     (en_kind e = UPLOAD_ENTRY_KIND_RESULT ∧ (calm → closed id db))).

Definition entry_rejected (resp : UploadResponse) (e : Entry) : Prop :=
  ∃ reason, MkRejection (en_command_id e) (en_kind e) (en_seq_no e) reason ∈ resp_rejected resp.

(** A handled batch, in terms of its two halves. *)
Lemma ApplyCommandUpload_ok others machineID now entries d d' resp :
  ApplyCommandUpload others machineID now entries d = Some (d', Ok resp) →
  ∃ c a r res, convert_all entries = (c, a, r) ∧
    ApplyCommandUploadBatch others machineID now c (d_store d) = (d_store d', Ok res) ∧
    resp = response r res.
Proof.
  unfold ApplyCommandUpload. destruct (convert_all entries) as [[c a] r].
  destruct (ApplyCommandUploadBatch _ _ _ c (d_store d)) as [db' [res|e]] eqn:Eb; [|done].
  intros H. apply bind_Some in H as (o & _ & H). apply bind_Some in H as (e & _ & H).
  apply bind_Some in H as (d3 & H3 & H). injection H as <- <-. exists c, a, r, res.
  split; [done|]. split; [|done]. rewrite Eb. simpl. f_equal.
  assert (∀ rs d1 d2, finish_regrades rs d1 = Some d2 → d_store d2 = d_store d1) as Hr.
  { clear. intros rs. induction rs as [|rg rs IH]; intros d1 d2; simpl; [by intros [= ->]|].
    intros H. apply bind_Some in H as (b & _ & H). apply IH in H. by rewrite H. }
  assert (∀ ts d1, d_store (finish_terminals ts d1) = d_store d1) as Ht.
  { clear. intros ts. induction ts as [|t ts IH]; intros d1; [done|].
    change (finish_terminals (t :: ts) d1) with (finish_terminals ts (scheduleWatcherClose
      (uuid_string (ut_CommandID t)) (clearCurrentCommand (ut_AgentID t) (uuid_string (ut_CommandID t)) d1))).
    by rewrite IH. }
  by rewrite (Hr _ _ _ H3), Ht.
Qed.

Lemma entry_outcome others machineID now entries d d' resp e :
  ApplyCommandUpload others machineID now entries d = Some (d', Ok resp) →
  e ∈ entries → canonical e →
  entry_rejected resp e ∨
  (entry_kept (others (d_store d) = d_store d) (d_store d') e ∧
   ∃ a, a ∈ resp_acks resp ∧ NoDup (ack_command_id <$> resp_acks resp) ∧
     ack_command_id a = en_command_id e ∧
     ((en_kind e = UPLOAD_ENTRY_KIND_PROGRESS ∧ en_seq_no e ≤ ack_last_progress_seq a) ∨
      (en_kind e = UPLOAD_ENTRY_KIND_EVENT ∧ en_seq_no e ≤ ack_last_event_seq a) ∨
      (en_kind e = UPLOAD_ENTRY_KIND_RESULT ∧ ack_result_acked a = true))).
Proof.
  intros Hu Hin Hcan. apply ApplyCommandUpload_ok in Hu as (c & a & r & res & Hc & Hb & ->).
  destruct (convert_all_spec _ _ _ _ Hc) as [_ Hall]. specialize (Hall e Hin).
  destruct (convertUploadEntry e) as [se|reason] eqn:Ece.
  2:{ left. exists reason. apply elem_of_app. by left. }
  destruct (convert_fields _ _ Ece) as (Hid & Hk & Hs). pose proof (Hcan _ Hid) as Hstr.
  apply ApplyCommandUploadBatch_run in Hb as [(_ & [[-> _]|?])|Hb]; [by apply elem_of_nil in Hall|done|].
  pose proof Hb as Hb0. apply batch_run in Hb as [Hle Hq].
  destruct (Hq _ eq_refl) as (Hnd & Hrej & Hack).
  destruct (verdict (batch_states c (d_store d)) machineID se) as [reason|] eqn:Hv.
  - left. exists reason. apply elem_of_app. right. apply list_elem_of_fmap.
    exists (rejection se reason). split.
    + unfold wire_rejection, rejection. simpl. by rewrite Hstr, Hk, Hs.
    + apply Hrej. eauto.
  - right. destruct (Hack se Hall Hv) as (ack & Hain & Haid & Hp).
    split.
    + exists (ue_CommandID se). split; [done|]. unfold persisted in Hp. rewrite Hk, Hs in Hp.
      destruct Hp as [(? & _ & ?)|[(? & _ & ?)|(? & _)]]; [by left|by right; left|].
      right; right. split; [done|]. intros Hcalm. rewrite Hcalm in Hb0.
      eapply batch_run_closes; [exact Hb0|done|done|by rewrite Hk].
    + exists (wire_ack ack). split; [|split; [|split]].
      * apply list_elem_of_fmap. eauto.
      * simpl. rewrite <-list_fmap_compose.
        change (ack_command_id ∘ wire_ack) with (uuid_string ∘ ua_CommandID).
        rewrite list_fmap_compose. apply NoDup_fmap_2; [|done]. intros ??. apply uuid_string_inj.
      * simpl. by rewrite Haid.
      * unfold persisted in Hp. rewrite Hk, Hs in Hp. simpl. tauto.
Qed.

(** The same without the machine's view. *)
Lemma handled_entry others machineID now entries d d' resp e :
  ApplyCommandUpload others machineID now entries d = Some (d', Ok resp) →
  e ∈ entries → canonical e →
  entry_rejected resp e ∨ entry_kept (others (d_store d) = d_store d) (d_store d') e.
Proof.
  intros Hu Hin Hcan.
  destruct (entry_outcome _ _ _ _ _ _ _ _ Hu Hin Hcan) as [?|(? & _)]; auto.
Qed.

(** C39: a handled batch settles.  When the manager answers, every entry of the
    batch (whose command id is printed canonically) counts as settled in the
    machine's fold, so the uploader moves past it; and it is settled for a
    reason: it was rejected explicitly, or its row is stored, or it is a result
    and, when no other session interfered, its command is final. *)
Theorem handled_batch_settles others machineID now entries d d' resp i e :
  ApplyCommandUpload others machineID now entries d = Some (d', Ok resp) →
  e ∈ entries → canonical e →
  recordSettled (MkRecord i (Some e)) (response_view resp) = true ∧
  (entry_rejected resp e ∨ entry_kept (others (d_store d) = d_store d) (d_store d') e).
Proof.
  intros Hu Hin Hcan.
  destruct (entry_outcome _ _ _ _ _ _ _ _ Hu Hin Hcan) as [[reason Hr]|(Hk & a & Ha & Hnd & Hid & Hc)].
  - split; [by eapply settled_rejected|]. left. by exists reason.
  - split; [by eapply settled_acked|]. by right.
Qed.

(** *** The transport: the handler behind a network that may lose the answer *)

Record remote := MkRemote { r_disp : dispatcher; r_lost : list bool }.

Definition transport (others : DB → DB) (machineID now : Z) (e : remote) (entries : list Entry)
    : remote * res string UploadResponse :=
  match ApplyCommandUpload others machineID now entries (r_disp e) with
  | None => (e, Err "panic"%string)
  | Some (d', Err _) => (MkRemote d' (tail (r_lost e)), Err "store"%string)
  | Some (d', Ok resp) =>
      (MkRemote d' (tail (r_lost e)),
       if default false (head (r_lost e)) then Err "response lost"%string else Ok resp)
  end.

Context {C : Codec} {CL : CodecLaws C} {W H : Type} {ops : WalOps bytes W H} {WL : WalLaws ops}.

(** C1: no record is lost end to end.  One cycle of the uploader against the
    manager, whether the request fails, the answer is lost or it arrives: every
    record of the machine's log is still in the log afterwards, or was settled
    before, or is torn, or was rejected explicitly, or is kept by the manager;
    the retention cap is the only other way out. *)
Theorem cycle_loses_nothing (S : Z → Prop) others machineID now (u u1 u' : uploader W H remote) r records :
  up_inv u → cursor_inv S u →
  on_ob (ReadRecords ReadBatchMaxEntries UploadMaxBytes (readFrom u)) u = (u1, Ok records) →
  (∀ p e, p ∈ records → rec_entry p = Some e → canonical e) →
  uploadCycle (transport others machineID now) now u = (u', r) →
  ∀ i b, (i, b) ∈ indexed (content (up_ob u1)).1 (content (up_ob u1)).2 →
    (i, b) ∈ indexed (content (up_ob u')).1 (content (up_ob u')).2 ∨
    S i ∨ MaxBytes ≤ gaugeBytes u' ∨
    ∃ p, p ∈ records ∧ rec_index p = i ∧
      match rec_entry p with
      | None => True
      | Some e => ∃ d d' resp,
          ApplyCommandUpload others machineID now (omap rec_entry records) d = Some (d', Ok resp) ∧
          d = r_disp (up_env u) ∧
          (entry_rejected resp e ∨ entry_kept (others (d_store d) = d_store d) (d_store d') e)
      end.
Proof.
  intros Hu HC Hr Hcan Hcyc i b Hin.
  destruct (uploadCycle_keeps (transport others machineID now) S now u u1 u' r records Hu HC Hr Hcyc)
    as (_ & _ & _ & Hkeep & _).
  destruct (Hkeep i b Hin) as [?|[[?|(resp & p & Hup & Hp & Hpi & _)]|?]]; [by left|by right; left| |by auto].
  right; right; right. exists p. split; [done|]. split; [done|].
  destruct (rec_entry p) as [e|] eqn:Epe; [|done].
  unfold transport in Hup.
  destruct (ApplyCommandUpload _ _ _ _ _) as [[d' [resp'|err]]|] eqn:Ea; simpl in Hup; try done.
  destruct (default false (head (r_lost (up_env u)))); [done|]. injection Hup as ->.
  exists (r_disp (up_env u)), d', resp. split; [done|]. split; [done|].
  eapply handled_entry; [exact Ea| |by eapply Hcan]. apply list_elem_of_omap. eauto.
Qed.
End pipeline.

(** ** Concrete runs *)

Module PipelineDemo.
Import Outbox.Demo CommandStore.StoreDemo.
#[local] Existing Instances C ref_codec_laws wops wlaws ref_wire ref_wire_laws sv.

(** Command 2 is printed "0"; one watcher listens to it on each bus. *)
Definition d0 : dispatcher :=
  MkDispatcher db0 (subscribe "0" (newCommandBus (A:=CommandOutput))).2
    (subscribe "0" (newCommandBus (A:=option CommandEvent))).2 ∅ [] 0 0.

Lemma d0_inv : disp_inv d0.
Proof. split; apply subscribe_inv; by split. Qed.

Definition wprogress (seq : Z) : Entry :=
  MkEntry "0" UPLOAD_ENTRY_KIND_PROGRESS seq None
    (Some (PProgress (MkProgress "0" CommandOutput_STDOUT "hello" seq None))).
Definition wevent (seq : Z) : Entry :=
  MkEntry "0" UPLOAD_ENTRY_KIND_EVENT seq None
    (Some (PEvent (MkEvent "0" seq CommandEventType_WARNING "w" None (Some (EvWarning "w"))))).
Definition wresult : Entry :=
  MkEntry "0" UPLOAD_ENTRY_KIND_RESULT 1 None (Some (PResult (MkResult "0" 0 5 "" 1 "ok" (Some "{}")))).
Definition wbad : Entry := MkEntry "x" UPLOAD_ENTRY_KIND_RESULT 1 None None.

Definition up_batch : list Entry := [wprogress 1; wbad; wresult].
Definition handled (es : list Entry) : dispatcher * res sqlerr UploadResponse :=
  default (d0, Err ErrAborted) (ApplyCommandUpload id 7 100 es d0).
Definition answer_of (es : list Entry) : UploadResponse :=
  match (handled es).2 with Ok r => r | Err _ => MkResponse [] [] end.
Definition d1 : dispatcher := Eval vm_compute in (handled up_batch).1.
Definition resp1 : UploadResponse := Eval vm_compute in answer_of up_batch.

Lemma handled_eq : ApplyCommandUpload id 7 100 up_batch d0 = Some (d1, Ok resp1).
Proof. vm_compute. reflexivity. Qed.

Lemma wire_canonical e : en_command_id e = "0"%string ∨ en_command_id e = "x"%string → canonical e.
Proof. intros [E|E] i; rewrite E; [intros [= <-]; reflexivity|intros H; vm_compute in H; discriminate]. Qed.

Lemma upload_handler_total_witness :
  disp_inv d0 ∧ ∃ d' r, ApplyCommandUpload id 7 100 up_batch d0 = Some (d', r) ∧ disp_inv d'.
Proof.
  split; [exact d0_inv|].
  destruct (upload_handler_total id 7 100 up_batch d0 d0_inv) as (d' & r & H1 & H2 & _).
  exists d', r. split; [exact H1|exact H2].
Defined.

Lemma handled_batch_settles_witness :
  recordSettled (MkRecord 9 (Some wresult)) (response_view resp1) = true ∧ length (resp_rejected resp1) = 1%nat.
Proof.
  split; [|reflexivity].
  apply (handled_batch_settles id 7 100 up_batch d0 d1 resp1 9 wresult handled_eq);
    [right; right; left|apply wire_canonical; by left].
Defined.

(** The machine has the three entries on disk; the manager handles the batch and
    the answer is lost, so they are all still there. *)
Definition m0 : uploader (MemWal.memwal (option Entry)) nat remote :=
  NewUploader (MkOutbox (MemWal.MkMem 5 [Some (wprogress 1); Some wbad; Some wresult] 0 [] None 7)
      (Some 0%nat) false [] 0) (MkRemote d0 [true]).
Definition m_read := on_ob (ReadRecords (ops:=wops) ReadBatchMaxEntries UploadMaxBytes 0) m0.
Definition m_recs : list record :=
  [MkRecord 5 (Some (wprogress 1)); MkRecord 6 (Some wbad); MkRecord 7 (Some wresult)].
Definition m_cycle := uploadCycle (ops:=wops) (transport id 7 100) 100 m0.

Lemma m_read_eq : m_read = (m_read.1, Ok m_recs).
Proof. vm_compute. reflexivity. Qed.
Lemma m_cycle_eq : m_cycle = (m_cycle.1, m_cycle.2).
Proof. vm_compute. reflexivity. Qed.
Lemma m0_inv : up_inv (WL:=wlaws) m0.
Proof. split; [|reflexivity]. intros h [= <-]. split; reflexivity. Qed.
Lemma m0_cursor : cursor_inv (WL:=wlaws) (λ _, False) m0.
Proof.
  split; [vm_compute; discriminate|]. intros i b Hin Hi.
  apply elem_of_indexed in Hin as [Hf _]. simpl in Hf, Hi. lia.
Qed.

Lemma cycle_loses_nothing_witness :
  (7, Some wresult) ∈ indexed (content (WL:=wlaws) (up_ob m_cycle.1)).1 (content (WL:=wlaws) (up_ob m_cycle.1)).2 ∨
  False ∨ MaxBytes ≤ gaugeBytes m_cycle.1 ∨
  ∃ p, p ∈ m_recs ∧ rec_index p = 7 ∧
    match rec_entry p with
    | None => True
    | Some e => ∃ d d' resp,
        ApplyCommandUpload id 7 100 (omap rec_entry m_recs) d = Some (d', Ok resp) ∧
        d = r_disp (up_env m0) ∧
        (entry_rejected resp e ∨ entry_kept (id (d_store d) = d_store d) (d_store d') e)
    end.
Proof.
  apply (cycle_loses_nothing (WL:=wlaws) (λ _, False) id 7 100 m0 m_read.1 m_cycle.1 m_cycle.2 m_recs
    m0_inv m0_cursor m_read_eq).
  - intros p e Hp He. apply wire_canonical.
    repeat (apply elem_of_cons in Hp as [->|Hp]; [injection He as <-; vm_compute; tauto|]).
    by apply elem_of_nil in Hp.
  - exact m_cycle_eq.
  - vm_compute. right. right. left.
Defined.

Definition watched (es : list Entry) (w : nat) : list CommandOutput * list (option CommandEvent) :=
  let d := (handled es).1 in
  (default [] (ch_buf <$> b_chans (d_outputs d) !! w), default [] (ch_buf <$> b_chans (d_events d) !! w)).

(** The broadcast key leaves the kind out.  A batch that carries progress 1
    and event 1 of one command stores both rows and acks both, but the output
    watcher receives an empty message in place of the progress; with the event
    first, the event watcher receives nothing. *)
Theorem broadcast_key_collision :
  (watched [wprogress 1; wevent 1] 0%nat).1 = [MkCommandOutput "" 0 "" 0 None] ∧
  (watched [wevent 1; wprogress 1] 0%nat).2 = [] ∧
  (watched [wprogress 1; wevent 2] 0%nat).1 = [MkCommandOutput "0" CommandOutput_STDOUT "hello" 1 None] ∧
  db_output (d_store (handled [wprogress 1; wevent 1]).1) !! (2%N, 1)
    = Some (MkOutputRow CommandOutput_STDOUT "hello" 100) ∧
  resp_rejected (answer_of [wprogress 1; wevent 1]) = [].
Proof. vm_compute. split_and!; reflexivity. Qed.
End PipelineDemo.
