(* ===== verification/Sessions.v ===== *)
(** Live control streams of machines and provisioners: the session registry,
    (re)connects, teardown and the ping monitor
    ([backend/manager/component/dispatcher/session_registry.go],
    [session_lifecycle.go], [liveness.go], [provisioner.go] and the session types
    of [dispatcher.go]).

    Sessions are pointers, so they live in a heap; [s_send] is the atomic
    pointer to the stream's send function ([None]: nil, invalidated).  The
    source writes the machine and the provisioner half separately; here they
    are one development, at the two message types. *)

From stdpp Require Import base list strings numbers gmap sets relations.
From S2P Require Import Prelude.
Local Open Scope Z_scope.

Definition pingInterval : Z := 15 * Second.
Definition pingTimeout : Z := 45 * Second.

Record session := MkSession {
  s_id : Z; s_resourceID : string; s_send : option nat; s_lastPingAt : Z; s_connectedAt : Z }.

Definition invalidate (s : session) : session :=
  MkSession (s_id s) (s_resourceID s) None (s_lastPingAt s) (s_connectedAt s).
Definition set_lastPing (now : Z) (s : session) : session :=
  MkSession (s_id s) (s_resourceID s) (s_send s) now (s_connectedAt s).

(** Why a message did not reach its stream. *)
Inductive senderr := ErrNotConnected | ErrInvalidated | ErrStream.

Section sessions.
Context {A : Type}.

(** [r_map]: the registered session of an id.  [r_wire]: what the streams
    accepted; a stream of [r_broken] refuses every send. *)
Record registry := MkRegistry {
  r_heap : gmap nat session;
  r_map : gmap Z nat;
  r_next : nat;
  r_wire : list (nat * A);
  r_broken : gset nat
}.

Definition newSessionRegistry : registry := MkRegistry ∅ ∅ 0 [] ∅.

Definition set_heap (h : gmap nat session) (r : registry) : registry :=
  MkRegistry h (r_map r) (r_next r) (r_wire r) (r_broken r).
Definition set_map (m : gmap Z nat) (r : registry) : registry :=
  MkRegistry (r_heap r) m (r_next r) (r_wire r) (r_broken r).

Definition get (id : Z) (r : registry) : option nat := r_map r !! id.

Definition delete_session (id : Z) (r : registry) : registry * option nat :=
  match r_map r !! id with
  | Some p => (set_map (delete id (r_map r)) r, Some p)
  | None => (r, None)
  end.

(** deleteMachineIf: only when [p] is still the registered one. *)
Definition deleteIf (id : Z) (p : nat) (r : registry) : registry * bool :=
  match r_map r !! id with
  | Some c => if decide (c = p) then (set_map (delete id (r_map r)) r, true) else (r, false)
  | None => (r, false)
  end.

Definition snapshot (r : registry) : list nat := (map_to_list (r_map r)).*2.

Definition teardown (p : nat) (r : registry) : registry :=
  set_heap (alter invalidate p (r_heap r)) r.

(** deliver: load the send pointer, then call it (both under sendMu). *)
Definition load (p : nat) (r : registry) : option nat := r_heap r !! p ≫= s_send.
Definition call (st : nat) (m : A) (r : registry) : registry * res senderr unit :=
  if decide (st ∈ r_broken r) then (r, Err ErrStream)
  else (MkRegistry (r_heap r) (r_map r) (r_next r) (r_wire r ++ [(st, m)]) (r_broken r), Ok tt).
Definition deliver (p : nat) (m : A) (r : registry) : registry * res senderr unit :=
  match load p r with
  | None => (r, Err ErrInvalidated)
  | Some st => call st m r
  end.
Definition sendTo (id : Z) (m : A) (r : registry) : registry * res senderr unit :=
  match get id r with
  | None => (r, Err ErrNotConnected)
  | Some p => deliver p m r
  end.

(** RegisterMachine / RegisterProvisioner, one critical section. *)
Definition register_session (id : Z) (resourceID : string) (send : nat) (now : Z) (r : registry)
    : registry * nat :=
  let h := match r_map r !! id with
           | Some old => alter invalidate old (r_heap r)
           | None => r_heap r
           end in
  let p := r_next r in
  (MkRegistry (<[p := MkSession id resourceID (Some send) now now]> h) (<[id := p]> (r_map r))
     (S p) (r_wire r) (r_broken r), p).

Definition unregister (id : Z) (r : registry) : registry :=
  match delete_session id r with
  | (r', Some p) => teardown p r'
  | (_, None) => r
  end.
Definition unregisterIf (id : Z) (p : nat) (r : registry) : registry * bool :=
  match deleteIf id p r with
  | (r', true) => (teardown p r', true)
  | (_, false) => (r, false)
  end.

Definition is_connected (id : Z) (r : registry) : bool :=
  match get id r with Some _ => true | None => false end.

Definition touch (p : nat) (now : Z) (r : registry) : registry :=
  set_heap (alter (set_lastPing now) p (r_heap r)) r.

(** One iteration of checkSessionLiveness. *)
Definition check_one (timeout now : Z) (r : registry) (p : nat) : registry :=
  match r_heap r !! p with
  | None => r
  | Some s =>
      match s_send s with
      | None => r
      | Some _ => if timeout <? now - s_lastPingAt s then (unregisterIf (s_id s) p r).1 else r
      end
  end.

(** [ps] is the snapshot, in the map's iteration order. *)
Definition checkSessionLiveness (timeout now : Z) (ps : list nat) (r : registry) : registry :=
  foldl (check_one timeout now) r ps.

(** ** Interleavings

    UnregisterMachine releases the registry lock between the removal and the
    invalidation, and a send loads the pointer before it calls it.  [y_torn]:
    removed sessions not yet invalidated; [y_flight]: loaded sends not yet
    made. *)
Record sys := MkSys { y_reg : registry; y_torn : list nat; y_flight : list (nat * A) }.

Inductive step : sys → sys → Prop :=
| StepRegister id rid st now r t f :
    step (MkSys r t f) (MkSys (register_session id rid st now r).1 t f)
| StepDelete id r r' p t f :
    delete_session id r = (r', Some p) → step (MkSys r t f) (MkSys r' (p :: t) f)
| StepDeleteIf id p r r' t f :
    deleteIf id p r = (r', true) → step (MkSys r t f) (MkSys r' (p :: t) f)
| StepTeardown p r t1 t2 f :
    step (MkSys r (t1 ++ p :: t2) f) (MkSys (teardown p r) (t1 ++ t2) f)
| StepPing p now r t f :
    step (MkSys r t f) (MkSys (touch p now r) t f)
| StepLoad p st m r t f :
    load p r = Some st → step (MkSys r t f) (MkSys r t ((st, m) :: f))
| StepCall st m r t f1 f2 :
    step (MkSys r t (f1 ++ (st, m) :: f2)) (MkSys (call st m r).1 t (f1 ++ f2))
| StepBreak st r t f :
    step (MkSys r t f)
      (MkSys (MkRegistry (r_heap r) (r_map r) (r_next r) (r_wire r) ({[st]} ∪ r_broken r)) t f).

Definition init : sys := MkSys newSessionRegistry [] [].
Definition reachable (y : sys) : Prop := rtc step init y.

(** ** The invariant *)

Definition live (r : registry) (p : nat) (id : Z) : Prop :=
  ∃ s, r_heap r !! p = Some s ∧ s_id s = id ∧ is_Some (s_send s).

Record sys_inv (y : sys) : Prop := {
  inv_registered id p : r_map (y_reg y) !! id = Some p → live (y_reg y) p id;
  inv_live p id : live (y_reg y) p id → r_map (y_reg y) !! id = Some p ∨ p ∈ y_torn y;
  inv_torn id p : p ∈ y_torn y → r_map (y_reg y) !! id ≠ Some p;
  inv_fresh p : is_Some (r_heap (y_reg y) !! p) → (p < r_next (y_reg y))%nat;
  inv_torn_heap p : p ∈ y_torn y → is_Some (r_heap (y_reg y) !! p)
}.
Definition reg_inv (r : registry) : Prop := sys_inv (MkSys r [] []).

Lemma live_alter f p q id r :
  (∀ s, s_id (f s) = s_id s) → (∀ s, is_Some (s_send (f s)) → is_Some (s_send s)) →
  live (set_heap (alter f p (r_heap r)) r) q id → live r q id.
Proof.
  intros Hid Hs (s & Hq & <- & Hl). simpl in Hq. destruct (decide (p = q)) as [->|Hne].
  - rewrite lookup_alter_eq in Hq. destruct (r_heap r !! q) as [s0|] eqn:E; [|done].
    injection Hq as <-. exists s0. by rewrite Hid; eauto.
  - rewrite lookup_alter_ne in Hq by done. by exists s.
Qed.

Lemma live_alter_other f p q id r :
  p ≠ q → live r q id → live (set_heap (alter f p (r_heap r)) r) q id.
Proof. intros Hne (s & Hq & ?). exists s. simpl. by rewrite lookup_alter_ne. Qed.

Lemma live_inj r p id1 id2 : live r p id1 → live r p id2 → id1 = id2.
Proof. intros (s1 & H1 & <- & _) (s2 & H2 & <- & _). congruence. Qed.

Lemma not_live_torn p id r : ¬ live (teardown p r) p id.
Proof.
  intros (s & Hq & _ & Hl). simpl in Hq. rewrite lookup_alter_eq in Hq.
  destruct (r_heap r !! p) as [s0|]; [|done]. injection Hq as <-. by destruct Hl.
Qed.

Lemma alter_is_Some (f : session → session) p q (h : gmap nat session) :
  is_Some (alter f p h !! q) ↔ is_Some (h !! q).
Proof.
  destruct (decide (p = q)) as [->|Hne].
  - rewrite lookup_alter_eq. destruct (h !! q); simpl; split; intros [? ?]; eauto; done.
  - by rewrite lookup_alter_ne.
Qed.

Lemma register_inv id rid st now r t f :
  sys_inv (MkSys r t f) → sys_inv (MkSys (register_session id rid st now r).1 t f).
Proof.
  intros [Hr Hl Ht Hf Hh]; simpl in *.
  set (h := match r_map r !! id with Some old => alter invalidate old (r_heap r) | None => r_heap r end).
  assert (∀ q, is_Some (h !! q) ↔ is_Some (r_heap r !! q)) as Hdom.
  { intros q. unfold h. destruct (r_map r !! id); [apply alter_is_Some|done]. }
  (* the sessions still live are the old ones, less the replaced one *)
  assert (∀ q i, live (set_heap h r) q i → live r q i ∧ r_map r !! id ≠ Some q) as Hold.
  { intros q i Hq. unfold h in Hq. destruct (r_map r !! id) as [o|] eqn:E.
    - split; [by eapply (live_alter invalidate o); [done| |exact Hq]; intros ? [? ?]|].
      intros [= ->]. by eapply (not_live_torn q i r).
    - split; [|done]. destruct Hq as (s & ? & ?). by exists s. }
  assert (∀ q i, live r q i → r_map r !! id ≠ Some q → live (set_heap h r) q i) as Hkeep.
  { intros q i Hq Hne. unfold h. destruct (r_map r !! id) as [o|] eqn:E.
    - apply live_alter_other; [congruence|done].
    - destruct Hq as (s & ? & ?). by exists s. }
  assert (r_heap r !! r_next r = None) as Hnew.
  { destruct (r_heap r !! r_next r) eqn:E; [|done]. exfalso.
    pose proof (Hf (r_next r) ltac:(by rewrite E)). lia. }
  assert (∀ q i, live (register_session id rid st now r).1 q i ↔
    (q = r_next r ∧ i = id) ∨ (q ≠ r_next r ∧ live (set_heap h r) q i)) as Hlive.
  { intros q i. unfold live; simpl. fold h. destruct (decide (q = r_next r)) as [->|Hne].
    - rewrite lookup_insert_eq. split.
      + intros (s & [= <-] & <- & _). by left.
      + intros [[_ ->]|[? _]]; [|done]. eexists. split; [done|]. split; [done|]. by eexists.
    - rewrite lookup_insert_ne by done. split.
      + intros H. by right.
      + intros [[? _]|[_ H]]; [done|exact H]. }
  split; simpl.
  - intros i q. destruct (decide (i = id)) as [->|Hne].
    + rewrite lookup_insert_eq. intros [= <-]. apply Hlive. by left.
    + rewrite lookup_insert_ne by done. intros Hq. apply Hlive. right.
      pose proof (Hr _ _ Hq) as Hq'. split.
      * intros ->. destruct Hq' as (s & Hs & _). by rewrite Hnew in Hs.
      * apply Hkeep; [done|]. intros E. apply Hr in E.
        by pose proof (live_inj _ _ _ _ Hq' E).
  - intros q i [[-> ->]|[Hne Hq]]%Hlive; [left; by rewrite lookup_insert_eq|].
    apply Hold in Hq as [Hq Hid]. destruct (Hl _ _ Hq) as [Hm|?]; [|by right].
    left. rewrite lookup_insert_ne; [done|]. intros <-. done.
  - intros i q Hq. destruct (decide (i = id)) as [->|Hne].
    + rewrite lookup_insert_eq. intros [= <-]. destruct (Hh _ Hq) as [s Hs]. by rewrite Hnew in Hs.
    + rewrite lookup_insert_ne by done. by apply Ht.
  - intros q. fold h. destruct (decide (q = r_next r)) as [->|Hne]; [lia|].
    rewrite lookup_insert_ne by done. intros Hq. apply Hdom, Hf in Hq. lia.
  - intros q Hq. fold h. destruct (decide (q = r_next r)) as [->|Hne].
    + rewrite lookup_insert_eq. eauto.
    + rewrite lookup_insert_ne by done. by apply Hdom, Hh.
Qed.

Lemma removed_inv id p r t f :
  r_map r !! id = Some p → sys_inv (MkSys r t f) →
  sys_inv (MkSys (set_map (delete id (r_map r)) r) (p :: t) f).
Proof.
  intros Hp [Hr Hl Ht Hf Hh]; simpl in *.
  assert (∀ q i, live (set_map (delete id (r_map r)) r) q i ↔ live r q i) as Hlive by done.
  split; simpl.
  - intros i q [_ Hq]%lookup_delete_Some. by apply Hlive, Hr.
  - intros q i Hq%Hlive. destruct (Hl _ _ Hq) as [Hm|?]; [|right; by right].
    destruct (decide (i = id)) as [->|Hne].
    + right. rewrite Hp in Hm. injection Hm as ->. by left.
    + left. by rewrite lookup_delete_ne.
  - intros i q [->|Hq]%elem_of_cons [Hne Hm]%lookup_delete_Some; [|by eapply Ht].
    apply Hne. eapply live_inj; by apply Hr.
  - done.
  - intros q [->|Hq]%elem_of_cons; [|by apply Hh]. destruct (Hr _ _ Hp) as (s & ? & _). eauto.
Qed.

Lemma teardown_inv p r t1 t2 f :
  sys_inv (MkSys r (t1 ++ p :: t2) f) → sys_inv (MkSys (teardown p r) (t1 ++ t2) f).
Proof.
  intros [Hr Hl Ht Hf Hh]; simpl in *.
  assert (∀ q, q ∈ t1 ++ t2 → q ∈ t1 ++ p :: t2) as Hsub by set_solver.
  split; simpl.
  - intros i q Hq. apply live_alter_other; [|by apply Hr].
    intros <-. eapply (Ht i p); [set_solver|done].
  - intros q i Hq. destruct (decide (q = p)) as [->|Hne]; [by apply not_live_torn in Hq|].
    apply (live_alter invalidate p q i r) in Hq; [|done|by intros ? [? ?]].
    destruct (Hl _ _ Hq); [by left|right; set_solver].
  - intros i q Hq. apply Ht. auto.
  - intros q Hq%alter_is_Some. by apply Hf.
  - intros q Hq. apply alter_is_Some, Hh. auto.
Qed.

Lemma touch_inv p now r t f :
  sys_inv (MkSys r t f) → sys_inv (MkSys (touch p now r) t f).
Proof.
  intros [Hr Hl Ht Hf Hh]; simpl in *.
  assert (∀ q i, live (touch p now r) q i ↔ live r q i) as Hlive.
  { intros q i. split; [by apply live_alter|]. intros (s & Hs & <- & Hsome).
    destruct (decide (p = q)) as [->|Hne]; [|apply live_alter_other; [done|by exists s]].
    exists (set_lastPing now s). simpl. by rewrite lookup_alter_eq, Hs. }
  split; simpl.
  - intros i q Hq. by apply Hlive, Hr.
  - intros q i Hq%Hlive. auto.
  - done.
  - intros q Hq%alter_is_Some. by apply Hf.
  - intros q Hq. by apply alter_is_Some, Hh.
Qed.

(** Steps that leave the heap and the map as they are. *)
Lemma frame_inv r r' t f f' :
  r_heap r' = r_heap r → r_map r' = r_map r → r_next r' = r_next r →
  sys_inv (MkSys r t f) → sys_inv (MkSys r' t f').
Proof.
  intros E1 E2 E3 [Hr Hl Ht Hf Hh]. unfold live in *. simpl in *.
  split; unfold live; simpl; rewrite ?E1, ?E2, ?E3; done.
Qed.

Lemma delete_Some id r r' p :
  delete_session id r = (r', Some p) → r_map r !! id = Some p ∧ r' = set_map (delete id (r_map r)) r.
Proof. unfold delete_session. by destruct (r_map r !! id); intros [= <- <-]. Qed.

Lemma deleteIf_true id p r r' :
  deleteIf id p r = (r', true) → r_map r !! id = Some p ∧ r' = set_map (delete id (r_map r)) r.
Proof.
  unfold deleteIf. destruct (r_map r !! id) as [c|]; [|done].
  destruct (decide (c = p)) as [->|]; [|done]. by intros [= <-].
Qed.

Lemma call_frame st m r : r_heap (call st m r).1 = r_heap r ∧ r_map (call st m r).1 = r_map r ∧
  r_next (call st m r).1 = r_next r.
Proof. unfold call. by destruct (decide _). Qed.

Lemma step_inv y y' : step y y' → sys_inv y → sys_inv y'.
Proof.
  intros Hs Hi. destruct Hs.
  - by apply register_inv.
  - apply delete_Some in H as [Hp ->]. by apply removed_inv.
  - apply deleteIf_true in H as [Hp ->]. by apply removed_inv.
  - by apply teardown_inv.
  - by apply touch_inv.
  - by eapply frame_inv.
  - destruct (call_frame st m r) as (E1 & E2 & E3). by eapply frame_inv.
  - by eapply frame_inv; [..|exact Hi].
Qed.

Lemma init_inv : sys_inv init.
Proof.
  split; simpl.
  - intros ? ? H. by rewrite lookup_empty in H.
  - intros p id (s & H & _). simpl in H. by rewrite lookup_empty in H.
  - intros id p H. by apply elem_of_nil in H.
  - intros p [s H]. by rewrite lookup_empty in H.
  - intros p H. by apply elem_of_nil in H.
Qed.

Lemma reachable_inv y : reachable y → sys_inv y.
Proof.
  unfold reachable. generalize init_inv. intros H0 Hr. induction Hr as [|y1 y2 y3 Hs _ IH]; [done|].
  apply IH. by eapply step_inv.
Qed.

(** ** The operations as runs of steps *)

Lemma unregister_steps id r t f : rtc step (MkSys r t f) (MkSys (unregister id r) t f).
Proof.
  unfold unregister. destruct (delete_session id r) as [r' [p|]] eqn:E; [|done].
  eapply rtc_l; [by eapply StepDelete|]. apply rtc_once. apply (StepTeardown p r' [] t f).
Qed.

Lemma unregisterIf_steps id p r t f : rtc step (MkSys r t f) (MkSys (unregisterIf id p r).1 t f).
Proof.
  unfold unregisterIf. destruct (deleteIf id p r) as [r' [|]] eqn:E; [|done].
  eapply rtc_l; [by eapply StepDeleteIf|]. apply rtc_once. apply (StepTeardown p r' [] t f).
Qed.

Lemma sendTo_steps id m r t f : rtc step (MkSys r t f) (MkSys (sendTo id m r).1 t f).
Proof.
  unfold sendTo, deliver. destruct (get id r) as [p|]; [|done].
  destruct (load p r) as [st|] eqn:E; [|done].
  eapply rtc_l; [by eapply (StepLoad p st m)|]. apply rtc_once. apply (StepCall st m r t [] f).
Qed.

Lemma check_one_steps timeout now p r t f :
  rtc step (MkSys r t f) (MkSys (check_one timeout now r p) t f).
Proof.
  unfold check_one. destruct (r_heap r !! p) as [s|]; [|done]. destruct (s_send s); [|done].
  case_match; [|done]. apply unregisterIf_steps.
Qed.

(** The facade's calls on the registry. *)
Inductive reg_op :=
| OpRegister (id : Z) (rid : string) (st : nat) (now : Z)
| OpUnregister (id : Z)
| OpUnregisterIf (id : Z) (p : nat)
| OpSend (id : Z) (m : A)
| OpPing (p : nat) (now : Z)
| OpCheck (timeout now : Z) (ps : list nat).

Definition run_reg_op (o : reg_op) (r : registry) : registry :=
  match o with
  | OpRegister id rid st now => (register_session id rid st now r).1
  | OpUnregister id => unregister id r
  | OpUnregisterIf id p => (unregisterIf id p r).1
  | OpSend id m => (sendTo id m r).1
  | OpPing p now => touch p now r
  | OpCheck timeout now ps => checkSessionLiveness timeout now ps r
  end.

Lemma op_steps o r t f : rtc step (MkSys r t f) (MkSys (run_reg_op o r) t f).
Proof.
  destruct o as [id rid st now|id|id p|id m|p now|timeout now ps]; simpl.
  - apply rtc_once, StepRegister.
  - apply unregister_steps.
  - apply unregisterIf_steps.
  - apply sendTo_steps.
  - apply rtc_once, StepPing.
  - unfold checkSessionLiveness. revert r. induction ps as [|p ps IH]; intros r; [done|].
    etrans; [apply check_one_steps|apply IH].
Qed.

Lemma op_reg_inv o r : reg_inv r → reg_inv (run_reg_op o r).
Proof.
  unfold reg_inv. intros Hi. pose proof (op_steps o r [] []) as Hs. revert Hi.
  induction Hs as [|y1 y2 y3 H1 _ IH]; [done|]. intros Hi. apply IH. by eapply step_inv.
Qed.

(** C36: sessions are exclusive under every interleaving.  Whatever registrations,
    removals, teardowns, pings and sends interleave, the registered session of
    an id is live and is that id's; any other live session of the id has been
    removed and awaits its invalidation; and a teardown never hits the
    registered session, so a late cleanup cannot destroy a reconnect. *)
Theorem session_exclusive y :
  reachable y →
  (∀ id p, get id (y_reg y) = Some p → live (y_reg y) p id ∧ p ∉ y_torn y) ∧
  (∀ id p q, get id (y_reg y) = Some p → live (y_reg y) q id → q = p ∨ q ∈ y_torn y) ∧
  (∀ o, reachable (MkSys (run_reg_op o (y_reg y)) (y_torn y) (y_flight y))).
Proof.
  intros Hy. pose proof (reachable_inv y Hy) as [Hr Hl Ht Hf Hh]. unfold get. split; [|split].
  - intros id p Hp. split; [by apply Hr|]. intros Hin. by eapply Ht.
  - intros id p q Hp Hq. destruct (Hl _ _ Hq) as [Hm|?]; [|by right]. left. congruence.
  - intros o. unfold reachable in *. etrans; [exact Hy|]. destruct y as [r t f]. apply op_steps.
Qed.

(** What a send does.  A message goes to the newest stream registered for
    the id and to no other; it is refused exactly when the id has no session or
    its stream refuses, and a refusal changes nothing. *)
Theorem send_reaches_registered id m r r' b :
  reg_inv r → sendTo id m r = (r', b) →
  match b with
  | Ok _ => ∃ p s st, get id r = Some p ∧ r_heap r !! p = Some s ∧ s_id s = id ∧ s_send s = Some st ∧
              r_wire r' = r_wire r ++ [(st, m)] ∧ r_map r' = r_map r ∧ r_heap r' = r_heap r
  | Err ErrNotConnected => r' = r ∧ is_connected id r = false
  | Err ErrInvalidated => False
  | Err ErrStream => r' = r ∧ is_connected id r = true
  end.
Proof.
  intros [Hr _ _ _ _]. unfold sendTo, deliver, call, is_connected, get in *. simpl in Hr.
  destruct (r_map r !! id) as [p|] eqn:Ep; [|by intros [= <- <-]].
  destruct (Hr _ _ Ep) as (s & Hs & Hid & [st Hst]). unfold load. rewrite Hs. simpl. rewrite Hst.
  destruct (decide _); intros [= <- <-]; [done|]. by exists p, s, st.
Qed.

(** ** The ping monitor *)

Definition idle (timeout now : Z) (r : registry) (p : nat) : Prop :=
  ∃ s, r_heap r !! p = Some s ∧ timeout < now - s_lastPingAt s.

Lemma check_one_spec timeout now p id r :
  reg_inv r → r_map r !! id = Some p →
  let r' := check_one timeout now r p in
  r_wire r' = r_wire r ∧
  (∀ q, q ≠ p → r_heap r' !! q = r_heap r !! q) ∧ (∀ i, i ≠ id → r_map r' !! i = r_map r !! i) ∧
  ((idle timeout now r p ∧ r_map r' !! id = None ∧ load p r' = None) ∨ (¬ idle timeout now r p ∧ r' = r)).
Proof.
  intros [Hr _ _ _ _] Hp. destruct (Hr _ _ Hp) as (s & Hs & Hid & [st Hst]).
  unfold check_one, idle. simpl in Hs. rewrite Hs, Hst.
  destruct (timeout <? now - s_lastPingAt s) eqn:Et.
  2:{ apply Z.ltb_ge in Et. split; [done|]. split; [done|]. split; [done|]. right. split; [|done].
      intros (s' & [= <-] & ?). lia. }
  apply Z.ltb_lt in Et. unfold unregisterIf, deleteIf. simpl in Hid. rewrite Hid. simpl in Hp. rewrite Hp.
  destruct (decide (p = p)); [|done]. simpl. split; [done|]. split.
  { intros q Hq. by rewrite lookup_alter_ne. }
  split; [intros i Hi; by rewrite lookup_delete_ne|]. left. split; [eauto|].
  split; [by rewrite lookup_delete_eq|]. unfold load. simpl. by rewrite lookup_alter_eq, Hs.
Qed.

Lemma check_loop_spec timeout now ps r :
  reg_inv r → NoDup ps → (∀ p, p ∈ ps → ∃ id, r_map r !! id = Some p) →
  let r' := checkSessionLiveness timeout now ps r in
  r_wire r' = r_wire r ∧ reg_inv r' ∧
  (∀ id p, r_map r' !! id = Some p ↔ r_map r !! id = Some p ∧ (p ∈ ps → ¬ idle timeout now r p)) ∧
  (∀ p, p ∈ ps → idle timeout now r p → load p r' = None) ∧
  (∀ p, p ∉ ps → r_heap r' !! p = r_heap r !! p).
Proof.
  revert r. induction ps as [|p ps IH]; intros r Hi Hnd Hps; simpl.
  { split; [done|]. split; [done|]. split; [|split; [by intros ? ?%elem_of_nil|done]].
    intros id p. split; [|tauto]. intros ?. split; [done|]. by intros ?%elem_of_nil. }
  apply NoDup_cons in Hnd as [Hni Hnd].
  destruct (Hps p ltac:(by left)) as [id0 Hp].
  pose proof (check_one_spec timeout now p id0 r Hi Hp) as (Hw & Hheap & Hmap & Hcase).
  set (r1 := check_one timeout now r p) in *.
  assert (reg_inv r1) as Hi1.
  { change r1 with (run_reg_op (OpCheck timeout now [p]) r). by apply op_reg_inv. }
  assert (∀ q i, r_map r !! i = Some q → q ≠ p → r_map r1 !! i = Some q) as Hother.
  { intros q i Hq Hne. rewrite Hmap; [done|]. intros ->. congruence. }
  assert (∀ q, q ≠ p → idle timeout now r1 q ↔ idle timeout now r q) as Hidle.
  { intros q Hne. unfold idle. by rewrite Hheap. }
  destruct (IH r1 Hi1 Hnd) as (Hw2 & Hi2 & Hm2 & Hl2 & Hh2).
  { intros q Hq. destruct (Hps q ltac:(by right)) as [i Hqi]. exists i. apply Hother; [done|]. by intros ->. }
  change (checkSessionLiveness timeout now (p :: ps) r) with (checkSessionLiveness timeout now ps r1).
  split; [by rewrite Hw2|]. split; [done|]. split; [|split].
  - intros id q. rewrite Hm2. destruct (decide (q = p)) as [->|Hne].
    + split.
      * intros [Hq _]. destruct Hcase as [(_ & Hnone & _)|[Hid ->]].
        { exfalso. destruct (decide (id = id0)) as [->|Hne]; [congruence|].
          rewrite (Hmap id Hne) in Hq. apply Hne. destruct Hi as [Hr _ _ _ _]. eapply live_inj; by apply Hr. }
        split; [done|]. done.
      * intros [Hq Hid]. split; [|done]. destruct Hcase as [(Hid' & _)|[_ ->]]; [|done].
        exfalso. apply Hid; [by left|done].
    + rewrite (Hidle q Hne). split.
      * intros [Hq Hid]. assert (id ≠ id0) as Hid0.
        { intros ->. destruct Hcase as [(_ & ? & _)|[_ E]]; [congruence|]. rewrite E in Hq. congruence. }
        rewrite (Hmap id Hid0) in Hq. split; [done|]. intros [->|?]%elem_of_cons; auto.
      * intros [Hq Hid]. split; [by apply Hother|]. intros ?. apply Hid. by right.
  - intros q [->|Hq]%elem_of_cons Hid.
    + destruct Hcase as [(_ & _ & Hl)|[? _]]; [|done]. unfold load in *. by rewrite Hh2.
    + apply Hl2; [done|]. apply Hidle; [|done]. by intros ->.
  - intros q [Hne Hq]%not_elem_of_cons. rewrite Hh2 by done. by apply Hheap.
Qed.

(** The ping monitor.  One check keeps exactly the sessions that pinged
    within the timeout and invalidates the others; nothing is sent, and the
    order in which the snapshot is walked does not matter. *)
Theorem liveness_check timeout now ps r :
  reg_inv r → ps ≡ₚ snapshot r →
  let r' := checkSessionLiveness timeout now ps r in
  reg_inv r' ∧ r_wire r' = r_wire r ∧
  (∀ id p, get id r' = Some p ↔ get id r = Some p ∧ ¬ idle timeout now r p) ∧
  (∀ id p, get id r = Some p → idle timeout now r p → load p r' = None).
Proof.
  intros Hi Hps.
  assert (∀ p, p ∈ ps ↔ ∃ id, r_map r !! id = Some p) as Hin.
  { intros p. rewrite Hps. unfold snapshot. rewrite list_elem_of_fmap. split.
    - intros ([id q] & -> & Hq%elem_of_map_to_list). eauto.
    - intros [id Hq]. exists (id, p). split; [done|]. by apply elem_of_map_to_list. }
  assert (NoDup ps) as Hnd.
  { rewrite Hps. unfold snapshot. apply NoDup_fmap_2_strong; [|apply NoDup_map_to_list].
    intros [i p] [j q] Hp%elem_of_map_to_list Hq%elem_of_map_to_list. simpl. intros ->.
    f_equal. destruct Hi as [Hr _ _ _ _]. eapply live_inj; by apply Hr. }
  destruct (check_loop_spec timeout now ps r Hi Hnd) as (Hw & Hi' & Hm & Hl & _); [by intros p ?%Hin|].
  split; [done|]. split; [done|]. unfold get. split.
  - intros id p. rewrite Hm. split; intros [Hp Hid]; (split; [done|]); [|tauto].
    apply Hid, Hin. eauto.
  - intros id p Hp Hid. apply Hl; [|done]. apply Hin. eauto.
Qed.
End sessions.

(** ** Concrete runs *)

Module SessionsDemo.

(** Machine 1 connects on stream 7, machine 2 on stream 9, and machine 1 again
    on stream 8. *)
Definition r1 : registry (A:=string) := (register_session 1 "m1" 7 100 newSessionRegistry).1.
Definition r2 : registry (A:=string) := (register_session 2 "m2" 9 150 r1).1.
Definition r3 : registry (A:=string) := (register_session 1 "m1" 8 200 r2).1.

Lemma r3_inv : reg_inv r3.
Proof.
  apply (op_reg_inv (OpRegister 1 "m1" 8 200) r2), (op_reg_inv (OpRegister 2 "m2" 9 150) r1),
    (op_reg_inv (OpRegister 1 "m1" 7 100) newSessionRegistry), init_inv.
Qed.

Lemma r3_reachable : reachable (MkSys r3 [] []).
Proof.
  unfold reachable, init.
  eapply rtc_l; [apply (StepRegister 1 "m1" 7 100)|].
  eapply rtc_l; [apply (StepRegister 2 "m2" 9 150)|].
  apply rtc_once, (StepRegister 1 "m1" 8 200).
Qed.

Lemma session_exclusive_witness : live r3 2%nat 1 ∧ (2%nat ∉ @nil nat).
Proof. exact (proj1 (session_exclusive (MkSys r3 [] []) r3_reachable) 1 2%nat eq_refl). Defined.

Lemma send_reaches_registered_witness :
  ∃ p s st, get 1 r3 = Some p ∧ r_heap r3 !! p = Some s ∧ s_id s = 1 ∧ s_send s = Some st ∧
    r_wire (sendTo 1 "hello" r3).1 = r_wire r3 ++ [(st, "hello"%string)] ∧
    r_map (sendTo 1 "hello" r3).1 = r_map r3 ∧ r_heap (sendTo 1 "hello" r3).1 = r_heap r3.
Proof.
  exact (send_reaches_registered 1 "hello"%string r3 (sendTo 1 "hello" r3).1 (Ok tt) r3_inv eq_refl).
Defined.

(** Machine 2 last pinged at 150: a minute later it is gone, and machine 1, which
    pinged in between, stays. *)
Definition r4 : registry (A:=string) := touch 2 (50 * Second) r3.
Lemma r4_inv : reg_inv r4.
Proof. apply (op_reg_inv (OpPing 2 (50 * Second)) r3), r3_inv. Qed.

Lemma liveness_check_witness :
  let r5 := checkSessionLiveness pingTimeout (60 * Second) (snapshot r4) r4 in
  get 1 r5 = Some 2%nat ∧ get 2 r5 = None ∧ (get 1 r5 = Some 2%nat ↔ get 1 r4 = Some 2%nat ∧
    ¬ idle pingTimeout (60 * Second) r4 2).
Proof.
  split; [vm_compute; reflexivity|]. split; [vm_compute; reflexivity|].
  apply (liveness_check pingTimeout (60 * Second) (snapshot r4) r4 r4_inv (Permutation_refl _)).
Defined.

(** A racing send can write to a replaced stream.  From a reachable state
    in which machine 1 is registered on stream 8 and its session on stream 7 is
    invalidated, a send that loaded the old pointer still writes to stream 7:
    the registry's lock does not cover the call. *)
Theorem racing_send_reaches_old_stream :
  ∃ y y' : sys (A:=string), reachable y ∧ step y y' ∧
    (∃ p s, get 1 (y_reg y) = Some p ∧ r_heap (y_reg y) !! p = Some s ∧ s_send s = Some 8%nat) ∧
    load 0 (y_reg y) = None ∧
    r_wire (y_reg y) = [] ∧ r_wire (y_reg y') = [(7%nat, "late"%string)].
Proof.
  exists (MkSys r3 [] [(7%nat, "late"%string)]), (MkSys (call 7 "late"%string r3).1 [] []).
  split.
  { unfold reachable, init. eapply rtc_l; [apply (StepRegister 1 "m1" 7 100)|].
    eapply rtc_l; [apply (StepLoad 0 7 "late"%string); reflexivity|].
    eapply rtc_l; [apply (StepRegister 2 "m2" 9 150)|].
    apply rtc_once, (StepRegister 1 "m1" 8 200). }
  split; [apply (StepCall 7 "late"%string r3 [] [] [])|].
  split; [eexists 2%nat, _; repeat split; reflexivity|]. split; [reflexivity|]. split; reflexivity.
Qed.
End SessionsDemo.
