(* ===== verification/Names.v ===== *)
(** Resource names ([backend/common/resource_name.go]): the tokens of a name,
    the per-kind getters and formatters.

    Names are byte strings.  [strings.Split] and [strings.ContainsAny] are those
    of Go's library on the ASCII separators the code passes. *)

From Stdlib Require Import Ascii.
From stdpp Require Import base list strings numbers.
From S2P Require Import Prelude Strings.

Definition slash : ascii := "/"%char.

(** [strings.Split(s, "/")]. *)
Fixpoint split (s : string) : list string :=
  match s with
  | EmptyString => [EmptyString]
  | String c s' =>
      if Ascii.eqb c slash then EmptyString :: split s'
      else match split s' with
           | h :: t => String c h :: t
           | [] => [String c EmptyString]
           end
  end.

(** The quotes, semicolon, backslash, parentheses and NUL. *)
Definition invalidTokenChars : list nat := [39; 34; 59; 92; 40; 41; 0].

Fixpoint ContainsAny (s : string) (cs : list nat) : bool :=
  match s with
  | EmptyString => false
  | String c s' => bool_decide (nat_of_ascii c ∈ cs) || ContainsAny s' cs
  end.

Inductive nameerr := InvalidRequest | InvalidPrefix | InvalidToken | InvalidSuffix.

Fixpoint token_loop (parts prefixes : list string) {struct prefixes} : res nameerr (list string) :=
  match prefixes with
  | [] => Ok []
  | p :: ps =>
      match parts with
      | part :: token :: parts' =>
          if negb (String.eqb (part +:+ "/") p) then Err InvalidPrefix
          else if ContainsAny token invalidTokenChars then Err InvalidToken
          else match token_loop parts' ps with Ok ts => Ok (token :: ts) | Err e => Err e end
      | _ => Err InvalidRequest   (* excluded by the length check *)
      end
  end.

Definition GetNameParentTokens (name : string) (tokenPrefixes : list string) : res nameerr (list string) :=
  let parts := split name in
  if negb (bool_decide (length parts = 2 * length tokenPrefixes)) then Err InvalidRequest
  else token_loop parts tokenPrefixes.

(** [tokens[0]] of a successful parse with one prefix. *)
Definition first_token (r : res nameerr (list string)) : res nameerr string :=
  match r with
  | Ok (t :: _) => Ok t
  | Ok [] => Err InvalidRequest
  | Err e => Err e
  end.

Definition ProjectNamePrefix : string := "projects/".
Definition UserNamePrefix : string := "users/".
Definition IdentityProviderNamePrefix : string := "idps/".
Definition SettingNamePrefix : string := "settings/".
Definition RolePrefix : string := "roles/".
Definition GroupPrefix : string := "groups/".
Definition AgentNamePrefix : string := "agents/".
Definition MachineNamePrefix : string := "machines/".
Definition ConversationNamePrefix : string := "conversations/".
Definition APIProviderNamePrefix : string := "apiProviders/".
Definition APIProviderEntryPrefix : string := "entries/".
Definition McpServerNamePrefix : string := "mcpServers/".
Definition AgentTeamNamePrefix : string := "agentTeams/".
Definition ProvisionerNamePrefix : string := "provisioners/".

Definition GetUserHandle (name : string) := first_token (GetNameParentTokens name [UserNamePrefix]).
Definition GetSettingName (name : string) := first_token (GetNameParentTokens name [SettingNamePrefix]).
Definition GetIdentityProviderID (name : string) :=
  first_token (GetNameParentTokens name [IdentityProviderNamePrefix]).
Definition GetRoleID (name : string) := first_token (GetNameParentTokens name [RolePrefix]).
Definition GetGroupEmail (name : string) := first_token (GetNameParentTokens name [GroupPrefix]).
Definition GetProjectID (name : string) := first_token (GetNameParentTokens name [ProjectNamePrefix]).
Definition GetAgentResourceID (name : string) := first_token (GetNameParentTokens name [AgentNamePrefix]).
Definition GetAgentTeamResourceID (name : string) :=
  first_token (GetNameParentTokens name [AgentTeamNamePrefix]).
Definition GetMachineResourceID (name : string) := first_token (GetNameParentTokens name [MachineNamePrefix]).
Definition GetConversationResourceID (name : string) :=
  first_token (GetNameParentTokens name [ConversationNamePrefix]).
Definition GetAPIProviderResourceID (name : string) :=
  first_token (GetNameParentTokens name [APIProviderNamePrefix]).
Definition GetMcpServerResourceID (name : string) :=
  first_token (GetNameParentTokens name [McpServerNamePrefix]).
Definition GetProvisionerResourceID (name : string) :=
  first_token (GetNameParentTokens name [ProvisionerNamePrefix]).

Definition FormatUserEmail (email : string) : string := UserNamePrefix +:+ email.
Definition FormatUserHandle (handle : string) : string := UserNamePrefix +:+ handle.
Definition FormatRole (role : string) : string := RolePrefix +:+ role.
Definition FormatGroupName (identifier : string) : string := GroupPrefix +:+ identifier.
Definition FormatAgentUID (uid : string) : string := AgentNamePrefix +:+ uid.
Definition FormatAgentTeamName (id : string) : string := AgentTeamNamePrefix +:+ id.
Definition FormatMachineUID (uid : string) : string := MachineNamePrefix +:+ uid.
Definition FormatConversationName (id : string) : string := ConversationNamePrefix +:+ id.
Definition FormatAPIProviderUID (id : string) : string := APIProviderNamePrefix +:+ id.
Definition FormatMcpServerUID (id : string) : string := McpServerNamePrefix +:+ id.
Definition FormatProvisionerUID (id : string) : string := ProvisionerNamePrefix +:+ id.

Definition avatarNameSuffix : string := "/avatar".
Definition FormatUserAvatar (handle : string) : string := UserNamePrefix +:+ handle +:+ avatarNameSuffix.
Definition FormatAgentAvatar (resourceID : string) : string :=
  AgentNamePrefix +:+ resourceID +:+ avatarNameSuffix.

(** [strings.HasSuffix] with [strings.TrimSuffix]: what stands before the suffix. *)
Fixpoint cut_suffix (s suffix : string) : option string :=
  if String.eqb s suffix then Some EmptyString
  else match s with
       | EmptyString => None
       | String c s' => String c <$> cut_suffix s' suffix
       end.
Definition TrimSuffix (name suffix : string) : res nameerr string :=
  match cut_suffix name suffix with
  | None => Err InvalidSuffix
  | Some t => Ok t
  end.

Definition ParseUserAvatarName (name : string) : res nameerr string :=
  match TrimSuffix name avatarNameSuffix with Err e => Err e | Ok t => GetUserHandle t end.
Definition ParseAgentAvatarName (name : string) : res nameerr string :=
  match TrimSuffix name avatarNameSuffix with Err e => Err e | Ok t => GetAgentResourceID t end.

Definition FormatAPIProviderEntryName (providerID entryID : string) : string :=
  APIProviderNamePrefix +:+ providerID +:+ "/entries/" +:+ entryID.
Definition ParseAPIProviderEntryName (name : string) : res nameerr (string * string) :=
  match GetNameParentTokens name [APIProviderNamePrefix; APIProviderEntryPrefix] with
  | Err e => Err e
  | Ok (p :: e :: _) => Ok (p, e)
  | Ok _ => Err InvalidRequest
  end.

(** ** Splitting *)

Fixpoint no_slash (s : string) : bool :=
  match s with EmptyString => true | String c s' => negb (Ascii.eqb c slash) && no_slash s' end.

Lemma split_not_nil s : split s ≠ [].
Proof. destruct s as [|c s]; simpl; [done|]. destruct (Ascii.eqb c slash); [done|]. by destruct (split s). Qed.

Lemma split_no_slash s : no_slash s = true → split s = [s].
Proof.
  induction s as [|c s IH]; simpl; [done|]. intros [Hc Hs]%andb_true_iff.
  destruct (Ascii.eqb c slash); [done|]. by rewrite IH.
Qed.

Lemma split_app s t : no_slash s = true → split (s +:+ "/" +:+ t) = s :: split t.
Proof.
  induction s as [|c s IH]; simpl; [done|]. intros [Hc Hs]%andb_true_iff.
  destruct (Ascii.eqb c slash); [done|]. by rewrite IH.
Qed.

Lemma split_parts s : Forall (λ t, no_slash t = true) (split s).
Proof.
  induction s as [|c s IH]; simpl; [by repeat constructor|].
  destruct (Ascii.eqb c slash) eqn:Ec; [by constructor|].
  destruct (split s) as [|h t]; inversion IH; subst; repeat constructor; simpl; by rewrite ?Ec.
Qed.

(** The inverse: joining with slashes. *)
Fixpoint join (parts : list string) : string :=
  match parts with
  | [] => EmptyString
  | [p] => p
  | p :: ps => p +:+ "/" +:+ join ps
  end.

Lemma join_split s : join (split s) = s.
Proof.
  induction s as [|c s IH]; [done|]. pose proof (split_not_nil s) as Hn. cbn [split].
  destruct (Ascii.eqb c slash) eqn:Ec.
  - apply Ascii.eqb_eq in Ec as ->. destruct (split s) as [|h t]; [done|].
    change (join (EmptyString :: h :: t)) with (String slash (join (h :: t))). by rewrite IH.
  - destruct (split s) as [|h t]; [done|].
    assert (join (String c h :: t) = String c (join (h :: t))) as -> by (by destruct t). by rewrite IH.
Qed.

(** ** Names *)

(** A token the parser accepts. *)
Definition valid_token (t : string) : Prop := no_slash t = true ∧ ContainsAny t invalidTokenChars = false.
(** A prefix: a collection and a slash. *)
Definition wf_prefix (p : string) : Prop := ∃ c, p = c +:+ "/" ∧ no_slash c = true.

(** The name with these tokens. *)
Fixpoint render (prefixes tokens : list string) : string :=
  match prefixes, tokens with
  | [p], t :: _ => p +:+ t
  | p :: ps, t :: ts => p +:+ t +:+ "/" +:+ render ps ts
  | _, _ => EmptyString
  end.

Lemma slash_inj a b : no_slash a = true → no_slash b = true → a +:+ "/" = b +:+ "/" → a = b.
Proof.
  intros Ha Hb E. pose proof (split_app a "" Ha) as H1. pose proof (split_app b "" Hb) as H2.
  rewrite !Strings.str_app_nil in *. rewrite E, H2 in H1. by injection H1.
Qed.

(** The split of a rendered name: collections and tokens alternate. *)
Lemma token_loop_render ps ts name :
  ps ≠ [] → Forall wf_prefix ps → Forall valid_token ts → length ts = length ps →
  name = render ps ts →
  length (split name) = (2 * length ps)%nat ∧ token_loop (split name) ps = Ok ts.
Proof.
  revert ts name. induction ps as [|p ps IH]; [done|]. intros [|t ts] name _ Hwf Hv Hlen ->; [done|].
  apply Forall_cons_1 in Hwf as [(c & -> & Hc) Hwf]. apply Forall_cons_1 in Hv as [[Ht Hbad] Hv].
  injection Hlen as Hlen. destruct ps as [|q ps].
  - destruct ts; [|done]. simpl render. rewrite Strings.str_append_assoc, (split_app c t Hc), (split_no_slash t Ht).
    simpl. by rewrite String.eqb_refl, Hbad.
  - change (render ((c +:+ "/") :: q :: ps) (t :: ts)) with
      ((c +:+ "/") +:+ t +:+ "/" +:+ render (q :: ps) ts).
    rewrite Strings.str_append_assoc, (split_app c _ Hc), (split_app t _ Ht).
    destruct (IH ts (render (q :: ps) ts)) as [Hl Hloop]; [done..|].
    split; [simpl in *; lia|]. generalize dependent (render (q :: ps) ts).
    generalize (q :: ps). intros l s Hl Hloop. cbn [token_loop].
    rewrite String.eqb_refl, Hbad. cbn. by rewrite Hloop.
Qed.

Lemma token_loop_ok ps parts ts :
  ps ≠ [] → Forall wf_prefix ps → Forall (λ t, no_slash t = true) parts →
  length parts = (2 * length ps)%nat → token_loop parts ps = Ok ts →
  length ts = length ps ∧ Forall valid_token ts ∧ join parts = render ps ts.
Proof.
  revert parts ts. induction ps as [|p ps IH]; [done|]. intros parts ts _ Hwf Hns Hlen.
  apply Forall_cons_1 in Hwf as [(c & -> & Hc) Hwf].
  destruct parts as [|a [|t parts]]; simpl in Hlen; try lia.
  apply Forall_cons_1 in Hns as [Ha Hns]. apply Forall_cons_1 in Hns as [Ht Hns].
  cbn [token_loop]. destruct (String.eqb _ _) eqn:Ea; [|done]. cbn.
  apply String.eqb_eq, slash_inj in Ea as ->; [|done..].
  destruct (ContainsAny t invalidTokenChars) eqn:Hbad; [done|].
  destruct (token_loop parts ps) as [ts'|] eqn:El; [|done]. intros [= <-].
  destruct ps as [|q ps].
  - simpl in El; injection El as <-. destruct parts; [|simpl in Hlen; lia]. split; [done|].
    split; [by repeat constructor|]. simpl. by rewrite Strings.str_append_assoc.
  - destruct (IH parts ts') as (Hl & Hv & Hj); [done|done|done|simpl in *; lia|done|].
    split; [simpl in *; lia|]. split; [constructor; [split; done|done]|].
    destruct parts as [|b parts]; [simpl in Hlen; lia|]. destruct ts' as [|t' ts']; [done|].
    change (join (c :: t :: b :: parts)) with (c +:+ "/" +:+ t +:+ "/" +:+ join (b :: parts)).
    rewrite Hj. by rewrite Strings.str_append_assoc.
Qed.

(** Names parse exactly to what renders them: one token per prefix, none with a
    slash or a character that breaks out of SQL or a path. *)
Lemma name_tokens_iff name ps ts :
  ps ≠ [] → Forall wf_prefix ps →
  GetNameParentTokens name ps = Ok ts ↔
  length ts = length ps ∧ Forall valid_token ts ∧ name = render ps ts.
Proof.
  intros Hne Hwf. unfold GetNameParentTokens. split.
  - case_bool_decide as Hl; [|done]. cbn [negb]. intros H.
    destruct (token_loop_ok ps (split name) ts Hne Hwf (split_parts name) Hl H) as (? & ? & Hj).
    by rewrite join_split in Hj.
  - intros (Hl & Hv & Hn). destruct (token_loop_render ps ts name Hne Hwf Hv Hl Hn) as [Hlen H].
    by rewrite bool_decide_eq_true_2.
Qed.

Definition kinds : list (string * (string → string) * (string → res nameerr string)) :=
  [(UserNamePrefix, FormatUserHandle, GetUserHandle); (RolePrefix, FormatRole, GetRoleID);
   (GroupPrefix, FormatGroupName, GetGroupEmail); (AgentNamePrefix, FormatAgentUID, GetAgentResourceID);
   (AgentTeamNamePrefix, FormatAgentTeamName, GetAgentTeamResourceID);
   (MachineNamePrefix, FormatMachineUID, GetMachineResourceID);
   (ConversationNamePrefix, FormatConversationName, GetConversationResourceID);
   (APIProviderNamePrefix, FormatAPIProviderUID, GetAPIProviderResourceID);
   (McpServerNamePrefix, FormatMcpServerUID, GetMcpServerResourceID);
   (ProvisionerNamePrefix, FormatProvisionerUID, GetProvisionerResourceID)].

(** The kinds the code only parses. *)
Definition parsed_only : list (string * (string → res nameerr string)) :=
  [(SettingNamePrefix, GetSettingName); (IdentityProviderNamePrefix, GetIdentityProviderID);
   (ProjectNamePrefix, GetProjectID)].

Lemma cut_suffix_app s suffix : cut_suffix (s +:+ suffix) suffix = Some s.
Proof.
  induction s as [|c s IH].
  - change (EmptyString +:+ suffix) with suffix. destruct suffix; simpl; [done|].
    by rewrite Ascii.eqb_refl, String.eqb_refl.
  - change (String c s +:+ suffix) with (String c (s +:+ suffix)). cbn [cut_suffix].
    rewrite IH. destruct (String.eqb (String c (s +:+ suffix)) suffix) eqn:E; [|done]. exfalso.
    apply String.eqb_eq in E. apply (f_equal String.length) in E. revert E. clear IH.
    change (String.length (String c (s +:+ suffix))) with (S (String.length (s +:+ suffix))).
    rewrite Strings.str_length_app. lia.
Qed.

Lemma cut_suffix_sound s suffix t : cut_suffix s suffix = Some t → s = t +:+ suffix.
Proof.
  revert t. induction s as [|c s IH]; intros t; cbn [cut_suffix];
    (destruct (String.eqb _ suffix) eqn:E; [apply String.eqb_eq in E as <-; by intros [= <-]|]); [done|].
  intros (t' & Ht' & ->)%fmap_Some. by rewrite (IH t' Ht').
Qed.

(** Trimming answers exactly for the texts that end in the suffix. *)
Lemma TrimSuffix_iff name suffix t : TrimSuffix name suffix = Ok t ↔ name = t +:+ suffix.
Proof.
  unfold TrimSuffix. split; [|intros ->; by rewrite cut_suffix_app].
  destruct (cut_suffix name suffix) eqn:E; [|done]. intros [= <-]. by apply cut_suffix_sound.
Qed.

Lemma single_token c t name :
  no_slash c = true →
  first_token (GetNameParentTokens name [c +:+ "/"]) = Ok t ↔ valid_token t ∧ name = (c +:+ "/") +:+ t.
Proof.
  intros Hc. assert (Forall wf_prefix [c +:+ "/"]) as Hwf by (constructor; [by exists c|done]).
  pose proof (λ ts, name_tokens_iff name [c +:+ "/"] ts ltac:(done) Hwf) as H.
  assert (valid_token t ∧ name = (c +:+ "/") +:+ t → GetNameParentTokens name [c +:+ "/"] = Ok [t]) as Hb.
  { intros [Ht E]. apply H. split; [done|]. split; [by constructor|exact E]. }
  split; [|by intros ->%Hb].
  destruct (GetNameParentTokens name [c +:+ "/"]) as [[|t' ts]|e]; [done| |done]. intros [= ->].
  destruct (proj1 (H (t :: ts)) eq_refl) as (Hl & Hv & Hn). destruct ts; [|done].
  apply Forall_cons_1 in Hv as [Hv _]. done.
Qed.

(** What stands around an id between a collection and the avatar suffix. *)
Lemma avatar_iff c get id name :
  no_slash c = true →
  (∀ t, get t = first_token (GetNameParentTokens t [c +:+ "/"])) →
  match TrimSuffix name avatarNameSuffix with Err e => Err e | Ok t => get t end = Ok id
  ↔ valid_token id ∧ name = (c +:+ "/") +:+ id +:+ avatarNameSuffix.
Proof.
  intros Hc Hget. split.
  - destruct (TrimSuffix name avatarNameSuffix) as [t|e] eqn:E; [|done].
    apply TrimSuffix_iff in E as ->. rewrite Hget. intros [Hv ->]%single_token; [|done].
    by rewrite !Strings.str_append_assoc.
  - intros [Hv ->]. rewrite <-Strings.str_append_assoc.
    rewrite (proj2 (TrimSuffix_iff _ _ _) eq_refl), Hget. by apply single_token.
Qed.

(** C40: resource names round-trip.  For every kind, a name parses to an id iff
    the id is free of slashes and of the characters that break out of SQL or a
    path and the name is the id formatted by that kind (for the three kinds the
    code only parses: the id behind that prefix), so a name never passes as
    another kind.  The names of avatars and of provider entries likewise, in
    both directions: what lacks the avatar suffix is refused. *)
Theorem resource_name_roundtrip id id2 name :
  Forall (λ '(_, format, get), get name = Ok id ↔ valid_token id ∧ name = format id) kinds ∧
  Forall (λ '(prefix, get), get name = Ok id ↔ valid_token id ∧ name = prefix +:+ id) parsed_only ∧
  (ParseUserAvatarName name = Ok id ↔ valid_token id ∧ name = FormatUserAvatar id) ∧
  (ParseAgentAvatarName name = Ok id ↔ valid_token id ∧ name = FormatAgentAvatar id) ∧
  (ParseAPIProviderEntryName name = Ok (id, id2) ↔
     valid_token id ∧ valid_token id2 ∧ name = FormatAPIProviderEntryName id id2).
Proof.
  split.
  { unfold kinds. repeat apply Forall_cons_2.
    - exact (single_token "users" id name eq_refl).
    - exact (single_token "roles" id name eq_refl).
    - exact (single_token "groups" id name eq_refl).
    - exact (single_token "agents" id name eq_refl).
    - exact (single_token "agentTeams" id name eq_refl).
    - exact (single_token "machines" id name eq_refl).
    - exact (single_token "conversations" id name eq_refl).
    - exact (single_token "apiProviders" id name eq_refl).
    - exact (single_token "mcpServers" id name eq_refl).
    - exact (single_token "provisioners" id name eq_refl).
    - by constructor. }
  split.
  { unfold parsed_only. repeat apply Forall_cons_2.
    - exact (single_token "settings" id name eq_refl).
    - exact (single_token "idps" id name eq_refl).
    - exact (single_token "projects" id name eq_refl).
    - by constructor. }
  split; [|split].
  - exact (avatar_iff "users" GetUserHandle id name eq_refl (λ t, eq_refl)).
  - exact (avatar_iff "agents" GetAgentResourceID id name eq_refl (λ t, eq_refl)).
  - unfold ParseAPIProviderEntryName.
    assert (Forall wf_prefix [APIProviderNamePrefix; APIProviderEntryPrefix]) as Hwf.
    { constructor; [by exists "apiProviders"%string|]. constructor; [by exists "entries"%string|done]. }
    pose proof (λ ts, name_tokens_iff name [APIProviderNamePrefix; APIProviderEntryPrefix] ts ltac:(done) Hwf) as H.
    assert (render [APIProviderNamePrefix; APIProviderEntryPrefix] [id; id2]
      = FormatAPIProviderEntryName id id2) as Hr by done.
    assert (valid_token id ∧ valid_token id2 ∧ name = FormatAPIProviderEntryName id id2 →
      GetNameParentTokens name [APIProviderNamePrefix; APIProviderEntryPrefix] = Ok [id; id2]) as Hb.
    { intros (? & ? & E). apply H. split; [done|]. split; [|by rewrite Hr].
      apply Forall_cons_2; [done|]. apply Forall_cons_2; [done|constructor]. }
    split; [|by intros ->%Hb].
    destruct (GetNameParentTokens _ _) as [[|a [|b ts]]|e]; try done. intros [= -> ->].
    destruct (proj1 (H (id :: id2 :: ts)) eq_refl) as (Hl & Hv & Hn). destruct ts; [|done].
    apply Forall_cons_1 in Hv as [? Hv]. apply Forall_cons_1 in Hv as [? _].
    rewrite Hr in Hn. done.
Qed.
