(* ===== verification/Facade.v ===== *)
(** The dispatcher facade ([backend/manager/component/dispatcher/dispatcher.go]
    and [provisioner_dispatch.go]): the messages of the control streams, the
    state of the dispatcher, sending, request/reply round trips, upgrade
    progress and prompt release notices.

    Agents, owners and teams are read through parameters (the agent, principal
    and team stores); payloads the dispatcher only passes on are opaque texts. *)

From Stdlib Require Import Ascii.
From stdpp Require Import base list strings numbers gmap sets.
From S2P Require Import Prelude Names Wire Db CommandStore CommandOps Bus CommandUpload Sessions.
Local Open Scope Z_scope.

(** ** Messages *)

Record PromptReleaseNotice := MkNotice {
  pn_NoticeKey : string; pn_Message : string; pn_PromptVersion : string }.

Inductive AgentControl :=
| CtlCancel (commandID : string)
| CtlSteer (commandID text : string)
| CtlPromptNotice (notice : PromptReleaseNotice)
| CtlWake (conversationIDs : list string) (versions : list Z) (threadRootMessageID : string).

Record AgentControlRequest := MkControlRequest {
  acr_AgentName : string; acr_Control : option AgentControl }.

Inductive ManagerMachineStreamMessage :=
| MsgAgentAssignment (assignment : string)
| MsgAgentConfigUpdate (agentName cfg : string)
| MsgRemoveAgent (agentName : string)
| MsgRestartAgent (agentName : string)
| MsgReloadAgentAssignment (reload : string)
| MsgDiscoverProviders (requestID : string)
| MsgPong
| MsgDiscoverModels (requestID provider : string) (env : gmap string string)
| MsgMachineMetricsRequest (requestID : string)
| MsgUpgradeRequest (req : string)
| MsgWorkspaceListRequest (requestID dirPath : string) (includeHidden : bool) (agentName : string)
| MsgWorkspaceReadRequest (requestID path agentName : string)
| MsgMachineWorkspaceScanRequest (requestID : string)
| MsgAgentControl (req : AgentControlRequest)
| MsgDeleteAgentWorkspace (agentName : string).

Inductive ManagerProvisionerStreamMessage :=
| PMsgProvisionJob (job : string)
| PMsgDeprovisionJob (job : string)
| PMsgPong
| PMsgDisconnectNotice (reason : string) (deleted : bool).

(** A reply of any of the six round trips. *)
Record Reply := MkReply { rp_RequestId : string; rp_body : string }.
Inductive RoundTrip :=
| RtDiscover | RtModels | RtWorkspaceList | RtWorkspaceRead | RtMachineScan | RtMetrics.
#[export] Instance RoundTrip_eq_dec : EqDecision RoundTrip.
Proof. solve_decision. Defined.

(** ** The rows the dispatcher reads *)

Record AgentMessage := MkAgent {
  ag_ID : Z; ag_ResourceID : string; ag_Name : string; ag_Deleted : bool; ag_Enabled : bool;
  ag_OwnerID : Z; ag_MachineID : Z;
  ag_Persona : string;                      (* Info.AcpConfig.PersonaPrompt, empty when absent *)
  ag_Capability : option (bool * bool);     (* SupportsAcp, SupportsPi *)
  ag_PendingNotice : option PromptReleaseNotice;
  ag_PromptVersion : string
}.

Record TeamMember := MkMember { tm_AgentID : Z; tm_Leader : bool; tm_Responsibility : string }.
Record AgentTeam := MkTeam {
  te_ResourceID : string; te_Title : string; te_TeamPrompt : string; te_Members : list TeamMember }.
Record TeamContext := MkTeamContext {
  tc_TeamId : string; tc_TeamName : string; tc_TeamPrompt : string; tc_Role : string;
  tc_Responsibility : string }.

(** One queued control interaction. *)
Record PendingControl := MkPendingControl {
  pc_ID : Z; pc_MachineID : Z; pc_AgentID : Z; pc_Kind : string; pc_CommandID : UUID;
  pc_Text : string; pc_CreatedAt : Z }.

(** ** State *)

Record Dispatcher := MkDisp {
  D_up : dispatcher;                                    (* store, buses, tracker *)
  D_machines : registry (A:=ManagerMachineStreamMessage);
  D_provisioners : registry (A:=ManagerProvisionerStreamMessage);
  D_pending : RoundTrip → pendingReplies Reply;
  D_upgrades : gmap Z string;
  D_agents : gmap Z AgentMessage;                       (* the agent table *)
  D_queue : list PendingControl;                        (* agent_pending_control *)
  D_queueNext : Z;                                      (* its serial *)
  D_ctlDropped : list string;                           (* pendingControlDroppedTotal, by kind *)
  D_ctlDispatched : list string                         (* pendingControlDispatchTotal, by kind *)
}.

Definition set_up (x : dispatcher) (d : Dispatcher) : Dispatcher :=
  MkDisp x (D_machines d) (D_provisioners d) (D_pending d) (D_upgrades d) (D_agents d) (D_queue d)
    (D_queueNext d) (D_ctlDropped d) (D_ctlDispatched d).
Definition set_machines x (d : Dispatcher) : Dispatcher :=
  MkDisp (D_up d) x (D_provisioners d) (D_pending d) (D_upgrades d) (D_agents d) (D_queue d)
    (D_queueNext d) (D_ctlDropped d) (D_ctlDispatched d).
Definition set_provisioners x (d : Dispatcher) : Dispatcher :=
  MkDisp (D_up d) (D_machines d) x (D_pending d) (D_upgrades d) (D_agents d) (D_queue d)
    (D_queueNext d) (D_ctlDropped d) (D_ctlDispatched d).
Definition set_pending (k : RoundTrip) (p : pendingReplies Reply) (d : Dispatcher) : Dispatcher :=
  MkDisp (D_up d) (D_machines d) (D_provisioners d)
    (λ k', if decide (k' = k) then p else D_pending d k') (D_upgrades d) (D_agents d) (D_queue d)
    (D_queueNext d) (D_ctlDropped d) (D_ctlDispatched d).
Definition set_upgrades x (d : Dispatcher) : Dispatcher :=
  MkDisp (D_up d) (D_machines d) (D_provisioners d) (D_pending d) x (D_agents d) (D_queue d)
    (D_queueNext d) (D_ctlDropped d) (D_ctlDispatched d).
Definition set_agents x (d : Dispatcher) : Dispatcher :=
  MkDisp (D_up d) (D_machines d) (D_provisioners d) (D_pending d) (D_upgrades d) x (D_queue d)
    (D_queueNext d) (D_ctlDropped d) (D_ctlDispatched d).
Definition set_queue x (d : Dispatcher) : Dispatcher :=
  MkDisp (D_up d) (D_machines d) (D_provisioners d) (D_pending d) (D_upgrades d) (D_agents d) x
    (D_queueNext d) (D_ctlDropped d) (D_ctlDispatched d).
Definition set_queueNext x (d : Dispatcher) : Dispatcher :=
  MkDisp (D_up d) (D_machines d) (D_provisioners d) (D_pending d) (D_upgrades d) (D_agents d) (D_queue d)
    x (D_ctlDropped d) (D_ctlDispatched d).
Definition count_dropped kind (d : Dispatcher) : Dispatcher :=
  MkDisp (D_up d) (D_machines d) (D_provisioners d) (D_pending d) (D_upgrades d) (D_agents d) (D_queue d)
    (D_queueNext d) (D_ctlDropped d ++ [kind]) (D_ctlDispatched d).
Definition count_dispatched kind (d : Dispatcher) : Dispatcher :=
  MkDisp (D_up d) (D_machines d) (D_provisioners d) (D_pending d) (D_upgrades d) (D_agents d) (D_queue d)
    (D_queueNext d) (D_ctlDropped d) (D_ctlDispatched d ++ [kind]).

Inductive derr :=
| ESend (e : senderr)
| ESql (e : sqlerr)
| ELoad (e : sqlerr)
| EAgentNotFound
| EAgentUnbound
| EBadCommandID
| EBadName (e : nameerr)
| ENotHosted.

Definition DM : Type → Type := M Dispatcher derr.

(** ** Sending *)

Definition sendToMachine (machineID : Z) (msg : ManagerMachineStreamMessage) : DM unit := λ d,
  let '(r, b) := sendTo machineID msg (D_machines d) in
  (set_machines r d, match b with Ok _ => Ok tt | Err e => Err (ESend e) end).
Definition sendToProvisioner (provisionerID : Z) (msg : ManagerProvisionerStreamMessage) : DM unit := λ d,
  let '(r, b) := sendTo provisionerID msg (D_provisioners d) in
  (set_provisioners r d, match b with Ok _ => Ok tt | Err e => Err (ESend e) end).

(** sendAgentControl fills in the agent's name. *)
Definition sendAgentControl (agent : AgentMessage) (req : option AgentControl) : DM unit :=
  sendToMachine (ag_MachineID agent)
    (MsgAgentControl (MkControlRequest (FormatAgentUID (ag_ResourceID agent)) req)).

Definition SendAgentAssignment (machineID : Z) (assignment : string) : DM unit :=
  sendToMachine machineID (MsgAgentAssignment assignment).
Definition SendAgentConfigUpdate (machineID : Z) (agentName cfg : string) : DM unit :=
  sendToMachine machineID (MsgAgentConfigUpdate agentName cfg).
Definition SendRemoveAgent (machineID : Z) (agentName : string) : DM unit :=
  sendToMachine machineID (MsgRemoveAgent agentName).
Definition SendRestartAgent (machineID : Z) (agentName : string) : DM unit :=
  sendToMachine machineID (MsgRestartAgent agentName).
Definition SendReloadAgentAssignment (machineID : Z) (reload : string) : DM unit :=
  sendToMachine machineID (MsgReloadAgentAssignment reload).
Definition SendDiscoverProvidersToMachine (machineID : Z) (requestID : string) : DM unit :=
  sendToMachine machineID (MsgDiscoverProviders requestID).
Definition SendPongToMachine (machineID : Z) : DM unit := sendToMachine machineID MsgPong.
Definition SendDiscoverModelsToMachine (machineID : Z) (providerID : string) (env : gmap string string)
    (requestID : string) : DM unit :=
  sendToMachine machineID (MsgDiscoverModels requestID providerID env).
Definition SendMachineMetricsRequest (machineID : Z) (requestID : string) : DM unit :=
  sendToMachine machineID (MsgMachineMetricsRequest requestID).
Definition SendUpgradeRequest (machineID : Z) (req : string) : DM unit :=
  sendToMachine machineID (MsgUpgradeRequest req).
Definition SendMachineWorkspaceScan (machineID : Z) (requestID : string) : DM unit :=
  sendToMachine machineID (MsgMachineWorkspaceScanRequest requestID).
Definition SendDeleteAgentWorkspace (machineID : Z) (agentName : string) : DM unit :=
  sendToMachine machineID (MsgDeleteAgentWorkspace agentName).
Definition SendProvisionMachineJob (provisionerID : Z) (job : string) : DM unit :=
  sendToProvisioner provisionerID (PMsgProvisionJob job).
Definition SendDeprovisionMachineJob (provisionerID : Z) (job : string) : DM unit :=
  sendToProvisioner provisionerID (PMsgDeprovisionJob job).
Definition SendPongToProvisioner (provisionerID : Z) : DM unit := sendToProvisioner provisionerID PMsgPong.
Definition SendProvisionerDisconnectNotice (provisionerID : Z) (reason : string) (deleted : bool) : DM unit :=
  sendToProvisioner provisionerID (PMsgDisconnectNotice reason deleted).

(** ** Sessions *)

Definition RegisterMachine (machineID : Z) (resourceID : string) (send : nat) (now : Z) (d : Dispatcher)
    : Dispatcher * nat :=
  let '(r, p) := register_session machineID resourceID send now (D_machines d) in
  (set_upgrades (delete machineID (D_upgrades d)) (set_machines r d), p).
Definition UnregisterMachine (machineID : Z) (d : Dispatcher) : Dispatcher :=
  set_machines (unregister machineID (D_machines d)) d.
Definition UnregisterMachineIf (machineID : Z) (sess : nat) (d : Dispatcher) : Dispatcher :=
  set_machines (unregisterIf machineID sess (D_machines d)).1 d.
Definition IsMachineConnected (machineID : Z) (d : Dispatcher) : bool := is_connected machineID (D_machines d).
Definition HandleMachinePing (machineID now : Z) (d : Dispatcher) : Dispatcher :=
  match get machineID (D_machines d) with
  | Some p => set_machines (touch p now (D_machines d)) d
  | None => d
  end.
Definition RegisterProvisioner (provisionerID : Z) (resourceID : string) (send : nat) (now : Z) (d : Dispatcher)
    : Dispatcher * nat :=
  let '(r, p) := register_session provisionerID resourceID send now (D_provisioners d) in
  (set_provisioners r d, p).
Definition UnregisterProvisionerIf (provisionerID : Z) (sess : nat) (d : Dispatcher) : Dispatcher * bool :=
  let '(r, b) := unregisterIf provisionerID sess (D_provisioners d) in (set_provisioners r d, b).
Definition UnregisterProvisioner (provisionerID : Z) (d : Dispatcher) : Dispatcher :=
  set_provisioners (unregister provisionerID (D_provisioners d)) d.
Definition IsProvisionerConnected (provisionerID : Z) (d : Dispatcher) : bool :=
  is_connected provisionerID (D_provisioners d).
(** [sess]: nil for a handler without a session. *)
Definition HandleProvisionerPing (sess : option nat) (now : Z) (d : Dispatcher) : Dispatcher :=
  match sess with
  | Some p => set_provisioners (touch p now (D_provisioners d)) d
  | None => d
  end.
(** Both halves of checkSessionLiveness. *)
Definition check_liveness (now : Z) (d : Dispatcher) : Dispatcher :=
  let d := set_machines (checkSessionLiveness pingTimeout now (snapshot (D_machines d)) (D_machines d)) d in
  set_provisioners (checkSessionLiveness pingTimeout now (snapshot (D_provisioners d)) (D_provisioners d)) d.

(** ** Round trips *)

Definition RegisterPending (k : RoundTrip) (requestID : string) (d : Dispatcher) : Dispatcher * nat :=
  let '(c, p) := register requestID (D_pending d k) in (set_pending k p d, c).
Definition CancelPending (k : RoundTrip) (requestID : string) (d : Dispatcher) : Dispatcher :=
  set_pending k (cancel requestID (D_pending d k)) d.
(** [None] as a message: nil; [None] as a result: a panic. *)
Definition CompletePending (k : RoundTrip) (msg : option Reply) (d : Dispatcher) : option Dispatcher :=
  match msg with
  | None => Some d
  | Some m => p ← complete (rp_RequestId m) m (D_pending d k); Some (set_pending k p d)
  end.

Definition RegisterPendingDiscover := RegisterPending RtDiscover.
Definition CancelPendingDiscover := CancelPending RtDiscover.
Definition CompletePendingDiscover := CompletePending RtDiscover.
Definition RegisterPendingModels := RegisterPending RtModels.
Definition CancelPendingModels := CancelPending RtModels.
Definition CompletePendingModels := CompletePending RtModels.
Definition RegisterPendingMetrics := RegisterPending RtMetrics.
Definition CancelPendingMetrics := CancelPending RtMetrics.
Definition CompletePendingMetrics := CompletePending RtMetrics.
Definition RegisterPendingWorkspaceList := RegisterPending RtWorkspaceList.
Definition CancelPendingWorkspaceList := CancelPending RtWorkspaceList.
Definition CompletePendingWorkspaceList := CompletePending RtWorkspaceList.
Definition RegisterPendingWorkspaceRead := RegisterPending RtWorkspaceRead.
Definition CancelPendingWorkspaceRead := CancelPending RtWorkspaceRead.
Definition CompletePendingWorkspaceRead := CompletePending RtWorkspaceRead.
Definition RegisterPendingMachineWorkspaceScan := RegisterPending RtMachineScan.
Definition CancelPendingMachineWorkspaceScan := CancelPending RtMachineScan.
Definition CompletePendingMachineWorkspaceScan := CompletePending RtMachineScan.

(** ** Upgrade progress *)

Definition RecordMachineUpgrade (machineID : Z) (progress : option string) (d : Dispatcher) : Dispatcher :=
  match progress with
  | None => d
  | Some p => set_upgrades (<[machineID := p]> (D_upgrades d)) d
  end.
Definition MachineUpgradeStatus (machineID : Z) (d : Dispatcher) : option string := D_upgrades d !! machineID.

Definition CurrentCommandID (agentID : Z) (d : Dispatcher) : string := tracker_get agentID (d_tracker (D_up d)).

(** ** Operations that read the stores *)

Section reads.
Context {Sv : Server}.
(** The principal store's [GetUserByID] (the user's name), the team store's
    [GetAgentTeamByAgentID], [sha256] in hex, and the embedded machine binary's
    prompt bundle version. *)
Context (GetUserByID : Z → res sqlerr (option string)).
Context (GetAgentTeamByAgentID : Z → res sqlerr (option AgentTeam)).
Context (sha256_hex : string → string) (LatestPromptBundleVersion : string).

(** The agent store's reads; [n] numbers the statement in the request. *)
Definition GetAgent (n : nat) (agentID : Z) : DM (res sqlerr (option AgentMessage)) := gets (λ d,
  if fails n "SELECT agent" then Err (ErrServer "SELECT agent") else Ok (D_agents d !! agentID)).

(** UpdateAgent with a new [Info] only: [f] rebuilds the info columns. *)
Definition UpdateAgentInfo (n : nat) (agentID : Z) (f : AgentMessage → AgentMessage) : DM unit := λ d,
  if fails n "UPDATE agent" then (d, Err (ESql (ErrServer "UPDATE agent"))) else
  let d' := set_agents (alter f agentID (D_agents d)) d in
  if fails (S n) "SELECT agent" then (d', Err (ESql (ErrServer "SELECT agent"))) else (d', Ok tt).

Definition set_info (version : string) (notice : option PromptReleaseNotice) (a : AgentMessage) : AgentMessage :=
  MkAgent (ag_ID a) (ag_ResourceID a) (ag_Name a) (ag_Deleted a) (ag_Enabled a) (ag_OwnerID a)
    (ag_MachineID a) (ag_Persona a) (ag_Capability a) notice version.

(** The three read-modify-writes of an agent's info. *)
Definition patch_info (n : nat) (agentID : Z) (f : AgentMessage → AgentMessage) : DM unit :=
  a ← GetAgent n agentID;
  match a with
  | Err e => throw (ELoad e)
  | Ok None => mret tt
  | Ok (Some _) => UpdateAgentInfo (S n) agentID f
  end.
Definition UpdateAgentPromptVersion (n : nat) (agentID : Z) (promptVersion : string) : DM unit :=
  patch_info n agentID (λ a, set_info promptVersion None a).
Definition SetPendingPromptNotice (n : nat) (agentID : Z) (notice : PromptReleaseNotice) : DM unit :=
  patch_info n agentID (λ a, set_info (ag_PromptVersion a) (Some notice) a).
Definition ClearPendingPromptNotice (n : nat) (agentID : Z) : DM unit :=
  patch_info n agentID (λ a, set_info (ag_PromptVersion a) None a).

Definition resolveAgent (n : nat) (agentID : Z) : DM AgentMessage :=
  a ← GetAgent n agentID;
  match a with
  | Err e => throw (ELoad e)
  | Ok None => throw EAgentNotFound
  | Ok (Some ag) =>
      if ag_Deleted ag then throw EAgentNotFound
      else if ag_MachineID ag =? 0 then throw EAgentUnbound
      else mret ag
  end.

(** [errors.Wrap] of a nil error is nil: a missing agent is no error here. *)
Definition SendDiscoverProviders (agentID : Z) (requestID : string) : DM unit :=
  a ← GetAgent 0 agentID;
  match a with
  | Err e => throw (ELoad e)
  | Ok None => mret tt
  | Ok (Some ag) => SendDiscoverProvidersToMachine (ag_MachineID ag) requestID
  end.

Definition sendWorkspaceListRequestTo (agent : AgentMessage) (requestID dirPath : string)
    (includeHidden : bool) : DM unit :=
  sendToMachine (ag_MachineID agent)
    (MsgWorkspaceListRequest requestID dirPath includeHidden (FormatAgentUID (ag_ResourceID agent))).
Definition SendWorkspaceListRequest (agentID : Z) (requestID dirPath : string) (includeHidden : bool) : DM unit :=
  agent ← resolveAgent 0 agentID; sendWorkspaceListRequestTo agent requestID dirPath includeHidden.
Definition sendWorkspaceReadRequestTo (agent : AgentMessage) (requestID path : string) : DM unit :=
  sendToMachine (ag_MachineID agent)
    (MsgWorkspaceReadRequest requestID path (FormatAgentUID (ag_ResourceID agent))).
Definition SendWorkspaceReadRequest (agentID : Z) (requestID path : string) : DM unit :=
  agent ← resolveAgent 0 agentID; sendWorkspaceReadRequestTo agent requestID path.

(** Silent for anything that cannot receive the push. *)
Definition notifyAgent (agentID : Z) (req : AgentControl) : DM unit :=
  a ← GetAgent 0 agentID;
  match a with
  | Ok (Some ag) =>
      if ag_Deleted ag || (ag_MachineID ag =? 0) || negb (ag_Enabled ag) then mret tt else
      c ← gets (IsMachineConnected (ag_MachineID ag));
      if negb c then mret tt else
      _ ← attempt (sendAgentControl ag (Some req)); mret tt
  | _ => mret tt
  end.
Definition NotifyNewMessages (agentID : Z) (conversationID : string) (version : Z) : DM unit :=
  notifyAgent agentID (CtlWake [conversationID] [version] "").
Definition NotifyWake (agentID : Z) : DM unit := notifyAgent agentID (CtlWake [] [] "").
Definition NotifyThreadMention (agentID : Z) (conversationID : string) (version : Z) (root : string) : DM unit :=
  notifyAgent agentID (CtlWake [conversationID] [version] root).

(** IsAgentOnline: an agent is online when its machine is. *)
Definition IsAgentOnline (agentID : Z) : DM bool :=
  a ← GetAgent 0 agentID;
  match a with
  | Ok (Some ag) => if ag_Deleted ag || (ag_MachineID ag =? 0) then mret false
                    else gets (IsMachineConnected (ag_MachineID ag))
  | _ => mret false
  end.

(** ResolveAgentByName; the row with the resource id. *)
Definition find_agent (resourceID : string) (d : Dispatcher) : option AgentMessage :=
  snd <$> head (filter (λ p : Z * AgentMessage, ag_ResourceID p.2 = resourceID) (map_to_list (D_agents d))).
Definition ResolveAgentByName (machineID : Z) (agentName : string) : DM Z :=
  match GetAgentResourceID agentName with
  | Err e => throw (EBadName e)
  | Ok resourceID =>
      if fails 0 "SELECT agent" then throw (ELoad (ErrServer "SELECT agent")) else
      a ← gets (find_agent resourceID);
      match a with
      | Some ag => if ag_Deleted ag || negb (ag_MachineID ag =? machineID) then throw ENotHosted
                   else mret (ag_ID ag)
      | None => throw ENotHosted
      end
  end.

(** *** Prompt versions and release notices *)

Definition nul : string := String "000"%char EmptyString.
(** [s[:16]]; a hex digest has 64 characters. *)
Fixpoint take_string (n : nat) (s : string) : string :=
  match n, s with
  | S n, String c s => String c (take_string n s)
  | _, _ => EmptyString
  end.
Definition buildPromptVersion (ownerDisplayName : string) (teamPrompt : option string) (agent : AgentMessage)
    : string :=
  LatestPromptBundleVersion +:+ "." +:+
  take_string 16 (sha256_hex (ag_Persona agent +:+ nul +:+ default ""%string teamPrompt +:+ nul +:+ ownerDisplayName)).

(** The owner's name; every failure reads as empty. *)
Definition owner_name (agent : AgentMessage) : string :=
  if ag_OwnerID agent =? 0 then ""%string else
  match GetUserByID (ag_OwnerID agent) with Ok (Some name) => name | _ => ""%string end.

Definition SendPromptReleaseNotice (n : nat) (agentID : Z) (notice : option PromptReleaseNotice) : DM unit :=
  match notice with
  | None => mret tt
  | Some nt => agent ← resolveAgent n agentID; sendAgentControl agent (Some (CtlPromptNotice nt))
  end.

Definition HandlePromptReleaseNoticeAck (agentID : Z) (ackVersion : option string) : DM unit :=
  match ackVersion with
  | None => mret tt
  | Some v => if String.eqb v "" then ClearPendingPromptNotice 0 agentID
              else UpdateAgentPromptVersion 0 agentID v
  end.

Definition persistPendingPromptNotice (n : nat) (agentID : Z) (notice : option PromptReleaseNotice) : DM unit :=
  match notice with None => mret tt | Some nt => SetPendingPromptNotice n agentID nt end.

Definition PushPromptReleaseNotice (agentID : Z) : DM unit :=
  a ← GetAgent 0 agentID;
  match a with
  | Err e => throw (ELoad e)
  | Ok None => mret tt
  | Ok (Some agent) =>
      let team := match GetAgentTeamByAgentID agentID with Ok (Some t) => Some (te_TeamPrompt t) | _ => None end in
      let version := buildPromptVersion (owner_name agent) team agent in
      let notice := MkNotice ("prompt-" +:+ version)
        "Your system prompt has been updated. Re-read the relevant sections before continuing." version in
      r ← attempt (SendPromptReleaseNotice 1 agentID (Some notice));
      match r with
      | Ok _ => mret tt
      | Err _ => persistPendingPromptNotice 2 agentID (Some notice)
      end
  end.

Fixpoint push_to_agents (n : nat) (agents : list AgentMessage) (notice : PromptReleaseNotice) : DM unit :=
  match agents with
  | [] => mret tt
  | agent :: rest =>
      (if negb (ag_Enabled agent) then mret tt else
       r ← attempt (SendPromptReleaseNotice n (ag_ID agent) (Some notice));
       match r with
       | Ok _ => mret tt
       | Err _ => _ ← attempt (persistPendingPromptNotice (S n) (ag_ID agent) (Some notice)); mret tt
       end);;
      push_to_agents (4 + n) rest notice
  end.
(** ListAgents of a machine leaves out the deleted agents. *)
Definition agents_of (machineID : Z) (d : Dispatcher) : list AgentMessage :=
  filter (λ a, ag_MachineID a = machineID ∧ ag_Deleted a = false) ((map_to_list (D_agents d)).*2).
Definition PushPromptReleaseNoticeToMachine (machineID : Z) (notice : option PromptReleaseNotice) : DM unit :=
  match notice with
  | None => mret tt
  | Some nt =>
      if fails 0 "SELECT agent" then throw (ELoad (ErrServer "SELECT agent")) else
      agents ← gets (agents_of machineID); push_to_agents 1 agents nt
  end.

(** *** Sessions of an agent *)

Record BeginSessionResponse := MkBegin {
  bs_Idle : bool;
  bs_CommandId : string;
  bs_AgentDisplayName : string;
  bs_OwnerDisplayName : string;
  bs_Team : option TeamContext;
  bs_PromptVersion : string;
  bs_Notice : option PromptReleaseNotice
}.
Definition idle_response : BeginSessionResponse := MkBegin true "" "" "" None "" None.

Definition team_context (agentID : Z) : option TeamContext :=
  match GetAgentTeamByAgentID agentID with
  | Ok (Some t) =>
      let m := head (filter (λ m, tm_AgentID m = agentID) (te_Members t)) in
      Some (MkTeamContext (FormatAgentTeamName (te_ResourceID t)) (te_Title t) (te_TeamPrompt t)
        (match m with Some m => if tm_Leader m then "leader" else "member" | None => "" end)
        (match m with Some m => tm_Responsibility m | None => "" end))
  | _ => None
  end.

Definition sessionResponse (agent : AgentMessage) (commandID : string) : BeginSessionResponse :=
  let team := team_context (ag_ID agent) in
  MkBegin false commandID (ag_Name agent) (owner_name agent) team
    (buildPromptVersion (owner_name agent) (tc_TeamPrompt <$> team) agent) (ag_PendingNotice agent).

(** The session command of an agent. *)
Definition session_command (agentID machineID : Z) : CommandMessage :=
  MkCommandMessage 0%N agentID "" machineID 1 "" "" "" "" false CommandStatusRunning None None 0 None None
    "" "" "" "" "" 0 0 None.

Definition with_db {A} (f : DB → DB * res sqlerr A) : DM A := λ d,
  let '(db, r) := f (d_store (D_up d)) in
  (set_up (MkDispatcher db (d_outputs (D_up d)) (d_events (D_up d)) (d_tracker (D_up d))
             (d_closing (D_up d)) (d_regraded (D_up d)) (d_lateFailures (D_up d))) d,
   match r with Ok a => Ok a | Err e => Err (ESql e) end).
Definition set_tracker (t : tracker) (d : Dispatcher) : Dispatcher :=
  set_up (MkDispatcher (d_store (D_up d)) (d_outputs (D_up d)) (d_events (D_up d)) t
            (d_closing (D_up d)) (d_regraded (D_up d)) (d_lateFailures (D_up d))) d.

Definition runtime_capable (agent : AgentMessage) : bool :=
  match ag_Capability agent with Some (acp, pi) => acp || pi | None => false end.

(** [hasUpdates], [hasReminders]: the answers of the cursor and reminder stores;
    [id], [created]: the id and time the server gives the new row. *)
Definition HandleBeginSession {L : WireLib} (hasUpdates hasReminders : res sqlerr bool)
    (id : UUID) (created now : Z) (agentID : Z) : DM BeginSessionResponse :=
  match hasUpdates with
  | Err e => throw (ESql e)
  | Ok u =>
      match hasReminders with
      | Err e => throw (ESql e)
      | Ok r =>
          if negb u && negb r then mret idle_response else
          a ← GetAgent 0 agentID;
          match a with
          | Ok (Some agent) =>
              if negb (ag_Enabled agent) then mret idle_response
              else if negb (runtime_capable agent) then mret idle_response
              else
                cmd ← with_db (CreateCommand id created (session_command agentID (ag_MachineID agent)));
                _ ← attempt (with_db (UpdateCommandStatus (cm_ID cmd) CommandStatusRunning (Some now)
                               None None None ""));
                modify (λ d, set_tracker (tracker_set agentID (uuid_string (cm_ID cmd)) (d_tracker (D_up d))) d);;
                mret (sessionResponse agent (uuid_string (cm_ID cmd)))
          | _ => throw EAgentNotFound
          end
      end
  end.
End reads.

(** ** Properties *)

Section properties.
Context {Sv : Server}.
Context (GetUserByID : Z → res sqlerr (option string)).
Context (GetAgentTeamByAgentID : Z → res sqlerr (option AgentTeam)).
Context (sha256_hex : string → string) (LatestPromptBundleVersion : string).

(** What the two statements of a session do to the command table. *)
Lemma CreateCommand_spec id created cmd db db' r :
  CreateCommand id created cmd db = (db', r) →
  match r with
  | Err _ => db' = db
  | Ok c => cm_ID c = id ∧ db_command db !! id = None ∧
      ∃ row, db' = set_command (<[id := row]> (db_command db)) db ∧ c_status row = cm_Status cmd ∧
        c_agent_id row = cm_AgentID cmd ∧
        c_machine_id row = (if 0 <? cm_MachineID cmd then Some (cm_MachineID cmd) else None)
  end.
Proof.
  unfold CreateCommand. intros H. destruct r as [c|e]; [|by apply run_tx_err in H].
  unfold run_tx, tx_stmt in H. msimp. simpl in H. case_all H; try done.
  split; [done|]. split; [done|]. eexists. split; [done|]. done.
Qed.

(** A status update touches the one row and keeps who owns it. *)
Record status_le (id : UUID) (db db' : DB) : Prop := {
  sl_other id' : id' ≠ id → db_command db' !! id' = db_command db !! id';
  sl_row r : db_command db !! id = Some r → ∃ r', db_command db' !! id = Some r' ∧
    c_agent_id r' = c_agent_id r ∧ c_machine_id r' = c_machine_id r ∧
    (c_status r = CommandStatusRunning → c_status r' = CommandStatusRunning)
}.

#[local] Instance status_le_preorder id : PreOrder (status_le id).
Proof.
  split.
  - intros db. split; [done|]. intros r Hr. by exists r.
  - intros a b c [Ho1 Hr1] [Ho2 Hr2]. split.
    + intros i Hi. by rewrite Ho2, Ho1.
    + intros r Hr. destruct (Hr1 _ Hr) as (r1 & E1 & A1 & M1 & S1).
      destruct (Hr2 _ E1) as (r2 & E2 & A2 & M2 & S2). exists r2.
      split; [done|]. split; [congruence|]. split; [congruence|auto].
Qed.

Lemma UpdateCommandStatus_running id now db db' r :
  UpdateCommandStatus id CommandStatusRunning (Some now) None None None "" db = (db', r) →
  status_le id db db'.
Proof.
  unfold UpdateCommandStatus, exec_sets, add_set. simpl. intros H.
  refine (proj1 (run_tx_spec (status_le id) 0 _ (λ _, True) (λ _ _, True) db db' r I _ H)).
  eapply (spec_bind (status_le id)); [apply spec_bind_check; apply _|]. intros [].
  eapply (spec_bind (status_le id)) with (Q := λ _ _, True); [|intros ?; apply spec_ret; [apply _|done]].
  apply spec_stmt; [apply _|]. intros a b x _ [= Hu].
  apply update_where_lookup in Hu as (_ & _ & _ & _ & Hc). split; [|done]. split.
  - intros i Hi. rewrite Hc. by rewrite bool_decide_eq_false_2.
  - intros row Hr. rewrite Hc, bool_decide_eq_true_2, Hr by done. simpl. eexists. split; [done|]. done.
Qed.

(** What a request may change beside the store and the tracker. *)
Definition same_but_up (d d' : Dispatcher) : Prop :=
  ∃ x, d' = set_up x d ∧ d_outputs x = d_outputs (D_up d) ∧ d_events x = d_events (D_up d).

(** Beginning a session.  An agent without work, stopped or without a
    runtime stays idle and nothing changes; otherwise exactly one command is
    minted, RUNNING, for the agent on its machine, the tracker points at it and
    the answer names it; a leftover command of the agent, like every other row,
    is left as it is, and an error mints nothing. *)
Theorem begin_session_mints {L : WireLib} hu hr id created now agentID d d' r :
  HandleBeginSession GetUserByID GetAgentTeamByAgentID sha256_hex LatestPromptBundleVersion
    hu hr id created now agentID d = (d', r) →
  same_but_up d d' ∧
  match r with
  | Err _ => d_store (D_up d') = d_store (D_up d) ∧ d_tracker (D_up d') = d_tracker (D_up d)
  | Ok resp =>
      (resp = idle_response ∧ d' = d ∧
       (hu = Ok false ∧ hr = Ok false ∨
        ∃ ag, D_agents d !! agentID = Some ag ∧ (ag_Enabled ag = false ∨ runtime_capable ag = false))) ∨
      (∃ ag row, D_agents d !! agentID = Some ag ∧ ag_Enabled ag = true ∧ runtime_capable ag = true ∧
         (hu = Ok true ∨ hr = Ok true) ∧ bs_CommandId resp = uuid_string id ∧
         CurrentCommandID agentID d' = uuid_string id ∧
         db_command (d_store (D_up d)) !! id = None ∧
         db_command (d_store (D_up d')) !! id = Some row ∧ c_status row = CommandStatusRunning ∧
         c_agent_id row = agentID ∧
         c_machine_id row = (if 0 <? ag_MachineID ag then Some (ag_MachineID ag) else None) ∧
         ∀ id', id' ≠ id →
           db_command (d_store (D_up d')) !! id' = db_command (d_store (D_up d)) !! id')
  end.
Proof.
  assert (same_but_up d d) as Hrefl by (exists (D_up d); by destruct d).
  unfold HandleBeginSession. destruct hu as [u|]; [|by intros [= <- <-]].
  destruct hr as [rm|]; [|by intros [= <- <-]].
  destruct (negb u && negb rm) eqn:Ew.
  { intros [= <- <-]. split; [done|]. left. split; [done|]. split; [done|]. left.
    by destruct u, rm. }
  unfold GetAgent. msimp. destruct (fails 0 _); [by intros [= <- <-]|].
  destruct (D_agents d !! agentID) as [ag|] eqn:Eag; [|by intros [= <- <-]].
  destruct (ag_Enabled ag) eqn:Een; simpl.
  2:{ intros [= <- <-]. split; [done|]. left. split; [done|]. split; [done|]. right. eauto. }
  destruct (runtime_capable ag) eqn:Erc; simpl.
  2:{ intros [= <- <-]. split; [done|]. left. split; [done|]. split; [done|]. right. eauto. }
  unfold with_db at 1. destruct (CreateCommand _ _ _ _) as [db1 [cmd|e]] eqn:Ec;
    pose proof (CreateCommand_spec _ _ _ _ _ _ Ec) as Hc; simpl.
  2:{ simpl in Hc. subst db1. intros [= <- <-]. split; [|done]. eexists. split; [done|]. done. }
  destruct Hc as (Hid & Hnone & row & -> & Hst & Hag & Hm). rewrite Hid.
  unfold with_db. simpl.
  destruct (UpdateCommandStatus _ _ _ _ _ _ _ _) as [db2 r2] eqn:Eu. simpl.
  pose proof (UpdateCommandStatus_running _ _ _ _ _ Eu) as [Ho Hrow]. simpl in Ho, Hrow.
  destruct (Hrow row ltac:(by rewrite lookup_insert_eq)) as (row' & E' & A' & M' & S').
  intros H.
  assert (∃ rs, r = Ok rs ∧ bs_CommandId rs = uuid_string id ∧
    d' = set_tracker (tracker_set agentID (uuid_string id) (d_tracker (D_up d)))
      (set_up (MkDispatcher db2 (d_outputs (D_up d)) (d_events (D_up d)) (d_tracker (D_up d))
         (d_closing (D_up d)) (d_regraded (D_up d)) (d_lateFailures (D_up d))) d))
    as (rs & -> & Hrs & ->).
  { destruct r2; injection H as <- <-; eexists; repeat split. }
  split; [by eexists|]. right. exists ag, row'.
  split_and!; try done; simpl in *.
  - destruct u, rm; auto; done.
  - unfold CurrentCommandID, tracker_get, tracker_set. simpl. by rewrite lookup_insert_eq.
  - auto.
  - congruence.
  - congruence.
  - intros i Hi. rewrite Ho by done. by rewrite lookup_insert_ne.
Qed.

(** A send appends to one stream or changes nothing. *)
Lemma sendToMachine_spec machineID msg d d' r :
  sendToMachine machineID msg d = (d', r) →
  match r with
  | Ok _ => (∃ st, r_wire (D_machines d') = r_wire (D_machines d) ++ [(st, msg)]) ∧
            is_connected machineID (D_machines d) = true ∧
            d' = set_machines (D_machines d') d ∧ r_map (D_machines d') = r_map (D_machines d)
  | Err _ => d' = d
  end.
Proof.
  assert (set_machines (D_machines d) d = d) as Hid by (by destruct d).
  unfold sendToMachine, sendTo, deliver, call, is_connected.
  destruct (get machineID (D_machines d)) as [p|]; [|intros [= <- <-]; done].
  destruct (load p (D_machines d)) as [st|]; [|intros [= <- <-]; done].
  destruct (decide _); intros [= <- <-]; [done|]. split; [by exists st|]. done.
Qed.

Lemma SendPromptReleaseNotice_spec n agentID nt d d' r :
  SendPromptReleaseNotice n agentID (Some nt) d = (d', r) →
  match r with
  | Ok _ => ∃ ag st, D_agents d !! agentID = Some ag ∧ ag_Deleted ag = false ∧
      is_connected (ag_MachineID ag) (D_machines d) = true ∧ D_agents d' = D_agents d ∧
      r_wire (D_machines d') = r_wire (D_machines d) ++ [(st, MsgAgentControl
        (MkControlRequest (FormatAgentUID (ag_ResourceID ag)) (Some (CtlPromptNotice nt))))]
  | Err _ => d' = d
  end.
Proof.
  unfold SendPromptReleaseNotice, resolveAgent, GetAgent. msimp.
  destruct (fails n _); [by intros [= <- <-]|].
  destruct (D_agents d !! agentID) as [ag|]; [|by intros [= <- <-]].
  destruct (ag_Deleted ag) eqn:Edel; [by intros [= <- <-]|].
  destruct (ag_MachineID ag =? 0); [by intros [= <- <-]|].
  intros Hs. apply sendToMachine_spec in Hs. destruct r; [|done].
  destruct Hs as ((st & Hw) & Hc & Hd & _). exists ag, st. split_and!; try done. by rewrite Hd.
Qed.

Lemma SetPendingPromptNotice_spec n agentID ag nt d d' :
  D_agents d !! agentID = Some ag → SetPendingPromptNotice n agentID nt d = (d', Ok tt) →
  D_agents d' !! agentID = Some (set_info (ag_PromptVersion ag) (Some nt) ag) ∧
  D_machines d' = D_machines d.
Proof.
  intros Hag. unfold SetPendingPromptNotice, patch_info, GetAgent, UpdateAgentInfo. msimp.
  destruct (fails n _); [done|]. rewrite Hag. destruct (fails _ _); [done|].
  destruct (fails _ _); [done|]. intros [= <-]. simpl. by rewrite lookup_alter_eq, Hag.
Qed.

(** A release notice is never lost.  A push that succeeds either put the
    notice, with the version of the agent's current persona, team and owner, on
    its machine's stream, or stored it with the agent for its next session. *)
Theorem push_notice_not_lost agentID ag d d' :
  D_agents d !! agentID = Some ag →
  PushPromptReleaseNotice GetUserByID GetAgentTeamByAgentID sha256_hex LatestPromptBundleVersion agentID d
    = (d', Ok tt) →
  ∃ n, pn_PromptVersion n = buildPromptVersion sha256_hex LatestPromptBundleVersion
         (owner_name GetUserByID ag)
         (match GetAgentTeamByAgentID agentID with Ok (Some t) => Some (te_TeamPrompt t) | _ => None end) ag ∧
    ((∃ st, D_agents d' = D_agents d ∧ ag_Deleted ag = false ∧
        is_connected (ag_MachineID ag) (D_machines d) = true ∧
        r_wire (D_machines d') = r_wire (D_machines d) ++ [(st, MsgAgentControl
          (MkControlRequest (FormatAgentUID (ag_ResourceID ag)) (Some (CtlPromptNotice n))))]) ∨
     (D_agents d' !! agentID = Some (set_info (ag_PromptVersion ag) (Some n) ag) ∧
        r_wire (D_machines d') = r_wire (D_machines d))).
Proof.
  intros Hag. unfold PushPromptReleaseNotice, GetAgent, mbind, M_bind, gets. cbn beta iota.
  destruct (fails 0 _); [done|]. rewrite Hag. set (v := buildPromptVersion _ _ _ _ ag).
  set (n := MkNotice _ _ v). unfold attempt. intros H. exists n. split; [done|].
  destruct (SendPromptReleaseNotice 1 agentID (Some n) d) as [d1 [[]|e]] eqn:Es;
    apply SendPromptReleaseNotice_spec in Es; cbn beta iota in H.
  - injection H as <-. left. destruct Es as (ag' & st & Hag' & ? & ? & ? & ?).
    rewrite Hag in Hag'. injection Hag' as <-. by exists st.
  - subst d1. right. apply (SetPendingPromptNotice_spec _ _ ag) in H as [? ->]; done.
Qed.
End properties.

(** ** Concrete runs *)

Module FacadeDemo.
Import CommandStore.StoreDemo.
#[local] Existing Instances sv ref_wire.

(** Agent 1 runs on machine 7, which is connected; agent 2 on machine 8, which is
    not.  Command 2 of the store is a leftover running command of agent 1. *)
Definition agent (id machine : Z) (name : string) : AgentMessage :=
  MkAgent id name name false true 0 machine "persona" (Some (true, false)) None "".

Definition disp0 : Dispatcher := MkDisp
  (MkDispatcher db0 newCommandBus newCommandBus ∅ [] 0 0)
  (register_session 7 "m7" 70 100 newSessionRegistry).1 newSessionRegistry
  (λ _, MkPending ∅ ∅) ∅
  (<[1 := agent 1 7 "a1"]> (<[2 := agent 2 8 "a2"]> ∅)) [] 1 [] [].

Definition users (_ : Z) : res sqlerr (option string) := Ok None.
Definition teams (_ : Z) : res sqlerr (option AgentTeam) := Ok (Some (MkTeam "t" "T" "win" [])).
Definition sha (s : string) : string := s.

Definition begin1 := HandleBeginSession users teams sha "v1" (Ok true) (Ok false) 9%N 50 60 1 disp0.

Lemma begin_session_mints_witness :
  same_but_up disp0 begin1.1 ∧
  CurrentCommandID 1 begin1.1 = uuid_string 9%N ∧
  (c_status <$> db_command (d_store (D_up begin1.1)) !! 9%N) = Some CommandStatusRunning.
Proof.
  split; [|split; vm_compute; reflexivity].
  assert (begin1 = (begin1.1, begin1.2)) as E by (vm_compute; reflexivity).
  exact (proj1 (begin_session_mints users teams sha "v1" (Ok true) (Ok false) 9%N 50 60 1 disp0
    begin1.1 begin1.2 E)).
Defined.

Definition push2 := PushPromptReleaseNotice users teams sha "v1" 2 disp0.

Lemma push_notice_not_lost_witness :
  r_wire (D_machines push2.1) = [] ∧
  ∃ n, pn_PromptVersion n = buildPromptVersion sha "v1" "" (Some "win"%string) (agent 2 8 "a2") ∧
    ((∃ st, D_agents push2.1 = D_agents disp0 ∧ ag_Deleted (agent 2 8 "a2") = false ∧
        is_connected 8 (D_machines disp0) = true ∧
        r_wire (D_machines push2.1) = r_wire (D_machines disp0) ++ [(st, MsgAgentControl
          (MkControlRequest (FormatAgentUID "a2") (Some (CtlPromptNotice n))))]) ∨
     (D_agents push2.1 !! 2 = Some (set_info "" (Some n) (agent 2 8 "a2")) ∧
        r_wire (D_machines push2.1) = r_wire (D_machines disp0))).
Proof.
  split; [vm_compute; reflexivity|].
  assert (push2 = (push2.1, Ok tt)) as E by (vm_compute; reflexivity).
  exact (push_notice_not_lost users teams sha "v1" 2 (agent 2 8 "a2") disp0 push2.1 eq_refl E).
Defined.
End FacadeDemo.
