(* ===== verification/Control.v ===== *)
(** Control interactions and the stale-command reaper
    ([backend/manager/component/dispatcher/agent_control.go],
    [command_reaper.go], [activity.go] and
    [backend/manager/store/agent_pending_control.go]).

    Interactions for an offline machine wait in a queue table and are drained
    when it connects.  The reaper fails the running commands of lost machines. *)

From stdpp Require Import base list strings numbers gmap sets sorting.
From S2P Require Import Prelude Names Wire Db CommandStore CommandOps Bus CommandUpload Sessions Facade.
Local Open Scope Z_scope.

Definition ControlKindCancel : string := "cancel".
Definition ControlKindSteer : string := "steer".
Definition PendingControlTTL : Z := 7 * 24 * (60 * Minute).
Definition reaperGrace : Z := 10 * Minute.
Definition staleCommandSweepInterval : Z := 1 * Minute.
Definition machineUnreachableReapReason : string :=
  "machine unreachable; command reaped after the disconnect grace".

(** ** The queue table *)

Section queue.
Context {Sv : Server}.

(** [n]: the number of the statement in its request; [now]: the server's clock. *)
Definition EnqueueAgentControl (n : nat) (machineID agentID : Z) (kind : string) (commandID : UUID)
    (text : string) (now : Z) : DM PendingControl := λ d,
  if fails n "INSERT INTO agent_pending_control" then (d, Err (ESql (ErrServer "INSERT INTO agent_pending_control")))
  else
    let row := MkPendingControl (D_queueNext d) machineID agentID kind commandID text now in
    (set_queueNext (D_queueNext d + 1) (set_queue (D_queue d ++ [row]) d), Ok row).

Definition id_le (a b : PendingControl) : Prop := pc_ID a ≤ pc_ID b.
#[export] Instance id_le_dec : RelDecision id_le.
Proof. intros a b. unfold id_le. apply _. Defined.

Definition machine_rows (machineID : Z) (q : list PendingControl) : list PendingControl :=
  merge_sort id_le (filter (λ r, pc_MachineID r = machineID) q).
Definition ListAgentPendingControl (n : nat) (machineID : Z) : DM (list PendingControl) := λ d,
  if fails n "SELECT agent_pending_control" then (d, Err (ESql (ErrServer "SELECT agent_pending_control")))
  else (d, Ok (machine_rows machineID (D_queue d))).

Definition DeleteAgentControl (n : nat) (ids : list Z) : DM unit := λ d,
  match ids with
  | [] => (d, Ok tt)
  | _ => if fails n "DELETE FROM agent_pending_control"
         then (d, Err (ESql (ErrServer "DELETE FROM agent_pending_control")))
         else (set_queue (filter (λ r, pc_ID r ∉ ids) (D_queue d)) d, Ok tt)
  end.
Definition DeleteExpiredAgentControl (n : nat) (before : Z) : DM unit := λ d,
  if fails n "DELETE FROM agent_pending_control" then (d, Err (ESql (ErrServer "DELETE FROM agent_pending_control")))
  else (set_queue (filter (λ r, before ≤ pc_CreatedAt r) (D_queue d)) d, Ok tt).

(** The sweep of queued rows; its error is only logged. *)
Definition sweepExpiredPendingControl (now : Z) : DM unit :=
  _ ← attempt (DeleteExpiredAgentControl 0 (now - PendingControlTTL)); mret tt.
End queue.

(** ** Delivering *)

Section control.
Context {L : WireLib}.

Definition agentControlRequest (kind : string) (commandID : UUID) (text : string) : option AgentControl :=
  if String.eqb kind ControlKindCancel then Some (CtlCancel (uuid_string commandID))
  else if String.eqb kind ControlKindSteer then Some (CtlSteer (uuid_string commandID) text)
  else None.

(** [true]: queued. *)
Definition deliverAgentControl {Sv : Server} (agentID : Z) (kind : string) (commandID : UUID)
    (text : string) (now : Z) : DM bool :=
  agent ← resolveAgent 0 agentID;
  r ← attempt (sendAgentControl agent (agentControlRequest kind commandID text));
  match r with
  | Ok _ => mret false
  | Err _ => _ ← EnqueueAgentControl 1 (ag_MachineID agent) agentID kind commandID text now; mret true
  end.

Definition CancelCommand {Sv : Server} (agentID : Z) (commandID : string) (now : Z) : DM unit :=
  match uuid_parse commandID with
  | None => throw EBadCommandID
  | Some id => _ ← deliverAgentControl agentID ControlKindCancel id "" now; mret tt
  end.
Definition SteerCommand {Sv : Server} (agentID : Z) (commandID text : string) (now : Z) : DM bool :=
  match uuid_parse commandID with
  | None => throw EBadCommandID
  | Some id => deliverAgentControl agentID ControlKindSteer id text now
  end.

Fixpoint QueueCancelCommands {Sv : Server} (n : nat) (machineID : Z) (cancelled : list CancelledCommand)
    (now : Z) : DM unit :=
  match cancelled with
  | [] => mret tt
  | cc :: rest =>
      _ ← EnqueueAgentControl n machineID (cc_AgentID cc) ControlKindCancel (cc_ID cc) "" now;
      QueueCancelCommands (S n) machineID rest now
  end.

(** ** Draining the queue at (re)connect

    [Svs i]: the server as the statements on the [i]th row find it. *)
Context (Svs : nat → Server) (agent_resource principal_name : Z → string).

Definition drop_row (row : PendingControl) : DM bool := modify (count_dropped (pc_Kind row));; mret true.

(** One row: [true] when it leaves the queue. *)
Definition dispatch_row (i : nat) (machineID : Z) (row : PendingControl) : DM bool :=
  db ← gets (λ d, d_store (D_up d));
  match GetCommand (Sv:=Svs i) agent_resource principal_name (pc_CommandID row) db with
  | Err _ => drop_row row
  | Ok cmd =>
      a ← GetAgent (Sv:=Svs i) 1 (pc_AgentID row);
      match a with
      | Ok (Some agent) =>
          if ag_Deleted agent || negb (ag_MachineID agent =? machineID) then drop_row row else
          let send :=
            match uuid_parse (uuid_string (cm_ID cmd)) with
            | None => mret false
            | Some id =>
                r ← attempt (sendAgentControl agent (agentControlRequest (pc_Kind row) id (pc_Text row)));
                match r with
                | Err _ => mret false
                | Ok _ => modify (count_dispatched (pc_Kind row));; mret true
                end
            end in
          if String.eqb (pc_Kind row) ControlKindCancel then
            if (cm_Status cmd =? CommandStatusCompleted) || (cm_Status cmd =? CommandStatusFailed)
            then drop_row row else send
          else if String.eqb (pc_Kind row) ControlKindSteer then
            if negb (cm_Status cmd =? CommandStatusRunning) then drop_row row else send
          else drop_row row
      | _ => drop_row row
      end
  end.

Fixpoint dispatch_rows (i : nat) (machineID : Z) (rows : list PendingControl) : DM (list Z) :=
  match rows with
  | [] => mret []
  | row :: rest =>
      b ← dispatch_row i machineID row;
      ids ← dispatch_rows (S i) machineID rest;
      mret (if (b : bool) then pc_ID row :: ids else ids)
  end.

Definition DispatchPendingAgentControl {Sv : Server} (machineID : Z) : DM unit :=
  r ← attempt (ListAgentPendingControl 0 machineID);
  match r with
  | Err _ => mret tt
  | Ok [] => mret tt
  | Ok rows =>
      delivered ← dispatch_rows 0 machineID rows;
      _ ← attempt (DeleteAgentControl 1 delivered);
      mret tt
  end.
End control.

(** ** The reaper *)

Definition MachineStatus_ONLINE : Z := 1.

Record MachineStatus := MkMachineStatus { ms_State : Z; ms_LastHeartbeatAt : Z }.
Record MachineMessage := MkMachine { mm_Deleted : bool; mm_Status : option MachineStatus }.

Section reaper.
Context {Sv : Server} {L : WireLib}.
Context (agent_resource principal_name : Z → string) (GetMachine : Z → res sqlerr (option MachineMessage)).

(** The judgment over a loaded row; heartbeats are Unix seconds. *)
Definition machine_row_lost (now : Z) (machine : option MachineMessage) : bool :=
  match machine with
  | None => true
  | Some m =>
      if mm_Deleted m then true else
      match mm_Status m with
      | None => true
      | Some st => negb (ms_State st =? MachineStatus_ONLINE)
                   || (reaperGrace / Second <=? now / Second - ms_LastHeartbeatAt st)
      end
  end.

Definition machineLost (machineID now : Z) (d : Dispatcher) : bool :=
  if machineID =? 0 then false
  else if IsMachineConnected machineID d then false
  else match GetMachine machineID with
       | Err _ => false
       | Ok m => machine_row_lost now m
       end.

(** One command of a lost machine; [None] is a panic. *)
Definition reap_one (now : Z) (cmd : CommandMessage) (d : Dispatcher) : option Dispatcher :=
  let '(db, r) := ReapRunningCommand (cm_ID cmd) now machineUnreachableReapReason
                    CommandFailureKindMachineUnreachable (d_store (D_up d)) in
  let d1 := set_up (MkDispatcher db (d_outputs (D_up d)) (d_events (D_up d)) (d_tracker (D_up d))
                      (d_closing (D_up d)) (d_regraded (D_up d)) (d_lateFailures (D_up d))) d in
  match r with
  | Ok true => u ← watcher_close_fires (uuid_string (cm_ID cmd)) (D_up d1); Some (set_up u d1)
  | _ => Some d1
  end.

Fixpoint reap_group (now : Z) (cmds : list CommandMessage) (d : Dispatcher) : option Dispatcher :=
  match cmds with
  | [] => Some d
  | cmd :: rest => d' ← reap_one now cmd d; reap_group now rest d'
  end.

(** The running commands grouped by machine. *)
Definition by_machine (cmds : list CommandMessage) : gmap Z (list CommandMessage) :=
  foldl (λ m cmd, <[cm_MachineID cmd := default [] (m !! cm_MachineID cmd) ++ [cmd]]> m) ∅ cmds.

Fixpoint sweep_groups (now : Z) (groups : list (Z * list CommandMessage)) (d : Dispatcher)
    : option Dispatcher :=
  match groups with
  | [] => Some d
  | (machineID, group) :: rest =>
      d' ← (if machineLost machineID now d then reap_group now group d else Some d);
      sweep_groups now rest d'
  end.

Definition sweepStaleCommands (now : Z) (d : Dispatcher) : option Dispatcher :=
  match ListCommands agent_resource principal_name
          (MkFind None (Some CommandStatusRunning) None None) (d_store (D_up d)) with
  | Err _ => Some d
  | Ok cmds => sweep_groups now (map_to_list (by_machine cmds)) d
  end.
End reaper.

(** ** Properties *)

(** The stream a send to an id would reach. *)
Definition can_send {A} (id : Z) (r : registry (A:=A)) : option nat :=
  p ← get id r; st ← load p r; if decide (st ∈ r_broken r) then None else Some st.

Definition wrote {A} (st : nat) (m : A) (r : registry (A:=A)) : registry :=
  MkRegistry (r_heap r) (r_map r) (r_next r) (r_wire r ++ [(st, m)]) (r_broken r).

Lemma sendTo_can {A} id (m : A) r :
  match can_send id r with
  | Some st => sendTo id m r = (wrote st m r, Ok tt)
  | None => ∃ e, sendTo id m r = (r, Err e)
  end.
Proof.
  unfold can_send, sendTo, deliver, call. destruct (get id r) as [p|]; simpl; [|eauto].
  destruct (load p r) as [st|]; simpl; [|eauto]. destruct (decide _); eauto.
Qed.

Lemma set_machines_id d : set_machines (D_machines d) d = d.
Proof. by destruct d. Qed.

Lemma sendAgentControl_can agent req d :
  let msg := MsgAgentControl (MkControlRequest (FormatAgentUID (ag_ResourceID agent)) req) in
  match can_send (ag_MachineID agent) (D_machines d) with
  | Some st => sendAgentControl agent req d = (set_machines (wrote st msg (D_machines d)) d, Ok tt)
  | None => ∃ e, sendAgentControl agent req d = (d, Err e)
  end.
Proof.
  unfold sendAgentControl, sendToMachine.
  pose proof (sendTo_can (ag_MachineID agent) (MsgAgentControl (MkControlRequest
    (FormatAgentUID (ag_ResourceID agent)) req)) (D_machines d)) as H.
  destruct (can_send _ _) as [st|]; simpl; [by rewrite H|].
  destruct H as [e ->]. rewrite set_machines_id. eauto.
Qed.

Section delivery.
Context {L : WireLib} {LL : WireLibLaws L}.

(** A control interaction is delivered or queued.  For an agent bound to a
    machine it is written to the machine's stream exactly when the stream takes
    it and is otherwise appended to the machine's queue with the next id; an
    error does neither. *)
Theorem deliver_or_queue {Sv : Server} agentID kind cmd text now d d' r :
  deliverAgentControl agentID kind cmd text now d = (d', r) →
  match r with
  | Ok queued => ∃ ag, D_agents d !! agentID = Some ag ∧ ag_Deleted ag = false ∧ ag_MachineID ag ≠ 0 ∧
      match can_send (ag_MachineID ag) (D_machines d) with
      | Some st => queued = false ∧ D_queue d' = D_queue d ∧
          r_wire (D_machines d') = r_wire (D_machines d) ++ [(st, MsgAgentControl
            (MkControlRequest (FormatAgentUID (ag_ResourceID ag)) (agentControlRequest kind cmd text)))]
      | None => queued = true ∧ D_machines d' = D_machines d ∧ D_queueNext d' = D_queueNext d + 1 ∧
          D_queue d' = D_queue d ++
            [MkPendingControl (D_queueNext d) (ag_MachineID ag) agentID kind cmd text now]
      end
  | Err _ => D_queue d' = D_queue d ∧ D_machines d' = D_machines d
  end.
Proof.
  unfold deliverAgentControl, resolveAgent, GetAgent, EnqueueAgentControl, mbind, M_bind, gets, attempt.
  destruct (fails 0 _); [by intros [= <- <-]|].
  destruct (D_agents d !! agentID) as [ag|]; [|by intros [= <- <-]].
  destruct (ag_Deleted ag) eqn:Edel; [by intros [= <- <-]|].
  destruct (ag_MachineID ag =? 0) eqn:Em; [by intros [= <- <-]|]. apply Z.eqb_neq in Em.
  unfold mret, M_ret. pose proof (sendAgentControl_can ag (agentControlRequest kind cmd text) d) as Hs.
  destruct (can_send (ag_MachineID ag) (D_machines d)) as [st|] eqn:Ec; simpl in Hs.
  - rewrite Hs. intros [= <- <-]. exists ag. rewrite Ec. done.
  - destruct Hs as [e ->]. destruct (fails 1 _); [by intros [= <- <-]|]. intros [= <- <-].
    exists ag. rewrite Ec. done.
Qed.

(** *** Draining *)

Context (Svs : nat → Server) (agent_resource principal_name : Z → string).

Inductive verdict := VDrop | VSend (msg : ManagerMachineStreamMessage).

(** What a row deserves: it can no longer matter, or it is this message. *)
Definition row_verdict (i : nat) (machineID : Z) (row : PendingControl) (d : Dispatcher) : verdict :=
  match GetCommand (Sv:=Svs i) agent_resource principal_name (pc_CommandID row) (d_store (D_up d)) with
  | Err _ => VDrop
  | Ok cmd =>
      match (if fails (Server:=Svs i) 1 "SELECT agent" then None else D_agents d !! pc_AgentID row) with
      | None => VDrop
      | Some agent =>
          if ag_Deleted agent || negb (ag_MachineID agent =? machineID) then VDrop else
          let send := VSend (MsgAgentControl (MkControlRequest (FormatAgentUID (ag_ResourceID agent))
            (agentControlRequest (pc_Kind row) (pc_CommandID row) (pc_Text row)))) in
          if String.eqb (pc_Kind row) ControlKindCancel then
            if (cm_Status cmd =? CommandStatusCompleted) || (cm_Status cmd =? CommandStatusFailed)
            then VDrop else send
          else if String.eqb (pc_Kind row) ControlKindSteer then
            if negb (cm_Status cmd =? CommandStatusRunning) then VDrop else send
          else VDrop
      end
  end.

Lemma GetCommand_id (Sv : Server) id db cmd :
  GetCommand agent_resource principal_name id db = Ok cmd → cm_ID cmd = id.
Proof.
  unfold GetCommand. destruct (fails 0 _); [done|]. destruct (db_command db !! id); [|done]. by intros [= <-].
Qed.

Lemma dispatch_row_spec i machineID row d :
  dispatch_row Svs agent_resource principal_name i machineID row d =
  match row_verdict i machineID row d with
  | VDrop => (count_dropped (pc_Kind row) d, Ok true)
  | VSend msg =>
      match can_send machineID (D_machines d) with
      | Some st => (count_dispatched (pc_Kind row) (set_machines (wrote st msg (D_machines d)) d), Ok true)
      | None => (d, Ok false)
      end
  end.
Proof.
  unfold dispatch_row, row_verdict, drop_row, GetAgent, mbind, M_bind, gets, modify, attempt, mret, M_ret.
  destruct (GetCommand _ _ _ _) as [cmd|e] eqn:Ec; [|done]. apply GetCommand_id in Ec.
  destruct (fails 1 _); [done|]. destruct (D_agents d !! pc_AgentID row) as [ag|]; [|done].
  destruct (ag_Deleted ag || negb (ag_MachineID ag =? machineID)) eqn:Em; [done|].
  apply orb_false_iff in Em as [_ Em]. apply negb_false_iff, Z.eqb_eq in Em.
  rewrite parse_string, Ec.
  pose proof (sendAgentControl_can ag (agentControlRequest (pc_Kind row) (pc_CommandID row) (pc_Text row)) d) as Hs.
  rewrite Em in Hs.
  destruct (String.eqb _ ControlKindCancel); [destruct (_ || _); [done|]|
    destruct (String.eqb _ ControlKindSteer); [destruct (negb _); [done|]|done]];
    (destruct (can_send machineID (D_machines d)) as [st|]; simpl in Hs;
      [by rewrite Hs|destruct Hs as [e Hs]; by rewrite Hs]).
Qed.

(** The row leaves the queue; the messages the rows are worth, in order. *)
Definition leaves (i : nat) (machineID : Z) (row : PendingControl) (d : Dispatcher) : bool :=
  match row_verdict i machineID row d with
  | VDrop => true
  | VSend _ => match can_send machineID (D_machines d) with Some _ => true | None => false end
  end.
Fixpoint messages (i : nat) (machineID : Z) (rows : list PendingControl) (d : Dispatcher)
    : list ManagerMachineStreamMessage :=
  match rows with
  | [] => []
  | row :: rest => match row_verdict i machineID row d with
                   | VDrop => messages (S i) machineID rest d
                   | VSend msg => msg :: messages (S i) machineID rest d
                   end
  end.

(** What draining leaves alone. *)
Record drain_frame (machineID : Z) (d d' : Dispatcher) : Prop := {
  df_up : D_up d' = D_up d;
  df_agents : D_agents d' = D_agents d;
  df_queue : D_queue d' = D_queue d;
  df_send : can_send machineID (D_machines d') = can_send machineID (D_machines d)
}.

Lemma verdict_frame i m row d d' : drain_frame m d d' → row_verdict i m row d' = row_verdict i m row d.
Proof. intros [H1 H2 _ _]. unfold row_verdict. by rewrite H1, H2. Qed.
Lemma leaves_frame i m row d d' : drain_frame m d d' → leaves i m row d' = leaves i m row d.
Proof. intros H. unfold leaves. by rewrite (verdict_frame _ _ _ _ _ H), (df_send _ _ _ H). Qed.
Lemma messages_frame i m rows d d' : drain_frame m d d' → messages i m rows d' = messages i m rows d.
Proof.
  intros H. revert i. induction rows as [|row rest IH]; intros i; [done|]. simpl.
  rewrite (verdict_frame _ _ _ _ _ H). by rewrite IH.
Qed.

Definition on_stream (o : option nat) (msgs : list ManagerMachineStreamMessage) :=
  match o with Some st => (λ m, (st, m)) <$> msgs | None => [] end.

Lemma dispatch_row_effect i m row d :
  ∃ d', dispatch_row Svs agent_resource principal_name i m row d = (d', Ok (leaves i m row d)) ∧
    drain_frame m d d' ∧
    r_wire (D_machines d') = r_wire (D_machines d) ++
      on_stream (can_send m (D_machines d)) (messages i m [row] d).
Proof.
  rewrite dispatch_row_spec. unfold leaves. simpl.
  destruct (row_verdict i m row d) as [|msg].
  - eexists. split; [done|]. split; [done|]. simpl.
    destruct (can_send m (D_machines d)); by rewrite app_nil_r.
  - destruct (can_send m (D_machines d)) as [st|] eqn:Ec; simpl.
    + eexists. split; [done|]. split; [|done]. by split.
    + eexists. split; [done|]. split; [done|]. by rewrite app_nil_r.
Qed.

Lemma dispatch_rows_effect i m rows d :
  ∃ d' ids, dispatch_rows Svs agent_resource principal_name i m rows d = (d', Ok ids) ∧
    drain_frame m d d' ∧
    r_wire (D_machines d') = r_wire (D_machines d) ++
      on_stream (can_send m (D_machines d)) (messages i m rows d) ∧
    ∀ x, x ∈ ids ↔ ∃ k row, rows !! k = Some row ∧ pc_ID row = x ∧ leaves (i + k) m row d = true.
Proof.
  revert i d. induction rows as [|row rest IH]; intros i d; simpl.
  { eexists _, []. split; [done|]. split; [done|]. split.
    - destruct (can_send _ _); by rewrite app_nil_r.
    - intros x. split; [by intros ?%elem_of_nil|]. intros (k & r & H & _). by rewrite lookup_nil in H. }
  destruct (dispatch_row_effect i m row d) as (d1 & E1 & Hf1 & Hw1).
  destruct (IH (S i) d1) as (d2 & ids & E2 & Hf2 & Hw2 & Hids).
  unfold mbind, M_bind, mret, M_ret. rewrite E1, E2.
  eexists _, _. split; [done|]. split; [|split].
  - destruct Hf1, Hf2. split; congruence.
  - rewrite Hw2, Hw1, (messages_frame _ _ _ _ _ Hf1), (df_send _ _ _ Hf1), <-app_assoc. f_equal.
    simpl. destruct (can_send m (D_machines d)); [|done]. simpl.
    destruct (row_verdict i m row d); done.
  - assert (∀ x, x ∈ (if leaves i m row d then pc_ID row :: ids else ids) ↔
      (leaves i m row d = true ∧ pc_ID row = x) ∨ x ∈ ids) as Hin.
    { intros x. destruct (leaves i m row d); [rewrite elem_of_cons|]; naive_solver. }
    intros x. rewrite Hin, Hids. split.
    + intros [[Hl Hx]|(k & r & Hk & Hx & Hl)].
      * exists 0%nat, row. by rewrite Nat.add_0_r.
      * exists (S k), r. rewrite (leaves_frame _ _ _ _ _ Hf1) in Hl.
        by rewrite Nat.add_succ_r.
    + intros ([|k] & r & Hk & Hx & Hl); simpl in Hk.
      * injection Hk as <-. rewrite Nat.add_0_r in Hl. by left.
      * right. exists k, r. rewrite (leaves_frame _ _ _ _ _ Hf1). by rewrite Nat.add_succ_r in Hl.
Qed.

Lemma machine_rows_elem m q row : row ∈ machine_rows m q ↔ row ∈ q ∧ pc_MachineID row = m.
Proof. unfold machine_rows. rewrite merge_sort_Permutation, list_elem_of_filter. tauto. Qed.

(** Rows of the queue are told apart by their ids: a row of the machine that is
    not among the settled ids is one whose send fails. *)
Lemma queue_stays machineID d (ids : list Z) :
  let rows := machine_rows machineID (D_queue d) in
  NoDup (pc_ID <$> D_queue d) →
  (∀ x, x ∈ ids ↔ ∃ k row, rows !! k = Some row ∧ pc_ID row = x ∧ leaves (0 + k) machineID row d = true) →
  ∀ row, row ∈ D_queue d → pc_ID row ∉ ids ↔ pc_MachineID row ≠ machineID ∨
    ∃ k msg, rows !! k = Some row ∧ row_verdict k machineID row d = VSend msg ∧
             can_send machineID (D_machines d) = None.
Proof.
  intros rows Hnd Hids.
  assert (∀ a b, a ∈ D_queue d → b ∈ D_queue d → pc_ID a = pc_ID b → a = b) as Hinj.
  { intros a b Ha Hb Heq. apply list_elem_of_lookup in Ha as [i Hi]. apply list_elem_of_lookup in Hb as [j Hj].
    assert (i = j) as ->; [|congruence]. eapply (NoDup_lookup _ _ _ (pc_ID a) Hnd);
      rewrite list_lookup_fmap, ?Hi, ?Hj; simpl; congruence. }
  assert (∀ row, row ∈ D_queue d → pc_ID row ∈ ids ↔
    ∃ k, rows !! k = Some row ∧ leaves k machineID row d = true) as Hleave.
  { intros row Hrow. rewrite Hids. split.
    - intros (k & row' & Hk & Hid & Hl). exists k.
      assert (row' = row) as ->; [|done]. apply Hinj; [|done|done].
      apply list_elem_of_lookup_2 in Hk. by apply machine_rows_elem in Hk as [? _].
    - intros (k & Hk & Hl). exists k, row. done. }
  intros row Hrow. rewrite (Hleave row Hrow). split.
  - intros Hn. destruct (decide (pc_MachineID row = machineID)) as [Hm|]; [right|by left].
    assert (row ∈ rows) as [k Hk]%list_elem_of_lookup by (by apply machine_rows_elem). exists k.
    assert (leaves k machineID row d ≠ true) as Hl by (intros ?; apply Hn; eauto).
    unfold leaves in Hl. destruct (row_verdict k machineID row d) as [|msg]; [done|].
    destruct (can_send machineID (D_machines d)) as [st|]; [by destruct Hl|]. by exists msg.
  - intros Hor (k & Hk & Hl). pose proof (list_elem_of_lookup_2 _ _ _ Hk) as Hin.
    apply machine_rows_elem in Hin as [_ Hm]. destruct Hor as [?|(k' & msg & Hk' & Hv & Hn)]; [done|].
    assert (k' = k) as ->.
    { assert (NoDup rows) as Hndr; [|by eapply NoDup_lookup].
      unfold rows, machine_rows. rewrite merge_sort_Permutation. apply NoDup_filter.
      by apply NoDup_fmap_1 in Hnd. }
    unfold leaves in Hl. by rewrite Hv, Hn in Hl.
Qed.

(** Draining the queue.  At a machine's (re)connect its rows are taken in id
    order; each is dropped, because its command or agent can no longer use it,
    or written to the machine's stream, or kept, because the stream does not
    take it.  Rows of other machines stay; if the final deletion fails every row
    stays, so delivery is at least once. *)
Theorem drain_settles_rows {Sv : Server} machineID d d' r :
  NoDup (pc_ID <$> D_queue d) →
  DispatchPendingAgentControl Svs agent_resource principal_name machineID d = (d', r) →
  let rows := machine_rows machineID (D_queue d) in
  r = Ok tt ∧ D_up d' = D_up d ∧ D_agents d' = D_agents d ∧
  if fails 0 "SELECT agent_pending_control" then d' = d else
  r_wire (D_machines d') = r_wire (D_machines d) ++
    on_stream (can_send machineID (D_machines d)) (messages 0 machineID rows d) ∧
  ((fails 1 "DELETE FROM agent_pending_control" = true ∧ D_queue d' = D_queue d) ∨
   ∀ row, row ∈ D_queue d' ↔ row ∈ D_queue d ∧
     (pc_MachineID row ≠ machineID ∨
      ∃ k msg, rows !! k = Some row ∧ row_verdict k machineID row d = VSend msg ∧
               can_send machineID (D_machines d) = None)).
Proof.
  intros Hnd H rows. revert H. unfold DispatchPendingAgentControl, ListAgentPendingControl,
    mbind, M_bind, attempt, mret, M_ret.
  destruct (fails 0 _); [by intros [= <- <-]|]. fold rows.
  destruct (dispatch_rows_effect 0 machineID rows d) as (d1 & ids & E & [Hu Ha Hq Hc] & Hw & Hids).
  pose proof (queue_stays machineID d ids Hnd Hids) as Hstay.
  (* no row at all *)
  destruct (decide (rows = [])) as [Hnil|Hne].
  { rewrite Hnil. intros [= <- <-]. split_and!; try done.
    - unfold on_stream. destruct (can_send machineID (D_machines d)); simpl; by rewrite app_nil_r.
    - right. intros row. split; [|by intros [? _]]. intros Hrow. split; [done|]. left. intros Hm.
      assert (row ∈ rows) as Hin by (by apply machine_rows_elem). rewrite Hnil in Hin; by apply elem_of_nil in Hin. }
  intros H. assert ((let (s', r0) := dispatch_rows Svs agent_resource principal_name 0 machineID rows d in
     match r0 with
     | Ok a => let (s'0, r1) := DeleteAgentControl 1 a s' in (s'0, Ok ())
     | Err e => (s', Err e)
     end) = (d', r)) as H1.
  { destruct rows; [done|]. revert H. unfold mbind, M_bind, attempt, mret, M_ret.
    destruct (dispatch_rows _ _ _ _ _ _ _) as [s1 [a|e]]; [|done]. by destruct (DeleteAgentControl 1 a s1). }
  rewrite E in H1. unfold DeleteAgentControl in H1. destruct ids as [|x ids].
  { injection H1 as <- <-. split_and!; try done. right. intros row. rewrite Hq. split; [|by intros [? _]].
    intros Hrow. split; [done|]. apply (Hstay row Hrow). apply not_elem_of_nil. }
  destruct (fails 1 _); injection H1 as <- <-; split_and!; try done; [by left|]. right. intros row. simpl.
  rewrite list_elem_of_filter, Hq. split; intros [H1 H2]; split; try done; by apply Hstay.
Qed.
End delivery.

(** ** The reaper never reaps *)

Section reaping.
Context {Sv : Server} {L : WireLib}.
Context (agent_resource principal_name : Z → string) (GetMachine : Z → res sqlerr (option MachineMessage)).

Lemma by_machine_keys cmds k v :
  (∀ c, c ∈ cmds → cm_MachineID c = 0) → by_machine cmds !! k = Some v → k = 0.
Proof.
  unfold by_machine. intros Hc.
  assert (∀ m : gmap Z (list CommandMessage), (∀ k v, m !! k = Some v → k = 0) →
    ∀ k v, foldl (λ m cmd, <[cm_MachineID cmd := default [] (m !! cm_MachineID cmd) ++ [cmd]]> m) m cmds !! k
      = Some v → k = 0) as Hg.
  { clear k v. induction cmds as [|c cmds IH]; intros m Hm k v; simpl; [apply Hm|].
    apply IH; [intros ? ?; apply Hc; by right|]. intros k' v'.
    rewrite (Hc c) by (by left). intros [[<- _]|[_ ?]]%lookup_insert_Some; [done|by eapply Hm]. }
  apply Hg. intros ? ?. by rewrite lookup_empty.
Qed.

(** The stale-command sweep does nothing.  The listed commands carry no
    machine, so they all fall in the group of machine 0, which is never lost:
    whatever the store, the machines and the clock say, no command is failed
    and no watcher is closed. *)
Theorem sweep_never_reaps now d :
  sweepStaleCommands agent_resource principal_name GetMachine now d = Some d.
Proof.
  unfold sweepStaleCommands. destruct (ListCommands _ _ _ _) as [cmds|] eqn:El; [|done].
  assert (∀ g, g ∈ map_to_list (by_machine cmds) → g.1 = 0) as Hk.
  { intros [k v] Hg%elem_of_map_to_list. eapply by_machine_keys; [|exact Hg]. intros c Hc.
    by apply (ListCommands_rows _ _ _ _ _ El). }
  induction (map_to_list (by_machine cmds)) as [|[k v] gs IH]; [done|]. simpl.
  pose proof (Hk (k, v) ltac:(by left)) as E. simpl in E. rewrite E. simpl. apply IH. intros g Hg. apply Hk. by right.
Qed.

End reaping.

(** ** Concrete runs *)

Module ControlDemo.
Import CommandStore.StoreDemo FacadeDemo.
#[local] Existing Instances sv ref_wire ref_wire_laws.

Definition names (_ : Z) : string := "n".

(** Commands 2 (running) and 3 (failed) have a queued cancel each on machine 7,
    and machine 8 has one of its own. *)
Definition disp1 : Dispatcher :=
  set_queueNext 4 (set_queue
    [MkPendingControl 1 7 1 ControlKindCancel 2%N "" 10; MkPendingControl 2 7 1 ControlKindCancel 3%N "" 20;
     MkPendingControl 3 8 2 ControlKindSteer 4%N "go on" 30] disp0).

(** The second server cannot answer the SELECT on a command. *)
Definition healthy (_ : nat) : Server := test_server [].
Definition flaky (_ : nat) : Server := test_server [0%nat].

Definition drain (Svs : nat → Server) := DispatchPendingAgentControl Svs names names 7 disp1.

Lemma deliver_or_queue_witness :
  ∃ ag, D_agents disp0 !! 2 = Some ag ∧ ag_Deleted ag = false ∧ ag_MachineID ag ≠ 0 ∧
    match can_send (ag_MachineID ag) (D_machines disp0) with
    | Some st => true = false ∧ D_queue (deliverAgentControl 2 ControlKindSteer 4%N "go on" 30 disp0).1 = [] ∧
        r_wire (D_machines (deliverAgentControl 2 ControlKindSteer 4%N "go on" 30 disp0).1) =
        r_wire (D_machines disp0) ++ [(st, MsgAgentControl (MkControlRequest
          (FormatAgentUID (ag_ResourceID ag)) (agentControlRequest ControlKindSteer 4%N "go on")))]
    | None => true = true ∧
        D_machines (deliverAgentControl 2 ControlKindSteer 4%N "go on" 30 disp0).1 = D_machines disp0 ∧
        D_queueNext (deliverAgentControl 2 ControlKindSteer 4%N "go on" 30 disp0).1 = D_queueNext disp0 + 1 ∧
        D_queue (deliverAgentControl 2 ControlKindSteer 4%N "go on" 30 disp0).1 =
          [] ++ [MkPendingControl 1 (ag_MachineID ag) 2 ControlKindSteer 4%N "go on" 30]
    end.
Proof.
  assert (deliverAgentControl 2 ControlKindSteer 4%N "go on" 30 disp0 =
    ((deliverAgentControl 2 ControlKindSteer 4%N "go on" 30 disp0).1, Ok true)) as E by (vm_compute; reflexivity).
  exact (deliver_or_queue 2 ControlKindSteer 4%N "go on" 30 disp0 _ (Ok true) E).
Defined.

Lemma drain_settles_rows_witness :
  D_queue (drain healthy).1 = [MkPendingControl 3 8 2 ControlKindSteer 4%N "go on" 30] ∧
  (drain healthy).2 = Ok tt.
Proof.
  split; [vm_compute; reflexivity|].
  assert (NoDup (pc_ID <$> D_queue disp1)) as Hnd by by (apply (bool_decide_unpack _); vm_compute; exact I).
  assert (drain healthy = ((drain healthy).1, (drain healthy).2)) as E by (vm_compute; reflexivity).
  exact (proj1 (drain_settles_rows healthy names names 7 disp1 _ _ Hnd E)).
Defined.

(** A read error drops a cancel.  When the command row cannot be read while
    the queue is drained, the queued cancel of a command that still runs is
    counted as dropped and deleted without being sent; with a healthy server it
    is written to the machine's stream. *)
Theorem read_error_drops_cancel :
  (c_status <$> db_command (d_store (D_up disp1)) !! 2%N) = Some CommandStatusRunning ∧
  D_queue (drain flaky).1 = [MkPendingControl 3 8 2 ControlKindSteer 4%N "go on" 30] ∧
  r_wire (D_machines (drain flaky).1) = [] ∧
  D_ctlDropped (drain flaky).1 = [ControlKindCancel; ControlKindCancel] ∧
  r_wire (D_machines (drain healthy).1) = [(70%nat, MsgAgentControl
    (MkControlRequest "agents/a1" (Some (CtlCancel "0"))))].
Proof. vm_compute. split_and!; reflexivity. Qed.
End ControlDemo.
