(* ===== verification/Nonce.v ===== *)
(** Heartbeat nonces ([backend/manager/component/state/nonce.go]): generation,
    verification within the validity window, and the replay cache.

    Times are Unix nanoseconds.  HMAC-SHA256 and the random source are
    parameters; hex, base64url and [Sscanf("%d")] are those of Go's library
    (the latter on ASCII input). *)

From Stdlib Require Import Ascii.
From stdpp Require Import base list strings numbers gmap pretty.
From S2P Require Import Prelude.
Local Open Scope Z_scope.

Definition nonceReplayTTL : Z := 45 * Second.
Definition nonceWindowPast : Z := 35 * Second.
Definition nonceWindowFuture : Z := 5 * Second.

(** ** Texts *)

Definition dot : ascii := "."%char.

(** The text before the first dot and the text after it. *)
Fixpoint cut_dot (s : string) : option (string * string) :=
  match s with
  | EmptyString => None
  | String c s' =>
      if Ascii.eqb c dot then Some (EmptyString, s')
      else '(a, b) ← cut_dot s'; Some (String c a, b)
  end.

(** Cut at the first two dots. *)
Definition splitNonce (nonce : string) : option (string * string * string) :=
  '(a, r) ← cut_dot nonce; '(b, c) ← cut_dot r; Some (a, b, c).

Definition hex_digit (n : N) : ascii := ascii_of_N (if (n <? 10)%N then 48 + n else 87 + n)%N.
Fixpoint hex_encode (s : string) : string :=
  match s with
  | EmptyString => EmptyString
  | String c s' => String (hex_digit (N_of_ascii c / 16)) (String (hex_digit (N_of_ascii c mod 16)) (hex_encode s'))
  end.
(** Both cases are accepted. *)
Definition from_hex (c : ascii) : option N :=
  let n := N_of_ascii c in
  if (48 <=? n)%N && (n <=? 57)%N then Some (n - 48)%N
  else if (97 <=? n)%N && (n <=? 102)%N then Some (n - 87)%N
  else if (65 <=? n)%N && (n <=? 70)%N then Some (n - 55)%N
  else None.
Fixpoint hex_decode (s : string) : option string :=
  match s with
  | EmptyString => Some EmptyString
  | String a (String b s') =>
      h ← from_hex a; l ← from_hex b; r ← hex_decode s';
      Some (String (ascii_of_N (16 * h + l)) r)
  | String _ EmptyString => None
  end.

Definition base64_char (n : N) : ascii :=
  ascii_of_N (if (n <? 26)%N then 65 + n else if (n <? 52)%N then 71 + n
              else if (n <? 62)%N then n - 4 else if (n =? 62)%N then 45 else 95)%N.
(** Raw URL encoding, three bytes at a time, without padding. *)
Fixpoint base64urlEncode (s : string) : string :=
  match s with
  | EmptyString => EmptyString
  | String a EmptyString =>
      let a := N_of_ascii a in
      String (base64_char (a / 4)) (String (base64_char (a mod 4 * 16)) EmptyString)
  | String a (String b EmptyString) =>
      let a := N_of_ascii a in let b := N_of_ascii b in
      String (base64_char (a / 4)) (String (base64_char (a mod 4 * 16 + b / 16))
        (String (base64_char (b mod 16 * 4)) EmptyString))
  | String a (String b (String c s')) =>
      let a := N_of_ascii a in let b := N_of_ascii b in let c := N_of_ascii c in
      String (base64_char (a / 4)) (String (base64_char (a mod 4 * 16 + b / 16))
        (String (base64_char (b mod 16 * 4 + c / 64)) (String (base64_char (c mod 64)) (base64urlEncode s'))))
  end.

(** [Sscanf(s, "%d")]: blanks, a sign, digits; the rest of the input is left. *)
Definition is_blank (c : ascii) : bool :=
  bool_decide (nat_of_ascii c ∈ [9; 11; 12; 13; 32]%nat).
Definition digit (c : ascii) : option Z :=
  let n := Z.of_N (N_of_ascii c) in if (48 <=? n) && (n <=? 57) then Some (n - 48) else None.
Fixpoint digits (s : string) (acc : option Z) : option Z :=
  match s with
  | EmptyString => acc
  | String c s' => match digit c with
                   | Some d => digits s' (Some (10 * default 0 acc + d))
                   | None => acc
                   end
  end.
Definition signed (s : string) : option Z :=
  match s with
  | String "+"%char s' => digits s' None
  | String "-"%char s' => Z.opp <$> digits s' None
  | _ => digits s None
  end.
Fixpoint skip_blanks (s : string) : string :=
  match s with
  | String c s' => if is_blank c then skip_blanks s' else s
  | EmptyString => s
  end.
Definition Sscanf_d (s : string) : option Z :=
  n ← signed (skip_blanks s);
  if (- 2^63 <=? n) && (n <? 2^63) then Some n else None.

(** ** The manager *)

Class Hmac := { hmac_sha256 : string → string → string }.

Record NonceManager := MkNonces {
  nm_secrets : gmap string string;
  nm_replay : gmap string Z      (* key -> expiry *)
}.

Definition NewNonceManager : NonceManager := MkNonces ∅ ∅.

Definition nonceWithinWindow (timestampSec nowSec : Z) : bool :=
  if timestampSec <? nowSec - nonceWindowPast / Second then false
  else if nowSec + nonceWindowFuture / Second <? timestampSec then false
  else true.

Section nonces.
Context {Hm : Hmac}.

(** [fresh]: 32 random bytes. *)
Definition getOrCreateKey (fresh agentResourceID : string) (nm : NonceManager) : NonceManager * string :=
  match nm_secrets nm !! agentResourceID with
  | Some key => (nm, key)
  | None => (MkNonces (<[agentResourceID := fresh]> (nm_secrets nm)) (nm_replay nm), fresh)
  end.

Definition signed_data (agentResourceID sessionID randomB64 : string) (timestampSec : Z) : string :=
  agentResourceID +:+ ":" +:+ sessionID +:+ ":" +:+ randomB64 +:+ ":" +:+ pretty timestampSec.

Definition GenerateNonce (fresh random agentResourceID sessionID : string) (now : Z) (nm : NonceManager)
    : NonceManager * string :=
  let '(nm', key) := getOrCreateKey fresh agentResourceID nm in
  let ts := now / Second in
  let signature := hmac_sha256 key (signed_data agentResourceID sessionID (base64urlEncode random) ts) in
  (nm', base64urlEncode random +:+ "." +:+ pretty ts +:+ "." +:+ hex_encode signature).

Definition replay_key (agentResourceID nonce : string) : string :=
  agentResourceID +:+ String "000"%char nonce.

Definition recordAndCheckReplay (agentResourceID nonce : string) (nowNs : Z) (nm : NonceManager)
    : NonceManager * bool :=
  let key := replay_key agentResourceID nonce in
  let seen := match nm_replay nm !! key with Some e => nowNs <? e | None => false end in
  if seen then (nm, false)
  else (MkNonces (nm_secrets nm)
          (<[key := nowNs + nonceReplayTTL]> (filter (λ p, nowNs < p.2) (nm_replay nm))), true).

(** [now]: the clock at the window check; [now2]: at the replay check. *)
Definition VerifyNonce (nonce agentResourceID sessionID : string) (now now2 : Z) (nm : NonceManager)
    : NonceManager * bool :=
  if String.eqb nonce "" then (nm, false) else
  match splitNonce nonce with
  | None => (nm, false)
  | Some (randomB64, timestampStr, signatureHex) =>
      match Sscanf_d timestampStr with
      | None => (nm, false)
      | Some timestampSec =>
          if negb (nonceWithinWindow timestampSec (now / Second)) then (nm, false) else
          match nm_secrets nm !! agentResourceID with
          | None => (nm, false)
          | Some key =>
              let expectedSig := hmac_sha256 key (signed_data agentResourceID sessionID randomB64 timestampSec) in
              match hex_decode signatureHex with
              | None => (nm, false)
              | Some actualSig =>
                  if negb (String.eqb actualSig expectedSig) then (nm, false)
                  else recordAndCheckReplay agentResourceID nonce now2 nm
              end
          end
      end
  end.

Definition DeleteKey (agentResourceID : string) (nm : NonceManager) : NonceManager :=
  MkNonces (delete agentResourceID (nm_secrets nm)) (nm_replay nm).

(** ** A manager's life *)

Inductive nonce_op :=
| OpGenerate (fresh random agent session : string) (now : Z)
| OpVerify (nonce agent session : string) (now now2 : Z)
| OpDelete (agent : string).

Definition run_nonce_op (o : nonce_op) (nm : NonceManager) : NonceManager * option bool :=
  match o with
  | OpGenerate fresh random agent session now =>
      ((GenerateNonce fresh random agent session now nm).1, None)
  | OpVerify nonce agent session now now2 =>
      let '(nm', b) := VerifyNonce nonce agent session now now2 nm in (nm', Some b)
  | OpDelete agent => (DeleteKey agent nm, None)
  end.

Fixpoint run_nonce_ops (ops : list nonce_op) (nm : NonceManager) : list (nonce_op * option bool) :=
  match ops with
  | [] => []
  | o :: ops' => let '(nm', b) := run_nonce_op o nm in (o, b) :: run_nonce_ops ops' nm'
  end.

(** The clock does not go back, and a verification takes at most four seconds
    between its two readings. *)
Fixpoint timed (clock : Z) (ops : list nonce_op) : Prop :=
  match ops with
  | [] => True
  | OpVerify _ _ _ now now2 :: ops' =>
      clock ≤ now ∧ now ≤ now2 ≤ now + 4 * Second ∧ timed now2 ops'
  | _ :: ops' => timed clock ops'
  end.

Definition nonce_ts (nonce : string) : option Z := '(_, t, _) ← splitNonce nonce; Sscanf_d t.

(** The window, in whole seconds. *)
Lemma within_window ts now :
  nonceWithinWindow ts now = true ↔ now - 35 ≤ ts ≤ now + 5.
Proof.
  unfold nonceWithinWindow.
  change (nonceWindowPast / Second) with 35. change (nonceWindowFuture / Second) with 5.
  repeat case_match; lia.
Qed.

(** A verification that refuses changes nothing; one that accepts went through
    the window and the replay check. *)
Lemma VerifyNonce_inv nonce agent session now now2 nm nm' b :
  VerifyNonce nonce agent session now now2 nm = (nm', b) →
  (b = false ∧ nm' = nm) ∨
  (∃ ts, nonce_ts nonce = Some ts ∧ now / Second - 35 ≤ ts ≤ now / Second + 5 ∧
     (b = true) ∧ recordAndCheckReplay agent nonce now2 nm = (nm', true)).
Proof.
  unfold VerifyNonce, nonce_ts. intros H.
  destruct (String.eqb nonce ""); [left; by simplify_eq|].
  destruct (splitNonce nonce) as [[[r t] sg]|]; [|left; by simplify_eq]. simpl.
  destruct (Sscanf_d t) as [ts|]; [|left; by simplify_eq].
  destruct (nonceWithinWindow ts (now / Second)) eqn:Ew; [|left; by simplify_eq/=].
  destruct (nm_secrets nm !! agent) as [key|]; [|left; by simplify_eq/=].
  destruct (hex_decode sg) as [sig|]; [|left; by simplify_eq/=].
  destruct (String.eqb sig _); [|left; by simplify_eq/=]. simpl in H.
  apply within_window in Ew. destruct b; [right; by exists ts|]. left. split; [done|].
  unfold recordAndCheckReplay in H. by case_match; simplify_eq.
Qed.

(** The nonce accepted at [tacc] is remembered, or too old for the window. *)
Definition guarded (k : string) (tacc clock : Z) (nm : NonceManager) : Prop :=
  tacc + nonceReplayTTL ≤ clock ∨
  ∃ e, nm_replay nm !! k = Some e ∧ tacc + nonceReplayTTL ≤ e.

Lemma record_guarded k tacc clock agent nonce now nm nm' b :
  guarded k tacc clock nm → clock ≤ now →
  recordAndCheckReplay agent nonce now nm = (nm', b) → guarded k tacc now nm'.
Proof.
  unfold recordAndCheckReplay. intros [Hg|(e & He & Hle)] Hc; [left; lia|].
  destruct (decide (e ≤ now)) as [|Hgt]; [left; lia|].
  destruct (match nm_replay nm !! replay_key agent nonce with Some e => now <? e | None => false end) eqn:Es.
  - intros [= <- _]. right. eauto.
  - intros [= <- _]. right. simpl. destruct (decide (replay_key agent nonce = k)) as [<-|Hne].
    + exfalso. rewrite He in Es. apply Z.ltb_ge in Es. lia.
    + exists e. rewrite lookup_insert_ne by done. split; [|done].
      apply map_lookup_filter_Some. split; [done|]. simpl. lia.
Qed.

(** The clock after an operation. *)
Definition clock_after (clock : Z) (o : nonce_op) : Z :=
  match o with OpVerify _ _ _ _ now2 => now2 | _ => clock end.

Lemma timed_cons clock o ops :
  timed clock (o :: ops) →
  clock ≤ clock_after clock o ∧ timed (clock_after clock o) ops ∧
  (∀ nonce agent s now now2, o = OpVerify nonce agent s now now2 →
     clock ≤ now ∧ now ≤ now2 ≤ now + 4 * Second).
Proof. destruct o; simpl; intros H; split_and!; try lia; try done; naive_solver lia. Qed.

Lemma op_guarded k tacc clock o ops nm :
  guarded k tacc clock nm → timed clock (o :: ops) →
  guarded k tacc (clock_after clock o) (run_nonce_op o nm).1.
Proof.
  intros Hg Ht. destruct (timed_cons _ _ _ Ht) as (Hle & _ & _).
  destruct o as [fresh random agent s now|nonce agent s now now2|agent]; simpl in *.
  - unfold GenerateNonce, getOrCreateKey. by destruct (nm_secrets nm !! agent).
  - destruct (VerifyNonce nonce agent s now now2 nm) as [nm' b] eqn:Ev. simpl.
    apply VerifyNonce_inv in Ev as [[_ ->]|(ts & _ & _ & _ & Hr)].
    + destruct Hg as [Hg|(e & He & ?)]; [left; lia|right; eauto].
    + eapply record_guarded; [exact Hg|exact Hle|exact Hr].
  - done.
Qed.

(** A guarded nonce is refused. *)
Lemma guarded_refused nonce agent session ts tacc clock now now2 nm nm' :
  guarded (replay_key agent nonce) tacc clock nm → nonce_ts nonce = Some ts → ts ≤ tacc / Second + 5 →
  clock ≤ now → now ≤ now2 ≤ now + 4 * Second →
  VerifyNonce nonce agent session now now2 nm ≠ (nm', true).
Proof.
  intros Hg Hts Hle Hc Hn H.
  apply VerifyNonce_inv in H as [[? _]|(ts' & Hts' & Hw & _ & Hr)]; [done|].
  rewrite Hts in Hts'. injection Hts' as <-.
  (* late by the clock, or still in the cache *)
  assert (tacc + nonceReplayTTL ≤ now2) as Hlate.
  { destruct Hg as [?|(e & He & ?)]; [lia|]. unfold recordAndCheckReplay in Hr. rewrite He in Hr.
    destruct (now2 <? e) eqn:E; [done|]. apply Z.ltb_ge in E. lia. }
  unfold nonceReplayTTL, Second in *.
  assert (tacc / 1000000000 + 41 ≤ now / 1000000000); [|lia].
  transitivity ((tacc + 41 * 1000000000) / 1000000000); [by rewrite Z.div_add|].
  apply Z.div_le_mono; lia.
Qed.

Lemma guarded_never_again nonce agent ts tacc clock ops nm :
  guarded (replay_key agent nonce) tacc clock nm → nonce_ts nonce = Some ts → ts ≤ tacc / Second + 5 →
  timed clock ops → ∀ j s now now2,
  run_nonce_ops ops nm !! j ≠ Some (OpVerify nonce agent s now now2, Some true).
Proof.
  intros Hg Hts Hle. revert clock nm Hg. induction ops as [|o ops IH]; intros clock nm Hg Ht j s now now2 H;
    [done|]. pose proof (op_guarded _ _ _ _ _ _ Hg Ht) as Hg'.
  destruct (timed_cons _ _ _ Ht) as (_ & Ht' & Hv). simpl in H.
  destruct (run_nonce_op o nm) as [nm' b] eqn:Eo. destruct j as [|j]; simpl in H.
  - injection H as -> ->. destruct (Hv _ _ _ _ _ eq_refl) as [Hc Hn]. simpl in Eo.
    destruct (VerifyNonce nonce agent s now now2 nm) as [nm1 b1] eqn:Ev. injection Eo as <- ->.
    by eapply guarded_refused in Ev.
  - eapply IH; [exact Hg'|exact Ht'|exact H].
Qed.

(** C38: a nonce is accepted once.  Over any life of the manager (keys generated,
    deleted and generated again, other nonces verified), one operation after
    another, in which the clock does not go back and no verification stalls longer than the margin between the
    cache's lifetime and the window, the same nonce of the same agent is never
    accepted a second time, even after the cache has forgotten it. *)
Theorem nonce_single_use clock ops i j nonce agent s1 s2 t1 t2 t3 t4 :
  timed clock ops → (i < j)%nat →
  run_nonce_ops ops NewNonceManager !! i = Some (OpVerify nonce agent s1 t1 t2, Some true) →
  run_nonce_ops ops NewNonceManager !! j ≠ Some (OpVerify nonce agent s2 t3 t4, Some true).
Proof.
  intros Ht Hij Hi. revert clock i j Ht Hij Hi. generalize NewNonceManager.
  induction ops as [|o ops IH]; intros nm clock i j Ht Hij Hi; [done|].
  destruct (timed_cons _ _ _ Ht) as (_ & Ht' & Hv). simpl in Hi |- *.
  destruct (run_nonce_op o nm) as [nm' b] eqn:Eo.
  destruct j as [|j]; [lia|]. simpl. destruct i as [|i]; simpl in Hi; [|eapply IH; [exact Ht'| |exact Hi]; lia].
  injection Hi as -> ->. destruct (Hv _ _ _ _ _ eq_refl) as [Hc Hn]. simpl in Eo.
  destruct (VerifyNonce nonce agent s1 t1 t2 nm) as [nm1 b1] eqn:Ev. injection Eo as <- ->.
  apply VerifyNonce_inv in Ev as [[? _]|(ts & Hts & Hw & _ & Hr)]; [done|].
  eapply (guarded_never_again _ _ ts t2); [|exact Hts| |exact Ht'].
  - right. unfold recordAndCheckReplay in Hr. case_match; [done|]. injection Hr as <-. simpl.
    exists (t2 + nonceReplayTTL). rewrite lookup_insert_eq. split; [done|lia].
  - assert (t1 / Second ≤ t2 / Second) by (apply Z.div_le_mono; [done|lia]). lia.
Qed.
End nonces.

(** ** Concrete runs *)

Module NonceDemo.

(** A keyed "MAC" that prefixes the key. *)
Definition toy : Hmac := {| hmac_sha256 := λ key data, key +:+ data |}.
#[local] Existing Instance toy.

Definition gen := GenerateNonce "key" "abc" "a1" "s" (1000 * Second) NewNonceManager.
Definition nonce : string := Eval vm_compute in gen.2.

(** The same nonce with the letters of its signature in upper case. *)
Definition upper (c : ascii) : ascii :=
  let n := N_of_ascii c in if (97 <=? n)%N && (n <=? 102)%N then ascii_of_N (n - 32) else c.
Fixpoint upper_string (s : string) : string :=
  match s with EmptyString => EmptyString | String c s' => String (upper c) (upper_string s') end.
Definition nonce' : string := Eval vm_compute in
  match splitNonce nonce with
  | Some (r, t, sg) => r +:+ "." +:+ t +:+ "." +:+ upper_string sg
  | None => EmptyString
  end.

Definition life : list nonce_op :=
  [OpGenerate "key" "abc" "a1" "s" (1000 * Second);
   OpVerify nonce "a1" "s" (1001 * Second) (1001 * Second);
   OpVerify nonce "a1" "s" (1002 * Second) (1002 * Second);
   OpVerify nonce' "a1" "s" (1003 * Second) (1003 * Second);
   OpVerify nonce "a1" "s" (1050 * Second) (1050 * Second)].

Lemma life_timed : timed 0 life.
Proof. cbn. unfold Second. lia. Qed.

Lemma nonce_single_use_witness :
  run_nonce_ops life NewNonceManager !! 1%nat
    = Some (OpVerify nonce "a1" "s" (1001 * Second) (1001 * Second), Some true) ∧
  ¬ run_nonce_ops life NewNonceManager !! 4%nat
    = Some (OpVerify nonce "a1" "s" (1050 * Second) (1050 * Second), Some true).
Proof.
  assert (run_nonce_ops life NewNonceManager !! 1%nat
    = Some (OpVerify nonce "a1" "s" (1001 * Second) (1001 * Second), Some true)) as H1 by (vm_compute; reflexivity).
  split; [exact H1|].
  apply (nonce_single_use 0 life 1 4 nonce "a1" "s" "s" (1001 * Second) (1001 * Second)
    (1050 * Second) (1050 * Second) life_timed); [lia|exact H1].
Defined.

(** A captured nonce can be replayed in another spelling: the cache is keyed by
    the text, while the signature is compared after decoding, so the nonce with
    its hex letters in upper case is accepted again. *)
Theorem respelled_nonce_accepted :
  nonce' ≠ nonce ∧
  run_nonce_ops life NewNonceManager !! 1%nat
    = Some (OpVerify nonce "a1" "s" (1001 * Second) (1001 * Second), Some true) ∧
  run_nonce_ops life NewNonceManager !! 2%nat
    = Some (OpVerify nonce "a1" "s" (1002 * Second) (1002 * Second), Some false) ∧
  run_nonce_ops life NewNonceManager !! 3%nat
    = Some (OpVerify nonce' "a1" "s" (1003 * Second) (1003 * Second), Some true).
Proof. split; [discriminate|]. vm_compute. split_and!; reflexivity. Qed.
End NonceDemo.
