(* ===== verification/Quantity.v ===== *)
(** Machine sizing: the quantity parser
    ([backend/common/quantity/quantity.go]) and the machine parameter catalog
    that checks user values against a provisioner's bounds
    ([backend/manager/component/provision/machine_params.go]). *)

From Stdlib Require Import Ascii.
From stdpp Require Import base list strings numbers gmap sorting.
From S2P Require Import Prelude Strings.
Import Strings.
Local Open Scope Z_scope.

(** ** quantity.go *)

Definition milliMax : Z := max_int64.

Definition milliTable : gmap string Z := list_to_map
  [ ("", 1000); ("m", 1); ("k", 1000000); ("M", 1000000000); ("G", 1000000000000);
    ("T", 1000000000000000); ("P", 1000000000000000000);
    ("Ki", Z.shiftl 1000 10); ("Mi", Z.shiftl 1000 20); ("Gi", Z.shiftl 1000 30);
    ("Ti", Z.shiftl 1000 40); ("Pi", Z.shiftl 1000 50) ].

(** One constructor per error of Parse and parseHead, with its arguments. *)
Inductive qerr :=
| QEmpty
| QNegative (s : string)
| QSuffix (s suffix : string)
| QBelowMilli (s : string)
| QTooLarge (s : string)
| QNoDigit (full : string)
| QTrailingPoint (full : string)
| QTooPrecise (full : string)
| QInteger (full : string)
| QFraction (full : string).

#[export] Instance qerr_eq_dec : EqDecision qerr.
Proof. solve_decision. Defined.

Definition dot : ascii := "."%char.
Definition head_byte (c : ascii) : bool := Ascii.eqb c dot || is_digit c.

(** [for i := len(fracStr); i < 3; i++ { frac *= 10 }] *)
Definition pad_frac (len : nat) (frac : Z) : Z := Nat.iter (3 - len) (λ f, i64 (f * 10)) frac.

Definition parseHead (head full : string) : res qerr (Z * Z) :=
  match head with
  | EmptyString => Err (QNoDigit full)
  | String c _ =>
      if Ascii.eqb c dot then Err (QNoDigit full) else
      let '(wholeStr, fracStr, hasDot) := Cut head dot in
      if (hasDot : bool) && String.eqb fracStr "" then Err (QTrailingPoint full) else
      if 3 <? Z.of_nat (String.length fracStr) then Err (QTooPrecise full) else
      match ParseUint wholeStr 63 with
      | None => Err (QInteger full)
      | Some whole =>
          if String.eqb fracStr "" then Ok (whole, 0) else
          match ParseUint fracStr 32 with
          | None => Err (QFraction full)
          | Some frac => Ok (whole, pad_frac (String.length fracStr) frac)
          end
      end
  end.

Definition Parse (s0 : string) : res qerr Z :=
  let s := TrimSpace s0 in
  match s with
  | EmptyString => Err QEmpty
  | String c _ =>
      if Ascii.eqb c "+" || Ascii.eqb c "-" then Err (QNegative s) else
      let head := (span head_byte s).1 in
      let suffix := TrimPrefix s head in
      match milliTable !! suffix with
      | None => Err (QSuffix s suffix)
      | Some mult =>
          match parseHead head s with
          | Err e => Err e
          | Ok (whole, frac) =>
              if String.eqb suffix "m" && negb (frac =? 0) then Err (QBelowMilli s) else
              if milliMax `quot` mult <? whole then Err (QTooLarge s) else
              Ok (i64 (i64 (whole * mult) + i64 (frac * (mult `quot` 1000))))
          end
      end
  end.

(** ** machine_params.go *)

Definition maxParamValueLength : Z := 64.

(** [^[a-z0-9]([-a-z0-9]*[a-z0-9])?$] *)
Definition dns_end (c : ascii) : bool := is_lower c || is_digit c.
Definition dns_inner (c : ascii) : bool := Ascii.eqb c "-" || dns_end c.
Definition dnsLabelPattern (s : string) : bool :=
  match String.list_ascii_of_string s with
  | [] => false
  | c :: l =>
      dns_end c && forallb dns_inner l &&
      match list.last (c :: l) with Some z => dns_end z | None => false end
  end.

Definition TYPE_QUANTITY : Z := 1.
Definition TYPE_STRING : Z := 2.

Definition catalog : gmap string Z := list_to_map
  [ ("cpu", TYPE_QUANTITY); ("memory", TYPE_QUANTITY); ("disk", TYPE_QUANTITY);
    ("storage_class", TYPE_STRING) ].

Definition CatalogType (key : string) : option Z := catalog !! key.

(** [storepb.MachineParamSpec] *)
Record ParamSpec := MkSpec {
  ps_key : string;
  ps_required : bool;
  ps_default : string;
  ps_min : string;
  ps_max : string;
  ps_options : list string
}.

#[export] Instance ParamSpec_eq_dec : EqDecision ParamSpec.
Proof. solve_decision. Defined.

Inductive perr :=
| PRequiredNoDefault
| PDefault (e : perr)
| PTooLong
| PQuantity (e : qerr)
| PName (value : string)
| PUnsupportedType (typ : Z)
| PNotAnOption (value : string)
| PMinimum (value : string) (e : qerr)
| PMaximum (value : string) (e : qerr)
| PMinAboveMax
| PBelow (value bound : string)
| PAbove (value bound : string)
| PUnknown (key : string)
| PNotAccepted (key : string)
| PInvalid (key : string) (e : perr).

#[export] Instance perr_eq_dec : EqDecision perr.
Proof. solve_decision. Defined.

Definition validateParamValue (typ : Z) (value : string) (options : list string) : res perr unit :=
  if maxParamValueLength <? Z.of_nat (String.length value) then Err PTooLong else
  let shape :=
    if typ =? TYPE_QUANTITY then
      match Parse value with Err e => Err (PQuantity e) | Ok _ => Ok tt end
    else if typ =? TYPE_STRING then
      if dnsLabelPattern value then Ok tt else Err (PName value)
    else Err (PUnsupportedType typ) in
  match shape with
  | Err e => Err e
  | Ok _ =>
      if (0 <? Z.of_nat (length options)) && negb (bool_decide (value ∈ options))
      then Err (PNotAnOption value) else Ok tt
  end.

Definition parse_bound (value : string) (wrap : qerr → perr) : res perr (option Z) :=
  if String.eqb value "" then Ok None else
  match Parse value with Err e => Err (wrap e) | Ok v => Ok (Some v) end.

Definition parseBounds (minValue maxValue : string) : res perr (option Z * option Z) :=
  match parse_bound minValue (PMinimum minValue) with
  | Err e => Err e
  | Ok lower =>
      match parse_bound maxValue (PMaximum maxValue) with
      | Err e => Err e
      | Ok upper => Ok (lower, upper)
      end
  end.

Definition below (v : Z) (lower : option Z) : bool :=
  match lower with Some l => v <? l | None => false end.
Definition above (v : Z) (upper : option Z) : bool :=
  match upper with Some u => u <? v | None => false end.

(** The inclusive bounds check of one text. *)
Definition check_bounds (value minValue maxValue : string) (lower upper : option Z) : res perr unit :=
  match Parse value with
  | Err e => Err (PQuantity e)
  | Ok parsed =>
      if below parsed lower then Err (PBelow value minValue) else
      if above parsed upper then Err (PAbove value maxValue) else Ok tt
  end.

Definition validateBounds (spec : ParamSpec) (value : string) : res perr unit :=
  match parseBounds (ps_min spec) (ps_max spec) with
  | Err _ => Ok tt
  | Ok (lower, upper) => check_bounds value (ps_min spec) (ps_max spec) lower upper
  end.

(** validateSchemaEntry returns the entry as it leaves it: the bounds of a
    parameter that is no quantity are cleared in place. *)
Definition validateSchemaEntry (typ : Z) (spec : ParamSpec) : res perr ParamSpec :=
  if ps_required spec && String.eqb (ps_default spec) "" then Err PRequiredNoDefault else
  let def := TrimSpace (ps_default spec) in
  let shape := if String.eqb def "" then Ok tt else validateParamValue typ def [] in
  match shape with
  | Err e => Err (PDefault e)
  | Ok _ =>
      if negb (typ =? TYPE_QUANTITY)
      then Ok (MkSpec (ps_key spec) (ps_required spec) (ps_default spec) "" "" (ps_options spec))
      else
      match parseBounds (ps_min spec) (ps_max spec) with
      | Err e => Err e
      | Ok (lower, upper) =>
          if match lower, upper with Some l, Some u => u <? l | _, _ => false end
          then Err PMinAboveMax else
          if String.eqb def "" then Ok spec else
          match check_bounds def (ps_min spec) (ps_max spec) lower upper with
          | Err e => Err e
          | Ok _ => Ok spec
          end
      end
  end.

Fixpoint schema_loop (seen : gset string) (specs : list ParamSpec) : list ParamSpec :=
  match specs with
  | [] => []
  | spec :: specs' =>
      let key := TrimSpace (ps_key spec) in
      match catalog !! key with
      | None => schema_loop seen specs'
      | Some typ =>
          if bool_decide (key ∈ seen) then schema_loop seen specs' else
          match validateSchemaEntry typ spec with
          | Err _ => schema_loop seen specs'
          | Ok spec' => spec' :: schema_loop ({[key]} ∪ seen) specs'
          end
      end
  end.

Definition ValidateMachineSchema (specs : list ParamSpec) : list ParamSpec :=
  schema_loop ∅ specs.

Definition declared_of (schema : list ParamSpec) : gmap string ParamSpec :=
  foldl (λ m spec, <[ps_key spec := spec]> m) ∅ schema.

(** One key of the loop: [None] is [continue]. *)
Definition check_param (declared : gmap string ParamSpec) (key raw : string)
    : res perr (option string) :=
  let value := TrimSpace raw in
  if String.eqb value "" then Ok None else
  match catalog !! key with
  | None => Err (PUnknown key)
  | Some typ =>
      match declared !! key with
      | None => Err (PNotAccepted key)
      | Some spec =>
          match validateParamValue typ value (ps_options spec) with
          | Err e => Err (PInvalid key e)
          | Ok _ =>
              if typ =? TYPE_QUANTITY then
                match validateBounds spec value with Err e => Err e | Ok _ => Ok (Some value) end
              else Ok (Some value)
          end
      end
  end.

Fixpoint params_loop (declared : gmap string ParamSpec) (kvs : list (string * string))
    (out : gmap string string) : res perr (gmap string string) :=
  match kvs with
  | [] => Ok out
  | (key, raw) :: kvs' =>
      match check_param declared key raw with
      | Err e => Err e
      | Ok None => params_loop declared kvs' out
      | Ok (Some value) => params_loop declared kvs' (<[key := value]> out)
      end
  end.

Definition key_le (a b : string * string) : Prop := String.leb a.1 b.1 = true.
#[export] Instance key_le_dec : RelDecision key_le.
Proof. intros a b. unfold key_le. apply _. Defined.

(** [slices.Sorted(maps.Keys(values))], with the values; a nil map is empty. *)
Definition ValidateMachineParams (schema : list ParamSpec) (values : gmap string string)
    : res perr (gmap string string) :=
  params_loop (declared_of schema) (merge_sort key_le (map_to_list values)) ∅.

(** ** Lemmas *)

(** [w], or [w.f] with at most three digits [f]: [whole] units and [frac]
    thousandths. *)
Definition head_text (head : string) (whole frac : Z) : Prop :=
  ∃ w, w ≠ "" ∧ str_forallb is_digit w = true ∧ whole = dec w ∧
    ((head = w ∧ frac = 0) ∨
     ∃ f, f ≠ "" ∧ str_forallb is_digit f = true ∧ (String.length f ≤ 3)%nat ∧
       head = w +:+ String dot f ∧ frac = dec f * 10 ^ (3 - Z.of_nat (String.length f))).

Lemma ParseUint_spec s bits v :
  ParseUint s bits = Some v ↔ s ≠ "" ∧ str_forallb is_digit s = true ∧ v = dec s ∧ v < 2^bits.
Proof.
  unfold ParseUint. split.
  - case_goal; [|done]. intros [= <-].
    apply andb_prop in Heqb as [H H3]. apply andb_prop in H as [H1 H2].
    apply Z.ltb_lt in H1, H3. split_and!; try done. by intros ->.
  - intros (H1 & H2 & -> & H3). rewrite H2. apply Z.ltb_lt in H3. rewrite H3.
    destruct s as [|c s]; [done|]. done.
Qed.

Lemma pad_frac_spec f :
  str_forallb is_digit f = true → (String.length f ≤ 3)%nat →
  pad_frac (String.length f) (dec f) = dec f * 10 ^ (3 - Z.of_nat (String.length f)) ∧
  0 ≤ dec f * 10 ^ (3 - Z.of_nat (String.length f)) < 1000 ∧ dec f < 2^32.
Proof.
  intros Hd Hl. pose proof (dec_bounds f Hd) as Hb. unfold pad_frac.
  destruct (String.length f) as [|[|[|[|n]]]]; try lia;
    repeat match goal with
    | |- context [10 ^ ?e] => let v := eval vm_compute in (10 ^ e) in change (10 ^ e) with v
    | H : context [10 ^ ?e] |- _ => let v := eval vm_compute in (10 ^ e) in change (10 ^ e) with v in H
    end; simpl Nat.iter;
    repeat match goal with
    | |- context [i64 ?x] =>
        lazymatch x with
        | context [i64 _] => fail
        | _ => rewrite (i64_small x) by (unfold in_i64; lia)
        end
    end; lia.
Qed.

Lemma no_dot_digits f :
  str_forallb is_digit f = true → str_forallb (λ c, negb (Ascii.eqb c dot)) f = true.
Proof.
  apply str_forallb_impl. intros c Hc. destruct (Ascii.eqb c dot) eqn:E; [|done].
  apply Ascii.eqb_eq in E. by subst.
Qed.

Lemma digit_not_dot c : is_digit c = true → Ascii.eqb c dot = false.
Proof. intros Hc. destruct (Ascii.eqb c dot) eqn:E; [|done]. apply Ascii.eqb_eq in E. by subst. Qed.

Lemma parseHead_spec head full whole frac :
  parseHead head full = Ok (whole, frac) ↔ head_text head whole frac ∧ whole < 2^63.
Proof.
  split.
  - unfold parseHead. destruct head as [|c head]; [done|].
    destruct (Ascii.eqb c dot) eqn:Edot; [done|].
    destruct (Cut (String c head) dot) as [[w f] has] eqn:Ec.
    destruct (has && String.eqb f "") eqn:Eh; [done|].
    destruct (3 <? Z.of_nat (String.length f)) eqn:El; [done|]. apply Z.ltb_ge in El.
    destruct (ParseUint w 63) as [wv|] eqn:Ew; [|done].
    apply ParseUint_spec in Ew as (Hw & Hwd & -> & Hlt).
    destruct (String.eqb f "") eqn:Ef.
    + intros [= <- <-]. split; [|done]. exists w. split_and!; try done. left. split; [|done].
      destruct has; [done|]. by apply Cut_none in Ec as [-> _].
    + destruct (ParseUint f 32) as [fv|] eqn:Efv; [|done].
      apply ParseUint_spec in Efv as (Hf & Hfd & -> & _). intros [= <- <-]. split; [|done].
      exists w. split_and!; try done. right. exists f.
      destruct (pad_frac_spec f Hfd ltac:(lia)) as (-> & _). split_and!; try done; [lia|].
      destruct has; [by apply Cut_app in Ec|]. by apply Cut_none in Ec as [_ ->].
  - intros [(w & Hw & Hwd & -> & Hh) Hlt]. unfold parseHead.
    assert (ParseUint w 63 = Some (dec w)) as Ew by by apply ParseUint_spec.
    destruct w as [|c w]; [done|].
    pose proof Hwd as Hc. simpl in Hc. apply andb_prop in Hc as [Hc _].
    destruct Hh as [[-> ->]|(f & Hf & Hfd & Hfl & -> & ->)].
    + rewrite (digit_not_dot _ Hc), Cut_absent by by apply no_dot_digits.
      simpl. by rewrite Ew.
    + rewrite Cut_first by by apply no_dot_digits.
      rewrite str_cons_app, (digit_not_dot _ Hc), Ew.
      assert (String.eqb f "" = false) as -> by by apply String.eqb_neq.
      destruct (pad_frac_spec f Hfd Hfl) as (E & _ & Hlt32).
      assert (ParseUint f 32 = Some (dec f)) as -> by by apply ParseUint_spec.
      rewrite E. simpl. assert ((3 <? Z.of_nat (String.length f)) = false) as -> by (apply Z.ltb_ge; lia).
      done.
Qed.

(** [quantity_text t whole frac suffix]: [t] is a head with that suffix. *)
Definition quantity_text (t : string) (whole frac : Z) (suffix : string) : Prop :=
  ∃ head, t = head +:+ suffix ∧ head_text head whole frac.

Lemma milliTable_ok suffix mult :
  milliTable !! suffix = Some mult →
  head_stops head_byte suffix = true ∧ 0 < mult ∧ mult ≤ Z.shiftl 1000 50 ∧
  ((mult `quot` 1000) * 1000 = mult ∨ suffix = "m" ∧ mult = 1).
Proof.
  intros H.
  assert (map_Forall (λ suffix mult, head_stops head_byte suffix = true ∧ 0 < mult ∧
    mult ≤ Z.shiftl 1000 50 ∧ ((mult `quot` 1000) * 1000 = mult ∨ suffix = "m" ∧ mult = 1))
    milliTable) as Ht.
  { apply (bool_decide_unpack _). vm_compute. exact I. }
  exact (Ht _ _ H).
Qed.

Lemma head_text_bytes head whole frac :
  head_text head whole frac →
  str_forallb head_byte head = true ∧ 0 ≤ whole ∧ 0 ≤ frac < 1000 ∧
  ∃ c s, head = String c s ∧ is_digit c = true.
Proof.
  intros (w & Hw & Hwd & -> & Hh). pose proof (dec_bounds w Hwd).
  assert (∀ s, str_forallb is_digit s = true → str_forallb head_byte s = true) as Himp.
  { intros s. apply str_forallb_impl. intros c Hc. unfold head_byte. rewrite Hc. apply orb_true_r. }
  destruct w as [|c w]; [done|]. pose proof Hwd as Hc. simpl in Hc. apply andb_prop in Hc as [Hc _].
  destruct Hh as [[-> ->]|(f & Hf & Hfd & Hfl & -> & ->)].
  - split_and!; [by apply Himp|lia|lia|lia|eauto].
  - destruct (pad_frac_spec f Hfd Hfl) as (_ & ? & _).
    split_and!; [|lia|lia|lia|rewrite str_cons_app; eauto].
    rewrite str_forallb_app, Himp by done. simpl. by apply Himp.
Qed.

(** The value a text denotes, in thousandths, and what Parse makes of it. *)
Definition exact_milli (whole frac mult : Z) : Z := whole * mult + frac * (mult `quot` 1000).

Lemma wrap_exact whole frac mult :
  0 ≤ whole → 0 ≤ frac < 1000 → 0 < mult ≤ Z.shiftl 1000 50 → whole ≤ milliMax `quot` mult →
  i64 (i64 (whole * mult) + i64 (frac * (mult `quot` 1000)))
    = let exact := exact_milli whole frac mult in
      if exact <=? milliMax then exact else exact - 2^64.
Proof.
  intros Hw Hf Hm Hmax. unfold exact_milli, milliMax, max_int64 in *.
  change (Z.shiftl 1000 50) with 1125899906842624000 in Hm.
  assert (whole * mult ≤ 2^63 - 1) as H1.
  { rewrite Z.quot_div_nonneg in Hmax by lia.
    pose proof (Z.mul_div_le (2^63-1) mult ltac:(lia)). nia. }
  assert (0 ≤ mult `quot` 1000 ∧ (mult `quot` 1000) * 1000 ≤ mult) as [H2 H3].
  { rewrite Z.quot_div_nonneg by lia. pose proof (Z.mul_div_le mult 1000 ltac:(lia)).
    split; [apply Z.div_pos; lia|lia]. }
  assert (0 ≤ frac * (mult `quot` 1000) ≤ mult) as H4 by nia.
  rewrite (i64_small (whole * mult)) by (unfold in_i64; nia).
  rewrite (i64_small (frac * _)) by (unfold in_i64; lia).
  set (z := whole * mult + frac * (mult `quot` 1000)) in *.
  assert (0 ≤ z < 2^63 + 1125899906842624000) as Hz by (unfold z; nia). cbv zeta.
  destruct (z <=? 2^63 - 1) eqn:E; [apply Z.leb_le in E|apply Z.leb_gt in E].
  - apply i64_small. unfold in_i64. lia.
  - unfold i64, wrap_signed. change (2 ^ (64 - 1)) with (2^63). 
    rewrite <-(Z.mod_unique (z + 2^63) (2^64) 1 (z + 2^63 - 2^64)); lia.
Qed.

Lemma quantity_parts t head whole frac suffix mult :
  t = head +:+ suffix → head_text head whole frac → milliTable !! suffix = Some mult →
  (span head_byte t).1 = head ∧ TrimPrefix t head = suffix ∧
  ∃ c s, t = String c s ∧ Ascii.eqb c "+" || Ascii.eqb c "-" = false.
Proof.
  intros -> Hh Hm. destruct (milliTable_ok _ _ Hm) as (Hs & _).
  destruct (head_text_bytes _ _ _ Hh) as (Hb & _ & _ & c & s & -> & Hc).
  rewrite (span_app _ _ _ Hb Hs), TrimPrefix_app. split_and!; [done|done|].
  rewrite str_cons_app. eexists c, _. split; [done|].
  destruct (Ascii.eqb c "+") eqn:E1; [apply Ascii.eqb_eq in E1; by subst|].
  destruct (Ascii.eqb c "-") eqn:E2; [apply Ascii.eqb_eq in E2; by subst|done].
Qed.

Lemma exact_below_wrap whole frac mult :
  0 ≤ whole → 0 ≤ frac < 1000 → 0 < mult → mult ≤ Z.shiftl 1000 50 → whole ≤ milliMax `quot` mult →
  exact_milli whole frac mult - 2^64 < 0.
Proof.
  intros Hw Hf Hm Hm1 Hmax. unfold exact_milli, milliMax, max_int64 in *.
  change (Z.shiftl 1000 50) with 1125899906842624000 in Hm1.
  rewrite Z.quot_div_nonneg in Hmax by lia. rewrite Z.quot_div_nonneg by lia.
  pose proof (Z.mul_div_le (2^63-1) mult ltac:(lia)).
  pose proof (Z.mul_div_le mult 1000 ltac:(lia)).
  pose proof (Z.div_pos mult 1000 ltac:(lia) ltac:(lia)). nia.
Qed.

(** [reading t m]: the text [t] is a quantity of [m] thousandths, its whole part
    within the range. *)
Definition reading (t : string) (m : Z) : Prop :=
  ∃ whole frac suffix mult,
    quantity_text (TrimSpace t) whole frac suffix ∧ milliTable !! suffix = Some mult ∧
    (suffix = "m" → frac = 0) ∧ whole ≤ milliMax `quot` mult ∧ m = exact_milli whole frac mult.

(** Those thousandths as the int64 the code computes with. *)
Definition as_int64 (m : Z) : Z := if m <=? milliMax then m else m - 2^64.

Lemma parse_value s m : reading s m → Parse s = Ok (as_int64 m).
Proof.
  intros (whole & frac & suffix & mult & (head & Et & Hh) & Em & Hfrac & Hmax & ->).
  destruct (quantity_parts _ _ _ _ _ _ Et Hh Em) as (Es & Ep & c & t' & Ec & Hsign).
  destruct (head_text_bytes _ _ _ Hh) as (_ & ? & ? & _).
  destruct (milliTable_ok _ _ Em) as (_ & ? & ? & _).
  unfold Parse. cbv zeta. rewrite Es, Ep, Em, Ec, Hsign, <-Ec.
  assert (whole < 2^63) as Hw.
  { unfold milliMax, max_int64 in Hmax. rewrite Z.quot_div_nonneg in Hmax by lia.
    pose proof (Z.div_le_upper_bound (2^63-1) mult (2^63-1) ltac:(lia) ltac:(nia)). lia. }
  assert (parseHead head (TrimSpace s) = Ok (whole, frac)) as -> by by apply parseHead_spec.
  assert (String.eqb suffix "m" && negb (frac =? 0) = false) as ->.
  { destruct (String.eqb suffix "m") eqn:E; [|done]. apply String.eqb_eq in E.
    by rewrite (Hfrac E). }
  assert ((milliMax `quot` mult <? whole) = false) as -> by by apply Z.ltb_ge.
  unfold as_int64. by rewrite wrap_exact.
Qed.

(** ** Properties *)

(** Parse accepts exactly the texts of the grammar, digits with at most
    three decimals and a known suffix, whose whole part fits, and its value is
    the exact number of thousandths while that fits an int64.  Where only the
    fraction pushes the value past the maximum, the sum wraps to a negative
    number and no error is returned. *)
Theorem parse_spec s v : Parse s = Ok v ↔ ∃ m, reading s m ∧ v = as_int64 m.
Proof.
  split.
  - unfold Parse. cbv zeta. destruct (TrimSpace s) as [|c t'] eqn:Et; [done|].
    destruct (Ascii.eqb c "+" || Ascii.eqb c "-"); [done|].
    destruct (span head_byte (String c t')) as [head suffix] eqn:Es.
    apply span_spec in Es as (Eh & _ & _). rewrite Eh. simpl. rewrite TrimPrefix_app.
    destruct (milliTable !! suffix) as [mult|] eqn:Em; [|done].
    destruct (parseHead head _) as [[whole frac]|] eqn:Ep; [|done].
    apply parseHead_spec in Ep as [Hh _].
    destruct (String.eqb suffix "m" && negb (frac =? 0)) eqn:Eb; [done|].
    destruct (milliMax `quot` mult <? whole) eqn:El; [done|]. apply Z.ltb_ge in El.
    intros [= <-]. exists (exact_milli whole frac mult).
    destruct (head_text_bytes _ _ _ Hh) as (_ & ? & ? & _).
    destruct (milliTable_ok _ _ Em) as (_ & ? & ? & _).
    split; [|by apply wrap_exact]. exists whole, frac, suffix, mult.
    split_and!; [by rewrite Et; exists head|done| |done|done].
    intros ->. simpl in Eb. apply negb_false_iff, Z.eqb_eq in Eb. done.
  - intros (m & H & ->). by apply parse_value.
Qed.

Lemma params_loop_ok declared kvs out out' :
  NoDup kvs.*1 → params_loop declared kvs out = Ok out' →
  (∀ k raw, (k, raw) ∈ kvs → ∃ r, check_param declared k raw = Ok r ∧
     out' !! k = match r with Some v => Some v | None => out !! k end) ∧
  (∀ k, k ∉ kvs.*1 → out' !! k = out !! k).
Proof.
  revert out. induction kvs as [|[k raw] kvs IH]; intros out Hnd H; simpl in *.
  { simplify_eq. split; [|done]. intros k raw Hin. by apply elem_of_nil in Hin. }
  apply NoDup_cons in Hnd as [Hk Hnd].
  destruct (check_param declared k raw) as [r|e] eqn:Ec; [|done].
  assert (params_loop declared kvs (match r with Some v => <[k:=v]> out | None => out end) = Ok out')
    as H' by by destruct r.
  destruct (IH _ Hnd H') as [IH1 IH2]. split.
  - intros k' raw' [[= -> ->]|Hin]%elem_of_cons.
    + exists r. split; [done|]. rewrite (IH2 k Hk). destruct r; [by simplify_map_eq|done].
    + destruct (IH1 _ _ Hin) as (r' & E & ->). exists r'. split; [done|].
      destruct r'; [done|]. destruct r; [|done]. rewrite lookup_insert_ne; [done|].
      intros ->. apply Hk. change k' with (k', raw').1. by apply list_elem_of_fmap_2.
  - intros k' Hk'. rewrite not_elem_of_cons in Hk'. destruct Hk' as [Hne Hk'].
    rewrite (IH2 _ Hk'). destruct r; [by rewrite lookup_insert_ne by congruence|done].
Qed.

Lemma params_loop_err declared kvs out e :
  params_loop declared kvs out = Err e →
  ∃ pre k raw post, kvs = pre ++ (k, raw) :: post ∧ check_param declared k raw = Err e ∧
    ∀ k' raw', (k', raw') ∈ pre → ∃ r, check_param declared k' raw' = Ok r.
Proof.
  revert out. induction kvs as [|[k raw] kvs IH]; intros out H; simpl in *; [done|].
  destruct (check_param declared k raw) as [r|e'] eqn:Ec.
  - assert (∃ out', params_loop declared kvs out' = Err e) as [out' H'] by (destruct r; eauto).
    destruct (IH _ H') as (pre & k' & raw' & post & -> & Hc & Hpre).
    exists ((k, raw) :: pre), k', raw', post. split_and!; [done..|].
    intros k2 raw2 [[= -> ->]|Hin]%elem_of_cons; eauto.
  - simplify_eq. exists [], k, raw, kvs. split_and!; [done..|]. by intros ?? ?%elem_of_nil.
Qed.

Lemma sorted_params (values : gmap string string) :
  merge_sort key_le (map_to_list values) ≡ₚ map_to_list values.
Proof. apply merge_sort_Permutation. Qed.

(** *** What a parameter has to be *)

(** The entry of the schema that counts for a key: the last one. *)
Definition declares (schema : list ParamSpec) (key : string) (spec : ParamSpec) : Prop :=
  last (filter (λ s, ps_key s = key) schema) = Some spec.

(** A non-empty text of lower-case letters, digits and dashes that neither
    starts nor ends with a dash. *)
Definition name_text (value : string) : Prop :=
  let l := String.list_ascii_of_string value in
  l ≠ [] ∧ Forall (λ c, is_lower c = true ∨ is_digit c = true ∨ c = "-"%char) l ∧
  head l ≠ Some "-"%char ∧ last l ≠ Some "-"%char.

(** What a bound says: nothing, or the int64 of its quantity. *)
Definition bound_reading (t : string) (b : option Z) : Prop :=
  t = "" ∧ b = None ∨ t ≠ "" ∧ ∃ m, reading t m ∧ b = Some (as_int64 m).

(** The bounds count when both are readable; a corrupt bound switches them off. *)
Definition in_bounds (spec : ParamSpec) (v : Z) : Prop :=
  ∀ lower upper, bound_reading (ps_min spec) lower → bound_reading (ps_max spec) upper →
    (∀ l, lower = Some l → l ≤ v) ∧ (∀ u, upper = Some u → v ≤ u).

Definition param_ok (schema : list ParamSpec) (key value : string) : Prop :=
  ∃ typ spec, catalog !! key = Some typ ∧ declares schema key spec ∧
    Z.of_nat (String.length value) ≤ maxParamValueLength ∧
    (ps_options spec ≠ [] → value ∈ ps_options spec) ∧
    (typ = TYPE_STRING → name_text value) ∧
    (typ = TYPE_QUANTITY → ∃ m, reading value m ∧ in_bounds spec (as_int64 m)).

(** What each error says of the key and its value. *)
Definition fault (schema : list ParamSpec) (key value : string) (e : perr) : Prop :=
  match e with
  | PUnknown k => k = key ∧ catalog !! key = None
  | PNotAccepted k => k = key ∧ is_Some (catalog !! key) ∧ ∀ spec, ¬ declares schema key spec
  | PInvalid k e => k = key ∧ ∃ typ spec, catalog !! key = Some typ ∧ declares schema key spec ∧
      match e with
      | PTooLong => maxParamValueLength < Z.of_nat (String.length value)
      | PQuantity _ => typ = TYPE_QUANTITY ∧ ∀ m, ¬ reading value m
      | PName v => v = value ∧ typ = TYPE_STRING ∧ ¬ name_text value
      | PNotAnOption v => v = value ∧ ps_options spec ≠ [] ∧ value ∉ ps_options spec
      | _ => False
      end
  | PBelow v t => v = value ∧ ∃ spec m l upper,
      catalog !! key = Some TYPE_QUANTITY ∧ declares schema key spec ∧ reading value m ∧
      t = ps_min spec ∧ bound_reading t (Some l) ∧ bound_reading (ps_max spec) upper ∧ as_int64 m < l
  | PAbove v t => v = value ∧ ∃ spec m lower u,
      catalog !! key = Some TYPE_QUANTITY ∧ declares schema key spec ∧ reading value m ∧
      t = ps_max spec ∧ bound_reading (ps_min spec) lower ∧ bound_reading t (Some u) ∧ u < as_int64 m
  | _ => False
  end.

Definition nonblank (values : gmap string string) (key value : string) : Prop :=
  ∃ raw, values !! key = Some raw ∧ value = TrimSpace raw ∧ value ≠ "".

Lemma reading_parse value m m' : reading value m → reading value m' → as_int64 m = as_int64 m'.
Proof. intros H%parse_value H'%parse_value. congruence. Qed.

Lemma no_reading value e : Parse value = Err e → ∀ m, ¬ reading value m.
Proof. intros He m Hm%parse_value. congruence. Qed.

Lemma declared_of_spec schema key : declared_of schema !! key = last (filter (λ s, ps_key s = key) schema).
Proof.
  unfold declared_of. induction schema as [|spec l IH] using rev_ind; [done|].
  rewrite foldl_app, filter_app, last_app. simpl. destruct (decide (ps_key spec = key)) as [<-|Hk].
  - by rewrite lookup_insert_eq, filter_cons_True by done.
  - rewrite lookup_insert_ne, filter_cons_False by done. by rewrite IH.
Qed.

Lemma dns_end_char c : dns_end c = true → is_lower c = true ∨ is_digit c = true.
Proof. unfold dns_end. by intros [?|?]%orb_true_iff; [left|right]. Qed.

Lemma dns_inner_iff c : dns_inner c = true ↔ is_lower c = true ∨ is_digit c = true ∨ c = "-"%char.
Proof. unfold dns_inner, dns_end. rewrite !orb_true_iff, Ascii.eqb_eq. tauto. Qed.

Lemma dns_end_iff c : dns_inner c = true → dns_end c = true ↔ c ≠ "-"%char.
Proof.
  unfold dns_inner. intros Hc. split; [by intros H ->|]. intros Hne.
  apply orb_true_iff in Hc as [->%Ascii.eqb_eq|]; done.
Qed.

Lemma forallb_Forall {A} (f : A → bool) (P : A → Prop) l :
  (∀ x, f x = true ↔ P x) → forallb f l = true ↔ Forall P l.
Proof.
  intros H. rewrite forallb_forall, Forall_forall. split; intros Hx x Hin.
  - by apply H, Hx, list_elem_of_In.
  - by apply H, Hx, list_elem_of_In.
Qed.

Lemma dnsLabelPattern_iff value : dnsLabelPattern value = true ↔ name_text value.
Proof.
  unfold dnsLabelPattern, name_text. destruct (String.list_ascii_of_string value) as [|c l]; [naive_solver|].
  destruct (last (c :: l)) as [z|] eqn:Ez.
  2:{ apply last_None in Ez. done. }
  rewrite !andb_true_iff, (forallb_Forall _ _ l dns_inner_iff), Forall_cons.
  assert (z ∈ c :: l) as Hz by (apply last_Some_elem_of; exact Ez). cbn [head].
  split.
  - intros [[Hc Hl] Hze].
    assert (dns_inner c = true) as Hci by (unfold dns_inner; by rewrite Hc, orb_true_r).
    assert (dns_inner z = true) as Hzi by (unfold dns_inner; by rewrite Hze, orb_true_r).
    apply dns_end_iff in Hc, Hze; [|done..]. split_and!; [done|by apply dns_inner_iff|done|congruence|congruence].
  - intros (_ & [Hc Hl] & Hh & Ht).
    assert (dns_inner z = true) as Hzi.
    { apply dns_inner_iff. apply elem_of_cons in Hz as [->|Hz]; [done|]. by rewrite Forall_forall in Hl; apply Hl. }
    apply dns_inner_iff in Hc. split_and!; [|done|]; apply dns_end_iff; congruence.
Qed.

Lemma parse_bound_spec value wrap b : parse_bound value wrap = Ok b ↔ bound_reading value b.
Proof.
  unfold parse_bound, bound_reading. destruct (String.eqb_spec value "") as [->|Hne].
  - split; [intros [= <-]; by left|]. by intros [[_ ->]|[? _]].
  - destruct (Parse value) as [v|e] eqn:Ep.
    + apply parse_spec in Ep as (m & Hm & ->). split; [intros [= <-]; eauto|].
      intros [[? _]|(_ & m' & Hm' & ->)]; [done|]. by rewrite (reading_parse _ _ _ Hm Hm').
    + split; [done|]. intros [[? _]|(_ & m & Hm & _)]; [done|]. by destruct (no_reading _ _ Ep m).
Qed.

Lemma parseBounds_spec mn mx lower upper :
  parseBounds mn mx = Ok (lower, upper) ↔ bound_reading mn lower ∧ bound_reading mx upper.
Proof.
  unfold parseBounds. rewrite <- (parse_bound_spec mn (PMinimum mn)), <- (parse_bound_spec mx (PMaximum mx)).
  destruct (parse_bound mn _), (parse_bound mx _); naive_solver.
Qed.

(** The bounds of a readable value. *)
Lemma validateBounds_spec spec value m : reading value m →
  match validateBounds spec value with
  | Ok _ => in_bounds spec (as_int64 m)
  | Err e => ∃ lower upper, bound_reading (ps_min spec) lower ∧ bound_reading (ps_max spec) upper ∧
      (e = PBelow value (ps_min spec) ∧ (∃ l, lower = Some l ∧ as_int64 m < l) ∨
       e = PAbove value (ps_max spec) ∧ (∃ u, upper = Some u ∧ u < as_int64 m))
  end.
Proof.
  intros Hm. unfold validateBounds.
  destruct (parseBounds (ps_min spec) (ps_max spec)) as [[lower upper]|e] eqn:Eb.
  2:{ intros lower upper Hl Hu. assert (parseBounds (ps_min spec) (ps_max spec) = Ok (lower, upper)) by
      by apply parseBounds_spec. congruence. }
  unfold check_bounds. rewrite (parse_value _ _ Hm).
  pose proof (proj1 (parseBounds_spec _ _ _ _) Eb) as [Hl Hu].
  destruct (below (as_int64 m) lower) eqn:E1.
  { destruct lower as [l|]; [|done]. apply Z.ltb_lt in E1. exists (Some l), upper. split_and!; [done..|]. left. eauto. }
  destruct (above (as_int64 m) upper) eqn:E2.
  { destruct upper as [u|]; [|done]. apply Z.ltb_lt in E2. exists lower, (Some u). split_and!; [done..|]. right. eauto. }
  intros lower' upper' Hl' Hu'.
  assert (parseBounds (ps_min spec) (ps_max spec) = Ok (lower', upper')) as Eb' by by apply parseBounds_spec.
  rewrite Eb in Eb'. injection Eb' as <- <-.
  split; intros b ->; [apply Z.ltb_ge in E1|apply Z.ltb_ge in E2]; lia.
Qed.

(** Every parameter of the catalog is a quantity or a text. *)
Lemma catalog_types key typ : catalog !! key = Some typ → typ = TYPE_QUANTITY ∨ typ = TYPE_STRING.
Proof.
  assert (map_Forall (λ _ typ, typ = TYPE_QUANTITY ∨ typ = TYPE_STRING) catalog) as H
    by (apply (bool_decide_unpack _); vm_compute; exact I).
  apply H.
Qed.

(** The shape of a value: its length, its type and the options. *)
Lemma validateParamValue_spec schema key typ spec value :
  catalog !! key = Some typ → declares schema key spec →
  match validateParamValue typ value (ps_options spec) with
  | Ok _ => Z.of_nat (String.length value) ≤ maxParamValueLength ∧
      (ps_options spec ≠ [] → value ∈ ps_options spec) ∧
      (typ = TYPE_STRING → name_text value) ∧ (typ = TYPE_QUANTITY → ∃ m, reading value m)
  | Err e => fault schema key value (PInvalid key e)
  end.
Proof.
  intros Hc Hd. unfold validateParamValue.
  assert (if (0 <? Z.of_nat (length (ps_options spec))) && negb (bool_decide (value ∈ ps_options spec)) then ps_options spec ≠ [] ∧ value ∉ ps_options spec else ps_options spec ≠ [] → value ∈ ps_options spec) as Ho.
  { destruct (ps_options spec) as [|o os]; [intros H; by destruct H|]. simpl.
    case_bool_decide as Hb; simpl; [intros _; exact Hb|by split]. }
  destruct (maxParamValueLength <? _) eqn:El.
  { apply Z.ltb_lt in El. split; [done|]. exists typ, spec. done. }
  apply Z.ltb_ge in El. destruct (catalog_types _ _ Hc) as [-> | ->]; simpl.
  - destruct (Parse value) as [v|e] eqn:Ep.
    + apply parse_spec in Ep as (m & Hm & _). destruct (_ && _); simpl.
      * split; [done|]. exists TYPE_QUANTITY, spec. done.
      * split_and!; [done..|]. eauto.
    + split; [done|]. exists TYPE_QUANTITY, spec. split_and!; [done..|]. by apply (no_reading _ e).
  - destruct (dnsLabelPattern value) eqn:En.
    + apply dnsLabelPattern_iff in En. destruct (_ && _); simpl.
      * split; [done|]. exists TYPE_STRING, spec. done.
      * done.
    + split; [done|]. exists TYPE_STRING, spec. split_and!; [done..|]. rewrite <- dnsLabelPattern_iff. by rewrite En.
Qed.

(** One key: skipped when blank, accepted when in order, or refused for a fault. *)
Lemma check_param_spec schema key raw :
  match check_param (declared_of schema) key raw with
  | Ok None => TrimSpace raw = ""
  | Ok (Some value) => value = TrimSpace raw ∧ value ≠ "" ∧ param_ok schema key value
  | Err e => TrimSpace raw ≠ "" ∧ fault schema key (TrimSpace raw) e
  end.
Proof.
  unfold check_param. cbv zeta. destruct (String.eqb_spec (TrimSpace raw) "") as [|Hne]; [done|].
  destruct (catalog !! key) as [typ|] eqn:Ec; [|done].
  rewrite declared_of_spec. destruct (last _) as [spec|] eqn:Ed.
  2:{ split; [done|]. split_and!; [done|by rewrite Ec|]. intros spec. unfold declares. congruence. }
  pose proof (validateParamValue_spec schema key typ spec (TrimSpace raw) Ec Ed) as Hv.
  destruct (validateParamValue _ _ _) as [[]|e]; [|done]. destruct Hv as (Hl & Ho & Hs & Hq).
  destruct (typ =? TYPE_QUANTITY) eqn:Eq; [apply Z.eqb_eq in Eq as ->|apply Z.eqb_neq in Eq].
  - destruct (Hq eq_refl) as (m & Hm). pose proof (validateBounds_spec spec _ m Hm) as Hb.
    destruct (validateBounds spec (TrimSpace raw)) as [[]|e].
    + split_and!; [done..|]. exists TYPE_QUANTITY, spec. split_and!; [done..|]. eauto.
    + split; [done|]. destruct Hb as (lower & upper & Hlo & Hup & [(-> & l & -> & Hlt)|(-> & u & -> & Hlt)]).
      * split; [done|]. by exists spec, m, l, upper.
      * split; [done|]. by exists spec, m, lower, u.
  - split_and!; [done..|]. exists typ, spec. split_and!; [done..|]. by intros ->.
Qed.

(** A fault is a reason to refuse. *)
Lemma fault_refused schema key value e : fault schema key value e → ¬ param_ok schema key value.
Proof.
  intros Hf (typ & spec & Hc & Hd & Hl & Ho & Hs & Hq).
  assert (∀ spec', declares schema key spec' → spec' = spec) as Hspec by (unfold declares in *; congruence).
  destruct e as [| | | | | | | | | |v t|v t|k|k|k e]; simpl in Hf; try done.
  - destruct Hf as (_ & spec' & m & l & upper & Hc' & ->%Hspec & Hm & -> & Hlo & Hup & Hlt). simplify_eq.
    destruct (Hq eq_refl) as (m' & Hm' & Hb). rewrite (reading_parse _ _ _ Hm' Hm) in Hb.
    destruct (Hb _ _ Hlo Hup) as [H _]. specialize (H l eq_refl). lia.
  - destruct Hf as (_ & spec' & m & lower & u & Hc' & ->%Hspec & Hm & -> & Hlo & Hup & Hlt). simplify_eq.
    destruct (Hq eq_refl) as (m' & Hm' & Hb). rewrite (reading_parse _ _ _ Hm' Hm) in Hb.
    destruct (Hb _ _ Hlo Hup) as [_ H]. specialize (H u eq_refl). lia.
  - destruct Hf as [_ Hn]. congruence.
  - destruct Hf as (_ & _ & Hn). by destruct (Hn spec).
  - destruct Hf as (_ & typ' & spec' & Hc' & ->%Hspec & He). simplify_eq.
    destruct e; try done.
    + lia.
    + destruct He as [-> Hr]. destruct (Hq eq_refl) as (m & Hm & _). by destruct (Hr m).
    + destruct He as (_ & -> & Hn). by destruct Hn; apply Hs.
    + destruct He as (_ & Hne & Hn). by destruct Hn; apply Ho.
Qed.

#[export] Instance key_le_trans : Transitive key_le.
Proof.
  intros a b c H1 H2. pose proof (transitivity (R:=String.le) (x:=a.1) (y:=b.1) (z:=c.1)) as H.
  unfold String.le in H. unfold key_le in *. apply Is_true_eq_true, H; by apply Is_true_eq_left.
Qed.
#[export] Instance key_le_total : Total key_le.
Proof. intros a b. unfold key_le. destruct (String.leb_total a.1 b.1) as [->| ->]; auto. Qed.

(** C37: ValidateMachineParams accepts a request exactly when every value that is
    not blank is in order: a parameter of the catalog, declared by the schema,
    within the length and the options, a DNS label or a quantity by its type, and
    a quantity within the bounds.  The bounds are compared as the code compares
    them: on the int64 of the exact thousandths, which wraps below zero where only
    the fraction leaves the range (such a value passes every maximum), and not at
    all where one of the two persisted bounds is corrupt.  What is accepted is
    exactly the trimmed values that are not blank.  A refusal is for the least
    key whose value is not in order, and its error says what is wrong with it. *)
Theorem validate_params_spec schema values :
  match ValidateMachineParams schema values with
  | Ok out =>
      (∀ key value, nonblank values key value → param_ok schema key value) ∧
      (∀ key value, out !! key = Some value ↔ nonblank values key value)
  | Err e => ∃ key value,
      nonblank values key value ∧ fault schema key value e ∧ ¬ param_ok schema key value ∧
      ∀ key' value', nonblank values key' value' → ¬ param_ok schema key' value' → String.leb key key' = true
  end.
Proof.
  assert (∀ k raw, (k, raw) ∈ merge_sort key_le (map_to_list values) ↔ values !! k = Some raw) as Hin.
  { intros k raw. by rewrite sorted_params, elem_of_map_to_list. }
  destruct (ValidateMachineParams schema values) as [out|e] eqn:E; unfold ValidateMachineParams in E.
  - apply params_loop_ok in E as [H1 H2].
    2:{ rewrite (sorted_params values). apply NoDup_fst_map_to_list. }
    assert (∀ key raw, values !! key = Some raw →
      (out !! key = if decide (TrimSpace raw = "") then None else Some (TrimSpace raw)) ∧
      (TrimSpace raw ≠ "" → param_ok schema key (TrimSpace raw))) as Hkey.
    { intros key raw Hr. destruct (H1 key raw) as (r & Hc & ->); [by apply Hin|].
      pose proof (check_param_spec schema key raw) as Hs. rewrite Hc in Hs. rewrite lookup_empty.
      destruct r as [v|]; [destruct Hs as (-> & Hne & Hok); by rewrite decide_False|by rewrite decide_True]. }
    split; [by intros key value (raw & Hr & -> & Hne); apply (Hkey key raw Hr)|].
    intros key value. split.
    + intros Ho. destruct (values !! key) as [raw|] eqn:Ev.
      * destruct (Hkey key raw Ev) as [Hk _]. rewrite Ho in Hk. case_decide; [done|]. injection Hk as ->.
        by exists raw.
      * rewrite H2, lookup_empty in Ho; [done|]. intros ([k raw] & -> & Hk%Hin)%list_elem_of_fmap. simpl in Ev. congruence.
    + intros (raw & Hr & -> & Hne). destruct (Hkey key raw Hr) as [-> _]. by rewrite decide_False.
  - apply params_loop_err in E as (pre & k & raw & post & El & Hc & Hpre).
    pose proof (check_param_spec schema k raw) as Hs. rewrite Hc in Hs. destruct Hs as [Hne Hf].
    exists k, (TrimSpace raw). split_and!; [|done|by eapply fault_refused|].
    { exists raw. split_and!; [|done..]. apply Hin. rewrite El. set_solver. }
    intros k' value' (raw' & Hr' & -> & Hne') Hno. apply Hin in Hr'. rewrite El in Hr'.
    apply elem_of_app in Hr' as [Hr'|[[= -> ->]|Hr']%elem_of_cons].
    + destruct (Hpre _ _ Hr') as (r & Hc'). pose proof (check_param_spec schema k' raw') as Hs.
      rewrite Hc' in Hs. destruct r; [destruct Hs as (-> & _ & ?)|]; done.
    + by destruct (String.leb_total k k).
    + pose proof (StronglySorted_merge_sort key_le (map_to_list values)) as Hst.
      rewrite El in Hst. apply StronglySorted_app_1_r in Hst. apply StronglySorted_inv in Hst as [_ Hf'].
      rewrite Forall_forall in Hf'. apply (Hf' (k', raw') Hr').
Qed.

(** The maximum of a parameter does not stop a value whose parse wrapped:
    with no minimum declared, every text whose exact value is past the int64
    range (but whose whole part is not) is accepted under any maximum. *)
Theorem overflow_passes_maximum spec value whole frac suffix mult :
  quantity_text (TrimSpace value) whole frac suffix → milliTable !! suffix = Some mult →
  (suffix = "m" → frac = 0) → whole ≤ milliMax `quot` mult →
  milliMax < exact_milli whole frac mult →
  ps_min spec = "" → (∀ u, Parse (ps_max spec) = Ok u → 0 ≤ u) →
  validateBounds spec value = Ok tt ∧ ∃ v, Parse value = Ok v ∧ v < 0.
Proof.
  intros Ht Hm Hf Hw Hx Hmin Hmax.
  assert (Parse value = Ok (exact_milli whole frac mult - 2^64)) as Hp.
  { replace (exact_milli whole frac mult - 2^64) with (as_int64 (exact_milli whole frac mult))
      by (unfold as_int64; by apply Z.leb_gt in Hx as ->).
    apply parse_value. by exists whole, frac, suffix, mult. }
  destruct Ht as (head & _ & Hh).
  destruct (head_text_bytes _ _ _ Hh) as (_ & ? & ? & _).
  destruct (milliTable_ok _ _ Hm) as (_ & Hm0 & Hm1 & _).
  assert (exact_milli whole frac mult - 2^64 < 0) as Hneg by by apply exact_below_wrap.
  split; [|eauto]. unfold validateBounds, parseBounds, parse_bound. rewrite Hmin. simpl.
  unfold check_bounds. rewrite Hp. simpl.
  destruct (String.eqb (ps_max spec) ""); [done|].
  destruct (Parse (ps_max spec)) as [u|]; [|done]. simpl. specialize (Hmax u eq_refl).
  by assert ((u <? exact_milli whole frac mult - 2^64) = false) as -> by (apply Z.ltb_ge; lia).
Qed.

Module QuantityDemo.

Definition cpu_spec : ParamSpec := MkSpec "cpu" false "2" "" "16" [].

(** 9.9P of CPU under a maximum of 16. *)
Lemma overflow_passes_maximum_witness :
  Parse "9.9P" = Ok (- 8546744073709551616) ∧
  ValidateMachineSchema [cpu_spec] = [cpu_spec] ∧
  ValidateMachineParams [cpu_spec] {["cpu" := "9.9P"]} = Ok {["cpu" := "9.9P"]} ∧
  ValidateMachineParams [cpu_spec] {["cpu" := "17"]} = Err (PAbove "17" "16") ∧
  validateBounds cpu_spec "9.9P" = Ok tt.
Proof.
  split; [vm_compute; reflexivity|]. split; [vm_compute; reflexivity|].
  split; [vm_compute; reflexivity|]. split; [vm_compute; reflexivity|].
  apply (overflow_passes_maximum cpu_spec "9.9P" 9 900 "P" 1000000000000000000).
  - exists "9.9". split; [reflexivity|]. exists "9". split; [discriminate|].
    split; [reflexivity|]. split; [reflexivity|]. right. exists "9".
    split; [discriminate|]. split; [reflexivity|]. split; [vm_compute; lia|].
    split; reflexivity.
  - reflexivity.
  - discriminate.
  - vm_compute. discriminate.
  - vm_compute. reflexivity.
  - reflexivity.
  - intros u Hu. vm_compute in Hu. injection Hu as <-. discriminate.
Defined.

(** A reported key with blanks around it stays in the schema as it came, where
    no user key finds it. *)
Example untrimmed_key :
  ValidateMachineSchema [MkSpec " cpu" false "2" "" "16" []] = [MkSpec " cpu" false "2" "" "16" []] ∧
  ValidateMachineParams [MkSpec " cpu" false "2" "" "16" []] {["cpu" := "2"]} = Err (PNotAccepted "cpu").
Proof. split; vm_compute; reflexivity. Qed.
End QuantityDemo.
