(* ===== verification/OutputBuffer.v ===== *)
(** The producer's text path: the buffer that merges streamed deltas
    ([backend/agent/executor/output_buffer.go]) and the ACP executor's
    sendOutput with its caps ([backend/agent/executor/acp_executor.go]).

    The buffer's [order] is a Go slice: Flush keeps the old slice header and
    truncates the field with [b.order[:0]], which shares the backing array, so
    the arrays are a heap here and a flush is a frame that reads its slice after
    the mutex is released. *)

From Stdlib Require Import Ascii.
From stdpp Require Import base strings numbers list.
From S2P Require Import Prelude Strings Wire.
Import Strings.
Local Open Scope Z_scope.

(** ** Slices over a heap of arrays *)

Record slice := MkSlice { sl_arr : nat; sl_len : nat }.

Section buffer.
(** The capacity the runtime gives a slice that outgrows [n] elements. *)
Context (grow : nat → nat).

Record OutputBuffer := MkBuffer {
  ob_heap : list (list Z);
  ob_stdout : string;
  ob_system : string;
  ob_assistant : string;
  ob_order : slice
}.

Definition new_buffer : OutputBuffer := MkBuffer [[]] "" "" "" (MkSlice 0 0).

Definition array (heap : list (list Z)) (a : nat) : list Z := default [] (heap !! a).

(** [append(s, x)]: in place while the capacity lasts, else into a new array. *)
Definition slice_append (heap : list (list Z)) (s : slice) (x : Z) : list (list Z) * slice :=
  let arr := array heap (sl_arr s) in
  if (sl_len s <? length arr)%nat
  then (<[sl_arr s := <[sl_len s := x]> arr]> heap, MkSlice (sl_arr s) (S (sl_len s)))
  else
    let fresh := take (sl_len s) arr ++ x :: replicate (grow (sl_len s) - S (sl_len s)) 0 in
    (heap ++ [fresh], MkSlice (length heap) (S (sl_len s))).

Definition push_order (x : Z) (b : OutputBuffer) : OutputBuffer :=
  let '(heap, s) := slice_append (ob_heap b) (ob_order b) x in
  MkBuffer heap (ob_stdout b) (ob_system b) (ob_assistant b) s.

Definition set_text (st : Z) (t : string) (b : OutputBuffer) : OutputBuffer :=
  if st =? CommandOutput_STDOUT then MkBuffer (ob_heap b) t (ob_system b) (ob_assistant b) (ob_order b)
  else if st =? CommandOutput_SYSTEM then MkBuffer (ob_heap b) (ob_stdout b) t (ob_assistant b) (ob_order b)
  else if st =? CommandOutput_ASSISTANT then MkBuffer (ob_heap b) (ob_stdout b) (ob_system b) t (ob_order b)
  else b.

Definition text_of (st : Z) (b : OutputBuffer) : string :=
  if st =? CommandOutput_STDOUT then ob_stdout b
  else if st =? CommandOutput_SYSTEM then ob_system b
  else if st =? CommandOutput_ASSISTANT then ob_assistant b
  else "".

Definition buffered_type (st : Z) : bool :=
  (st =? CommandOutput_STDOUT) || (st =? CommandOutput_SYSTEM) || (st =? CommandOutput_ASSISTANT).

(** Append: the three cases differ in the builder only. *)
Definition Append (streamType : Z) (text : string) (b : OutputBuffer) : OutputBuffer :=
  if buffered_type streamType then
    let b1 := if String.eqb (text_of streamType b) "" then push_order streamType b else b in
    set_text streamType (text_of streamType b1 +:+ text) b1
  else b.

Definition TotalLen (b : OutputBuffer) : Z :=
  Z.of_nat (String.length (ob_stdout b)) + Z.of_nat (String.length (ob_system b))
    + Z.of_nat (String.length (ob_assistant b)).

Definition HasContent (b : OutputBuffer) : bool :=
  negb (String.eqb (ob_stdout b) "") || negb (String.eqb (ob_system b) "")
    || negb (String.eqb (ob_assistant b) "").

(** A flush after its critical section: the locals and the loop position. *)
Record frame := MkFrame {
  fr_stdout : string;
  fr_system : string;
  fr_assistant : string;
  fr_order : slice;
  fr_pos : nat
}.

Definition flush_begin (b : OutputBuffer) : frame * OutputBuffer :=
  (MkFrame (ob_stdout b) (ob_system b) (ob_assistant b) (ob_order b) 0,
   MkBuffer (ob_heap b) "" "" "" (MkSlice (sl_arr (ob_order b)) 0)).

Definition frame_text (st : Z) (f : frame) : string :=
  if st =? CommandOutput_STDOUT then fr_stdout f
  else if st =? CommandOutput_SYSTEM then fr_system f
  else if st =? CommandOutput_ASSISTANT then fr_assistant f
  else "".

Definition frame_taken (st : Z) (f : frame) : frame :=
  MkFrame (if st =? CommandOutput_STDOUT then "" else fr_stdout f)
    (if st =? CommandOutput_SYSTEM then "" else fr_system f)
    (if st =? CommandOutput_ASSISTANT then "" else fr_assistant f)
    (fr_order f) (S (fr_pos f)).

(** One iteration of the loop, on the heap as it is now. *)
Definition flush_next (heap : list (list Z)) (f : frame) : frame * list (Z * string) :=
  let st := default 0 (array heap (sl_arr (fr_order f)) !! fr_pos f) in
  (frame_taken st f, if String.eqb (frame_text st f) "" then [] else [(st, frame_text st f)]).

Fixpoint flush_loop (n : nat) (heap : list (list Z)) (f : frame) : list (Z * string) :=
  match n with
  | O => []
  | S n' => let '(f', sends) := flush_next heap f in sends ++ flush_loop n' heap f'
  end.

(** Flush with nobody else at the buffer meanwhile: what it sends, in order. *)
Definition Flush (b : OutputBuffer) : OutputBuffer * list (Z * string) :=
  let '(f, b') := flush_begin b in (b', flush_loop (sl_len (fr_order f)) (ob_heap b') f).

(** ** Interleavings: appends, flushes that start, flushes that go on *)

Inductive action :=
| AAppend (streamType : Z) (text : string)
| AFlush
| ANext (i : nat).

Record system := MkSystem {
  sy_buf : OutputBuffer;
  sy_frames : list frame;
  sy_sent : list (Z * string)
}.

Definition act (a : action) (s : system) : system :=
  match a with
  | AAppend st t => MkSystem (Append st t (sy_buf s)) (sy_frames s) (sy_sent s)
  | AFlush =>
      let '(f, b) := flush_begin (sy_buf s) in MkSystem b (sy_frames s ++ [f]) (sy_sent s)
  | ANext i =>
      match sy_frames s !! i with
      | None => s
      | Some f =>
          if (fr_pos f <? sl_len (fr_order f))%nat then
            let '(f', sends) := flush_next (ob_heap (sy_buf s)) f in
            MkSystem (sy_buf s) (<[i := f']> (sy_frames s)) (sy_sent s ++ sends)
          else s
      end
  end.

Definition acts (l : list action) (s : system) : system := foldl (λ s a, act a s) s l.

(** ** Lemmas *)

Definition order_list (b : OutputBuffer) : list Z :=
  take (sl_len (ob_order b)) (array (ob_heap b) (sl_arr (ob_order b))).

(** The slice is within its array, holds the three types only, and lists every
    stream that has text. *)
Definition buffer_inv (b : OutputBuffer) : Prop :=
  (sl_arr (ob_order b) < length (ob_heap b))%nat ∧
  (sl_len (ob_order b) ≤ length (array (ob_heap b) (sl_arr (ob_order b))))%nat ∧
  (∀ st, st ∈ order_list b → buffered_type st = true) ∧
  (∀ st, text_of st b ≠ "" → st ∈ order_list b).

Lemma new_buffer_inv : buffer_inv new_buffer.
Proof.
  split_and!; simpl; [lia|lia| |].
  - intros st H. by apply elem_of_nil in H.
  - intros st H. exfalso. apply H. unfold text_of. by repeat case_match.
Qed.

Lemma slice_append_spec heap s x heap' s' :
  (sl_arr s < length heap)%nat → (sl_len s ≤ length (array heap (sl_arr s)))%nat →
  slice_append heap s x = (heap', s') →
  (sl_arr s' < length heap')%nat ∧ (sl_len s' ≤ length (array heap' (sl_arr s')))%nat ∧
  take (sl_len s') (array heap' (sl_arr s')) = take (sl_len s) (array heap (sl_arr s)) ++ [x].
Proof.
  intros Ha Hl. unfold slice_append. set (arr := array heap (sl_arr s)) in *.
  destruct (sl_len s <? length arr)%nat eqn:E; intros [= <- <-]; simpl.
  - apply Nat.ltb_lt in E. unfold array at 1 2.
    rewrite length_insert, list_lookup_insert_eq by done. simpl.
    rewrite length_insert. split_and!; [done|lia|].
    rewrite insert_take_drop by done. rewrite take_app_ge; rewrite length_take, Nat.min_l by lia; [|lia].
    replace (S (sl_len s) - sl_len s)%nat with 1%nat by lia. done.
  - apply Nat.ltb_ge in E. unfold array at 1 2. rewrite length_app, lookup_app_r, Nat.sub_diag by lia.
    simpl. rewrite length_app, length_take. simpl. split_and!; [lia|lia|].
    rewrite take_app_ge; rewrite length_take, Nat.min_l by lia; [|lia].
    replace (S (sl_len s) - sl_len s)%nat with 1%nat by lia. done.
Qed.

Lemma text_of_set st t b st' :
  buffered_type st = true →
  text_of st' (set_text st t b) = if st' =? st then t else text_of st' b.
Proof.
  unfold buffered_type, set_text, text_of. intros Hb.
  destruct (st =? CommandOutput_STDOUT) eqn:E1;
    [|destruct (st =? CommandOutput_SYSTEM) eqn:E2;
      [|destruct (st =? CommandOutput_ASSISTANT) eqn:E3; [|done]]];
    match goal with H : (st =? _) = true |- _ => apply Z.eqb_eq in H; subst st end; simpl.
  all: unfold CommandOutput_STDOUT, CommandOutput_SYSTEM, CommandOutput_ASSISTANT.
  all: destruct (st' =? 1) eqn:F1; [apply Z.eqb_eq in F1; by subst|].
  all: destruct (st' =? 3) eqn:F3; [apply Z.eqb_eq in F3; by subst|].
  all: destruct (st' =? 4) eqn:F4; [apply Z.eqb_eq in F4; by subst|]; done.
Qed.

Lemma set_text_order st t b :
  ob_order (set_text st t b) = ob_order b ∧ ob_heap (set_text st t b) = ob_heap b.
Proof. unfold set_text. by repeat case_match. Qed.

Lemma push_order_spec x b :
  buffer_inv b → buffered_type x = true →
  buffer_inv (push_order x b) ∧ order_list (push_order x b) = order_list b ++ [x] ∧
  ∀ st, text_of st (push_order x b) = text_of st b.
Proof.
  intros (I1 & I2 & I3 & I4) Hx. unfold push_order.
  destruct (slice_append (ob_heap b) (ob_order b) x) as [heap' s'] eqn:E.
  destruct (slice_append_spec _ _ _ _ _ I1 I2 E) as (J1 & J2 & J3).
  assert (∀ st, text_of st (MkBuffer heap' (ob_stdout b) (ob_system b) (ob_assistant b) s')
    = text_of st b) as Ht by done.
  split_and!; [|exact J3|exact Ht]. split_and!; [exact J1|exact J2| |].
  - intros st. unfold order_list at 1. simpl. rewrite J3, elem_of_app, list_elem_of_singleton.
    intros [H| ->]; [by apply I3|done].
  - intros st. rewrite Ht. unfold order_list at 1. simpl. rewrite J3, elem_of_app. intros H.
    left. by apply I4.
Qed.

Lemma Append_spec st t b :
  buffer_inv b →
  buffer_inv (Append st t b) ∧
  ∀ st', text_of st' (Append st t b)
    = if buffered_type st && (st' =? st) then text_of st' b +:+ t else text_of st' b.
Proof.
  intros Hi. unfold Append. destruct (buffered_type st) eqn:Hb; [|done].
  set (b1 := if String.eqb (text_of st b) "" then push_order st b else b).
  assert (buffer_inv b1 ∧ st ∈ order_list b1 ∧ ∀ s, text_of s b1 = text_of s b) as (H1 & H2 & H3).
  { unfold b1. destruct (String.eqb (text_of st b) "") eqn:E.
    - destruct (push_order_spec st b Hi Hb) as (? & Ho & ?). split_and!; try done.
      rewrite Ho. apply elem_of_app. right. by left.
    - apply String.eqb_neq in E. split_and!; try done. by apply Hi. }
  cbv zeta. destruct (set_text_order st (text_of st b1 +:+ t) b1) as [E1 E2].
  assert (order_list (set_text st (text_of st b1 +:+ t) b1) = order_list b1) as E3
    by (unfold order_list; by rewrite E1, E2).
  destruct H1 as (J1 & J2 & J3 & J4). split.
  - unfold buffer_inv. rewrite E3, E1, E2. split_and!; try done.
    intros st'. rewrite text_of_set by done. destruct (st' =? st) eqn:E; [|apply J4].
    apply Z.eqb_eq in E. by subst.
  - intros st'. rewrite text_of_set by done. simpl. destruct (st' =? st) eqn:E; [|apply H3].
    apply Z.eqb_eq in E. subst. by rewrite H3.
Qed.
End buffer.

(** ** The sequential flush *)

(** The first occurrence of each element, in order. *)
Fixpoint first_seen (l : list Z) : list Z :=
  match l with
  | [] => []
  | x :: l' => x :: filter (λ y, y ≠ x) (first_seen l')
  end.

Lemma elem_of_first_seen x l : x ∈ first_seen l ↔ x ∈ l.
Proof.
  induction l as [|y l IH]; simpl; [done|].
  rewrite !elem_of_cons, list_elem_of_filter, IH. destruct (decide (x = y)); naive_solver.
Qed.

Lemma NoDup_first_seen l : NoDup (first_seen l).
Proof.
  induction l as [|y l IH]; simpl; constructor.
  - rewrite list_elem_of_filter. by intros [? _].
  - by apply list.NoDup_filter.
Qed.

Lemma frame_text_taken st f st' :
  buffered_type st = true →
  frame_text st' (frame_taken st f) = if st' =? st then "" else frame_text st' f.
Proof.
  unfold buffered_type, frame_text. intros Hb.
  destruct (st =? CommandOutput_STDOUT) eqn:E1;
    [|destruct (st =? CommandOutput_SYSTEM) eqn:E2;
      [|destruct (st =? CommandOutput_ASSISTANT) eqn:E3; [|done]]];
    match goal with H : (st =? _) = true |- _ => apply Z.eqb_eq in H; subst st end; simpl.
  all: unfold CommandOutput_STDOUT, CommandOutput_SYSTEM, CommandOutput_ASSISTANT.
  all: destruct (st' =? 1) eqn:F1; [apply Z.eqb_eq in F1; by subst|].
  all: destruct (st' =? 3) eqn:F3; [apply Z.eqb_eq in F3; by subst|].
  all: destruct (st' =? 4) eqn:F4; [apply Z.eqb_eq in F4; by subst|]; done.
Qed.

Definition sends_of (text : Z → string) (l : list Z) : list (Z * string) :=
  (λ st, (st, text st)) <$> filter (λ st, text st ≠ "") (first_seen l).

Lemma sends_of_ext (t1 t2 : Z → string) l :
  (∀ st, st ∈ l → t1 st = t2 st) → sends_of t1 l = sends_of t2 l.
Proof.
  intros H. unfold sends_of.
  assert (∀ l' : list Z, (∀ st, st ∈ l' → t1 st = t2 st) →
    (λ st, (st, t1 st)) <$> filter (λ st, t1 st ≠ "") l'
    = (λ st, (st, t2 st)) <$> filter (λ st, t2 st ≠ "") l') as Hl.
  { intros l'. induction l' as [|x l' IH]; intros Hx; [done|].
    specialize (IH ltac:(intros; apply Hx; by right)).
    pose proof (Hx x ltac:(by left)) as E. rewrite !filter_cons.
    destruct (decide (t1 x ≠ "")); [rewrite decide_True by (by rewrite <-E)|rewrite decide_False by (by rewrite <-E)].
    - by rewrite !fmap_cons, IH, E.
    - done. }
  apply Hl. intros st Hst. apply H. by apply elem_of_first_seen.
Qed.

Lemma sends_of_cons text x l :
  sends_of text (x :: l)
  = (if String.eqb (text x) "" then [] else [(x, text x)])
    ++ sends_of (λ st, if st =? x then "" else text st) l.
Proof.
  unfold sends_of. simpl. rewrite filter_cons.
  assert (filter (λ st, text st ≠ "") (filter (λ y, y ≠ x) (first_seen l))
    = filter (λ st, (if st =? x then "" else text st) ≠ "") (first_seen l)) as E.
  { induction (first_seen l) as [|y l' IH]; [done|]. rewrite !(filter_cons _ y).
    destruct (y =? x) eqn:Ey; [apply Z.eqb_eq in Ey|apply Z.eqb_neq in Ey].
    - rewrite decide_False by naive_solver. rewrite (decide_False (P := _ ≠ _)) by naive_solver. done.
    - rewrite decide_True by done. rewrite filter_cons.
      destruct (decide (text y ≠ "")); by rewrite IH. }
  assert (∀ l' : list Z, Forall (λ y, (if y =? x then "" else text y) ≠ "") l' →
    (λ st, (st, text st)) <$> l' = (λ st, (st, if st =? x then "" else text st)) <$> l') as E2.
  { intros l' H. induction H as [|y l' Hy _ IH]; [done|]. rewrite !fmap_cons, IH.
    by destruct (y =? x). }
  destruct (String.eqb (text x) "") eqn:Ex.
  - apply String.eqb_eq in Ex. rewrite decide_False by naive_solver. simpl. rewrite E.
    apply E2, list.Forall_forall. intros y. rewrite list_elem_of_filter. by intros [? _].
  - apply String.eqb_neq in Ex. rewrite decide_True by done. simpl. rewrite E. f_equal.
    apply E2, list.Forall_forall. intros y. rewrite list_elem_of_filter. by intros [? _].
Qed.

Lemma flush_loop_spec heap l f :
  (∀ i x, l !! i = Some x → array heap (sl_arr (fr_order f)) !! (fr_pos f + i)%nat = Some x) →
  (∀ st, st ∈ l → buffered_type st = true) →
  flush_loop (length l) heap f = sends_of (λ st, frame_text st f) l.
Proof.
  revert f. induction l as [|x l IH]; intros f Hl Hb; [done|].
  simpl length. simpl flush_loop. unfold flush_next.
  pose proof (Hl 0%nat x eq_refl) as H0. rewrite Nat.add_0_r in H0. rewrite H0. simpl.
  rewrite IH; simpl.
  - rewrite sends_of_cons. f_equal. apply sends_of_ext. intros st _.
    apply frame_text_taken. apply Hb. by left.
  - intros i y Hy. rewrite <-Nat.add_succ_r. apply Hl. done.
  - intros st Hst. apply Hb. by right.
Qed.

(** With nobody at the buffer meanwhile, Flush sends each stream that has
    text exactly once, whole, in the order the streams first appeared, and
    leaves the buffer empty. *)
Lemma flush_spec b :
  buffer_inv b →
  (Flush b).2 = sends_of (λ st, text_of st b) (order_list b) ∧
  NoDup (Flush b).2.*1 ∧
  (∀ st t, (st, t) ∈ (Flush b).2 ↔ t = text_of st b ∧ t ≠ "") ∧
  buffer_inv (Flush b).1 ∧ HasContent (Flush b).1 = false ∧ TotalLen (Flush b).1 = 0.
Proof.
  intros (I1 & I2 & I3 & I4).
  assert ((Flush b).2 = sends_of (λ st, text_of st b) (order_list b)) as E.
  { unfold Flush, flush_begin. simpl.
    assert (length (order_list b) = sl_len (ob_order b)) as <-
      by (unfold order_list; rewrite length_take; lia).
    rewrite flush_loop_spec; [done| |exact I3]. simpl.
    intros i x Hi. unfold order_list in Hi. by apply lookup_take_Some in Hi as [? _]. }
  rewrite E. split_and!; try done.
  - unfold sends_of. rewrite <-list_fmap_compose.
    assert (∀ l : list Z, fst ∘ (λ st, (st, text_of st b)) <$> l = l) as ->
      by (intros l; induction l as [|? ? IHl]; [done|]; rewrite fmap_cons, IHl; done).
    apply list.NoDup_filter, NoDup_first_seen.
  - intros st t. unfold sends_of. rewrite list_elem_of_fmap. split.
    + intros (st' & [= -> ->] & Hin). apply list_elem_of_filter in Hin as [? _]. done.
    + intros [-> Ht]. exists st. split; [done|]. apply list_elem_of_filter. split; [done|].
      by apply elem_of_first_seen, I4.
  - split_and!; simpl; [done|lia| |].
    + intros st H. by apply elem_of_nil in H.
    + intros st H. exfalso. apply H. unfold text_of. by repeat case_match.
Qed.

(** ** Any sequence of appends and flushes *)

Inductive buf_op := OpAppend (streamType : Z) (text : string) | OpFlush.

Fixpoint run_ops (grow : nat → nat) (ops : list buf_op) (b : OutputBuffer)
    : OutputBuffer * list (Z * string) :=
  match ops with
  | [] => (b, [])
  | OpAppend st t :: ops' => run_ops grow ops' (Append grow st t b)
  | OpFlush :: ops' =>
      let '(b1, sends) := Flush b in
      let '(b2, sends') := run_ops grow ops' b1 in (b2, sends ++ sends')
  end.

(** The texts of one stream among tagged texts, joined. *)
Fixpoint joined (st : Z) (l : list (Z * string)) : string :=
  match l with
  | [] => ""
  | (st', t) :: l' => (if st' =? st then t else "") +:+ joined st l'
  end.

Definition appended (ops : list buf_op) : list (Z * string) :=
  omap (λ o, match o with
    | OpAppend st t => if buffered_type st then Some (st, t) else None
    | OpFlush => None end) ops.

Lemma joined_app st l1 l2 : joined st (l1 ++ l2) = joined st l1 +:+ joined st l2.
Proof.
  induction l1 as [|[st' t] l1 IH]; [done|]. simpl. by rewrite IH, str_append_assoc.
Qed.

Lemma joined_none st l : (∀ t, (st, t) ∉ l) → joined st l = "".
Proof.
  induction l as [|[st' t] l IH]; intros H; [done|]. simpl.
  rewrite IH by (intros t' Ht; apply (H t'); by right).
  destruct (st' =? st) eqn:E; [|done]. apply Z.eqb_eq in E. subst. exfalso. apply (H t). by left.
Qed.

Lemma joined_one st t l : NoDup l.*1 → (st, t) ∈ l → joined st l = t.
Proof.
  induction l as [|[st' t'] l IH]; intros Hnd Hin; [by apply elem_of_nil in Hin|].
  rewrite fmap_cons in Hnd. apply NoDup_cons in Hnd as [Hn Hnd]. simpl in *.
  apply elem_of_cons in Hin as [[= <- <-]|Hin].
  - rewrite Z.eqb_refl, joined_none, str_app_nil; [done|]. intros t' Ht. apply Hn.
    apply list_elem_of_fmap. by exists (st, t').
  - destruct (st' =? st) eqn:E; [|by rewrite IH].
    apply Z.eqb_eq in E. subst. exfalso. apply Hn. apply list_elem_of_fmap. by exists (st, t).
Qed.

Lemma flush_joined st b :
  buffer_inv b → joined st (Flush b).2 = text_of st b.
Proof.
  intros Hi. destruct (flush_spec b Hi) as (_ & Hnd & Hin & _).
  destruct (decide (text_of st b = "")) as [E|E].
  - rewrite E. apply joined_none. intros t Ht. apply Hin in Ht as [-> Ht]. done.
  - apply joined_one; [done|]. by apply Hin.
Qed.

Lemma run_flush grow ops b :
  run_ops grow (OpFlush :: ops) b
  = let '(b2, sends') := run_ops grow ops (Flush b).1 in (b2, (Flush b).2 ++ sends').
Proof. simpl. by destruct (Flush b). Qed.

Lemma no_content b st : HasContent b = false → text_of st b = "".
Proof.
  unfold HasContent. rewrite !orb_false_iff, !negb_false_iff, !String.eqb_eq.
  intros [[H1 H2] H3]. unfold text_of. by repeat case_match.
Qed.

(** No text is lost, duplicated or moved to another stream by any sequence
    of appends and undisturbed flushes: for each stream, what was sent followed
    by what is still buffered is what was appended. *)
Theorem buffer_conserves_text grow ops b :
  buffer_inv b →
  let '(b', sends) := run_ops grow ops b in
  buffer_inv b' ∧
  ∀ st, joined st sends +:+ text_of st b' = text_of st b +:+ joined st (appended ops).
Proof.
  revert b. induction ops as [|[st t|] ops IH]; intros b Hi.
  - split; [done|]. intros st. simpl. by rewrite str_app_nil.
  - destruct (Append_spec grow st t b Hi) as [Hi' Ht]. specialize (IH _ Hi').
    change (run_ops grow (OpAppend st t :: ops) b) with (run_ops grow ops (Append grow st t b)).
    destruct (run_ops grow ops _) as [b' sends]. destruct IH as [IH1 IH2]. split; [done|].
    intros st'. rewrite IH2, Ht. simpl. destruct (buffered_type st) eqn:Eb; simpl; [|done].
    rewrite (Z.eqb_sym st st'). destruct (st' =? st); [by rewrite str_append_assoc|done].
  - destruct (flush_spec b Hi) as (_ & _ & _ & Hi' & Hc & _).
    rewrite run_flush. specialize (IH _ Hi').
    destruct (run_ops grow ops (Flush b).1) as [b2 sends']. destruct IH as [IH1 IH2].
    split; [done|]. intros st.
    rewrite joined_app, str_append_assoc, IH2, (flush_joined st b Hi), (no_content _ st Hc). done.
Qed.

(** ** A flush and an append that interleave *)

(** An append that runs between a flush's critical section and its loop
    overwrites the order the loop reads, since both slices share one array.  With
    one stream pending, the flush then sends nothing, and the pending text is
    neither sent nor in the buffer any more. *)
Theorem racing_append_loses_output grow b frames sent st st' t' :
  buffer_inv b → order_list b = [st] → st' ≠ st → buffered_type st' = true →
  let s := acts grow [AFlush; AAppend st' t'; ANext (length frames)] (MkSystem b frames sent) in
  sy_sent s = sent ∧ text_of st (sy_buf s) = "" ∧
  ∃ f, sy_frames s = frames ++ [f] ∧ fr_pos f = sl_len (fr_order f) ∧ frame_text st f = text_of st b.
Proof.
  intros (I1 & I2 & I3 & I4) Ho Hne Hb'.
  assert (text_of st' b = "") as Ht'.
  { destruct (decide (text_of st' b = "")) as [|E]; [done|]. apply I4 in E. rewrite Ho in E.
    by apply list_elem_of_singleton in E. }
  assert (sl_len (ob_order b) = 1%nat) as Hlen.
  { apply (f_equal length) in Ho. unfold order_list in Ho. rewrite length_take in Ho. simpl in Ho. lia. }
  set (arr := array (ob_heap b) (sl_arr (ob_order b))) in *.
  set (heap' := <[sl_arr (ob_order b) := <[0%nat := st']> arr]> (ob_heap b)).
  set (b0 := (flush_begin b).2).
  assert (push_order grow st' b0 = MkBuffer heap' "" "" "" (MkSlice (sl_arr (ob_order b)) 1)) as Hp.
  { unfold push_order, slice_append, b0. simpl. fold arr.
    by assert ((0 <? length arr)%nat = true) as -> by (apply Nat.ltb_lt; lia). }
  assert (text_of st' b0 = "") as H0 by (unfold text_of; by repeat case_match).
  assert (Append grow st' t' b0 = set_text st' t' (MkBuffer heap' "" "" "" (MkSlice (sl_arr (ob_order b)) 1))) as Ha.
  { unfold Append. rewrite Hb', H0. simpl. rewrite Hp.
    assert (text_of st' (MkBuffer heap' "" "" "" (MkSlice (sl_arr (ob_order b)) 1)) = "") as ->
      by (unfold text_of; by repeat case_match). done. }
  simpl. rewrite lookup_app_r, Nat.sub_diag by lia. simpl. rewrite Hlen. simpl. fold b0.
  change (MkBuffer (ob_heap b) "" "" "" (MkSlice (sl_arr (ob_order b)) 0)) with b0. rewrite Ha.
  unfold flush_next. rewrite (proj2 (set_text_order _ _ _)). simpl.
  assert (array heap' (sl_arr (ob_order b)) !! 0%nat = Some st') as ->.
  { unfold array, heap'. rewrite list_lookup_insert_eq by done. simpl.
    apply list_lookup_insert_eq. lia. }
  simpl. change (frame_text st' (flush_begin b).1) with (text_of st' b).
  assert (frame_text st' (MkFrame (ob_stdout b) (ob_system b) (ob_assistant b) (ob_order b) 0) = "") as ->
    by exact Ht'.
  simpl. rewrite app_nil_r. split_and!; [done| |].
  - rewrite text_of_set by done. assert ((st =? st') = false) as -> by (apply Z.eqb_neq; congruence).
    unfold text_of. by repeat case_match.
  - eexists. split; [by rewrite insert_app_r_alt, Nat.sub_diag by lia|]. split; [done|].
    rewrite frame_text_taken by done. by assert ((st =? st') = false) as -> by (apply Z.eqb_neq; congruence).
Qed.

Module BufferDemo.
Definition grow (n : nat) : nat := (2 * n)%nat.
Definition O := CommandOutput_STDOUT.
Definition Y := CommandOutput_SYSTEM.
Definition A := CommandOutput_ASSISTANT.

Definition pending : OutputBuffer := Append grow O "hello" new_buffer.

Lemma pending_inv : buffer_inv pending.
Proof. apply (Append_spec grow O "hello" new_buffer new_buffer_inv). Qed.

Lemma buffer_conserves_text_witness :
  let ops := [OpAppend A "think"; OpAppend O "a"; OpAppend A "ing"; OpFlush; OpAppend O "b"] in
  run_ops grow ops new_buffer
    = (MkBuffer [[]; [A]; [O; O]] "b" "" "" (MkSlice 2 1), [(A, "thinking"); (O, "a")]) ∧
  ∀ st, joined st (run_ops grow ops new_buffer).2 +:+ text_of st (run_ops grow ops new_buffer).1
    = joined st (appended ops).
Proof.
  split; [vm_compute; reflexivity|]. intros st.
  pose proof (buffer_conserves_text grow [OpAppend A "think"; OpAppend O "a"; OpAppend A "ing"; OpFlush; OpAppend O "b"]
    new_buffer new_buffer_inv) as H.
  destruct (run_ops grow _ new_buffer) as [b' sends]. destruct H as [_ H].
  rewrite H. unfold text_of. by repeat case_match.
Defined.

Lemma racing_append_loses_output_witness :
  let s := acts grow [AFlush; AAppend Y "note"; ANext 0; AFlush; ANext 1] (MkSystem pending [] []) in
  sy_sent s = [(Y, "note")] ∧
  (Flush pending).2 = [(O, "hello")] ∧
  sy_sent (acts grow [AFlush; AAppend Y "note"; ANext 0] (MkSystem pending [] [])) = [].
Proof.
  split; [vm_compute; reflexivity|]. split; [vm_compute; reflexivity|].
  apply (racing_append_loses_output grow pending [] [] O Y "note" pending_inv).
  - vm_compute. reflexivity.
  - discriminate.
  - reflexivity.
Defined.
End BufferDemo.
