(* ===== verification/Executor.v ===== *)
(** The data an executor hands to the turn loop
    ([backend/agent/executor/common.go], [runtime.go], [state.go]) and the ACP
    executor's producers: capped output, capped events, and the tool calls whose
    start is emitted once ([backend/agent/executor/acp_executor.go]).

    Each producer call is one step.  A send on a channel of the executor is a
    [select] with its context; the argument [taken] says which side won. *)

From Stdlib Require Import Ascii.
From stdpp Require Import base strings numbers gmap sorting list.
From S2P Require Import Prelude Strings Wire.
Import Strings.
Local Open Scope Z_scope.

Record OutputChunk := MkChunk {
  oc_stream_type : Z;
  oc_content : string;
  oc_seq_no : Z;
  oc_timestamp : option Z
}.

(** [executor.Event]; the payload pointers it can carry are one optional
    field each. *)
Record Event := MkEventX {
  ev_seq_no : Z;
  ev_type : Z;
  ev_summary : string;
  ev_text : string;
  ev_stream_type : Z;
  ev_lifecycle : option (string * string);
  ev_text_delta : option (string * string);
  ev_tool_call_started : option (string * string * string);
  ev_tool_call_finished : option (string * string * string);
  ev_diff_emitted : option (string * string * string);
  ev_warning : option string;
  ev_raw_acp : option string;
  ev_final_summary : option (string * string);
  ev_context_compaction : option (string * bool);
  ev_context_usage : option (Z * Z);
  ev_token_usage : option (Z * Z * Z * Z * Z)
}.

(** [Event{Type: typ, Summary: summary}] *)
Definition bare_event (typ : Z) (summary : string) : Event :=
  MkEventX 0 typ summary "" 0 None None None None None None None None None None None.

Definition with_seq (n : Z) (e : Event) : Event :=
  MkEventX n (ev_type e) (ev_summary e) (ev_text e) (ev_stream_type e) (ev_lifecycle e)
    (ev_text_delta e) (ev_tool_call_started e) (ev_tool_call_finished e) (ev_diff_emitted e)
    (ev_warning e) (ev_raw_acp e) (ev_final_summary e) (ev_context_compaction e)
    (ev_context_usage e) (ev_token_usage e).

Record Result := MkResultX {
  rs_exit_code : Z;
  rs_duration_ms : Z;
  rs_error_message : string;
  rs_last_seq_no : Z;
  rs_final_summary : string;
  rs_result : option string;
  rs_resumed : bool;
  rs_fingerprint : string;
  rs_resume_failures : Z
}.

Record LocalState := MkLocal {
  ls_command_id : string;
  ls_executor_kind : string;
  ls_status : string;
  ls_started_at : Z;
  ls_last_seq_sent : Z;
  ls_last_event_seq_sent : Z
}.

#[export] Instance OutputChunk_eq_dec : EqDecision OutputChunk.
Proof. solve_decision. Defined.
#[export] Instance Event_eq_dec : EqDecision Event.
Proof. solve_decision. Defined.
#[export] Instance Result_eq_dec : EqDecision Result.
Proof. solve_decision. Defined.
#[export] Instance LocalState_eq_dec : EqDecision LocalState.
Proof. solve_decision. Defined.

(** ** Capped producers *)

Record Limits := MkLimits { MaxEventCount : Z; MaxOutputBytes : Z }.

Record toolCallState := MkTool { tc_title : string; tc_started : bool }.

Record exec := MkExec {
  ex_seqNo : Z;
  ex_outputBytes : Z;
  ex_outputLimited : bool;
  ex_eventCount : Z;
  ex_eventLimitHit : bool;
  ex_outputCh : list OutputChunk;
  ex_eventCh : list Event;
  ex_tools : gmap string toolCallState
}.

Definition new_exec : exec := MkExec 0 0 false 0 false [] [] ∅.

Definition output_notice : string := "ACP output limit reached; dropping further text output".
Definition event_notice : string := "ACP event limit reached; dropping further structured events".

Definition set_output (bytes : Z) (limited : bool) (e : exec) : exec :=
  MkExec (ex_seqNo e) bytes limited (ex_eventCount e) (ex_eventLimitHit e)
    (ex_outputCh e) (ex_eventCh e) (ex_tools e).
Definition set_events (count : Z) (hit : bool) (e : exec) : exec :=
  MkExec (ex_seqNo e) (ex_outputBytes e) (ex_outputLimited e) count hit
    (ex_outputCh e) (ex_eventCh e) (ex_tools e).
Definition set_seq (n : Z) (e : exec) : exec :=
  MkExec n (ex_outputBytes e) (ex_outputLimited e) (ex_eventCount e) (ex_eventLimitHit e)
    (ex_outputCh e) (ex_eventCh e) (ex_tools e).
Definition set_channels (out : list OutputChunk) (evs : list Event) (e : exec) : exec :=
  MkExec (ex_seqNo e) (ex_outputBytes e) (ex_outputLimited e) (ex_eventCount e) (ex_eventLimitHit e)
    out evs (ex_tools e).
Definition set_tools (tools : gmap string toolCallState) (e : exec) : exec :=
  MkExec (ex_seqNo e) (ex_outputBytes e) (ex_outputLimited e) (ex_eventCount e) (ex_eventLimitHit e)
    (ex_outputCh e) (ex_eventCh e) tools.

Definition nextSeq (e : exec) : exec * Z :=
  let n := i32 (ex_seqNo e + 1) in (set_seq n e, n).

Section producers.
Context (cfg : Limits).

(** limitOutput; [None] is [("", false)]. *)
Definition limitOutput (content : string) (e : exec) : exec * option string :=
  if MaxOutputBytes cfg <=? 0 then (e, Some content) else
  let remaining := MaxOutputBytes cfg - ex_outputBytes e in
  if remaining <=? 0 then
    if ex_outputLimited e then (e, None)
    else (set_output (ex_outputBytes e) true e, Some output_notice)
  else
  let n := Z.of_nat (String.length content) in
  if n <=? remaining then (set_output (ex_outputBytes e + n) (ex_outputLimited e) e, Some content)
  else (set_output (MaxOutputBytes cfg) true e,
        Some (String.substring 0 (Z.to_nat remaining) content)).

Definition sendOutput (now : Z) (taken : bool) (streamType : Z) (content : string) (e : exec) : exec :=
  let trimmed := TrimSpace content in
  if String.eqb trimmed "" then e else
  match limitOutput trimmed e with
  | (e1, None) => e1
  | (e1, Some allowed) =>
      let '(e2, n) := nextSeq e1 in
      if taken
      then set_channels (ex_outputCh e2 ++ [MkChunk streamType allowed n (Some now)]) (ex_eventCh e2) e2
      else e2
  end.

Definition allowEvent (now : Z) (taken : bool) (e : exec) : exec * bool :=
  if MaxEventCount cfg <=? 0 then (e, true) else
  let count := i32 (ex_eventCount e + 1) in
  let e1 := set_events count (ex_eventLimitHit e) e in
  if count <=? MaxEventCount cfg then (e1, true) else
  if ex_eventLimitHit e1 then (e1, false)
  else (sendOutput now taken CommandOutput_SYSTEM event_notice (set_events count true e1), false).

Definition sendEvent (now : Z) (taken : bool) (event : Event) (e : exec) : exec :=
  match allowEvent now taken e with
  | (e1, false) => e1
  | (e1, true) =>
      let '(e2, n) := nextSeq e1 in
      if taken then set_channels (ex_outputCh e2) (ex_eventCh e2 ++ [with_seq n event]) e2 else e2
  end.

(** A turn's producer calls. *)
Inductive produce :=
| ProduceOutput (now : Z) (taken : bool) (streamType : Z) (content : string)
| ProduceEvent (now : Z) (taken : bool) (event : Event).

Definition run_produce (p : produce) (e : exec) : exec :=
  match p with
  | ProduceOutput now taken st content => sendOutput now taken st content e
  | ProduceEvent now taken event => sendEvent now taken event e
  end.

Definition run_produces (l : list produce) (e : exec) : exec := foldl (λ e p, run_produce p e) e l.
End producers.

(** ** Tool calls *)

Definition recordToolCallTitle (id title : string) (e : exec) : exec :=
  if String.eqb id "" then e else
  let st := default (MkTool "" false) (ex_tools e !! id) in
  let st' := if String.eqb title "" then st else MkTool title (tc_started st) in
  set_tools (<[id := st']> (ex_tools e)) e.

Definition beginToolCallStarted (id : string) (e : exec) : exec * (string * bool) :=
  if String.eqb id "" then (e, ("", false)) else
  let st := default (MkTool "" false) (ex_tools e !! id) in
  if tc_started st then (set_tools (<[id := st]> (ex_tools e)) e, (tc_title st, false))
  else (set_tools (<[id := MkTool (tc_title st) true]> (ex_tools e)) e, (tc_title st, true)).

Inductive tool_op := TTitle (id title : string) | TBegin (id : string).

(** The answers of the TBegin steps, in order. *)
Fixpoint run_tools (ops : list tool_op) (e : exec) : exec * list (string * (string * bool)) :=
  match ops with
  | [] => (e, [])
  | TTitle id title :: ops' => run_tools ops' (recordToolCallTitle id title e)
  | TBegin id :: ops' =>
      let '(e1, r) := beginToolCallStarted id e in
      let '(e2, rs) := run_tools ops' e1 in (e2, (id, r) :: rs)
  end.

(** ** Lemmas *)

Definition bytes_sent (l : list OutputChunk) : Z :=
  foldr (λ c n, Z.of_nat (String.length (oc_content c)) + n) 0 l.

Lemma bytes_sent_app l1 l2 : bytes_sent (l1 ++ l2) = bytes_sent l1 + bytes_sent l2.
Proof. induction l1 as [|c l1 IH]; simpl; [done|]. rewrite IH. lia. Qed.

Lemma length_substring n s : (String.length (String.substring 0 n s) ≤ n)%nat.
Proof. revert s. induction n as [|n IH]; intros [|c s]; simpl; try lia. specialize (IH s). lia. Qed.

Definition notice_bytes : Z := Z.of_nat (String.length output_notice).

(** What holds of an executor with a positive output cap after any calls. *)
Definition capped (cfg : Limits) (e : exec) : Prop :=
  0 ≤ ex_outputBytes e ≤ MaxOutputBytes cfg ∧
  (ex_outputLimited e = false → bytes_sent (ex_outputCh e) ≤ ex_outputBytes e) ∧
  bytes_sent (ex_outputCh e) ≤ ex_outputBytes e + notice_bytes ∧
  (ex_outputLimited e = true → ex_outputBytes e = MaxOutputBytes cfg) ∧
  StronglySorted Z.lt (oc_seq_no <$> ex_outputCh e) ∧
  Forall (λ c, 0 < oc_seq_no c ≤ ex_seqNo e) (ex_outputCh e) ∧ 0 ≤ ex_seqNo e.

Lemma limitOutput_capped cfg content e e' r :
  capped cfg e → limitOutput cfg content e = (e', r) →
  0 < MaxOutputBytes cfg →
  ex_seqNo e' = ex_seqNo e ∧ ex_outputCh e' = ex_outputCh e ∧
  0 ≤ ex_outputBytes e' ≤ MaxOutputBytes cfg ∧ ex_outputBytes e ≤ ex_outputBytes e' ∧
  (ex_outputLimited e' = true → ex_outputBytes e' = MaxOutputBytes cfg) ∧
  (ex_outputLimited e' = false → ex_outputLimited e = false) ∧
  match r with
  | None => True
  | Some s =>
      (ex_outputLimited e' = false → bytes_sent (ex_outputCh e) + Z.of_nat (String.length s) ≤ ex_outputBytes e') ∧
      bytes_sent (ex_outputCh e) + Z.of_nat (String.length s) ≤ ex_outputBytes e' + notice_bytes
  end.
Proof.
  intros (C1 & C2 & C3 & C4 & C5 & C6) H Hmax. unfold limitOutput in H.
  assert ((MaxOutputBytes cfg <=? 0) = false) as E0 by (apply Z.leb_gt; lia). rewrite E0 in H.
  assert (0 ≤ notice_bytes) as Hn by (unfold notice_bytes; lia).
  destruct (MaxOutputBytes cfg - ex_outputBytes e <=? 0) eqn:Er;
    [apply Z.leb_le in Er|apply Z.leb_gt in Er].
  - destruct (ex_outputLimited e) eqn:El; injection H as <- <-; simpl.
    + split_and!; try done; try lia. congruence.
    + specialize (C2 eq_refl). unfold notice_bytes in *.
      change (String.length output_notice) with 54%nat in *. split_and!; try done; try lia.
  - destruct (ex_outputLimited e) eqn:El; [specialize (C4 eq_refl); lia|]. specialize (C2 eq_refl).
    destruct (Z.of_nat (String.length content) <=? _) eqn:Ec;
      [apply Z.leb_le in Ec|apply Z.leb_gt in Ec]; injection H as <- <-; simpl.
    + split_and!; try done; try lia.
    + pose proof (length_substring (Z.to_nat (MaxOutputBytes cfg - ex_outputBytes e)) content).
      split_and!; try done; try lia.
Qed.

Lemma StronglySorted_snoc (l : list Z) x :
  StronglySorted Z.lt l → Forall (λ y, y < x) l → StronglySorted Z.lt (l ++ [x]).
Proof.
  induction 1 as [|y l Hl IH Hy]; intros Hx; simpl; [repeat constructor|].
  apply Forall_cons in Hx as [H1 H2]. constructor; [by apply IH|].
  apply Forall_app. split; [done|]. by constructor.
Qed.

Lemma sendOutput_capped cfg now taken st content e :
  0 < MaxOutputBytes cfg → capped cfg e → ex_seqNo e < max_int32 →
  capped cfg (sendOutput cfg now taken st content e) ∧
  ex_seqNo e ≤ ex_seqNo (sendOutput cfg now taken st content e) ≤ ex_seqNo e + 1.
Proof.
  intros Hmax Hc Hs. unfold sendOutput. destruct (String.eqb _ ""); [split; [done|lia]|].
  destruct (limitOutput cfg _ e) as [e1 r] eqn:El.
  destruct (limitOutput_capped _ _ _ _ _ Hc El Hmax) as (L1 & L2 & L3 & L4 & L5 & L6 & L8).
  pose proof Hc as (C1 & C2 & C3 & C4 & C5 & C6 & C7).
  destruct r as [allowed|].
  2:{ split; [|lia]. unfold capped. rewrite L1, L2. split_and!; try done; try lia.
      intros E. specialize (C2 (L6 E)). lia. }
  destruct L8 as [L8 L9]. unfold nextSeq.
  assert (i32 (ex_seqNo e1 + 1) = ex_seqNo e + 1) as En.
  { rewrite L1. apply i32_small. unfold in_i32, max_int32 in *. lia. }
  rewrite En. destruct taken; (split; [|simpl; lia]); unfold capped; simpl; rewrite ?L2.
  - rewrite fmap_app, bytes_sent_app. simpl. rewrite Z.add_0_r. split_and!; try done; try lia.
    + apply StronglySorted_snoc; [done|]. rewrite Forall_fmap. eapply Forall_impl; [exact C6|].
      simpl. lia.
    + apply Forall_app. split; [|repeat constructor; simpl; lia].
      eapply Forall_impl; [exact C6|]. simpl. lia.
  - split_and!; try done; try lia.
    + intros E. specialize (C2 (L6 E)). lia.
    + eapply Forall_impl; [exact C6|]. simpl. lia.
Qed.

Lemma set_events_capped cfg n h e : capped cfg e → capped cfg (set_events n h e).
Proof. done. Qed.

Lemma run_produce_capped cfg p e :
  0 < MaxOutputBytes cfg → capped cfg e → ex_seqNo e < max_int32 →
  capped cfg (run_produce cfg p e) ∧ ex_seqNo e ≤ ex_seqNo (run_produce cfg p e) ≤ ex_seqNo e + 1.
Proof.
  intros Hmax Hc Hs. destruct p as [now taken st content|now taken event]; [by apply sendOutput_capped|].
  simpl. unfold sendEvent.
  assert (∀ e1, capped cfg e1 → ex_seqNo e1 = ex_seqNo e →
    let e' := (let '(e2, n) := nextSeq e1 in
      if taken then set_channels (ex_outputCh e2) (ex_eventCh e2 ++ [with_seq n event]) e2 else e2) in
    capped cfg e' ∧ ex_seqNo e ≤ ex_seqNo e' ≤ ex_seqNo e + 1) as Hev.
  { intros e1 (C1 & C2 & C3 & C4 & C5 & C6 & C7) E1. unfold nextSeq.
    rewrite (i32_small (ex_seqNo e1 + 1)) by (unfold in_i32, max_int32 in *; lia).
    destruct taken; (split; [|simpl; lia]); unfold capped; simpl; (split_and!; try done; try lia);
      (eapply Forall_impl; [exact C6|]; simpl; lia). }
  unfold allowEvent. destruct (MaxEventCount cfg <=? 0); [by apply Hev|]. cbv zeta.
  destruct (_ <=? MaxEventCount cfg); [by apply Hev|].
  destruct (ex_eventLimitHit _); [split; [done|simpl; lia]|].
  by apply (sendOutput_capped cfg now taken CommandOutput_SYSTEM event_notice (set_events _ true e)).
Qed.

Lemma capped_new cfg : 0 < MaxOutputBytes cfg → capped cfg new_exec.
Proof. intros. unfold capped. simpl. unfold notice_bytes. split_and!; try done; try lia; constructor. Qed.

Lemma run_produces_capped cfg l e :
  0 < MaxOutputBytes cfg → capped cfg e → ex_seqNo e + Z.of_nat (length l) ≤ max_int32 →
  capped cfg (run_produces cfg l e).
Proof.
  intros Hmax. revert e. induction l as [|p l IH]; intros e Hc Hs; [done|].
  simpl length in Hs. destruct (run_produce_capped cfg p e Hmax Hc ltac:(lia)) as [H1 H2].
  apply (IH _ H1). lia.
Qed.

(** ** Properties *)

(** Whatever a turn produces, its output channel carries at most the cap
    and one notice, with strictly increasing sequence numbers, and the counter
    of used bytes never passes the cap. *)
Theorem output_capped cfg l :
  0 < MaxOutputBytes cfg → Z.of_nat (length l) ≤ max_int32 →
  let e := run_produces cfg l new_exec in
  bytes_sent (ex_outputCh e) ≤ MaxOutputBytes cfg + notice_bytes ∧
  ex_outputBytes e ≤ MaxOutputBytes cfg ∧
  StronglySorted Z.lt (oc_seq_no <$> ex_outputCh e).
Proof.
  intros Hmax Hl. destruct (run_produces_capped cfg l new_exec Hmax (capped_new cfg Hmax) Hl)
    as (C1 & C2 & C3 & C4 & C5 & _). cbv zeta. split_and!; [lia|lia|done].
Qed.

(** A flush boundary loses the white space around it.  The buffer hands
    sendOutput the text as it was streamed, but sendOutput trims each piece, so a
    piece that ends in a blank and the piece after it arrive without it. *)
Theorem flush_boundary_drops_blank cfg now1 now2 st x y e :
  MaxOutputBytes cfg ≤ 0 → printable x = true → printable y = true →
  let e' := sendOutput cfg now2 true st y (sendOutput cfg now1 true st (x +:+ " ") e) in
  oc_content <$> ex_outputCh e' = (oc_content <$> ex_outputCh e) ++ [x; y].
Proof.
  intros Hc Hx Hy. apply Z.leb_le in Hc.
  assert (∀ now c c' e0, TrimSpace c = c' → c' ≠ "" →
    oc_content <$> ex_outputCh (sendOutput cfg now true st c e0)
    = (oc_content <$> ex_outputCh e0) ++ [c']) as Hs.
  { intros now c c' e0 Ht Hne. unfold sendOutput, limitOutput. rewrite Ht, Hc.
    apply String.eqb_neq in Hne as ->. simpl. by rewrite fmap_app. }
  cbv zeta. rewrite (Hs _ _ y), (Hs _ _ x), <-app_assoc; try done;
    eauto using TrimSpace_blank, TrimSpace_printable, printable_nonempty.
Qed.

Definition starts (id : string) (rs : list (string * (string * bool))) : list (string * (string * bool)) :=
  filter (λ r, r.1 = id ∧ r.2.2 = true) rs.

Definition begun (id : string) (e : exec) : bool :=
  match ex_tools e !! id with Some st => tc_started st | None => false end.

Lemma begin_spec id id' e e1 t ok :
  beginToolCallStarted id e = (e1, (t, ok)) →
  begun id' e1 = begun id' e || (bool_decide (id' = id) && negb (String.eqb id "")) ∧
  ok = negb (begun id e) && negb (String.eqb id "").
Proof.
  unfold beginToolCallStarted, begun. destruct (String.eqb id "") eqn:E.
  { intros [= <- <- <-]. by rewrite !andb_false_r, orb_false_r. }
  destruct (ex_tools e !! id) as [st|] eqn:El; simpl;
    [destruct (tc_started st) eqn:Es|]; intros [= <- <- <-]; simpl.
  all: destruct (decide (id' = id)) as [->|Hne];
    [rewrite lookup_insert_eq, bool_decide_true by done; rewrite ?El; simpl; rewrite ?Es, ?orb_true_r; done|].
  all: rewrite lookup_insert_ne by congruence; rewrite bool_decide_false by done; simpl; by rewrite orb_false_r.
Qed.

Lemma title_begun id title id' e : begun id' (recordToolCallTitle id title e) = begun id' e.
Proof.
  unfold recordToolCallTitle, begun. destruct (String.eqb id ""); [done|]. simpl.
  destruct (decide (id' = id)) as [->|Hne]; [|by rewrite lookup_insert_ne by congruence].
  rewrite lookup_insert_eq. destruct (ex_tools e !! id) as [st|]; simpl; by destruct (String.eqb title "").
Qed.

(** Over any sequence of titles and begins, the start of a tool call is
    claimed by exactly one begin of its id, if there is one, and by none once it
    was claimed; the empty id claims nothing. *)
Theorem tool_call_started_once ops id e :
  length (starts id (run_tools ops e).2)
  = (if negb (begun id e) && negb (String.eqb id "") && existsb (λ o, match o with
      | TBegin id' => String.eqb id' id | TTitle _ _ => false end) ops then 1%nat else 0%nat).
Proof.
  revert e. induction ops as [|[id' title|id'] ops IH]; intros e; simpl.
  - by rewrite andb_false_r.
  - by rewrite IH, title_begun.
  - destruct (beginToolCallStarted id' e) as [e1 [t ok]] eqn:Eb. specialize (IH e1).
    destruct (run_tools ops e1) as [e2 rs]. simpl in *.
    destruct (begin_spec _ id _ _ _ _ Eb) as [E1 E2]. rewrite E1 in IH.
    unfold starts in *. rewrite filter_cons. simpl. destruct (decide (id = id')) as [<-|Hne].
    + rewrite bool_decide_true in IH by done. rewrite String.eqb_refl. simpl in *.
      rewrite E2. destruct (String.eqb id "") eqn:En; simpl in *; rewrite ?andb_false_r, ?andb_true_r in *; simpl in *.
      * rewrite decide_False by naive_solver. by rewrite IH, ?andb_false_r.
      * rewrite orb_true_r in IH. simpl in IH. destruct (begun id e); simpl.
        -- rewrite decide_False by naive_solver. done.
        -- rewrite decide_True by done. simpl. by rewrite IH.
    + rewrite bool_decide_false, orb_false_r in IH by done.
      rewrite decide_False by naive_solver. rewrite IH.
      assert (String.eqb id' id = false) as -> by (apply String.eqb_neq; congruence). done.
Qed.

Module ExecutorDemo.
Definition cfg : Limits := MkLimits 1 8.
Definition calls : list produce :=
  [ ProduceOutput 10 true CommandOutput_STDOUT "  hello "; ProduceOutput 11 true CommandOutput_STDOUT "world";
    ProduceOutput 12 true CommandOutput_STDOUT "more"; ProduceEvent 13 true (bare_event CommandEventType_WARNING "w");
    ProduceEvent 14 true (bare_event CommandEventType_WARNING "x"); ProduceOutput 15 true CommandOutput_STDOUT "!" ].

Lemma output_capped_witness :
  (λ c, (oc_seq_no c, oc_content c)) <$> ex_outputCh (run_produces cfg calls new_exec)
    = [(1, "hello"); (2, "wor")] ∧
  bytes_sent (ex_outputCh (run_produces cfg calls new_exec)) ≤ 8 + notice_bytes ∧
  ex_outputBytes (run_produces cfg calls new_exec) ≤ 8 ∧
  StronglySorted Z.lt (oc_seq_no <$> ex_outputCh (run_produces cfg calls new_exec)).
Proof.
  split; [vm_compute; reflexivity|].
  apply (output_capped cfg calls); [reflexivity|vm_compute; discriminate].
Defined.

Lemma flush_boundary_drops_blank_witness :
  oc_content <$> ex_outputCh (sendOutput (MkLimits 0 0) 2 true 1 "world"
    (sendOutput (MkLimits 0 0) 1 true 1 "Hello " new_exec)) = ["Hello"; "world"].
Proof.
  apply (flush_boundary_drops_blank (MkLimits 0 0) 1 2 1 "Hello" "world" new_exec);
    [discriminate|vm_compute; reflexivity|vm_compute; reflexivity].
Defined.

(** The cap cuts bytes, not runes: a two-byte rune can lose its second byte. *)
Example cap_splits_a_rune :
  oc_content <$> ex_outputCh (sendOutput (MkLimits 0 2) 1 true 1 (str_of [97; 195; 169]) new_exec)
    = [str_of [97; 195]].
Proof. vm_compute. reflexivity. Qed.
End ExecutorDemo.
