(* ===== verification/Producer.v ===== *)
(** The producer side of an agent's outbox: the state of a command stream
    ([backend/agent/client/command_stream.go]) with its flags, channels and
    notices, the report sink and its envelopes ([command_outbox.go]), and the
    state files of a turn ([backend/agent/executor/state.go],
    [context_state.go]).

    What a turn reads from outside is indexed by the number of reads so far:
    [clock n] is the [n]-th reading of the clock less
    the time this goroutine slept before it ([st_slept]), [disk_ok n] tells whether the
    [n]-th file operation succeeds.  The sink, the uploader and everything behind
    them are the type class [TurnEnv]; the outbox and the uploader of this
    library are an instance of it ([Wired]). *)

From Stdlib Require Import Ascii.
From stdpp Require Import base strings numbers pretty list.
From S2P Require Import Prelude Strings Wire Executor.
From S2P Require Facade.
Local Open Scope Z_scope.

Abbreviation PromptReleaseNotice := Facade.PromptReleaseNotice.

(** ** context_state.go *)

Record ContextUsage := MkUsage { cu_size : Z; cu_used : Z; cu_updated_at : option Z }.
Record CompactionInfo := MkCompaction {
  ci_count : Z; ci_last_at : option Z; ci_last_start_at : option Z; ci_active : bool }.
Record SessionHealth := MkHealth { sh_turns : Z; sh_resume_failures : Z; sh_cold_starts : Z }.

Record ContextState := MkContext {
  cx_usage : ContextUsage;
  cx_compaction : CompactionInfo;
  cx_session : SessionHealth;
  cx_needs_reanchor : bool;
  cx_fingerprint : string;
  cx_owner : string;
  cx_prompt_version : string
}.

Definition zero_usage : ContextUsage := MkUsage 0 0 None.
Definition zero_health : SessionHealth := MkHealth 0 0 0.
Definition empty_context : ContextState :=
  MkContext zero_usage (MkCompaction 0 None None false) zero_health false "" "" "".

Definition with_usage (u : ContextUsage) (c : ContextState) : ContextState :=
  MkContext u (cx_compaction c) (cx_session c) (cx_needs_reanchor c) (cx_fingerprint c)
    (cx_owner c) (cx_prompt_version c).
Definition with_compaction (k : CompactionInfo) (c : ContextState) : ContextState :=
  MkContext (cx_usage c) k (cx_session c) (cx_needs_reanchor c) (cx_fingerprint c)
    (cx_owner c) (cx_prompt_version c).
Definition with_session (h : SessionHealth) (c : ContextState) : ContextState :=
  MkContext (cx_usage c) (cx_compaction c) h (cx_needs_reanchor c) (cx_fingerprint c)
    (cx_owner c) (cx_prompt_version c).
Definition with_reanchor (b : bool) (c : ContextState) : ContextState :=
  MkContext (cx_usage c) (cx_compaction c) (cx_session c) b (cx_fingerprint c)
    (cx_owner c) (cx_prompt_version c).
Definition with_fingerprint (f : string) (c : ContextState) : ContextState :=
  MkContext (cx_usage c) (cx_compaction c) (cx_session c) (cx_needs_reanchor c) f
    (cx_owner c) (cx_prompt_version c).
Definition with_owner (o : string) (c : ContextState) : ContextState :=
  MkContext (cx_usage c) (cx_compaction c) (cx_session c) (cx_needs_reanchor c) (cx_fingerprint c)
    o (cx_prompt_version c).
Definition with_prompt_version (v : string) (c : ContextState) : ContextState :=
  MkContext (cx_usage c) (cx_compaction c) (cx_session c) (cx_needs_reanchor c) (cx_fingerprint c)
    (cx_owner c) v.

Definition ResetForFingerprint (fingerprint : string) (c : ContextState) : ContextState :=
  MkContext zero_usage
    (MkCompaction (ci_count (cx_compaction c)) (ci_last_at (cx_compaction c)) None false)
    zero_health false fingerprint (cx_owner c) (cx_prompt_version c).

#[export] Instance ContextUsage_eq_dec : EqDecision ContextUsage.
Proof. solve_decision. Defined.
#[export] Instance CompactionInfo_eq_dec : EqDecision CompactionInfo.
Proof. solve_decision. Defined.
#[export] Instance SessionHealth_eq_dec : EqDecision SessionHealth.
Proof. solve_decision. Defined.
#[export] Instance ContextState_eq_dec : EqDecision ContextState.
Proof. solve_decision. Defined.

(** ** command_outbox.go: the envelopes *)

Definition stream_type_name (st : Z) : string :=
  if st =? 0 then "STREAM_TYPE_UNSPECIFIED"
  else if st =? CommandOutput_STDOUT then "STDOUT"
  else if st =? CommandOutput_STDERR then "STDERR"
  else if st =? CommandOutput_SYSTEM then "SYSTEM"
  else if st =? CommandOutput_ASSISTANT then "ASSISTANT"
  else pretty st.

Definition progressEnvelope (commandID : string) (chunk : OutputChunk) (timestamp : Z) : Entry :=
  MkEntry commandID UPLOAD_ENTRY_KIND_PROGRESS (oc_seq_no chunk) (Some timestamp)
    (Some (PProgress (MkProgress commandID (oc_stream_type chunk) (oc_content chunk)
      (oc_seq_no chunk) (Some timestamp)))).

(** The payload commandEventOf selects by type; a nil payload pointer is the
    empty message on the wire. *)
Definition event_payload (e : Event) : option EventPayload :=
  let t := ev_type e in
  if t =? CommandEventType_LIFECYCLE then
    Some (let '(k, p) := default ("", "") (ev_lifecycle e) in EvLifecycle k p)
  else if t =? CommandEventType_TEXT_DELTA then
    Some (let '(s, c) := default ("", "") (ev_text_delta e) in EvTextDelta s c)
  else if t =? CommandEventType_TOOL_CALL_STARTED then
    Some (let '(a, b, c) := default ("", "", "") (ev_tool_call_started e) in EvToolCallStarted a b c)
  else if t =? CommandEventType_TOOL_CALL_FINISHED then
    Some (let '(a, b, c) := default ("", "", "") (ev_tool_call_finished e) in EvToolCallFinished a b c)
  else if t =? CommandEventType_DIFF_EMITTED then
    Some (let '(a, b, c) := default ("", "", "") (ev_diff_emitted e) in EvDiffEmitted a b c)
  else if t =? CommandEventType_WARNING then Some (EvWarning (default "" (ev_warning e)))
  else if t =? CommandEventType_RAW_ACP then Some (EvRawAcp (default "" (ev_raw_acp e)))
  else if t =? CommandEventType_FINAL_SUMMARY then
    Some (let '(a, b) := default ("", "") (ev_final_summary e) in EvFinalSummary a b)
  else if (t =? CommandEventType_CONTEXT_COMPACTION_STARTED)
       || (t =? CommandEventType_CONTEXT_COMPACTION_FINISHED) then
    Some (let '(a, b) := default ("", false) (ev_context_compaction e) in EvContextCompaction a b)
  else if t =? CommandEventType_CONTEXT_USAGE_UPDATE then
    Some (let '(a, b) := default (0, 0) (ev_context_usage e) in EvContextUsage a b)
  else if t =? CommandEventType_TOKEN_USAGE then
    Some (let '(a, b, c, d, f) := default (0, 0, 0, 0, 0) (ev_token_usage e) in EvTokenUsage a b c d f)
  else None.

Definition commandEventOf (commandID : string) (e : Event) (now : Z) : CommandEvent :=
  MkEvent commandID (ev_seq_no e) (ev_type e) (ev_summary e) (Some now) (event_payload e).

Definition eventEnvelope (commandID : string) (e : Event) (now1 now2 : Z) : Entry :=
  MkEntry commandID UPLOAD_ENTRY_KIND_EVENT (ev_seq_no e) (Some now1)
    (Some (PEvent (commandEventOf commandID e now2))).

Definition resultEnvelope (result : CommandResult) : Entry :=
  MkEntry (cr_command_id result) UPLOAD_ENTRY_KIND_RESULT 1 None (Some (PResult result)).

(** ** The sink and the uploader, as the turn sees them *)

Class TurnEnv (K : Type) := {
  (** one append to the durable log *)
  append_record : Entry → K → K * res string unit;
  (** [Uploader.BypassUpload], or [false] without an uploader *)
  bypass_upload : Entry → K → K * bool;
  (** [Uploader.WaitClearFor], nil without an uploader *)
  wait_clear : string → K → K * res string unit
}.

Section stream.
Context {K : Type} {env : TurnEnv K} (clock : nat → Z) (disk_ok : nat → bool).

(** [commandStream], with the two state files of its agent.  [st_channels] are
    the turn-done channels made so far, [true] once closed; [st_acks] the
    notice acks sent, [st_cancels] the calls of [runtime.Cancel]; [st_out]
    and [st_bypassed] are the histories of the records the sink accepted and of
    those a bypass upload delivered. *)
Record stream := MkStream {
  st_env : K;
  st_ticks : nat;
  st_slept : Z;
  st_file : option LocalState;
  st_ctxfile : option ContextState;
  st_cancelled : bool;
  st_current : string;
  st_executor : bool;
  st_executing : bool;
  st_inflight : option nat;
  st_channels : list bool;
  st_cancelReason : string;
  st_notice : option PromptReleaseNotice;
  st_steered : string;
  st_wake : bool;
  st_acks : list PromptReleaseNotice;
  st_cancels : nat;
  st_out : list Entry;
  st_bypassed : list Entry
}.

Definition set_env (k : K) (c : stream) : stream :=
  MkStream k (st_ticks c) (st_slept c) (st_file c) (st_ctxfile c) (st_cancelled c)
    (st_current c) (st_executor c) (st_executing c) (st_inflight c) (st_channels c)
    (st_cancelReason c) (st_notice c) (st_steered c) (st_wake c) (st_acks c) (st_cancels c)
    (st_out c) (st_bypassed c).

Definition add_slept (d : Z) (c : stream) : stream :=
  MkStream (st_env c) (st_ticks c) (st_slept c + d) (st_file c) (st_ctxfile c) (st_cancelled c)
    (st_current c) (st_executor c) (st_executing c) (st_inflight c) (st_channels c)
    (st_cancelReason c) (st_notice c) (st_steered c) (st_wake c) (st_acks c) (st_cancels c)
    (st_out c) (st_bypassed c).

Definition tick_stream  (c : stream) : stream :=
  MkStream (st_env c) (S (st_ticks c)) (st_slept c) (st_file c) (st_ctxfile c) (st_cancelled c)
    (st_current c) (st_executor c) (st_executing c) (st_inflight c) (st_channels c)
    (st_cancelReason c) (st_notice c) (st_steered c) (st_wake c) (st_acks c) (st_cancels c)
    (st_out c) (st_bypassed c).

Definition set_file (f : option LocalState) (c : stream) : stream :=
  MkStream (st_env c) (st_ticks c) (st_slept c) f (st_ctxfile c) (st_cancelled c) (st_current c)
    (st_executor c) (st_executing c) (st_inflight c) (st_channels c) (st_cancelReason c)
    (st_notice c) (st_steered c) (st_wake c) (st_acks c) (st_cancels c) (st_out c)
    (st_bypassed c).

Definition set_ctxfile (f : option ContextState) (c : stream) : stream :=
  MkStream (st_env c) (st_ticks c) (st_slept c) (st_file c) f (st_cancelled c) (st_current c)
    (st_executor c) (st_executing c) (st_inflight c) (st_channels c) (st_cancelReason c)
    (st_notice c) (st_steered c) (st_wake c) (st_acks c) (st_cancels c) (st_out c)
    (st_bypassed c).

Definition set_cancelled  (c : stream) : stream :=
  MkStream (st_env c) (st_ticks c) (st_slept c) (st_file c) (st_ctxfile c) true (st_current c)
    (st_executor c) (st_executing c) (st_inflight c) (st_channels c) (st_cancelReason c)
    (st_notice c) (st_steered c) (st_wake c) (st_acks c) (st_cancels c) (st_out c)
    (st_bypassed c).

Definition set_current (id : string) (c : stream) : stream :=
  MkStream (st_env c) (st_ticks c) (st_slept c) (st_file c) (st_ctxfile c) (st_cancelled c) id
    (st_executor c) (st_executing c) (st_inflight c) (st_channels c) (st_cancelReason c)
    (st_notice c) (st_steered c) (st_wake c) (st_acks c) (st_cancels c) (st_out c)
    (st_bypassed c).

Definition set_executor (b : bool) (c : stream) : stream :=
  MkStream (st_env c) (st_ticks c) (st_slept c) (st_file c) (st_ctxfile c) (st_cancelled c)
    (st_current c) b (st_executing c) (st_inflight c) (st_channels c) (st_cancelReason c)
    (st_notice c) (st_steered c) (st_wake c) (st_acks c) (st_cancels c) (st_out c)
    (st_bypassed c).

Definition set_flight (b : bool) (d : option nat) (chs : list bool) (c : stream) : stream :=
  MkStream (st_env c) (st_ticks c) (st_slept c) (st_file c) (st_ctxfile c) (st_cancelled c)
    (st_current c) (st_executor c) b d chs (st_cancelReason c) (st_notice c) (st_steered c)
    (st_wake c) (st_acks c) (st_cancels c) (st_out c) (st_bypassed c).

Definition set_reason (r : string) (c : stream) : stream :=
  MkStream (st_env c) (st_ticks c) (st_slept c) (st_file c) (st_ctxfile c) (st_cancelled c)
    (st_current c) (st_executor c) (st_executing c) (st_inflight c) (st_channels c) r
    (st_notice c) (st_steered c) (st_wake c) (st_acks c) (st_cancels c) (st_out c)
    (st_bypassed c).

Definition set_notice (n : option PromptReleaseNotice) (c : stream) : stream :=
  MkStream (st_env c) (st_ticks c) (st_slept c) (st_file c) (st_ctxfile c) (st_cancelled c)
    (st_current c) (st_executor c) (st_executing c) (st_inflight c) (st_channels c)
    (st_cancelReason c) n (st_steered c) (st_wake c) (st_acks c) (st_cancels c) (st_out c)
    (st_bypassed c).

Definition set_steered (v : string) (c : stream) : stream :=
  MkStream (st_env c) (st_ticks c) (st_slept c) (st_file c) (st_ctxfile c) (st_cancelled c)
    (st_current c) (st_executor c) (st_executing c) (st_inflight c) (st_channels c)
    (st_cancelReason c) (st_notice c) v (st_wake c) (st_acks c) (st_cancels c) (st_out c)
    (st_bypassed c).

Definition set_wake (b : bool) (c : stream) : stream :=
  MkStream (st_env c) (st_ticks c) (st_slept c) (st_file c) (st_ctxfile c) (st_cancelled c)
    (st_current c) (st_executor c) (st_executing c) (st_inflight c) (st_channels c)
    (st_cancelReason c) (st_notice c) (st_steered c) b (st_acks c) (st_cancels c) (st_out c)
    (st_bypassed c).

Definition add_ack (n : PromptReleaseNotice) (c : stream) : stream :=
  MkStream (st_env c) (st_ticks c) (st_slept c) (st_file c) (st_ctxfile c) (st_cancelled c)
    (st_current c) (st_executor c) (st_executing c) (st_inflight c) (st_channels c)
    (st_cancelReason c) (st_notice c) (st_steered c) (st_wake c) (st_acks c ++ [n])
    (st_cancels c) (st_out c) (st_bypassed c).

Definition add_cancel  (c : stream) : stream :=
  MkStream (st_env c) (st_ticks c) (st_slept c) (st_file c) (st_ctxfile c) (st_cancelled c)
    (st_current c) (st_executor c) (st_executing c) (st_inflight c) (st_channels c)
    (st_cancelReason c) (st_notice c) (st_steered c) (st_wake c) (st_acks c) (S (st_cancels c))
    (st_out c) (st_bypassed c).

Definition add_out (e : Entry) (c : stream) : stream :=
  MkStream (st_env c) (st_ticks c) (st_slept c) (st_file c) (st_ctxfile c) (st_cancelled c)
    (st_current c) (st_executor c) (st_executing c) (st_inflight c) (st_channels c)
    (st_cancelReason c) (st_notice c) (st_steered c) (st_wake c) (st_acks c) (st_cancels c)
    (st_out c ++ [e]) (st_bypassed c).

Definition add_bypassed (e : Entry) (c : stream) : stream :=
  MkStream (st_env c) (st_ticks c) (st_slept c) (st_file c) (st_ctxfile c) (st_cancelled c)
    (st_current c) (st_executor c) (st_executing c) (st_inflight c) (st_channels c)
    (st_cancelReason c) (st_notice c) (st_steered c) (st_wake c) (st_acks c) (st_cancels c)
    (st_out c) (st_bypassed c ++ [e]).

(** The zero stream of a fresh runner. *)
Definition newCommandStream (k : K) : stream :=
  MkStream k 0 0 None None false "" false false None [] "" None "" false [] 0 [] [].

(** ** command_stream.go *)

Definition setPendingPromptNotice (n : option PromptReleaseNotice) (c : stream) : stream :=
  match n with None => c | Some n => set_notice (Some n) c end.
Definition takePendingPromptNotice (c : stream) : stream * option PromptReleaseNotice :=
  (set_notice None c, st_notice c).
Definition recordSteeredPromptVersion (v : string) (c : stream) : stream := set_steered v c.
Definition takeSteeredPromptVersion (c : stream) : stream * string := (set_steered "" c, st_steered c).

Definition wake (c : stream) : stream := set_wake true c.
Definition setCurrentCommand (id : string) (c : stream) : stream := set_current id c.
Definition setCurrentExecutor (b : bool) (c : stream) : stream := set_executor b c.

Definition beginInFlight (c : stream) : stream :=
  set_reason "" (set_flight true (Some (length (st_channels c))) (st_channels c ++ [false]) c).

(** [close(done)]; [None] is the panic of closing a closed channel. *)
Definition endInFlight (c : stream) : option stream :=
  match st_inflight c with
  | None => Some (set_flight false None (st_channels c) c)
  | Some d =>
      match st_channels c !! d with
      | Some false => Some (set_flight false None (<[d := true]> (st_channels c)) c)
      | _ => None
      end
  end.

Definition InFlight (c : stream) : bool := st_executing c.

(** CancelInFlight: the stream, and the done channel when a turn was cancelled. *)
Definition CancelInFlight (reason : string) (c : stream) : stream * option nat :=
  if negb (st_executing c) then (c, None) else
  match st_inflight c with
  | None => (c, None)
  | Some d =>
      let c1 := set_reason reason c in
      ((if st_executor c1 then add_cancel c1 else c1), Some d)
  end.

Definition takeCancelReason (c : stream) : stream * string := (set_reason "" c, st_cancelReason c).

Definition maxSeq (current next : Z) : Z := if current <? next then next else current.

(** ** machine_control.go: control interactions for the agent

    [steer] is the in-flight runtime's Steer: [None] when the runtime cannot be
    steered, else whether it took the text. *)

Definition ackPromptNotice (notice : option PromptReleaseNotice) (c : stream) : stream :=
  match notice with None => c | Some n => add_ack n c end.

Definition deliverPromptNotice (steer : string → option bool) (notice : option PromptReleaseNotice)
    (c : stream) : stream :=
  match notice with
  | None => c
  | Some n =>
      match (if st_executor c then steer (Facade.pn_Message n) else None) with
      | Some true =>
          ackPromptNotice (Some n) (recordSteeredPromptVersion (Facade.pn_PromptVersion n) c)
      | _ => wake (setPendingPromptNotice (Some n) c)
      end
  end.

(** handleAgentControl for a hosted agent; a steer has no effect on the
    stream's own state. *)
Definition handleAgentControl (steer : string → option bool) (ctrl : option Facade.AgentControl)
    (c : stream) : stream :=
  match ctrl with
  | None => c
  | Some (Facade.CtlCancel commandID) =>
      if negb (String.eqb (st_current c) commandID) then c else
      if st_executor c then add_cancel c else c
  | Some (Facade.CtlSteer _ _) => c
  | Some (Facade.CtlPromptNotice n) => deliverPromptNotice steer (Some n) c
  | Some (Facade.CtlWake _ _ _) => wake c
  end.

(** What other goroutines do to the stream while a turn runs. *)
Inductive outside :=
| OControl (steer : string → option bool) (ctrl : option Facade.AgentControl)
| OCancelInFlight (reason : string)
| OStop.

Definition do_outside (o : outside) (c : stream) : stream :=
  match o with
  | OControl steer ctrl => handleAgentControl steer ctrl c
  | OCancelInFlight reason => (CancelInFlight reason c).1
  | OStop => set_cancelled c
  end.

(** ** Reads of the world *)

Definition PM : Type → Type := M stream string.

Definition now : PM Z := λ c, (tick_stream c, Ok (clock (st_ticks c) + st_slept c)).
Definition file_op : PM bool := λ c, (tick_stream c, Ok (disk_ok (st_ticks c))).

Definition SaveLocalState (ls : LocalState) : PM unit :=
  ok ← file_op;
  if (ok : bool) then modify (set_file (Some ls)) else mret tt.
Definition ClearLocalState : PM unit :=
  ok ← file_op;
  if (ok : bool) then modify (set_file None) else mret tt.
Definition SaveContextState (cx : ContextState) : PM unit :=
  ok ← file_op;
  if (ok : bool) then modify (set_ctxfile (Some cx)) else mret tt.

(** LoadContextState: an unreadable file is an error, a missing one is nil. *)
Definition LoadContextState : PM (res string (option ContextState)) :=
  ok ← file_op;
  if (ok : bool) then gets (λ c, Ok (st_ctxfile c)) else mret (Err "context state").

(** ** The sink *)

Definition record (e : Entry) : PM unit := λ c,
  match append_record e (st_env c) with
  | (k, Ok _) => (add_out e (set_env k c), Ok tt)
  | (k, Err m) => (set_env k c, Err m)
  end.

Definition appendProgress (commandID : string) (chunk : OutputChunk) : PM unit :=
  match oc_timestamp chunk with
  | Some t => record (progressEnvelope commandID chunk t)
  | None => t ← now; record (progressEnvelope commandID chunk t)
  end.

Definition appendEvent (commandID : string) (e : Event) : PM unit :=
  t1 ← now; t2 ← now; record (eventEnvelope commandID e t1 t2).

Definition appendResult (result : CommandResult) : PM unit := record (resultEnvelope result).

Definition deliverTerminal (result : CommandResult) : PM bool :=
  r ← attempt (appendResult result);
  match r with
  | Ok _ => mret true
  | Err _ => λ c,
      match bypass_upload (resultEnvelope result) (st_env c) with
      | (k, true) => (add_bypassed (resultEnvelope result) (set_env k c), Ok true)
      | (k, false) => (set_env k c, Ok false)
      end
  end.

Definition recordTurnFailure (commandID : string) (lastSeqSent : Z) (message : string) : PM bool :=
  deliverTerminal (MkResult commandID (-1) 0 message lastSeqSent "" None).

(** The turn-start barrier.  [ctx.Err()] is read after the wait. *)
Definition waitTurnClear (commandID : string) : PM unit := λ c,
  match wait_clear commandID (st_env c) with
  | (k, Ok _) => (set_env k c, Ok tt)
  | (k, Err m) =>
      let c1 := set_env k c in
      if st_cancelled c1 then (c1, Err m)
      else ((recordTurnFailure commandID 0 "outbox barrier failed before the turn" c1).1, Err m)
  end.
End stream.

Arguments stream : clear implicits.
