(* ===== verification/Context.v ===== *)
(** The context state machine of a turn
    ([backend/agent/client/context_observer.go]): usage observations, compaction
    and its watchdog, the re-anchor decision, prompt versions, and what a turn
    leaves in the agent's context state.

    Go's float64 arithmetic is that of [SpecFloat] (binary64, round to nearest
    even).  The texts of [executor.BuildReanchorPrompt] and
    [version.PromptBundleVersion] (a build variable) are arguments. *)

From Stdlib Require Import Ascii.
From Stdlib Require Import Floats.SpecFloat.
From stdpp Require Import base strings numbers pretty list.
From S2P Require Import Prelude Strings Wire Executor Producer.
Import Strings.
Local Open Scope Z_scope.

(** ** float64 *)

Definition float64 (z : Z) : spec_float := binary_normalize 53 1024 z 0 false.
Definition fdiv (a b : spec_float) : spec_float := SFdiv 53 1024 a b.
Definition fmul (a b : spec_float) : spec_float := SFmul 53 1024 a b.
Definition fle (a b : spec_float) : bool := SFleb a b.
Definition flt (a b : spec_float) : bool := SFltb a b.

(** The doubles nearest to 0.9 and 0.3. *)
Definition contextWarningThreshold : spec_float := S754_finite false 8106479329266893 (-53).
Definition usageDropInferenceRatio : spec_float := S754_finite false 5404319552844595 (-54).

(** [int(math.Round(f))]: half away from zero. *)
Definition round_int (f : spec_float) : Z :=
  match f with
  | S754_finite s m e =>
      let v := if 0 <=? e then Z.pos m * 2^e else (Z.pos m + 2^(- e - 1)) / 2^(- e) in
      if s then - v else v
  | _ => 0
  end.

Definition reanchorEveryTurns : Z := 10.
Definition contextQuietWindow : Z := 10 * Second.

(** ** The state of a turn *)

Record mergedText := MkMerged { mt_builder : string; mt_stream_type : Z; mt_started : bool }.

(** The stream and the locals of runCommand: its LocalState, the merged text,
    and the observer (its context state, last chunk, whether its timer is armed
    and the one slot of its channel). *)
Record turn (K : Type) := MkTurn {
  tn_stream : stream K;
  tn_state : LocalState;
  tn_merged : mergedText;
  tn_ctx : option ContextState;
  tn_last_chunk : option Z;
  tn_timer : bool;
  tn_watch : bool
}.
Arguments MkTurn {K}.
Arguments tn_stream {K}.
Arguments tn_state {K}.
Arguments tn_merged {K}.
Arguments tn_ctx {K}.
Arguments tn_last_chunk {K}.
Arguments tn_timer {K}.
Arguments tn_watch {K}.

Section context.
Context {K : Type} {env : TurnEnv K} (clock : nat → Z) (disk_ok : nat → bool).

Definition set_stream (c : stream K) (t : turn K) : turn K :=
  MkTurn c (tn_state t) (tn_merged t) (tn_ctx t) (tn_last_chunk t) (tn_timer t) (tn_watch t).
Definition set_local (s : LocalState) (t : turn K) : turn K :=
  MkTurn (tn_stream t) s (tn_merged t) (tn_ctx t) (tn_last_chunk t) (tn_timer t) (tn_watch t).
Definition set_merged (m : mergedText) (t : turn K) : turn K :=
  MkTurn (tn_stream t) (tn_state t) m (tn_ctx t) (tn_last_chunk t) (tn_timer t) (tn_watch t).
Definition set_ctx (x : option ContextState) (t : turn K) : turn K :=
  MkTurn (tn_stream t) (tn_state t) (tn_merged t) x (tn_last_chunk t) (tn_timer t) (tn_watch t).
Definition set_chunk (z : option Z) (t : turn K) : turn K :=
  MkTurn (tn_stream t) (tn_state t) (tn_merged t) (tn_ctx t) z (tn_timer t) (tn_watch t).
Definition set_timer (b : bool) (t : turn K) : turn K :=
  MkTurn (tn_stream t) (tn_state t) (tn_merged t) (tn_ctx t) (tn_last_chunk t) b (tn_watch t).
Definition set_watch (b : bool) (t : turn K) : turn K :=
  MkTurn (tn_stream t) (tn_state t) (tn_merged t) (tn_ctx t) (tn_last_chunk t) (tn_timer t) b.

Definition TM : Type → Type := M (turn K) string.

Definition on_stream {A} (m : PM (K:=K) A) : TM A := λ t,
  let '(c, r) := m (tn_stream t) in (set_stream c t, r).

Definition with_event_seq (n : Z) (s : LocalState) : LocalState :=
  MkLocal (ls_command_id s) (ls_executor_kind s) (ls_status s) (ls_started_at s)
    (ls_last_seq_sent s) n.
Definition with_last_seq (n : Z) (s : LocalState) : LocalState :=
  MkLocal (ls_command_id s) (ls_executor_kind s) (ls_status s) (ls_started_at s)
    n (ls_last_event_seq_sent s).

Definition nextEventSeq : TM Z := λ t,
  let n := i32 (ls_last_event_seq_sent (tn_state t) + 1) in
  (set_local (with_event_seq n (tn_state t)) t, Ok n).

Definition command_id : TM string := gets (λ t, ls_command_id (tn_state t)).

(** Number an event and append it. *)
Definition send_event (e : Event) : TM unit :=
  n ← nextEventSeq;
  id ← command_id;
  on_stream (appendEvent clock id (with_seq n e)).

Definition upd_ctx (f : ContextState → ContextState) : TM unit :=
  modify (λ t, set_ctx (f <$> tn_ctx t) t).

Definition startWatchdog : TM unit := modify (set_timer true).
Definition stopWatchdog : TM unit := modify (set_timer false).

(** ** Compaction *)

Definition inferCompaction (prevUsed used : Z) : TM bool := λ t,
  if (prevUsed <=? 0) || (used <? 0) then (t, Ok false) else
  let drop := i64 (prevUsed - used) in
  if (drop <=? 0) || fle (fdiv (float64 drop) (float64 prevUsed)) usageDropInferenceRatio
  then (t, Ok false) else
  match tn_last_chunk t with
  | None => (t, Ok true)
  | Some at_ =>
      match on_stream (now clock) t with
      | (t', Ok z) => (t', Ok (negb (z - at_ <? contextQuietWindow)))
      | (t', Err e) => (t', Err e)
      end
  end.

Definition compaction_finished (z : Z) (x : ContextState) : ContextState :=
  with_session (MkHealth 0 (sh_resume_failures (cx_session x)) (sh_cold_starts (cx_session x)))
    (with_reanchor true
      (with_compaction (MkCompaction (i64 (ci_count (cx_compaction x) + 1)) (Some z)
        (ci_last_start_at (cx_compaction x)) false) x)).

Definition finishCompaction : TM unit :=
  stopWatchdog;;
  z ← on_stream (now clock);
  upd_ctx (compaction_finished z).

Definition onCompactionFinished : TM unit :=
  finishCompaction;; upd_ctx (with_usage zero_usage).

Definition inferred_event : Event :=
  MkEventX 0 CommandEventType_CONTEXT_COMPACTION_FINISHED
    "Context compaction finished (inferred from usage drop)" "" 0 None None None None None
    None None None (Some ("", true)) None None.

Definition emitInferredCompaction : TM unit :=
  finishCompaction;; send_event inferred_event.

Definition stale_message : string := "Context compaction still running; no finish event observed".
Definition stale_event : Event :=
  MkEventX 0 CommandEventType_WARNING stale_message "" 0 None None None None None
    (Some stale_message) None None None None None.

Definition onWatchdog : TM unit := send_event stale_event.

Definition observe (event : Event) : TM unit := λ t,
  match tn_ctx t with
  | None => (t, Ok tt)
  | Some x =>
      if ev_type event =? CommandEventType_CONTEXT_COMPACTION_STARTED then
        (z ← on_stream (now clock);
         upd_ctx (λ x, with_compaction (MkCompaction (ci_count (cx_compaction x))
           (ci_last_at (cx_compaction x)) (Some z) true) x);;
         startWatchdog) t
      else if ev_type event =? CommandEventType_CONTEXT_COMPACTION_FINISHED then
        onCompactionFinished t
      else if ev_type event =? CommandEventType_CONTEXT_USAGE_UPDATE then
        match ev_context_usage event with
        | None => (t, Ok tt)
        | Some (size, used) =>
            let prevUsed := cu_used (cx_usage x) in
            (z ← on_stream (now clock);
             upd_ctx (with_usage (MkUsage size used (Some z)));;
             if ci_active (cx_compaction x) then mret tt else
             infer ← inferCompaction prevUsed used;
             if (infer : bool) then emitInferredCompaction else mret tt) t
        end
      else if ev_type event =? CommandEventType_RAW_ACP then
        if String.eqb (ev_summary event) "agent_message_chunk" then
          (z ← on_stream (now clock); modify (set_chunk (Some z))) t
        else (t, Ok tt)
      else (t, Ok tt)
  end.
End context.

(** ** Decisions between turns *)

Section decisions.
Context (bundle : string) (build_reanchor : string → string → string → string).

Definition reanchorPrompt (x : option ContextState) (name owner team : string)
    : option ContextState * string :=
  match x with
  | None => (None, "")
  | Some c =>
      if negb (cx_needs_reanchor c) && (sh_turns (cx_session c) <? reanchorEveryTurns)
      then (Some c, "")
      else (Some (with_session (MkHealth 0 (sh_resume_failures (cx_session c))
                    (sh_cold_starts (cx_session c))) (with_reanchor false c)),
            build_reanchor name owner team)
  end.

Definition dynamic_notice : string :=
  "Your system prompt has been updated (persona, team, or owner). Re-read the relevant sections before continuing.".
Definition stale_notice : string :=
  "The system prompt has been updated on the server, but this machine's bundled system prompt is out of date. Upgrade laelia-machine to receive the latest instructions.".
Definition static_notice : string :=
  "Your machine's bundled system prompt has been updated. Re-read the latest instructions.".

Definition newline : string := String (byte_of 10) "".
Definition blank_line : string := newline +:+ newline.
Definition dot_char : ascii := "."%char.

Fixpoint join (sep : string) (l : list string) : string :=
  match l with
  | [] => ""
  | [s] => s
  | s :: l' => s +:+ sep +:+ join sep l'
  end.

Definition applyPromptVersion (x : option ContextState) (promptVersion turnPrompt : string)
    : option ContextState * string :=
  match x with
  | None => (None, turnPrompt)
  | Some c =>
      if String.eqb promptVersion "" || String.eqb (cx_prompt_version c) promptVersion
      then (Some c, turnPrompt) else
      let '(expectedStatic, dynamicHash, _) := Cut promptVersion dot_char in
      let '(prevStatic, prevDynamic, _) := Cut (cx_prompt_version c) dot_char in
      let dynamicChanged := negb (String.eqb prevDynamic "") && negb (String.eqb prevDynamic dynamicHash) in
      let staticChanged := negb (String.eqb prevStatic "") && negb (String.eqb prevStatic bundle) in
      let stale := negb (String.eqb expectedStatic "") && negb (String.eqb bundle expectedStatic) in
      let notices :=
        (if dynamicChanged then [dynamic_notice] else []) ++
        (if stale then [stale_notice] else if staticChanged then [static_notice] else []) in
      let c1 := if dynamicChanged || (negb stale && staticChanged) then with_reanchor true c else c in
      let c2 := with_prompt_version promptVersion c1 in
      match notices with
      | [] => (Some c2, turnPrompt)
      | _ =>
          let notice := "System prompt update notice." +:+ blank_line +:+ join blank_line notices in
          (Some c2, if String.eqb (TrimSpace turnPrompt) "" then notice
                    else notice +:+ blank_line +:+ turnPrompt)
      end
  end.

(** strings.TrimRight(s, newline) *)
Fixpoint drop_newlines (l : list ascii) : list ascii :=
  match l with
  | c :: l' => if Ascii.eqb c (byte_of 10) then drop_newlines l' else l
  | [] => []
  end.
Definition trim_newlines (s : string) : string :=
  String.string_of_list_ascii (rev (drop_newlines (rev (String.list_ascii_of_string s)))).

Definition UsageRatio (x : option ContextState) : spec_float :=
  match x with
  | Some c => if cu_size (cx_usage c) <=? 0 then float64 0
              else fdiv (float64 (cu_used (cx_usage c))) (float64 (cu_size (cx_usage c)))
  | None => float64 0
  end.

Definition appendContextWarning (prompt : string) (x : option ContextState) : string :=
  match x with
  | None => prompt
  | Some c =>
      if String.eqb prompt "" || (cu_size (cx_usage c) <=? 0) then prompt else
      let ratio := UsageRatio x in
      if flt ratio contextWarningThreshold then prompt else
      trim_newlines prompt +:+ blank_line +:+
        "Context warning: your context window is ~" +:+ pretty (round_int (fmul ratio (float64 100)))
        +:+ "% full (" +:+ pretty (cu_used (cx_usage c)) +:+ "/" +:+ pretty (cu_size (cx_usage c))
        +:+ " tokens). Prefer concise replies; write durable knowledge to MEMORY.md."
  end.

(** The fold of persistContextState, before the save. *)
Definition fold_result (result : option Result) (c : ContextState) : ContextState :=
  match result with
  | None => c
  | Some r =>
      let c1 :=
        if String.eqb (rs_fingerprint r) "" then c
        else if negb (String.eqb (cx_fingerprint c) "")
             && negb (String.eqb (cx_fingerprint c) (rs_fingerprint r))
        then ResetForFingerprint (rs_fingerprint r) c
        else with_fingerprint (rs_fingerprint r) c in
      let h := cx_session c1 in
      let h1 := if rs_resumed r
        then MkHealth (i64 (sh_turns h + 1)) (sh_resume_failures h) (sh_cold_starts h)
        else MkHealth 0 (sh_resume_failures h) (i64 (sh_cold_starts h + 1)) in
      with_session (MkHealth (sh_turns h1) (rs_resume_failures r) (sh_cold_starts h1)) c1
  end.
End decisions.

Definition persistContextState {K} (disk_ok : nat → bool) (x : option ContextState)
    (result : option Result) : PM (K:=K) unit :=
  match x with
  | None => mret tt
  | Some c => SaveContextState disk_ok (fold_result result c)
  end.
