(* ===== verification/Turn.v ===== *)
(** One turn of an agent ([backend/agent/client/drain_runner.go], [mergedText],
    [runCommand] and [drainOutput]): every output chunk, event and the terminal
    result becomes a record of the outbox.

    The [select] of the loop is driven by a list of picks: what the loop takes
    next, and what other goroutines do in between.  A list that ends before the
    turn does leaves the loop blocked ([Blocked]). *)

From Stdlib Require Import Ascii.
From stdpp Require Import base strings numbers list.
From S2P Require Import Prelude Strings Wire Executor Producer Context.
Import Strings.
Local Open Scope Z_scope.

Definition mergedTextDeltaFlushBytes : Z := 4096.

Definition new_merged : mergedText := MkMerged "" 0 false.

(** mergedText.append *)
Definition merged_append (streamType : Z) (text : string) (m : mergedText) : mergedText * bool :=
  if mt_started m && (negb (streamType =? mt_stream_type m)
       || (mergedTextDeltaFlushBytes <=? Z.of_nat (String.length (mt_builder m))))
  then (m, true)
  else (MkMerged (mt_builder m +:+ text)
          (if mt_started m then mt_stream_type m else streamType) true, false).

(** What the main [select] takes: [PkDone] is the closed Done channel;
    [PkEvent None] and [PkChunk None] are reads of a closed channel. *)
Inductive pick :=
| PkOutside (o : outside)
| PkTimer
| PkCtxDone
| PkDone
| PkWatchdog
| PkEvent (e : option Event)
| PkChunk (c : option OutputChunk).

(** What the [select] of drainOutput takes. *)
Inductive dpick :=
| DkOutside (o : outside)
| DkCtxDone
| DkChunk (c : option OutputChunk)
| DkEvent (e : option Event).

(** How the loop ended: it returned nil after an append failed or because its
    context ended, it reached the runtime's result, or it is blocked. *)
Inductive exit_kind :=
| Aborted
| Interrupted
| Finished (result : Result) (delivered : bool)
| Blocked.

Section turn.
Context {K : Type} {env : TurnEnv K} (clock : nat → Z) (disk_ok : nat → bool).

Abbreviation TM := (TM (K:=K)).

Definition text_event (m : mergedText) : Event :=
  MkEventX 0 CommandEventType_TEXT_DELTA (mt_builder m) (mt_builder m) (mt_stream_type m)
    None (Some (stream_type_name (mt_stream_type m), mt_builder m))
    None None None None None None None None None.

(** mergedText.flush *)
Definition flush_merged : TM unit := λ t,
  let m := tn_merged t in
  if negb (mt_started m) then (t, Ok tt) else
  let t1 := set_merged (MkMerged "" (mt_stream_type m) false) t in
  if String.eqb (mt_builder m) "" then (t1, Ok tt)
  else send_event clock (text_event m) t1.

(** [_ = merged.flush(...)] *)
Definition flush_ignored : TM unit := _ ← attempt flush_merged; mret tt.

Definition append_merged (streamType : Z) (text : string) : TM bool := λ t,
  let '(m, full) := merged_append streamType text (tn_merged t) in (set_merged m t, Ok full).

Definition save_local : TM unit := λ t, on_stream (SaveLocalState disk_ok (tn_state t)) t.

(** Append a chunk's record and count it. *)
Definition record_chunk (chunk : OutputChunk) : TM unit :=
  id ← command_id;
  on_stream (appendProgress clock id chunk);;
  modify (λ t, set_local (with_last_seq (maxSeq (ls_last_seq_sent (tn_state t)) (oc_seq_no chunk))
                  (tn_state t)) t).

(** The case of a chunk in the main loop. *)
Definition on_chunk (chunk : OutputChunk) : TM unit :=
  record_chunk chunk;;
  full ← append_merged (oc_stream_type chunk) (oc_content chunk);
  (if (full : bool) then
     flush_merged;;
     _ ← append_merged (oc_stream_type chunk) (oc_content chunk); mret tt
   else mret tt);;
  save_local.

(** The case of an event in the main loop. *)
Definition on_event (event : Event) : TM unit :=
  n ← nextEventSeq;
  id ← command_id;
  on_stream (appendEvent clock id (with_seq n event));;
  observe clock (with_seq n event);;
  save_local.

(** The cases of drainOutput; an error ends the drain. *)
Definition drain_chunk (chunk : OutputChunk) : TM unit :=
  record_chunk chunk;;
  full ← append_merged (oc_stream_type chunk) (oc_content chunk);
  if (full : bool) then
    flush_ignored;;
    _ ← append_merged (oc_stream_type chunk) (oc_content chunk); mret tt
  else mret tt.

Definition drain_event (event : Event) : TM unit :=
  n ← nextEventSeq;
  id ← command_id;
  on_stream (appendEvent clock id (with_seq n event));;
  observe clock (with_seq n event).

(** drainOutput: [false] when the picks ran out, so that it is blocked. *)
Fixpoint drainOutput (outputClosed eventClosed : bool) (picks : list dpick) : TM bool :=
  if outputClosed && eventClosed then flush_ignored;; mret true else
  match picks with
  | [] => mret false
  | DkOutside o :: picks' => on_stream (modify (do_outside o));; drainOutput outputClosed eventClosed picks'
  | DkCtxDone :: _ => on_stream (modify set_cancelled);; flush_ignored;; mret true
  | DkChunk None :: picks' => drainOutput true eventClosed picks'
  | DkEvent None :: picks' => drainOutput outputClosed true picks'
  | DkChunk (Some chunk) :: picks' =>
      r ← attempt (drain_chunk chunk);
      match r with
      | Err _ => flush_ignored;; mret true
      | Ok _ => drainOutput outputClosed eventClosed picks'
      end
  | DkEvent (Some event) :: picks' =>
      r ← attempt (drain_event event);
      match r with
      | Err _ => flush_ignored;; mret true
      | Ok _ => drainOutput outputClosed eventClosed picks'
      end
  end.

Definition result_payload (id : string) (r : Result) : CommandResult :=
  MkResult id (rs_exit_code r) (rs_duration_ms r) (rs_error_message r) (rs_last_seq_no r)
    (rs_final_summary r) (rs_result r).

(** The result as the loop edits it: its last sequence number, and the cause of
    a coordinated cancel when the turn failed. *)
Definition edit_result (last : Z) (reason : string) (r : Result) : Result :=
  MkResultX (rs_exit_code r) (rs_duration_ms r)
    (if negb (String.eqb reason "") && negb (rs_exit_code r =? 0) then reason else rs_error_message r)
    last (rs_final_summary r) (rs_result r) (rs_resumed r) (rs_fingerprint r) (rs_resume_failures r).

(** The case of Done; [result] is what ResultChannel gives, [None] if nothing. *)
Definition on_done (dpicks : list dpick) (result : option Result) : TM exit_kind :=
  flush_ignored;;
  drained ← drainOutput false false dpicks;
  if negb (drained : bool) then mret Blocked else
  flush_ignored;;
  match result with
  | None => mret Blocked
  | Some r =>
      last ← gets (λ t, ls_last_seq_sent (tn_state t));
      reason ← on_stream (λ c, let '(c', s) := takeCancelReason c in (c', Ok s));
      let r' := edit_result last reason r in
      id ← command_id;
      delivered ← on_stream (deliverTerminal (result_payload id r'));
      (if (delivered : bool) then on_stream (ClearLocalState disk_ok) else mret tt);;
      mret (Finished r' delivered)
  end.

(** A step of the loop that returns nil on an error. *)
Definition or_abort (m : TM unit) (k : TM exit_kind) : TM exit_kind :=
  r ← attempt m;
  match r with Err _ => mret Aborted | Ok _ => k end.

Fixpoint turn_loop (picks : list pick) (dpicks : list dpick) (result : option Result) : TM exit_kind :=
  match picks with
  | [] => mret Blocked
  | PkOutside o :: picks' => on_stream (modify (do_outside o));; turn_loop picks' dpicks result
  | PkTimer :: picks' =>
      modify (λ t, if tn_timer t then set_timer false (set_watch true t) else t);;
      turn_loop picks' dpicks result
  | PkCtxDone :: _ => on_stream (modify set_cancelled);; mret Interrupted
  | PkDone :: _ => on_done dpicks result
  | PkWatchdog :: picks' =>
      w ← gets tn_watch;
      if negb (w : bool) then turn_loop picks' dpicks result else
      modify (set_watch false);;
      or_abort (onWatchdog clock) (turn_loop picks' dpicks result)
  | PkEvent None :: picks' => turn_loop picks' dpicks result
  | PkEvent (Some event) :: picks' => or_abort (on_event event) (turn_loop picks' dpicks result)
  | PkChunk None :: picks' => turn_loop picks' dpicks result
  | PkChunk (Some chunk) :: picks' => or_abort (on_chunk chunk) (turn_loop picks' dpicks result)
  end.

Definition started_event (profile : string) : Event :=
  MkEventX 0 CommandEventType_LIFECYCLE "command started" "" 0 (Some ("ACP", profile)) None None
    None None None None None None None None.

(** The body of runCommand up to its deferred calls. *)
Definition turn_body (profile : string) (picks : list pick) (dpicks : list dpick)
    (result : option Result) : TM exit_kind :=
  or_abort (send_event clock (started_event profile))
    (save_local;; turn_loop picks dpicks result).

Definition outbox_failure (id : string) : CommandResult :=
  MkResult id (-1) 0 "agent outbox write failure" 0 "" None.

(** The rest of the deferred call when the terminal was not delivered: the
    runtime is cancelled and, unless the context ended, [result] is delivered. *)
Definition deliver_deferred (result : CommandResult) : TM unit :=
  on_stream (modify add_cancel);;
  cancelled ← gets (λ t, st_cancelled (tn_stream t));
  if (cancelled : bool) then mret tt else
  delivered ← on_stream (deliverTerminal result);
  if (delivered : bool) then on_stream (ClearLocalState disk_ok) else mret tt.

(** The deferred call: nothing once the terminal was delivered; else the
    pending result, or a synthetic failure. *)
Definition deferred_terminal (kind : exit_kind) : TM unit :=
  id ← command_id;
  match kind with
  | Finished _ true => mret tt
  | Finished r false => deliver_deferred (result_payload id r)
  | Aborted | Interrupted => deliver_deferred (outbox_failure id)
  | Blocked => mret tt
  end.

Definition initLocalState (id : string) (started : Z) : LocalState :=
  MkLocal id "ACP" "running" started 0 0.

Definition new_turn (c : stream K) (id : string) (started : Z) (x : option ContextState) : turn K :=
  MkTurn c (initLocalState id started) new_merged x None false false.

(** What runCommand returns of the kind. *)
Definition returned (kind : exit_kind) : option Result :=
  match kind with Finished r _ => Some r | _ => None end.

(** runCommand on a turn whose locals are fresh; deferred calls run last to
    first: the terminal, then the watchdog's stop. *)
Definition run_turn (profile : string) (picks : list pick) (dpicks : list dpick)
    (result : option Result) : TM exit_kind :=
  save_local;;
  kind ← turn_body profile picks dpicks result;
  deferred_terminal kind;;
  stopWatchdog;;
  mret kind.

Definition runCommand (id profile : string) (x : option ContextState)
    (picks : list pick) (dpicks : list dpick) (result : option Result) (c : stream K)
    : turn K * exit_kind :=
  let '(c1, r) := now clock c in
  let started := match r with Ok z => z `div` Millisecond | Err _ => 0 end in
  let '(t, r2) := run_turn profile picks dpicks result (new_turn c1 id started x) in
  (t, match r2 with Ok kind => kind | Err _ => Blocked end).
End turn.
