(* ===== verification/TurnSpec.v ===== *)
(** What one turn records: a small program logic for the turn monad and, with
    it, how a turn ends: its records, the count of its sends, the cancel reason it
    heard and its terminal.  [triple] and [keeps] are about one predicate,
    [costs] about the invariant [recorded] indexed by the sends made and the
    operations of other goroutines heard. *)

From Stdlib Require Import Ascii.
From stdpp Require Import base strings numbers sorting list.
From S2P Require Import Prelude Strings Wire Executor Producer Context Turn.
Import Strings.
Local Open Scope Z_scope.

(** The flags of a stream that its own turn leaves alone: the done channels, the
    in-flight marks, the executor and the current command. *)
Definition flags_state : Type := option nat * list bool * bool * bool * string.
Definition flags {K} (c : stream K) : flags_state :=
  (st_inflight c, st_channels c, st_executing c, st_executor c, st_current c).

(** A turn is in flight: what a coordinated cancel asks for. *)
Definition in_flight (f : flags_state) : bool :=
  let '(inflight, _, executing, _, _) := f in executing && bool_decide (is_Some inflight).
#[global] Arguments in_flight : simpl never.

Definition core_state (K : Type) : Type :=
  K * string * flags_state * list Entry * list Entry * LocalState * mergedText.

Section logic.
Context {K : Type}.
Abbreviation TM := (TM (K:=K)).

(** [triple P m Q E]: from [P], [m] returns in [Q], or fails in [E]. *)
Definition triple {A} (P : turn K → Prop) (m : TM A) (Q : A → turn K → Prop) (E : turn K → Prop) : Prop :=
  ∀ t, P t → match m t with (t', Ok a) => Q a t' | (t', Err _) => E t' end.

Definition keeps {A} (P : turn K → Prop) (m : TM A) : Prop := triple P m (λ _, P) P.

Lemma triple_bind {A B} P (m : TM A) R (k : A → TM B) Q E :
  triple P m R E → (∀ a, triple (R a) (k a) Q E) → triple P (mbind k m) Q E.
Proof.
  intros Hm Hk t Ht. specialize (Hm t Ht). unfold mbind, M_bind.
  destruct (m t) as [t' [a|e]]; [by apply Hk|done].
Qed.

Lemma triple_ret {A} (P : turn K → Prop) (a : A) (Q : A → turn K → Prop) E :
  (∀ t, P t → Q a t) → triple P (mret a) Q E.
Proof. intros H t Ht. by apply H. Qed.

Lemma triple_conseq {A} (P P' : turn K → Prop) (m : TM A) Q Q' (E E' : turn K → Prop) :
  triple P m Q E → (∀ t, P' t → P t) → (∀ a t, Q a t → Q' a t) → (∀ t, E t → E' t) →
  triple P' m Q' E'.
Proof.
  intros H HP HQ HE t Ht. specialize (H t (HP t Ht)). destruct (m t) as [t' [a|e]]; auto.
Qed.

Lemma triple_exists {A X} (P : X → turn K → Prop) (m : TM A) Q E :
  (∀ x, triple (P x) m Q E) → triple (λ t, ∃ x, P x t) m Q E.
Proof. intros H t [x Ht]. by apply (H x). Qed.

Lemma triple_pure {A} (C : Prop) (P : turn K → Prop) (m : TM A) Q E :
  (C → triple P m Q E) → triple (λ t, C ∧ P t) m Q E.
Proof. intros H t [HC Ht]. by apply H. Qed.

Lemma triple_attempt {A} P (m : TM A) Q E :
  triple P m Q E → triple P (attempt m) (λ r t, match r with Ok a => Q a t | Err _ => E t end) E.
Proof. intros H t Ht. specialize (H t Ht). unfold attempt. by destruct (m t) as [t' [a|e]]. Qed.

Lemma triple_modify (P Q : turn K → Prop) f E :
  (∀ t, P t → Q (f t)) → triple P (modify f) (λ _, Q) E.
Proof. intros H t Ht. by apply H. Qed.

Lemma triple_gets {A} P (f : turn K → A) E : triple P (gets f) (λ a t, P t ∧ a = f t) E.
Proof. intros t Ht. done. Qed.

Lemma keeps_bind {A B} P (m : TM A) (k : A → TM B) :
  keeps P m → (∀ a, keeps P (k a)) → keeps P (mbind k m).
Proof. intros Hm Hk. eapply triple_bind; [exact Hm|exact Hk]. Qed.

Lemma keeps_ret {A} P (a : A) : keeps P (mret a).
Proof. by apply triple_ret. Qed.

Lemma keeps_attempt {A} P (m : TM A) : keeps P m → keeps P (attempt m).
Proof.
  intros H. eapply triple_conseq; [by apply triple_attempt| | |]; try done.
  by intros [a|e] t.
Qed.

Lemma keeps_gets {A} P (f : turn K → A) : keeps P (gets f).
Proof. by intros t Ht. Qed.

Lemma keeps_or_abort P (m : TM unit) (k : TM exit_kind) :
  keeps P m → keeps P k → keeps P (or_abort m k).
Proof. intros Hm Hk. apply keeps_bind; [by apply keeps_attempt|]. by intros [a|e]; [|apply keeps_ret]. Qed.

(** Predicates of the environment, the cancel reason, the flags, the records, the
    counters and the pending text. *)
Definition core (t : turn K) : core_state K :=
  (st_env (tn_stream t), st_cancelReason (tn_stream t), flags (tn_stream t), st_out (tn_stream t), st_bypassed (tn_stream t),
   tn_state t, tn_merged t).

Definition of_core (R : core_state K → Prop) : turn K → Prop :=
  λ t, R (core t).

(** The predicates that say nothing of the cancel reason. *)
Definition blind (R : core_state K → Prop) : Prop :=
  ∀ k r r' f out byp ls m, R (k, r, f, out, byp, ls, m) → R (k, r', f, out, byp, ls, m).

Definition silent {A} (m : TM A) : Prop := ∀ t, core (m t).1 = core t.

Lemma keeps_silent {A} R (m : TM A) : silent m → keeps (of_core R) m.
Proof.
  intros H t Ht. specialize (H t). unfold of_core in *.
  destruct (m t) as [t' [a|e]]; simpl in *; by rewrite H.
Qed.

(** A stream operation that leaves the histories alone. *)
Definition quiet {A} (m : PM (K:=K) A) : Prop :=
  ∀ c, st_out (m c).1 = st_out c ∧ st_bypassed (m c).1 = st_bypassed c ∧ st_env (m c).1 = st_env c ∧
  flags (m c).1 = flags c ∧ st_cancelReason (m c).1 = st_cancelReason c.

Lemma silent_on_stream {A} (m : PM (K:=K) A) : quiet m → silent (on_stream m).
Proof.
  intros H t. destruct (H (tn_stream t)) as (H1 & H2 & H3 & H4 & H5). unfold on_stream, core.
  destruct (m (tn_stream t)) as [c r]. simpl in *. by rewrite H1, H2, H3, H4, H5.
Qed.

Lemma silent_bind {A B} (m : TM A) (k : A → TM B) :
  silent m → (∀ a, silent (k a)) → silent (mbind k m).
Proof.
  intros Hm Hk t. unfold mbind, M_bind. specialize (Hm t).
  destruct (m t) as [t' [a|e]]; simpl in *; [by rewrite Hk|done].
Qed.

Lemma silent_ret {A} (a : A) : silent (mret a).
Proof. done. Qed.
End logic.

(** ** The operations that only read the world *)

Section operations.
Context {K : Type} {env : TurnEnv K} (clock : nat → Z) (disk_ok : nat → bool).
Abbreviation TM := (TM (K:=K)).

Lemma quiet_now : quiet (now clock : PM (K:=K) Z).
Proof. done. Qed.

Lemma quiet_file (k : bool → PM (K:=K) unit) :
  (∀ b, quiet (k b)) → quiet (ok ← file_op disk_ok; k ok).
Proof. intros H c. unfold mbind, M_bind, file_op. apply (H (disk_ok (st_ticks c)) (tick_stream c)). Qed.

Lemma quiet_modify f :
  (∀ c, st_out (f c) = st_out c ∧ st_bypassed (f c) = st_bypassed c ∧ st_env (f c) = st_env c ∧
    flags (f c) = flags c ∧ st_cancelReason (f c) = st_cancelReason c) →
  quiet (modify f : PM (K:=K) unit).
Proof. intros H c. apply H. Qed.

Lemma quiet_save s : quiet (SaveLocalState disk_ok s : PM (K:=K) unit).
Proof. apply quiet_file. by intros []. Qed.

Lemma quiet_clear : quiet (ClearLocalState (K:=K) disk_ok).
Proof. apply quiet_file. by intros []. Qed.

Lemma deliverPromptNotice_out steer n (c : stream K) :
  st_out (deliverPromptNotice steer n c) = st_out c ∧
  st_bypassed (deliverPromptNotice steer n c) = st_bypassed c ∧
  st_env (deliverPromptNotice steer n c) = st_env c ∧
  flags (deliverPromptNotice steer n c) = flags c ∧
  st_cancelReason (deliverPromptNotice steer n c) = st_cancelReason c.
Proof.
  unfold deliverPromptNotice. destruct n as [n|]; [|done].
  by destruct (if st_executor c then steer (Facade.pn_Message n) else None) as [[]|].
Qed.

(** The cancel reason after what other goroutines did: a coordinated cancel of a
    turn in flight replaces it. *)
Definition reason_step (live : bool) (r : string) (o : outside) : string :=
  match o with OCancelInFlight reason => if live then reason else r | _ => r end.
Definition reason_after (live : bool) : string → list outside → string := foldl (reason_step live).

Lemma do_outside_out o (c : stream K) :
  st_out (do_outside o c) = st_out c ∧ st_bypassed (do_outside o c) = st_bypassed c ∧
  st_env (do_outside o c) = st_env c ∧ flags (do_outside o c) = flags c ∧
  st_cancelReason (do_outside o c) = reason_step (in_flight (flags c)) (st_cancelReason c) o.
Proof.
  destruct o as [steer ctrl|reason|]; simpl; [| |done].
  - destruct ctrl as [[id| |n|]|]; simpl; try done.
    + by destruct (negb _), (st_executor c).
    + exact (deliverPromptNotice_out steer (Some n) c).
  - unfold CancelInFlight, in_flight, flags. destruct (st_executing c) eqn:E1; simpl; [|by rewrite E1].
    destruct (st_inflight c) eqn:E2; simpl; [|by rewrite E1, E2].
    destruct (st_executor c) eqn:E3; simpl; by rewrite E1, E2, E3.
Qed.

(** What a stream operation that may change the cancel reason does to the core. *)
Lemma core_outside o (t : turn K) :
  core (on_stream (modify (do_outside o)) t).1 =
    (st_env (tn_stream t), reason_step (in_flight (flags (tn_stream t))) (st_cancelReason (tn_stream t)) o,
     flags (tn_stream t), st_out (tn_stream t), st_bypassed (tn_stream t), tn_state t, tn_merged t).
Proof.
  destruct (do_outside_out o (tn_stream t)) as (H1 & H2 & H3 & H4 & H5).
  unfold on_stream, core, modify. simpl. by rewrite H1, H2, H3, H4, H5.
Qed.

Lemma silent_save : silent (save_local disk_ok : TM unit).
Proof. intros t. unfold save_local. apply (silent_on_stream _ (quiet_save (tn_state t)) t). Qed.

Lemma silent_now : silent (on_stream (now clock) : TM Z).
Proof. by apply silent_on_stream, quiet_now. Qed.

Lemma silent_modify (f : turn K → turn K) : (∀ t, core (f t) = core t) → silent (modify f : TM unit).
Proof. intros H t. apply H. Qed.

Lemma silent_upd_ctx f : silent (upd_ctx f : TM unit).
Proof. by apply silent_modify. Qed.

Lemma silent_finish : silent (finishCompaction clock : TM unit).
Proof.
  apply silent_bind; [by apply silent_modify|]. intros _.
  apply silent_bind; [apply silent_now|]. intros z. apply silent_upd_ctx.
Qed.

Lemma silent_infer p u : silent (inferCompaction clock p u : TM bool).
Proof.
  intros t. unfold inferCompaction. destruct (_ || _); [done|]. cbv zeta.
  destruct (_ || _); [done|]. destruct (tn_last_chunk t); [|done].
  pose proof (silent_now t) as H. by destruct (on_stream (now clock) t) as [t' [z'|e]].
Qed.

(** The observer: silent, but for the event it may send last. *)
Lemma observe_step R R' e :
  (∀ s, R s → R' s) →
  triple (of_core R) (send_event clock inferred_event) (λ _, of_core R') (of_core R') →
  triple (of_core R) (observe clock e : TM unit) (λ _, of_core R') (of_core R').
Proof.
  intros HR Hs.
  assert (∀ m : TM unit, silent m → triple (of_core R) m (λ _, of_core R') (of_core R')) as Hq.
  { intros m Hm. eapply triple_conseq; [by apply (keeps_silent R)|done| |].
    - intros ? t. apply HR.
    - intros t. apply HR. }
  assert (∀ (A : Type) (m : TM A) (k : A → TM unit), silent m → (∀ a, triple (of_core R) (k a) (λ _, of_core R') (of_core R')) →
    triple (of_core R) (mbind k m) (λ _, of_core R') (of_core R')) as Hb.
  { intros A m k Hm Hk. eapply triple_bind; [|exact Hk].
    eapply triple_conseq; [by apply (keeps_silent R)|done|done|]. intros t. apply HR. }
  intros t Ht. unfold observe. destruct (tn_ctx t) as [x|]; [|by apply HR].
  destruct (_ =? _).
  { revert t Ht. change (triple (of_core R) (z ← on_stream (now clock);
      upd_ctx (λ x, with_compaction (MkCompaction (ci_count (cx_compaction x))
        (ci_last_at (cx_compaction x)) (Some z) true) x);; startWatchdog : TM unit) (λ _, of_core R') (of_core R')).
    apply Hq, silent_bind; [apply silent_now|]. intros z.
    apply silent_bind; [apply silent_upd_ctx|]. intros _. by apply silent_modify. }
  destruct (_ =? _).
  { revert t Ht. change (triple (of_core R) (onCompactionFinished clock : TM unit) (λ _, of_core R') (of_core R')).
    apply Hq, silent_bind; [apply silent_finish|]. intros _. apply silent_upd_ctx. }
  destruct (_ =? _).
  { destruct (ev_context_usage e) as [[size used]|]; [|by apply HR].
    generalize (cu_used (cx_usage x)), (ci_active (cx_compaction x)). intros prev active. clear x.
    revert t Ht. change (triple (of_core R) (z ← on_stream (now clock);
      upd_ctx (with_usage (MkUsage size used (Some z)));;
      (if active then mret tt else infer ← inferCompaction clock prev used;
       if (infer : bool) then emitInferredCompaction clock else mret tt) : TM unit) (λ _, of_core R') (of_core R')).
    apply Hb; [apply silent_now|]. intros z. apply Hb; [apply silent_upd_ctx|]. intros _.
    destruct active; [by apply Hq|]. apply Hb; [apply silent_infer|]. intros []; [|by apply Hq].
    apply Hb; [apply silent_finish|]. by intros _. }
  destruct (_ =? _); [|by apply HR]. destruct (String.eqb _ _); [|by apply HR].
  revert t Ht. change (triple (of_core R) (z ← on_stream (now clock); modify (set_chunk (Some z)) : TM unit)
    (λ _, of_core R') (of_core R')).
  apply Hq, silent_bind; [apply silent_now|]. intros z. by apply silent_modify.
Qed.

Lemma keeps_observe R e :
  keeps (of_core R) (send_event clock inferred_event) → keeps (of_core R) (observe clock e : TM unit).
Proof. by apply observe_step. Qed.
End operations.

(** ** Invariants of the core, from their basic steps *)

Section core_invariants.
Context {K : Type} {env : TurnEnv K} (clock : nat → Z) (disk_ok : nat → bool).
Abbreviation TM := (TM (K:=K)).
(** [allowed]: the events the runtime may send. *)
Context (R : core_state K → Prop) (allowed : Event → bool).
Abbreviation inv := (of_core (K:=K) R).

(** A handler that numbers the event itself appends the same record. *)
Lemma numbered_event {A} (k : Z → TM A) e (Q : A → turn K → Prop) (E : turn K → Prop) P P' :
  triple P (send_event clock e) (λ _, P') E →
  (∀ n, triple P' (k n) Q E) →
  triple P (n ← nextEventSeq; i ← command_id; on_stream (appendEvent clock i (with_seq n e));; k n) Q E.
Proof.
  intros Hs Hk t Ht. specialize (Hs t Ht). revert Hs. unfold send_event.
  unfold mbind, M_bind. destruct (nextEventSeq t) as [t1 [n|m]]; [|done].
  destruct (command_id t1) as [t2 [i|m]]; [|done].
  destruct (on_stream _ t2) as [t3 [[]|m]]; [|done]. intros H3. by apply Hk.
Qed.

Lemma keeps_save : keeps inv (save_local disk_ok : TM unit).
Proof. apply keeps_silent, silent_save. Qed.

Context (R_blind : blind R).

Lemma keeps_outside o : keeps inv (on_stream (modify (do_outside o)) : TM unit).
Proof.
  intros t Ht. pose proof (core_outside o t) as Hc. unfold on_stream, modify in *. simpl in *.
  unfold of_core in *. rewrite Hc. by apply (R_blind _ _ _ _ _ _ _ _ Ht).
Qed.

Lemma keeps_take : keeps inv (on_stream (λ c, let '(c', s) := takeCancelReason c in (c', Ok s))).
Proof. intros t Ht. by apply (R_blind _ _ _ _ _ _ _ _ Ht). Qed.

Lemma keeps_cancelled : keeps inv (on_stream (modify set_cancelled) : TM unit).
Proof. by apply keeps_silent, silent_on_stream, quiet_modify. Qed.

Context (send_keeps : ∀ e, allowed e = true → keeps inv (send_event clock e : TM unit)).
Context (inferred_allowed : allowed inferred_event = true).
Context (flush_keeps : keeps inv (flush_merged clock : TM unit)).
Context (drain_chunk_keeps : ∀ c, keeps inv (drain_chunk clock c : TM unit)).

Lemma keeps_flush_ignored : keeps inv (flush_ignored clock : TM unit).
Proof. apply keeps_bind; [by apply keeps_attempt|]. intros _. apply keeps_ret. Qed.

Lemma keeps_drain_event e : allowed e = true → keeps inv (drain_event clock e : TM unit).
Proof.
  intros He. eapply (numbered_event (λ n, observe clock (with_seq n e))); [by apply send_keeps|].
  intros n. by apply keeps_observe, send_keeps.
Qed.

Lemma keeps_on_event e : allowed e = true → keeps inv (on_event clock disk_ok e : TM unit).
Proof.
  intros He. eapply (numbered_event (λ n, observe clock (with_seq n e);; save_local disk_ok));
    [by apply send_keeps|].
  intros n. apply keeps_bind; [by apply keeps_observe, send_keeps|]. intros _. apply keeps_save.
Qed.

Definition dpick_allowed (p : dpick) : bool :=
  match p with DkEvent (Some e) => allowed e | _ => true end.

Lemma keeps_drainOutput picks oc ec :
  forallb dpick_allowed picks = true → keeps inv (drainOutput clock oc ec picks : TM bool).
Proof.
  assert (∀ b : bool, keeps inv (flush_ignored clock;; mret b : TM bool)) as Hend.
  { intros b. apply keeps_bind; [apply keeps_flush_ignored|]. intros _. apply keeps_ret. }
  revert oc ec. induction picks as [|p picks IH]; intros oc ec Hp; simpl in *;
    (destruct (oc && ec); [apply Hend|]); [apply keeps_ret|].
  apply andb_prop in Hp as [Hp Hps].
  destruct p as [o| |[c|]|[e|]]; try by apply IH.
  - apply keeps_bind; [apply keeps_outside|]. intros _. by apply IH.
  - apply keeps_bind; [apply keeps_cancelled|]. intros _. apply Hend.
  - apply keeps_bind; [by apply keeps_attempt|]. intros [u|m]; [by apply IH|apply Hend].
  - apply keeps_bind; [by apply keeps_attempt, keeps_drain_event|]. intros [u|m]; [by apply IH|apply Hend].
Qed.
(** The whole turn keeps an invariant that its remaining steps keep. *)
Context (on_chunk_keeps : ∀ c, keeps inv (on_chunk clock disk_ok c : TM unit)).
Context (deliver_keeps : ∀ r, keeps inv (on_stream (deliverTerminal r) : TM bool)).
Context (stale_allowed : allowed stale_event = true) (started_allowed : ∀ p, allowed (started_event p) = true).

Lemma keeps_clear : keeps inv (on_stream (ClearLocalState disk_ok) : TM unit).
Proof. apply keeps_silent, silent_on_stream, quiet_clear. Qed.

Lemma keeps_clear_if (b : bool) : keeps inv (if b then on_stream (ClearLocalState disk_ok) else mret tt : TM unit).
Proof. destruct b; [apply keeps_clear|apply keeps_ret]. Qed.

Lemma keeps_on_done dpicks raw :
  forallb dpick_allowed dpicks = true → keeps inv (on_done clock disk_ok dpicks raw).
Proof.
  intros Hd. apply keeps_bind; [apply keeps_flush_ignored|]. intros _.
  apply keeps_bind; [by apply keeps_drainOutput|]. intros []; simpl; [|apply keeps_ret].
  apply keeps_bind; [apply keeps_flush_ignored|]. intros _. destruct raw; [|apply keeps_ret].
  apply keeps_bind; [apply keeps_gets|]. intros last.
  apply keeps_bind; [apply keeps_take|]. intros reason. cbv zeta.
  apply keeps_bind; [apply keeps_gets|]. intros i.
  apply keeps_bind; [apply deliver_keeps|]. intros delivered.
  apply keeps_bind; [apply keeps_clear_if|]. intros _. apply keeps_ret.
Qed.

Definition pick_allowed (p : pick) : bool :=
  match p with PkEvent (Some e) => allowed e | _ => true end.

Lemma keeps_turn_loop picks dpicks raw :
  forallb pick_allowed picks = true → forallb dpick_allowed dpicks = true →
  keeps inv (turn_loop clock disk_ok picks dpicks raw).
Proof.
  intros Hp Hd. induction picks as [|p picks IH]; simpl in *; [apply keeps_ret|].
  apply andb_prop in Hp as [Hp Hps]. specialize (IH Hps).
  destruct p as [o| | | | |[e|]|[c|]]; try apply IH.
  - apply keeps_bind; [apply keeps_outside|]. by intros _.
  - apply keeps_bind; [|by intros _]. intros t Ht. unfold modify. destruct (tn_timer t); exact Ht.
  - apply keeps_bind; [apply keeps_cancelled|]. intros _. apply keeps_ret.
  - by apply keeps_on_done.
  - apply keeps_bind; [apply keeps_gets|]. intros []; simpl; [|apply IH].
    apply keeps_bind; [intros t Ht; exact Ht|]. intros _.
    apply keeps_or_abort; [by apply send_keeps|apply IH].
  - apply keeps_or_abort; [by apply keeps_on_event|apply IH].
  - apply keeps_or_abort; [apply on_chunk_keeps|apply IH].
Qed.

Lemma keeps_deferred kind : keeps inv (deferred_terminal disk_ok kind).
Proof.
  assert (∀ r, keeps inv (deliver_deferred disk_ok r)) as Hd.
  { intros r. apply keeps_bind; [by apply keeps_silent, silent_on_stream, quiet_modify|]. intros _.
    apply keeps_bind; [apply keeps_gets|]. intros []; [apply keeps_ret|].
    apply keeps_bind; [apply deliver_keeps|]. intros b. apply keeps_clear_if. }
  apply keeps_bind; [apply keeps_gets|]. intros i.
  destruct kind as [| |r []|]; first [apply Hd|apply keeps_ret].
Qed.

Lemma keeps_run_turn profile picks dpicks raw :
  forallb pick_allowed picks = true → forallb dpick_allowed dpicks = true →
  keeps inv (run_turn clock disk_ok profile picks dpicks raw).
Proof.
  intros Hp Hd. apply keeps_bind; [apply keeps_save|]. intros _.
  apply keeps_bind.
  { apply keeps_or_abort; [by apply send_keeps|]. apply keeps_bind; [apply keeps_save|]. intros _.
    by apply keeps_turn_loop. }
  intros kind. apply keeps_bind; [apply keeps_deferred|]. intros _.
  apply keeps_bind; [intros t Ht; exact Ht|]. intros _. apply keeps_ret.
Qed.
End core_invariants.

(** ** The records of a turn *)

Definition kind_seqs (kind : Z) (l : list Entry) : list Z :=
  en_seq_no <$> filter (λ e, en_kind e = kind) l.

Definition max_seq (l : list Z) : Z := foldl maxSeq 0 l.

Lemma kind_seqs_app k l1 l2 : kind_seqs k (l1 ++ l2) = kind_seqs k l1 ++ kind_seqs k l2.
Proof. unfold kind_seqs. by rewrite filter_app, fmap_app. Qed.

Lemma kind_seqs_one k e : kind_seqs k [e] = if en_kind e =? k then [en_seq_no e] else [].
Proof.
  unfold kind_seqs. rewrite filter_cons, filter_nil. destruct (decide (en_kind e = k)) as [E|E].
  - by rewrite (proj2 (Z.eqb_eq _ _) E).
  - by rewrite (proj2 (Z.eqb_neq _ _) E).
Qed.

Lemma max_seq_snoc l x : max_seq (l ++ [x]) = maxSeq (max_seq l) x.
Proof. unfold max_seq. by rewrite foldl_app. Qed.

(** A record the turn's body appends: its own command's progress or event. *)
Definition body_record (id : string) (e : Entry) : Prop :=
  en_command_id e = id ∧
  ((en_kind e = UPLOAD_ENTRY_KIND_PROGRESS ∧ is_Some (GetProgress e)) ∨
   (en_kind e = UPLOAD_ENTRY_KIND_EVENT ∧ is_Some (GetEvent e))).

(** The event numbers [l] of at most [most] sends: counts of sends from 1 on, in
    increasing order, at 32 bits; below 2^31 sends they are the counts themselves. *)
Definition numbered (most : Z) (l : list Z) : Prop :=
  (∃ ns, l = i32 <$> ns ∧ StronglySorted Z.lt ns ∧ Forall (λ k, 0 < k ≤ most) ns) ∧
  (most < 2^31 → StronglySorted Z.lt l ∧ Forall (λ k, 0 < k ≤ most) l).

(** The invariant of a turn that has made at most [sends] sends and seen [heard]
    from other goroutines: what it has appended since [base] are records of its
    command, the two counters are those of the records and of the sends, and the
    cancel reason is what [heard] left. *)
Definition recorded {K} (id : string) (base bypassed : list Entry) (live : bool) (reason : string)
    (sends : Z) (heard : list outside) (s : core_state K) : Prop :=
  let '(_, r, f, out, byp, ls, _) := s in
  ls_command_id ls = id ∧ byp = bypassed ∧ in_flight f = live ∧ r = reason_after live reason heard ∧
  ∃ new ns n, out = base ++ new ∧ Forall (body_record id) new ∧
    ls_last_seq_sent ls = max_seq (kind_seqs UPLOAD_ENTRY_KIND_PROGRESS new) ∧
    ls_last_event_seq_sent ls = i32 n ∧ 0 ≤ n ≤ sends ∧
    kind_seqs UPLOAD_ENTRY_KIND_EVENT new = i32 <$> ns ∧
    StronglySorted Z.lt ns ∧ Forall (λ k, 0 < k ≤ n) ns.

Lemma numbered_of ns n most : n ≤ most → StronglySorted Z.lt ns → Forall (λ k, 0 < k ≤ n) ns →
  numbered most (i32 <$> ns).
Proof.
  intros Hn Hs Hr. assert (Forall (λ k, 0 < k ≤ most) ns) as Hr'
    by (eapply Forall_impl; [exact Hr|]; simpl; lia).
  split; [by exists ns|]. intros Hm.
  assert (i32 <$> ns = ns) as ->; [|done].
  rewrite <- (list_fmap_id ns) at 2. apply list_fmap_ext. intros i k Hk.
  rewrite Forall_lookup in Hr'. specialize (Hr' i k Hk). simpl in Hr'. apply (i32_small k). unfold in_i32. lia.
Qed.

Lemma i32_succ n : i32 (i32 n + 1) = i32 (n + 1).
Proof.
  unfold i32, wrap_signed. f_equal.
  replace ((n + 2 ^ (32 - 1)) `mod` 2 ^ 32 - 2 ^ (32 - 1) + 1 + 2 ^ (32 - 1))
    with ((n + 2 ^ (32 - 1)) `mod` 2 ^ 32 + 1) by lia.
  rewrite Zplus_mod_idemp_l. f_equal. lia.
Qed.

Section invariants.
Context {K : Type} {env : TurnEnv K} (clock : nat → Z) (disk_ok : nat → bool).
Context (id : string) (base bypassed : list Entry) (live : bool) (reason : string).
Abbreviation TM := (TM (K:=K)).
Abbreviation inv sends heard := (of_core (K:=K) (recorded id base bypassed live reason sends heard)).

(** [costs n m]: [m] sends at most [n] events, whether it fails or not, and lets
    no other goroutine in. *)
Definition costs {A} (n : Z) (m : TM A) : Prop :=
  ∀ sends heard, triple (inv sends heard) m (λ _, inv (sends + n) heard) (inv (sends + n) heard).

Lemma recorded_more sends sends' heard (s : core_state K) : sends ≤ sends' →
  recorded id base bypassed live reason sends heard s → recorded id base bypassed live reason sends' heard s.
Proof.
  destruct s as [[[[[[k r] f] out] byp] ls] m]. intros Hle (Hid & Hb & Hf & Hr & new & ns & n & Ho & Hall & Hl & He & Hn & H).
  split_and!; [done..|]. exists new, ns, n. destruct H as (H1 & H2 & H3). split_and!; try done; lia.
Qed.

Lemma inv_more sends sends' heard t : sends ≤ sends' → inv sends heard t → inv sends' heard t.
Proof. apply recorded_more. Qed.

Lemma costs_more {A} n n' (m : TM A) : costs n m → n ≤ n' → costs n' m.
Proof.
  intros H Hle sends heard. eapply triple_conseq; [apply H|done| |]; intros *; apply inv_more; lia.
Qed.

Lemma costs_bind {A B} n1 n2 (m : TM A) (k : A → TM B) :
  costs n1 m → (∀ a, costs n2 (k a)) → 0 ≤ n2 → costs (n1 + n2) (mbind k m).
Proof.
  intros Hm Hk Hn sends heard. eapply triple_bind.
  - eapply triple_conseq; [apply (Hm sends heard)|done|done|]. intros t. apply inv_more. lia.
  - intros a. rewrite Z.add_assoc. apply Hk.
Qed.

Lemma costs_silent {A} (m : TM A) : silent m → costs 0 m.
Proof. intros H sends heard. rewrite Z.add_0_r. by apply keeps_silent. Qed.

Lemma costs_ret {A} (a : A) : costs 0 (mret a).
Proof. by apply costs_silent. Qed.

Lemma costs_attempt {A} n (m : TM A) : costs n m → costs n (attempt m).
Proof. intros H sends heard. eapply triple_conseq; [apply triple_attempt, H|done| |done]. by intros [a|e] t. Qed.

Lemma costs_send_event e : costs 1 (send_event clock e : TM unit).
Proof.
  intros sends heard t (Hid & Hb & Hfl & Hre & new & ns & n & Ho & Hf & Hl & He & Hn & Hk & Hs & Hr).
  unfold send_event, nextEventSeq, command_id, appendEvent, record, on_stream, gets.
  unfold mbind, M_bind. simpl in *. rewrite Hid, He.
  destruct (append_record _ _) as [k [[]|m]]; unfold of_core, recorded; simpl.
  - split_and!; [done..|].
    set (x := eventEnvelope _ _ _ _). exists (new ++ [x]), (ns ++ [n + 1]), (n + 1).
    rewrite Ho, !kind_seqs_app, !kind_seqs_one, app_assoc. simpl. rewrite app_nil_r, Hk, fmap_app, i32_succ.
    split_and!; try done; try lia.
    + apply Forall_app. split; [done|]. constructor; [|done]. split; [done|]. right. split; [done|]. by eexists.
    + apply StronglySorted_snoc; [done|]. eapply Forall_impl; [exact Hr|]. simpl. lia.
    + apply Forall_app. split; [|repeat constructor; lia]. eapply Forall_impl; [exact Hr|]. simpl. lia.
  - split_and!; [done..|]. exists new, ns, (n + 1). rewrite i32_succ.
    split_and!; try done; try lia. eapply Forall_impl; [exact Hr|]. simpl. lia.
Qed.

(** The pending text is none of the invariant's business. *)
Lemma inv_set_merged sends heard m t : inv sends heard t → inv sends heard (set_merged m t).
Proof. done. Qed.

Lemma costs_flush : costs 1 (flush_merged clock : TM unit).
Proof.
  intros sends heard t H. unfold flush_merged. destruct (negb _); [apply (inv_more sends); [lia|exact H]|].
  destruct (String.eqb _ ""); [apply (inv_more sends); [lia|exact H]|]. by apply costs_send_event, inv_set_merged.
Qed.

Lemma costs_flush_ignored : costs 1 (flush_ignored clock : TM unit).
Proof.
  apply (costs_bind 1 0); [by apply costs_attempt, costs_flush| |done]. intros _. apply costs_ret.
Qed.

Lemma costs_append_merged st s : costs 0 (append_merged st s : TM bool).
Proof.
  intros sends heard t H. rewrite Z.add_0_r. unfold append_merged.
  destruct (merged_append _ _ _) as [m b]. by apply inv_set_merged.
Qed.

Lemma costs_record_chunk c : costs 0 (record_chunk clock c : TM unit).
Proof.
  intros sends heard t (Hid & Hb & Hfl & Hre & new & ns & n & Ho & Hf & Hl & He & Hn & Hk & Hs & Hr). rewrite Z.add_0_r.
  unfold record_chunk, command_id, gets, on_stream, appendProgress. unfold mbind at 1, M_bind. simpl in *.
  assert (∀ stamp (c0 : stream K), st_out c0 = st_out (tn_stream t) → st_bypassed c0 = st_bypassed (tn_stream t) →
    flags c0 = flags (tn_stream t) → st_cancelReason c0 = st_cancelReason (tn_stream t) →
    match (let '(c1, r) := record (progressEnvelope id c stamp) c0 in (set_stream c1 t, r)) with
    | (t', Ok _) => inv sends heard (set_local (with_last_seq (maxSeq (ls_last_seq_sent (tn_state t')) (oc_seq_no c)) (tn_state t')) t')
    | (t', Err _) => inv sends heard t'
    end) as Hrec.
  { intros stamp c0 E1 E2 E3 E4. rewrite <- E3 in Hfl. rewrite <- E4 in Hre. unfold record.
    destruct (append_record _ _) as [k [[]|m]]; unfold of_core, recorded; simpl;
      rewrite E1, E2; (split_and!; [done..|]).
    - set (x := progressEnvelope _ _ _). exists (new ++ [x]), ns, n.
      rewrite Ho, !kind_seqs_app, !kind_seqs_one, app_assoc. simpl.
      rewrite app_nil_r, max_seq_snoc, <-Hl. split_and!; try done; try lia.
      apply Forall_app. split; [done|]. constructor; [|done]. split; [done|]. left. split; [done|]. by eexists.
    - exists new, ns, n. split_and!; try done; lia. }
  rewrite Hid. unfold mbind, M_bind, modify. destruct (oc_timestamp c) as [stamp|].
  - specialize (Hrec stamp (tn_stream t) eq_refl eq_refl eq_refl eq_refl).
    destruct (record _ (tn_stream t)) as [c1 [[]|m]]; exact Hrec.
  - unfold now. specialize (Hrec (clock (st_ticks (tn_stream t)) + st_slept (tn_stream t))
      (tick_stream (tn_stream t)) eq_refl eq_refl eq_refl eq_refl).
    destruct (record _ _) as [c1 [[]|m]]; exact Hrec.
Qed.

(** The flush of a full merge, and the chunk again. *)
Lemma costs_when_full (flush : TM unit) (full : bool) st s : costs 1 flush →
  costs 1 (if full then flush;; _ ← append_merged st s; mret tt else mret tt : TM unit).
Proof.
  intros Hf. destruct full; [|by eapply costs_more; [apply costs_ret|]].
  apply (costs_bind 1 0); [exact Hf| |done]. intros _.
  apply (costs_bind 0 0); [apply costs_append_merged| |done]. intros _. apply costs_ret.
Qed.

Lemma costs_save : costs 0 (save_local disk_ok : TM unit).
Proof. apply costs_silent, silent_save. Qed.

Lemma costs_on_chunk c : costs 1 (on_chunk clock disk_ok c : TM unit).
Proof.
  apply (costs_bind 0 1); [apply costs_record_chunk| |done]. intros _.
  apply (costs_bind 0 1); [apply costs_append_merged| |done]. intros full.
  apply (costs_bind 1 0); [apply costs_when_full, costs_flush|intros _; apply costs_save|done].
Qed.

Lemma costs_drain_chunk c : costs 1 (drain_chunk clock c : TM unit).
Proof.
  apply (costs_bind 0 1); [apply costs_record_chunk| |done]. intros _.
  apply (costs_bind 0 1); [apply costs_append_merged| |done]. intros full. apply costs_when_full, costs_flush_ignored.
Qed.

Lemma costs_observe e : costs 1 (observe clock e : TM unit).
Proof.
  intros sends heard. apply observe_step; [|apply costs_send_event]. intros s. apply recorded_more. lia.
Qed.

Lemma costs_drain_event e : costs 2 (drain_event clock e : TM unit).
Proof.
  intros sends heard. eapply (numbered_event clock (λ n, observe clock (with_seq n e))).
  - eapply triple_conseq; [apply costs_send_event|done|done|]. intros t. apply inv_more. lia.
  - intros n. replace (sends + 2) with (sends + 1 + 1) by lia. apply costs_observe.
Qed.

Lemma costs_on_event e : costs 2 (on_event clock disk_ok e : TM unit).
Proof.
  intros sends heard. eapply (numbered_event clock (λ n, observe clock (with_seq n e);; save_local disk_ok)).
  - eapply triple_conseq; [apply costs_send_event|done|done|]. intros t. apply inv_more. lia.
  - intros n. replace (sends + 2) with (sends + 1 + 1) by lia.
    apply (costs_bind 1 0); [apply costs_observe|intros _; apply costs_save|done].
Qed.

(** What another goroutine does is heard. *)
Lemma heard_outside sends heard o E :
  triple (inv sends heard) (on_stream (modify (do_outside o)) : TM unit) (λ _, inv sends (heard ++ [o])) E.
Proof.
  intros t (Hid & Hb & Hfl & Hre & H). pose proof (core_outside o t) as Hc.
  unfold on_stream, modify in *. simpl in *. unfold of_core. rewrite Hc. unfold recorded.
  split_and!; [done..| |done]. unfold reason_after in *. by rewrite foldl_app, Hfl, Hre.
Qed.
End invariants.

(** ** Operations that cannot fail *)

#[local] Arguments ClearLocalState : simpl never.

Section total.
Context {K : Type} {env : TurnEnv K} (clock : nat → Z) (disk_ok : nat → bool).
Abbreviation TM := (TM (K:=K)).

Definition total {A} (m : TM A) : Prop := ∀ t, ∃ t' a, m t = (t', Ok a).

Lemma total_triple {A} P (m : TM A) Q E E' : total m → triple P m Q E → triple P m Q E'.
Proof. intros Ht H t HP. specialize (H t HP). destruct (Ht t) as (t' & a & E0). by rewrite E0 in *. Qed.

Lemma total_attempt {A} (m : TM A) : total (attempt m).
Proof. intros t. unfold attempt. destruct (m t) as [t' r]. by eexists _, _. Qed.

Lemma total_bind {A B} (m : TM A) (k : A → TM B) : total m → (∀ a, total (k a)) → total (mbind k m).
Proof. intros Hm Hk t. unfold mbind, M_bind. destruct (Hm t) as (t' & a & ->). apply Hk. Qed.

Lemma total_ret {A} (a : A) : total (mret a).
Proof. intros t. by eexists _, _. Qed.

Lemma total_modify f : total (modify f : TM unit).
Proof. intros t. by eexists _, _. Qed.

Lemma total_gets {A} (f : turn K → A) : total (gets f).
Proof. intros t. by eexists _, _. Qed.

Lemma total_on_stream {A} (m : PM (K:=K) A) : (∀ c, ∃ c' a, m c = (c', Ok a)) → total (on_stream m).
Proof. intros H t. unfold on_stream. destruct (H (tn_stream t)) as (c' & a & ->). by eexists _, _. Qed.

Lemma pm_file (k : bool → PM (K:=K) unit) :
  (∀ b c, ∃ c' a, k b c = (c', Ok a)) → ∀ c, ∃ c' a, (ok ← file_op disk_ok; k ok) c = (c', Ok a).
Proof. intros H c. unfold mbind, M_bind, file_op. apply H. Qed.

Lemma pm_clear (c : stream K) : ∃ c' a, ClearLocalState disk_ok c = (c', Ok a).
Proof. revert c. apply pm_file. intros [] c; by eexists _, _. Qed.

Lemma pm_save s (c : stream K) : ∃ c' a, SaveLocalState disk_ok s c = (c', Ok a).
Proof. revert c. apply pm_file. intros [] c; by eexists _, _. Qed.

Lemma total_save : total (save_local disk_ok : TM unit).
Proof. intros t. apply (total_on_stream _ (pm_save (tn_state t)) t). Qed.

Lemma total_flush_ignored : total (flush_ignored clock : TM unit).
Proof. apply total_bind; [apply total_attempt|]. intros _. apply total_ret. Qed.

Lemma total_stream_modify f : total (on_stream (modify f) : TM unit).
Proof. apply total_on_stream. intros c. by eexists _, _. Qed.

Lemma total_drainOutput picks oc ec : total (drainOutput clock oc ec picks : TM bool).
Proof.
  assert (∀ b : bool, total (flush_ignored clock;; mret b : TM bool)) as Hend.
  { intros b. apply total_bind; [apply total_flush_ignored|]. intros _. apply total_ret. }
  revert oc ec. induction picks as [|p picks IH]; intros oc ec; simpl;
    (destruct (oc && ec); [apply Hend|]); [apply total_ret|].
  destruct p as [o| |[c|]|[e|]]; try apply IH.
  - apply total_bind; [apply total_stream_modify|]. intros _. apply IH.
  - apply total_bind; [apply total_stream_modify|]. intros _. apply Hend.
  - apply total_bind; [apply total_attempt|]. intros [u|m]; [apply IH|apply Hend].
  - apply total_bind; [apply total_attempt|]. intros [u|m]; [apply IH|apply Hend].
Qed.

(** A terminal that reached the manager's path: in the log, or by the bypass. *)
Definition settled_by (e : Entry) (out byp out' byp' : list Entry) : Prop :=
  (out' = out ++ [e] ∧ byp' = byp) ∨ (out' = out ∧ byp' = byp ++ [e]).

(** Both ways of delivering [e] failed. *)
Definition refused (e : Entry) : Prop :=
  ∃ (k k' : K) m, (append_record e k).2 = Err m ∧ (bypass_upload e k').2 = false.

Lemma deliver_spec res (c : stream K) :
  ∃ c' b, deliverTerminal res c = (c', Ok b) ∧ st_cancelled c' = st_cancelled c ∧
  if b : bool then settled_by (resultEnvelope res) (st_out c) (st_bypassed c) (st_out c') (st_bypassed c')
  else st_out c' = st_out c ∧ st_bypassed c' = st_bypassed c ∧ refused (resultEnvelope res).
Proof.
  unfold deliverTerminal, attempt, appendResult, record, mbind, M_bind.
  destruct (append_record _ (st_env c)) as [k [[]|m]] eqn:Ea; simpl.
  - eexists _, true. split; [done|]. split; [done|]. by left.
  - destruct (bypass_upload _ k) as [k' []] eqn:Eb; simpl.
    + eexists _, true. split; [done|]. split; [done|]. by right.
    + eexists _, false. split; [done|]. split_and!; try done. exists (st_env c), k, m. by rewrite Ea, Eb.
Qed.
Lemma deliver_deferred_spec res (t : turn K) :
  ∃ t', deliver_deferred disk_ok res t = (t', Ok tt) ∧
    st_cancelled (tn_stream t') = st_cancelled (tn_stream t) ∧
    let out := st_out (tn_stream t) in let byp := st_bypassed (tn_stream t) in
    let out' := st_out (tn_stream t') in let byp' := st_bypassed (tn_stream t') in
    if st_cancelled (tn_stream t) then out' = out ∧ byp' = byp
    else settled_by (resultEnvelope res) out byp out' byp' ∨
      (out' = out ∧ byp' = byp ∧ refused (resultEnvelope res)).
Proof.
  cbv zeta. unfold deliver_deferred, gets, on_stream, modify. unfold mbind, M_bind. simpl.
  destruct (st_cancelled (tn_stream t)) eqn:Ec; simpl; [eexists; by split_and!|].
  destruct (deliver_spec res (add_cancel (tn_stream t))) as (c2 & b & -> & Hc & Hd). simpl in Hc, Hd.
  destruct b; simpl.
  - pose proof (quiet_clear disk_ok c2) as (Q1 & Q2 & _).
    assert (st_cancelled (ClearLocalState disk_ok c2).1 = st_cancelled c2) as Q3.
    { unfold ClearLocalState, mbind, M_bind, file_op. simpl. by destruct (disk_ok _). }
    destruct (pm_clear c2) as (c3 & [] & E3). rewrite E3 in *. simpl in *.
    eexists. split; [done|]. simpl. rewrite Q1, Q2, Q3, Hc. split; [done|]. by left.
  - eexists. split; [done|]. simpl. rewrite Hc. split; [done|]. by right.
Qed.
End total.

(** ** The end of a turn *)

(** What a turn hears from other goroutines: in its loop, and while it drains. *)
Fixpoint heard_in (picks : list pick) : list outside :=
  match picks with
  | PkOutside o :: picks => o :: heard_in picks
  | PkDone :: _ | PkCtxDone :: _ | [] => []
  | _ :: picks => heard_in picks
  end.
Definition heard_draining (dpicks : list dpick) : list outside :=
  omap (λ p, match p with DkOutside o => Some o | _ => None end) dpicks.

(** A drain may stop after [n] picks: both channels were seen closed, the context
    ended, or the append of the last chunk or event failed. *)
Definition may_stop (outputClosed eventClosed : bool) (dpicks : list dpick) (n : nat) : Prop :=
  ((outputClosed = true ∨ DkChunk None ∈ take n dpicks) ∧ (eventClosed = true ∨ DkEvent None ∈ take n dpicks)) ∨
  ∃ i p, n = S i ∧ dpicks !! i = Some p ∧
    match p with DkCtxDone | DkChunk (Some _) | DkEvent (Some _) => True | _ => False end.

(** The cancel reason of a turn whose runtime is done: of all it heard until the
    drain stopped. *)
Definition cancel_cause (live : bool) (reason : string) (picks : list pick) (dpicks : list dpick) (cause : string) : Prop :=
  ∃ n, may_stop false false dpicks n ∧
    cause = reason_after live reason (heard_in picks ++ heard_draining (take n dpicks)).

(** A turn sends at most this many events: one to start, and two for each pick,
    an event with an inferred one or the flushes of the text. *)
Definition most_events (picks : list pick) (dpicks : list dpick) : Z :=
  2 * (1 + Z.of_nat (length picks) + Z.of_nat (length dpicks)).

Lemma may_stop_cons oc ec p dpicks n oc' ec' :
  (oc' = true → oc = true ∨ p = DkChunk None) → (ec' = true → ec = true ∨ p = DkEvent None) →
  may_stop oc' ec' dpicks n → may_stop oc ec (p :: dpicks) (S n).
Proof.
  intros Ho He [[H1 H2]|(i & q & -> & Hq & H)]; [left|right; by exists (S i), q].
  simpl. rewrite !elem_of_cons. split.
  - destruct H1 as [[?| ->]%Ho|?]; auto.
  - destruct H2 as [[?| ->]%He|?]; auto.
Qed.

Section ending.
Context {K : Type} {env : TurnEnv K} (clock : nat → Z) (disk_ok : nat → bool).
Context (id : string) (base bypassed : list Entry) (live : bool) (reason : string).
Abbreviation TM := (TM (K:=K)).
Abbreviation inv sends heard := (of_core (K:=K) (recorded id base bypassed live reason sends heard)).
Abbreviation costs := (costs id base bypassed live reason).
Abbreviation never := (λ _ : turn K, False).

(** A step that cannot fail, of its cost. *)
Lemma triple_step {A B} n (m : TM A) (k : A → TM B) sends heard Q :
  costs n m → total m → (∀ a, triple (inv (sends + n) heard) (k a) Q never) →
  triple (inv sends heard) (mbind k m) Q never.
Proof. intros Hm Ht Hk. eapply triple_bind; [eapply total_triple; [done|apply Hm]|exact Hk]. Qed.

Lemma triple_heard {B} o (k : unit → TM B) sends heard Q :
  (∀ a, triple (inv sends (heard ++ [o])) (k a) Q never) →
  triple (inv sends heard) (mbind k (on_stream (modify (do_outside o)))) Q never.
Proof. intros Hk. eapply triple_bind; [apply heard_outside|exact Hk]. Qed.

Lemma costs_cancelled : costs 0 (on_stream (modify set_cancelled) : TM unit).
Proof. by apply costs_silent, silent_on_stream, quiet_modify. Qed.

(** The drain hears a prefix of its picks, and stops where it may. *)
Definition drained (oc ec : bool) (picks : list dpick) (sends : Z) (heard : list outside) (d : bool) (t : turn K) : Prop :=
  ∃ n, (d = true → may_stop oc ec picks n) ∧
    inv (sends + 2 * Z.of_nat (length picks) + 1) (heard ++ heard_draining (take n picks)) t.

Lemma drained_cons oc ec p picks oc' ec' sends sends' heard heard' d t :
  (oc' = true → oc = true ∨ p = DkChunk None) → (ec' = true → ec = true ∨ p = DkEvent None) →
  sends' ≤ sends + 2 → heard' = heard ++ heard_draining [p] →
  drained oc' ec' picks sends' heard' d t → drained oc ec (p :: picks) sends heard d t.
Proof.
  intros Ho He Hs -> (n & Hn & H). exists (S n). split; [intros Hd; by eapply may_stop_cons, Hn|].
  apply (inv_more _ _ _ _ _ (sends' + 2 * Z.of_nat (length picks) + 1)); [simpl length; lia|].
  assert (heard_draining (take (S n) (p :: picks)) = heard_draining [p] ++ heard_draining (take n picks)) as ->
    by (unfold heard_draining; simpl; by destruct p).
  by rewrite app_assoc.
Qed.

(** The last flush of a drain, after its first [n] picks. *)
Lemma drain_end oc ec picks n sends sends' heard heard' :
  may_stop oc ec picks n → sends' ≤ sends + 2 * Z.of_nat (length picks) →
  heard' = heard ++ heard_draining (take n picks) →
  triple (inv sends' heard') (flush_ignored clock;; mret true : TM bool) (drained oc ec picks sends heard) never.
Proof.
  intros Hm Hs ->. eapply (triple_step 1); [apply costs_flush_ignored|apply total_flush_ignored|].
  intros ?. apply triple_ret. intros t Ht. exists n. split; [done|].
  apply (inv_more _ _ _ _ _ (sends' + 1)); [lia|exact Ht].
Qed.

Lemma drainOutput_end picks oc ec sends heard :
  triple (inv sends heard) (drainOutput clock oc ec picks : TM bool) (drained oc ec picks sends heard) never.
Proof.
  assert (∀ picks oc ec sends heard, oc && ec = true → triple (inv sends heard) (flush_ignored clock;; mret true : TM bool)
    (drained oc ec picks sends heard) never) as Hclosed.
  { intros picks' oc' ec' s h [Ho He]%andb_true_iff. apply (drain_end _ _ _ 0); [left; by split; left|lia|].
    by rewrite take_0, app_nil_r. }
  revert oc ec sends heard. induction picks as [|p picks IH]; intros oc ec sends heard; simpl;
    (destruct (oc && ec) eqn:Eb; [by apply Hclosed|]).
  { apply triple_ret. intros t Ht. exists O. split; [done|]. rewrite app_nil_r.
    apply (inv_more _ _ _ _ _ sends); [simpl; lia|exact Ht]. }
  assert (∀ oc' ec' sends' heard', (oc' = true → oc = true ∨ p = DkChunk None) → (ec' = true → ec = true ∨ p = DkEvent None) →
    sends' ≤ sends + 2 → heard' = heard ++ heard_draining [p] →
    triple (inv sends' heard') (drainOutput clock oc' ec' picks) (drained oc ec (p :: picks) sends heard) never) as Hrest.
  { intros oc' ec' s h Ho He Hs Hh. eapply triple_conseq; [apply IH|done| |done].
    intros d t. by eapply drained_cons. }
  assert (match p with DkCtxDone | DkChunk (Some _) | DkEvent (Some _) => True | _ => False end → ∀ sends', sends' ≤ sends + 2 →
    triple (inv sends' heard) (flush_ignored clock;; mret true : TM bool) (drained oc ec (p :: picks) sends heard) never) as Hstop.
  { intros Hp s Hs. apply (drain_end _ _ _ 1); [right; by exists O, p|simpl length; lia|].
    destruct p as [|?|[]|[]]; try done; by rewrite app_nil_r. }
  destruct p as [o| |[c|]|[e|]].
  - apply triple_heard. intros ?. apply Hrest; auto; lia.
  - eapply (triple_step 0); [apply costs_cancelled|apply total_stream_modify|]. intros ?. apply Hstop; [done|lia].
  - eapply (triple_step 1); [apply costs_attempt, costs_drain_chunk|apply total_attempt|].
    intros [u|m]; [apply Hrest; auto; [lia|by rewrite app_nil_r]|apply Hstop; [done|lia]].
  - apply Hrest; auto; [lia|by rewrite app_nil_r].
  - eapply (triple_step 2); [apply costs_attempt, costs_drain_event|apply total_attempt|].
    intros [u|m]; [apply Hrest; auto; [lia|by rewrite app_nil_r]|apply Hstop; [done|lia]].
  - apply Hrest; auto; [lia|by rewrite app_nil_r].
Qed.

(** [most] bounds the sends of the turn, [cause] is what its cancel reason may be. *)
Context (most : Z) (cause : string → Prop).

(** What the body of a turn appended: records of its command, its events numbered
    in increasing order. *)
Definition body_of (new : list Entry) : Prop :=
  Forall (body_record id) new ∧ numbered most (kind_seqs UPLOAD_ENTRY_KIND_EVENT new).

Definition progress_max (new : list Entry) : Z := max_seq (kind_seqs UPLOAD_ENTRY_KIND_PROGRESS new).

(** The terminal of the runtime's result after the records [new]. *)
Definition finish_of (raw : option Result) (new : list Entry) (r : Result) : Prop :=
  ∃ raw' why, raw = Some raw' ∧ cause why ∧ r = edit_result (progress_max new) why raw'.

(** The state after the loop, by how it ended. *)
Definition loop_end (raw : option Result) (kind : exit_kind) (t : turn K) : Prop :=
  ls_command_id (tn_state t) = id ∧
  ∃ new, body_of new ∧
  match kind with
  | Finished r delivered => finish_of raw new r ∧
      let e := resultEnvelope (result_payload id r) in
      if delivered then settled_by e (base ++ new) bypassed (st_out (tn_stream t)) (st_bypassed (tn_stream t))
      else st_out (tn_stream t) = base ++ new ∧ st_bypassed (tn_stream t) = bypassed ∧ refused (K:=K) e
  | Interrupted => st_cancelled (tn_stream t) = true ∧
      st_out (tn_stream t) = base ++ new ∧ st_bypassed (tn_stream t) = bypassed
  | Aborted | Blocked => st_out (tn_stream t) = base ++ new ∧ st_bypassed (tn_stream t) = bypassed
  end.

Lemma inv_end raw kind sends heard t :
  sends ≤ most → inv sends heard t →
  kind = Aborted ∨ kind = Blocked ∨ (kind = Interrupted ∧ st_cancelled (tn_stream t) = true) →
  loop_end raw kind t.
Proof.
  intros Hm (Hid & Hb & _ & _ & new & ns & n & Ho & Hf & Hl & He & Hn & Hk & Hs & Hr) Hkind. split; [done|].
  exists new. split.
  - split; [done|]. rewrite Hk. apply (numbered_of _ n); [lia|done..].
  - by destruct Hkind as [->|[->|[-> ?]]].
Qed.

Lemma triple_inv_end raw kind sends heard (m : TM exit_kind) E :
  sends ≤ most → (∀ t, m t = (t, Ok kind)) → kind = Aborted ∨ kind = Blocked →
  triple (inv sends heard) m (loop_end raw) E.
Proof. intros Hs Hm Hk t Ht. rewrite Hm. eapply inv_end; [done..|]. tauto. Qed.

(** The terminal of the runtime's result. *)
Lemma deliver_end raw' sends heard : sends ≤ most → cause (reason_after live reason heard) →
  triple (inv sends heard)
    (last ← gets (λ t, ls_last_seq_sent (tn_state t));
     why ← on_stream (λ c, let '(c', s) := takeCancelReason c in (c', Ok s));
     let r := edit_result last why raw' in
     id ← command_id;
     delivered ← on_stream (deliverTerminal (result_payload id r));
     (if (delivered : bool) then on_stream (ClearLocalState disk_ok) else mret tt);;
     mret (Finished r delivered) : TM exit_kind)
    (loop_end (Some raw')) never.
Proof.
  intros Hm Hcause t (Hid & Hb & _ & Hre & new & ns & n & Ho & Hf & Hl & He & Hn & Hk & Hs & Hr).
  unfold gets, command_id, on_stream. unfold mbind, M_bind, takeCancelReason. simpl in *. rewrite Hid.
  set (r := edit_result _ _ raw'). set (c1 := set_reason "" (tn_stream t)).
  destruct (deliver_spec (result_payload id r) c1) as (c2 & b & -> & Hc & Hd).
  assert (finish_of (Some raw') new r) as Hfin.
  { exists raw', (st_cancelReason (tn_stream t)). split; [done|]. split; [by rewrite Hre|].
    unfold progress_max. by rewrite <-Hl. }
  assert (body_of new) as Hbody by (split; [done|]; rewrite Hk; apply (numbered_of _ n); [lia|done..]).
  change (st_out c1) with (st_out (tn_stream t)) in Hd. change (st_bypassed c1) with (st_bypassed (tn_stream t)) in Hd.
  rewrite Ho, Hb in Hd. destruct b; simpl.
  - pose proof (quiet_clear disk_ok c2) as (Q1 & Q2 & _).
    destruct (pm_clear disk_ok c2) as (c3 & u & E3). rewrite E3 in *. simpl in *.
    split; [done|]. exists new. split; [done|]. split; [done|]. simpl. by rewrite Q1, Q2.
  - split; [done|]. exists new. split; [done|]. by split.
Qed.

Lemma on_done_end dpicks raw sends heard :
  sends + 2 * Z.of_nat (length dpicks) + 3 ≤ most →
  (∀ n, may_stop false false dpicks n → cause (reason_after live reason (heard ++ heard_draining (take n dpicks)))) →
  triple (inv sends heard) (on_done clock disk_ok dpicks raw) (loop_end raw) never.
Proof.
  intros Hm Hcause. eapply (triple_step 1); [apply costs_flush_ignored|apply total_flush_ignored|]. intros ?.
  eapply triple_bind; [apply drainOutput_end|]. intros d. apply triple_exists. intros n. apply triple_pure. intros Hn.
  destruct d; simpl; [|eapply triple_inv_end; [|done|by right]; lia]. specialize (Hn eq_refl).
  eapply (triple_step 1); [apply costs_flush_ignored|apply total_flush_ignored|].
  intros ?. destruct raw as [raw'|]; [|eapply triple_inv_end; [|done|by right]; lia].
  apply deliver_end; [lia|by apply Hcause].
Qed.

Lemma triple_or_abort raw n (m : TM unit) k sends heard :
  costs n m → sends + n ≤ most → triple (inv (sends + n) heard) k (loop_end raw) never →
  triple (inv sends heard) (or_abort m k) (loop_end raw) never.
Proof.
  intros Hm Hn Hk. eapply triple_step; [by apply costs_attempt|apply total_attempt|].
  intros [u|e]; [exact Hk|]. by eapply triple_inv_end; [|done|left].
Qed.

Lemma turn_loop_end picks dpicks raw sends heard :
  sends + 2 * Z.of_nat (length picks) + 2 * Z.of_nat (length dpicks) + 1 ≤ most →
  (∀ n, may_stop false false dpicks n →
    cause (reason_after live reason ((heard ++ heard_in picks) ++ heard_draining (take n dpicks)))) →
  triple (inv sends heard) (turn_loop clock disk_ok picks dpicks raw) (loop_end raw) never.
Proof.
  revert sends heard. induction picks as [|p picks IH]; intros sends heard Hm Hc; simpl turn_loop; simpl length in Hm.
  { eapply triple_inv_end; [|done|by right]. lia. }
  assert (heard_in (p :: picks) = heard_in picks → ∀ sends', sends' ≤ sends + 2 →
    triple (inv sends' heard) (turn_loop clock disk_ok picks dpicks raw) (loop_end raw) never) as Hrest.
  { intros E s Hs. apply IH; [lia|]. intros n. specialize (Hc n). by rewrite E in Hc. }
  destruct p as [o| | | | |[e|]|[c|]]; try (apply Hrest; [done|lia]).
  - apply triple_heard. intros ?. apply IH; [lia|]. intros n Hn. specialize (Hc n Hn). simpl in Hc.
    by rewrite <- (app_assoc heard [o]).
  - eapply (triple_step 0); [|apply total_modify|intros ?; apply Hrest; [done|lia]].
    apply costs_silent. intros t. unfold modify. by destruct (tn_timer t).
  - intros t Ht. eapply (inv_end _ _ sends heard); [lia|exact Ht|]. by right; right.
  - apply on_done_end; [lia|]. simpl in Hc. by rewrite app_nil_r in Hc.
  - eapply (triple_step 0); [by apply costs_silent|apply total_gets|]. intros w. destruct w; simpl; [|apply Hrest; [done|lia]].
    eapply (triple_step 0); [by apply costs_silent|apply total_modify|]. intros _.
    eapply (triple_or_abort _ 1); [apply costs_send_event|lia|apply Hrest; [done|lia]].
  - eapply (triple_or_abort _ 2); [apply costs_on_event|lia|apply Hrest; [done|lia]].
  - eapply (triple_or_abort _ 1); [apply costs_on_chunk|lia|apply Hrest; [done|lia]].
Qed.

(** The state after the deferred terminal. *)
Definition turn_end (raw : option Result) (kind : exit_kind) (c : stream K) : Prop :=
  ∃ new, body_of new ∧
  let out := st_out c in let byp := st_bypassed c in
  let unsettled := out = base ++ new ∧ byp = bypassed in
  let offered e := settled_by e (base ++ new) bypassed out byp ∨ (unsettled ∧ refused (K:=K) e) in
  match kind with
  | Finished r _ => finish_of raw new r ∧ offered (resultEnvelope (result_payload id r))
  | Aborted => if st_cancelled c then unsettled else offered (resultEnvelope (outbox_failure id))
  | Interrupted | Blocked => unsettled
  end.

Lemma deferred_end raw kind :
  triple (loop_end raw kind) (deferred_terminal disk_ok kind) (λ _ t, turn_end raw kind (tn_stream t)) never.
Proof.
  intros t (Hid & new & Hbody & Hend).
  assert (deferred_terminal disk_ok kind t = match kind with
    | Finished _ true | Blocked => (t, Ok tt)
    | Finished r false => deliver_deferred disk_ok (result_payload id r) t
    | Aborted | Interrupted => deliver_deferred disk_ok (outbox_failure id) t end) as ->
    by (unfold deferred_terminal, command_id, gets, mbind, M_bind; rewrite Hid; by destruct kind as [| |r []|]).
  pose proof (λ res, deliver_deferred_spec disk_ok res t) as Hdel.
  destruct kind as [| |r delivered|]; simpl.
  - destruct (Hdel (outbox_failure id)) as (t' & -> & Hc & Ho). exists new. split; [done|].
    simpl. rewrite Hc. destruct Hend as [E1 E2]. rewrite E1, E2 in Ho.
    destruct (st_cancelled _); [done|]. destruct Ho as [?|(?&?&?)]; [by left|by right].
  - destruct (Hdel (outbox_failure id)) as (t' & -> & Hc & Ho). exists new. split; [done|].
    simpl. destruct Hend as (E0 & E1 & E2). rewrite E0, E1, E2 in Ho. done.
  - destruct Hend as [Hfin Hend]. destruct delivered.
    + exists new. split; [done|]. split; [done|]. by left.
    + destruct Hend as (E1 & E2 & Href).
      destruct (Hdel (result_payload id r)) as (t' & -> & Hc & Ho). exists new. split; [done|].
      split; [done|]. rewrite E1, E2 in Ho. destruct (st_cancelled _); [by right|].
      destruct Ho as [?|(?&?&?)]; [by left|by right].
  - exists new. split; [done|]. done.
Qed.

Lemma run_turn_end profile picks dpicks raw :
  most_events picks dpicks ≤ most → (∀ why, cancel_cause live reason picks dpicks why → cause why) →
  triple (inv 0 []) (run_turn clock disk_ok profile picks dpicks raw)
    (λ kind t, turn_end raw kind (tn_stream t)) never.
Proof.
  unfold most_events. intros Hm Hc. eapply (triple_step 0); [apply costs_save|apply total_save|]. intros ?.
  eapply triple_bind.
  { eapply (triple_or_abort _ 1); [apply costs_send_event|lia|].
    eapply (triple_step 0); [apply costs_save|apply total_save|]. intros _.
    apply turn_loop_end; [lia|]. intros n Hn. apply Hc. by exists n. }
  intros kind. eapply triple_bind; [apply deferred_end|]. intros ?.
  eapply triple_bind; [by eapply (triple_modify _ (λ t, turn_end raw kind (tn_stream t)))|]. intros ?. by apply triple_ret.
Qed.
End ending.

(** ** Invariants of the sink

    A predicate of the environment, the flags and the histories that an append
    and a bypass keep is kept by a whole turn. *)

Section stream_invariants.
Context {K : Type} {env : TurnEnv K} (clock : nat → Z) (disk_ok : nat → bool).
Context (P : K → flags_state → list Entry → list Entry → Prop).
Context (append_keeps : ∀ e k f out byp, P k f out byp →
  match append_record e k with (k', Ok _) => P k' f (out ++ [e]) byp | (k', Err _) => P k' f out byp end).
Context (bypass_keeps : ∀ e k f out byp, P k f out byp →
  match bypass_upload e k with (k', true) => P k' f out (byp ++ [e]) | (k', false) => P k' f out byp end).

Definition holds_on (c : stream K) : Prop := P (st_env c) (flags c) (st_out c) (st_bypassed c).
Definition stream_inv (s : core_state K) : Prop := let '(k, _, f, out, byp, _, _) := s in P k f out byp.
Abbreviation inv := (of_core stream_inv).

Lemma stream_inv_blind : blind stream_inv.
Proof. by intros k r r' f out byp ls m. Qed.

Lemma holds_record e (c : stream K) : holds_on c → holds_on (record e c).1.
Proof.
  intros H. specialize (append_keeps e _ _ _ _ H). unfold record.
  by destruct (append_record e (st_env c)) as [k [[]|m]].
Qed.

Lemma holds_deliver r (c : stream K) : holds_on c → holds_on (deliverTerminal r c).1.
Proof.
  intros H. unfold deliverTerminal, appendResult, attempt. unfold mbind, M_bind.
  pose proof (holds_record (resultEnvelope r) c H) as Hr.
  destruct (record _ c) as [c' [[]|m]]; simpl in *; [done|].
  specialize (bypass_keeps (resultEnvelope r) _ _ _ _ Hr). by destruct (bypass_upload _ _) as [k []].
Qed.

(** A stream operation that keeps the predicate, in a turn. *)
Lemma keeps_held {A} (m : PM (K:=K) A) :
  (∀ c, holds_on c → holds_on (m c).1) → keeps inv (on_stream m).
Proof.
  intros H t Ht. specialize (H (tn_stream t) Ht). unfold on_stream.
  by destruct (m (tn_stream t)) as [c [a|e]].
Qed.

Lemma keeps_held_record {A} (m : PM (K:=K) A) e (c0 : stream K → stream K) :
  (∀ c, (m c).1 = (record (e c) (c0 c)).1) → (∀ c, holds_on c → holds_on (c0 c)) →
  keeps inv (on_stream m).
Proof. intros E H. apply keeps_held. intros c Hc. rewrite E. by apply holds_record, H. Qed.

Lemma held_send e : keeps inv (send_event clock e : TM unit).
Proof.
  apply keeps_bind; [by intros t Ht|]. intros n. apply keeps_bind; [apply keeps_gets|]. intros i.
  by eapply (keeps_held_record _ (λ c, eventEnvelope i (with_seq n e) (clock (st_ticks c) + st_slept c)
    (clock (S (st_ticks c)) + st_slept c)) (λ c, tick_stream (tick_stream c))).
Qed.

Lemma held_record_chunk c : keeps inv (record_chunk clock c : TM unit).
Proof.
  apply keeps_bind; [apply keeps_gets|]. intros i. apply keeps_bind; [|by intros _ t Ht].
  unfold appendProgress. destruct (oc_timestamp c) as [z|].
  - by eapply (keeps_held_record _ (λ _, progressEnvelope i c z) (λ c, c)).
  - by eapply (keeps_held_record _ (λ s, progressEnvelope i c (clock (st_ticks s) + st_slept s)) tick_stream).
Qed.

Lemma held_append_merged st s : keeps inv (append_merged st s : TM bool).
Proof. intros t H. unfold append_merged. destruct (merged_append _ _ _) as [m b]. exact H. Qed.

Lemma held_flush : keeps inv (flush_merged clock : TM unit).
Proof.
  intros t H. unfold flush_merged. destruct (negb _); [exact H|].
  destruct (String.eqb _ ""); [exact H|]. by apply held_send.
Qed.

Lemma held_on_chunk c : keeps inv (on_chunk clock disk_ok c : TM unit).
Proof.
  apply keeps_bind; [apply held_record_chunk|]. intros _.
  apply keeps_bind; [apply held_append_merged|]. intros full.
  apply keeps_bind; [|intros _; apply keeps_save].
  destruct full; [|apply keeps_ret].
  apply keeps_bind; [apply held_flush|]. intros _.
  apply keeps_bind; [apply held_append_merged|]. intros _. apply keeps_ret.
Qed.

Lemma held_drain_chunk c : keeps inv (drain_chunk clock c : TM unit).
Proof.
  apply keeps_bind; [apply held_record_chunk|]. intros _.
  apply keeps_bind; [apply held_append_merged|]. intros []; [|apply keeps_ret].
  apply keeps_bind; [apply keeps_flush_ignored, held_flush|]. intros _.
  apply keeps_bind; [apply held_append_merged|]. intros _. apply keeps_ret.
Qed.

Lemma all_dpicks picks : forallb (dpick_allowed (λ _, true)) picks = true.
Proof. induction picks as [|[]]; simpl; [done|..]; try done. by destruct e. Qed.

Lemma all_picks picks : forallb (pick_allowed (λ _, true)) picks = true.
Proof. induction picks as [|[]]; simpl; [done|..]; try done. by destruct e. Qed.

Lemma held_run_turn profile picks dpicks raw : keeps inv (run_turn clock disk_ok profile picks dpicks raw).
Proof.
  apply (keeps_run_turn clock disk_ok _ (λ _, true)); auto using stream_inv_blind, held_send, held_flush, held_drain_chunk,
    held_on_chunk, all_picks, all_dpicks.
  intros r. apply keeps_held, holds_deliver.
Qed.

(** A turn keeps the predicate. *)
Lemma held_runCommand id profile x picks dpicks raw (c : stream K) :
  holds_on c → holds_on (tn_stream (runCommand clock disk_ok id profile x picks dpicks raw c).1).
Proof.
  intros H. unfold runCommand, now. set (t0 := new_turn _ _ _ _).
  pose proof (held_run_turn profile picks dpicks raw t0 H) as Hr.
  by destruct (run_turn _ _ _ _ _ _ t0) as [t [kind|e]].
Qed.
End stream_invariants.
