(* ===== verification/Transcript.v ===== *)
(** The transcript of a turn: with a sink that takes every record, the text
    deltas of a turn spell exactly the output it recorded, and its event numbers
    are consecutive.  The properties of runCommand are stated here, on
    [TurnSpec]'s invariants. *)

From Stdlib Require Import Ascii.
From stdpp Require Import base strings numbers sorting list.
From S2P Require Import Prelude Strings Wire Executor Producer Context Turn TurnSpec.
Import Strings.
Local Open Scope Z_scope.

(** Each byte of a text with the stream it belongs to. *)
Definition tagged (stream : string) (s : string) : list (string * ascii) :=
  (λ c, (stream, c)) <$> String.list_ascii_of_string s.

Definition progress_text_of (e : Entry) : list (string * ascii) :=
  match GetProgress e with
  | Some p => tagged (stream_type_name (cp_type p)) (cp_content p)
  | None => []
  end.
Definition progress_text (l : list Entry) : list (string * ascii) := l ≫= progress_text_of.

Definition delta_text_of (e : Entry) : list (string * ascii) :=
  match GetEvent e with
  | Some v => match ce_payload v with Some (EvTextDelta st s) => tagged st s | _ => [] end
  | None => []
  end.
Definition delta_text (l : list Entry) : list (string * ascii) := l ≫= delta_text_of.

Definition pending_text (m : mergedText) : list (string * ascii) :=
  if mt_started m then tagged (stream_type_name (mt_stream_type m)) (mt_builder m) else [].

Definition chunk_text (c : OutputChunk) : list (string * ascii) :=
  tagged (stream_type_name (oc_stream_type c)) (oc_content c).

Definition not_delta (e : Event) : bool := negb (ev_type e =? CommandEventType_TEXT_DELTA).

Lemma tagged_app st a b : tagged st (a +:+ b) = tagged st a ++ tagged st b.
Proof. unfold tagged. by rewrite list_ascii_app, fmap_app. Qed.

Lemma progress_text_snoc l e : progress_text (l ++ [e]) = progress_text l ++ progress_text_of e.
Proof. unfold progress_text. by rewrite bind_app, bind_singleton. Qed.

Lemma delta_text_snoc l e : delta_text (l ++ [e]) = delta_text l ++ delta_text_of e.
Proof. unfold delta_text. by rewrite bind_app, bind_singleton. Qed.

Lemma event_payload_not_delta e :
  not_delta e = true → match event_payload e with Some (EvTextDelta _ _) => False | _ => True end.
Proof.
  unfold not_delta, event_payload. rewrite negb_true_iff. intros ->.
  repeat case_match; simplify_eq; done.
Qed.

(** [transcript base extra]: since [base], what the progress records say is what
    the deltas say, the pending run, and [extra]; events are numbered 1 to n. *)
Definition transcript {K} (id : string) (base : list Entry) (extra : list (string * ascii))
    (s : core_state K) : Prop :=
  let '(_, _, _, out, _, ls, m) := s in
  ls_command_id ls = id ∧ (mt_started m = false → mt_builder m = "") ∧
  ∃ new n, out = base ++ new ∧
    progress_text new = delta_text new ++ pending_text m ++ extra ∧
    ls_last_event_seq_sent ls = i32 n ∧ 0 ≤ n ∧
    kind_seqs UPLOAD_ENTRY_KIND_EVENT new = i32 <$> seqZ 1 n.

Section transcript.
Context {K : Type} {env : TurnEnv K} (clock : nat → Z) (disk_ok : nat → bool).
Context (id : string) (base : list Entry).
(** The sink takes every record. *)
Context (reliable : ∀ e (k : K), ∃ k', append_record e k = (k', Ok tt)).
Abbreviation TM := (TM (K:=K)).
Abbreviation inv := (λ extra, of_core (K:=K) (transcript id base extra)).
Abbreviation never := (λ _ : turn K, False).

Lemma transcript_blind extra : blind (K:=K) (transcript id base extra).
Proof. by intros k r r' f out byp ls m. Qed.

(** Sending one event: its text joins the deltas. *)
Lemma send_transcript e extra text :
  (let text' := match event_payload e with Some (EvTextDelta st s) => tagged st s | _ => [] end in
   text' = text) →
  ∀ t, inv extra (set_merged (tn_merged t) t) → 
  ∀ m', (mt_started m' = false → mt_builder m' = "") → pending_text (tn_merged t) = text ++ pending_text m' →
  ∃ t', send_event clock e (set_merged m' t) = (t', Ok tt) ∧ inv extra t' ∧ tn_merged t' = m'.
Proof.
  cbv zeta. intros Htext t (Hid & Hm & new & n & Ho & Ht & He & Hn & Hk) m' Hm' Hp.
  unfold send_event, nextEventSeq, command_id, appendEvent, record, on_stream, gets.
  unfold mbind, M_bind. simpl in *. rewrite Hid, He.
  destruct (reliable (eventEnvelope id (with_seq (i32 (i32 n + 1)) e) (clock (st_ticks (tn_stream t)) + st_slept (tn_stream t))
    (clock (S (st_ticks (tn_stream t))) + st_slept (tn_stream t))) (st_env (tn_stream t))) as [k ->].
  eexists. split; [done|]. split; [|done]. unfold of_core. simpl. split; [done|]. split; [done|].
  set (x := eventEnvelope _ _ _ _). exists (new ++ [x]), (n + 1).
  rewrite Ho, app_assoc, progress_text_snoc, delta_text_snoc, kind_seqs_app, kind_seqs_one. simpl.
  rewrite Hk, i32_succ, app_nil_r. split_and!; try done; [|lia|].
  - assert (delta_text_of x = text) as -> by (rewrite <-Htext; unfold delta_text_of, x; simpl; by destruct e).
    by rewrite Ht, Hp, <-!app_assoc.
  - rewrite seqZ_app, fmap_app by lia. f_equal. unfold seqZ. simpl. do 2 f_equal. lia.
Qed.

Lemma send_not_delta e extra : not_delta e = true → triple (inv extra) (send_event clock e) (λ _, inv extra) never.
Proof.
  intros He t Ht. pose proof (event_payload_not_delta e He) as Hp.
  assert (mt_started (tn_merged t) = false → mt_builder (tn_merged t) = "") as Hm by apply Ht.
  destruct (send_transcript e extra [] ltac:(cbv zeta; by destruct (event_payload e) as [[]|])
    t Ht (tn_merged t) Hm eq_refl) as (t' & E & H & _).
  replace (set_merged (tn_merged t) t) with t in E by by destruct t. by rewrite E.
Qed.

(** A flush leaves nothing pending. *)
Lemma flush_transcript extra :
  triple (inv extra) (flush_merged clock) (λ _ t, inv extra t ∧ mt_started (tn_merged t) = false) never.
Proof.
  intros t Ht. unfold flush_merged. destruct (mt_started (tn_merged t)) eqn:Es; simpl; [|done].
  destruct (String.eqb (mt_builder (tn_merged t)) "") eqn:Eb.
  - apply String.eqb_eq in Eb. split; [|done]. destruct Ht as (Hid & _ & new & n & Ho & Ht & Hr).
    split; [done|]. split; [done|]. exists new, n. simpl in *. split_and!; try apply Hr; [done|].
    rewrite Ht. unfold pending_text. by rewrite Es, Eb.
  - set (m' := MkMerged "" (mt_stream_type (tn_merged t)) false).
    assert (pending_text (tn_merged t)
      = tagged (stream_type_name (mt_stream_type (tn_merged t))) (mt_builder (tn_merged t)) ++ pending_text m') as Hp
      by (unfold pending_text; rewrite Es; simpl; by rewrite app_nil_r).
    destruct (send_transcript (text_event (tn_merged t)) extra _ eq_refl t Ht m' ltac:(done) Hp)
      as (t' & -> & H & E). split; [done|]. by rewrite E.
Qed.

Lemma flush_keeps extra : triple (inv extra) (flush_merged clock) (λ _, inv extra) never.
Proof. eapply triple_conseq; [apply flush_transcript| | |]; try done. by intros a t [? _]. Qed.

Lemma flush_ignored_transcript extra :
  triple (inv extra) (flush_ignored clock) (λ _ t, inv extra t ∧ mt_started (tn_merged t) = false) never.
Proof.
  eapply triple_bind; [apply triple_attempt, flush_transcript|]. intros [u|e]; [|done]. by apply triple_ret.
Qed.

Lemma flush_ignored_keeps extra : triple (inv extra) (flush_ignored clock) (λ _, inv extra) never.
Proof. eapply triple_conseq; [apply flush_ignored_transcript| | |]; try done. by intros a t [? _]. Qed.

(** The progress record puts the chunk's text in front of the deltas' ... *)
Lemma record_chunk_transcript c : triple (inv []) (record_chunk clock c) (λ _, inv (chunk_text c)) never.
Proof.
  intros t (Hid & Hm & new & n & Ho & Ht & He & Hn & Hk).
  unfold record_chunk, command_id, gets, on_stream, appendProgress. unfold mbind at 1, M_bind. simpl in *.
  assert (∀ stamp (c0 : stream K), st_out c0 = st_out (tn_stream t) →
    ∃ c1, record (progressEnvelope id c stamp) c0 = (c1, Ok tt) ∧
      inv (chunk_text c) (set_local (with_last_seq (maxSeq (ls_last_seq_sent (tn_state t)) (oc_seq_no c)) (tn_state t))
        (set_stream c1 t))) as Hrec.
  { intros stamp c0 E1. unfold record. destruct (reliable (progressEnvelope id c stamp) (st_env c0)) as [k ->].
    eexists. split; [done|]. unfold of_core. simpl. rewrite E1. split; [done|]. split; [done|].
    exists (new ++ [progressEnvelope id c stamp]), n.
    rewrite Ho, app_assoc, progress_text_snoc, delta_text_snoc, kind_seqs_app, kind_seqs_one. simpl.
    rewrite Ht, !app_nil_r. split_and!; try done. by rewrite <-!app_assoc. }
  rewrite Hid. unfold mbind, M_bind, modify. destruct (oc_timestamp c) as [stamp|].
  - destruct (Hrec stamp (tn_stream t) eq_refl) as (c1 & -> & H). exact H.
  - unfold now. destruct (Hrec (clock (st_ticks (tn_stream t)) + st_slept (tn_stream t)) (tick_stream (tn_stream t)) eq_refl) as (c1 & -> & H).
    exact H.
Qed.

(** ... and the merge takes it over. *)
Lemma append_transcript c :
  triple (inv (chunk_text c)) (append_merged (oc_stream_type c) (oc_content c))
    (λ full t, if full : bool then inv (chunk_text c) t else inv [] t) never.
Proof.
  intros t (Hid & Hm & new & n & Ho & Ht & Hr). unfold append_merged, merged_append.
  destruct (mt_started (tn_merged t) && _) eqn:Eb; unfold of_core; simpl;
    (split; [done|]); (split; [done|]); exists new, n; (split_and!; try apply Hr); try done.
  rewrite Ht, app_nil_r. f_equal. unfold pending_text, chunk_text. simpl.
  destruct (mt_started (tn_merged t)) eqn:Es; simpl in *.
  - apply orb_false_iff in Eb as [Eb _]. apply negb_false_iff, Z.eqb_eq in Eb. by rewrite tagged_app, Eb.
  - by rewrite (Hm eq_refl).
Qed.

Lemma append_fresh c :
  triple (λ t, inv (chunk_text c) t ∧ mt_started (tn_merged t) = false)
    (append_merged (oc_stream_type c) (oc_content c)) (λ _, inv []) never.
Proof.
  intros t [Ht Es]. pose proof (append_transcript c t Ht) as H. revert H.
  unfold append_merged, merged_append. by rewrite Es.
Qed.

Lemma save_transcript extra : triple (inv extra) (save_local disk_ok) (λ _, inv extra) never.
Proof. eapply total_triple; [apply total_save|]. apply keeps_silent, silent_save. Qed.

Lemma on_chunk_transcript c : triple (inv []) (on_chunk clock disk_ok c) (λ _, inv []) never.
Proof.
  eapply triple_bind; [apply record_chunk_transcript|]. intros ?.
  eapply triple_bind; [apply append_transcript|]. intros full.
  apply (triple_bind _ _ (λ _, inv [])); [|intros ?; apply save_transcript].
  destruct full; [|by apply triple_ret].
  eapply triple_bind; [apply flush_transcript|]. intros ?.
  eapply triple_bind; [apply append_fresh|]. intros ?. by apply triple_ret.
Qed.

Lemma drain_chunk_transcript c : triple (inv []) (drain_chunk clock c) (λ _, inv []) never.
Proof.
  eapply triple_bind; [apply record_chunk_transcript|]. intros ?.
  eapply triple_bind; [apply append_transcript|]. intros [].
  2:{ by apply triple_ret. }
  eapply triple_bind; [apply flush_ignored_transcript|]. intros ?.
  eapply triple_bind; [apply append_fresh|]. intros ?. by apply triple_ret.
Qed.

Lemma never_keeps {A} (P : turn K → Prop) (m : TM A) : triple P m (λ _, P) never → keeps P m.
Proof. intros H. by eapply triple_conseq; [exact H| | |]. Qed.

Lemma drain_transcript picks oc ec :
  forallb (dpick_allowed not_delta) picks = true →
  triple (inv []) (drainOutput clock oc ec picks) (λ _, inv []) never.
Proof.
  intros Hp. eapply total_triple; [apply total_drainOutput|].
  apply (keeps_drainOutput clock _ not_delta); [apply transcript_blind|..]; try done.
  - intros e He. by apply never_keeps, send_not_delta.
  - apply never_keeps, flush_keeps.
  - intros c. apply never_keeps, drain_chunk_transcript.
Qed.

Lemma event_transcript e : not_delta e = true → keeps (inv []) (on_event clock disk_ok e).
Proof.
  intros He. apply (keeps_on_event clock disk_ok _ not_delta); try done.
  intros e' He'. by apply never_keeps, send_not_delta.
Qed.

(** The records of a finished turn, with its terminal at the end of the log. *)
Definition transcript_end (kind : exit_kind) (t : turn K) : Prop :=
  match kind with
  | Finished r delivered => delivered = true ∧
      ∃ new, st_out (tn_stream t) = base ++ new ++ [resultEnvelope (result_payload id r)] ∧
        progress_text new = delta_text new ∧
        ∃ n, 0 ≤ n ∧ kind_seqs UPLOAD_ENTRY_KIND_EVENT new = i32 <$> seqZ 1 n
  | _ => True
  end.

Lemma triple_trivial kind (P : turn K → Prop) E :
  match kind with Finished _ _ => False | _ => True end →
  triple P (mret kind) transcript_end E.
Proof. intros Hk t Ht. by destruct kind. Qed.

Lemma on_done_transcript dpicks raw :
  forallb (dpick_allowed not_delta) dpicks = true →
  triple (inv []) (on_done clock disk_ok dpicks raw) transcript_end never.
Proof.
  intros Hp. eapply triple_bind.
  { apply flush_ignored_keeps. }
  intros ?. eapply triple_bind; [by apply drain_transcript|].
  intros []; simpl; [|by apply triple_trivial].
  eapply triple_bind; [apply flush_ignored_transcript|]. intros ?.
  destruct raw as [raw|]; [|by apply triple_trivial].
  intros t [(Hid & Hm & new & n & Ho & Ht & He & Hn & Hk) Es].
  unfold gets, command_id, on_stream. unfold mbind, M_bind, takeCancelReason. simpl in *. rewrite Hid.
  set (r := edit_result _ _ raw). unfold deliverTerminal, attempt, appendResult, record.
  unfold mbind, M_bind. simpl.
  destruct (reliable (resultEnvelope (result_payload id r)) (st_env (tn_stream t))) as [k ->]. simpl.
  unfold ClearLocalState, file_op, modify. unfold mbind, M_bind. simpl.
  match goal with |- context [disk_ok ?q] => destruct (disk_ok q) end; simpl; (split; [done|]); exists new; rewrite Ho, <-app_assoc; (split; [done|]);
    unfold pending_text in Ht; rewrite Es, !app_nil_r in Ht; by split; [|exists n].
Qed.

Lemma or_abort_transcript (m : TM unit) k :
  keeps (inv []) m → triple (inv []) k transcript_end never →
  triple (inv []) (or_abort m k) transcript_end never.
Proof.
  intros Hm Hk. eapply triple_bind.
  { eapply total_triple; [apply total_attempt|]. apply keeps_attempt, Hm. }
  intros [u|e]; [exact Hk|]. by apply triple_trivial.
Qed.

Lemma step_transcript {A} (m : TM A) k :
  keeps (inv []) m → total m → (∀ a, triple (inv []) (k a) transcript_end never) →
  triple (inv []) (mbind k m) transcript_end never.
Proof. intros Hm Ht Hk. eapply triple_bind; [by eapply total_triple|exact Hk]. Qed.

Lemma turn_loop_transcript picks dpicks raw :
  forallb (pick_allowed not_delta) picks = true → forallb (dpick_allowed not_delta) dpicks = true →
  triple (inv []) (turn_loop clock disk_ok picks dpicks raw) transcript_end never.
Proof.
  intros Hp Hd. induction picks as [|p picks IH]; simpl in *; [by apply triple_trivial|].
  apply andb_prop in Hp as [Hp Hps]. specialize (IH Hps).
  destruct p as [o| | | | |[e|]|[c|]]; try apply IH.
  - apply step_transcript; [apply keeps_outside, transcript_blind|apply total_stream_modify|done].
  - apply step_transcript; [|apply total_modify|done].
    intros t Ht. unfold modify. destruct (tn_timer t); exact Ht.
  - eapply triple_bind; [by eapply total_triple; [apply total_stream_modify|apply keeps_cancelled]|].
    intros ?. by apply triple_trivial.
  - by apply on_done_transcript.
  - apply step_transcript; [apply keeps_gets|apply total_gets|]. intros []; simpl; [|apply IH].
    apply step_transcript; [intros t Ht; exact Ht|apply total_modify|]. intros _.
    apply or_abort_transcript; [by apply never_keeps, send_not_delta|apply IH].
  - apply or_abort_transcript; [by apply event_transcript|apply IH].
  - apply or_abort_transcript; [apply never_keeps, on_chunk_transcript|apply IH].
Qed.

Lemma deferred_transcript kind :
  triple (transcript_end kind) (deferred_terminal disk_ok kind) (λ _, transcript_end kind) never.
Proof.
  intros t Ht. unfold deferred_terminal, command_id, gets. unfold mbind, M_bind.
  destruct kind as [| |r delivered|]; [| | |done].
  - by destruct (deliver_deferred_spec disk_ok (outbox_failure (ls_command_id (tn_state t))) t) as (t' & -> & _).
  - by destruct (deliver_deferred_spec disk_ok (outbox_failure (ls_command_id (tn_state t))) t) as (t' & -> & _).
  - pose proof Ht as [-> _]. exact Ht.
Qed.

Lemma run_turn_transcript profile picks dpicks raw :
  forallb (pick_allowed not_delta) picks = true → forallb (dpick_allowed not_delta) dpicks = true →
  triple (inv []) (run_turn clock disk_ok profile picks dpicks raw) transcript_end never.
Proof.
  intros Hp Hd. eapply triple_bind; [apply save_transcript|]. intros ?.
  eapply triple_bind.
  { apply or_abort_transcript; [by apply never_keeps, send_not_delta|].
    eapply triple_bind; [apply save_transcript|]. intros ?. by apply turn_loop_transcript. }
  intros kind. eapply triple_bind; [apply deferred_transcript|]. intros ?.
  eapply triple_bind; [by eapply (triple_modify _ (transcript_end kind))|]. intros ?. by apply triple_ret.
Qed.
End transcript.

(** ** Properties of runCommand *)

Section run_command.
Context {K : Type} {env : TurnEnv K} (clock : nat → Z) (disk_ok : nat → bool).

Lemma new_turn_recorded id (c : stream K) started x :
  of_core (recorded id (st_out c) (st_bypassed c) (in_flight (flags c)) (st_cancelReason c) 0 [])
    (new_turn c id started x).
Proof.
  split_and!; [done..|]. exists [], [], 0. rewrite app_nil_r.
  split_and!; try done; try constructor.
Qed.

Lemma new_turn_transcript id (c : stream K) started x :
  of_core (transcript id (st_out c) []) (new_turn c id started x).
Proof.
  split; [done|]. split; [done|]. exists [], 0. rewrite app_nil_r. by split_and!.
Qed.

(** C5: every way a turn can end settles its command as it should, whatever
    the runtime, the sink, the clock, the disk and the other goroutines do.  The
    records of the turn's body are progress and events of this command; the
    numbers of its events are counts of sends, in strictly increasing order, among
    at most two for each pick of the turn's loops, so below 2^31 they increase as
    the 32-bit numbers they are.  A turn that reached the runtime's result has
    offered exactly one terminal record, that result with the largest recorded
    sequence number and, when it failed, with the reason of the last coordinated
    cancel among all that the turn heard before its drain stopped, if any; a turn
    aborted by a failed append has offered the synthetic failure; "offered" is: in
    the log or delivered by the bypass, or both refused it.  An interrupted turn,
    and an aborted one whose context ended, records no terminal. *)
Theorem turn_settles_command id profile x picks dpicks raw (c : stream K) :
  let '(t, kind) := runCommand clock disk_ok id profile x picks dpicks raw c in
  turn_end id (st_out c) (st_bypassed c) (most_events picks dpicks)
    (cancel_cause (in_flight (flags c)) (st_cancelReason c) picks dpicks) raw kind (tn_stream t).
Proof.
  unfold runCommand, now. cbv zeta.
  pose proof (run_turn_end clock disk_ok id (st_out c) (st_bypassed c) (in_flight (flags c)) (st_cancelReason c)
    (most_events picks dpicks) _ profile picks dpicks raw (Z.le_refl _) (λ _ H, H)
    (new_turn (tick_stream c) id ((clock (st_ticks c) + st_slept c) `div` Millisecond) x)
    (new_turn_recorded id (tick_stream c) _ x)) as H.
  by destruct (run_turn _ _ _ _ _ _ _) as [t [kind|e]].
Qed.

(** C11: a finished turn loses no text.  When the sink takes every record and
    the runtime sends no text deltas of its own, the text deltas of the turn
    spell, stream by stream and byte by byte, the output chunks it recorded; its
    events are numbered 1, 2, 3, ...; and its terminal is the last record. *)
Theorem turn_transcript id profile x picks dpicks raw (c : stream K) :
  (∀ e (k : K), ∃ k', append_record e k = (k', Ok tt)) →
  forallb (pick_allowed not_delta) picks = true → forallb (dpick_allowed not_delta) dpicks = true →
  let '(t, kind) := runCommand clock disk_ok id profile x picks dpicks raw c in
  match kind with
  | Finished r delivered => delivered = true ∧
      ∃ new, st_out (tn_stream t) = st_out c ++ new ++ [resultEnvelope (result_payload id r)] ∧
        progress_text new = delta_text new ∧
        ∃ n, 0 ≤ n ∧ kind_seqs UPLOAD_ENTRY_KIND_EVENT new = i32 <$> seqZ 1 n
  | _ => True
  end.
Proof.
  intros Hrel Hp Hd. unfold runCommand, now. cbv zeta.
  pose proof (run_turn_transcript clock disk_ok id (st_out c) Hrel profile picks dpicks raw Hp Hd
    (new_turn (tick_stream c) id ((clock (st_ticks c) + st_slept c) `div` Millisecond) x)
    (new_turn_transcript id (tick_stream c) _ x)) as H.
  by destruct (run_turn _ _ _ _ _ _ _) as [t [kind|e]].
Qed.

(** The edit of a result.  A cancel reason replaces the runtime's message
    of a failed turn only; exit code, duration, summary and payload are the
    runtime's. *)
Lemma edit_result_message last reason r :
  rs_error_message (edit_result last reason r)
    = (if decide (reason ≠ "" ∧ rs_exit_code r ≠ 0) then reason else rs_error_message r) ∧
  rs_exit_code (edit_result last reason r) = rs_exit_code r.
Proof.
  split; [|done]. unfold edit_result. simpl.
  destruct (String.eqb reason "") eqn:E1; [apply String.eqb_eq in E1|apply String.eqb_neq in E1];
  destruct (rs_exit_code r =? 0) eqn:E2; [apply Z.eqb_eq in E2|apply Z.eqb_neq in E2|apply Z.eqb_eq in E2|apply Z.eqb_neq in E2];
  simpl; case_decide; naive_solver.
Qed.
End run_command.

Module TurnDemo.
(** A sink of [n] more records; the bypass works while [up]. *)
Record demo := MkDemo { dm_room : nat; dm_up : bool }.
Definition demo_env : TurnEnv demo := {|
  append_record := λ e k, match dm_room k with
    | O => (k, Err "disk full")
    | S n => (MkDemo n (dm_up k), Ok tt) end;
  bypass_upload := λ e k, (k, dm_up k);
  wait_clear := λ id k, (k, Ok tt)
|}.
(** A sink without bounds. *)
Definition log_env : TurnEnv unit := {|
  append_record := λ e k, (k, Ok tt);
  bypass_upload := λ e k, (k, false);
  wait_clear := λ id k, (k, Ok tt)
|}.

Definition clock (n : nat) : Z := Z.of_nat n * Second.
Definition disk (n : nat) : bool := true.

Definition out_chunk (st seq : Z) (s : string) : OutputChunk := MkChunk st s seq (Some 7).
Definition tool : Event := bare_event CommandEventType_TOOL_CALL_STARTED "tool".
Definition raw_result : Result := MkResultX 1 500 "context canceled" 0 "sum" None false "" 0.

Definition picks : list pick :=
  [ PkChunk (Some (out_chunk CommandOutput_STDOUT 1 "Hello"));
    PkEvent (Some tool);
    PkChunk (Some (out_chunk CommandOutput_STDOUT 3 "world"));
    PkOutside (OCancelInFlight "nothing in flight");
    PkChunk (Some (out_chunk CommandOutput_ASSISTANT 4 "hm"));
    PkDone ].
Definition dpicks : list dpick :=
  [ DkChunk (Some (out_chunk CommandOutput_STDOUT 6 "bye")); DkEvent None; DkChunk None ].

Definition c0 : stream unit := newCommandStream tt.
Definition run0 := runCommand (env:=log_env) clock disk "c1" "" (Some empty_context) picks dpicks (Some raw_result) c0.

(** The records of the run: kinds and sequence numbers. *)
Example run0_records :
  (λ e, (en_kind e, en_seq_no e)) <$> st_out (tn_stream run0.1)
    = [(2, 1); (1, 1); (2, 2); (1, 3); (1, 4); (2, 3); (2, 4); (1, 6); (2, 5); (3, 1)].
Proof. vm_compute. reflexivity. Qed.

Definition r0 : Result := edit_result 6 "" raw_result.

Lemma turn_transcript_witness :
  run0.2 = Finished r0 true ∧
  ∃ new, st_out (tn_stream run0.1) = new ++ [resultEnvelope (result_payload "c1" r0)] ∧
    progress_text new = delta_text new ∧
    ∃ n, 0 ≤ n ∧ kind_seqs UPLOAD_ENTRY_KIND_EVENT new = i32 <$> seqZ 1 n.
Proof.
  assert (run0.2 = Finished r0 true) as E by (vm_compute; reflexivity).
  split; [exact E|].
  assert (forallb (pick_allowed not_delta) picks = true) as Hp by (vm_compute; reflexivity).
  assert (forallb (dpick_allowed not_delta) dpicks = true) as Hd by (vm_compute; reflexivity).
  assert (let '(t, kind) := run0 in
    match kind with
    | Finished r delivered => delivered = true ∧
        ∃ new, st_out (tn_stream t) = st_out c0 ++ new ++ [resultEnvelope (result_payload "c1" r)] ∧
          progress_text new = delta_text new ∧
          ∃ n, 0 ≤ n ∧ kind_seqs UPLOAD_ENTRY_KIND_EVENT new = i32 <$> seqZ 1 n
    | _ => True
    end) as H by exact (turn_transcript (env:=log_env) clock disk "c1" "" (Some empty_context) picks dpicks
      (Some raw_result) c0 (λ e k, ex_intro _ k eq_refl) Hp Hd).
  revert E H. generalize run0. intros [t kind] E H. simpl in E. subst kind. exact (proj2 H).
Defined.

(** A failed turn in flight reports the last cancel it heard, also while it
    drained. *)
Example run2_reports_the_cancel :
  (runCommand (env:=log_env) clock disk "c1" "" None [PkOutside (OCancelInFlight "first"); PkDone]
     [DkOutside (OCancelInFlight "last"); DkEvent None; DkChunk None; DkOutside (OCancelInFlight "late")]
     (Some raw_result) (beginInFlight c0)).2
  = Finished (edit_result 0 "last" raw_result) true.
Proof. vm_compute. reflexivity. Qed.

(** The log is full at the second chunk: the turn is aborted, and its failure
    reaches the manager by the bypass. *)
Definition run1 := runCommand (env:=demo_env) clock disk "c1" "" None picks dpicks (Some raw_result)
  (newCommandStream (MkDemo 3 true)).
Example run1_bypasses :
  run1.2 = Aborted ∧ st_bypassed (tn_stream run1.1) = [resultEnvelope (outbox_failure "c1")] ∧
  length (st_out (tn_stream run1.1)) = 3%nat ∧ st_file (tn_stream run1.1) = None.
Proof. vm_compute. by split_and!. Qed.

(** A failed append while draining does not abort the turn: it reports the
    runtime's result, here a success, with the rest of the output dropped. *)
Definition ok_result : Result := MkResultX 0 500 "" 0 "sum" None false "" 0.
Definition late : list dpick :=
  [ DkChunk (Some (out_chunk CommandOutput_STDOUT 1 "one")); DkChunk (Some (out_chunk CommandOutput_STDOUT 2 "two"));
    DkChunk None; DkEvent None ].
Lemma drain_failure_reports_success :
  let '(t, kind) := runCommand (env:=demo_env) clock disk "c1" "" None [PkDone] late (Some ok_result)
    (newCommandStream (MkDemo 1 true)) in
  kind = Finished (edit_result 0 "" ok_result) true ∧
  progress_text (st_out (tn_stream t)) = [] ∧
  st_bypassed (tn_stream t) = [resultEnvelope (result_payload "c1" (edit_result 0 "" ok_result))].
Proof. vm_compute. by split_and!. Qed.
End TurnDemo.
