(* ===== verification/Drain.v ===== *)
(** The drain sessions of an agent ([backend/agent/client/drain_runner.go],
    [runSession] and [drainLoop]; the retry backoff of [client.go]). *)

From Stdlib Require Import Ascii.
From stdpp Require Import base strings numbers sorting list.
From S2P Require Import Prelude Strings Wire Executor Producer Context Turn TurnSpec.
From S2P Require Facade.
Import Strings.
Local Open Scope Z_scope.

(** The fields of [BeginSessionResponse] a session uses; [team] is its prompt. *)
Record session_args := MkSession {
  sa_command_id : string;
  sa_agent_name : string;
  sa_owner : string;
  sa_team : option string;
  sa_prompt_version : string;
  sa_notice : option PromptReleaseNotice
}.

(** What a session meets: what other goroutines do before its barrier, the
    batch ([None] without a builder), the runtime or its error, and the run of
    the turn. *)
Record session_script := MkScript {
  sc_before : list outside;
  sc_batch : option (res string string);
  sc_runtime : res string unit;
  sc_picks : list pick;
  sc_dpicks : list dpick;
  sc_result : option Result
}.

(** [executor.Request], as far as the turn's prompt goes. *)
Record Request := MkRequest {
  rq_command_id : string;
  rq_turn_prompt : string;
  rq_agent_name : string;
  rq_owner : string;
  rq_team : string;
  rq_reanchor : string
}.

Inductive session_end :=
| EndBarrier
| EndNoRuntime (delivered : bool)
| EndRan (req : Request) (kind : exit_kind)
(** a close of a closed channel *)
| EndPanic.

Section session.
Context {K : Type} {env : TurnEnv K} (clock : nat → Z) (disk_ok : nat → bool).
Context (bundle : string) (build_reanchor : string → string → string → string).
Context (agent_id : string).

Abbreviation PM := (PM (K:=K)).

(** The context state a session starts from: none when the file is unreadable. *)
Definition load_context : PM (option ContextState) :=
  r ← LoadContextState disk_ok;
  mret (match r with
        | Err _ => None
        | Ok None => Some empty_context
        | Ok (Some x) => Some x
        end).

Definition owner_change (owner : string) (x : ContextState) : ContextState :=
  with_owner owner
    (if negb (String.eqb owner "") && negb (String.eqb (cx_owner x) owner)
     then with_reanchor true x else x).

(** The effect of a prompt notice on the context state and on the prompt. *)
Definition notice_context (n : PromptReleaseNotice) (x : ContextState) : ContextState :=
  if String.eqb (Facade.pn_PromptVersion n) "" then x
  else with_reanchor true (with_prompt_version (Facade.pn_PromptVersion n) x).

Definition notice_prompt (n : PromptReleaseNotice) (prompt : string) : string :=
  let msg := TrimSpace (Facade.pn_Message n) in
  if String.eqb msg "" then prompt
  else if String.eqb (TrimSpace prompt) "" then msg
  else msg +:+ blank_line +:+ prompt.

Definition apply_notice (from_manager : option PromptReleaseNotice) (x : option ContextState)
    (prompt : string) : PM (option ContextState * string) := λ c,
  let '(c1, pending) := takePendingPromptNotice c in
  match (match pending with Some n => Some n | None => from_manager end) with
  | None => (c1, Ok (x, prompt))
  | Some n => (ackPromptNotice (Some n) c1, Ok (notice_context n <$> x, notice_prompt n prompt))
  end.

Definition apply_steered (x : option ContextState) : PM (option ContextState) := λ c,
  match x with
  | None => (c, Ok None)
  | Some s =>
      let '(c1, v) := takeSteeredPromptVersion c in
      (c1, Ok (Some (if String.eqb v "" then s else with_prompt_version v s)))
  end.

(** The request of a session, and the context state its decisions leave. *)
Definition prepare (a : session_args) (batch : option (res string string))
    : PM (option ContextState * Request) :=
  x0 ← load_context;
  let x1 := owner_change (sa_owner a) <$> x0 in
  let prompt0 := match batch with Some (Ok b) => b | _ => "" end in
  let prompt1 := appendContextWarning prompt0 x1 in
  '(x2, prompt2) ← apply_notice (sa_notice a) x1 prompt1;
  x3 ← apply_steered x2;
  let '(x4, prompt3) :=
    if negb (String.eqb (sa_prompt_version a) "")
    then applyPromptVersion bundle x3 (sa_prompt_version a) prompt2 else (x3, prompt2) in
  let name := if String.eqb (sa_agent_name a) "" then agent_id else sa_agent_name a in
  let team := default "" (sa_team a) in
  let '(x5, anchor) := reanchorPrompt build_reanchor x4 name (sa_owner a) team in
  mret (x5, MkRequest (sa_command_id a) prompt3 (sa_agent_name a) (sa_owner a) team anchor).

(** The session once its runtime exists, up to its deferred calls. *)
Definition run_with_runtime (req : Request) (x : option ContextState) (sc : session_script) : PM session_end := λ c,
  let c1 := beginInFlight (setCurrentExecutor true c) in
  let '(t, kind) := runCommand clock disk_ok (rq_command_id req) "" x
    (sc_picks sc) (sc_dpicks sc) (sc_result sc) c1 in
  match kind with
  | Blocked => (tn_stream t, Ok (EndRan req Blocked))
  | _ =>
      let '(c2, _) := persistContextState disk_ok (tn_ctx t) (returned kind) (tn_stream t) in
      match endInFlight c2 with
      | None => (c2, Ok EndPanic)
      | Some c3 => (setCurrentExecutor false c3, Ok (EndRan req kind))
      end
  end.

(** The failure record of a session without a runtime. *)
Definition no_runtime_result (id msg : string) : CommandResult := MkResult id (-1) 0 msg (-1) "" None.

Definition session_body (a : session_args) (sc : session_script) : PM session_end :=
  modify (λ c, foldl (λ c o, do_outside o c) c (sc_before sc));;
  barrier ← attempt (waitTurnClear (sa_command_id a));
  match barrier with
  | Err _ => mret EndBarrier
  | Ok _ =>
      '(x, req) ← prepare a (sc_batch sc);
      match sc_runtime sc with
      | Err msg =>
          delivered ← deliverTerminal (no_runtime_result (sa_command_id a) msg);
          persistContextState disk_ok x None;;
          mret (EndNoRuntime delivered)
      | Ok _ => run_with_runtime req x sc
      end
  end.

(** [defer c.setCurrentCommand("")] runs when the session returns. *)
Definition runSession (a : session_args) (sc : session_script) : PM session_end :=
  modify (setCurrentCommand (sa_command_id a));;
  r ← session_body a sc;
  match r with
  | EndRan _ Blocked => mret r
  | _ => modify (setCurrentCommand "");; mret r
  end.

(** ** The drain loop *)

Definition minSessionGap : Z := 1 * Second.
Definition defaultRetryBaseWait : Z := 2 * Second.
Definition defaultRetryMaxWait : Z := 1 * Minute.

(** The wait of ExponentialBackoff, exact in float64 up to the cap. *)
Definition backoff_wait (attempt : nat) : Z :=
  Z.min (defaultRetryBaseWait * 2 ^ Z.of_nat attempt) defaultRetryMaxWait.

(** [LpWait] is the select for a wake, [LpDrain] the inner loop, [LpDone] a
    return and [LpStuck] a session that never returns. *)
Inductive phase := LpWait | LpDrain | LpDone | LpStuck.

Record drain := MkDrain {
  dr_stream : stream K;
  dr_phase : phase;
  dr_last_start : option Z;
  dr_attempt : nat;
  dr_starts : list Z
}.

(** What [beginSession] returns: an error (no token, or the RPC's), idle, or a
    session and what it meets. *)
Inductive begin_resp :=
| BrErr
| BrIdle
| BrSession (a : session_args) (sc : session_script).

(** A step of the loop: what others do, a wake taken, the context's end, one
    iteration of the inner loop. *)
Inductive drain_step :=
| DsOutside (o : outside)
| DsWake
| DsCtxDone
| DsIterate (resp : begin_resp).

(** Sleep on a timer for [d] (nothing when it is not positive). *)
Definition sleep (d : Z) (c : stream K) : stream K := if 0 <? d then add_slept d c else c.

Definition wait_gap (last : option Z) (c : stream K) : stream K :=
  match last with
  | None => c
  | Some start =>
      match now clock c with
      | (c1, Ok z) => if z - start <? minSessionGap then sleep (minSessionGap - (z - start)) c1 else c1
      | (c1, Err _) => c1
      end
  end.

Definition iterate (resp : begin_resp) (d : drain) : drain :=
  let c := wait_gap (dr_last_start d) (dr_stream d) in
  match resp with
  | BrErr =>
      if st_cancelled c then MkDrain c LpDone (dr_last_start d) (dr_attempt d) (dr_starts d)
      else MkDrain (sleep (backoff_wait (dr_attempt d)) c) LpDrain (dr_last_start d)
             (S (dr_attempt d)) (dr_starts d)
  | BrIdle => MkDrain c LpWait (dr_last_start d) 0 (dr_starts d)
  | BrSession a sc =>
      match now clock c with
      | (c1, Ok z) =>
          match runSession a sc c1 with
          | (c2, Ok (EndRan _ Blocked)) | (c2, Ok EndPanic) | (c2, Err _) =>
              MkDrain c2 LpStuck (Some z) 0 (dr_starts d ++ [z])
          | (c2, Ok _) => MkDrain c2 LpDrain (Some z) 0 (dr_starts d ++ [z])
          end
      | (c1, Err _) => MkDrain c1 LpStuck (dr_last_start d) 0 (dr_starts d)
      end
  end.

Definition do_drain (s : drain_step) (d : drain) : drain :=
  match s, dr_phase d with
  | DsOutside o, _ =>
      MkDrain (do_outside o (dr_stream d)) (dr_phase d) (dr_last_start d) (dr_attempt d) (dr_starts d)
  | DsWake, LpWait =>
      if st_wake (dr_stream d)
      then MkDrain (set_wake false (dr_stream d)) LpDrain (dr_last_start d) (dr_attempt d) (dr_starts d)
      else d
  | DsCtxDone, (LpWait | LpDrain) =>
      MkDrain (set_cancelled (dr_stream d)) LpDone (dr_last_start d) (dr_attempt d) (dr_starts d)
  | DsIterate resp, LpDrain => iterate resp d
  | _, _ => d
  end.

Definition drainLoop (steps : list drain_step) (d : drain) : drain := foldl (λ d s, do_drain s d) d steps.

Definition start_drain (c : stream K) : drain := MkDrain c LpWait None 0 [].
End session.
