(* ===== verification/DrainSpec.v ===== *)
(** What a drain session and the drain loop guarantee: every session settles its
    command and leaves the stream idle, sessions keep their distance, and where a
    decision of a session is lost. *)

From Stdlib Require Import Ascii.
From stdpp Require Import base strings numbers sorting list.
From S2P Require Import Prelude Strings Wire Executor Producer Context Turn TurnSpec Transcript Drain.
From S2P Require Facade.
Import Strings.
Local Open Scope Z_scope.

(** Whether the turn is stuck on its runtime. *)
Lemma blocked_dec (kind : exit_kind) :
  kind = Blocked ∨ (kind ≠ Blocked ∧ ∀ (A : Type) (a b : A), match kind with Blocked => a | _ => b end = b).
Proof. destruct kind; try (right; split; done). by left. Qed.

Section session_spec.
Context {K : Type} {env : TurnEnv K} (clock : nat → Z) (disk_ok : nat → bool).
Context (bundle : string) (build_reanchor : string → string → string → string) (agent_id : string).
Abbreviation TM := (TM (K:=K)).
Abbreviation runSession := (runSession clock disk_ok bundle build_reanchor agent_id).
Abbreviation session_body := (session_body clock disk_ok bundle build_reanchor agent_id).
Abbreviation prepare := (prepare disk_ok bundle build_reanchor agent_id).

(** *** The flags through a turn *)

Lemma record_flags e (c : stream K) : flags (record e c).1 = flags c.
Proof. unfold record. by destruct (append_record _ _) as [k [[]|m]]. Qed.

Lemma deliver_flags r (c : stream K) : flags (deliverTerminal r c).1 = flags c.
Proof.
  unfold deliverTerminal, appendResult, attempt. unfold mbind, M_bind.
  pose proof (record_flags (resultEnvelope r) c) as H. destruct (record _ c) as [c' [[]|m]]; simpl in *; [done|].
  by destruct (bypass_upload _ _) as [k []].
Qed.

Lemma runCommand_flags id profile x picks dpicks raw (c : stream K) :
  flags (tn_stream (runCommand clock disk_ok id profile x picks dpicks raw c).1) = flags c.
Proof.
  apply (held_runCommand clock disk_ok (λ _ f _ _, f = flags c)); [| |done].
  - intros e k f out byp Hf. by destruct (append_record e k) as [k' []].
  - intros e k f out byp Hf. by destruct (bypass_upload e k) as [k' []].
Qed.

(** runCommand: the flags stay, the command is settled. *)
Lemma runCommand_spec id profile x picks dpicks raw (c : stream K) t kind :
  runCommand clock disk_ok id profile x picks dpicks raw c = (t, kind) →
  flags (tn_stream t) = flags c ∧
  turn_end id (st_out c) (st_bypassed c) (most_events picks dpicks)
    (cancel_cause (in_flight (flags c)) (st_cancelReason c) picks dpicks) raw kind (tn_stream t).
Proof.
  intros E. split.
  - pose proof (runCommand_flags id profile x picks dpicks raw c) as H. by rewrite E in H.
  - revert E. unfold runCommand, now. cbv zeta.
    pose proof (run_turn_end clock disk_ok id (st_out c) (st_bypassed c) (in_flight (flags c)) (st_cancelReason c)
      (most_events picks dpicks) _ profile picks dpicks raw (Z.le_refl _) (λ _ H, H)
      (new_turn (tick_stream c) id ((clock (st_ticks c) + st_slept c) `div` Millisecond) x)
      (new_turn_recorded id (tick_stream c) _ x)) as H.
    destruct (run_turn _ _ _ _ _ _ _) as [t' [kind'|e]]; [|done]. by intros [= <- <-].
Qed.

(** *** Steps of a session that record nothing *)

(** The histories, the cancellation and the flags of a stream. *)
Definition same_session (c c' : stream K) : Prop :=
  st_out c' = st_out c ∧ st_bypassed c' = st_bypassed c ∧ flags c' = flags c ∧
  st_cancelled c' = st_cancelled c.

#[local] Instance same_session_preorder : PreOrder same_session.
Proof. split; [by intros c|]. intros c1 c2 c3 (?&?&?&?) (?&?&?&?). unfold same_session. split_and!; congruence. Qed.

(** [succeeds m c c' a]: [m] returns [a] in a stream of the same session. *)
Definition calm {A} (m : PM (K:=K) A) : Prop := ∀ c, ∃ c' a, m c = (c', Ok a) ∧ same_session c c'.

Lemma calm_bind {A B} (m : PM (K:=K) A) (k : A → PM (K:=K) B) :
  calm m → (∀ a, calm (k a)) → calm (mbind k m).
Proof.
  intros Hm Hk c. unfold mbind, M_bind. destruct (Hm c) as (c1 & a & -> & H1).
  destruct (Hk a c1) as (c2 & b & -> & H2). exists c2, b. split; [done|]. by transitivity c1.
Qed.

Lemma calm_ret {A} (a : A) : calm (mret a : PM (K:=K) A).
Proof. intros c. by eexists _, _. Qed.

Lemma calm_file (k : bool → PM (K:=K) unit) : (∀ b, calm (k b)) → calm (ok ← file_op disk_ok; k ok).
Proof. intros H. apply calm_bind; [|done]. intros c. by eexists _, _. Qed.

Lemma calm_persist x r : calm (persistContextState disk_ok x r).
Proof.
  unfold persistContextState. destruct x as [x|]; [|apply calm_ret].
  apply calm_file. intros []; intros c; by eexists _, _.
Qed.

Lemma calm_prepare a batch : calm (prepare a batch).
Proof.
  unfold prepare, Drain.prepare. apply calm_bind.
  { apply calm_bind; [|intros r; apply calm_ret]. apply calm_bind; [intros c; by eexists _, _|].
    intros []; intros c; by eexists _, _. }
  intros x0. cbv zeta. apply calm_bind.
  { intros c. unfold apply_notice, takePendingPromptNotice.
    destruct (match st_notice c with Some n => Some n | None => sa_notice a end); by eexists _, _. }
  intros [x2 prompt2]. apply calm_bind.
  { intros c. unfold apply_steered. destruct x2; by eexists _, _. }
  intros x3. destruct (if negb _ then _ else _) as [x4 prompt3].
  destruct (reanchorPrompt _ _ _ _ _) as [x5 anchor]. apply calm_ret.
Qed.

Lemma do_outside_flags o (c : stream K) :
  st_out (do_outside o c) = st_out c ∧ st_bypassed (do_outside o c) = st_bypassed c ∧
  flags (do_outside o c) = flags c.
Proof. destruct (do_outside_out o c) as (?&?&?&?&?). done. Qed.

Lemma outsides_flags os (c : stream K) :
  let c' := foldl (λ c o, do_outside o c) c os in
  st_out c' = st_out c ∧ st_bypassed c' = st_bypassed c ∧ flags c' = flags c.
Proof.
  revert c. induction os as [|o os IH]; intros c; [done|]. simpl.
  destruct (IH (do_outside o c)) as (-> & -> & ->). apply do_outside_flags.
Qed.

(** *** Properties *)

(** A terminal [e] was offered since [out] and [byp]: it is in the log, was
    delivered by the bypass, or both refused it. *)
Definition offered (e : Entry) (out byp : list Entry) (c : stream K) : Prop :=
  settled_by e out byp (st_out c) (st_bypassed c) ∨
  (st_out c = out ∧ st_bypassed c = byp ∧ refused (K:=K) e).

Definition barrier_result (id : string) : CommandResult :=
  MkResult id (-1) 0 "outbox barrier failed before the turn" 0 "" None.

(** An idle stream: no command, no executor, no turn in flight. *)
Definition idle (c : stream K) : Prop :=
  st_current c = "" ∧ st_executor c = false ∧ st_executing c = false ∧ st_inflight c = None.

Lemma deliver_offered res (c : stream K) :
  ∃ c' b, deliverTerminal res c = (c', Ok b) ∧ flags c' = flags c ∧ st_cancelled c' = st_cancelled c ∧
    offered (resultEnvelope res) (st_out c) (st_bypassed c) c'.
Proof.
  destruct (deliver_spec res c) as (c' & b & E & Hc & Hb). exists c', b. split; [done|].
  pose proof (deliver_flags res c) as Hf. rewrite E in Hf. split; [done|]. split; [done|].
  destruct b; [by left|by right].
Qed.

(** What a session's turn leaves: [turn_end] for the picks of its script.  The turn
    begins in flight, without a cancel reason. *)
Definition session_turn (id : string) (sc : session_script) (out byp : list Entry) (kind : exit_kind) (c : stream K) : Prop :=
  turn_end id out byp (most_events (sc_picks sc) (sc_dpicks sc))
    (cancel_cause true "" (sc_picks sc) (sc_dpicks sc)) (sc_result sc) kind c.

(** The barrier: it changes nothing, or it fails the command. *)
Lemma waitTurnClear_spec id (c c' : stream K) r :
  waitTurnClear id c = (c', r) →
  flags c' = flags c ∧ st_cancelled c' = st_cancelled c ∧
  match r with
  | Ok _ => st_out c' = st_out c ∧ st_bypassed c' = st_bypassed c
  | Err _ => if st_cancelled c then st_out c' = st_out c ∧ st_bypassed c' = st_bypassed c
             else offered (resultEnvelope (barrier_result id)) (st_out c) (st_bypassed c) c'
  end.
Proof.
  unfold waitTurnClear. destruct (wait_clear id (st_env c)) as [k [[]|m]]; [by intros [= <- <-]|].
  simpl. destruct (st_cancelled c) eqn:Ec; [by intros [= <- <-]|].
  unfold recordTurnFailure. fold (barrier_result id).
  destruct (deliver_offered (barrier_result id) (set_env k c)) as (c2 & b & -> & Hf & Hc & Ho).
  intros [= <- <-]. simpl in *. split_and!; congruence || done.
Qed.

Lemma turn_end_ext id base byp most cause raw kind (c c' : stream K) :
  st_out c' = st_out c → st_bypassed c' = st_bypassed c → st_cancelled c' = st_cancelled c →
  turn_end id base byp most cause raw kind c → turn_end id base byp most cause raw kind c'.
Proof. intros E1 E2 E3. unfold turn_end. by rewrite E1, E2, E3. Qed.

Lemma run_with_runtime_spec req x sc (c c' : stream K) r :
  st_executing c = false → st_inflight c = None →
  run_with_runtime clock disk_ok req x sc c = (c', r) →
  ∃ kind, r = Ok (EndRan req kind) ∧
    session_turn (rq_command_id req) sc (st_out c) (st_bypassed c) kind c' ∧
    (kind = Blocked ∨ st_executor c' = false ∧ st_executing c' = false ∧ st_inflight c' = None).
Proof.
  intros He Hi. unfold run_with_runtime. set (c1 := beginInFlight (setCurrentExecutor true c)).
  destruct (runCommand _ _ _ _ _ _ _ _ c1) as [t kind] eqn:Er.
  destruct (runCommand_spec _ _ _ _ _ _ _ _ _ Er) as [Hf Hend].
  destruct (blocked_dec kind) as [->|[Hk Em]].
  { intros [= <- <-]. exists Blocked. split; [done|]. split; [exact Hend|by left]. }
  rewrite Em. destruct (calm_persist (tn_ctx t) (returned kind) (tn_stream t)) as (c2 & u & -> & S1 & S2 & S3 & S4).
  rewrite Hf in S3. unfold flags in S3. injection S3 as F1 F2 F3 F4 F5. unfold endInFlight. rewrite F1. simpl.
  rewrite F2. simpl. rewrite lookup_app_r, Nat.sub_diag by done. simpl. intros [= <- <-].
  exists kind. split; [done|]. split; [|by right].
  eapply turn_end_ext; [| | |exact Hend]; done.
Qed.

Lemma prepare_command_id a batch (c c' : stream K) x req :
  prepare a batch c = (c', Ok (x, req)) → rq_command_id req = sa_command_id a.
Proof.
  unfold prepare, Drain.prepare. intros H. apply bind_ok_inv in H as (c1 & x0 & _ & H).
  apply bind_ok_inv in H as (c2 & [x2 p2] & _ & H). apply bind_ok_inv in H as (c3 & x3 & _ & H).
  destruct (if negb _ then _ else _) as [x4 p3]. destruct (reanchorPrompt _ _ _ _ _) as [x5 anchor].
  by injection H as <- <- <-.
Qed.

(** The marks a session sets are cleared. *)
Definition unmarked (c : stream K) : Prop :=
  st_executor c = false ∧ st_executing c = false ∧ st_inflight c = None.

Lemma flags_unmarked (c c' : stream K) : flags c' = flags c → unmarked c → unmarked c'.
Proof. unfold flags, unmarked. intros [= E1 E2 E3 E4 E5]. by rewrite E1, E3, E4. Qed.

Lemma session_body_spec a sc (c c' : stream K) r :
  st_executor c = false → st_executing c = false → st_inflight c = None →
  session_body a sc c = (c', r) →
  ∃ e, r = Ok e ∧
  match e with
  | EndBarrier => unmarked c' ∧
      (if st_cancelled c' then st_out c' = st_out c ∧ st_bypassed c' = st_bypassed c
       else offered (resultEnvelope (barrier_result (sa_command_id a))) (st_out c) (st_bypassed c) c')
  | EndNoRuntime _ => unmarked c' ∧ ∃ msg, sc_runtime sc = Err msg ∧
      offered (resultEnvelope (no_runtime_result (sa_command_id a) msg)) (st_out c) (st_bypassed c) c'
  | EndRan req kind => (kind = Blocked ∨ unmarked c') ∧ rq_command_id req = sa_command_id a ∧
      session_turn (sa_command_id a) sc (st_out c) (st_bypassed c) kind c'
  | EndPanic => False
  end.
Proof.
  intros I2 I3 I4. unfold session_body, Drain.session_body, modify, attempt. unfold mbind, M_bind.
  set (c0 := foldl (λ c o, do_outside o c) c (sc_before sc)).
  destruct (outsides_flags (sc_before sc) c) as (O1 & O2 & O3). fold c0 in O1, O2, O3.
  destruct (waitTurnClear (sa_command_id a) c0) as [c1 rb] eqn:Ew.
  destruct (waitTurnClear_spec _ _ _ _ Ew) as (W1 & W2 & W3).
  assert (unmarked c1) as Hu by (apply (flags_unmarked c); [by rewrite W1, O3|done]).
  destruct rb as [[]|m].
  2:{ intros E; injection E as <- <-. exists EndBarrier. split; [done|]. split; [done|].
      rewrite <-W2, O1, O2 in W3. exact W3. }
  destruct W3 as [W3 W4]. rewrite O1 in W3. rewrite O2 in W4.
  destruct (calm_prepare a (sc_batch sc) c1) as (c2 & [x req] & Ep & P1 & P2 & P3 & P4). rewrite Ep.
  pose proof (prepare_command_id _ _ _ _ _ _ Ep) as Hid.
  pose proof (flags_unmarked _ _ P3 Hu) as Hu2. rewrite W3 in P1. rewrite W4 in P2.
  destruct (sc_runtime sc) as [u|msg] eqn:Er.
  - intros H. destruct (run_with_runtime_spec req x sc c2 c' r ltac:(apply Hu2) ltac:(apply Hu2) H)
      as (kind & -> & Hend & Hk). eexists. split; [done|]. rewrite Hid, P1, P2 in Hend. by split.
  - destruct (deliver_offered (no_runtime_result (sa_command_id a) msg) c2) as (c3 & b & -> & F & _ & Ho).
    destruct (calm_persist x None c3) as (c4 & [] & -> & S1 & S2 & S3 & _). intros E; injection E as <- <-.
    exists (EndNoRuntime b). split; [done|]. split.
    + eapply flags_unmarked; [|exact Hu2]. congruence.
    + exists msg. split; [done|]. unfold offered in *. by rewrite S1, S2, <-P1, <-P2.
Qed.

(** C29: a session always settles the command BeginSession minted for it, and
    leaves the stream idle.  Unless the context ended: when the barrier fails, a
    failure is offered; when no runtime can be built, its error is; when the turn
  runs, it ends as [turn_end] says of its picks, with the reason of a coordinated
    cancel only if it came while the turn was in flight.  Every return path clears the current
    command, the executor and the in-flight mark, and closes the turn's done
    channel exactly once; only a turn blocked on its runtime does not return. *)
Theorem session_settles a sc (c c' : stream K) r :
  idle c → runSession a sc c = (c', r) →
  ∃ e, r = Ok e ∧
  match e with
  | EndBarrier => idle c' ∧
      (if st_cancelled c' then st_out c' = st_out c ∧ st_bypassed c' = st_bypassed c
       else offered (resultEnvelope (barrier_result (sa_command_id a))) (st_out c) (st_bypassed c) c')
  | EndNoRuntime _ => idle c' ∧ ∃ msg, sc_runtime sc = Err msg ∧
      offered (resultEnvelope (no_runtime_result (sa_command_id a) msg)) (st_out c) (st_bypassed c) c'
  | EndRan req kind => (kind = Blocked ∨ idle c') ∧ rq_command_id req = sa_command_id a ∧
      session_turn (sa_command_id a) sc (st_out c) (st_bypassed c) kind c'
  | EndPanic => False
  end.
Proof.
  intros (I1 & I2 & I3 & I4). unfold runSession, Drain.runSession, modify. unfold mbind at 1, M_bind.
  set (c1 := setCurrentCommand (sa_command_id a) c). unfold mbind, M_bind.
  destruct (session_body a sc c1) as [c2 r2] eqn:Eb.
  destruct (session_body_spec a sc c1 c2 r2 I2 I3 I4 Eb) as (e & -> & He).
  destruct e as [|d|req kind|]; [| | |done].
  - intros [= <- <-]. exists EndBarrier. split; [done|]. destruct He as [(?&?&?) He]. by split.
  - intros [= <- <-]. exists (EndNoRuntime d). split; [done|]. destruct He as [(?&?&?) He]. by split.
  - destruct He as (Hidle & Hid & He). destruct (blocked_dec kind) as [->|[Hk Em]].
    + intros [= <- <-]. eexists. split; [done|]. split; [by left|]. by split.
    + destruct Hidle as [|(?&?&?)]; [done|]. rewrite Em. intros [= <- <-]. eexists. split; [done|].
      split; [by right|]. split; [done|]. by eapply turn_end_ext; [..|exact He].
Qed.
End session_spec.
