(* ===== verification/DrainLoop.v ===== *)
(** The drain loop over many sessions: time only moves forward in every
    operation of a session, so that the loop's floor between two sessions holds;
    and runs of a session that lose a control message or a decision. *)

From Stdlib Require Import Ascii.
From stdpp Require Import base strings numbers sorting list.
From S2P Require Import Prelude Strings Wire Executor Producer Context Turn TurnSpec Transcript Drain DrainSpec.
From S2P Require Facade.
Import Strings.
Local Open Scope Z_scope.

(** ** Time moves forward *)

Section ahead.
Context {K : Type}.

(** [c'] is not before [c]: at least as many reads and as much sleep. *)
Definition later (c c' : stream K) : Prop :=
  (st_ticks c ≤ st_ticks c')%nat ∧ st_slept c ≤ st_slept c'.

#[global] Instance later_preorder : PreOrder later.
Proof. split; [by intros c; split|]. intros a b c [??] [??]. split; lia. Qed.

(** [ahead π m]: [m] moves the stream that [π] finds in the state forward. *)
Definition ahead {S A} (π : S → stream K) (m : M S string A) : Prop := ∀ s, later (π s) (π (m s).1).

Lemma ahead_bind {S A B} π (m : M S string A) (k : A → M S string B) :
  ahead π m → (∀ a, ahead π (k a)) → ahead π (mbind k m).
Proof.
  intros Hm Hk s. specialize (Hm s). unfold mbind, M_bind. destruct (m s) as [s' [a|e]]; [|done].
  etrans; [exact Hm|]. apply Hk.
Qed.

Lemma ahead_ret {S A} π (a : A) : ahead (S:=S) π (mret a).
Proof. intros s. by apply reflexivity. Qed.

Lemma ahead_attempt {S A} π (m : M S string A) : ahead π m → ahead π (attempt m).
Proof. intros H s. specialize (H s). unfold attempt. by destruct (m s). Qed.

Lemma ahead_gets {S A} π (f : S → A) : ahead π (gets f).
Proof. intros s. by apply reflexivity. Qed.

Lemma ahead_modify {S} π (f : S → S) : (∀ s, later (π s) (π (f s))) → ahead π (modify f).
Proof. intros H s. apply H. Qed.

Lemma ahead_stream {A} (m : PM (K:=K) A) : ahead (λ c, c) m → ahead tn_stream (on_stream m).
Proof. intros H t. specialize (H (tn_stream t)). unfold on_stream. by destruct (m (tn_stream t)). Qed.
End ahead.

Create HintDb ahead.
#[export] Hint Resolve ahead_bind ahead_ret ahead_attempt ahead_gets ahead_stream : ahead.

(** Take a computation apart, down to the lemmas of the database. *)
Ltac step_ahead :=
  repeat first
    [ solve [auto with ahead nocore]
    | apply ahead_bind; [|intros ?]
    | apply ahead_attempt
    | apply ahead_stream
    | match goal with |- ahead _ (if ?b then _ else _) => destruct b end
    | match goal with |- ahead _ (match ?x with _ => _ end) => destruct x end
    | solve [intros ?; split; simpl; lia] ].

Section operations.
Context {K : Type} {env : TurnEnv K} (clock : nat → Z) (disk_ok : nat → bool).
Context (bundle : string) (build_reanchor : string → string → string → string) (agent_id : string).
Abbreviation TM := (TM (K:=K)).
Abbreviation aheadT := (ahead (K:=K) tn_stream).
Abbreviation aheadP := (ahead (K:=K) (λ c, c)).

Lemma ahead_now : aheadP (now clock).
Proof. intros c. split; simpl; lia. Qed.

Lemma ahead_file : aheadP (file_op disk_ok).
Proof. intros c. split; simpl; lia. Qed.

Lemma ahead_record e : aheadP (record e).
Proof. intros c. unfold record. by destruct (append_record _ _) as [k [[]|m]]. Qed.

#[local] Hint Resolve ahead_now ahead_file ahead_record : ahead.

Lemma ahead_event id e : aheadP (appendEvent clock id e).
Proof. unfold appendEvent. step_ahead. Qed.

Lemma ahead_progress id c : aheadP (appendProgress clock id c).
Proof. unfold appendProgress. step_ahead. Qed.

Lemma ahead_deliver r : aheadP (deliverTerminal r).
Proof.
  unfold deliverTerminal, appendResult. step_ahead. intros c.
  by destruct (bypass_upload _ _) as [k []].
Qed.

Lemma ahead_clear : aheadP (ClearLocalState disk_ok).
Proof. unfold ClearLocalState. step_ahead. Qed.

Lemma ahead_save s : aheadP (SaveLocalState disk_ok s).
Proof. unfold SaveLocalState. step_ahead. Qed.

Lemma later_outside o (c : stream K) : later c (do_outside o c).
Proof.
  destruct o as [steer ctrl|reason|]; simpl; [| |done].
  - destruct ctrl as [[id| |n|]|]; simpl; try done.
    + by destruct (negb _), (st_executor c).
    + destruct (if st_executor c then _ else None) as [[]|]; done.
  - unfold CancelInFlight. destruct (negb _); [done|]. destruct (st_inflight c); [|done].
    simpl. by destruct (st_executor c).
Qed.

Lemma later_outsides os (c : stream K) : later c (foldl (λ c o, do_outside o c) c os).
Proof.
  revert c. induction os as [|o os IH]; intros c; simpl; [done|].
  etrans; [apply later_outside|apply IH].
Qed.

Lemma ahead_outside o : aheadP (modify (do_outside o)).
Proof. apply ahead_modify, later_outside. Qed.

Lemma ahead_nextEventSeq : aheadT nextEventSeq.
Proof. done. Qed.

Lemma ahead_command_id : aheadT command_id.
Proof. done. Qed.

Lemma ahead_upd_ctx f : aheadT (upd_ctx f).
Proof. done. Qed.

#[local] Hint Resolve ahead_event ahead_progress ahead_deliver ahead_clear ahead_save ahead_outside
  ahead_nextEventSeq ahead_command_id ahead_upd_ctx : ahead.

Lemma ahead_send e : aheadT (send_event clock e).
Proof. unfold send_event. step_ahead. Qed.

Lemma ahead_finish : aheadT (finishCompaction clock).
Proof. unfold finishCompaction, stopWatchdog. step_ahead. Qed.

Lemma ahead_infer p u : aheadT (inferCompaction clock p u).
Proof.
  intros t. unfold inferCompaction. destruct (_ || _); [done|]. cbv zeta.
  destruct (_ || _); [done|]. destruct (tn_last_chunk t); [|done]. simpl. split; simpl; lia.
Qed.

#[local] Hint Resolve ahead_send ahead_finish ahead_infer : ahead.

Lemma ahead_run {A} (m : TM A) t : aheadT m → later (tn_stream t) (tn_stream (m t).1).
Proof. intros H. apply H. Qed.

Lemma ahead_observe e : aheadT (observe clock e).
Proof.
  intros t. unfold observe, onCompactionFinished, emitInferredCompaction, startWatchdog.
  destruct (tn_ctx t) as [x|]; [|done].
  repeat (case_match; try done); apply (ahead_run _ t); step_ahead.
Qed.

Lemma ahead_flush : aheadT (flush_merged clock).
Proof.
  intros t. unfold flush_merged. destruct (negb _); [done|]. cbv zeta.
  destruct (String.eqb _ ""); [done|]. apply (ahead_send _ (set_merged _ t)).
Qed.

Lemma ahead_append st s : aheadT (append_merged st s).
Proof. intros t. unfold append_merged. by destruct (merged_append _ _ _). Qed.

Lemma ahead_save_local : aheadT (save_local disk_ok).
Proof. intros t. apply (ahead_stream _ (ahead_save (tn_state t))). Qed.

#[local] Hint Resolve ahead_observe ahead_flush ahead_append ahead_save_local : ahead.

Lemma ahead_flush_ignored : aheadT (flush_ignored clock).
Proof. unfold flush_ignored. step_ahead. Qed.

Lemma ahead_record_chunk c : aheadT (record_chunk clock c).
Proof. unfold record_chunk. step_ahead. Qed.

#[local] Hint Resolve ahead_flush_ignored ahead_record_chunk : ahead.

Lemma ahead_drainOutput oc ec picks : aheadT (drainOutput clock oc ec picks).
Proof.
  revert oc ec. induction picks as [|p picks IH]; intros oc ec; simpl;
    (destruct (oc && ec); [step_ahead|]); [step_ahead|].
  destruct p as [o| |[c|]|[e|]]; unfold drain_chunk, drain_event; step_ahead.
Qed.

Lemma ahead_cancel_reason : aheadP (λ c, let '(c', s) := takeCancelReason c in (c', Ok s)).
Proof. done. Qed.

#[local] Hint Resolve ahead_drainOutput ahead_cancel_reason : ahead.

Lemma ahead_on_done dpicks raw : aheadT (on_done clock disk_ok dpicks raw).
Proof. unfold on_done. step_ahead. Qed.

#[local] Hint Resolve ahead_on_done : ahead.

Lemma ahead_turn_loop picks dpicks raw : aheadT (turn_loop clock disk_ok picks dpicks raw).
Proof.
  induction picks as [|p picks IH]; simpl; [step_ahead|].
  destruct p as [o| | | | |[e|]|[c|]]; unfold or_abort, onWatchdog, on_event, on_chunk; try step_ahead.
  intros t. simpl. by destruct (tn_timer t).
Qed.

#[local] Hint Resolve ahead_turn_loop : ahead.

Lemma ahead_run_turn profile picks dpicks raw : aheadT (run_turn clock disk_ok profile picks dpicks raw).
Proof. unfold run_turn, turn_body, or_abort, deferred_terminal, deliver_deferred, stopWatchdog. step_ahead. Qed.

Lemma ahead_persist x r : aheadP (persistContextState disk_ok x r).
Proof. unfold persistContextState, SaveContextState. step_ahead. Qed.
Lemma ahead_waitTurnClear id : aheadP (waitTurnClear id).
Proof.
  intros c. unfold waitTurnClear. destruct (wait_clear _ _) as [k [[]|m]]; [done|]. simpl.
  destruct (st_cancelled c); [done|].
  apply (ahead_deliver _ (set_env k c)).
Qed.

Lemma ahead_apply_notice n x p : aheadP (apply_notice n x p).
Proof. intros c. unfold apply_notice, takePendingPromptNotice. by destruct (st_notice c), n. Qed.

Lemma ahead_apply_steered x : aheadP (apply_steered x).
Proof. intros c. unfold apply_steered. by destruct x. Qed.

#[local] Hint Resolve ahead_persist ahead_waitTurnClear ahead_apply_notice ahead_apply_steered : ahead.

Lemma ahead_prepare a batch : aheadP (prepare disk_ok bundle build_reanchor agent_id a batch).
Proof.
  unfold prepare, load_context, LoadContextState. cbv zeta. step_ahead.
Qed.

Lemma later_endInFlight (c c' : stream K) : endInFlight c = Some c' → later c c'.
Proof.
  unfold endInFlight. destruct (st_inflight c) as [d|]; [|by intros [= <-]].
  destruct (st_channels c !! d) as [[]|]; [done| |done]. by intros [= <-].
Qed.

Lemma later_runCommand id profile x picks dpicks raw (c : stream K) :
  later c (tn_stream (runCommand clock disk_ok id profile x picks dpicks raw c).1).
Proof.
  unfold runCommand, now. set (t0 := new_turn _ _ _ _).
  pose proof (ahead_run_turn profile picks dpicks raw t0) as H.
  destruct (run_turn _ _ _ _ _ _ t0) as [t r2]. etrans; [|exact H]. split; simpl; lia.
Qed.

Lemma ahead_run_with_runtime req x sc : aheadP (run_with_runtime clock disk_ok req x sc).
Proof.
  intros c. unfold run_with_runtime. set (c1 := beginInFlight _).
  pose proof (later_runCommand (rq_command_id req) "" x (sc_picks sc) (sc_dpicks sc) (sc_result sc) c1) as H.
  destruct (runCommand _ _ _ _ _ _ _ _ c1) as [t kind]. change (later c (tn_stream t)) in H.
  destruct (blocked_dec kind) as [->|[_ ->]]; [exact H|].
  pose proof (ahead_persist (tn_ctx t) (returned kind) (tn_stream t)) as Hp.
  destruct (persistContextState _ _ _ _) as [c2 u]. simpl in Hp. rewrite Hp in H.
  destruct (endInFlight c2) as [c3|] eqn:E; [|exact H]. etrans; [exact H|exact (later_endInFlight _ _ E)].
Qed.

#[local] Hint Resolve ahead_prepare ahead_run_with_runtime : ahead.

Lemma ahead_runSession a sc :
  aheadP (runSession clock disk_ok bundle build_reanchor agent_id a sc).
Proof.
  unfold runSession, session_body. step_ahead. apply ahead_modify. intros c. apply later_outsides.
Qed.
End operations.

(** ** The floor between sessions *)

Section gap.
Context {K : Type} {env : TurnEnv K} (clock : nat → Z) (disk_ok : nat → bool).
Context (bundle : string) (build_reanchor : string → string → string → string) (agent_id : string).
(** The monotonic clock that Go's time.Since reads. *)
Context (monotone : ∀ n, clock n ≤ clock (S n)).

Definition time (c : stream K) : Z := clock (st_ticks c) + st_slept c.

Lemma time_later (c c' : stream K) : later c c' → time c ≤ time c'.
Proof.
  intros [Ht Hs]. unfold time. enough (clock (st_ticks c) ≤ clock (st_ticks c')) by lia.
  induction Ht as [|m Ht IH]; [lia|]. specialize (monotone m). lia.
Qed.

(** The starts so far are apart, the last one is remembered and not after now. *)
Definition gap_inv (d : drain) : Prop :=
  StronglySorted (λ a b, a + minSessionGap ≤ b) (dr_starts d) ∧
  dr_last_start d = list.last (dr_starts d) ∧
  Forall (λ a, a ≤ time (dr_stream (K:=K) d)) (dr_starts d).

Lemma gap_later d (c : stream K) ph n :
  gap_inv d → later (dr_stream d) c → gap_inv (MkDrain c ph (dr_last_start d) n (dr_starts d)).
Proof.
  intros (Hs & Hl & Hf) Hc%time_later. split; [done|]. split; [done|].
  eapply Forall_impl; [exact Hf|]. simpl. lia.
Qed.
Lemma later_sleep d (c : stream K) : later c (sleep d c).
Proof. unfold sleep. destruct (0 <? d) eqn:E; [|done]. apply Z.ltb_lt in E. split; simpl; lia. Qed.

(** The wait before a session reaches the floor. *)
Lemma wait_gap_spec last (c : stream K) :
  later c (wait_gap clock last c) ∧
  match last with Some start => start + minSessionGap ≤ time (wait_gap clock last c) | None => True end.
Proof.
  unfold wait_gap. destruct last as [start|]; [|done]. simpl. pose proof (monotone (st_ticks c)) as Hm.
  destruct (_ <? minSessionGap) eqn:E; [apply Z.ltb_lt in E|apply Z.ltb_ge in E].
  - unfold sleep. destruct (0 <? _) eqn:Ep; [|apply Z.ltb_ge in Ep; lia].
    unfold later, time. simpl. split; [split; lia|lia].
  - unfold later, time. simpl. split; [split; lia|lia].
Qed.

Abbreviation iterate := (iterate clock disk_ok bundle build_reanchor agent_id).
Abbreviation drainLoop := (drainLoop clock disk_ok bundle build_reanchor agent_id).

Lemma gap_iterate resp d : gap_inv d → gap_inv (iterate resp d).
Proof.
  intros Hd. unfold iterate, Drain.iterate.
  destruct (wait_gap_spec (dr_last_start d) (dr_stream d)) as [Hw Hgap].
  destruct resp as [| |a sc].
  - destruct (st_cancelled _); apply gap_later; try done. etrans; [exact Hw|apply later_sleep].
  - by apply gap_later.
  - set (c := wait_gap clock (dr_last_start d) (dr_stream d)) in *.
    simpl. fold (time c). set (c1 := tick_stream c).
    pose proof (ahead_runSession clock disk_ok bundle build_reanchor agent_id a sc c1) as Hr.
    destruct Hd as (Hs & Hl & Hf).
    assert (∀ c2 ph, later c1 c2 → gap_inv (MkDrain c2 ph (Some (time c)) 0 (dr_starts d ++ [time c]))) as Hnext.
    { intros c2 ph H12. assert (later c c2) as Hc2 by (etrans; [|exact H12]; split; simpl; lia).
      split; [|split]; simpl.
      - apply StronglySorted_app_2; [|done|repeat constructor].
        intros x _z Hx ->%list_elem_of_singleton.
        rewrite Hl in Hgap. destruct (list.last (dr_starts d)) as [y|] eqn:Ey.
        + apply last_Some in Ey as [l El]. rewrite El in Hx, Hs. apply elem_of_app in Hx as [Hx|Hx%list_elem_of_singleton].
          * pose proof (StronglySorted_app_1_elem_of _ _ _ x y Hs Hx ltac:(by apply list_elem_of_singleton)) as H. simpl in H.
            unfold minSessionGap, Second in *. lia.
          * by subst.
        + apply last_None in Ey. rewrite Ey in Hx. by apply elem_of_nil in Hx.
      - by rewrite last_snoc.
      - apply Forall_app. split; [|constructor; [|constructor]].
        + eapply Forall_impl; [exact Hf|]. simpl. intros x Hx.
          pose proof (time_later _ _ Hw). pose proof (time_later _ _ Hc2). fold c in H. lia.
        + by apply time_later. }
    destruct (runSession _ _ _ _ _ _ _ c1) as [c2 r2]. simpl in Hr.
    destruct r2 as [[| |req []|]|]; by apply Hnext.
Qed.

Lemma gap_step s d : gap_inv d → gap_inv (do_drain clock disk_ok bundle build_reanchor agent_id s d).
Proof.
  intros Hd. destruct s as [o| | |resp]; simpl.
  - apply gap_later; [done|]. apply later_outside.
  - destruct (dr_phase d); try done. destruct (st_wake _); [|done]. by apply gap_later.
  - destruct (dr_phase d); try done; by apply gap_later.
  - destruct (dr_phase d); try done. by apply gap_iterate.
Qed.

Lemma gap_loop steps d : gap_inv d → gap_inv (drainLoop steps d).
Proof.
  revert d. induction steps as [|s steps IH]; intros d Hd; [done|]. simpl. by apply IH, gap_step.
Qed.

(** The floor between drain sessions is hard.  Whatever wakes, errors,
    cancels and turns happen in between, two sessions of one agent start at least
    [minSessionGap] apart on the monotonic clock, so that two agents cannot wake
    each other in a tight loop. *)
Theorem session_gap steps (c : stream K) :
  StronglySorted (λ a b, a + minSessionGap ≤ b) (dr_starts (drainLoop steps (start_drain c))).
Proof. apply gap_loop. by split_and!; constructor. Qed.
End gap.

(** ** Controls and decisions that a session loses *)

Section lost.
Context {K : Type} {env : TurnEnv K} (clock : nat → Z) (disk_ok : nat → bool).
Context (bundle : string) (build_reanchor : string → string → string → string) (agent_id : string).
Abbreviation runSession := (runSession clock disk_ok bundle build_reanchor agent_id).

Definition with_before (before : list outside) (sc : session_script) : session_script :=
  MkScript before (sc_batch sc) (sc_runtime sc) (sc_picks sc) (sc_dpicks sc) (sc_result sc).

(** A cancel that names the session's own command, handled after the session
    took the command and before its runtime exists (during the barrier, the batch
    or the start of the runtime), changes nothing at all: the session runs as
    without it, and nothing remembers the cancel for the turn. *)
Theorem early_cancel_lost a sc steer before after (c : stream K) :
  st_executor c = false →
  runSession a (with_before (before ++ OControl steer (Some (Facade.CtlCancel (sa_command_id a))) :: after) sc) c
    = runSession a (with_before (before ++ after) sc) c.
Proof.
  intros He. set (cancel := OControl _ _).
  assert (foldl (λ c o, do_outside o c) (setCurrentCommand (sa_command_id a) c) (before ++ cancel :: after)
    = foldl (λ c o, do_outside o c) (setCurrentCommand (sa_command_id a) c) (before ++ after)) as E.
  { rewrite !foldl_app. simpl. f_equal. set (c1 := setCurrentCommand _ c).
    destruct (outsides_flags before c1) as (_ & _ & Hf). set (c2 := foldl _ c1 before) in *.
    unfold flags in Hf. injection Hf as _ _ _ F4 F5. change (handleAgentControl steer (Some (Facade.CtlCancel (sa_command_id a))) c2 = c2).
    simpl. rewrite F5, F4. simpl. by rewrite String.eqb_refl, He. }
  unfold runSession, Drain.runSession, modify. unfold mbind at 1 3, M_bind.
  assert (session_body clock disk_ok bundle build_reanchor agent_id a (with_before (before ++ cancel :: after) sc)
      (setCurrentCommand (sa_command_id a) c)
    = session_body clock disk_ok bundle build_reanchor agent_id a (with_before (before ++ after) sc)
      (setCurrentCommand (sa_command_id a) c)) as Eb.
  { unfold session_body, modify. unfold mbind at 1 4, M_bind. unfold with_before. simpl. by rewrite E. }
  unfold mbind, M_bind. by rewrite Eb.
Qed.

Lemma applyPromptVersion_state x v p :
  ∃ x' p', applyPromptVersion bundle (Some x) v p = (Some x', p') ∧
    cx_owner x' = cx_owner x ∧ (v ≠ "" → cx_prompt_version x' = v).
Proof.
  unfold applyPromptVersion. destruct (String.eqb v "") eqn:Ev; simpl.
  { apply String.eqb_eq in Ev. by eexists _, _. }
  destruct (String.eqb (cx_prompt_version x) v) eqn:Ex; [apply String.eqb_eq in Ex; by eexists _, _|].
  destruct (Cut v dot_char) as [[es dh] f1]. destruct (Cut (cx_prompt_version x) dot_char) as [[ps pd] f2].
  destruct (_ ++ _) eqn:E; (eexists _, _; split; [done|]); destruct (_ || _); by split.
Qed.

Lemma reanchorPrompt_state x name owner team :
  ∃ x' s, reanchorPrompt build_reanchor (Some x) name owner team = (Some x', s) ∧
    cx_needs_reanchor x' = false ∧ cx_owner x' = cx_owner x ∧ cx_prompt_version x' = cx_prompt_version x.
Proof.
  unfold reanchorPrompt. destruct (negb (cx_needs_reanchor x) && _) eqn:E; eexists _, _; split_and!; try done.
  apply andb_prop in E as [E _]. by apply negb_true_iff in E.
Qed.
Lemma apply_notice_spec n x p (c : stream K) :
  ∃ x' p' c', apply_notice n (Some x) p c = (c', Ok (Some x', p')) ∧ cx_owner x' = cx_owner x ∧
    st_notice c' = None ∧
    st_acks c' = st_acks c ++ match st_notice c with Some n => [n] | None => option_list n end.
Proof.
  unfold apply_notice, takePendingPromptNotice.
  destruct (st_notice c) as [m|]; [|destruct n as [m|]]; simpl;
    (eexists _, _, _; split; [done|]); simpl; rewrite ?app_nil_r; split_and!; try done;
    unfold notice_context; by destruct (String.eqb _ _).
Qed.

Lemma apply_steered_spec x (c : stream K) :
  ∃ x' c', apply_steered (Some x) c = (c', Ok (Some x')) ∧ cx_owner x' = cx_owner x ∧
    st_notice c' = st_notice c ∧ st_acks c' = st_acks c.
Proof.
  unfold apply_steered, takeSteeredPromptVersion. eexists _, _. split; [done|].
  split; [|done]. by destruct (String.eqb _ _).
Qed.

Lemma load_context_spec (c : stream K) :
  (∀ n, disk_ok n = true) → ∃ x, load_context disk_ok c = (tick_stream c, Ok (Some x)).
Proof.
  intros Hdisk. unfold load_context, LoadContextState, file_op, gets. unfold mbind, M_bind. simpl.
  rewrite Hdisk. simpl. destruct (st_ctxfile c); eauto.
Qed.

(** The context state a session prepared and the notices it acked. *)
Lemma prepare_decides a batch (c c' : stream K) r :
  (∀ n, disk_ok n = true) → prepare disk_ok bundle build_reanchor agent_id a batch c = (c', r) →
  ∃ x req, r = Ok (Some x, req) ∧ cx_needs_reanchor x = false ∧ cx_owner x = sa_owner a ∧
    (sa_prompt_version a ≠ "" → cx_prompt_version x = sa_prompt_version a) ∧
    st_notice c' = None ∧
    st_acks c' = st_acks c ++ match st_notice c with Some n => [n] | None => option_list (sa_notice a) end.
Proof.
  intros Hdisk. unfold prepare. unfold mbind, M_bind.
  destruct (load_context_spec c Hdisk) as [x ->]. cbv beta iota zeta.
  set (x1 := owner_change (sa_owner a) x). change (owner_change (sa_owner a) <$> Some x) with (Some x1).
  assert (cx_owner x1 = sa_owner a) as Hx1 by done. clearbody x1.
  destruct (apply_notice_spec (sa_notice a) x1 (appendContextWarning (match batch with Some (Ok b) => b | _ => "" end)
    (Some x1)) (tick_stream c)) as (x2 & p2 & c2 & -> & Hx2 & Hn2 & Ha2). cbv beta iota zeta.
  destruct (apply_steered_spec x2 c2) as (x3 & c3 & -> & Hx3 & Hn3 & Ha3). cbv beta iota zeta. rewrite Hx2, Hx1 in Hx3.
  assert (∃ x4 p4, (if negb (String.eqb (sa_prompt_version a) "")
      then applyPromptVersion bundle (Some x3) (sa_prompt_version a) p2 else (Some x3, p2)) = (Some x4, p4) ∧
      cx_owner x4 = sa_owner a ∧ (sa_prompt_version a ≠ "" → cx_prompt_version x4 = sa_prompt_version a))
    as (x4 & p4 & -> & Hx4 & Hv4).
  { destruct (applyPromptVersion_state x3 (sa_prompt_version a) p2) as (x4 & p4 & E & H1 & H2).
    destruct (String.eqb (sa_prompt_version a) "") eqn:Ev; simpl.
    - apply String.eqb_eq in Ev. by exists x3, p2.
    - exists x4, p4. by rewrite H1. }
  destruct (reanchorPrompt_state x4 (if String.eqb (sa_agent_name a) "" then agent_id else sa_agent_name a)
    (sa_owner a) (default "" (sa_team a))) as (x5 & s5 & -> & H1 & H2 & H3).
  intros [= <- <-]. eexists x5, _. split; [done|]. split; [done|].
  rewrite H2, H3, Hn3, Ha3. by split_and!.
Qed.

Lemma deliver_keeps_files res (c : stream K) :
  st_ctxfile (deliverTerminal res c).1 = st_ctxfile c ∧ st_acks (deliverTerminal res c).1 = st_acks c ∧
  st_notice (deliverTerminal res c).1 = st_notice c.
Proof.
  unfold deliverTerminal, attempt, appendResult, record, mbind, M_bind.
  destruct (append_record _ _) as [k [[]|m]]; simpl; [done|]. by destruct (bypass_upload _ k) as [k' []].
Qed.

(** A session whose runtime cannot be built still consumes the decisions it
    made for the prompt that nobody saw: it acks the pending notice, and it saves a
    context state with the re-anchor request cleared, the new owner and the new
    prompt version confirmed, so that the next session of a warm runtime will
    neither re-anchor nor mention the change. *)
Theorem failed_build_consumes_decisions a sc (c c' : stream K) r msg :
  (∀ n, disk_ok n = true) → (∀ id (k : K), ∃ k', wait_clear id k = (k', Ok tt)) →
  sc_before sc = [] → sc_runtime sc = Err msg → runSession a sc c = (c', r) →
  ∃ x, st_ctxfile c' = Some x ∧ cx_needs_reanchor x = false ∧ cx_owner x = sa_owner a ∧
    (sa_prompt_version a ≠ "" → cx_prompt_version x = sa_prompt_version a) ∧
    st_notice c' = None ∧
    st_acks c' = st_acks c ++ match st_notice c with Some n => [n] | None => option_list (sa_notice a) end.
Proof.
  intros Hdisk Hclear Hb Hr. unfold runSession, Drain.runSession, session_body, modify, attempt, waitTurnClear.
  unfold mbind, M_bind. rewrite Hb. simpl. destruct (Hclear (sa_command_id a) (st_env c)) as [k ->].
  set (c1 := set_env k _). destruct (prepare _ _ _ _ _ _ c1) as [c2 rp] eqn:Ep.
  destruct (prepare_decides a (sc_batch sc) c1 c2 rp Hdisk Ep) as (x & req & -> & Hx & Ho & Hv & Hn & Ha).
  rewrite Hr. set (res := no_runtime_result _ _).
  destruct (deliver_keeps_files res c2) as (_ & E2 & E3).
  destruct (deliver_offered res c2) as (c3 & b & E & _). rewrite E in *. simpl in E2, E3.
  unfold persistContextState, SaveContextState, file_op. unfold mbind, M_bind. simpl. rewrite Hdisk. simpl.
  intros [= <- _]. exists x. simpl. rewrite E2, E3, Ha. by split_and!.
Qed.
End lost.

Module DrainDemo.
Import TurnDemo.

Definition no_anchor (name owner team : string) : string := "anchor".
Definition run (a : session_args) (sc : session_script) (c : stream unit) :=
  runSession (env:=log_env) clock disk "v1" no_anchor "agents/a1" a sc c.

Definition args : session_args :=
  MkSession "c1" "Ada" "Owner" None "v2.h" (Some (Facade.MkNotice "k1" "new prompt" "v2.h")).
Definition script : session_script := MkScript [] (Some (Ok "batch")) (Ok tt) picks dpicks (Some raw_result).
Definition broken : session_script := MkScript [] (Some (Ok "batch")) (Err "no runtime") [] [] None.
Definition warm : ContextState :=
  with_owner "Previous" (with_reanchor true (with_prompt_version "v1.h" empty_context)).
Definition warm_stream : stream unit := set_ctxfile (Some warm) (newCommandStream tt).

Definition end_of (r : res string session_end) : option exit_kind :=
  match r with Ok (EndRan _ kind) => Some kind | _ => None end.

(** A full session: it ran to its result, settled c1 and is idle again.  The
    coordinated cancel of [picks] now meets a turn in flight: the failed result
    carries its cause. *)
Lemma session_settles_witness :
  idle warm_stream ∧ end_of (run args script warm_stream).2 = Some (Finished (edit_result 6 "nothing in flight" raw_result) true) ∧
  idle (run args script warm_stream).1.
Proof.
  assert (idle warm_stream) as Hi by by split_and!.
  assert (end_of (run args script warm_stream).2 = Some (Finished (edit_result 6 "nothing in flight" raw_result) true)) as E
    by (vm_compute; reflexivity).
  split; [exact Hi|]. split; [exact E|].
  pose proof (session_settles (env:=log_env) clock disk "v1" no_anchor "agents/a1" args script warm_stream
    (run args script warm_stream).1 (run args script warm_stream).2 Hi (surjective_pairing _)) as (e & Er & He).
  rewrite Er in E. destruct e as [| |req kind|]; try discriminate E. simpl in E. injection E as ->.
  destruct He as [[He|He] _]; [discriminate He|exact He].
Defined.

(** Two sessions of a drain pass, at least a second apart. *)
Definition steps : list drain_step :=
  [ DsOutside (OControl (λ _, None) (Some (Facade.CtlWake [] [] "")));
    DsWake; DsIterate (BrSession args broken); DsIterate BrErr; DsIterate (BrSession args script); DsIterate BrIdle ].
(** A clock that stands still. *)
Definition frozen (n : nat) : Z := 5.
Definition loop (c : stream unit) := drainLoop (env:=log_env) frozen disk "v1" no_anchor "agents/a1" steps (start_drain c).

Lemma session_gap_witness :
  (∀ n, frozen n ≤ frozen (S n)) ∧ dr_starts (loop warm_stream) = [5; 3 * Second + 5] ∧
  StronglySorted (λ a b, a + minSessionGap ≤ b) (dr_starts (loop warm_stream)).
Proof.
  assert (∀ n, frozen n ≤ frozen (S n)) as Hm by (intros; reflexivity).
  split; [exact Hm|]. split; [vm_compute; reflexivity|].
  exact (session_gap (env:=log_env) frozen disk "v1" no_anchor "agents/a1" Hm steps warm_stream).
Defined.

(** The user cancels c1 while its batch is built; the session reports success. *)
Definition cancel : outside := OControl (λ _, None) (Some (Facade.CtlCancel "c1")).
Definition succeeding : session_script := MkScript [] None (Ok tt) [PkDone] [DkChunk None; DkEvent None] (Some ok_result).
Lemma early_cancel_lost_witness :
  st_executor warm_stream = false ∧
  run args (with_before [cancel] succeeding) warm_stream = run args (with_before [] succeeding) warm_stream ∧
  end_of (run args (with_before [cancel] succeeding) warm_stream).2 = Some (Finished (edit_result 0 "" ok_result) true) ∧
  st_cancels (run args (with_before [cancel] succeeding) warm_stream).1 = 0%nat.
Proof.
  assert (st_executor warm_stream = false) as Hx by reflexivity. split; [exact Hx|]. split.
  - exact (early_cancel_lost (env:=log_env) clock disk "v1" no_anchor "agents/a1" args succeeding (λ _, None) [] []
      warm_stream Hx).
  - split; vm_compute; reflexivity.
Defined.

(** The warm context asked for a re-anchor; after a failed build it no longer does. *)
Lemma failed_build_consumes_decisions_witness :
  cx_needs_reanchor warm = true ∧
  ∃ x, st_ctxfile (run args broken warm_stream).1 = Some x ∧ cx_needs_reanchor x = false ∧
    cx_owner x = "Owner" ∧ cx_prompt_version x = "v2.h" ∧
    length (st_acks (run args broken warm_stream).1) = 1%nat.
Proof.
  split; [reflexivity|].
  destruct (failed_build_consumes_decisions (env:=log_env) clock disk "v1" no_anchor "agents/a1" args broken warm_stream
    (run args broken warm_stream).1 (run args broken warm_stream).2 "no runtime" (λ _, eq_refl)
    (λ _ k, ex_intro _ k eq_refl) eq_refl eq_refl (surjective_pairing _)) as (x & H1 & H2 & H3 & H4 & _ & H6).
  exists x. split; [exact H1|]. split; [exact H2|]. split; [exact H3|]. split; [apply H4; discriminate|].
  rewrite H6. reflexivity.
Defined.
End DrainDemo.
