(* ===== verification/Wired.v ===== *)
(** The world of a turn, wired ([backend/agent/client/runner.go], [start],
    [wireOutbox], [closeOutbox]; [outboxSink] of [command_outbox.go]): the outbox
    and the uploader of this library as an instance of [TurnEnv], the uploader's
    loop as cycles between the calls of the turn, and the durability of what a turn
    records, from the turn to the manager's answers. *)

From stdpp Require Import base strings numbers gmap sets list.
From S2P Require Import Prelude Wire Wal Outbox Uploader Executor.
From S2P Require Import Producer Context Turn TurnSpec Transcript.
Local Open Scope Z_scope.

Section wired.
Context {C : Codec} {W H : Type} {ops : WalOps bytes W H}.
Context {E : Type} (upload : E → list Entry → E * res string UploadResponse).

(** ** runner.go: the start and the end of a runner *)

(** What wireOutbox leaves: an uploader over an open outbox, or a sink without
    one ([outboxSink{}], a nil uploader). *)
Definition wireOutbox (w : W) (env : E) (steps : nat) : W * option (uploader W H E) :=
  match Open w with
  | (w', Err _) => (w', None)
  | (w', Ok ob) =>
      (w', Some (SynthesizeInterruptedTerminals steps "machine restarted mid-turn" (NewUploader ob env)).1)
  end.

(** The first cycle of the uploader's goroutine; [None] is the panic of a method
    that reads a field of a nil receiver. *)
Definition start_uploader (now : Z) (u : option (uploader W H E)) : option (uploader W H E) :=
  match u with
  | None => None
  | Some u => Some (uploadCycle upload now u).1
  end.

(** closeOutbox after the loops exited: [ws] and [nows] are the drain's window. *)
Definition closeOutbox (steps : nat) (cause : string) (ws : list ((uploader W H E → uploader W H E) * bool))
    (nows : list Z) (u : option (uploader W H E)) : option (uploader W H E) :=
  match u with
  | None => None
  | Some u =>
      let u1 := match SynthesizeInterruptedTerminals steps cause u with
        | (u1, Err _) => u1
        | (u1, Ok _) => (Drain upload ws nows u1).1
        end in
      let u2 := (on_ob Outbox.Flush u1).1 in
      Some (on_ob Outbox.Close u2).1
  end.

(** ** The environment of a turn

    [lk_bg] are the uploader's cycles before each coming call of the turn, by the
    time they run at; [lk_waits] the same for the sleeps of each coming barrier.
    [lk_answers] and [lk_faults] are histories of the calls of a turn (the barrier
    before it keeps none): the batches the manager answered, and whether an outbox
    operation failed or the retention cap was reached. *)
Record link := MkLink {
  lk_up : option (uploader W H E);
  lk_bg : list (list Z);
  lk_waits : list (list (list Z * wakeup));
  lk_answers : list (list Outbox.record * UploadResponse);
  lk_faults : bool
}.

Definition with_up (u : uploader W H E) (fault : bool) (k : link) : link :=
  MkLink (Some u) (lk_bg k) (lk_waits k) (lk_answers k) (lk_faults k || fault).

(** The batch a cycle of [u] sends and its answer; [None] when its read fails. *)
Definition cycle_answer (u : uploader W H E) : option (list (list Outbox.record * UploadResponse)) :=
  match (on_ob (ReadRecords ReadBatchMaxEntries UploadMaxBytes (readFrom u)) u).2 with
  | Err _ => None
  | Ok [] => Some []
  | Ok records =>
      match (upload (up_env u) (omap rec_entry records)).2 with
      | Ok resp => Some [(records, resp)]
      | Err _ => Some []
      end
  end.

Definition cycle_link (now : Z) (k : link) : link :=
  match lk_up k with
  | None => k
  | Some u =>
      let u' := (uploadCycle upload now u).1 in
      let answers := cycle_answer u in
      MkLink (Some u') (lk_bg k) (lk_waits k) (lk_answers k ++ default [] answers)
        (lk_faults k || bool_decide (answers = None) || (MaxBytes <=? gaugeBytes u'))
  end.

Definition background (k : link) : link :=
  match lk_bg k with
  | [] => k
  | times :: rest =>
      foldl (λ k now, cycle_link now k)
        (MkLink (lk_up k) rest (lk_waits k) (lk_answers k) (lk_faults k)) times
  end.

(** outboxSink.append* *)
Definition sink_append (e : Entry) (k : link) : link * res string unit :=
  let k := background k in
  match lk_up k with
  | None => (k, Err "outbox unavailable")
  | Some u =>
      match on_ob (Outbox.Append e) u with
      | (u', Ok _) => (with_up u' false k, Ok tt)
      | (u', Err _) => (with_up u' true k, Err "outbox")
      end
  end.

Definition bypass (e : Entry) (k : link) : link * bool :=
  match lk_up k with
  | None => (k, false)
  | Some u => let '(u', r) := BypassUpload upload (Some e) u in (with_up u' false k, is_ok r)
  end.

(** The barrier, with the uploader's cycles during its sleeps. *)
Definition cycles (times : list Z) (u : uploader W H E) : uploader W H E :=
  foldl (λ u now, (uploadCycle upload now u).1) u times.

Definition barrier (id : string) (k : link) : link * res string unit :=
  match lk_up k with
  | None => (k, Ok tt)
  | Some u =>
      let ws := default [] (head (lk_waits k)) in
      match WaitClearFor ((λ w, (cycles w.1, w.2)) <$> ws) id u with
      | (u', Ok _) => (MkLink (Some u') (lk_bg k) (tail (lk_waits k)) (lk_answers k) (lk_faults k), Ok tt)
      | (u', Err _) =>
          (MkLink (Some u') (lk_bg k) (tail (lk_waits k)) (lk_answers k) (lk_faults k), Err "barrier")
      end
  end.

Definition link_env : TurnEnv link :=
  {| append_record := sink_append; bypass_upload := bypass; wait_clear := barrier |}.
End wired.

Arguments link : clear implicits.

(** ** What happened to a record *)

Section kept.
Context {C : Codec} {CL : CodecLaws C} {W H : Type} {ops : WalOps bytes W H} {WL : WalLaws ops}.
Context {E : Type} (upload : E → list Entry → E * res string UploadResponse).
Implicit Types (u : uploader W H E) (k : link W H E).

(** The manager was sent [e] and its answer settled it. *)
Definition answered (e : Entry) k : Prop :=
  ∃ records resp p, (records, resp) ∈ lk_answers k ∧ p ∈ records ∧ rec_entry p = Some e ∧
    recordSettled p (response_view resp) = true.

Definition kept (e : Entry) k : Prop :=
  is_Some (proto_marshal e) → ∃ u, lk_up k = Some u ∧ (marshalEnvelope e ∈ queue (up_ob u) ∨ answered e k).

(** The record at index [i] of the log was settled. *)
Definition index_settled k u (i : Z) : Prop :=
  ∃ b, (i, b) ∈ indexed (content (up_ob u)).1 (content (up_ob u)).2 ∧
    ∀ e, proto_unmarshal b = Some e → answered e k.

Definition link_ok k : Prop :=
  ∀ u, lk_up k = Some u → up_inv u ∧ cursor_inv (index_settled k u) u.

Lemma marshal_decodes e : is_Some (proto_marshal e) → proto_unmarshal (marshalEnvelope e) = Some e.
Proof. intros [b Hb]. unfold marshalEnvelope. rewrite Hb. by apply unmarshal_marshal. Qed.

Lemma indexed_functional f (rs : list bytes) i b b' :
  (i, b) ∈ indexed f rs → (i, b') ∈ indexed f rs → b = b'.
Proof. rewrite !elem_of_indexed. intros [_ H1] [_ H2]. congruence. Qed.

Lemma indexed_extends f (rs l : list bytes) i b :
  (i, b) ∈ indexed f rs → (i, b) ∈ indexed f (rs ++ l).
Proof. rewrite !elem_of_indexed. intros [Hi Hl]. split; [done|]. by apply lookup_app_l_Some. Qed.

Lemma elem_of_indexed_snd f (rs : list bytes) b : b ∈ rs → ∃ i, (i, b) ∈ indexed f rs.
Proof.
  intros Hb. rewrite <-(snd_indexed f rs) in Hb. apply list_elem_of_fmap in Hb as ([i b'] & -> & Hin). eauto.
Qed.

Lemma answered_mono e k k' :
  (∀ a, a ∈ lk_answers k → a ∈ lk_answers k') → answered e k → answered e k'.
Proof. intros Ha (rs & resp & p & Hin & ?). exists rs, resp, p. eauto. Qed.

(** A log that only grew keeps what is settled. *)
Lemma index_settled_grown k k' u u' l i :
  (∀ a, a ∈ lk_answers k → a ∈ lk_answers k') →
  content (up_ob u') = ((content (up_ob u)).1, (content (up_ob u)).2 ++ l) →
  index_settled k u i → index_settled k' u' i.
Proof.
  intros Ha Hc (b & Hb & He). exists b. rewrite Hc. simpl. split; [by apply indexed_extends|].
  intros e ?. eapply answered_mono; [exact Ha|]. by apply He.
Qed.

Lemma cursor_grown (S : Z → Prop) u u' l :
  readFrom u' = readFrom u →
  content (up_ob u') = ((content (up_ob u)).1, (content (up_ob u)).2 ++ l) →
  cursor_inv S u → cursor_inv S u'.
Proof.
  intros Hr Hc [Hle HS]. unfold cursor_inv. rewrite Hr, Hc. simpl. rewrite length_app.
  split; [lia|]. intros i b Hin Hi. apply (HS i b); [|done].
  apply elem_of_indexed in Hin as [Hf Hl]. apply elem_of_indexed. split; [done|].
  rewrite lookup_app_l in Hl; [done|]. lia.
Qed.

(** *** An append *)

Lemma append_link e k u :
  lk_up k = Some u → link_ok k →
  match on_ob (Outbox.Append e) u with
  | (u', Ok _) => link_ok (with_up u' false k) ∧ kept e (with_up u' false k) ∧
      ∀ x, kept x k → kept x (with_up u' false k)
  | (u', Err _) => True
  end.
Proof.
  intros Hk Hok. destruct (Hok u Hk) as [Hu Hcur]. destruct (on_ob _ u) as [u' [[]|m]] eqn:Ea; [|done].
  destruct (Append_members _ _ _ Hu Ea) as (Hu' & Hset & Hq). destruct (Append_log _ _ _ Hu Ea) as [l Hl].
  assert (readFrom u' = readFrom u) as Hr by (by rewrite Hset).
  split; [|split].
  - intros u2 [= <-]. split; [done|]. eapply cursor_inv_mono; [|by eapply cursor_grown].
    intros i. by apply (index_settled_grown k _ u u' l).
  - intros _. exists u'. split; [done|]. left. apply Hq. by right.
  - intros x Hx Hm. destruct (Hx Hm) as (u2 & Hu2 & [Hin|Hin]); rewrite Hk in Hu2; injection Hu2 as <-;
      exists u'; (split; [done|]); [left; apply Hq; by left|by right].
Qed.
(** *** A cycle *)

(** The batch read at the cursor is part of the flushed log. *)
Lemma read_cursor_log (S : Z → Prop) u u1 records :
  up_inv u → cursor_inv S u →
  on_ob (ReadRecords ReadBatchMaxEntries UploadMaxBytes (readFrom u)) u = (u1, Ok records) →
  (∃ l, content (up_ob u1) = ((content (up_ob u)).1, (content (up_ob u)).2 ++ l)) ∧
  (∀ x, x ∈ queue (up_ob u) → x ∈ (content (up_ob u1)).2) ∧
  ∀ p, p ∈ records → ∃ i b, p = decode_rec (i, b) ∧
    (i, b) ∈ indexed (content (up_ob u1)).1 (content (up_ob u1)).2.
Proof.
  intros Hu HC Hr. pose proof Hr as Hr'.
  apply (read_at_cursor S) in Hr as (_ & _ & _ & f & rs & first & n & Hc & Hfirst & Hf1 & Hfl & ->); [|done..].
  apply ReadRecords_up in Hr' as (_ & _ & f' & rs' & first' & n' & Hc' & _ & _ & _ & Hrs & Hf' & _); [|done].
  rewrite Hc in Hc'. injection Hc' as <- <-. rewrite Hc. simpl. split_and!.
  - rewrite Hrs, Hf'. by eexists.
  - intros x Hx. rewrite Hrs. rewrite !elem_of_app. unfold queue in Hx. apply elem_of_app in Hx as [?|?]; [by left|].
    right. by right.
  - intros p Hp. apply list_elem_of_fmap in Hp as ([i b] & -> & Hin). exists i, b. split; [done|].
    apply elem_of_indexed in Hin as [Hi Hl]. apply elem_of_indexed. split; [lia|].
    apply lookup_take_Some in Hl as [Hl _]. rewrite lookup_drop in Hl. rewrite <-Hl. f_equal. lia.
Qed.

Lemma cycle_answer_some u ans :
  cycle_answer upload u = Some ans →
  ∃ u1 records, on_ob (ReadRecords ReadBatchMaxEntries UploadMaxBytes (readFrom u)) u = (u1, Ok records) ∧
    ∀ resp, records ≠ [] → (upload (up_env u) (omap rec_entry records)).2 = Ok resp → ans = [(records, resp)].
Proof.
  unfold cycle_answer. destruct (on_ob _ u) as [u1 [records|m]]; simpl; [|done].
  intros Ha. exists u1, records. split; [done|]. intros resp Hne Hup.
  destruct records as [|p records]; [done|]. rewrite Hup in Ha. by injection Ha.
Qed.

Lemma cycle_link_ok now k :
  link_ok k → lk_faults (cycle_link upload now k) = false →
  lk_faults k = false ∧ link_ok (cycle_link upload now k) ∧ ∀ e, kept e k → kept e (cycle_link upload now k).
Proof.
  intros Hok. unfold cycle_link. destruct (lk_up k) as [u|] eqn:Hk; [|done]. simpl. intros Hfault.
  apply orb_false_iff in Hfault as [Hfault Hcap]. apply orb_false_iff in Hfault as [Hfault Hread].
  split; [done|]. apply bool_decide_eq_false in Hread.
  destruct (cycle_answer upload u) as [ans|] eqn:Ea; [|done]. clear Hread. simpl.
  apply cycle_answer_some in Ea as (u1 & records & Hr & Hans). destruct (Hok u Hk) as [Hu HC].
  destruct (uploadCycle upload now u) as [u' r] eqn:Ec. simpl in *.
  destruct (read_cursor_log _ _ _ _ Hu HC Hr) as ([l Hl] & Hflushed & Hrec).
  destruct (uploadCycle_keeps upload _ now u u1 u' r records Hu HC Hr Ec) as (_ & Hu' & HC' & Hkeep & Hsub).
  set (k' := MkLink _ _ _ _ _).
  assert (∀ a, a ∈ lk_answers k → a ∈ lk_answers k') as Hmono by (intros a ?; apply elem_of_app; by left).
  assert (∀ i b e, Uploader.settled_by upload (index_settled k u) u records i →
    (i, b) ∈ indexed (content (up_ob u1)).1 (content (up_ob u1)).2 →
    proto_unmarshal b = Some e → answered e k') as Hsettled.
  { intros i b e [(b0 & Hb0 & He)|(resp & p & Hup & Hp & <- & Hs)] Hb Hd.
    - apply (indexed_extends _ _ l) in Hb0. rewrite Hl in Hb. simpl in Hb.
      rewrite (indexed_functional _ _ _ _ _ Hb Hb0) in Hd.
      eapply answered_mono; [exact Hmono|]. by apply He.
    - destruct (Hrec p Hp) as (i & b' & -> & Hb'). simpl in Hb.
      rewrite (indexed_functional _ _ _ _ _ Hb Hb') in Hd.
      assert (records ≠ []) as Hne by (intros ->; by apply elem_of_nil in Hp).
      exists records, resp, (decode_rec (i, b')). split; [|done].
      change (lk_answers k') with (lk_answers k ++ ans). rewrite (Hans resp Hne Hup).
      apply elem_of_app. right. by apply list_elem_of_singleton. }
  split.
  - intros u2 [= <-]. split; [done|]. destruct HC' as [Hle Hs]. split; [done|]. intros i b Hin Hi.
    exists b. split; [done|]. intros e He. eapply Hsettled; [by eapply Hs|by apply Hsub|done].
  - intros e He Hm. destruct (He Hm) as (u2 & Hu2 & [Hin|Hin]); rewrite Hk in Hu2; injection Hu2 as <-;
      exists u'; (split; [done|]); [|right; by eapply answered_mono].
    apply Hflushed in Hin. apply (elem_of_indexed_snd (content (up_ob u1)).1) in Hin as [i Hin].
    destruct (Hkeep i _ Hin) as [Hin'|[Hs|Hs]].
    + left. unfold queue. apply elem_of_app. left. apply (list_elem_of_fmap_2 snd) in Hin'. by rewrite snd_indexed in Hin'.
    + right. eapply Hsettled; [exact Hs|exact Hin|by apply marshal_decodes].
    + apply Z.leb_gt in Hcap. lia.
Qed.
(** *** A turn *)

#[local] Instance linked : TurnEnv (link W H E) := link_env upload.

(** The invariant of a turn: unless the outbox failed, every record accepted
    since [base] is kept. *)
Definition durable (base : list Entry) (k : link W H E) (_ : flags_state) (out _ : list Entry) : Prop :=
  lk_faults k = false → link_ok k ∧ ∃ new, out = base ++ new ∧ Forall (λ e, kept e k) new.

Lemma cycles_durable base f out byp times k :
  durable base k f out byp → durable base (foldl (λ k now, cycle_link upload now k) k times) f out byp.
Proof.
  revert k. induction times as [|now times IH]; intros k Hd; simpl; [done|]. apply IH.
  intros Hf. assert (lk_faults k = false → link_ok k) as Hok by (intros ?; by apply Hd).
  assert (lk_faults k = false) as Hk.
  { revert Hf. unfold cycle_link. destruct (lk_up k); [|done]. simpl. by destruct (lk_faults k). }
  destruct (cycle_link_ok now k (Hok Hk) Hf) as (_ & Hok' & Hkept). split; [done|].
  destruct (Hd Hk) as (_ & new & -> & Hnew). exists new. split; [done|].
  eapply Forall_impl; [exact Hnew|]. auto.
Qed.

Lemma append_durable base e k f out byp :
  durable base k f out byp →
  match append_record e k with
  | (k', Ok _) => durable base k' f (out ++ [e]) byp
  | (k', Err _) => durable base k' f out byp
  end.
Proof.
  intros Hd. simpl. unfold sink_append. set (k1 := background upload k).
  assert (durable base k1 f out byp) as H1.
  { unfold k1, background. destruct (lk_bg k) as [|times rest]; [done|]. by apply cycles_durable. }
  clearbody k1. clear Hd. destruct (lk_up k1) as [u|] eqn:Hk; [|done].
  destruct (on_ob _ u) as [u' [[]|m]] eqn:Ea.
  - intros Hf. simpl in Hf. rewrite orb_false_r in Hf. destruct (H1 Hf) as (Hok & new & -> & Hnew).
    pose proof (append_link e k1 u Hk Hok) as Hl. rewrite Ea in Hl. destruct Hl as (Hok' & He & Hkept).
    split; [done|]. exists (new ++ [e]). split; [by rewrite app_assoc|].
    apply Forall_app. split; [|by constructor]. eapply Forall_impl; [exact Hnew|]. auto.
  - intros Hf. simpl in Hf. by rewrite orb_true_r in Hf.
Qed.

Lemma bypass_durable base e k f out byp :
  durable base k f out byp →
  match bypass_upload e k with
  | (k', true) => durable base k' f out (byp ++ [e])
  | (k', false) => durable base k' f out byp
  end.
Proof.
  intros Hd. simpl. unfold bypass. destruct (lk_up k) as [u|] eqn:Hk; [|done].
  assert (∀ u', up_ob u' = up_ob u → readFrom u' = readFrom u → durable base (with_up u' false k) f out byp) as H1.
  { intros u' Ho Hr Hf. simpl in Hf. rewrite orb_false_r in Hf. destruct (Hd Hf) as (Hok & new & -> & Hnew).
    destruct (Hok u Hk) as [Hu HC]. split.
    - intros u2 [= <-]. split; [unfold up_inv; by rewrite Ho|].
      unfold cursor_inv, index_settled in *. by rewrite Ho, Hr.
    - exists new. split; [done|]. eapply Forall_impl; [exact Hnew|]. intros x Hx Hm.
      destruct (Hx Hm) as (u2 & Hu2 & Hin). rewrite Hk in Hu2. injection Hu2 as <-. exists u'. split; [done|].
      by rewrite Ho. }
  unfold BypassUpload, call_upload. unfold mbind, M_bind.
  destruct (upload (up_env u) [e]) as [e' [resp|m]]; simpl; by apply H1.
Qed.

(** C17: the records of a turn are durable.  A turn runs against the real outbox
    while the uploader runs any cycles between its calls.  Unless an outbox
    operation failed or the retention cap was reached, every record the turn
    appended (that marshals) is, when the turn is over, in the outbox (on disk or
    buffered) or was sent to the manager in a batch whose answer settled it. *)
Theorem turn_records_durable clock disk_ok id profile x picks dpicks raw (c : stream (link W H E)) t kind :
  link_ok (st_env c) →
  runCommand clock disk_ok id profile x picks dpicks raw c = (t, kind) →
  lk_faults (st_env (tn_stream t)) = false →
  ∃ new, st_out (tn_stream t) = st_out c ++ new ∧ Forall (λ e, kept e (st_env (tn_stream t))) new.
Proof.
  intros Hok Hrun Hf.
  pose proof (held_runCommand clock disk_ok (durable (st_out c)) (append_durable (st_out c)) (bypass_durable (st_out c))
    id profile x picks dpicks raw c) as H1. rewrite Hrun in H1.
  apply H1; [|exact Hf]. intros _. split; [done|]. exists []. rewrite app_nil_r. by split.
Qed.
End kept.

(** ** The start of a runner *)

Section start.
Context {C : Codec} {W H : Type} {ops : WalOps bytes W H}.
Context {E : Type} (upload : E → list Entry → E * res string UploadResponse).

(** A runner whose outbox cannot be opened does not stay up inert: its
    uploader goroutine runs a method on a nil uploader and panics, which ends the
    machine's process with every other agent it hosts.  With an open outbox the
    uploader starts. *)
Theorem open_failure_crashes w (env : E) steps now :
  start_uploader upload now (wireOutbox w env steps).2 = None ↔ ∃ e, (Open w).2 = Err e.
Proof.
  unfold wireOutbox. destruct (Open w) as [w' [ob|e]]; simpl; split; try done; eauto.
  by intros [e He].
Qed.
End start.

Module WiredDemo.
Import Outbox.Demo UploaderDemo.
#[local] Existing Instances C ref_codec_laws wops wlaws.
Definition lk : Type := link (MemWal.memwal (option Entry)) nat net.

(** An open, empty outbox; the manager's first answer is lost; two cycles before
    the fifth record, one before the seventh. *)
Definition l0 : lk :=
  MkLink (Some (NewUploader (MkOutbox (MemWal.MkMem 1 [] 0 [] None 7) (Some 0%nat) false [] 0) (MkNet 1 [])))
    [[]; []; []; []; [100; 100 + 3 * Second]; []; [100 + 9 * Second]] [] [] false.
Definition c0 : stream lk := newCommandStream l0.

Definition run := runCommand (env:=linked (ops:=wops) acker) TurnDemo.clock TurnDemo.disk "c1" ""
  None TurnDemo.picks TurnDemo.dpicks (Some TurnDemo.raw_result) c0.

Lemma l0_ok : link_ok (WL:=wlaws) l0.
Proof.
  intros u Hu. injection Hu as <-. split.
  - split; [|reflexivity]. intros h Hh. injection Hh as <-. split; reflexivity.
  - split; [vm_compute; discriminate|]. intros i b Hin _. simpl in Hin. by apply elem_of_nil in Hin.
Qed.

(** Ten records, six of them answered when the turn is over. *)
Lemma turn_records_durable_witness :
  length (st_out (tn_stream run.1)) = 10%nat ∧
  (length ∘ fst <$> lk_answers (st_env (tn_stream run.1))) = [4%nat; 2%nat] ∧
  ∃ new, st_out (tn_stream run.1) = st_out c0 ++ new ∧
    Forall (λ e, kept (WL:=wlaws) e (st_env (tn_stream run.1))) new.
Proof.
  split; [vm_compute; reflexivity|]. split; [vm_compute; reflexivity|].
  assert (lk_faults (st_env (tn_stream run.1)) = false) as Hf by (vm_compute; reflexivity).
  revert Hf. unfold run. intros Hf. eapply (turn_records_durable (WL:=wlaws)); [exact l0_ok|apply surjective_pairing|exact Hf].
Defined.
End WiredDemo.
