(* ===== verification/Threads.v ===== *)
(** Goroutines over one shared state: a program is a sequence of critical
    sections, each atomic; a pool of programs runs under any schedule.  [safe] is
    a rely-guarantee logic for one program, with a ghost state per goroutine, and
    [run_safe] composes the programs of a pool.  A blocking wait is a step that
    lets the others run: the schedules cover the ones the code has, and those
    where a bounded wait times out. *)

From stdpp Require Import base list numbers.
From S2P Require Import Prelude.

Section programs.
Context {S : Type}.

(** [Atomic f k]: in one step the state [s] becomes [f s]; the program goes on as
    [k s] (what it read). *)
Inductive prog (A : Type) : Type :=
| Ret (a : A)
| Atomic (f : S → S) (k : S → prog A).

Arguments Ret {A} a.
Arguments Atomic {A} f k.

#[export] Instance prog_ret : MRet prog := @Ret.

#[export] Instance prog_bind : MBind prog := λ A B k,
  fix go (m : prog A) : prog B :=
    match m with
    | Ret a => k a
    | Atomic f k' => Atomic f (λ s, go (k' s))
    end.

(** One critical section. *)
Definition critical {A} (f : S → S * A) : prog A := Atomic (λ s, (f s).1) (λ s, Ret (f s).2).
Definition reads {A} (f : S → A) : prog A := critical (λ s, (s, f s)).
Definition writes (f : S → S) : prog unit := critical (λ s, (f s, tt)).

(** A program alone. *)
Fixpoint exec {A} (m : prog A) (s : S) : S * A :=
  match m with
  | Ret a => (s, a)
  | Atomic f k => exec (k s) (f s)
  end.

Lemma exec_bind {A B} (m : prog A) (k : A → prog B) s :
  exec (mbind k m) s = exec (k (exec m s).2) (exec m s).1.
Proof. revert s. induction m as [a|f k' IH]; intros s; [done|]. simpl. apply IH. Qed.

(** A pool, and its steps; a goroutine that is done takes none. *)
Definition pool : Type := S * list (prog unit).

Definition tick (i : nat) (p : pool) : pool :=
  match p.2 !! i with
  | Some (Atomic f k) => (f p.1, <[i := k p.1]> p.2)
  | _ => p
  end.

Definition run (picks : list nat) (p : pool) : pool := foldl (λ p i, tick i p) p picks.

(** A goroutine that runs alone for a while. *)
Lemma run_app l1 l2 p : run (l1 ++ l2) p = run l2 (run l1 p).
Proof. apply foldl_app. Qed.

Lemma tick_at i s ms f k : ms !! i = Some (Atomic f k) → tick i (s, ms) = (f s, <[i := k s]> ms).
Proof. intros Hm. unfold tick. simpl. by rewrite Hm. Qed.

Lemma run_alone {A} i s (ms : list (prog unit)) (m : prog A) (k : A → prog unit) :
  ms !! i = Some (mbind k m) →
  ∃ n, run (replicate n i) (s, ms) = ((exec m s).1, <[i := k (exec m s).2]> ms).
Proof.
  revert s ms. induction m as [a|f k' IH]; intros s ms Hm.
  - exists 0%nat. simpl. by rewrite list_insert_id.
  - simpl in Hm. destruct (IH s (f s) (<[i := mbind k (k' s)]> ms)) as [n Hn].
    { apply list_lookup_insert_eq. by eapply lookup_lt_Some. }
    exists (Datatypes.S n). simpl. rewrite (tick_at i s ms f (λ s, mbind k (k' s)) Hm), Hn.
    by rewrite list_insert_insert_eq.
Qed.

Definition is_done (m : prog unit) : bool := match m with Ret _ => true | _ => false end.

(** ** Rely and guarantee *)

(** [T]: what a goroutine knows or owes.  [stable t s s']: what it relies on while
    the others move from [s] to [s'].  [moves t s t' s']: what a step of its own
    does.  [owed t]: nothing is left to do. *)
Context {T : Type} (Inv : S → list T → Prop).
Context (stable : T → S → S → Prop) (moves : T → S → T → S → Prop).

Fixpoint safe {A} (Q : A → T → S → Prop) (m : prog A) (t : T) (s : S) : Prop :=
  match m with
  | Ret a => ∀ s1, stable t s s1 → Q a t s1
  | Atomic f k => ∀ s1, stable t s s1 →
      ∃ t', moves t s1 t' (f s1) ∧ safe Q (k s1) t' (f s1)
  end.

Class Composes : Prop := {
  stable_trans t s s1 s2 : stable t s s1 → stable t s1 s2 → stable t s s2;
  stable_refl t s s1 : stable t s s1 → stable t s1 s1;
  stable_now s ts t : Inv s ts → t ∈ ts → stable t s s;
  moves_inv s ts i t t' s' : Inv s ts → ts !! i = Some t → moves t s t' s' → Inv s' (<[i := t']> ts);
  moves_stable s ts i j t u t' s' : Inv s ts → ts !! i = Some t → ts !! j = Some u → i ≠ j →
    moves t s t' s' → stable u s s'
}.

Context {Comp : Composes}.

Lemma safe_stable {A} (Q : A → T → S → Prop) m t s s' :
  stable t s s' → safe Q m t s → safe Q m t s'.
Proof. destruct m; simpl; intros Hs Hm s1 H1; apply Hm; by eapply stable_trans. Qed.

Lemma safe_bind {A B} (Q : B → T → S → Prop) (m : prog A) (k : A → prog B) t s :
  safe (λ a t s, safe Q (k a) t s) m t s → safe Q (mbind k m) t s.
Proof.
  revert t s. induction m as [a|f k' IH]; intros t s; simpl.
  - intros Hm. destruct (k a) as [b|g k2]; simpl in *; intros s1 H1;
      apply (Hm s1 H1); by eapply stable_refl.
  - intros Hm s1 H1. destruct (Hm s1 H1) as (t' & Hmv & Hk). exists t'. split; [done|]. by apply IH.
Qed.

Lemma safe_weaken {A} (Q Q' : A → T → S → Prop) (m : prog A) t s :
  (∀ a t s, Q a t s → Q' a t s) → safe Q m t s → safe Q' m t s.
Proof.
  intros HQ. revert t s. induction m as [a|f k IH]; intros t s; simpl; [by eauto|].
  intros Hm s1 H1. destruct (Hm s1 H1) as (t' & Hmv & Hk). exists t'. eauto.
Qed.

Lemma safe_seq {A B} (P : A → T → S → Prop) (Q : B → T → S → Prop) (m : prog A) (k : A → prog B) t s :
  safe P m t s → (∀ a t s, P a t s → safe Q (k a) t s) → safe Q (mbind k m) t s.
Proof. intros Hm Hk. apply safe_bind. by eapply safe_weaken. Qed.

Lemma safe_critical {A} (Q : A → T → S → Prop) (f : S → S * A) t s :
  (∀ s1, stable t s s1 → ∃ t', moves t s1 t' (f s1).1 ∧
     ∀ s2, stable t' (f s1).1 s2 → Q (f s1).2 t' s2) →
  safe Q (critical f) t s.
Proof. done. Qed.

(** *** A pool of safe programs *)

Context (owed : T → S → Prop).

Definition pool_ok (p : pool) (ts : list T) : Prop :=
  Inv p.1 ts ∧ Forall2 (λ m t, safe (λ _ t s, owed t s) m t p.1) p.2 ts.

Lemma tick_ok i p ts : pool_ok p ts → ∃ ts', pool_ok (tick i p) ts'.
Proof.
  intros [HI Hall]. unfold tick. destruct (p.2 !! i) as [m|] eqn:Em; [|by exists ts].
  destruct m as [a|f k]; [by exists ts|].
  destruct (Forall2_lookup_l _ _ _ _ _ Hall Em) as (t & Et & Hsafe).
  destruct (Hsafe p.1) as (t' & Hmv & Hk).
  { eapply stable_now; [done|by eapply list_elem_of_lookup_2]. }
  exists (<[i := t']> ts). split; simpl; [by eapply moves_inv|].
  apply Forall2_same_length_lookup. split.
  { rewrite !length_insert. by eapply Forall2_length. }
  intros j m u Hm Hu. destruct (decide (i = j)) as [<-|Hne].
  - rewrite list_lookup_insert_eq in Hm by (by eapply lookup_lt_Some). injection Hm as <-.
    rewrite list_lookup_insert_eq in Hu by (by eapply lookup_lt_Some). by injection Hu as <-.
  - rewrite list_lookup_insert_ne in Hm by done. rewrite list_lookup_insert_ne in Hu by done.
    eapply safe_stable; [exact (moves_stable p.1 ts i j t u t' (f p.1) HI Et Hu Hne Hmv)|].
    exact (Forall2_lookup_lr _ _ _ _ _ _ Hall Hm Hu).
Qed.

Lemma run_ok picks p ts : pool_ok p ts → ∃ ts', pool_ok (run picks p) ts'.
Proof.
  revert p ts. induction picks as [|i picks IH]; intros p ts Hp; [by exists ts|]. simpl.
  apply (tick_ok i) in Hp as [ts' Hp]. by apply (IH _ ts').
Qed.

(** Under every schedule the invariant holds, and when a goroutine is done it
    owes nothing. *)
Lemma run_safe picks p ts :
  pool_ok p ts →
  ∃ ts', Inv (run picks p).1 ts' ∧ length ts' = length (run picks p).2 ∧
    ∀ i m t, (run picks p).2 !! i = Some m → ts' !! i = Some t → is_done m = true → owed t (run picks p).1.
Proof.
  intros Hp. destruct (run_ok picks p ts Hp) as (ts' & HI & Hall). exists ts'. split; [done|].
  split; [symmetry; by eapply Forall2_length|]. intros i m t Hm Ht Hd.
  pose proof (Forall2_lookup_lr _ _ _ _ _ _ Hall Hm Ht) as Hsafe. destruct m; [|done].
  apply Hsafe. eapply stable_now; [done|by eapply list_elem_of_lookup_2].
Qed.
End programs.

Arguments prog : clear implicits.
Arguments pool : clear implicits.
Arguments Ret {S A} a.
Arguments Atomic {S A} f k.
