(* ===== verification/Paths.v ===== *)
(** Go's [path/filepath] on Unix, as far as the modelled code calls it: [Clean],
    [Join], [Abs], [Rel], [Ext], on paths as their segments; and the theory of
    clean absolute paths. *)

From Stdlib Require Import Ascii.
From stdpp Require Import base list strings numbers.
From S2P Require Import Prelude Strings Names.

(** ** filepath *)

Definition IsAbs (p : string) : bool :=
  match p with String c _ => Ascii.eqb c slash | EmptyString => false end.

(** One segment of the walk of Clean, over the segments kept so far, last first. *)
Definition clean_step (rooted : bool) (kept : list string) (seg : string) : list string :=
  if String.eqb seg "" || String.eqb seg "." then kept
  else if String.eqb seg ".." then
    match kept with
    | [] => if rooted then [] else [".."]
    | s :: rest => if String.eqb s ".." then ".." :: kept else rest
    end
  else seg :: kept.

Definition clean_segs (rooted : bool) (l : list string) : list string :=
  rev (foldl (clean_step rooted) [] l).

Definition Clean (p : string) : string :=
  let segs := clean_segs (IsAbs p) (split p) in
  if IsAbs p then "/" +:+ join segs
  else match segs with [] => "." | _ => join segs end.

(** filepath.Join *)
Fixpoint drop_empty (elems : list string) : list string :=
  match elems with
  | [] => []
  | e :: rest => if String.eqb e "" then drop_empty rest else elems
  end.

Definition Join (elems : list string) : string :=
  match drop_empty elems with
  | [] => ""
  | elems => Clean (join elems)
  end.

(** filepath.Abs; [cwd] is what os.Getwd returns. *)
Definition Abs (cwd : res string string) (p : string) : res string string :=
  if IsAbs p then Ok (Clean p)
  else match cwd with Err e => Err e | Ok wd => Ok (Join [wd; p]) end.

(** The segments of a cleaned path. *)
Definition segs (p : string) : list string := filter (λ s, s ≠ "" ∧ s ≠ ".") (split p).

Fixpoint drop_common (bs ts : list string) : list string * list string :=
  match bs, ts with
  | b :: bs', t :: ts' => if String.eqb b t then drop_common bs' ts' else (bs, ts)
  | _, _ => (bs, ts)
  end.

(** filepath.Rel *)
Definition Rel (basepath targpath : string) : res string string :=
  let base := Clean basepath in
  let targ := Clean targpath in
  if String.eqb targ base then Ok "."
  else if negb (Bool.eqb (IsAbs base) (IsAbs targ)) then Err "Rel: can't make targpath relative to basepath"
  else
    let '(bs, ts) := drop_common (segs base) (segs targ) in
    if match bs with b :: _ => String.eqb b ".." | [] => false end
    then Err "Rel: can't make targpath relative to basepath"
    else Ok (join (replicate (length bs) ".." ++ ts)).

(** filepath.Ext *)
Fixpoint ext_from (found : string) (p : string) : string :=
  match p with
  | EmptyString => found
  | String c p' =>
      ext_from (if Ascii.eqb c slash then "" else if Ascii.eqb c "."%char then p else found) p'
  end.
Definition Ext (p : string) : string := ext_from "" p.

(** ** Clean absolute paths *)

(** A segment a clean absolute path can have. *)
Definition proper (s : string) : Prop := no_slash s = true ∧ s ≠ "" ∧ s ≠ "." ∧ s ≠ "..".

Definition of_segs (l : list string) : string := "/" +:+ join l.

Definition abs_clean (p : string) : Prop := ∃ l, Forall proper l ∧ p = of_segs l.

Lemma proper_no_slash l : Forall proper l → Forall (λ s, no_slash s = true) l.
Proof. apply Forall_impl. by intros s [? _]. Qed.

Lemma split_join l : Forall (λ s, no_slash s = true) l → l ≠ [] → split (join l) = l.
Proof.
  induction l as [|s l IH]; [done|]. intros [Hs Hl]%Forall_cons_1 _.
  destruct l as [|s' l]; simpl; [by apply split_no_slash|].
  rewrite split_app by done. f_equal. by apply IH.
Qed.

Lemma split_of_segs l : Forall proper l → split (of_segs l) = "" :: match l with [] => [""] | _ => l end.
Proof.
  intros Hl. unfold of_segs. change ("/" +:+ join l) with (String slash (join l)). simpl.
  destruct l as [|s l]; [done|]. f_equal. apply split_join; [by apply proper_no_slash|done].
Qed.

Lemma filter_proper l : Forall proper l → filter (λ s, s ≠ "" ∧ s ≠ ".") l = l.
Proof.
  induction 1 as [|s l (_ & H1 & H2 & _) Hl IH]; [done|]. rewrite filter_cons_True by done. by rewrite IH.
Qed.

Lemma segs_of_segs l : Forall proper l → segs (of_segs l) = l.
Proof.
  intros Hl. unfold segs. rewrite split_of_segs by done. rewrite filter_cons_False by (intros [Hx _]; by apply Hx).
  destruct l as [|s l]; [done|]. by apply filter_proper.
Qed.

Lemma of_segs_inj l l' : Forall proper l → Forall proper l' → of_segs l = of_segs l' → l = l'.
Proof. intros Hl Hl' E. by rewrite <-(segs_of_segs l), <-(segs_of_segs l'), E. Qed.

Lemma proper_clean_step s kept : proper s → clean_step true kept s = s :: kept.
Proof.
  intros (_ & H1 & H2 & H3). unfold clean_step.
  apply String.eqb_neq in H1, H2, H3. by rewrite H1, H2, H3.
Qed.

Lemma foldl_proper l kept :
  Forall proper l → foldl (clean_step true) kept l = rev l ++ kept.
Proof.
  intros Hl. revert kept. induction Hl as [|s l Hs Hl IH]; intros kept; [done|].
  simpl. rewrite IH, proper_clean_step by done. by rewrite <-app_assoc.
Qed.

Lemma clean_segs_proper l : Forall (λ s, no_slash s = true) l → Forall proper (clean_segs true l).
Proof.
  intros Hl. unfold clean_segs. apply Forall_rev.
  assert (∀ kept, Forall proper kept → Forall proper (foldl (clean_step true) kept l)) as H; [|by apply H].
  induction Hl as [|s l Hs Hl IH]; intros kept Hk; [done|]. simpl. apply IH. unfold clean_step.
  destruct (String.eqb_spec s "") as [|H1]; simpl; [done|].
  destruct (String.eqb_spec s ".") as [|H2]; simpl; [done|].
  destruct (String.eqb_spec s "..") as [|H3].
  - destruct kept as [|k kept]; [done|]. apply Forall_cons_1 in Hk as [Hp Hk].
    destruct (String.eqb_spec k ".."); [|done]. by destruct Hp as (_ & _ & _ & ?).
  - constructor; [|done]. by repeat split.
Qed.

Lemma IsAbs_of_segs l : IsAbs (of_segs l) = true.
Proof. done. Qed.

(** Clean on an absolute path, by segments. *)
Lemma Clean_abs p : IsAbs p = true → Clean p = of_segs (clean_segs true (split p)).
Proof. intros H. unfold Clean. by rewrite H. Qed.

Lemma Clean_abs_clean p : IsAbs p = true → abs_clean (Clean p).
Proof.
  intros H. rewrite Clean_abs by done. eexists. split; [|done]. apply clean_segs_proper, split_parts.
Qed.

Lemma Clean_of_segs l : Forall proper l → Clean (of_segs l) = of_segs l.
Proof.
  intros Hl. rewrite Clean_abs, split_of_segs by done. unfold of_segs, clean_segs. f_equal. f_equal.
  change (foldl (clean_step true) [] ("" :: ?x)) with (foldl (clean_step true) [] x).
  destruct l as [|s l]; [done|]. rewrite foldl_proper, app_nil_r by done. apply rev_involutive.
Qed.

Lemma Clean_idem p : abs_clean p → Clean p = p.
Proof. intros (l & Hl & ->). by apply Clean_of_segs. Qed.

Lemma abs_clean_IsAbs p : abs_clean p → IsAbs p = true.
Proof. by intros (l & _ & ->). Qed.

(** ** A path below another *)

Lemma split_sep a b : split (a +:+ "/" +:+ b) = split a ++ split b.
Proof.
  induction a as [|c a IH]; [done|]. change (String c a +:+ ?x) with (String c (a +:+ x)).
  cbn [split]. destruct (Ascii.eqb c slash); [by rewrite IH|]. rewrite IH.
  pose proof (split_not_nil a). by destruct (split a).
Qed.

Lemma prefix_elim a b : String.prefix a b = true → ∃ c, b = a +:+ c.
Proof.
  revert b. induction a as [|x a IH]; intros b H; [by exists b|].
  destruct b as [|y b]; simpl in H; [done|]. destruct (ascii_dec x y) as [->|]; [|done].
  apply IH in H as [c ->]. by exists c.
Qed.

Lemma join_app a b : a ≠ [] → b ≠ [] → join (a ++ b) = join a +:+ "/" +:+ join b.
Proof.
  induction a as [|s a IH]; [done|]. intros _ Hb. destruct a as [|s' a].
  - simpl. by destruct b.
  - change (join ((s :: s' :: a) ++ b)) with (s +:+ "/" +:+ join ((s' :: a) ++ b)).
    rewrite IH by done. change (join (s :: s' :: a)) with (s +:+ "/" +:+ join (s' :: a)).
    by rewrite !Strings.str_append_assoc.
Qed.

(** [root] is a prefix with its separator exactly when its segments are. *)
Lemma prefix_segs rl pl :
  Forall proper rl → Forall proper pl → rl ≠ [] →
  String.prefix (of_segs rl +:+ "/") (of_segs pl) = true ↔ ∃ x, x ≠ [] ∧ pl = rl ++ x.
Proof.
  intros Hr Hp Hne. split.
  - intros [c Hc]%prefix_elim. apply (f_equal split) in Hc.
    rewrite Strings.str_append_assoc, split_sep, !split_of_segs in Hc by done.
    pose proof (split_not_nil c) as Hn. destruct rl as [|r rl]; [done|].
    destruct pl as [|q pl].
    + simplify_eq/=. apply Forall_cons_1 in Hr as [(_ & ? & _) _]. done.
    + injection Hc as -> ->. by exists (split c).
  - intros (x & Hx & ->). unfold of_segs. rewrite join_app by done.
    rewrite <-!Strings.str_append_assoc. rewrite (Strings.str_append_assoc "/"), (Strings.str_append_assoc _ _ (join x)).
    rewrite <-(Strings.str_append_assoc "/"). rewrite <-Strings.str_append_assoc. apply Strings.prefix_app.
Qed.

Lemma drop_common_app l x : drop_common l (l ++ x) = ([], x).
Proof. induction l as [|s l IH]; [by destruct x|]. simpl. by rewrite String.eqb_refl, IH. Qed.

(** Rel of a path below its base is what follows the base. *)
Lemma Rel_below rl x :
  Forall proper rl → Forall proper x →
  Rel (of_segs rl) (of_segs (rl ++ x)) = Ok (match x with [] => "." | _ => join x end).
Proof.
  intros Hr Hx. assert (Forall proper (rl ++ x)) as Hrx by (by apply Forall_app).
  unfold Rel. rewrite !Clean_of_segs by done. destruct (String.eqb_spec (of_segs (rl ++ x)) (of_segs rl)) as [E|E].
  - apply of_segs_inj in E; [|done..]. rewrite <-(app_nil_r rl) in E at 2. apply app_inv_head in E as ->. done.
  - rewrite !IsAbs_of_segs, !segs_of_segs by done. simpl. rewrite drop_common_app. simpl.
    destruct x; [|done]. by rewrite app_nil_r in E.
Qed.

Lemma Join_below l x :
  Forall proper l → Forall proper x → x ≠ [] → Join [of_segs l; join x] = of_segs (l ++ x).
Proof.
  intros Hl Hx Hne. unfold Join. simpl drop_empty. change (String.eqb (of_segs l) "") with false. cbv iota.
  change (join [of_segs l; join x]) with (of_segs l +:+ "/" +:+ join x).
  rewrite Clean_abs by done. rewrite split_sep, split_of_segs by done.
  rewrite split_join by (done || by apply proper_no_slash).
  unfold of_segs, clean_segs. f_equal. f_equal. rewrite foldl_app.
  assert (∀ k, foldl (clean_step true) k ("" :: match l with [] => [""] | _ :: _ => l end) = rev l ++ k) as ->.
  { intros k. destruct l as [|s l]; [done|]. by apply (foldl_proper (s :: l)). }
  rewrite app_nil_r, foldl_proper by done. rewrite <-rev_app_distr. apply rev_involutive.
Qed.
