(* ===== verification/Workspace.v ===== *)
(** Access to an agent's workspace ([backend/agent/workspace]): the resolution of
    a path inside its root ([tree.go]), the listing of a directory ([tree.go]),
    the preview of a file ([file.go]) and the policy on sensitive names
    ([policy.go]).  The file system is a record of the [os] and [filepath] calls
    the code makes. *)

From Stdlib Require Import Ascii.
From stdpp Require Import base list strings numbers sorting.
From S2P Require Import Prelude Strings Names Paths.
Local Open Scope Z_scope.

(** ** policy.go *)

Definition textExtensions : list string :=
  [".md"; ".txt"; ".json"; ".js"; ".ts"; ".jsx"; ".tsx"; ".yaml"; ".yml"; ".toml";
   ".log"; ".csv"; ".xml"; ".html"; ".css"; ".sh"; ".py"].

Definition imageMimeByExt : list (string * string) :=
  [(".apng", "image/apng"); (".avif", "image/avif"); (".gif", "image/gif");
   (".jpg", "image/jpeg"); (".jpeg", "image/jpeg"); (".png", "image/png"); (".webp", "image/webp")].

Definition textFileMaxBytes : Z := 2^20.
Definition imagePreviewMaxBytes : Z := 5 * 2^20.
Definition textSniffBytes : Z := 8000.

Definition neverVisibleHiddenNames : list string := [".aws"; ".gnupg"; ".ssh"].

(** The encodings of the runes that fold to an ASCII letter under [(?i)]: the
    letter in both cases, the long s and the Kelvin sign. *)
Definition folds (c : ascii) : list (list ascii) :=
  let z := Strings.code c in
  [[c]; [Strings.byte_of (z - 32)]] ++
  (if z =? 115 then [Strings.byte_of <$> [197; 191]] else []) ++
  (if z =? 107 then [Strings.byte_of <$> [226; 132; 170]] else []).

(** The text left after a case-insensitive literal in lower case. *)
Fixpoint match_fold (lit l : list ascii) : option (list ascii) :=
  match lit with
  | [] => Some l
  | c :: lit' =>
      match Strings.strip_any (if Strings.is_lower c then folds c else [[c]]) l with
      | Some l' => match_fold lit' l'
      | None => None
      end
  end.

Definition word_sep (c : ascii) : bool := existsb (Ascii.eqb c) [".";"_";"-"]%char.

(** [^\.env(?:\.|$)] *)
Definition match_dotenv (l : list ascii) : bool :=
  match match_fold (String.list_ascii_of_string ".env") l with
  | Some [] => true
  | Some (c :: _) => Ascii.eqb c "."%char
  | None => false
  end.

Definition at_end (l : list ascii) : bool := match l with [] => true | c :: _ => word_sep c end.

(** [word(?:s)?(?:[._-]|$)] at a position. *)
Definition match_word_at (word : string) (l : list ascii) : bool :=
  match match_fold (String.list_ascii_of_string word) l with
  | None => false
  | Some rest =>
      at_end rest || match match_fold ["s"%char] rest with Some rest' => at_end rest' | None => false end
  end.

(** [(?:^|[._-])word(?:s)?(?:[._-]|$)] *)
Fixpoint match_after_sep (word : string) (l : list ascii) : bool :=
  match l with
  | [] => false
  | c :: l' => (word_sep c && match_word_at word l') || match_after_sep word l'
  end.
Definition match_word (word : string) (l : list ascii) : bool :=
  match_word_at word l || match_after_sep word l.

Definition secretFilePatterns : list (list ascii → bool) :=
  [match_dotenv; match_word "secret"; match_word "credential"; match_word "token"].

Definition isNeverVisibleEntry (name : string) : bool := existsb (String.eqb name) neverVisibleHiddenNames.

Definition pathParts (rel : string) : list string := filter (λ p, p ≠ "") (split rel).

Definition isHiddenPath (rel : string) : bool := existsb (String.prefix ".") (pathParts rel).
Definition isNeverVisiblePath (rel : string) : bool := existsb isNeverVisibleEntry (pathParts rel).
Definition secret_segment (part : string) : bool :=
  existsb (λ pattern, pattern (String.list_ascii_of_string part)) secretFilePatterns.
Definition isSecretFilePath (rel : string) : bool := existsb secret_segment (pathParts rel).

Example secret_names :
  secret_segment <$> [".env"; ".ENV.local"; ".environment"; "Credential.json"; "SECRETS.json"; "machine-token-1";
    "tokenizer.py"; "my secret"; "api_tokens"; "README.md"] =
  [true; true; false; true; true; true; false; false; true; false].
Proof. reflexivity. Qed.

(** ** The file system *)

Record FileInfo := MkInfo { fi_dir : bool; fi_size : Z; fi_mtime : Z; fi_symlink : bool }.

(** A directory entry: its name and what Info returns. *)
Definition DirEntry : Type := string * option FileInfo.

(** [fs_head p n]: Open, and ReadFull of [n] bytes, short at the end of the file. *)
Record FS := MkFS {
  fs_cwd : res string string;
  fs_eval : string → res string string;
  fs_stat : string → res string FileInfo;
  fs_readdir : string → res string (list DirEntry);
  fs_read : string → res string string;
  fs_head : string → Z → res string string
}.

Inductive wserr := ErrAccessDenied | OsError (e : string).

Definition lift_os {A} (r : res string A) : res wserr A :=
  match r with Ok a => Ok a | Err e => Err (OsError e) end.

(** ** encoding/base64 (StdEncoding) and unicode/utf8 *)

Definition b64_char (n : N) : ascii :=
  ascii_of_N (if (n <? 26)%N then n + 65 else if (n <? 52)%N then n + 71
              else if (n <? 62)%N then n - 4 else if (n =? 62)%N then 43 else 47)%N.

Fixpoint base64 (s : string) : string :=
  match s with
  | EmptyString => ""
  | String a EmptyString =>
      let x := N_of_ascii a in
      String (b64_char (x / 4)) (String (b64_char (x mod 4 * 16)) "==")
  | String a (String b EmptyString) =>
      let x := N_of_ascii a in let y := N_of_ascii b in
      String (b64_char (x / 4)) (String (b64_char (x mod 4 * 16 + y / 16))
        (String (b64_char (y mod 16 * 4)) "="))
  | String a (String b (String c rest)) =>
      let x := N_of_ascii a in let y := N_of_ascii b in let z := N_of_ascii c in
      String (b64_char (x / 4)) (String (b64_char (x mod 4 * 16 + y / 16))
        (String (b64_char (y mod 16 * 4 + z / 64)) (String (b64_char (z mod 64)) (base64 rest))))
  end%N.

Definition within (lo hi : Z) (c : ascii) : bool := (lo <=? Strings.code c) && (Strings.code c <=? hi).
Definition cont_byte : ascii → bool := within 128 191.

(** utf8.Valid *)
Fixpoint utf8_valid (l : list ascii) : bool :=
  match l with
  | [] => true
  | a :: l1 =>
      if within 0 127 a then utf8_valid l1
      else match l1 with
      | [] => false
      | b :: l2 =>
          if within 194 223 a then cont_byte b && utf8_valid l2
          else match l2 with
          | [] => false
          | c :: l3 =>
              if within 224 239 a then
                within (if within 224 224 a then 160 else 128) (if within 237 237 a then 159 else 191) b
                && cont_byte c && utf8_valid l3
              else match l3 with
              | [] => false
              | d :: l4 =>
                  within 240 244 a
                  && within (if within 240 240 a then 144 else 128) (if within 244 244 a then 143 else 191) b
                  && cont_byte c && cont_byte d && utf8_valid l4
              end
          end
      end
  end.

Example base64_check : base64 "Many hands" = "TWFueSBoYW5kcw==".
Proof. reflexivity. Qed.

(** strings.ToLower, up to the runes above ASCII that stay above it: the keys it
    is compared with are ASCII. *)
Fixpoint lower_list (l : list ascii) : list ascii :=
  match l with
  | [] => []
  | c :: rest =>
      match rest with
      | d :: rest' =>
          if within 196 196 c && within 176 176 d then "i"%char :: lower_list rest' else
          match rest' with
          | e :: rest'' =>
              if within 226 226 c && within 132 132 d && within 170 170 e then "k"%char :: lower_list rest''
              else (if Strings.is_upper c then Strings.byte_of (Strings.code c + 32) else c) :: lower_list rest
          | [] => (if Strings.is_upper c then Strings.byte_of (Strings.code c + 32) else c) :: lower_list rest
          end
      | [] => [if Strings.is_upper c then Strings.byte_of (Strings.code c + 32) else c]
      end
  end.
Definition ToLower (s : string) : string :=
  String.string_of_list_ascii (lower_list (String.list_ascii_of_string s)).

(** ** tree.go *)

Definition withinRoot (root path : string) : bool :=
  if String.eqb path root then true
  else if String.eqb root "/" then true
  else String.prefix (root +:+ "/") path.

(** resolveInRoot: the target and the real root. *)
Definition resolveInRoot (fs : FS) (root dirPath : string) : res wserr (string * string) :=
  match Abs (fs_cwd fs) root with
  | Err e => Err (OsError e)
  | Ok rootAbs =>
      match Abs (fs_cwd fs) (Join [rootAbs; dirPath]) with
      | Err e => Err (OsError e)
      | Ok resolved =>
          if negb (withinRoot rootAbs resolved) then Err ErrAccessDenied else
          let rootReal := match fs_eval fs rootAbs with Ok r => r | Err _ => rootAbs end in
          match fs_eval fs resolved with
          | Err e => Err (OsError e)
          | Ok final =>
              if negb (withinRoot rootReal final) then Err ErrAccessDenied
              else Ok (final, rootReal)
          end
      end
  end.

Record Entry := MkEntry {
  we_name : string; we_path : string; we_dir : bool; we_size : Z; we_mtime : Z; we_hidden : bool }.

(** One turn of List's loop: the entry, or none when it is skipped. *)
Definition list_entry (rootReal target : string) (includeHidden : bool) (e : DirEntry) : option Entry :=
  let '(name, info) := e in
  let isHidden := String.prefix "." name in
  if String.eqb name "node_modules" || isNeverVisibleEntry name then None
  else if isHidden && negb includeHidden then None
  else match info with
  | None => None
  | Some fi =>
      if fi_symlink fi then None else
      match Rel rootReal (Join [target; name]) with
      | Err _ => None
      | Ok relPath => Some (MkEntry name relPath (fi_dir fi) (fi_size fi) (fi_mtime fi) isHidden)
      end
  end.

(** The comparison of the sort: directories first, then by name. *)
Definition entry_before (a b : Entry) : bool :=
  if Bool.eqb (we_dir a) (we_dir b) then
    match String.compare (we_name a) (we_name b) with Gt => false | _ => true end
  else we_dir a.

Definition entry_le (a b : Entry) : Prop := entry_before a b = true.
#[global] Instance entry_le_dec : RelDecision entry_le := λ a b, decide (entry_before a b = true).

(** List; the error is ErrAccessDenied or the failure of Rel. *)
Definition List (fs : FS) (root dirPath : string) (includeHidden : bool) : res wserr (list Entry) :=
  match resolveInRoot fs root dirPath with
  | Err ErrAccessDenied => Err ErrAccessDenied
  | Err (OsError _) => Ok []
  | Ok (target, rootReal) =>
      match Rel rootReal target with
      | Err e => Err (OsError e)
      | Ok rel =>
          if negb (String.eqb rel ".") && (isNeverVisiblePath rel || (negb includeHidden && isHiddenPath rel))
          then Ok []
          else match fs_readdir fs target with
          | Err _ => Ok []
          | Ok entries => Ok (merge_sort entry_le (omap (list_entry rootReal target includeHidden) entries))
          end
      end
  end.

(** ** file.go *)

Record ReadResult := MkRead {
  rr_content : string; rr_binary : bool; rr_size : Z; rr_mime : string; rr_encoding : string; rr_error : string }.
Definition refusal (e : string) : ReadResult := MkRead "" false 0 "" "" e.

Definition looksLikeTextFile (fs : FS) (path : string) : res string bool :=
  match fs_head fs path textSniffBytes with
  | Err e => Err e
  | Ok buf =>
      let l := String.list_ascii_of_string buf in
      if existsb (Ascii.eqb "000"%char) l then Ok false else Ok (utf8_valid l)
  end.

Definition read_text (fs : FS) (resolved : string) (size : Z) : res wserr ReadResult :=
  if textFileMaxBytes <? size then Ok (refusal "file too large to preview") else
  match fs_read fs resolved with
  | Err e => Err (OsError e)
  | Ok content => Ok (MkRead content false size "" "utf-8" "")
  end.

Definition read_image (fs : FS) (resolved mime : string) (size : Z) : res wserr ReadResult :=
  if imagePreviewMaxBytes <? size then Ok (MkRead "" true size mime "" "image too large to preview") else
  match fs_read fs resolved with
  | Err e => Err (OsError e)
  | Ok data => Ok (MkRead (base64 data) true size mime "base64" "")
  end.

Definition imageMime (ext : string) : option string :=
  snd <$> find (λ p, String.eqb (fst p) ext) imageMimeByExt.

Definition Read (fs : FS) (root path : string) : res wserr ReadResult :=
  match resolveInRoot fs root path with
  | Err e => Err e
  | Ok (resolved, rootReal) =>
      match Rel rootReal resolved with
      | Err e => Err (OsError e)
      | Ok rel =>
          if isNeverVisiblePath rel || isSecretFilePath rel
          then Ok (refusal "preview is disabled for sensitive workspace files")
          else match fs_stat fs resolved with
          | Err e => Err (OsError e)
          | Ok info =>
              if fi_dir info then Ok (refusal "cannot read a directory") else
              let ext := ToLower (Ext resolved) in
              match imageMime ext with
              | Some mime => read_image fs resolved mime (fi_size info)
              | None =>
                  match (if existsb (String.eqb ext) textExtensions then Ok true else looksLikeTextFile fs resolved) with
                  | Err e => Err (OsError e)
                  | Ok false => Ok (MkRead "" true (fi_size info) "" "" "")
                  | Ok true => read_text fs resolved (fi_size info)
                  end
              end
          end
      end
  end.

(** ** The root *)

(** What [filepath] and [os] document: EvalSymlinks of an absolute path is
    absolute and clean, Getwd is absolute. *)
Class FSLaws (fs : FS) : Prop := {
  eval_clean p q : IsAbs p = true → fs_eval fs p = Ok q → abs_clean q;
  cwd_abs wd : fs_cwd fs = Ok wd → IsAbs wd = true
}.

Lemma Join_abs a b : abs_clean a → IsAbs (Join [a; b]) = true.
Proof.
  intros (l & Hl & ->). unfold Join. simpl. change (String.eqb (of_segs l) "") with false. cbv iota.
  change (join [of_segs l; b]) with (of_segs l +:+ "/" +:+ b). unfold of_segs.
  change ("/" +:+ join l) with (String slash (join l)). simpl. unfold Clean. done.
Qed.

Lemma Abs_clean fs {L : FSLaws fs} p q : Abs (fs_cwd fs) p = Ok q → abs_clean q.
Proof.
  unfold Abs. destruct (IsAbs p) eqn:Ep; [intros [= <-]; by apply Clean_abs_clean|].
  destruct (fs_cwd fs) as [wd|e] eqn:Ec; [|done]. intros [= <-].
  apply cwd_abs in Ec. destruct wd as [|ch wd]; [done|]. unfold Join. simpl.
  apply Clean_abs_clean. exact Ec.
Qed.

Lemma withinRoot_segs rl pl :
  Forall proper rl → Forall proper pl →
  withinRoot (of_segs rl) (of_segs pl) = true ↔ ∃ x, pl = rl ++ x.
Proof.
  intros Hr Hp. unfold withinRoot. destruct (String.eqb_spec (of_segs pl) (of_segs rl)) as [E|E].
  { apply of_segs_inj in E as ->; [|done..]. split; [|done]. intros _. exists []. by rewrite app_nil_r. }
  destruct rl as [|r rl]; [split; [by exists pl|done]|].
  destruct (String.eqb_spec (of_segs (r :: rl)) "/") as [E'|_].
  { change "/" with (of_segs []) in E'. by apply of_segs_inj in E'. }
  rewrite prefix_segs by done. split; [intros (x & _ & ->); eauto|].
  intros [x ->]. exists x. split; [|done]. intros ->. by rewrite app_nil_r in E.
Qed.

(** [realRoot fs root rl]: the root, links followed, has the segments [rl]. *)
Definition realRoot (fs : FS) (root : string) (rl : list string) : Prop :=
  ∃ rootAbs, Abs (fs_cwd fs) root = Ok rootAbs ∧
    of_segs rl = match fs_eval fs rootAbs with Ok r => r | Err _ => rootAbs end.

(** What is resolved is in the real root. *)
Lemma resolveInRoot_spec fs {L : FSLaws fs} root path final real :
  resolveInRoot fs root path = Ok (final, real) →
  ∃ rl x, Forall proper rl ∧ Forall proper x ∧ realRoot fs root rl ∧
    real = of_segs rl ∧ final = of_segs (rl ++ x).
Proof.
  unfold resolveInRoot. intros H. destruct (Abs _ root) as [rootAbs|e] eqn:Er; [|done].
  destruct (Abs _ (Join _)) as [res|e] eqn:Ea; [|done]. destruct (negb (withinRoot rootAbs res)); [done|].
  pose proof (Abs_clean fs _ _ Er) as Hra. pose proof (Abs_clean fs _ _ Ea) as Hres.
  set (rr := match fs_eval fs rootAbs with Ok r => r | Err _ => rootAbs end) in *.
  assert (abs_clean rr) as (rl & Hrl & Hrr).
  { unfold rr. destruct (fs_eval fs rootAbs) as [r|] eqn:Ev; [|done].
    eapply eval_clean; [|exact Ev]. by apply abs_clean_IsAbs. }
  destruct (fs_eval fs res) as [f|e] eqn:Ef; [|done].
  apply eval_clean in Ef as (fl & Hfl & ->); [|by apply abs_clean_IsAbs].
  destruct (withinRoot rr (of_segs fl)) eqn:Hw; [|done]. injection H as <- <-.
  rewrite Hrr in Hw. apply withinRoot_segs in Hw as [x ->]; [|done..].
  apply Forall_app in Hfl as [_ Hx]. exists rl, x. split_and!; try done. exists rootAbs. split; [done|]. by rewrite <-Hrr.
Qed.

(** The segments of a relative path below the root. *)
Lemma pathParts_below x :
  Forall proper x → pathParts (match x with [] => "." | _ => join x end) = match x with [] => ["."] | _ => x end.
Proof.
  intros Hx. destruct x as [|s x]; [done|]. unfold pathParts.
  rewrite split_join by (done || by apply proper_no_slash).
  induction Hx as [|y l (_ & H1 & _) Hl IH]; [done|]. rewrite filter_cons_True by done.
  by destruct l; [|f_equal].
Qed.

(** A segment no preview is served below. *)
Definition sensitive (s : string) : bool := isNeverVisibleEntry s || secret_segment s.

Lemma below_forall p x :
  Forall proper x → p "." = false →
  existsb p (pathParts (match x with [] => "." | _ => join x end)) = false → Forall (λ s, p s = false) x.
Proof.
  intros Hx Hp. rewrite pathParts_below by done. destruct x as [|s x]; [by constructor|].
  generalize (s :: x). clear. induction l as [|s l IH]; simpl; [constructor|].
  intros [H1 H2]%orb_false_iff. constructor; auto.
Qed.

(** ** What the workspace shows *)

(** A directory without its hidden entries. *)
Definition dir_view (hidden : string → bool) (r : res string (list DirEntry)) : res string (list DirEntry) :=
  match r with Ok l => Ok (filter (λ e, hidden e.1 = false) l) | Err e => Err e end.

(** Two file systems that differ only in what the policy hides: the same
    links, and the same answers below the real root. *)
Definition same_view (root : string) (hidden : string → bool) (fs1 fs2 : FS) : Prop :=
  fs_cwd fs1 = fs_cwd fs2 ∧ (∀ p, fs_eval fs1 p = fs_eval fs2 p) ∧
  ∀ rl x, realRoot fs1 root rl → Forall proper (rl ++ x) → Forall (λ s, hidden s = false) x →
    let p := of_segs (rl ++ x) in
    fs_stat fs1 p = fs_stat fs2 p ∧ fs_read fs1 p = fs_read fs2 p ∧
    fs_head fs1 p textSniffBytes = fs_head fs2 p textSniffBytes ∧
    dir_view hidden (fs_readdir fs1 p) = dir_view hidden (fs_readdir fs2 p).

Lemma resolve_same fs1 fs2 root path :
  fs_cwd fs1 = fs_cwd fs2 → (∀ p, fs_eval fs1 p = fs_eval fs2 p) →
  resolveInRoot fs1 root path = resolveInRoot fs2 root path.
Proof.
  intros Hc He. unfold resolveInRoot. rewrite Hc.
  destruct (Abs _ root) as [ra|]; [|done]. destruct (Abs _ (Join _)) as [rs|]; [|done]. by rewrite !He.
Qed.

(** C14: a preview shows nothing outside the workspace and nothing sensitive in it.
    Whatever path is asked for, links included, the answer of Read is the same
    over any two file systems that agree below the real root on the paths none of
    whose segments is sensitive (a credential directory or a secret file name). *)
Theorem read_sees_only_allowed fs1 fs2 {L : FSLaws fs1} root path :
  same_view root sensitive fs1 fs2 → Read fs1 root path = Read fs2 root path.
Proof.
  intros (Hc & He & Hv). unfold Read. rewrite <-(resolve_same fs1 fs2) by done.
  destruct (resolveInRoot fs1 root path) as [[final real]|e] eqn:Er; [|done].
  apply resolveInRoot_spec in Er as (rl & x & Hrl & Hx & Hroot & -> & ->); [|done].
  rewrite Rel_below by done. destruct (isNeverVisiblePath _ || isSecretFilePath _) eqn:Es; [done|].
  apply orb_false_iff in Es as [E1 E2].
  apply (below_forall isNeverVisibleEntry) in E1; [|done..]. apply (below_forall secret_segment) in E2; [|done..].
  destruct (Hv rl x Hroot) as (H1 & H2 & H3 & _); [by apply Forall_app|..].
  { apply Forall_forall. intros s Hs. unfold sensitive. rewrite Forall_forall in E1, E2. by rewrite E1, E2. }
  unfold read_image, read_text, looksLikeTextFile. by rewrite <-H1, <-H2, <-H3.
Qed.

(** What a listing hides. *)
Definition unlisted (includeHidden : bool) (s : string) : bool :=
  isNeverVisibleEntry s || (String.prefix "." s && negb includeHidden).

Lemma list_entry_spec real target ih name info e :
  list_entry real target ih (name, info) = Some e →
  we_name e = name ∧ unlisted ih name = false ∧ name ≠ "node_modules" ∧
  ∃ fi, info = Some fi ∧ fi_symlink fi = false ∧ Rel real (Join [target; name]) = Ok (we_path e) ∧
    we_dir e = fi_dir fi.
Proof.
  unfold list_entry, unlisted. destruct (String.eqb_spec name "node_modules"); [done|]. simpl.
  destruct (isNeverVisibleEntry name); [done|]. destruct (String.prefix "." name && negb ih); [done|].
  destruct info as [fi|]; [|done]. destruct (fi_symlink fi) eqn:Es; [done|].
  destruct (Rel _ _) as [rel|] eqn:Er; [|done]. intros [= <-]. simpl. repeat split; eauto.
Qed.

Lemma list_entry_hidden real target ih e :
  unlisted ih e.1 = true → list_entry real target ih e = None.
Proof.
  destruct e as [name info]. simpl. intros Hu. destruct (list_entry real target ih (name, info)) eqn:E; [|done].
  apply list_entry_spec in E as (_ & E & _). congruence.
Qed.

Lemma omap_visible real target ih (l : list DirEntry) :
  omap (list_entry real target ih) l =
  omap (list_entry real target ih) (filter (λ e, unlisted ih e.1 = false) l).
Proof.
  induction l as [|e l IH]; [done|]. rewrite filter_cons. destruct (unlisted ih e.1) eqn:E.
  - rewrite decide_False by done. cbn [omap list_omap]. by rewrite list_entry_hidden.
  - rewrite decide_True by done. cbn [omap list_omap]. by rewrite IH.
Qed.

(** The visible part of a directory decides its listing. *)
Lemma listing_of_view real target ih r1 r2 :
  dir_view (unlisted ih) r1 = dir_view (unlisted ih) r2 →
  match r1 with
  | Err _ => Ok []
  | Ok entries => Ok (merge_sort entry_le (omap (list_entry real target ih) entries))
  end =
  match r2 with
  | Err _ => @Ok wserr _ []
  | Ok entries => Ok (merge_sort entry_le (omap (list_entry real target ih) entries))
  end.
Proof.
  destruct r1 as [l1|], r2 as [l2|]; simpl; intros H; try done. injection H as H.
  by rewrite (omap_visible _ _ _ l1), (omap_visible _ _ _ l2), H.
Qed.

Lemma unlisted_below ih x :
  Forall proper x →
  negb (String.eqb (match x with [] => "." | _ => join x end) ".") &&
    (isNeverVisiblePath (match x with [] => "." | _ => join x end) ||
     (negb ih && isHiddenPath (match x with [] => "." | _ => join x end))) = false →
  Forall (λ s, unlisted ih s = false) x.
Proof.
  intros Hx H. destruct x as [|s x]; [by constructor|].
  assert (join (s :: x) ≠ ".") as Hd.
  { intros Hd. apply (f_equal split) in Hd. rewrite split_join in Hd by (done || by apply proper_no_slash).
    injection Hd as -> ->. by apply Forall_cons_1 in Hx as [(_ & _ & ? & _) _]. }
  apply String.eqb_neq in Hd. rewrite Hd in H. cbn [negb andb] in H. apply orb_false_iff in H as [H1 H2].
  unfold isNeverVisiblePath, isHiddenPath in *. pose proof (pathParts_below (s :: x) Hx) as Hp.
  cbn iota in Hp. rewrite Hp in H1, H2. clear Hp.
  revert H1 H2. generalize (s :: x). induction l as [|t l IH]; [constructor|]. simpl.
  intros [H1 H1']%orb_false_iff H2. apply andb_false_iff in H2 as [H2|H2].
  - constructor; [|apply IH; [done|by rewrite H2]]. unfold unlisted. by rewrite H1, H2, andb_false_r.
  - apply orb_false_iff in H2 as [H2 H2']. constructor; [|apply IH; [done|by rewrite H2', andb_false_r]].
    unfold unlisted. by rewrite H1, H2.
Qed.

(** A listing shows nothing outside the workspace and nothing hidden.  The
    answer of List is the same over any two file systems that agree below the
    real root on the directories none of whose segments is hidden, leaving out
    their hidden entries (credential directories always, dot names unless asked
    for). *)
Theorem list_shows_only_visible fs1 fs2 {L : FSLaws fs1} root dirPath ih :
  same_view root (unlisted ih) fs1 fs2 → List fs1 root dirPath ih = List fs2 root dirPath ih.
Proof.
  intros (Hc & He & Hv). unfold List. rewrite <-(resolve_same fs1 fs2) by done.
  destruct (resolveInRoot fs1 root dirPath) as [[final real]|[]] eqn:Er; [|done..].
  apply resolveInRoot_spec in Er as (rl & x & Hrl & Hx & Hroot & -> & ->); [|done].
  rewrite Rel_below by done. destruct (negb _ && _) eqn:Eh; [done|].
  apply unlisted_below in Eh; [|done].
  destruct (Hv rl x Hroot) as (_ & _ & _ & Hd); [by apply Forall_app|done|]. by apply listing_of_view.
Qed.

(** ** The listing itself *)

#[global] Instance entry_le_total : Total entry_le.
Proof.
  intros a b. unfold entry_le, entry_before. destruct (we_dir a) eqn:Ea, (we_dir b) eqn:Eb; simpl; auto;
    rewrite String.compare_antisym; destruct (String.compare (we_name b) (we_name a)); simpl; auto.
Qed.

(** A listing is the visible entries of its directory, each once, directories
    first and then by name; none is a link, a credential directory or
    node_modules, and dot names only appear when asked for. *)
Theorem list_spec fs root dirPath ih es :
  List fs root dirPath ih = Ok es →
  Sorted entry_le es ∧
  (es = [] ∨ ∃ target real l, resolveInRoot fs root dirPath = Ok (target, real) ∧ fs_readdir fs target = Ok l ∧
     es ≡ₚ omap (list_entry real target ih) l) ∧
  Forall (λ e, isNeverVisibleEntry (we_name e) = false ∧ we_name e ≠ "node_modules" ∧
     (ih = false → String.prefix "." (we_name e) = false)) es.
Proof.
  unfold List. destruct (resolveInRoot _ _ _) as [[target real]|[]] eqn:Er; [|done|].
  2: { intros [= <-]. split; [constructor|]. split; [by left|constructor]. }
  destruct (Rel real target) as [rel|]; [|done]. destruct (negb _ && _).
  { intros [= <-]. split; [constructor|]. split; [by left|constructor]. }
  destruct (fs_readdir fs target) as [l|] eqn:El; intros [= <-].
  2: { split; [constructor|]. split; [by left|constructor]. }
  split; [apply (Sorted_merge_sort entry_le)|]. split.
  - right. exists target, real, l. split_and!; try done. apply merge_sort_Permutation.
  - apply Forall_forall. intros e He. rewrite merge_sort_Permutation in He.
    apply list_elem_of_omap in He as ([name info] & _ & He). apply list_entry_spec in He as (-> & Hu & Hn & _).
    unfold unlisted in Hu. apply orb_false_iff in Hu as [H1 H2]. split_and!; try done.
    intros ->. by rewrite andb_true_r in H2.
Qed.

(** What the system documents of links: they are followed from the left, a
    resolved path resolves to itself, an entry that is no link adds nothing to
    follow, and entries have proper names. *)
Class LinkLaws (fs : FS) : Prop := {
  eval_from_left p q x : Forall proper p → Forall proper q → Forall proper x →
    fs_eval fs (of_segs p) = Ok (of_segs q) → fs_eval fs (of_segs (p ++ x)) = fs_eval fs (of_segs (q ++ x));
  eval_idem p q : fs_eval fs p = Ok q → fs_eval fs q = Ok q;
  eval_plain p l name fi : Forall proper p → fs_eval fs (of_segs p) = Ok (of_segs p) →
    fs_readdir fs (of_segs p) = Ok l → (name, Some fi) ∈ l → fi_symlink fi = false →
    fs_eval fs (of_segs (p ++ [name])) = Ok (of_segs (p ++ [name]));
  readdir_names p l e : fs_readdir fs p = Ok l → e ∈ l → proper e.1
}.

(** An entry that List returns is the file Read and List resolve its path to.
    The Path of a listed entry, handed back, resolves inside the same root to the
    entry itself. *)
Theorem listed_entry_resolves fs {L : FSLaws fs} {LL : LinkLaws fs} root dirPath ih es e :
  List fs root dirPath ih = Ok es → e ∈ es →
  ∃ target real, resolveInRoot fs root dirPath = Ok (target, real) ∧
    resolveInRoot fs root (we_path e) = Ok (Join [target; we_name e], real).
Proof.
  intros Hls He. apply list_spec in Hls as (_ & [->|(target & real & l & Hres & Hl & Hp)] & _); [by apply elem_of_nil in He|].
  exists target, real. split; [done|]. rewrite Hp in He. apply list_elem_of_omap in He as ([name info] & Hin & He).
  apply list_entry_spec in He as (Hname & _ & _ & fi & -> & Hsym & Hrel & _). rewrite Hname.
  pose proof (readdir_names _ _ _ Hl Hin) as Hpn. simpl in Hpn. pose proof Hres as Hres'.
  apply resolveInRoot_spec in Hres as (rl & x & Hrl & Hx & (ra & Hra & Hreal) & -> & ->); [|done].
  assert (Forall proper [name]) as Hn1 by (constructor; [exact Hpn|constructor]).
  assert (Forall proper (rl ++ x)) as Hrx by (by apply Forall_app).
  assert (Forall proper (x ++ [name])) as Hxn by (by apply Forall_app).
  change name with (join [name]) in Hrel. change name with (join [name]).
  rewrite Join_below in Hrel |- * by done. rewrite <-app_assoc in Hrel |- *. rewrite Rel_below in Hrel by done.
  assert (we_path e = join (x ++ [name])) as ->.
  { destruct (x ++ [name]) eqn:E.
    - by destruct x.
    - by injection Hrel. }
  destruct (Abs_clean fs _ _ Hra) as (al & Hal & ->).
  unfold resolveInRoot. rewrite Hra. rewrite Join_below by (done || by destruct x).
  assert (Forall proper (al ++ x ++ [name])) as Haxn by (by apply Forall_app).
  unfold Abs at 1. rewrite IsAbs_of_segs, Clean_of_segs by done.
  rewrite (proj2 (withinRoot_segs al _ Hal Haxn)) by eauto. simpl negb. cbv iota.
  assert (fs_eval fs (of_segs (rl ++ x)) = Ok (of_segs (rl ++ x))) as Hev.
  { clear -Hres' LL. unfold resolveInRoot in Hres'. case_all Hres'; by eapply eval_idem. }
  pose proof (eval_plain _ _ _ _ Hrx Hev Hl Hin Hsym) as Hfin. rewrite <-app_assoc in Hfin.
  assert (fs_eval fs (of_segs (al ++ x ++ [name])) = Ok (of_segs (rl ++ x ++ [name]))) as ->.
  { destruct (fs_eval fs (of_segs al)) as [r|] eqn:Ea.
    - rewrite <-Hreal in Ea. by rewrite (eval_from_left al rl _ Hal Hrl Hxn Ea).
    - apply of_segs_inj in Hreal as ->; done. }
  assert (Forall proper (rl ++ x ++ [name])) as Hfinal by (by apply Forall_app).
  rewrite <-Hreal, (proj2 (withinRoot_segs rl _ Hrl Hfinal)) by eauto. done.
Qed.

(** ** Previews that go wrong *)

(** The answer of Read for a file below the root that the policy allows and whose
    extension is not an image's. *)
Lemma read_file fs root path final real rel info :
  resolveInRoot fs root path = Ok (final, real) → Rel real final = Ok rel →
  isNeverVisiblePath rel || isSecretFilePath rel = false →
  fs_stat fs final = Ok info → fi_dir info = false → imageMime (ToLower (Ext final)) = None →
  Read fs root path =
    match (if existsb (String.eqb (ToLower (Ext final))) textExtensions then Ok true else looksLikeTextFile fs final) with
    | Err e => Err (OsError e)
    | Ok false => Ok (MkRead "" true (fi_size info) "" "" "")
    | Ok true => read_text fs final (fi_size info)
    end.
Proof. intros H1 H2 H3 H4 H5 H6. unfold Read. by rewrite H1, H2, H3, H4, H5, H6. Qed.

Lemma utf8_app a l : utf8_valid a = true → utf8_valid (a ++ l) = utf8_valid l.
Proof.
  remember (length a) as n eqn:En. revert a En. induction (lt_wf n) as [n _ IH]. intros a -> Ha.
  destruct a as [|b0 a]; [done|]. simpl in Ha |- *. destruct (within 0 127 b0).
  { apply (IH (length a)); simpl; [lia|done|done]. }
  destruct a as [|b1 a]; [done|]. simpl. destruct (within 194 223 b0).
  { apply andb_prop in Ha as [-> Ha]. simpl. apply (IH (length a)); simpl; [lia|done|done]. }
  destruct a as [|b2 a]; [done|]. simpl. destruct (within 224 239 b0).
  { apply andb_prop in Ha as [-> Ha]. simpl. apply (IH (length a)); simpl; [lia|done|done]. }
  destruct a as [|b3 a]; [done|]. simpl.
  apply andb_prop in Ha as [-> Ha]. simpl. apply (IH (length a)); simpl; [lia|done|done].
Qed.

(** The encoding of one rune above ASCII. *)
Definition rune (r : list ascii) : Prop :=
  utf8_valid r = true ∧
  match r with
  | [a; _] => within 194 223 a = true
  | [a; _; _] => within 224 239 a = true
  | [a; _; _; _] => within 240 244 a = true
  | _ => False
  end.

Lemma within_disjoint lo hi lo' hi' c : hi < lo' → within lo' hi' c = true → within lo hi c = false.
Proof. unfold within. rewrite andb_true_iff, andb_false_iff, !Z.leb_le, !Z.leb_gt. lia. Qed.

Lemma rune_cut r k : rune r → (0 < k < length r)%nat → utf8_valid (take k r) = false.
Proof.
  intros [_ Hr] Hk. destruct r as [|a [|b [|c [|d [|? r]]]]]; try done; simpl in Hk.
  - replace k with 1%nat by lia. simpl. by rewrite (within_disjoint 0 127 194 223).
  - assert (within 0 127 a = false) as H1 by (by apply (within_disjoint 0 127 224 239)).
    assert (within 194 223 a = false) as H2 by (by apply (within_disjoint 194 223 224 239)).
    destruct k as [|[|[|k]]]; try lia; simpl; by rewrite H1, ?H2.
  - assert (within 0 127 a = false) as H1 by (by apply (within_disjoint 0 127 240 244)).
    assert (within 194 223 a = false) as H2 by (by apply (within_disjoint 194 223 240 244)).
    assert (within 224 239 a = false) as H3 by (by apply (within_disjoint 224 239 240 244)).
    destruct k as [|[|[|[|k]]]]; try lia; simpl; by rewrite H1, ?H2, ?H3.
Qed.

(** A text file with a rune across its 8000th byte is shown as binary.  The
    head that is sniffed is cut at a byte count and must be valid UTF-8 by itself:
    a file of an unlisted extension that is valid UTF-8 throughout, with a rune
    that starts before the cut and ends after it, is answered as binary, without
    its text. *)
Theorem sniff_splits_rune fs root path final real rel info a r b :
  resolveInRoot fs root path = Ok (final, real) → Rel real final = Ok rel →
  isNeverVisiblePath rel || isSecretFilePath rel = false →
  fs_stat fs final = Ok info → fi_dir info = false → imageMime (ToLower (Ext final)) = None →
  existsb (String.eqb (ToLower (Ext final))) textExtensions = false →
  utf8_valid a = true → rune r → utf8_valid b = true →
  (length a < Z.to_nat textSniffBytes < length a + length r)%nat →
  fs_head fs final textSniffBytes =
    Ok (String.string_of_list_ascii (take (Z.to_nat textSniffBytes) (a ++ r ++ b))) →
  utf8_valid (a ++ r ++ b) = true ∧ Read fs root path = Ok (MkRead "" true (fi_size info) "" "" "").
Proof.
  intros H1 H2 H3 H4 H5 H6 Hx Ha Hr Hb Hn Hh. split.
  { rewrite utf8_app by done. rewrite utf8_app by (by destruct Hr). done. }
  rewrite (read_file fs root path final real rel info) by done. rewrite Hx. unfold looksLikeTextFile.
  rewrite Hh, String.list_ascii_of_string_of_list_ascii.
  rewrite take_app_ge by lia. rewrite take_app_le by lia.
  rewrite (utf8_app a), (rune_cut r) by (done || lia). destruct (existsb _ (a ++ _)); reflexivity.
Qed.

(** A file with a trusted text extension is sent as it is.  Its bytes go into
    the reply's string field even when they are no valid UTF-8, and such a message
    does not marshal. *)
Theorem trusted_extension_not_validated fs root path final real rel info data :
  resolveInRoot fs root path = Ok (final, real) → Rel real final = Ok rel →
  isNeverVisiblePath rel || isSecretFilePath rel = false →
  fs_stat fs final = Ok info → fi_dir info = false → imageMime (ToLower (Ext final)) = None →
  existsb (String.eqb (ToLower (Ext final))) textExtensions = true → fi_size info ≤ textFileMaxBytes →
  fs_read fs final = Ok data → utf8_valid (String.list_ascii_of_string data) = false →
  Read fs root path = Ok (MkRead data false (fi_size info) "" "utf-8" "").
Proof.
  intros H1 H2 H3 H4 H5 H6 Hx Hsz Hd _. rewrite (read_file fs root path final real rel info) by done.
  rewrite Hx. unfold read_text. rewrite (proj2 (Z.ltb_ge _ _)) by done. by rewrite Hd.
Qed.

Module WorkspaceDemo.
Definition file (files : list (string * string)) (p : string) : option (string * string) :=
  find (λ f, String.eqb (fst f) p) files.

(** A disk without links: [files] by path, one directory /w/a. *)
Definition disk (files : list (string * string)) (entries : list DirEntry) : FS := {|
  fs_cwd := Ok "/";
  fs_eval p := if IsAbs p then Ok (Clean p) else Err "lstat";
  fs_stat p := match file files p with
    | Some f => Ok (MkInfo false (Z.of_nat (String.length (snd f))) 0 false)
    | None => Err "stat"
    end;
  fs_readdir p := if String.eqb p "/w/a" then Ok entries else Err "open";
  fs_read p := match file files p with Some f => Ok (snd f) | None => Err "open" end;
  fs_head p n := match file files p with
    | Some f => Ok (String.string_of_list_ascii (take (Z.to_nat n) (String.list_ascii_of_string (snd f))))
    | None => Err "open"
    end
|}.

#[local] Instance disk_laws files entries : FSLaws (disk files entries).
Proof.
  split; simpl.
  - intros p q Hp. rewrite Hp. intros [= <-]. by apply Clean_abs_clean.
  - by intros wd [= <-].
Qed.

Lemma disk_links files entries :
  Forall (λ e, proper e.1) entries → LinkLaws (disk files entries).
Proof.
  intros He. split; simpl.
  - intros p q x Hp Hq Hx. rewrite Clean_of_segs by done. intros E.
    assert (of_segs p = of_segs q) as E' by congruence. by apply of_segs_inj in E' as ->.
  - intros p q. destruct (IsAbs p) eqn:Ep; [|done]. intros [= <-].
    pose proof (Clean_abs_clean p Ep) as Hc. rewrite (abs_clean_IsAbs _ Hc). by rewrite Clean_idem.
  - intros p l name fi Hp _ Hl Hin _. rewrite Clean_of_segs; [done|]. apply Forall_app. split; [done|].
    destruct (String.eqb _ _); [|done]. injection Hl as <-. rewrite Forall_forall in He.
    constructor; [exact (He _ Hin)|constructor].
  - intros p l e Hl Hin. destruct (String.eqb _ _); [|done]. injection Hl as <-. rewrite Forall_forall in He. by apply He.
Qed.

Definition info : option FileInfo := Some (MkInfo false 5 0 false).
Definition dir : list DirEntry := [("b.txt", info); (".git", info); ("a.go", info); ("sub", Some (MkInfo true 0 0 false))].
Definition d1 : FS := disk [("/w/a/.env", "KEY=1"); ("/w/a/b.txt", "hello")] ((".ssh", info) :: dir).
Definition d2 : FS := disk [("/w/a/.env", "KEY=2!"); ("/w/a/b.txt", "hello")] dir.

#[local] Instance d1_laws : FSLaws d1 := disk_laws _ _.
#[local] Instance d2_laws : FSLaws d2 := disk_laws _ _.

Lemma file_other k v v' files p : p ≠ k → file ((k, v) :: files) p = file ((k, v') :: files) p.
Proof. intros H. unfold file. cbn [find fst]. by rewrite (proj2 (String.eqb_neq k p)). Qed.

Lemma demo_segs rl x :
  realRoot d1 "/w/a" rl → Forall proper (rl ++ x) → rl = ["w"; "a"].
Proof.
  intros (ra & Hra & Hrl) Hp. injection Hra as <-. change (Clean "/w/a") with (of_segs ["w"; "a"]) in Hrl.
  simpl in Hrl. change (Clean "/w/a") with (of_segs ["w"; "a"]) in Hrl. apply Forall_app in Hp as [Hp _].
  apply of_segs_inj in Hrl; [done..|]. repeat first [constructor | apply Forall_cons_2]; done.
Qed.

Lemma demo_view (hidden : string → bool) :
  hidden ".env" = true → hidden ".ssh" = true → same_view "/w/a" hidden d1 d2.
Proof.
  intros He Hs. split; [done|]. split; [done|]. intros rl x Hroot Hp Hx. pose proof (demo_segs rl x Hroot Hp) as ->.
  assert (of_segs (["w"; "a"] ++ x) ≠ "/w/a/.env") as Hne.
  { change "/w/a/.env" with (of_segs ["w"; "a"; ".env"]). intros E. apply of_segs_inj in E; [|done|].
    - injection E as ->. apply Forall_cons_1 in Hx as [Hx _]. by rewrite He in Hx.
    - repeat first [constructor | apply Forall_cons_2]; done. }
  unfold d1, d2, disk. cbn [fs_stat fs_read fs_head fs_readdir].
  rewrite (file_other "/w/a/.env" "KEY=1" "KEY=2!") by done. split_and!; try done.
  destruct (String.eqb _ "/w/a"); [|done]. unfold dir_view. rewrite filter_cons.
  by rewrite decide_False by (cbn [fst]; by rewrite Hs).
Qed.

(** The two disks differ in the secret, and Read cannot tell. *)
Lemma read_sees_only_allowed_witness :
  fs_read d1 "/w/a/.env" ≠ fs_read d2 "/w/a/.env" ∧
  Read d1 "/w/a" "sub/../.env" = Read d2 "/w/a" "sub/../.env".
Proof. split; [done|]. apply (read_sees_only_allowed d1 d2), demo_view; reflexivity. Defined.

Lemma list_shows_only_visible_witness :
  we_name <$> match List d1 "/w/a" "" false with Ok l => l | Err _ => [] end = ["sub"; "a.go"; "b.txt"] ∧
  List d1 "/w/a" "" false = List d2 "/w/a" "" false.
Proof. split; [vm_compute; reflexivity|]. apply (list_shows_only_visible d1 d2), demo_view; reflexivity. Defined.

Lemma list_spec_witness : ∃ es, List d1 "/w/a" "." true = Ok es ∧ Sorted entry_le es ∧ length es = 4%nat.
Proof.
  destruct (List d1 "/w/a" "." true) as [es|e] eqn:E; [|exfalso; vm_compute in E; discriminate E].
  exists es. split; [reflexivity|]. split; [exact (proj1 (list_spec d1 "/w/a" "." true es E))|].
  revert E. vm_compute. intros E. injection E as <-. reflexivity.
Defined.

Lemma listed_entry_resolves_witness :
  ∃ target real, resolveInRoot d2 "/w/a" "x/.." = Ok (target, real) ∧
    resolveInRoot d2 "/w/a" "b.txt" = Ok (Join [target; "b.txt"], real).
Proof.
  assert (LinkLaws d2) as LL.
  { apply disk_links. repeat first [apply Forall_cons_2 | apply Forall_nil_2]; done. }
  apply (listed_entry_resolves d2 "/w/a" "x/.." false
    [MkEntry "sub" "sub" true 0 0 false; MkEntry "a.go" "a.go" false 5 0 false; MkEntry "b.txt" "b.txt" false 5 0 false]
    (MkEntry "b.txt" "b.txt" false 5 0 false)).
  - vm_compute. reflexivity.
  - apply list_elem_of_further, list_elem_of_further, list_elem_of_here.
Defined.

Definition prose : list ascii := replicate (Z.to_nat 7999) "a"%char.
Definition eacute : list ascii := [Strings.byte_of 195; Strings.byte_of 169].
Definition d3 : FS :=
  disk [("/w/a/notes.rst", String.string_of_list_ascii (prose ++ eacute ++ prose));
        ("/w/a/old.txt", String (Strings.byte_of 255) "x")] [].

Lemma sniff_splits_rune_witness :
  utf8_valid (prose ++ eacute ++ prose) = true ∧
  Read d3 "/w/a" "notes.rst" = Ok (MkRead "" true 16000 "" "" "").
Proof.
  apply (sniff_splits_rune d3 "/w/a" "notes.rst" "/w/a/notes.rst" "/w/a" "notes.rst" (MkInfo false 16000 0 false) prose eacute prose);
    try (vm_compute; reflexivity); [vm_compute; split; reflexivity|].
  vm_compute. split; repeat constructor.
Defined.

Lemma trusted_extension_not_validated_witness :
  Read d3 "/w/a" "old.txt" = Ok (MkRead (String (Strings.byte_of 255) "x") false 2 "" "utf-8" "").
Proof.
  apply (trusted_extension_not_validated d3 "/w/a" "old.txt" "/w/a/old.txt" "/w/a" "old.txt" (MkInfo false 2 0 false));
    try (vm_compute; reflexivity). vm_compute. discriminate.
Defined.
End WorkspaceDemo.
