(* ===== verification/Config.v ===== *)
(** The configuration of an agent, from the form to the launch: the machine's
    data root ([backend/agent/home]), the providers ([backend/agent/provider]), the
    ACP and thread configurations ([backend/agent/executor/acp_config.go],
    [thread_executor.go], [thread_process.go]), the pi configuration
    ([backend/agent/pi/config.go]), and the manager's validation and resolution of
    a configuration ([backend/manager/api/v1/agent_config.go],
    [agent_api_provider.go]).

    [sha16] is the hexadecimal prefix of SHA-256 the fingerprints take. *)

From Stdlib Require Import Ascii.
From stdpp Require Import base list strings numbers gmap pretty.
From S2P Require Import Prelude Strings Names Paths Executor.
Local Open Scope Z_scope.

(** ** home.go *)

(** Dir: [env] is LAELIA_HOME, [userhome] what the home directory resolves to. *)
Definition home_Dir (env : string) (cwd : res string string) (userhome : string) : string :=
  if negb (String.eqb env "") then match Abs cwd env with Ok abs => abs | Err _ => env end
  else Join [userhome; ".laelia"].

Definition home_Join (dir : string) (elem : list string) : string := Join (dir :: elem).

(** ** Limits *)

Record Limits := MkLimits {
  lm_max_timeout : Z; lm_max_events : Z; lm_max_output : Z; lm_flush : Z; lm_startup : Z }.

Definition DefaultMaxTimeoutSeconds : Z := 1800.
Definition DefaultMaxEventCount : Z := 10000.
Definition DefaultMaxOutputBytes : Z := 2^20.
Definition DefaultOutputFlushBytes : Z := 4096.
Definition defaultACPStartupTimeout : Z := 60 * Second.
Definition defaultStartupTimeout : Z := 30 * Second.
Definition defaultIdleTimeout : Z := 5 * Minute.

Definition default_limits (startup : Z) : Limits :=
  MkLimits DefaultMaxTimeoutSeconds DefaultMaxEventCount DefaultMaxOutputBytes DefaultOutputFlushBytes startup.

(** ** The form: AgentACPConfig *)

Record AgentACPConfig := MkForm {
  fm_executable : string;
  fm_args : list string;
  fm_allow_env : list string;
  fm_provider : string;
  fm_model : string;
  fm_custom_env : gmap string string;
  fm_persona : string;
  fm_api_provider : string;
  fm_api_key : string;
  fm_global_provider : string;
  fm_global_entry : string;
  fm_protocol : string;
  fm_api_base_url : string;
  fm_context_window : Z;
  fm_max_tokens : Z
}.

(** ** provider: the registry of built-in providers *)

(** [pv_thread]: the command of a ThreadProvider; [pv_nonacp]: a NonACPRuntime. *)
Record Provider := MkProvider {
  pv_id : string;
  pv_command : string → string * list string;
  pv_thread : option (string → string * list string);
  pv_nonacp : bool
}.

Definition PiProviderID : string := "pi".

Definition OpenCodeProvider : Provider :=
  MkProvider "opencode" (λ dir, ("opencode", ["acp"; "--pure"; "--cwd"; dir])) None false.
Definition ClaudeCodeProvider : Provider :=
  MkProvider "claude-code" (λ _, ("npx", ["-y"; "@agentclientprotocol/claude-agent-acp@latest"])) None false.
Definition CodexProvider : Provider :=
  MkProvider "codex" (λ _, ("codex", ["app-server"; "--listen"; "stdio://"]))
    (Some (λ _, ("codex", ["app-server"; "--listen"; "stdio://"]))) false.
Definition PiProvider : Provider := MkProvider PiProviderID (λ _, ("pi", ["--mode"; "rpc"])) None true.

Definition Default : list Provider := [OpenCodeProvider; ClaudeCodeProvider; CodexProvider; PiProvider].
Definition Lookup (id : string) : option Provider := find (λ p, String.eqb (pv_id p) id) Default.

(** ** acp_config.go *)

Definition ProtocolV1 : string := "acp-v1".
Definition ProtocolV2 : string := "acp-v2".

Record ACPConfig := MkACP {
  ac_limits : Limits;
  ac_provider : string;
  ac_model : string;
  ac_executable : string;
  ac_args : list string;
  ac_protocol : string;
  ac_persona : string;
  ac_custom_env : gmap string string;
  ac_allow_env : list string;
  ac_working_dir : string;
  ac_mcp_servers : list string;
  ac_supports : bool
}.

Definition AgentWorkingDir (home machineID agentID : string) : string := home_Join home [machineID; agentID].

Definition resolvedCommand (home : string) (user : AgentACPConfig) (machineID agentID : string) : string * list string :=
  match Lookup (fm_provider user) with
  | Some p => pv_command p (AgentWorkingDir home machineID agentID)
  | None => (fm_executable user, fm_args user)
  end.

Definition BuildACPConfig (home : string) (user : option AgentACPConfig) (machineID agentID : string) : option ACPConfig :=
  match user with
  | None => None
  | Some user =>
      if match Lookup (fm_provider user) with Some p => pv_nonacp p | None => false end then None else
      let '(executable, args) := resolvedCommand home user machineID agentID in
      if String.eqb executable "" then None else
      Some (MkACP (default_limits defaultACPStartupTimeout) (fm_provider user) (fm_model user) executable args
        (fm_protocol user) (fm_persona user) (fm_custom_env user) (fm_allow_env user)
        (AgentWorkingDir home machineID agentID) [] true)
  end.

(** ** thread_executor.go, thread_process.go *)

Record ThreadConfig := MkThread {
  tc_limits : Limits; tc_idle : Z; tc_provider : string; tc_model : string; tc_working_dir : string;
  tc_persona : string; tc_protocol : string; tc_custom_env : gmap string string; tc_allow_env : list string;
  tc_mcp_servers : list string; tc_supports_raw : bool }.

Definition BuildThreadConfig (cfg : ACPConfig) : ThreadConfig :=
  MkThread (ac_limits cfg) 0 (ac_provider cfg) (ac_model cfg) (ac_working_dir cfg) (ac_persona cfg)
    (ac_protocol cfg) (ac_custom_env cfg) (ac_allow_env cfg) (ac_mcp_servers cfg) (ac_supports cfg).

Definition NUL : ascii := "000"%char.
Definition nul_join (parts : list string) : string := String.concat (String NUL "") parts.

Definition threadFingerprint (sha16 : string → string) (cfg : ThreadConfig)
    (command : string → string * list string) : string :=
  let '(exe, args) := command (tc_working_dir cfg) in
  let protocol := if String.eqb (tc_protocol cfg) "" then ProtocolV2 else tc_protocol cfg in
  sha16 (nul_join [tc_provider cfg; tc_model cfg; tc_working_dir cfg; protocol; exe; nul_join args]).

(** ** pi/config.go *)

Definition BuiltinPiProvider : string := "builtin-pi".
Definition UserPiProvider : string := "pi".
Definition IsPiProvider (id : string) : bool := String.eqb id BuiltinPiProvider || String.eqb id UserPiProvider.

Definition APIProviderDeepseek : string := "deepseek".
Definition APIProviderOpenRouter : string := "openrouter".
Definition APIProviderCustom : string := "custom".

(** The pi provider id and the key variable of each API provider. *)
Definition apiProviders : list (string * (string * string)) :=
  [(APIProviderDeepseek, ("deepseek", "DEEPSEEK_API_KEY"));
   (APIProviderOpenRouter, ("openrouter", "OPENROUTER_API_KEY"));
   (APIProviderCustom, ("custom", "LAELIA_CUSTOM_API_KEY"))].
Definition IsKnownAPIProvider (id : string) : bool := existsb (λ p, String.eqb (fst p) id) apiProviders.

Record PiConfig := MkPi {
  pc_api_provider : string; pc_model : string; pc_api_key : string; pc_base_url : string; pc_persona : string;
  pc_context_window : Z; pc_max_tokens : Z; pc_config_dir : string; pc_working_dir : string; pc_binary : string;
  pc_agent : string; pc_socket : string; pc_token : string; pc_binary_dir : string;
  pc_machine : string; pc_agent_id : string; pc_limits : Limits; pc_idle : Z; pc_mcp_proxy : string }.

Definition blank (s : string) : bool := String.eqb (Strings.TrimSpace s) "".

Definition BuildPiConfig (home : string) (user : option AgentACPConfig)
    (machineID agentID agentResourceID piBinaryPath daemonSocket sessionToken binaryDir : string) : option PiConfig :=
  match user with
  | None => None
  | Some user =>
      if negb (IsPiProvider (fm_provider user)) then None else
      if blank (fm_model user) then None else
      let ownMode := String.eqb (fm_provider user) UserPiProvider
        && String.eqb (fm_global_provider user) "" && String.eqb (fm_api_provider user) "" in
      if negb ownMode && negb (IsKnownAPIProvider (fm_api_provider user)) then None else
      if negb ownMode && blank (fm_api_key user) then None else
      if negb ownMode && String.eqb (fm_api_provider user) APIProviderCustom && blank (fm_api_base_url user) then None else
      let workingDir := AgentWorkingDir home machineID agentID in
      Some (MkPi (fm_api_provider user) (fm_model user) (fm_api_key user) (Strings.TrimSpace (fm_api_base_url user))
        (fm_persona user) (fm_context_window user) (fm_max_tokens user)
        (if String.eqb (fm_api_provider user) APIProviderCustom then Join [workingDir; ".pi-agent"] else "")
        workingDir piBinaryPath agentResourceID daemonSocket sessionToken binaryDir machineID agentID
        (default_limits defaultStartupTimeout) defaultIdleTimeout "")
  end.

(** The text LaunchFingerprint hashes: the bundle version follows the token limit
    without a separator. *)
Definition launch_text (bundle : string) (c : PiConfig) : string :=
  nul_join [pc_api_provider c; pc_model c; pc_api_key c; pc_base_url c; pc_binary c;
    pretty (pc_context_window c); pretty (pc_max_tokens c) +:+ bundle; pc_persona c].

Definition LaunchFingerprint (sha16 : string → string) (bundle : string) (c : PiConfig) : string :=
  sha16 (launch_text bundle c).

(** ** Capabilities *)

Record AgentCapability := MkCapability {
  ca_acp : bool; ca_pi : bool; ca_timeout : Z; ca_diff : bool; ca_raw : bool; ca_traces : bool;
  ca_events : Z; ca_output : Z; ca_autonomous : bool }.

Definition no_acp : AgentCapability :=
  MkCapability false false DefaultMaxTimeoutSeconds false false false DefaultMaxEventCount DefaultMaxOutputBytes false.

Definition Capability (c : option ACPConfig) : AgentCapability :=
  match c with
  | None => no_acp
  | Some c =>
      if String.eqb (ac_executable c) "" then no_acp else
      MkCapability true false (lm_max_timeout (ac_limits c)) (ac_supports c) (ac_supports c) (ac_supports c)
        (lm_max_events (ac_limits c)) (lm_max_output (ac_limits c)) true
  end.

Definition BuildCapability (home : string) (user : option AgentACPConfig) : AgentCapability :=
  Capability (BuildACPConfig home user "" "").

Definition BuildPiCapability (user : option AgentACPConfig) : AgentCapability :=
  match user with
  | Some u =>
      if IsPiProvider (fm_provider u)
      then MkCapability false true DefaultMaxTimeoutSeconds true true true DefaultMaxEventCount DefaultMaxOutputBytes true
      else MkCapability false false 0 false false false 0 0 false
  | None => MkCapability false false 0 false false false 0 0 false
  end.

Definition buildCapabilityForACPConfig (home : string) (cfg : option AgentACPConfig) : AgentCapability :=
  match cfg with
  | Some u => if IsPiProvider (fm_provider u) then BuildPiCapability cfg else BuildCapability home cfg
  | None => BuildCapability home cfg
  end.

(** ** agent_config.go: the validation *)

Record AgentProviderInfo := MkInfo {
  in_provider_id : string; in_supports_model : bool; in_models : list string; in_compatible : bool }.

Definition knownProviderID (id : string) : bool :=
  String.eqb id "custom" || String.eqb id BuiltinPiProvider ||
  match Lookup id with Some _ => true | None => false end.

Definition providerAvailable (id : string) (available : list AgentProviderInfo) : bool :=
  existsb (λ p, String.eqb (in_provider_id p) id) available.

Definition providerSupportsModel (id : string) (available : list AgentProviderInfo) : bool :=
  match find (λ p, String.eqb (in_provider_id p) id) available with
  | Some p => in_supports_model p && negb (bool_decide (in_models p = []))
  | None => false
  end.

Definition env_start (c : ascii) : bool := Strings.is_lower c || Strings.is_upper c || Ascii.eqb c "_"%char.
Definition envVarName (s : string) : bool :=
  match s with
  | EmptyString => false
  | String c rest => env_start c && Strings.str_forallb (λ c, env_start c || Strings.is_digit c) rest
  end.

(** The pi branch of validateAgentACPConfig. *)
Definition validate_pi (cfg : AgentACPConfig) (available : list AgentProviderInfo) : res string unit :=
  let user_pi := String.eqb (fm_provider cfg) UserPiProvider in
  if user_pi && negb (bool_decide (available = [])) && negb (providerAvailable (fm_provider cfg) available)
  then Err "provider is not available on the owning machine"
  else if user_pi && existsb (λ p, String.eqb (in_provider_id p) (fm_provider cfg) && negb (in_compatible p)) available
  then Err "provider is not compatible"
  else if negb (String.eqb (fm_global_provider cfg) "") || negb (String.eqb (fm_global_entry cfg) "") then
    if String.eqb (fm_global_provider cfg) "" || String.eqb (fm_global_entry cfg) "" then Err "both must be set" else
    match GetAPIProviderResourceID (fm_global_provider cfg) with
    | Err _ => Err "invalid global_provider"
    | Ok providerID =>
        match ParseAPIProviderEntryName (fm_global_entry cfg) with
        | Err _ => Err "invalid global_provider_entry"
        | Ok (entryProvider, _) =>
            if negb (String.eqb entryProvider providerID) then Err "entry does not belong to provider" else Ok tt
        end
    end
  else if user_pi && String.eqb (fm_api_provider cfg) "" then
    if blank (fm_model cfg) then Err "model must be set for user pi" else Ok tt
  else if negb (IsKnownAPIProvider (fm_api_provider cfg)) && negb (String.eqb (fm_api_provider cfg) APIProviderCustom)
  then Err "api_provider is not supported"
  else if String.eqb (fm_api_provider cfg) APIProviderCustom && blank (fm_api_base_url cfg) then Err "api_base_url must be set"
  else if blank (fm_api_key cfg) then Err "api_key must be set"
  else if blank (fm_model cfg) then Err "model must be set"
  else Ok tt.

(** The protocol a built-in provider may be declared with. *)
Definition validate_protocol (p : option Provider) (protocol : string) : bool :=
  match p with
  | Some p =>
      match pv_thread p with
      | Some _ => negb (String.eqb protocol ProtocolV1)
      | None => negb (String.eqb protocol ProtocolV2)
      end
  | None => true
  end.

Definition validateAgentACPConfig (cfg : option AgentACPConfig) (available : list AgentProviderInfo) : res string unit :=
  match cfg with
  | None => Err "acp_config must be set"
  | Some cfg =>
      if String.eqb (fm_provider cfg) "" then Err "provider must be set"
      else if negb (knownProviderID (fm_provider cfg)) then Err "invalid provider"
      else if negb (String.eqb (fm_protocol cfg) "") && negb (String.eqb (fm_protocol cfg) ProtocolV1)
           && negb (String.eqb (fm_protocol cfg) ProtocolV2) then Err "invalid protocol"
      else if fm_context_window cfg <? 0 then Err "context_window must be non-negative"
      else if fm_max_tokens cfg <? 0 then Err "max_tokens must be non-negative"
      else if IsPiProvider (fm_provider cfg) then validate_pi cfg available
      else
        let p := Lookup (fm_provider cfg) in
        let isBuiltin := match p with Some _ => true | None => false end in
        if negb isBuiltin && String.eqb (fm_executable cfg) "" then Err "executable must be set"
        else if negb (validate_protocol p (fm_protocol cfg)) then Err "protocol not supported by the provider"
        else if negb (bool_decide (available = [])) && isBuiltin && negb (providerAvailable (fm_provider cfg) available)
        then Err "provider is not available on the owning machine"
        else if negb (bool_decide (available = [])) && isBuiltin && providerSupportsModel (fm_provider cfg) available
             && String.eqb (fm_model cfg) "" then Err "model must be set"
        else if negb (forallb envVarName (fm_allow_env cfg)) then Err "invalid allow_env entry"
        else if negb (forallb (λ kv, envVarName kv.1) (map_to_list (fm_custom_env cfg))) then Err "invalid custom_env key"
        else Ok tt
  end.

(** ** agent_api_provider.go: the reference to a global provider *)

Record APIProviderEntry := MkAPIEntry { ae_id : Z; ae_key : string; ae_model : string }.
Record APIProvider := MkAPI { ap_type : string; ap_base_url : string; ap_entries : list APIProviderEntry }.

(** [stored]: the answer of the store for a provider's resource id. *)
Definition resolveAcpConfigForDaemon (stored : string → res string (option APIProvider))
    (cfg : option AgentACPConfig) : res string (option AgentACPConfig) :=
  match cfg with
  | None => Ok None
  | Some cfg =>
      if negb (IsPiProvider (fm_provider cfg)) || String.eqb (fm_global_provider cfg) "" then Ok (Some cfg) else
      match GetAPIProviderResourceID (fm_global_provider cfg) with
      | Err _ => Err "invalid global_provider"
      | Ok id =>
          match stored id with
          | Err e => Err e
          | Ok None => Err "global provider not found"
          | Ok (Some provider) =>
              match ParseAPIProviderEntryName (fm_global_entry cfg) with
              | Err _ => Err "invalid global_provider_entry"
              | Ok (_, entryID) =>
                  match find (λ e, String.eqb (pretty (ae_id e)) entryID) (ap_entries provider) with
                  | None => Err "entry not found"
                  | Some entry =>
                      Ok (Some (MkForm "" [] [] (fm_provider cfg) (ae_model entry) ∅ (fm_persona cfg)
                        (ap_type provider) (ae_key entry) "" "" "" (ap_base_url provider)
                        (fm_context_window cfg) (fm_max_tokens cfg)))
                  end
              end
          end
      end
  end.

(** ** From the accepted form to the machine *)

(** What the store holds of a global provider: the creation requests are refused
    without a known type, a key, a model, and a base URL for a custom one. *)
Definition usable (p : APIProvider) (e : APIProviderEntry) : Prop :=
  IsKnownAPIProvider (ap_type p) = true ∧ blank (ae_key e) = false ∧ blank (ae_model e) = false ∧
  (ap_type p = APIProviderCustom → blank (ap_base_url p) = false).

Lemma find_in {A} (f : A → bool) l x : find f l = Some x → x ∈ l ∧ f x = true.
Proof. intros H. apply find_some in H as [Hin Hf]. split; [|done]. by apply list_elem_of_In. Qed.

Lemma known_nonempty id : IsKnownAPIProvider id = true → String.eqb id "" = false.
Proof. by destruct id. Qed.

(** Every built-in provider has a command. *)
Lemma builtin_command p dir : p ∈ Default → String.eqb (pv_command p dir).1 "" = false.
Proof.
  unfold Default. intros H. repeat (apply elem_of_cons in H as [->|H]; [done|]). by apply elem_of_nil in H.
Qed.

(** Of the built-in providers only pi is no ACP runtime. *)
Lemma nonacp_is_pi p : p ∈ Default → pv_nonacp p = true → pv_id p = UserPiProvider.
Proof.
  unfold Default. intros H. repeat (apply elem_of_cons in H as [->|H]; [done|]). by apply elem_of_nil in H.
Qed.

Lemma pi_form_builds home u machine agent res binary sock tok bdir :
  IsPiProvider (fm_provider u) = true → blank (fm_model u) = false →
  (String.eqb (fm_provider u) UserPiProvider && String.eqb (fm_global_provider u) "" &&
     String.eqb (fm_api_provider u) "" = true ∨
   (IsKnownAPIProvider (fm_api_provider u) = true ∧ blank (fm_api_key u) = false ∧
    (fm_api_provider u = APIProviderCustom → blank (fm_api_base_url u) = false))) →
  is_Some (BuildPiConfig home (Some u) machine agent res binary sock tok bdir).
Proof.
  intros Hpi Hm H. unfold BuildPiConfig. rewrite Hpi, Hm. simpl.
  destruct H as [->|(Hk & Ha & Hu)]; simpl; [eauto|]. rewrite Hk, Ha. simpl.
  rewrite !andb_false_r. destruct (String.eqb_spec (fm_api_provider u) APIProviderCustom) as [E|E].
  - rewrite (Hu E), andb_false_r. eauto.
  - rewrite andb_false_r. simpl. eauto.
Qed.

#[local] Arguments BuildPiConfig : simpl never.

(** The two ways a pi configuration is resolved. *)
Lemma resolve_pi stored u c' :
  resolveAcpConfigForDaemon stored (Some u) = Ok c' →
  (c' = Some u ∧ (IsPiProvider (fm_provider u) = false ∨ fm_global_provider u = "")) ∨
  ∃ id p e, stored id = Ok (Some p) ∧ e ∈ ap_entries p ∧
    c' = Some (MkForm "" [] [] (fm_provider u) (ae_model e) ∅ (fm_persona u) (ap_type p) (ae_key e) "" "" ""
      (ap_base_url p) (fm_context_window u) (fm_max_tokens u)).
Proof.
  unfold resolveAcpConfigForDaemon. destruct (IsPiProvider (fm_provider u)); simpl.
  - destruct (String.eqb_spec (fm_global_provider u) "") as [E|E]; [intros [= <-]; eauto|].
    intros H. case_all H. right. eexists _, _, _. split; [done|]. split; [|done].
    match goal with Hf : find _ _ = Some _ |- _ => by apply find_in in Hf as [? _] end.
  - intros [= <-]. eauto.
Qed.

Lemma accepted_pi_builds home stored u available c' machine agent res binary sock tok bdir :
  IsPiProvider (fm_provider u) = true → validate_pi u available = Ok tt →
  resolveAcpConfigForDaemon stored (Some u) = Ok c' →
  (∀ id p e, stored id = Ok (Some p) → e ∈ ap_entries p → usable p e) →
  is_Some (BuildPiConfig home c' machine agent res binary sock tok bdir).
Proof.
  intros Hpi Hv Hr Hs. apply resolve_pi in Hr as [[-> [Hf|Hg]]|(id & p & e & Hp & He & ->)]; [congruence| |].
  - unfold validate_pi in Hv. rewrite Hg in Hv. simpl in Hv.
    destruct (String.eqb_spec (fm_global_entry u) "") as [_|Hge]; case_all Hv.
    + apply pi_form_builds; [done|done|]. left. rewrite Hg. simpl.
      match goal with H : _ && String.eqb (fm_api_provider u) "" = true |- _ => apply andb_prop in H as [-> ->] end. done.
    + apply pi_form_builds; [done|done|]. right. split_and!.
      * match goal with H : negb _ && negb _ = false |- _ => apply andb_false_iff in H as [H|H]; apply negb_false_iff in H; [done|] end.
        by match goal with H : String.eqb (fm_api_provider u) APIProviderCustom = true |- _ => apply String.eqb_eq in H as -> end.
      * done.
      * intros E. match goal with H : String.eqb (fm_api_provider u) _ && blank _ = false |- _ => rewrite E in H; done end.
  - destruct (Hs id p e Hp He) as (Hk & Hkey & Hm & Hu). apply pi_form_builds; simpl; auto.
Qed.

(** A configuration the manager accepts starts on the machine.  What
    validateAgentACPConfig accepts and the daemon boundary resolves is never
    "not configured" there: a pi configuration builds a pi launch when the global
    entries of the store are usable, every other configuration builds an ACP
    launch with a command and no pi launch; and the reported capability names that
    runtime and no other. *)
Theorem accepted_config_builds home stored u available c' machine agent res binary sock tok bdir :
  validateAgentACPConfig (Some u) available = Ok tt →
  resolveAcpConfigForDaemon stored (Some u) = Ok c' →
  (∀ id p e, stored id = Ok (Some p) → e ∈ ap_entries p → usable p e) →
  let pi := IsPiProvider (fm_provider u) in
  let capability := buildCapabilityForACPConfig home c' in
  ca_pi capability = pi ∧ ca_acp capability = negb pi ∧
  (is_Some (BuildPiConfig home c' machine agent res binary sock tok bdir) ↔ pi = true) ∧
  (pi = false → ∃ c, BuildACPConfig home c' machine agent = Some c ∧ ac_executable c ≠ "").
Proof.
  intros Hv Hr Hs. simpl in Hv. destruct (IsPiProvider (fm_provider u)) eqn:Hpi; cbv zeta.
  - assert (validate_pi u available = Ok tt) as Hvp by (case_all Hv; done).
    split_and!; [| |split; [done|]; intros _; by eapply accepted_pi_builds|done].
    all: apply resolve_pi in Hr as [[-> _]|(id & p & e & _ & _ & ->)]; simpl; by rewrite Hpi.
  - assert (c' = Some u) as ->.
    { unfold resolveAcpConfigForDaemon in Hr. rewrite Hpi in Hr. by injection Hr as <-. }
    assert (∀ machine agent, ∃ c, BuildACPConfig home (Some u) machine agent = Some c ∧ ac_executable c ≠ "") as Hb.
    { clear machine agent. intros machine agent. unfold BuildACPConfig, resolvedCommand. destruct (Lookup (fm_provider u)) as [p|] eqn:El.
      - apply find_in in El as [Hin Hid]. apply String.eqb_eq in Hid.
        destruct (pv_nonacp p) eqn:En.
        { apply nonacp_is_pi in En; [|done]. rewrite <-Hid, En in Hpi. done. }
        pose proof (builtin_command p (AgentWorkingDir home machine agent) Hin) as Hc.
        destruct (pv_command p _) as [exe args]. simpl in Hc. rewrite Hc. eexists. split; [done|]. simpl.
        by apply String.eqb_neq.
      - destruct (String.eqb_spec (fm_executable u) "") as [E|E]; [case_all Hv|]. eexists. by split. }
    destruct (Hb "" "") as (c & Hc & Hne). apply String.eqb_neq in Hne.
    assert (buildCapabilityForACPConfig home (Some u) = Capability (Some c)) as ->.
    { simpl. rewrite Hpi. unfold BuildCapability. by rewrite Hc. }
    split_and!; [by simpl; rewrite Hne|by simpl; rewrite Hne| |by intros _; apply Hb].
    unfold BuildPiConfig. rewrite Hpi. split; [by intros [? ?]|done].
Qed.

(** ** Launch fingerprints *)

Definition nul_free (s : string) : bool := Strings.str_forallb (λ c, negb (Ascii.eqb c NUL)) s.

Lemma nul_join_cons a b l : nul_join (a :: b :: l) = a +:+ String NUL (nul_join (b :: l)).
Proof. unfold nul_join. simpl. destruct l; [done|]. reflexivity. Qed.

(** Fields without the separator can be read back. *)
Lemma nul_join_inj l l' x y :
  Forall (λ s, nul_free s = true) l → Forall (λ s, nul_free s = true) l' → length l = length l' →
  nul_join (l ++ [x]) = nul_join (l' ++ [y]) → l = l' ∧ x = y.
Proof.
  intros Hl. revert l'. induction Hl as [|a l Ha Hl IH]; intros l' Hl' Hlen E.
  - destruct l'; [|done]. by split.
  - destruct l' as [|a' l']; [done|]. apply Forall_cons_1 in Hl' as [Ha' Hl'].
    assert (∀ (k : list string) z, ∃ b r, k ++ [z] = b :: r) as Hsnoc.
    { intros [|b k] z; simpl; eauto. }
    destruct (Hsnoc l x) as (b & r & Eb). destruct (Hsnoc l' y) as (b' & r' & Eb').
    simpl in E. rewrite Eb, Eb', !nul_join_cons in E.
    apply (f_equal (λ s, Strings.Cut s NUL)) in E. rewrite !Strings.Cut_first in E by done.
    injection E as -> E. rewrite <-Eb, <-Eb' in E. apply IH in E as [-> ->]; [done|done|]. simpl in Hlen. lia.
Qed.

Lemma str_app_inv_tail a b c : a +:+ c = b +:+ c → a = b.
Proof.
  intros E. apply (f_equal String.list_ascii_of_string) in E. rewrite !Strings.list_ascii_app in E.
  apply app_inv_tail in E. rewrite <-(String.string_of_list_ascii_of_string a), E.
  apply String.string_of_list_ascii_of_string.
Qed.

Lemma pretty_go_nul_free x s : nul_free s = true → nul_free (pretty_N_go x s) = true.
Proof.
  revert s. induction (N.lt_wf_0 x) as [x _ IH]; intros s Hs.
  assert (x = 0 ∨ 0 < x)%N as [->|?] by lia; [by rewrite pretty_N_go_0|].
  rewrite pretty_N_go_step by done. apply IH; [by apply N.div_lt|].
  unfold nul_free in *. simpl. rewrite Hs, andb_true_r. unfold pretty_N_char. by repeat case_match.
Qed.

Lemma pretty_nul_free (z : Z) : nul_free (pretty z) = true.
Proof.
  assert (∀ n : N, nul_free (pretty n) = true) as Hn.
  { intros n. unfold pretty, pretty_N. case_decide; [done|]. by apply pretty_go_nul_free. }
  destruct z; [done|apply Hn|]. change (pretty (Z.neg p)) with ("-" +:+ pretty (N.pos p)).
  unfold nul_free. rewrite Strings.str_forallb_app. by apply Hn.
Qed.

(** What shapes the launch of a pi process. *)
Definition launch_shape (c : PiConfig) : string * string * string * string * string * Z * Z * string :=
  (pc_api_provider c, pc_model c, pc_api_key c, pc_base_url c, pc_binary c,
   pc_context_window c, pc_max_tokens c, pc_persona c).

Definition wf_pi (c : PiConfig) : Prop :=
  Forall (λ s, nul_free s = true) [pc_api_provider c; pc_model c; pc_api_key c; pc_base_url c; pc_binary c].

(** The launch fingerprint covers exactly the launch shape.  Two pi
    configurations without NUL bytes in their fields have the same fingerprint
    text if and only if provider, model, key, base URL, binary, context window,
    token limit and persona are the same: the missing separator before the bundle
    version confuses nothing, and a changed persona counts as a new shape. *)
Theorem launch_fingerprint_shape bundle c1 c2 :
  nul_free bundle = true → wf_pi c1 → wf_pi c2 →
  launch_text bundle c1 = launch_text bundle c2 ↔ launch_shape c1 = launch_shape c2.
Proof.
  intros Hb H1 H2. unfold launch_text. split.
  - intros E.
    set (l c := [pc_api_provider c; pc_model c; pc_api_key c; pc_base_url c; pc_binary c;
      pretty (pc_context_window c); pretty (pc_max_tokens c) +:+ bundle]).
    assert (∀ c, wf_pi c → Forall (λ s, nul_free s = true) (l c)) as Hl.
    { intros c Hc. unfold l. apply (Forall_app_2 _ _ _ Hc).
      repeat first [apply Forall_cons_2 | apply Forall_nil_2]; [apply pretty_nul_free|].
      unfold nul_free. rewrite Strings.str_forallb_app. apply andb_true_intro. split; [apply pretty_nul_free|done]. }
    apply (nul_join_inj (l c1) (l c2)) in E; [|by apply Hl|by apply Hl|done].
    destruct E as [El Ep].
    change (l c1 = l c2) in El; unfold l in El. clear Hl. injection El as E1 E2 E3 E4 E5 E6 E7. apply (inj pretty) in E6. apply str_app_inv_tail, (inj pretty) in E7.
    unfold launch_shape. congruence.
  - unfold launch_shape. intros [= -> -> -> -> -> -> -> ->]. done.
Qed.

Module ConfigDemo.
Definition form (provider model executable global entry : string) : AgentACPConfig :=
  MkForm executable [] ["PATH"] provider model ∅ "" "" "" global entry "" "" 0 0.
Definition provider : APIProvider := MkAPI "openrouter" "" [MkAPIEntry 7 "sk-1" "qwen"].
Definition stored (id : string) : Prelude.res string (option APIProvider) :=
  Ok (if String.eqb id "p1" then Some provider else None).
Definition global : AgentACPConfig := form "builtin-pi" "" "" "apiProviders/p1" "apiProviders/p1/entries/7".
Definition codex : AgentACPConfig := form "codex" "o4" "" "" "".
Definition resolved : AgentACPConfig :=
  MkForm "" [] [] "builtin-pi" "qwen" ∅ "" "openrouter" "sk-1" "" "" "" "" 0 0.

Lemma stored_usable id p e : stored id = Ok (Some p) → e ∈ ap_entries p → usable p e.
Proof.
  unfold stored. destruct (String.eqb id "p1"); [|done]. intros [= <-] He. simpl in He.
  apply list_elem_of_singleton in He as ->. done.
Qed.

(** A reference to a global provider, and a thread provider. *)
Lemma accepted_config_builds_witness :
  is_Some (BuildPiConfig "/home" (Some resolved) "m" "a" "a" "/bin/pi" "s" "t" "b") ∧
  (∃ c, BuildACPConfig "/home" (Some codex) "m" "a" = Some c ∧ ac_executable c ≠ "").
Proof.
  split.
  - pose proof (accepted_config_builds "/home" stored global [] (Some resolved) "m" "a" "a" "/bin/pi" "s" "t" "b")
      as H. apply H; [vm_compute; reflexivity|vm_compute; reflexivity|exact stored_usable|reflexivity].
  - pose proof (accepted_config_builds "/home" stored codex [] (Some codex) "m" "a" "a" "/bin/pi" "s" "t" "b")
      as H. apply H; [vm_compute; reflexivity|vm_compute; reflexivity|exact stored_usable|reflexivity].
Defined.

Definition pi_of (persona : string) : PiConfig :=
  MkPi "deepseek" "m1" "k" "" persona 0 0 "" "/w" "/bin/pi" "a" "s" "t" "b" "m" "a" (default_limits 0) 0 "".

(** A new persona is a new launch shape. *)
Lemma launch_fingerprint_shape_witness :
  launch_text "v1" (pi_of "kind") ≠ launch_text "v1" (pi_of "terse").
Proof.
  intros E. apply (launch_fingerprint_shape "v1") in E; [discriminate E|reflexivity|..];
    repeat first [apply Forall_cons_2 | apply Forall_nil_2]; reflexivity.
Defined.
End ConfigDemo.
