(* ===== verification/Providers.v ===== *)
(** Global LLM API providers: the service ([backend/manager/api/v1/
    api_provider_service.go]) over its store ([backend/manager/store/
    api_provider.go]), and what its operations do to the agents that reference an
    entry.

    A store call is one transaction: [fails n] tells whether the [n]-th call
    fails, and a failed call changes nothing.  [uuid n] is the resource id drawn at
    call [n].  Rows of the entry table are kept in the order of their serial id. *)

From Stdlib Require Import Ascii.
From stdpp Require Import base list strings numbers gmap pretty.
From S2P Require Import Prelude Strings Names Config.
Local Open Scope Z_scope.

(** ** The tables *)

Record ProviderRow := MkRow {
  pr_id : Z; pr_name : string; pr_type : string; pr_base_url : string; pr_description : string;
  pr_created_by : Z; pr_members : list string }.

Record EntryRow := MkEntryRow {
  er_id : Z; er_provider : Z; er_label : string; er_model : string; er_key : string }.

(** [db_agents]: the stored configurations of the live agents. *)
Record DB := MkDB {
  db_providers : gmap string ProviderRow;
  db_entries : list EntryRow;
  db_next_provider : Z;
  db_next_entry : Z;
  db_agents : list AgentACPConfig;
  db_calls : nat
}.

(** APIProviderMessage and APIProviderEntryMessage. *)
Record EntryMessage := MkEntryMsg { em_id : Z; em_label : string; em_model : string; em_key : string }.
Record ProviderMessage := MkMessage {
  pm_resource : string; pm_row : ProviderRow; pm_entries : list EntryMessage }.

Inductive perr :=
| InvalidArgument (what : string) | NotFound | FailedPrecondition | Unauthenticated | Internal.

Section service.
Context (fails : nat → bool) (uuid : nat → string).

Abbreviation P := (M DB perr).

Definition tick_db (s : DB) : DB :=
  MkDB (db_providers s) (db_entries s) (db_next_provider s) (db_next_entry s) (db_agents s) (S (db_calls s)).

(** One call of the store. *)
Definition stmt {A} (f : DB → DB * A) : P A := λ s,
  if fails (db_calls s) then (tick_db s, Err Internal)
  else let '(s', a) := f (tick_db s) in (s', Ok a).

(** ** store/api_provider.go *)

Definition entries_of (s : DB) (provider : Z) : list EntryMessage :=
  (λ r, MkEntryMsg (er_id r) (er_label r) (er_model r) (er_key r)) <$>
    filter (λ r, er_provider r = provider) (db_entries s).

Definition lookup_provider (s : DB) (resourceID : string) : option ProviderMessage :=
  row ← db_providers s !! resourceID;
  Some (MkMessage resourceID row (entries_of s (pr_id row))).

Definition GetAPIProviderByResourceID (resourceID : string) : P (option ProviderMessage) :=
  stmt (λ s, (s, lookup_provider s resourceID)).

(** The rows the inserts make: each gets the next serial id, whatever id the
    entry had. *)
Fixpoint insert_rows (next provider : Z) (entries : list EntryMessage) : list EntryRow :=
  match entries with
  | [] => []
  | e :: rest =>
      MkEntryRow next provider (em_label e) (em_model e) (em_key e) :: insert_rows (next + 1) provider rest
  end.

Definition insertAPIProviderEntries (provider : Z) (entries : list EntryMessage) (s : DB) : DB :=
  MkDB (db_providers s) (db_entries s ++ insert_rows (db_next_entry s) provider entries)
    (db_next_provider s) (db_next_entry s + Z.of_nat (length entries)) (db_agents s) (db_calls s).

Definition set_provider (resourceID : string) (row : ProviderRow) (s : DB) : DB :=
  MkDB (<[resourceID := row]> (db_providers s)) (db_entries s) (db_next_provider s) (db_next_entry s)
    (db_agents s) (db_calls s).

Definition store_create (name type base_url description : string) (created_by : Z)
    (entries : list EntryMessage) (members : list string) : P string :=
  stmt (λ s,
    let resourceID := uuid (db_calls s) in
    let id := db_next_provider s in
    let s1 := set_provider resourceID (MkRow id name type base_url description created_by members) s in
    let s2 := MkDB (db_providers s1) (db_entries s1) (id + 1) (db_next_entry s1) (db_agents s1) (db_calls s1) in
    (insertAPIProviderEntries id entries s2, resourceID)).

(** UpdateAPIProvider of the store; the type and the creator stay. *)
Definition store_update (current : ProviderMessage) (name base_url description : string)
    (entries : list EntryMessage) (members : list string) : P unit :=
  stmt (λ s,
    let row := pm_row current in
    let s1 := set_provider (pm_resource current)
      (MkRow (pr_id row) name (pr_type row) base_url description (pr_created_by row) members) s in
    let s2 := MkDB (db_providers s1) (filter (λ r, er_provider r ≠ pr_id row) (db_entries s1))
      (db_next_provider s1) (db_next_entry s1) (db_agents s1) (db_calls s1) in
    (insertAPIProviderEntries (pr_id row) entries s2, tt)).

Definition store_delete (resourceID : string) : P unit :=
  stmt (λ s,
    match db_providers s !! resourceID with
    | None => (s, tt)
    | Some row =>
        (MkDB (delete resourceID (db_providers s)) (filter (λ r, er_provider r ≠ pr_id row) (db_entries s))
          (db_next_provider s) (db_next_entry s) (db_agents s) (db_calls s), tt)
    end).

Definition count_agents (field : AgentACPConfig → string) (value : string) : P Z :=
  stmt (λ s, (s, Z.of_nat (length (filter (λ a, field a = value) (db_agents s))))).

Definition CountAgentsReferencingProvider (resourceID : string) : P Z :=
  count_agents fm_global_provider (FormatAPIProviderUID resourceID).
Definition CountAgentsReferencingEntry (name : string) : P Z := count_agents fm_global_entry name.

(** ** api_provider_service.go *)

Record EntryInput := MkEntryIn { ei_name : string; ei_label : string; ei_model : string; ei_key : string }.
Record ProviderInput := MkInput {
  pi_name : string; pi_type : string; pi_title : string; pi_base_url : string; pi_description : string;
  pi_entries : list EntryInput; pi_members : list string }.

Definition secretMaskPrefix : string := "****".
Definition providerTypeDefaults : list string := ["deepseek"; "openrouter"].

Definition normalizeProviderBaseURL (providerType baseURL : string) : string :=
  if String.eqb providerType APIProviderCustom then Strings.TrimSpace baseURL else "".

Definition validateAPIProviderBase (i : ProviderInput) : Prelude.res perr unit :=
  if blank (pi_type i) then Err (InvalidArgument "provider_type") else
  if (if String.eqb (pi_type i) APIProviderCustom then blank (pi_base_url i)
      else negb (existsb (String.eqb (pi_type i)) providerTypeDefaults))
  then Err (InvalidArgument "base_url or provider_type") else
  if blank (pi_title i) then Err (InvalidArgument "title") else Ok tt.

Definition keeps_key (key : string) : bool := String.eqb key "" || String.prefix secretMaskPrefix key.

Fixpoint buildEntriesForCreate (ins : list EntryInput) : Prelude.res perr (list EntryMessage) :=
  match ins with
  | [] => Ok []
  | e :: rest =>
      if blank (ei_model e) then Err (InvalidArgument "entry model") else
      let key := Strings.TrimSpace (ei_key e) in
      if keeps_key key then Err (InvalidArgument "entry api_key") else
      match buildEntriesForCreate rest with
      | Err x => Err x
      | Ok out => Ok (MkEntryMsg 0 (Strings.TrimSpace (ei_label e)) (Strings.TrimSpace (ei_model e)) key :: out)
      end
  end.

(** The stored entry a name refers to; the parsed provider id is not compared. *)
Definition stored_entry (provider : ProviderMessage) (name : string) : Prelude.res perr EntryMessage :=
  match ParseAPIProviderEntryName name with
  | Err _ => Err (InvalidArgument "entry name")
  | Ok (_, entryID) =>
      match find (λ e, String.eqb (pretty (em_id e)) entryID) (rev (pm_entries provider)) with
      | None => Err (InvalidArgument "entry does not belong to provider")
      | Some e => Ok e
      end
  end.

Fixpoint buildEntriesForUpdate (provider : ProviderMessage) (ins : list EntryInput) : Prelude.res perr (list EntryMessage) :=
  match ins with
  | [] => Ok []
  | e :: rest =>
      if blank (ei_model e) then Err (InvalidArgument "entry model") else
      let key := Strings.TrimSpace (ei_key e) in
      let entry :=
        if negb (String.eqb (ei_name e) "") then
          match stored_entry provider (ei_name e) with
          | Err x => Err x
          | Ok stored => Ok (MkEntryMsg (em_id stored) (Strings.TrimSpace (ei_label e))
              (Strings.TrimSpace (ei_model e)) (if keeps_key key then em_key stored else key))
          end
        else if keeps_key key then Err (InvalidArgument "api_key")
        else Ok (MkEntryMsg 0 (Strings.TrimSpace (ei_label e)) (Strings.TrimSpace (ei_model e)) key) in
      match entry with
      | Err x => Err x
      | Ok entry =>
          match buildEntriesForUpdate provider rest with Err x => Err x | Ok out => Ok (entry :: out) end
      end
  end.

(** checkRemovedEntryReferences over the stored entries [todo]. *)
Fixpoint check_removed (resourceID : string) (kept : list Z) (todo : list EntryMessage) : P unit :=
  match todo with
  | [] => mret tt
  | stored :: rest =>
      if bool_decide (em_id stored ∈ kept) then check_removed resourceID kept rest else
      count ← CountAgentsReferencingEntry (FormatAPIProviderEntryName resourceID (pretty (em_id stored)));
      if 0 <? count then throw FailedPrecondition else check_removed resourceID kept rest
  end.

Definition checkRemovedEntryReferences (provider : ProviderMessage) (newEntries : list EntryMessage) : P unit :=
  check_removed (pm_resource provider) (em_id <$> filter (λ e, em_id e ≠ 0) newEntries) (pm_entries provider).

Definition AllUsers : string := "allUsers".

Fixpoint normalize_members (seen ms : list string) : Prelude.res perr (list string) :=
  match ms with
  | [] => Ok []
  | m :: rest =>
      let m := Strings.TrimSpace m in
      if String.eqb m "" then normalize_members seen rest else
      if negb (String.eqb m AllUsers) && negb (String.prefix UserNamePrefix m) && negb (String.prefix GroupPrefix m)
      then Err (InvalidArgument "member") else
      if bool_decide (m ∈ seen) then normalize_members seen rest else
      match normalize_members (m :: seen) rest with Err x => Err x | Ok out => Ok (m :: out) end
  end.
Definition validateAndNormalizeMembers (ms : list string) : Prelude.res perr (list string) := normalize_members [] ms.

Definition mutable_paths : list string := ["title"; "base_url"; "description"; "entries"; "members"].
Definition validateAPIProviderUpdateMask (paths : list string) : Prelude.res perr unit :=
  if forallb (λ p, existsb (String.eqb p) mutable_paths) paths then Ok tt else Err (InvalidArgument "update_mask").

Definition CreateAPIProvider (user : option Z) (i : ProviderInput) : P string :=
  lift_res (validateAPIProviderBase i);;
  match user with
  | None => throw Unauthenticated
  | Some user =>
      entries ← lift_res (buildEntriesForCreate (pi_entries i));
      members ← lift_res (validateAndNormalizeMembers (pi_members i));
      store_create (Strings.TrimSpace (pi_title i)) (Strings.TrimSpace (pi_type i))
        (normalizeProviderBaseURL (pi_type i) (pi_base_url i)) (Strings.TrimSpace (pi_description i))
        user entries members
  end.

(** The provider a name refers to. *)
Definition find_provider (name : string) : P ProviderMessage :=
  match GetAPIProviderResourceID name with
  | Err _ => throw (InvalidArgument "name")
  | Ok resourceID =>
      p ← GetAPIProviderByResourceID resourceID;
      match p with None => throw NotFound | Some p => mret p end
  end.

Definition UpdateAPIProvider (mask : list string) (i : ProviderInput) : P unit :=
  lift_res (validateAPIProviderUpdateMask mask);;
  current ← find_provider (pi_name i);
  lift_res (validateAPIProviderBase i);;
  entries ← lift_res (buildEntriesForUpdate current (pi_entries i));
  checkRemovedEntryReferences current entries;;
  members ← lift_res (validateAndNormalizeMembers (pi_members i));
  store_update current (Strings.TrimSpace (pi_title i)) (normalizeProviderBaseURL (pi_type i) (pi_base_url i))
    (Strings.TrimSpace (pi_description i)) entries members.

Definition DeleteAPIProvider (name : string) : P unit :=
  p ← find_provider name;
  count ← CountAgentsReferencingProvider (pm_resource p);
  if 0 <? count then throw FailedPrecondition else store_delete (pm_resource p).

(** What resolveAcpConfigForDaemon reads. *)
Definition stored_api (s : DB) (resourceID : string) : Prelude.res string (option APIProvider) :=
  Ok (p ← lookup_provider s resourceID;
      Some (MkAPI (pr_type (pm_row p)) (pr_base_url (pm_row p))
        ((λ e, MkAPIEntry (em_id e) (em_key e) (em_model e)) <$> pm_entries p))).

Definition resolve (s : DB) (cfg : AgentACPConfig) : Prelude.res string (option AgentACPConfig) :=
  resolveAcpConfigForDaemon (stored_api s) (Some cfg).
(** ** The calls, inverted *)

(** The same tables; only calls were made. *)
Definition same_tables (s s' : DB) : Prop :=
  db_providers s' = db_providers s ∧ db_entries s' = db_entries s ∧ db_next_provider s' = db_next_provider s ∧
  db_next_entry s' = db_next_entry s ∧ db_agents s' = db_agents s.

#[local] Instance same_tables_refl : Reflexive same_tables.
Proof. by intros s. Qed.
#[local] Instance same_tables_trans : Transitive same_tables.
Proof. intros s1 s2 s3 (?&?&?&?&?) (?&?&?&?&?). repeat split; congruence. Qed.

Lemma same_tick s : same_tables s (tick_db s).
Proof. by repeat split. Qed.
#[local] Hint Resolve same_tick : core.

Lemma lookup_same s s' rid : same_tables s s' → lookup_provider s' rid = lookup_provider s rid.
Proof. intros (H1 & H2 & _). unfold lookup_provider, entries_of. by rewrite H1, H2. Qed.

Lemma stmt_ok {A} (f : DB → DB * A) s s' a : stmt f s = (s', Ok a) → f (tick_db s) = (s', a).
Proof. unfold stmt. destruct (fails (db_calls s)); [done|]. destruct (f (tick_db s)). by intros [= -> ->]. Qed.

(** A call that fails, or that only reads, changes no table. *)
Lemma stmt_read {A} (f : DB → A) s s' r : stmt (λ s, (s, f s)) s = (s', r) → same_tables s s'.
Proof. unfold stmt. destruct (fails (db_calls s)); intros [= <- <-]; auto. Qed.
Lemma stmt_err {A} (f : DB → DB * A) s s' e : stmt f s = (s', Err e) → same_tables s s'.
Proof. unfold stmt. destruct (fails (db_calls s)); [intros [= <- <-]; auto|]. by destruct (f (tick_db s)). Qed.

Lemma check_removed_same rid kept todo s s' r :
  check_removed rid kept todo s = (s', r) → same_tables s s'.
Proof.
  revert s. induction todo as [|e todo IH]; intros s; simpl; [by intros [= <- <-]|].
  case_bool_decide; [apply IH|]. unfold CountAgentsReferencingEntry, count_agents. unfold mbind at 1, M_bind at 1.
  destruct (stmt _ s) as [s1 [n|e1]] eqn:E1; apply stmt_read in E1.
  - destruct (0 <? n); [by intros [= <- <-]|]. intros Hrun. apply IH in Hrun. by etrans.
  - by intros [= <- <-].
Qed.

Lemma lookup_resource s rid m : lookup_provider s rid = Some m → pm_resource m = rid.
Proof. unfold lookup_provider. destruct (db_providers s !! rid); [|done]. by intros [= <-]. Qed.

Lemma find_provider_inv name s s' r :
  find_provider name s = (s', r) → same_tables s s' ∧
  ∀ m, r = Ok m → GetAPIProviderResourceID name = Ok (pm_resource m) ∧ lookup_provider s (pm_resource m) = Some m.
Proof.
  unfold find_provider. destruct (GetAPIProviderResourceID name) as [rid|e]; [|by intros [= <- <-]].
  unfold GetAPIProviderByResourceID. unfold mbind at 1, M_bind at 1.
  destruct (stmt _ s) as [s1 [o|e]] eqn:E.
  - pose proof E as Eok. apply stmt_read in E. apply stmt_ok in Eok. injection Eok as <- <-.
    rewrite (lookup_same s) by done. destruct (lookup_provider s rid) as [m|] eqn:El; intros [= <- <-]; [|done].
    split; [done|]. intros ? [= <-]. split; [|by rewrite <-El; f_equal; apply lookup_resource in El].
    f_equal. symmetry. by apply lookup_resource in El.
  - apply stmt_read in E. by intros [= <- <-].
Qed.

Lemma lift_res_ok {A} (r : Prelude.res perr A) (s s' : DB) a : lift_res r s = (s', Ok a) → s' = s ∧ r = Ok a.
Proof. unfold lift_res. by intros [= -> ->]. Qed.

(** What a successful update did. *)
Lemma UpdateAPIProvider_ok mask i s s' :
  UpdateAPIProvider mask i s = (s', Ok tt) →
  ∃ s1 m entries members, same_tables s s1 ∧
    GetAPIProviderResourceID (pi_name i) = Ok (pm_resource m) ∧ lookup_provider s (pm_resource m) = Some m ∧
    validateAPIProviderBase i = Ok tt ∧ buildEntriesForUpdate m (pi_entries i) = Ok entries ∧
    store_update m (Strings.TrimSpace (pi_title i)) (normalizeProviderBaseURL (pi_type i) (pi_base_url i))
      (Strings.TrimSpace (pi_description i)) entries members s1 = (s', Ok tt).
Proof.
  unfold UpdateAPIProvider. intros H.
  apply bind_ok_inv in H as (s1 & [] & H1 & H). apply lift_res_ok in H1 as [-> _].
  apply bind_ok_inv in H as (s2 & m & H2 & H). apply find_provider_inv in H2 as [Hs2 Hm].
  destruct (Hm m eq_refl) as [Hname Hlook].
  apply bind_ok_inv in H as (s3 & [] & H3 & H). apply lift_res_ok in H3 as [-> Hbase].
  apply bind_ok_inv in H as (s4 & entries & H4 & H). apply lift_res_ok in H4 as [-> Hent].
  apply bind_ok_inv in H as (s5 & [] & H5 & H). apply check_removed_same in H5.
  apply bind_ok_inv in H as (s6 & members & H6 & H). apply lift_res_ok in H6 as [-> _].
  exists s5, m, entries, members. split; [by etrans|]. done.
Qed.

(** *** The entry table *)

Lemma rows_dropped pid (l : list EntryRow) : filter (λ r, er_provider r = pid) (filter (λ r, er_provider r ≠ pid) l) = [].
Proof. induction l as [|r l IH]; [done|]. rewrite filter_cons. case_decide; [|done]. by rewrite filter_cons_False. Qed.

Lemma rows_kept pid pid' (l : list EntryRow) : pid ≠ pid' →
  filter (λ r, er_provider r = pid') (filter (λ r, er_provider r ≠ pid) l) = filter (λ r, er_provider r = pid') l.
Proof.
  intros Hne. induction l as [|r l IH]; [done|]. rewrite filter_cons. case_decide as Hr.
  - by rewrite !filter_cons, IH.
  - rewrite IH, filter_cons_False; [done|]. intros E. apply Hne. congruence.
Qed.

Lemma rows_inserted pid pid' next es :
  filter (λ r, er_provider r = pid') (insert_rows next pid es) =
  if decide (pid = pid') then insert_rows next pid es else [].
Proof.
  revert next. induction es as [|e es IH]; intros next; simpl; [by destruct (decide _)|].
  rewrite filter_cons, IH. simpl. by destruct (decide (pid = pid')).
Qed.

Lemma inserted_ids next pid es r :
  r ∈ insert_rows next pid es → next ≤ er_id r < next + Z.of_nat (length es) ∧ er_provider r = pid.
Proof.
  revert next. induction es as [|e es IH]; intros next; simpl; [by intros ?%elem_of_nil|].
  intros [->|Hr]%elem_of_cons; simpl; [lia|]. apply IH in Hr. lia.
Qed.

(** The provider after its update: new rows for all its entries, under new ids. *)
Lemma update_lookup m name base desc entries members s s' :
  store_update m name base desc entries members s = (s', Ok tt) →
  let row := pm_row m in
  lookup_provider s' (pm_resource m) = Some (MkMessage (pm_resource m)
    (MkRow (pr_id row) name (pr_type row) base desc (pr_created_by row) members)
    ((λ r, MkEntryMsg (er_id r) (er_label r) (er_model r) (er_key r)) <$>
       insert_rows (db_next_entry s) (pr_id row) entries)).
Proof.
  intros H. apply stmt_ok in H. injection H as <-. unfold lookup_provider, entries_of. simpl.
  rewrite lookup_insert_eq. simpl. do 3 f_equal.
  by rewrite filter_app, rows_dropped, rows_inserted, decide_True.
Qed.

Definition db_ok (s : DB) : Prop :=
  (∀ r, r ∈ db_entries s → er_id r < db_next_entry s ∧ er_provider r < db_next_provider s) ∧
  (∀ rid row, db_providers s !! rid = Some row → pr_id row < db_next_provider s) ∧
  (∀ rid rid' row row', db_providers s !! rid = Some row → db_providers s !! rid' = Some row' →
     pr_id row = pr_id row' → rid = rid').

(** ** References to an entry *)

(** A configuration that names an entry of the provider [rid]. *)
Definition refers (cfg : AgentACPConfig) (rid : string) : Prop :=
  IsPiProvider (fm_provider cfg) = true ∧ fm_global_provider cfg ≠ "" ∧
  GetAPIProviderResourceID (fm_global_provider cfg) = Ok rid.

Lemma resolve_refers s cfg rid :
  refers cfg rid →
  resolve s cfg =
    match lookup_provider s rid with
    | None => Err "global provider not found"
    | Some m =>
        match ParseAPIProviderEntryName (fm_global_entry cfg) with
        | Err _ => Err "invalid global_provider_entry"
        | Ok (_, entryID) =>
            match find (λ e, String.eqb (pretty (em_id e)) entryID) (pm_entries m) with
            | None => Err "entry not found"
            | Some e =>
                Ok (Some (MkForm "" [] [] (fm_provider cfg) (em_model e) ∅ (fm_persona cfg)
                  (pr_type (pm_row m)) (em_key e) "" "" "" (pr_base_url (pm_row m))
                  (fm_context_window cfg) (fm_max_tokens cfg)))
            end
        end
    end.
Proof.
  intros (Hpi & Hne & Hrid). unfold resolve, resolveAcpConfigForDaemon. rewrite Hpi. simpl.
  apply String.eqb_neq in Hne. rewrite Hne, Hrid. unfold stored_api.
  destruct (lookup_provider s rid) as [m|]; simpl; [|done].
  destruct (ParseAPIProviderEntryName _) as [[? entryID]|]; [|done].
  generalize (pm_entries m). induction l as [|e l IH]; simpl; [done|].
  destruct (String.eqb (pretty (em_id e)) entryID); [done|]. apply IH.
Qed.

(** An update of a global provider breaks every reference to its entries.  The
    entries are deleted and inserted again under new ids, even those the request
    keeps, while the agents name an entry by its id: after any successful update no
    configuration that named an entry of the provider resolves any more, although
    the update refuses to remove an entry that is referenced. *)
Theorem update_breaks_references mask i s s' cfg c' rid :
  db_ok s → UpdateAPIProvider mask i s = (s', Ok tt) →
  GetAPIProviderResourceID (pi_name i) = Ok rid → refers cfg rid → resolve s cfg = Ok c' →
  resolve s' cfg = Err "entry not found".
Proof.
  intros Hok Hu Hrid Href Hres. apply UpdateAPIProvider_ok in Hu as (s1 & m & entries & members & Hs1 & Hn & Hl & _ & _ & Hst).
  rewrite Hrid in Hn. injection Hn as ->. apply update_lookup in Hst.
  rewrite (resolve_refers _ _ _ Href). rewrite (resolve_refers _ _ _ Href) in Hres. rewrite Hst. rewrite Hl in Hres.
  destruct (ParseAPIProviderEntryName _) as [[? entryID]|]; [|done]. simpl.
  destruct (find _ (pm_entries m)) as [e|] eqn:Ef; [|done]. apply find_in in Ef as [He Hid].
  apply String.eqb_eq in Hid. assert (em_id e < db_next_entry s1) as Hlt.
  { destruct Hs1 as (_ & _ & _ & -> & _). unfold lookup_provider in Hl. destruct (db_providers s !! _); [|done].
    injection Hl as Hm. rewrite <-Hm in He. simpl in He. unfold entries_of in He. apply list_elem_of_fmap in He as (r & -> & Hr).
    apply list_elem_of_filter in Hr as [_ Hr]. by apply Hok in Hr as [? _]. }
  destruct (find _ _) as [e'|] eqn:Ef; [|done]. exfalso. apply find_in in Ef as [He' Hid'].
  apply String.eqb_eq in Hid'. apply list_elem_of_fmap in He' as (r & -> & Hr). apply inserted_ids in Hr as [Hr _].
  rewrite <-Hid in Hid'. apply (inj pretty) in Hid'. simpl in Hid'. lia.
Qed.
(** ** What the store holds stays usable *)

Definition good (e : EntryMessage) : Prop := blank (em_key e) = false ∧ blank (em_model e) = false.

(** Every provider of a known type, with its base URL, and all its entries with a
    key and a model. *)
Definition usable_message (m : ProviderMessage) : Prop :=
  IsKnownAPIProvider (pr_type (pm_row m)) = true ∧
  (pr_type (pm_row m) = APIProviderCustom → blank (pr_base_url (pm_row m)) = false) ∧
  Forall good (pm_entries m).
Definition usable_db (s : DB) : Prop := ∀ rid m, lookup_provider s rid = Some m → usable_message m.

Lemma blank_trim t : blank (Strings.TrimSpace t) = blank t.
Proof. unfold blank. by rewrite Strings.TrimSpace_idem. Qed.

Lemma keeps_key_blank key : keeps_key (Strings.TrimSpace key) = false → blank (Strings.TrimSpace key) = false.
Proof. unfold keeps_key, blank. rewrite Strings.TrimSpace_idem. by intros [? _]%orb_false_iff. Qed.

Lemma created_entries_good ins entries : buildEntriesForCreate ins = Ok entries → Forall good entries.
Proof.
  revert entries. induction ins as [|e ins IH]; intros entries; simpl; [intros [= <-]; constructor|].
  destruct (blank (ei_model e)) eqn:Em; [done|]. destruct (keeps_key _) eqn:Ek; [done|].
  destruct (buildEntriesForCreate ins) as [out|]; [|done]. intros [= <-]. constructor; [|by apply IH].
  split; simpl; [by apply keeps_key_blank|by rewrite blank_trim].
Qed.

Lemma stored_entry_good m name e : usable_message m → stored_entry m name = Ok e → good e.
Proof.
  intros (_ & _ & Hg). unfold stored_entry. destruct (ParseAPIProviderEntryName name) as [[? ?]|]; [|done].
  destruct (find _ _) as [e'|] eqn:Ef; [|done]. intros [= <-]. apply find_in in Ef as [Hin _].
  rewrite Forall_forall in Hg. apply Hg. apply list_elem_of_In. apply in_rev. by apply list_elem_of_In.
Qed.

Lemma updated_entries_good m ins entries :
  usable_message m → buildEntriesForUpdate m ins = Ok entries → Forall good entries.
Proof.
  intros Hm. revert entries. induction ins as [|e ins IH]; intros entries; simpl; [intros [= <-]; constructor|].
  destruct (blank (ei_model e)) eqn:Em; [done|]. destruct (if negb _ then _ else _) as [en|] eqn:Een; [|done].
  destruct (buildEntriesForUpdate m ins) as [out|]; [|done]. intros [= <-]. constructor; [|by apply IH].
  destruct (negb (String.eqb (ei_name e) "")).
  - destruct (stored_entry m (ei_name e)) as [st|] eqn:Est; [|done]. simplify_eq.
    apply stored_entry_good in Est as [Hk _]; [|done]. split; simpl; [|by rewrite blank_trim].
    destruct (keeps_key _) eqn:Ek; [done|]. by apply keeps_key_blank.
  - destruct (keeps_key _) eqn:Ek; [done|]. simplify_eq.
    split; simpl; [by apply keeps_key_blank|by rewrite blank_trim].
Qed.

Lemma inserted_good next pid es :
  Forall good es →
  Forall good ((λ r, MkEntryMsg (er_id r) (er_label r) (er_model r) (er_key r)) <$> insert_rows next pid es).
Proof.
  intros H. revert next. induction H as [|e es He _ IH]; intros next; simpl; [constructor|]. constructor; [exact He|apply IH].
Qed.

Lemma base_usable i :
  validateAPIProviderBase i = Ok tt →
  IsKnownAPIProvider (pi_type i) = true ∧ Strings.TrimSpace (pi_type i) = pi_type i ∧
  (pi_type i = APIProviderCustom → blank (normalizeProviderBaseURL (pi_type i) (pi_base_url i)) = false).
Proof.
  unfold validateAPIProviderBase. destruct (blank (pi_type i)); [done|].
  destruct (String.eqb_spec (pi_type i) APIProviderCustom) as [E|E].
  - destruct (blank (pi_base_url i)) eqn:Eb; [done|]. intros _. rewrite E. split_and!; [done|by vm_compute|].
    intros _. unfold normalizeProviderBaseURL. simpl. by rewrite blank_trim.
  - destruct (existsb (String.eqb (pi_type i)) providerTypeDefaults) eqn:Ex; [|done]. intros _.
    simpl in Ex. destruct (String.eqb_spec (pi_type i) "deepseek") as [->|]; [by split_and!; vm_compute|].
    destruct (String.eqb_spec (pi_type i) "openrouter") as [->|]; [by split_and!; vm_compute|]. done.
Qed.

(** The three writes keep the tables well-formed and leave the other providers. *)
Lemma create_lookup name type base desc by_user es ms s s' rid0 :
  db_ok s → (∀ n, db_providers s !! uuid n = None) →
  store_create name type base desc by_user es ms s = (s', Ok rid0) →
  db_ok s' ∧ ∀ rid m, lookup_provider s' rid = Some m →
    lookup_provider s rid = Some m ∨
    (pr_type (pm_row m) = type ∧ pr_base_url (pm_row m) = base ∧
     ∃ next, pm_entries m = (λ r, MkEntryMsg (er_id r) (er_label r) (er_model r) (er_key r)) <$>
       insert_rows next (pr_id (pm_row m)) es).
Proof.
  intros (He & Hp & Hinj) Hfresh H. apply stmt_ok in H. injection H as <- <-.
  set (u := uuid _). assert (db_providers s !! u = None) as Hu by apply Hfresh. split.
  - split_and!; simpl.
    + intros r [Hr|Hr]%elem_of_app; [apply He in Hr; lia|]. apply inserted_ids in Hr. lia.
    + intros rid row [[<- <-]|[_ Hr]]%lookup_insert_Some; simpl; [lia|]. apply Hp in Hr. lia.
    + intros rid rid' row row' [[<- <-]|[_ H1]]%lookup_insert_Some [[<- <-]|[_ H2]]%lookup_insert_Some; simpl;
        [done| | |by eapply Hinj]; intros E; [apply Hp in H2|apply Hp in H1]; lia.
  - intros rid m Hl. unfold lookup_provider in Hl. simpl in Hl.
    destruct (decide (rid = u)) as [->|Hne].
    + rewrite lookup_insert_eq in Hl. injection Hl as <-. right. simpl. split_and!; [done..|].
      exists (db_next_entry s). unfold entries_of. simpl. f_equal. rewrite filter_app, rows_inserted, decide_True by done.
      assert (filter (λ r, er_provider r = db_next_provider s) (db_entries s) = []) as ->; [|done].
      assert (∀ r, r ∈ db_entries s → er_provider r ≠ db_next_provider s) as Hno by (intros r Hr; apply He in Hr; lia).
      clear -Hno. induction (db_entries s) as [|r l IH]; [done|]. rewrite filter_cons_False.
      * apply IH. intros r' Hr'. apply Hno. by right.
      * apply Hno. by left.
    + rewrite lookup_insert_ne in Hl by done. left. unfold lookup_provider.
      destruct (db_providers s !! rid) as [row|] eqn:Er; [|done]. simpl in Hl |- *. rewrite <-Hl. do 2 f_equal.
      unfold entries_of. simpl. f_equal. rewrite filter_app, rows_inserted, decide_False; [by rewrite app_nil_r|].
      apply Hp in Er. lia.
Qed.

Lemma lookup_row s rid m :
  lookup_provider s rid = Some m →
  db_providers s !! rid = Some (pm_row m) ∧ pm_entries m = entries_of s (pr_id (pm_row m)).
Proof. unfold lookup_provider. destruct (db_providers s !! rid); [|done]. by intros [= <-]. Qed.

Lemma update_others m name base desc es ms s s' :
  db_ok s → lookup_provider s (pm_resource m) = Some m →
  store_update m name base desc es ms s = (s', Ok tt) →
  db_ok s' ∧ ∀ rid, rid ≠ pm_resource m → lookup_provider s' rid = lookup_provider s rid.
Proof.
  intros (He & Hp & Hinj) Hl H. apply lookup_row in Hl as [Hrow _]. apply stmt_ok in H. injection H as <-. split.
  - split_and!; simpl.
    + intros r [Hr|Hr]%elem_of_app.
      * apply list_elem_of_filter in Hr as [_ Hr]. apply He in Hr. lia.
      * apply inserted_ids in Hr as [? ->]. apply Hp in Hrow. lia.
    + intros rid row [[<- <-]|[_ Hr]]%lookup_insert_Some; simpl; by eapply Hp.
    + intros rid rid' row row' [[<- <-]|[_ H1]]%lookup_insert_Some [[<- <-]|[_ H2]]%lookup_insert_Some; simpl;
        [done|..]; by eapply Hinj.
  - intros rid Hne. unfold lookup_provider. simpl. rewrite lookup_insert_ne by done.
    destruct (db_providers s !! rid) as [row|] eqn:Er; [|done]. simpl. do 2 f_equal. unfold entries_of. simpl. f_equal.
    assert (pr_id (pm_row m) ≠ pr_id row) as Hid by (intros E; apply Hne; symmetry; by eapply Hinj).
    rewrite filter_app, rows_kept, rows_inserted, decide_False by done. apply app_nil_r.
Qed.

Lemma delete_others rid0 s s' :
  db_ok s → store_delete rid0 s = (s', Ok tt) →
  db_ok s' ∧ lookup_provider s' rid0 = None ∧ (∀ rid, rid ≠ rid0 → lookup_provider s' rid = lookup_provider s rid) ∧
  db_agents s' = db_agents s.
Proof.
  intros Hok H. apply stmt_ok in H. simpl in H. destruct (db_providers s !! rid0) as [row0|] eqn:E0; injection H as <-.
  2: { split_and!; [done| |done|done]. unfold lookup_provider. simpl. by rewrite E0. }
  destruct Hok as (He & Hp & Hinj). split_and!; simpl; [| | |done].
  - split_and!; simpl.
    + intros r Hr. apply list_elem_of_filter in Hr as [_ Hr]. by apply He.
    + intros rid row [_ Hr]%lookup_delete_Some. by eapply Hp.
    + intros rid rid' row row' [_ H1]%lookup_delete_Some [_ H2]%lookup_delete_Some. by eapply Hinj.
  - unfold lookup_provider. simpl. by rewrite lookup_delete_eq.
  - intros rid Hne. unfold lookup_provider. simpl. rewrite lookup_delete_ne by done.
    destruct (db_providers s !! rid) as [row|] eqn:Er; [|done]. simpl. do 2 f_equal. unfold entries_of. simpl. f_equal.
    apply rows_kept. intros E. apply Hne. symmetry. by eapply Hinj.
Qed.

(** The operations of the service. *)
Inductive op :=
| OCreate (user : option Z) (i : ProviderInput)
| OUpdate (mask : list string) (i : ProviderInput)
| ODelete (name : string).

Definition run_op (o : op) (s : DB) : DB :=
  match o with
  | OCreate user i => (CreateAPIProvider user i s).1
  | OUpdate mask i => (UpdateAPIProvider mask i s).1
  | ODelete name => (DeleteAPIProvider name s).1
  end.

Lemma db_ok_same s s' : same_tables s s' → db_ok s → db_ok s'.
Proof. intros (H1 & H2 & H3 & H4 & _). unfold db_ok. by rewrite H1, H2, H3, H4. Qed.

Lemma usable_same s s' : same_tables s s' → usable_db s → usable_db s'.
Proof. intros Hs H rid m Hl. rewrite (lookup_same s) in Hl by done. by eapply H. Qed.

(** A run of the monad that ended in an error changed no table. *)
Lemma bind_err_same {A B} (m : P A) (k : A → P B) s s' e :
  (∀ s1 r, m s = (s1, r) → same_tables s s1) →
  (∀ s1 a s2 e2, m s = (s1, Ok a) → k a s1 = (s2, Err e2) → same_tables s1 s2) →
  mbind k m s = (s', Err e) → same_tables s s'.
Proof.
  intros Hm Hk. unfold mbind, M_bind. destruct (m s) as [s1 [a|e1]] eqn:Em.
  - intros H. etrans; [by eapply Hm|by eapply Hk].
  - intros [= <- <-]. by eapply Hm.
Qed.

Lemma lift_same {A} (r : Prelude.res perr A) (s s1 : DB) x : lift_res r s = (s1, x) → same_tables s s1.
Proof. unfold lift_res. by intros [= <- <-]. Qed.

Lemma CreateAPIProvider_err user i s s' e : CreateAPIProvider user i s = (s', Err e) → same_tables s s'.
Proof.
  unfold CreateAPIProvider. apply bind_err_same; [intros ??; apply lift_same|]. intros s1 _ s2 e2 _.
  destruct user as [user|]; [|unfold throw; by intros [= <- <-]].
  apply bind_err_same; [intros ??; apply lift_same|]. intros s3 es s4 e4 _.
  apply bind_err_same; [intros ??; apply lift_same|]. intros s5 ms s6 e6 _. apply stmt_err.
Qed.

Lemma UpdateAPIProvider_err mask i s s' e : UpdateAPIProvider mask i s = (s', Err e) → same_tables s s'.
Proof.
  unfold UpdateAPIProvider. apply bind_err_same; [intros ??; apply lift_same|]. intros s1 _ s2 e2 _.
  apply bind_err_same; [intros ?? H; by apply find_provider_inv in H as [? _]|]. intros s3 m s4 e4 _.
  apply bind_err_same; [intros ??; apply lift_same|]. intros s5 _ s6 e6 _.
  apply bind_err_same; [intros ??; apply lift_same|]. intros s7 es s8 e8 _.
  apply bind_err_same; [intros ??; apply check_removed_same|]. intros s9 _ s10 e10 _.
  apply bind_err_same; [intros ??; apply lift_same|]. intros s11 ms s12 e12 _. apply stmt_err.
Qed.

Lemma DeleteAPIProvider_err name s s' e : DeleteAPIProvider name s = (s', Err e) → same_tables s s'.
Proof.
  unfold DeleteAPIProvider. apply bind_err_same; [intros ?? H; by apply find_provider_inv in H as [? _]|].
  intros s1 m s2 e2 _. apply bind_err_same; [intros ??; apply stmt_read|]. intros s3 n s4 e4 _.
  destruct (0 <? n); [unfold throw; by intros [= <- <-]|apply stmt_err].
Qed.

Lemma DeleteAPIProvider_ok name s s' :
  DeleteAPIProvider name s = (s', Ok tt) →
  ∃ s1 rid, same_tables s s1 ∧ GetAPIProviderResourceID name = Ok rid ∧
    filter (λ a, fm_global_provider a = FormatAPIProviderUID rid) (db_agents s) = [] ∧
    store_delete rid s1 = (s', Ok tt).
Proof.
  unfold DeleteAPIProvider. intros H. apply bind_ok_inv in H as (s1 & m & H1 & H).
  apply find_provider_inv in H1 as [Hs1 Hm]. destruct (Hm m eq_refl) as [Hn _].
  apply bind_ok_inv in H as (s2 & n & H2 & H). pose proof H2 as Hs2. apply stmt_read in Hs2.
  apply stmt_ok in H2. injection H2 as <- <-. destruct (0 <? _) eqn:E; [done|].
  exists (tick_db s1), (pm_resource m). split; [by etrans|]. split; [done|]. split; [|done].
  apply Z.ltb_ge in E. simpl in E. destruct Hs1 as (_ & _ & _ & _ & <-).
  destruct (filter _ (db_agents s1)); [done|simpl in E; lia].
Qed.

(** An update request that names the provider's own type. *)
Definition keeps_type (s : DB) (o : op) : Prop :=
  match o with
  | OUpdate _ i => ∀ rid m, GetAPIProviderResourceID (pi_name i) = Ok rid → lookup_provider s rid = Some m →
      pi_type i = pr_type (pm_row m)
  | _ => True
  end.

(** Every global provider in the store stays usable.  Creation, deletion and
    the updates that name the provider's own type keep the tables well-formed and
    every provider of a known type, with a base URL when it is custom, and with a
    key and a model in every entry, whatever call of the store fails on the way. *)
Theorem providers_stay_usable o s :
  db_ok s → usable_db s → (∀ n, db_providers s !! uuid n = None) → keeps_type s o →
  db_ok (run_op o s) ∧ usable_db (run_op o s).
Proof.
  intros Hok Hu Hfresh Hty. destruct o as [user i|mask i|name]; simpl in *.
  - destruct (CreateAPIProvider user i s) as [s' [rid0|e]] eqn:E; simpl.
    2: { apply CreateAPIProvider_err in E. split; [by eapply db_ok_same|by eapply usable_same]. }
    unfold CreateAPIProvider in E. apply bind_ok_inv in E as (s1 & [] & H1 & E). apply lift_res_ok in H1 as [-> Hb].
    destruct user as [user|]; [|done].
    apply bind_ok_inv in E as (s2 & es & H2 & E). apply lift_res_ok in H2 as [-> He].
    apply bind_ok_inv in E as (s3 & ms & H3 & E). apply lift_res_ok in H3 as [-> _].
    apply create_lookup in E as [Hok' Hl]; [|done..]. split; [done|].
    destruct (base_usable i Hb) as (Hk & Htrim & Hbase). rewrite Htrim in Hl.
    intros rid m Hm. apply Hl in Hm as [Hm|(Ht & Hu' & next & Hes)]; [by eapply Hu|].
    split_and!; [by rewrite Ht|by rewrite Ht, Hu'|]. rewrite Hes. by apply inserted_good, (created_entries_good (pi_entries i)).
  - destruct (UpdateAPIProvider mask i s) as [s' [[]|e]] eqn:E; simpl.
    2: { apply UpdateAPIProvider_err in E. split; [by eapply db_ok_same|by eapply usable_same]. }
    apply UpdateAPIProvider_ok in E as (s1 & m & es & ms & Hs1 & Hn & Hl & Hb & He & Hst).
    assert (lookup_provider s1 (pm_resource m) = Some m) as Hl1 by (by rewrite (lookup_same s)).
    destruct (update_others _ _ _ _ _ _ _ _ (db_ok_same _ _ Hs1 Hok) Hl1 Hst) as [Hok' Hothers]. split; [done|].
    intros rid m' Hm'. destruct (decide (rid = pm_resource m)) as [->|Hne].
    + apply update_lookup in Hst. rewrite Hst in Hm'. injection Hm' as <-.
      destruct (base_usable i Hb) as (Hk & _ & Hbase). pose proof (Hu _ _ Hl) as Hum.
      rewrite (Hty _ _ Hn Hl) in Hk, Hbase |- *. split_and!; simpl; [done|done|].
      by apply inserted_good, (updated_entries_good m (pi_entries i)).
    + rewrite Hothers, (lookup_same s) in Hm' by done. by eapply Hu.
  - destruct (DeleteAPIProvider name s) as [s' [[]|e]] eqn:E; simpl.
    2: { apply DeleteAPIProvider_err in E. split; [by eapply db_ok_same|by eapply usable_same]. }
    apply DeleteAPIProvider_ok in E as (s1 & rid0 & Hs1 & _ & _ & Hd).
    apply delete_others in Hd as (Hok' & Hnone & Hothers & _); [|by eapply db_ok_same]. split; [done|].
    intros rid m Hm. destruct (decide (rid = rid0)) as [->|Hne]; [congruence|].
    rewrite Hothers, (lookup_same s) in Hm by done. by eapply Hu.
Qed.

(** A deletion breaks no live reference.  After a successful deletion every
    live agent's configuration resolves to what it resolved to before. *)
Theorem delete_keeps_references name s s' cfg :
  db_ok s → DeleteAPIProvider name s = (s', Ok tt) → cfg ∈ db_agents s → resolve s' cfg = resolve s cfg.
Proof.
  intros Hok Hd Hin. apply DeleteAPIProvider_ok in Hd as (s1 & rid0 & Hs1 & _ & Hnone & Hst).
  apply delete_others in Hst as (_ & _ & Hothers & _); [|by eapply db_ok_same].
  unfold resolve, resolveAcpConfigForDaemon. destruct (negb _ || _); [done|].
  destruct (GetAPIProviderResourceID (fm_global_provider cfg)) as [rid|] eqn:Er; [|done]. unfold stored_api.
  destruct (decide (rid = rid0)) as [->|Hne]; [exfalso|by rewrite Hothers, (lookup_same s)].
  apply (single_token "apiProviders") in Er as [_ Er]; [|done].
  assert (cfg ∈ filter (λ a, fm_global_provider a = FormatAPIProviderUID rid0) (db_agents s)) as Hf.
  { by apply list_elem_of_filter. }
  rewrite Hnone in Hf. by apply elem_of_nil in Hf.
Qed.

(** An update can take a custom provider's base URL away.  The type of a
    provider never changes, but an update normalises the URL by the type of the
    request: with another known type it is stored empty, and no configuration that
    references the provider starts on the machine any more. *)
Theorem update_clears_base_url mask i s s' m rid home cfg c' machine agent res binary sock tok bdir :
  UpdateAPIProvider mask i s = (s', Ok tt) →
  GetAPIProviderResourceID (pi_name i) = Ok rid → lookup_provider s rid = Some m →
  pr_type (pm_row m) = APIProviderCustom → pi_type i ≠ APIProviderCustom →
  refers cfg rid → resolve s' cfg = Ok c' →
  BuildPiConfig home c' machine agent res binary sock tok bdir = None.
Proof.
  intros Hup Hrid Hl Hty Hne Href Hres.
  apply UpdateAPIProvider_ok in Hup as (s1 & m1 & es & ms & _ & Hn & Hl1 & _ & _ & Hst).
  rewrite Hrid in Hn. injection Hn as ->. rewrite Hl in Hl1. injection Hl1 as <-.
  apply update_lookup in Hst. rewrite (resolve_refers _ _ _ Href), Hst in Hres. clear Hst. simpl in Hres.
  destruct (ParseAPIProviderEntryName _) as [[? entryID]|]; [|done].
  destruct (find _ _) as [e|]; [|done]. injection Hres as <-.
  unfold BuildPiConfig. cbn [fm_provider fm_model fm_global_provider fm_api_provider fm_api_key fm_api_base_url].
  destruct (negb (IsPiProvider _)); [done|]. destruct (blank _); [done|]. rewrite Hty.
  unfold normalizeProviderBaseURL. apply String.eqb_neq in Hne. rewrite Hne.
  by destruct (String.eqb (fm_provider cfg) UserPiProvider); simpl; destruct (blank (em_key e)).
Qed.
End service.

Module ProvidersDemo.
Definition fails (_ : nat) : bool := false.
Definition uuid (n : nat) : string := "q" +:+ pretty n.

(** A custom provider with one entry, and an agent that references it. *)
Definition agent : AgentACPConfig :=
  MkForm "" [] [] "builtin-pi" "" ∅ "" "" "" "apiProviders/p0" "apiProviders/p0/entries/7" "" "" 0 0.
Definition row : ProviderRow := MkRow 3 "mine" "custom" "https://llm" "" 1 [].
Definition db0 : DB := MkDB {["p0" := row]} [MkEntryRow 7 3 "" "m1" "sk-1"] 4 8 [agent] 5.
Definition m0 : ProviderMessage := MkMessage "p0" row [MkEntryMsg 7 "" "m1" "sk-1"].

(** The form as the editor sends it back: a new title, the entry kept. *)
Definition edit (type : string) : ProviderInput :=
  MkInput "apiProviders/p0" type "mine, renamed" "https://llm" ""
    [MkEntryIn "apiProviders/p0/entries/7" "" "m1" "****"] [].
Definition db1 : DB := (UpdateAPIProvider fails [] (edit "custom") db0).1.
Definition db2 : DB := (UpdateAPIProvider fails [] (edit "deepseek") db0).1.

Lemma db0_ok : db_ok db0.
Proof.
  split_and!; simpl.
  - intros r Hr. apply list_elem_of_singleton in Hr as ->. simpl. lia.
  - intros rid r [_ <-]%lookup_singleton_Some. simpl. lia.
  - intros rid rid' r r' [<- _]%lookup_singleton_Some [<- _]%lookup_singleton_Some. done.
Qed.

Lemma db0_lookup rid m : lookup_provider db0 rid = Some m → rid = "p0" ∧ m = m0.
Proof.
  unfold lookup_provider. destruct (db_providers db0 !! rid) as [r|] eqn:E; [|done].
  unfold db0 in E. simpl in E. apply lookup_singleton_Some in E as [<- <-]. simpl. intros [= <-].
  split; [done|]. vm_compute. reflexivity.
Qed.

Lemma agent_refers : refers agent "p0".
Proof. repeat split; vm_compute; congruence. Qed.

(** Renaming the provider makes its agent's configuration unresolvable. *)
Lemma update_breaks_references_witness :
  (UpdateAPIProvider fails [] (edit "custom") db0).2 = Ok tt ∧ resolve db1 agent = Err "entry not found".
Proof.
  split; [vm_compute; reflexivity|].
  eapply (update_breaks_references fails [] (edit "custom") db0 db1 agent _ "p0");
    [exact db0_ok|vm_compute; reflexivity|vm_compute; reflexivity|exact agent_refers|vm_compute; reflexivity].
Defined.

Lemma providers_stay_usable_witness :
  db_ok (run_op fails uuid (OUpdate [] (edit "custom")) db0) ∧
  usable_db (run_op fails uuid (OUpdate [] (edit "custom")) db0).
Proof.
  apply providers_stay_usable.
  - exact db0_ok.
  - intros rid m H. apply db0_lookup in H as [_ ->]. split_and!; [reflexivity|reflexivity|].
    repeat first [apply Forall_cons_2 | apply Forall_nil_2]; split; reflexivity.
  - intros n. apply lookup_singleton_ne. discriminate.
  - intros rid m _ H. apply db0_lookup in H as [_ ->]. reflexivity.
Defined.

(** A second provider, which nobody references, is deleted. *)
Definition db3 : DB :=
  MkDB {["p0" := row; "p1" := MkRow 2 "old" "deepseek" "" "" 1 []]}
    [MkEntryRow 6 2 "" "m0" "sk-0"; MkEntryRow 7 3 "" "m1" "sk-1"] 4 8 [agent] 5.

Lemma db3_rows rid r : db_providers db3 !! rid = Some r → (rid = "p0" ∧ pr_id r = 3) ∨ (rid = "p1" ∧ pr_id r = 2).
Proof.
  unfold db3. simpl. intros [[<- <-]|[_ H]]%lookup_insert_Some; [by left|].
  apply lookup_singleton_Some in H as [<- <-]. by right.
Qed.

Lemma db3_ok : db_ok db3.
Proof.
  split_and!.
  - intros r Hr. simpl in Hr. apply elem_of_cons in Hr as [->|Hr]; [simpl; lia|].
    apply list_elem_of_singleton in Hr as ->. simpl. lia.
  - intros rid r Hr. apply db3_rows in Hr as [[_ ->]|[_ ->]]; simpl; lia.
  - intros rid rid' r r' Hr Hr' E. apply db3_rows in Hr as [[-> E1]|[-> E1]];
      apply db3_rows in Hr' as [[-> E2]|[-> E2]]; try done; lia.
Qed.

Lemma delete_keeps_references_witness :
  resolve (DeleteAPIProvider fails "apiProviders/p1" db3).1 agent = resolve db3 agent ∧
  is_ok (resolve db3 agent) = true.
Proof.
  split; [|vm_compute; reflexivity].
  apply (delete_keeps_references fails "apiProviders/p1" db3);
    [exact db3_ok|vm_compute; reflexivity|apply list_elem_of_singleton; reflexivity].
Defined.

(** The custom provider edited as "deepseek", and an agent of its new entry. *)
Definition agent2 : AgentACPConfig :=
  MkForm "" [] [] "builtin-pi" "" ∅ "" "" "" "apiProviders/p0" "apiProviders/p0/entries/8" "" "" 0 0.

Lemma update_clears_base_url_witness :
  ∃ c', resolve db2 agent2 = Ok c' ∧ BuildPiConfig "/h" c' "m" "a" "a" "/bin/pi" "s" "t" "b" = None.
Proof.
  eexists. split; [vm_compute; reflexivity|].
  eapply (update_clears_base_url fails [] (edit "deepseek") db0 db2 m0 "p0" "/h" agent2);
    [vm_compute; reflexivity|vm_compute; reflexivity|vm_compute; reflexivity|reflexivity|discriminate| |vm_compute; reflexivity].
  repeat split; vm_compute; congruence.
Defined.
End ProvidersDemo.
