(* ===== verification/Runner.v ===== *)
(** The runtimes of an agent on a machine ([backend/agent/client/runner.go]): the
    configuration and session slots of a runner, the operations that change them
    (an assignment, a cold restart, a stop), and the runtime a turn is built over.

    A runner is used by the goroutine that applies control messages and by its
    drain goroutine; the slots are guarded by its mutex, so every critical section
    is a step of a program ([Threads]).  Sessions are objects of a heap: the
    subprocess behind one is alive until its Stop.  What the host decides (the
    detection of binaries, the creation of directories, the environment) is
    [Host]; the tools discovered for a turn are an argument of its build. *)

From stdpp Require Import base list strings numbers gmap.
From S2P Require Import Prelude Strings Paths Config Executor Producer Threads.
Local Open Scope Z_scope.

(** What the host answers. [h_detect]: the path of a user-installed pi and whether
    it is compatible; [h_pi_binary]: pi.ResolveBinary; [h_resident]:
    LAELIA_ACP2_SESSION=1. *)
Record Host := MkHost {
  h_home : string; h_machine : string; h_agent : string;
  h_detect : option (string * bool); h_pi_binary : option string;
  h_socket : string; h_token : string; h_binary_dir : string; h_proxy : option string;
  h_mkdir : string → bool; h_cwd : res string string; h_resident : bool; h_idle : Z; h_bundle : string }.

Inductive session_kind := SPi (c : PiConfig) | SThread (fingerprint : string).
Record session := MkSession { se_kind : session_kind; se_stopped : bool }.

Inductive runtime :=
| RtPi (sess : nat) (c : PiConfig)
| RtACP (c : ACPConfig)
| RtThread (c : ThreadConfig)
| RtResident (sess : nat) (c : ThreadConfig).

Section runner.
Context {K : Type} (sha16 : string → string).

(** [rn_cs]: the pointer to the command stream is set.  [rn_built] and
    [rn_started] are histories of the runtimes built and of those whose turn
    became in flight. *)
Record runner := MkRunner {
  rn_acp : option ACPConfig;
  rn_pi : option PiConfig;
  rn_piSession : option nat;
  rn_thread : option nat;
  rn_sessions : list session;
  rn_stream : stream K;
  rn_cs : bool;
  rn_files : bool;
  rn_built : list runtime;
  rn_started : list runtime
}.

Definition set_acp (c : option ACPConfig) (r : runner) : runner :=
  MkRunner c (rn_pi r) (rn_piSession r) (rn_thread r) (rn_sessions r) (rn_stream r) (rn_cs r) (rn_files r)
    (rn_built r) (rn_started r).
Definition set_pi (c : option PiConfig) (r : runner) : runner :=
  MkRunner (rn_acp r) c (rn_piSession r) (rn_thread r) (rn_sessions r) (rn_stream r) (rn_cs r) (rn_files r)
    (rn_built r) (rn_started r).
Definition set_piSession (s : option nat) (r : runner) : runner :=
  MkRunner (rn_acp r) (rn_pi r) s (rn_thread r) (rn_sessions r) (rn_stream r) (rn_cs r) (rn_files r)
    (rn_built r) (rn_started r).
Definition set_thread (s : option nat) (r : runner) : runner :=
  MkRunner (rn_acp r) (rn_pi r) (rn_piSession r) s (rn_sessions r) (rn_stream r) (rn_cs r) (rn_files r)
    (rn_built r) (rn_started r).
Definition set_sessions (l : list session) (r : runner) : runner :=
  MkRunner (rn_acp r) (rn_pi r) (rn_piSession r) (rn_thread r) l (rn_stream r) (rn_cs r) (rn_files r)
    (rn_built r) (rn_started r).
Definition set_stream (c : stream K) (r : runner) : runner :=
  MkRunner (rn_acp r) (rn_pi r) (rn_piSession r) (rn_thread r) (rn_sessions r) c (rn_cs r) (rn_files r)
    (rn_built r) (rn_started r).
Definition set_cs (b : bool) (r : runner) : runner :=
  MkRunner (rn_acp r) (rn_pi r) (rn_piSession r) (rn_thread r) (rn_sessions r) (rn_stream r) b (rn_files r)
    (rn_built r) (rn_started r).
Definition set_files (b : bool) (r : runner) : runner :=
  MkRunner (rn_acp r) (rn_pi r) (rn_piSession r) (rn_thread r) (rn_sessions r) (rn_stream r) (rn_cs r) b
    (rn_built r) (rn_started r).
Definition add_built (rt : runtime) (r : runner) : runner :=
  MkRunner (rn_acp r) (rn_pi r) (rn_piSession r) (rn_thread r) (rn_sessions r) (rn_stream r) (rn_cs r) (rn_files r)
    (rn_built r ++ [rt]) (rn_started r).
Definition add_started (rt : runtime) (r : runner) : runner :=
  MkRunner (rn_acp r) (rn_pi r) (rn_piSession r) (rn_thread r) (rn_sessions r) (rn_stream r) (rn_cs r) (rn_files r)
    (rn_built r) (rn_started r ++ [rt]).

Abbreviation R := (prog runner).

(** ** The configurations of an assignment *)

Definition buildAcpConfig (h : Host) (a : option AgentACPConfig) : option ACPConfig :=
  cfg ← BuildACPConfig (h_home h) a (h_machine h) (h_agent h);
  if h_mkdir h (ac_working_dir cfg) then Some cfg else None.

Definition pi_binary (h : Host) (a : option AgentACPConfig) : option string :=
  if match a with Some u => String.eqb (fm_provider u) UserPiProvider | None => false end then
    match Lookup PiProviderID with
    | None => None
    | Some _ => match h_detect h with Some (path, true) => Some path | _ => None end
    end
  else h_pi_binary h.

Definition with_proxy (proxy : option string) (c : PiConfig) : PiConfig :=
  match proxy with
  | None => c
  | Some url =>
      MkPi (pc_api_provider c) (pc_model c) (pc_api_key c) (pc_base_url c) (pc_persona c) (pc_context_window c)
        (pc_max_tokens c) (pc_config_dir c) (pc_working_dir c) (pc_binary c) (pc_agent c) (pc_socket c) (pc_token c)
        (pc_binary_dir c) (pc_machine c) (pc_agent_id c) (pc_limits c) (pc_idle c) url
  end.

Definition buildPiConfig (h : Host) (a : option AgentACPConfig) : option PiConfig :=
  binary ← pi_binary h a;
  cfg ← BuildPiConfig (h_home h) a (h_machine h) (h_agent h) (h_agent h) binary (h_socket h) (h_token h) (h_binary_dir h);
  if h_mkdir h (pc_working_dir cfg) then Some (with_proxy (h_proxy h) cfg) else None.

Definition fingerprint (h : Host) (c : PiConfig) : string := LaunchFingerprint sha16 (h_bundle h) c.

(** threadResidentEligible *)
Definition threadResidentEligible (h : Host) (cfg : option ACPConfig) : bool :=
  match cfg with
  | None => false
  | Some cfg =>
      h_resident h &&
      match Lookup (ac_provider cfg) with
      | Some p => match pv_thread p with Some _ => true | None => false end
      | None => String.eqb (ac_protocol cfg) ProtocolV2 && negb (String.eqb (ac_executable cfg) "")
      end
  end.

(** ** The slots *)

Definition setConfig (c : option ACPConfig) : R unit := writes (set_acp c).
Definition currentConfig : R (option ACPConfig) := reads rn_acp.
Definition setPiConfig (c : option PiConfig) : R unit := writes (set_pi c).
Definition currentPiConfig : R (option PiConfig) := reads rn_pi.
Definition currentThreadSession : R (option nat) := reads rn_thread.

(** Session.Stop *)
Definition mark_stopped (id : nat) (r : runner) : runner :=
  set_sessions (alter (λ s, MkSession (se_kind s) true) id (rn_sessions r)) r.
Definition stop_session (o : option nat) : R unit :=
  match o with None => mret tt | Some id => writes (mark_stopped id) end.

Definition new_session (k : session_kind) (r : runner) : runner * nat :=
  (set_sessions (rn_sessions r ++ [MkSession k false]) r, length (rn_sessions r)).

(** The critical sections of the pi and thread slots; each returns the session
    to stop. *)
Definition swap_pi (c : PiConfig) (r : runner) : runner * option nat :=
  let '(r1, id) := new_session (SPi c) r in (set_pi (Some c) (set_piSession (Some id) r1), rn_piSession r).
Definition take_pi (r : runner) : runner * option nat := (set_pi None (set_piSession None r), rn_piSession r).
Definition take_thread (r : runner) : runner * option nat := (set_thread None r, rn_thread r).

Definition restartPiSession (c : PiConfig) : R unit := old ← critical (swap_pi c); stop_session old.
Definition stopPiSession : R unit := old ← critical take_pi; stop_session old.
Definition stopThreadSession : R unit := old ← critical take_thread; stop_session old.

(** The wait is a step: the turn ended or the bound passed. *)
Definition cancel_in_flight (reason : string) (r : runner) : runner * option nat :=
  let '(c, d) := CancelInFlight reason (rn_stream r) in (set_stream c r, d).
Definition coordinateInFlightTurn (reason : string) : R unit :=
  cs ← reads rn_cs;
  if (cs : bool) then
    d ← critical (cancel_in_flight reason);
    match d with None => mret tt | Some _ => writes id end
  else mret tt.

Definition reloadedMidTurnReason : string := "config reloaded mid-turn".

(** ** The operations of the control side *)

Definition stop_resident : R unit := coordinateInFlightTurn reloadedMidTurnReason;; stopThreadSession.

Definition apply_pi (h : Host) (newPi : option PiConfig) : R unit :=
  match newPi with
  | None =>
      coordinateInFlightTurn reloadedMidTurnReason;;
      stopThreadSession;; stopPiSession;; setConfig None
  | Some newPi =>
      prev ← currentPiConfig;
      if match prev with Some prev => String.eqb (fingerprint h prev) (fingerprint h newPi) | None => false end then
        t ← currentThreadSession;
        (match t with Some _ => stop_resident | None => mret tt end);;
        setPiConfig (Some newPi)
      else
        coordinateInFlightTurn reloadedMidTurnReason;;
        stopThreadSession;; setConfig None;; restartPiSession newPi
  end.

Definition apply_acp (h : Host) (cfg : option ACPConfig) : R unit :=
  p ← currentPiConfig;
  (match p with Some _ => coordinateInFlightTurn reloadedMidTurnReason;; stopPiSession | None => mret tt end);;
  setConfig cfg;;
  if threadResidentEligible h cfg then mret tt else
  t ← currentThreadSession;
  match t with Some _ => stop_resident | None => mret tt end.

Definition applyAssignment (h : Host) (a : option AgentACPConfig) : R unit :=
  if match a with Some u => IsPiProvider (fm_provider u) | None => false end
  then apply_pi h (buildPiConfig h a)
  else apply_acp h (buildAcpConfig h a).

(** hotReloadAgentConfig, for a runner that is registered. *)
Definition hotReloadAgentConfig (h : Host) (a : option AgentACPConfig) : R unit :=
  setConfig (buildAcpConfig h a).

Definition coldRestart : R unit :=
  coordinateInFlightTurn "agent cold-restarted mid-turn";;
  writes (set_files false);;
  p ← currentPiConfig;
  (match p with Some c => restartPiSession c | None => mret tt end);;
  stopThreadSession;;
  cs ← reads rn_cs;
  if (cs : bool) then writes (λ r, set_stream (wake (rn_stream r)) r) else mret tt.

(** stop; [close]: what closeOutbox does to the stream's world. *)
Definition stop (close : string → stream K → stream K) (cause : string) : R unit :=
  coordinateInFlightTurn cause;;
  writes (λ r, set_stream (set_cancelled (rn_stream r)) r);;
  writes id;;
  cs ← critical (λ r, (set_cs false r, rn_cs r));
  (if (cs : bool) then writes (λ r, set_stream (close cause (rn_stream r)) r) else mret tt);;
  stopPiSession;; stopThreadSession.

(** ** The drain side *)

Definition NewACP (h : Host) (cfg : option ACPConfig) : res string runtime :=
  match cfg with
  | None => Err "ACP is not configured on this agent"
  | Some c =>
      if String.eqb (ac_executable c) "" then Err "ACP is not configured on this agent" else
      match Abs (h_cwd h) (ac_working_dir c) with Err e => Err e | Ok _ => Ok (RtACP c) end
  end.

Definition with_mcp (servers : list string) (c : ACPConfig) : ACPConfig :=
  MkACP (ac_limits c) (ac_provider c) (ac_model c) (ac_executable c) (ac_args c) (ac_protocol c) (ac_persona c)
    (ac_custom_env c) (ac_allow_env c) (ac_working_dir c) servers (ac_supports c).

Definition with_idle (d : Z) (c : ThreadConfig) : ThreadConfig :=
  MkThread (tc_limits c) d (tc_provider c) (tc_model c) (tc_working_dir c) (tc_persona c) (tc_protocol c)
    (tc_custom_env c) (tc_allow_env c) (tc_mcp_servers c) (tc_supports_raw c).

Definition thread_fp (r : runner) (id : nat) : option string :=
  s ← rn_sessions r !! id; match se_kind s with SThread fp => Some fp | SPi _ => None end.

(** The critical section of buildThreadRuntime: the session, and the one to stop. *)
Definition swap_thread (fp : string) (r : runner) : runner * (nat * option nat) :=
  match rn_thread r with
  | Some id =>
      if bool_decide (thread_fp r id = Some fp) then (r, (id, None)) else
      let '(r1, new) := new_session (SThread fp) r in (set_thread (Some new) r1, (new, Some id))
  | None =>
      let '(r1, new) := new_session (SThread fp) r in (set_thread (Some new) r1, (new, None))
  end.

Definition buildThreadRuntime (h : Host) (c : ThreadConfig) (command : string → string * list string) : R (res string runtime) :=
  if negb (h_resident h) then mret (Ok (RtThread c)) else
  let c := with_idle (h_idle h) c in
  x ← critical (swap_thread (threadFingerprint sha16 c command));
  stop_session x.2;;
  mret (Ok (RtResident x.1 c)).

(** The snapshot of buildRuntimeForAgent, with the lazy creation. *)
Definition snapshot_pi (r : runner) : runner * (option PiConfig * option nat) :=
  match rn_pi r, rn_piSession r with
  | Some c, None => let '(r1, id) := new_session (SPi c) r in (set_piSession (Some id) r1, (Some c, Some id))
  | p, s => (r, (p, s))
  end.

Definition NewPi (c : PiConfig) (s : option nat) : res string runtime :=
  match s with None => Err "pi: session not provided" | Some s => Ok (RtPi s c) end.

Definition buildRuntimeForAgent (h : Host) (mcp : list string) : R (res string runtime) :=
  x ← critical snapshot_pi;
  match x.1 with
  | Some c => mret (NewPi c x.2)
  | None =>
      cfg ← currentConfig;
      match cfg with
      | None => mret (NewACP h None)
      | Some cfg =>
          let copyCfg := with_mcp mcp cfg in
          let threadCfg := BuildThreadConfig copyCfg in
          match Lookup (ac_provider cfg) with
          | Some p =>
              match pv_thread p with
              | Some command => buildThreadRuntime h threadCfg command
              | None => mret (NewACP h (Some copyCfg))
              end
          | None =>
              if String.eqb (ac_protocol cfg) ProtocolV2 && negb (String.eqb (ac_executable cfg) "")
              then buildThreadRuntime h threadCfg (λ _, (ac_executable cfg, ac_args cfg))
              else mret (NewACP h (Some copyCfg))
          end
      end
  end.

(** The part of runSession around a turn: the runtime is built, then becomes the
    current executor, then in flight. *)
Definition end_turn (c : stream K) : stream K :=
  setCurrentExecutor false (default c (endInFlight c)).

Definition drain_turn (h : Host) (mcp : list string) : R unit :=
  rt ← buildRuntimeForAgent h mcp;
  match rt with
  | Err _ => mret tt
  | Ok rt =>
      writes (λ r, add_built rt (set_stream (setCurrentExecutor true (rn_stream r)) r));;
      writes (λ r, add_started rt (set_stream (beginInFlight (rn_stream r)) r));;
      writes (λ r, set_stream (end_turn (rn_stream r)) r)
  end.

(** ** The goroutines of a runner *)

(** What the control side does to a runner, in the order of the messages; what
    the drain side does, turn after turn. *)
Inductive control_op :=
| OAssign (h : Host) (a : option AgentACPConfig)
| OUpdate (h : Host) (a : option AgentACPConfig)
| ORestart.

Definition control (o : control_op) : R unit :=
  match o with
  | OAssign h a => applyAssignment h a
  | OUpdate h a => hotReloadAgentConfig h a
  | ORestart => coldRestart
  end.

Fixpoint controls (l : list control_op) : R unit :=
  match l with [] => mret tt | o :: l => control o;; controls l end.

Fixpoint turns (l : list (Host * list string)) : R unit :=
  match l with [] => mret tt | (h, mcp) :: l => drain_turn h mcp;; turns l end.

Inductive goroutine := GControl (l : list control_op) | GDrain (l : list (Host * list string)).
Definition program (g : goroutine) : R unit :=
  match g with GControl l => controls l | GDrain l => turns l end.

Definition live (r : runner) (id : nat) : Prop :=
  ∃ k, rn_sessions r !! id = Some (MkSession k false).
End runner.

Arguments runner : clear implicits.
