(* ===== verification/RunnerSpec.v ===== *)
(** What a runner keeps ([Runner]): who owns a session, the pairing of the pi
    config with its session, and what a reload does to a running turn.  The
    goroutines of a runner are programs ([Threads]); their critical sections are
    the transitions [moves], and the invariant is proved once, over those. *)

From stdpp Require Import base list strings numbers gmap.
From S2P Require Import Prelude Strings Paths Config Executor Producer Threads Runner.
Local Open Scope Z_scope.

Section spec.
Context {K : Type} (sha16 : string → string).

(** [single]: one goroutine only is on the control side; then the pairing holds
    as well.  [bundle]: the extensions of the binary. *)
Context (single : bool) (bundle : string).

Abbreviation R := (prog (runner K)).

Definition shape (c : PiConfig) : string := LaunchFingerprint sha16 bundle c.

(** ** The ghost state: a goroutine's side, and the session it took out of a slot
    and has to stop. *)

Inductive side := Control | Drain.
Definition ghost : Type := side * option nat.

Definition core (r : runner K) := (rn_pi r, rn_piSession r, rn_thread r, rn_sessions r).
Definition history (r : runner K) : list runtime := rn_built r ++ rn_started r.

(** The runtime's session is of the runtime's launch shape. *)
Definition rt_ok (r : runner K) (rt : runtime) : Prop :=
  match rt with
  | RtPi id c => ∃ c' b, rn_sessions r !! id = Some (MkSession (SPi c') b) ∧ shape c' = shape c
  | RtResident id c => ∃ command b,
      rn_sessions r !! id = Some (MkSession (SThread (threadFingerprint sha16 c command)) b)
  | _ => True
  end.

Definition paired (r : runner K) : Prop :=
  match rn_pi r, rn_piSession r with
  | None, None => True
  | Some c, Some id => ∃ c', rn_sessions r !! id = Some (MkSession (SPi c') false) ∧ shape c' = shape c
  | _, _ => False
  end.

(** A session keeps what it was launched with. *)
Definition kinds (r r' : runner K) : Prop :=
  ∀ id s, rn_sessions r !! id = Some s → ∃ b, rn_sessions r' !! id = Some (MkSession (se_kind s) b).

Definition owned (ts : list ghost) (id : nat) : Prop := ∃ k d, ts !! k = Some (d, Some id).

Record slots_ok (r : runner K) (ts : list ghost) : Prop := {
  pi_live id : rn_piSession r = Some id → ∃ c, rn_sessions r !! id = Some (MkSession (SPi c) false);
  thread_live id : rn_thread r = Some id → ∃ fp, rn_sessions r !! id = Some (MkSession (SThread fp) false);
  owned_out id : owned ts id → rn_piSession r ≠ Some id ∧ rn_thread r ≠ Some id ∧ (id < length (rn_sessions r))%nat;
  no_leak id : live r id → rn_piSession r = Some id ∨ rn_thread r = Some id ∨ owned ts id
}.

Definition one_control (ts : list ghost) : Prop :=
  ∀ j k o o', ts !! j = Some (Control, o) → ts !! k = Some (Control, o') → j = k.

Definition Inv (r : runner K) (ts : list ghost) : Prop :=
  slots_ok r ts ∧ (single = true → one_control ts ∧ paired r ∧ Forall (rt_ok r) (history r)).

Definition stable (t : ghost) (r r' : runner K) : Prop :=
  kinds r r' ∧ (single = true → (t.1 = Control → rn_pi r' = rn_pi r) ∧ paired r').

(** ** The transitions *)

Inductive moves : ghost → runner K → ghost → runner K → Prop :=
| mv_quiet t r r' : core r' = core r →
    (∀ rt, rt ∈ history r' → rt ∈ history r ∨ (single = true → rt_ok r rt)) → moves t r t r'
| mv_set_pi r c : (single = true → ∃ prev, rn_pi r = Some prev ∧ shape prev = shape c) →
    moves (Control, None) r (Control, None) (set_pi (Some c) r)
| mv_swap_pi r c : moves (Control, None) r (Control, rn_piSession r) (swap_pi c r).1
| mv_take_pi r : moves (Control, None) r (Control, rn_piSession r) (take_pi r).1
| mv_take_thread r : moves (Control, None) r (Control, rn_thread r) (take_thread r).1
| mv_lazy d r : moves (d, None) r (d, None) (snapshot_pi r).1
| mv_swap_thread d fp r : moves (d, None) r (d, (swap_thread fp r).2.2) (swap_thread fp r).1
| mv_stop d id r : moves (d, Some id) r (d, None) (mark_stopped id r).

Implicit Types (r : runner K) (ts : list ghost).

Lemma kinds_refl r : kinds r r.
Proof. intros id [k b] ->. by exists b. Qed.

Lemma kinds_trans r r1 r2 : kinds r r1 → kinds r1 r2 → kinds r r2.
Proof. intros H1 H2 id s Hs. destruct (H1 id s Hs) as [b Hb]. exact (H2 id _ Hb). Qed.

Lemma kinds_sessions r r' : rn_sessions r' = rn_sessions r → kinds r r'.
Proof. intros Hs id [k b] Hl. rewrite Hs. eauto. Qed.

Lemma kinds_new r r' k : rn_sessions r' = rn_sessions r ++ [MkSession k false] → kinds r r'.
Proof. intros Hs id [k' b] Hl. rewrite Hs. exists b. by apply lookup_app_l_Some. Qed.

Lemma kinds_mark r id : kinds r (mark_stopped id r).
Proof.
  intros id' s Hs. simpl. destruct (decide (id = id')) as [<-|Hne].
  - rewrite list_lookup_alter_eq, Hs. simpl. by exists true.
  - rewrite list_lookup_alter_ne by done. destruct s as [k b]. by exists b.
Qed.

Lemma rt_ok_kinds r r' rt : kinds r r' → rt_ok r rt → rt_ok r' rt.
Proof.
  intros Hk. destruct rt as [id c|c|c|id c]; [|done|done|].
  - intros (c' & b & Hs & He). destruct (Hk id _ Hs) as [b' Hb]. exists c', b'. auto.
  - intros (command & b & Hs). destruct (Hk id _ Hs) as [b' Hb]. exists command, b'. auto.
Qed.

(** The sessions a transition leaves: the same, one more, or one stopped. *)
Lemma snapshot_pi_cases r :
  (snapshot_pi r).1 = r ∧ (snapshot_pi r).2 = (rn_pi r, rn_piSession r) ∧ (rn_pi r = None ∨ rn_piSession r ≠ None) ∨
  ∃ c, rn_pi r = Some c ∧ rn_piSession r = None ∧
    (snapshot_pi r).1 = set_piSession (Some (length (rn_sessions r))) (new_session (SPi c) r).1 ∧
    (snapshot_pi r).2 = (Some c, Some (length (rn_sessions r))).
Proof.
  unfold snapshot_pi. destruct (rn_pi r) as [c|] eqn:Ep, (rn_piSession r) as [id|] eqn:Es; simpl; eauto 8.
Qed.

Lemma swap_thread_cases fp r :
  (∃ id, rn_thread r = Some id ∧ thread_fp r id = Some fp ∧ swap_thread fp r = (r, (id, None))) ∨
  swap_thread fp r = (set_thread (Some (length (rn_sessions r))) (new_session (SThread fp) r).1,
                      (length (rn_sessions r), rn_thread r)).
Proof.
  unfold swap_thread. destruct (rn_thread r) as [id|] eqn:Et; simpl; [|by right].
  case_bool_decide as Hfp; [left; by exists id|by right].
Qed.
(** *** Who owns a session *)

Lemma owned_now ts k d id : (k < length ts)%nat → owned (<[k := (d, Some id)]> ts) id.
Proof. intros Hk. exists k, d. by apply list_lookup_insert_eq. Qed.

Lemma owned_before ts k d o id :
  owned (<[k := (d, o)]> ts) id → o = Some id ∨ owned ts id.
Proof.
  intros (j & e & Hj). apply list_lookup_insert_Some in Hj as [(_ & [= _ ->] & _)|(_ & Hj)]; [by left|].
  right. by exists j, e.
Qed.

Lemma owned_kept ts k d e o o' id :
  ts !! k = Some (d, o) → o ≠ Some id → owned ts id → owned (<[k := (e, o')]> ts) id.
Proof.
  intros Hk Ho (j & f & Hj). exists j, f. rewrite list_lookup_insert_ne; [done|].
  intros ->. rewrite Hk in Hj. by injection Hj as -> ->.
Qed.

Lemma live_app r r' k id :
  rn_sessions r' = rn_sessions r ++ [MkSession k false] →
  live r' id → live r id ∨ id = length (rn_sessions r).
Proof.
  intros Hs [k' Hl]. rewrite Hs in Hl. apply lookup_app_Some in Hl as [Hl|[Hge Hl]]; [left; by exists k'|right].
  apply lookup_lt_Some in Hl. simpl in Hl. lia.
Qed.

Lemma lookup_fresh r k : (rn_sessions r ++ [MkSession k false]) !! length (rn_sessions r) = Some (MkSession k false).
Proof. by apply list_lookup_middle. Qed.

Section step.
Context (r : runner K) (ts : list ghost) (k : nat) (d : side).

(** A slot is filled with a new session; its old one is owned. *)
Lemma slots_new_pi r' c :
  ts !! k = Some (d, None) → slots_ok r ts →
  rn_sessions r' = rn_sessions r ++ [MkSession (SPi c) false] →
  rn_piSession r' = Some (length (rn_sessions r)) → rn_thread r' = rn_thread r →
  slots_ok r' (<[k := (d, rn_piSession r)]> ts).
Proof.
  intros Hk [Hp Ht Ho Hn] Hs Hp' Ht'. pose proof (lookup_lt_Some _ _ _ Hk) as Hlt. split.
  - intros id. rewrite Hp', Hs. intros [= <-]. exists c. apply lookup_fresh.
  - intros id. rewrite Ht', Hs. intros Hid. destruct (Ht id Hid) as [fp Hl]. exists fp. by apply lookup_app_l_Some.
  - intros id Hid. rewrite Hp', Ht', Hs, length_app. simpl.
    apply owned_before in Hid as [Hid|Hid].
    + destruct (Hp id Hid) as [c' Hl]. pose proof (lookup_lt_Some _ _ _ Hl).
      split_and!; [intros [=]; lia| |lia]. intros Hid'. destruct (Ht id Hid') as [fp Hl']. congruence.
    + destruct (Ho id Hid) as (_ & Hni & Hl). split_and!; [intros [=]; lia|done|lia].
  - intros id Hl. rewrite Hp', Ht'. destruct (live_app r r' _ _ Hs Hl) as [Hl'| ->]; [|by left].
    destruct (Hn id Hl') as [Hid|[Hid|Hid]]; [right; right; rewrite Hid; by apply owned_now|by right; left|].
    right. right. by eapply owned_kept.
Qed.

Lemma slots_new_thread r' fp :
  ts !! k = Some (d, None) → slots_ok r ts →
  rn_sessions r' = rn_sessions r ++ [MkSession (SThread fp) false] →
  rn_thread r' = Some (length (rn_sessions r)) → rn_piSession r' = rn_piSession r →
  slots_ok r' (<[k := (d, rn_thread r)]> ts).
Proof.
  intros Hk [Hp Ht Ho Hn] Hs Ht' Hp'. pose proof (lookup_lt_Some _ _ _ Hk) as Hlt. split.
  - intros id. rewrite Hp', Hs. intros Hid. destruct (Hp id Hid) as [c Hl]. exists c. by apply lookup_app_l_Some.
  - intros id. rewrite Ht', Hs. intros [= <-]. exists fp. apply lookup_fresh.
  - intros id Hid. rewrite Hp', Ht', Hs, length_app. simpl.
    apply owned_before in Hid as [Hid|Hid].
    + destruct (Ht id Hid) as [fp' Hl]. pose proof (lookup_lt_Some _ _ _ Hl).
      split_and!; [|intros [=]; lia|lia]. intros Hid'. destruct (Hp id Hid') as [c Hl']. congruence.
    + destruct (Ho id Hid) as (Hni & _ & Hl). split_and!; [done|intros [=]; lia|lia].
  - intros id Hl. rewrite Hp', Ht'. destruct (live_app r r' _ _ Hs Hl) as [Hl'| ->]; [|by right; left].
    destruct (Hn id Hl') as [Hid|[Hid|Hid]]; [by left|right; right; rewrite Hid; by apply owned_now|].
    right. right. by eapply owned_kept.
Qed.

(** A slot is emptied; its session is owned. *)
Lemma slots_take r' (pi : bool) :
  ts !! k = Some (d, None) → slots_ok r ts → rn_sessions r' = rn_sessions r →
  rn_piSession r' = (if pi then None else rn_piSession r) →
  rn_thread r' = (if pi then rn_thread r else None) →
  slots_ok r' (<[k := (d, if pi then rn_piSession r else rn_thread r)]> ts).
Proof.
  intros Hk [Hp Ht Ho Hn] Hs Hp' Ht'. pose proof (lookup_lt_Some _ _ _ Hk) as Hlt.
  assert (∀ id, live r' id → live r id) as Hlive by (intros id; unfold live; by rewrite Hs).
  split.
  - intros id. rewrite Hp', Hs. destruct pi; [done|]. apply Hp.
  - intros id. rewrite Ht', Hs. destruct pi; [|done]. apply Ht.
  - intros id Hid. rewrite Hp', Ht', Hs. apply owned_before in Hid as [Hid|Hid].
    + destruct pi; [destruct (Hp id Hid) as [x Hl]|destruct (Ht id Hid) as [x Hl]];
        pose proof (lookup_lt_Some _ _ _ Hl); split_and!; try done; intros Hid'.
      * destruct (Ht id Hid') as [fp Hl']. congruence.
      * destruct (Hp id Hid') as [c Hl']. congruence.
    + destruct (Ho id Hid) as (H1 & H2 & Hl). by destruct pi.
  - intros id Hl. rewrite Hp', Ht'.
    destruct (Hn id (Hlive id Hl)) as [Hid|[Hid|Hid]], pi; auto;
      try (right; right; rewrite Hid; by apply owned_now); right; right; by eapply owned_kept.
Qed.

(** An owned session is stopped. *)
Lemma slots_stop id :
  ts !! k = Some (d, Some id) → slots_ok r ts → slots_ok (mark_stopped id r) (<[k := (d, None)]> ts).
Proof.
  intros Hk [Hp Ht Ho Hn]. destruct (Ho id) as (Hnp & Hnt & _); [by exists k, d|].
  split; simpl.
  - intros i Hi. destruct (Hp i Hi) as [c Hl]. exists c. rewrite list_lookup_alter_ne; [done|congruence].
  - intros i Hi. destruct (Ht i Hi) as [fp Hl]. exists fp. rewrite list_lookup_alter_ne; [done|congruence].
  - intros i Hi. rewrite length_alter. apply Ho. by apply owned_before in Hi as [|].
  - intros i [k' Hl]. simpl in Hl. destruct (decide (id = i)) as [<-|Hne].
    { rewrite list_lookup_alter_eq in Hl. destruct (rn_sessions r !! id); by simplify_eq/=. }
    rewrite list_lookup_alter_ne in Hl by done. destruct (Hn i) as [|[|Hi]]; [by exists k'|by left|by right; left|].
    right. right. eapply owned_kept; [done| |done]. congruence.
Qed.

(** Nothing of the slots changed. *)
Lemma slots_same r' t :
  ts !! k = Some t → slots_ok r ts → core r' = core r → slots_ok r' (<[k := t]> ts).
Proof.
  intros Hk [Hp Ht Ho Hn] [= _ H1 H2 H3]. rewrite list_insert_id by done.
  split; unfold live in *; rewrite ?H1, ?H2, ?H3; auto.
Qed.
End step.

(** *** The transitions compose *)

Lemma moves_kinds t r t' r' : moves t r t' r' → kinds r r'.
Proof.
  intros [t0 r0 r1 [= _ _ _ Hs] _|r0 c _|r0 c|r0|r0|d r0|d fp r0|d id r0].
  - by apply kinds_sessions.
  - by apply kinds_sessions.
  - by apply (kinds_new _ _ (SPi c)).
  - by apply kinds_sessions.
  - by apply kinds_sessions.
  - destruct (snapshot_pi_cases r0) as [(-> & _)|(c & _ & _ & -> & _)]; [apply kinds_refl|by eapply kinds_new].
  - destruct (swap_thread_cases fp r0) as [(id & _ & _ & ->)| ->]; [apply kinds_refl|by eapply kinds_new].
  - apply kinds_mark.
Qed.

Lemma moves_side t r t' r' : moves t r t' r' → t'.1 = t.1.
Proof. by intros []. Qed.

(** Only the control side writes the pi config. *)
Lemma moves_pi t r t' r' : moves t r t' r' → t.1 = Drain → rn_pi r' = rn_pi r.
Proof.
  intros [t0 r0 r1 [= Hp _ _ _] _|r0 c _|r0 c|r0|r0|d r0|d fp r0|d id r0]; try done; intros _.
  - destruct (snapshot_pi_cases r0) as [(-> & _)|(c & _ & _ & -> & _)]; done.
  - destruct (swap_thread_cases fp r0) as [(id & _ & _ & ->)| ->]; done.
Qed.

Lemma moves_history t r t' r' :
  moves t r t' r' → ∀ rt, rt ∈ history r' → rt ∈ history r ∨ (single = true → rt_ok r rt).
Proof.
  intros [t0 r0 r1 _ Hh|r0 c _|r0 c|r0|r0|d r0|d fp r0|d id r0]; auto.
  - destruct (snapshot_pi_cases r0) as [(-> & _)|(c & _ & _ & -> & _)]; auto.
  - destruct (swap_thread_cases fp r0) as [(id & _ & _ & ->)| ->]; auto.
Qed.

Lemma moves_slots t r t' r' ts k :
  ts !! k = Some t → slots_ok r ts → moves t r t' r' → slots_ok r' (<[k := t']> ts).
Proof.
  intros Hk Hs Hm. destruct Hm as [t0 r0 r1 Hc _|r0 c _|r0 c|r0|r0|d r0|d fp r0|d id r0].
  - by eapply slots_same.
  - rewrite list_insert_id by done. by destruct Hs.
  - by eapply slots_new_pi.
  - by apply (slots_take r0 ts k Control (take_pi r0).1 true).
  - by apply (slots_take r0 ts k Control (take_thread r0).1 false).
  - destruct (snapshot_pi_cases r0) as [(-> & _)|(c & _ & He & -> & _)]; [by eapply slots_same|].
    rewrite <- He. by eapply slots_new_pi.
  - destruct (swap_thread_cases fp r0) as [(id & _ & _ & ->)| ->]; [by eapply slots_same|].
    by eapply slots_new_thread.
  - by apply slots_stop.
Qed.

(** The current pi session is not stopped under its config. *)
Lemma paired_kept r r' :
  paired r → rn_pi r' = rn_pi r → rn_piSession r' = rn_piSession r →
  (∀ id s, rn_piSession r = Some id → rn_sessions r !! id = Some s → rn_sessions r' !! id = Some s) →
  paired r'.
Proof.
  unfold paired. intros H -> -> Hs. destruct (rn_pi r) as [c|], (rn_piSession r) as [id|]; try done.
  destruct H as (c' & Hl & He). exists c'. eauto.
Qed.

Lemma moves_paired t r t' r' ts k :
  ts !! k = Some t → slots_ok r ts → moves t r t' r' → single = true → paired r → paired r'.
Proof.
  intros Hk Hs Hm E Hp.
  destruct Hm as [t0 r0 r1 [= H1 H2 H3 H4] _|r0 c Hc|r0 c|r0|r0|d r0|d fp r0|d id r0].
  - apply (paired_kept r0); rewrite ?H4; auto.
  - destruct (Hc E) as (prev & Hprev & He). unfold paired in *. simpl. rewrite Hprev in Hp.
    destruct (rn_piSession r0); [|done]. destruct Hp as (c' & Hl & Hsh). exists c'. split; [done|congruence].
  - unfold paired. simpl. exists c. split; [apply lookup_fresh|done].
  - done.
  - by apply (paired_kept r0).
  - destruct (snapshot_pi_cases r0) as [(-> & _)|(c & Hc & Hn & _)]; [done|].
    unfold paired in Hp. by rewrite Hc, Hn in Hp.
  - destruct (swap_thread_cases fp r0) as [(id & _ & _ & ->)| ->]; [done|].
    apply (paired_kept r0); [done..|]. intros id s _ Hl. simpl. by apply lookup_app_l_Some.
  - destruct Hs as [_ _ Ho _]. destruct (Ho id) as (Hne & _); [by exists k, d|].
    apply (paired_kept r0); [done..|]. intros i s Hi Hl. simpl. rewrite list_lookup_alter_ne; [done|congruence].
Qed.

#[export] Instance runner_composes : Composes Inv stable moves.
Proof.
  split.
  - intros t r r1 r2 [H1 H1'] [H2 H2']. split; [by eapply kinds_trans|].
    intros E. destruct (H1' E) as [Hp _], (H2' E) as [Hp' Hq]. split; [|done]. intros Ht. by rewrite Hp', Hp.
  - intros t r r1 [_ H]. split; [apply kinds_refl|]. intros E. by destruct (H E).
  - intros t r ts [_ HI] _. split; [apply kinds_refl|]. intros E. by destruct (HI E) as (_ & Hp & _).
  - intros r ts k t t' r' [Hs HI] Hk Hm. split; [by eapply moves_slots|]. intros E.
    destruct (HI E) as (H1 & Hp & Hh). split_and!; [|by eapply moves_paired|].
    + pose proof (moves_side _ _ _ _ Hm) as Ht. destruct t as [d o], t' as [d' o']. simpl in Ht. subst d'.
      intros i j o1 o2 Hi Hj.
      apply list_lookup_insert_Some in Hi as [(<- & Hi & _)|(Hi' & Hi)];
        apply list_lookup_insert_Some in Hj as [(<- & Hj & _)|(Hj' & Hj)]; simplify_eq; eauto.
    + apply Forall_forall. intros rt Hrt. rewrite Forall_forall in Hh.
      apply (rt_ok_kinds r); [by eapply moves_kinds|].
      destruct (moves_history _ _ _ _ Hm rt Hrt) as [Hin|Hin]; auto.
  - intros r ts i j t u t' r' [Hs HI] Hi Hj Hne Hm. split; [by eapply moves_kinds|]. intros E.
    destruct (HI E) as (H1 & Hp & _). split; [|exact (moves_paired _ _ _ _ _ _ Hi Hs Hm E Hp)].
    intros Hu. apply (moves_pi _ _ _ _ Hm).
    destruct t as [[] o]; [|done]. destruct u as [d o']. simpl in Hu. subst d.
    exfalso. exact (Hne (H1 _ _ _ _ Hi Hj)).
Qed.

(** ** The programs are safe *)

Section keeps.
Context (d : side) (I : runner K → Prop).
Context (I_stable : ∀ o r r', stable (d, o) r r' → I r → I r').
Context (I_pi : ∀ r r', rn_pi r' = rn_pi r → kinds r r' → I r → I r').

(** [m] makes transitions only, leaves nothing to stop, and keeps [I]. *)
Definition keeps {A} (m : R A) : Prop :=
  ∀ r, I r → safe stable moves (λ _ t r', t = (d, None) ∧ I r') m (d, None) r.

Lemma kept_ret {A} (a : A) : keeps (mret a).
Proof. intros r HI r1 H1. split; [done|]. by eapply I_stable. Qed.

Lemma kept_bind {A B} (m : R A) (k : A → R B) : keeps m → (∀ a, keeps (k a)) → keeps (m ≫= k).
Proof.
  intros Hm Hk r HI. eapply (safe_seq Inv stable moves); [by apply Hm|]. intros a t r' [-> HI']. by apply Hk.
Qed.

Lemma keeps_critical {A} (f : runner K → runner K * A) :
  (∀ r, I r → moves (d, None) r (d, None) (f r).1 ∧ I (f r).1) → keeps (critical f).
Proof.
  intros Hf r HI r1 H1. destruct (Hf r1) as [Hm HI1]; [by eapply I_stable|].
  exists (d, None). split; [done|]. intros r2 H2. split; [done|]. by eapply I_stable.
Qed.

Lemma keeps_reads {A} (f : runner K → A) : keeps (reads f).
Proof. apply keeps_critical. intros r HI. split; [|done]. apply mv_quiet; auto. Qed.

Lemma keeps_quiet {A} (f : runner K → runner K * A) :
  (∀ r, core (f r).1 = core r ∧ history (f r).1 = history r) → keeps (critical f).
Proof.
  intros Hf. apply keeps_critical. intros r HI. destruct (Hf r) as [Hc Hh]. split.
  - apply mv_quiet; [done|]. rewrite Hh. by left.
  - apply (I_pi r); [by injection Hc|apply kinds_sessions; by injection Hc|done].
Qed.

(** A session taken out of a slot is stopped. *)
Lemma safe_stop_session o r : I r → safe stable moves (λ _ t r', t = (d, None) ∧ I r') (stop_session o) (d, o) r.
Proof.
  destruct o as [id|]; [|by apply kept_ret]. intros HI r1 H1. exists (d, None).
  split; [apply mv_stop|]. intros r2 H2. split; [done|]. apply (I_stable _ _ _ H2), (I_pi r1); [done|apply kinds_mark|].
  by apply (I_stable _ _ _ H1).
Qed.

Lemma keeps_swap (f : runner K → runner K * option nat) :
  (∀ r, I r → moves (d, None) r (d, (f r).2) (f r).1 ∧ I (f r).1) →
  keeps (old ← critical f; stop_session old).
Proof.
  intros Hf r HI. apply (safe_bind Inv stable moves). intros r1 H1.
  destruct (Hf r1) as [Hm HI1]; [by eapply I_stable|]. exists (d, (f r1).2). split; [done|].
  intros r2 H2. apply safe_stop_session. by eapply I_stable.
Qed.

Lemma keeps_coordinateInFlightTurn reason : keeps (coordinateInFlightTurn reason).
Proof.
  apply kept_bind; [apply keeps_reads|]. intros []; [|apply kept_ret].
  apply kept_bind; [|intros [x|]; [by apply keeps_quiet|apply kept_ret]].
  apply keeps_quiet. intros r. unfold cancel_in_flight. by destruct CancelInFlight.
Qed.
End keeps.

Definition anything (r : runner K) : Prop := True.
Definition knows (p : option PiConfig) (r : runner K) : Prop := single = true → rn_pi r = p.

Lemma anything_stable d o r r' : stable (d, o) r r' → anything r → anything r'.
Proof. done. Qed.

Lemma anything_pi r r' : rn_pi r' = rn_pi r → kinds r r' → anything r → anything r'.
Proof. done. Qed.

Lemma knows_stable p o r r' : stable (Control, o) r r' → knows p r → knows p r'.
Proof. intros [_ Hs] Hk E. destruct (Hs E) as [Hp _]. rewrite Hp; auto. Qed.

Lemma knows_pi p r r' : rn_pi r' = rn_pi r → kinds r r' → knows p r → knows p r'.
Proof. intros Hp _ Hk E. rewrite Hp. auto. Qed.

#[local] Hint Resolve anything_stable anything_pi knows_stable knows_pi : core.

(** *** The control side *)

Lemma keeps_stopThreadSession I :
  (∀ o r r', stable (Control, o) r r' → I r → I r') → (∀ r r', rn_pi r' = rn_pi r → kinds r r' → I r → I r') →
  keeps Control I stopThreadSession.
Proof.
  intros Hs Hp. apply keeps_swap; [done..|]. intros r HI. split; [apply mv_take_thread|].
  by apply (Hp r); [|apply kinds_sessions|].
Qed.

Lemma keeps_stop_resident I :
  (∀ o r r', stable (Control, o) r r' → I r → I r') → (∀ r r', rn_pi r' = rn_pi r → kinds r r' → I r → I r') →
  keeps Control I stop_resident.
Proof.
  intros Hs Hp. apply kept_bind; [by apply keeps_coordinateInFlightTurn|]. intros _.
  by apply keeps_stopThreadSession.
Qed.

Lemma keeps_stopPiSession : keeps Control anything stopPiSession.
Proof. apply keeps_swap; [eauto..|]. intros r _. split; [apply mv_take_pi|done]. Qed.

Lemma keeps_restartPiSession c : keeps Control anything (restartPiSession c).
Proof. apply keeps_swap; [eauto..|]. intros r _. split; [apply mv_swap_pi|done]. Qed.

Lemma keeps_setConfig I c :
  (∀ o r r', stable (Control, o) r r' → I r → I r') → (∀ r r', rn_pi r' = rn_pi r → kinds r r' → I r → I r') →
  keeps Control I (setConfig c).
Proof. intros Hs Hp. by apply keeps_quiet. Qed.

#[local] Hint Resolve keeps_stopThreadSession keeps_stop_resident keeps_stopPiSession keeps_restartPiSession
  keeps_setConfig keeps_coordinateInFlightTurn kept_ret keeps_reads keeps_quiet : core.

#[local] Hint Extern 2 (keeps _ _ _) => apply keeps_reads : core.
#[local] Hint Extern 2 (keeps _ _ _) => apply keeps_quiet : core.

(** Goes through a program: binds and case distinctions; the hints close the rest. *)
Local Ltac walk := repeat first [ solve [eauto] | apply kept_bind | match goal with |- ∀ _, _ => intros ? end | case_match ].

Lemma keeps_apply_acp h cfg : keeps Control anything (apply_acp h cfg).
Proof. unfold apply_acp. walk. Qed.

Definition host_ok (h : Host) : Prop := single = true → h_bundle h = bundle.

(** Refreshing the config of a session whose launch shape is the config's. *)
Lemma keeps_refresh h prev c :
  host_ok h → fingerprint sha16 h prev = fingerprint sha16 h c →
  ∀ r, knows (Some prev) r →
  safe stable moves (λ _ t r', t = (Control, None) ∧ anything r') (setPiConfig (Some c)) (Control, None) r.
Proof.
  intros Hh He r Hk r1 H1. exists (Control, None). split; [|by eauto].
  apply mv_set_pi. intros E. exists prev. split; [by apply (knows_stable _ _ _ _ H1)|].
  unfold fingerprint in He. rewrite (Hh E) in He. done.
Qed.

Lemma keeps_at {A} d I (m : R A) r :
  keeps d I m → I r → safe stable moves (λ _ t r', t = (d, None) ∧ I r') m (d, None) r.
Proof. intros Hm. apply Hm. Qed.

(** A critical section, with what it returned. *)
Lemma safe_step {A B} (f : runner K → runner K * A) (Q : B → ghost → runner K → Prop) (k : A → R B) t r :
  (∀ r1, stable t r r1 → ∃ t', moves t r1 t' (f r1).1 ∧
     ∀ r2, stable t' (f r1).1 r2 → safe stable moves Q (k (f r1).2) t' r2) →
  safe stable moves Q (critical f ≫= k) t r.
Proof.
  intros Hk. apply (safe_bind Inv stable moves). intros r1 H1.
  destruct (Hk r1 H1) as (t' & Hm & Hs). by exists t'.
Qed.

Lemma safe_reads {A B} (f : runner K → A) (Q : B → ghost → runner K → Prop) (k : A → R B) t r :
  (∀ r1 r2, stable t r r1 → stable t r1 r2 → safe stable moves Q (k (f r1)) t r2) →
  safe stable moves Q (reads f ≫= k) t r.
Proof.
  intros Hk. apply safe_step. intros r1 H1. exists t. split; [apply mv_quiet; auto|].
  intros r2 H2. by apply Hk.
Qed.

Lemma keeps_unchanged prev (t : option nat) :
  keeps Control (knows (Some prev)) (match t with Some _ => stop_resident | None => mret tt end).
Proof. walk. Qed.

Lemma keeps_apply_pi h new : host_ok h → keeps Control anything (apply_pi sha16 h new).
Proof.
  intros Hh. unfold apply_pi. destruct new as [c|]; [|walk].
  intros r _. apply safe_reads. intros r1 r2 _ H2.
  destruct (rn_pi r1) as [prev|] eqn:Ep; [|apply keeps_at; [walk|done]].
  destruct (String.eqb_spec (fingerprint sha16 h prev) (fingerprint sha16 h c)) as [Ef|_];
    [|apply keeps_at; [walk|done]].
  assert (knows (Some prev) r2) as Hk2 by (apply (knows_stable _ _ _ _ H2); by intros _).
  apply safe_reads. intros r3 r4 H3 H4.
  apply (safe_seq Inv stable moves (λ _ t r, t = (Control, None) ∧ knows (Some prev) r)).
  - apply keeps_unchanged. by apply (knows_stable _ _ _ _ H4), (knows_stable _ _ _ _ H3).
  - intros _ t r' [-> Hk]. by apply (keeps_refresh h prev).
Qed.

Definition op_ok (o : control_op) : Prop := match o with OAssign h _ => host_ok h | _ => True end.

Lemma keeps_control o : op_ok o → keeps Control anything (control sha16 o).
Proof.
  destruct o as [h a|h a|]; intros Ho; simpl.
  - unfold applyAssignment. destruct (match a with Some u => _ | None => _ end);
      [by apply keeps_apply_pi|apply keeps_apply_acp].
  - unfold hotReloadAgentConfig. walk.
  - unfold coldRestart. walk.
Qed.

Lemma keeps_controls l : Forall op_ok l → keeps Control anything (controls sha16 l).
Proof. induction 1; simpl; [eauto|]. apply kept_bind; [by apply keeps_control|done]. Qed.

(** *** The drain side *)

(** What a build returns: a runtime over a session of its launch shape. *)
Definition built_ok (x : res string runtime) (t : ghost) (r : runner K) : Prop :=
  t = (Drain, None) ∧ ∀ rt, x = Ok rt → single = true → rt_ok r rt.

Lemma safe_built x r :
  (∀ rt, x = Ok rt → single = true → rt_ok r rt) → safe stable moves built_ok (mret x) (Drain, None) r.
Proof. intros Hx r1 [Hk _]. split; [done|]. intros rt Hrt E. by apply (rt_ok_kinds r), Hx. Qed.

Lemma snapshot_pi_rt r c id :
  paired r → (snapshot_pi r).2 = (Some c, Some id) → rt_ok (snapshot_pi r).1 (RtPi id c).
Proof.
  intros Hp He. destruct (snapshot_pi_cases r) as [(-> & Hr & _)|(c' & Hc & Hn & _)].
  - unfold paired in Hp. rewrite He in Hr. injection Hr as Hc Hi. rewrite <- Hc, <- Hi in Hp.
    destruct Hp as (c' & Hl & Hs). by exists c', false.
  - unfold paired in Hp. by rewrite Hc, Hn in Hp.
Qed.

Lemma swap_thread_rt r c command :
  let x := swap_thread (threadFingerprint sha16 c command) r in rt_ok x.1 (RtResident x.2.1 c).
Proof.
  simpl. destruct (swap_thread_cases (threadFingerprint sha16 c command) r) as [(id & _ & Hfp & ->)| ->]; simpl.
  - unfold thread_fp in Hfp. destruct (rn_sessions r !! id) as [[k b]|] eqn:El; [|done].
    destruct k as [|f]; [done|]. simpl in Hfp. injection Hfp as ->. by exists command, b.
  - exists command, false. apply lookup_fresh.
Qed.

Lemma NewACP_plain h cfg rt : NewACP h cfg = Ok rt → ∃ c, rt = RtACP c.
Proof.
  unfold NewACP. destruct cfg as [c|]; [|done]. repeat case_match; try done. intros [= <-]. by exists c.
Qed.

Lemma safe_buildThreadRuntime h c command r :
  safe stable moves built_ok (buildThreadRuntime sha16 h c command) (Drain, None) r.
Proof.
  unfold buildThreadRuntime. destruct (h_resident h); simpl negb; cbv iota.
  2: { apply safe_built. by intros rt [= <-]. }
  set (c' := with_idle (h_idle h) c). set (fp := threadFingerprint sha16 c' command).
  apply safe_step. intros r1 _. exists (Drain, (swap_thread fp r1).2.2). split; [apply mv_swap_thread|].
  intros r2 [Hk2 _]. pose proof (swap_thread_rt r1 c' command) as Hrt. simpl in Hrt. fold fp in Hrt.
  apply (safe_seq Inv stable moves (λ _ t r', t = (Drain, None) ∧ rt_ok r' (RtResident (swap_thread fp r1).2.1 c'))).
  - apply safe_stop_session; [..|by apply (rt_ok_kinds _ _ _ Hk2)].
    + intros o r3 r4 [Hk _]. by apply rt_ok_kinds.
    + intros r3 r4 _. apply rt_ok_kinds.
  - intros _ t r3 [-> Hok]. apply safe_built. intros rt [= <-] _. done.
Qed.

Lemma safe_buildRuntimeForAgent h mcp r :
  safe stable moves built_ok (buildRuntimeForAgent sha16 h mcp) (Drain, None) r.
Proof.
  apply safe_step. intros r1 [_ H1]. exists (Drain, None). split; [apply mv_lazy|]. intros r2 [Hk2 _].
  destruct (snapshot_pi r1).2 as [p s] eqn:Ex. destruct p as [c|]; cbn [fst snd].
  { apply safe_built. intros rt Hrt E. destruct s as [id|]; [|done]. injection Hrt as <-.
    apply (rt_ok_kinds _ _ _ Hk2), snapshot_pi_rt; [|done]. by destruct (H1 E). }
  assert (∀ cfg r', safe stable moves built_ok (mret (NewACP h cfg)) (Drain, None) r') as Hacp.
  { intros cfg r'. apply safe_built. intros rt Hrt _. by apply NewACP_plain in Hrt as [c ->]. }
  apply safe_reads. intros r3 r4 _ _. destruct (rn_acp r3) as [cfg|]; [|apply Hacp].
  destruct (Lookup (ac_provider cfg)) as [p|].
  - destruct (pv_thread p); [apply safe_buildThreadRuntime|apply Hacp].
  - destruct (_ && _); [apply safe_buildThreadRuntime|apply Hacp].
Qed.

(** Recording a runtime that is consistent. *)
Lemma keeps_record rt (f : runner K → runner K) :
  (∀ r, core (f r) = core r ∧ ∀ x, x ∈ history (f r) → x ∈ history r ∨ x = rt) →
  keeps Drain (λ r, single = true → rt_ok r rt) (writes f).
Proof.
  intros Hf. apply keeps_critical.
  { intros o r r' [Hk _] HI E. by apply (rt_ok_kinds r), HI. }
  intros r HI. destruct (Hf r) as [Hc Hh]. split.
  - apply mv_quiet; [done|]. intros x Hx. destruct (Hh x Hx) as [?| ->]; auto.
  - intros E. apply (rt_ok_kinds r); [|by apply HI]. apply kinds_sessions. by injection Hc.
Qed.

Lemma keeps_drain_turn h mcp : keeps Drain anything (drain_turn sha16 h mcp).
Proof.
  intros r _. apply (safe_seq Inv stable moves built_ok); [apply safe_buildRuntimeForAgent|].
  intros x t r1 [-> Hx]. destruct x as [rt|e]; [|by apply kept_ret].
  apply (safe_weaken _ _ (λ _ t r', t = (Drain, None) ∧ (single = true → rt_ok r' rt)));
    [by intros ? ? ? [-> _]|].
  apply keeps_at; [|by apply Hx].
  repeat (apply kept_bind; [|intros _]); apply keeps_record; intros r'; (split; [done|]);
    unfold history; simpl; intros x; rewrite ?elem_of_app, ?list_elem_of_singleton; tauto.
Qed.

Lemma keeps_turns l : keeps Drain anything (turns sha16 l).
Proof.
  induction l as [|[h mcp] l IH]; cbn [turns]; [eauto|]. apply kept_bind; [by apply keeps_drain_turn|done].
Qed.

(** ** A pool of goroutines *)

Definition gor_ok (g : goroutine) : Prop := match g with GControl l => Forall op_ok l | GDrain _ => True end.
Definition start (g : goroutine) : ghost := (match g with GControl _ => Control | GDrain _ => Drain end, None).

Lemma program_safe g r :
  gor_ok g → safe stable moves (λ _ t r', t.2 = None) (program sha16 g) (start g) r.
Proof.
  intros Hg. destruct g as [l|l]; simpl program; unfold start.
  - apply (safe_weaken _ _ (λ _ t r', t = (Control, None) ∧ anything r')); [by intros ? ? ? [-> _]|].
    by apply keeps_at; [apply keeps_controls|].
  - apply (safe_weaken _ _ (λ _ t r', t = (Drain, None) ∧ anything r')); [by intros ? ? ? [-> _]|].
    by apply keeps_at; [apply keeps_turns|].
Qed.

(** A runner that was just created. *)
Definition fresh (r : runner K) : Prop := core r = (None, None, None, []) ∧ history r = [].

Lemma fresh_inv r gs :
  fresh r → (single = true → one_control (start <$> gs)) → Inv r (start <$> gs).
Proof.
  intros [[= H1 H2 H3 H4] Hh] Hone. split.
  - split; unfold live; rewrite ?H2, ?H3, ?H4; try done.
    + intros id (k & d & Hk). apply list_lookup_fmap_Some in Hk as (g & Hg & _). discriminate.
    + intros id [k Hk]. discriminate.
  - intros E. split_and!; [auto|unfold paired; by rewrite H1, H2|by rewrite Hh].
Qed.

Lemma pool_inv r gs picks :
  fresh r → Forall gor_ok gs → (single = true → one_control (start <$> gs)) →
  ∃ ts, Inv (run picks (r, program sha16 <$> gs)).1 ts ∧
    ((∀ m, m ∈ (run picks (r, program sha16 <$> gs)).2 → is_done m = true) → ∀ id, ¬ owned ts id).
Proof.
  intros Hr Hg H1.
  destruct (run_safe Inv stable moves (λ t _, t.2 = None) picks (r, program sha16 <$> gs) (start <$> gs))
    as (ts & HI & Hlen & Hdone).
  { split; [by apply fresh_inv|]. simpl. apply Forall2_fmap, Forall_Forall2_diag.
    eapply Forall_impl; [exact Hg|]. intros g. apply program_safe. }
  exists ts. split; [done|]. intros Hall id (k & d & Hk).
  destruct (lookup_lt_is_Some_2 (run picks (r, program sha16 <$> gs)).2 k) as [m Hm].
  { rewrite <- Hlen. by eapply lookup_lt_Some. }
  pose proof (Hdone k m _ Hm Hk) as Hn. simpl in Hn. discriminate Hn. apply Hall. by eapply list_elem_of_lookup_2.
Qed.
End spec.

(** ** Operations alone *)

Lemma exec_coordinate {K} reason (r : runner K) :
  ∃ c, exec (coordinateInFlightTurn reason) r = (set_stream c r, tt).
Proof.
  simpl. destruct (rn_cs r); [|exists (rn_stream r); by destruct r]. simpl.
  unfold cancel_in_flight. destruct CancelInFlight as [c []]; by exists c.
Qed.

Lemma exec_stop_resident {K} (r : runner K) :
  ∃ c l, exec stop_resident r = (set_sessions l (set_stream c (set_thread None r)), tt).
Proof.
  unfold stop_resident. rewrite exec_bind. destruct (exec_coordinate reloadedMidTurnReason r) as [c ->].
  exists c. destruct r as [acp pi p [t|] l s b f x y]; simpl; by eexists.
Qed.

(** ** A runner after an assignment *)

Section settled.
Context {K : Type} (sha16 : string → string) (h : Host) (a : option AgentACPConfig).
Implicit Types (r : runner K).
Abbreviation R := (prog (runner K)).

Definition for_pi : bool := match a with Some u => IsPiProvider (fm_provider u) | None => false end.

Definition settled r : Prop :=
  if for_pi then ∃ c, buildPiConfig h a = Some c ∧ rn_pi r = Some c ∧ rn_thread r = None
  else rn_pi r = None ∧ rn_acp r = buildAcpConfig h a ∧
    (threadResidentEligible h (buildAcpConfig h a) = false → rn_thread r = None).

Definition stays (_ : unit) (_ r' : runner K) : Prop := settled r'.
Definition settles (_ : unit) (_ : runner K) (_ : unit) (r' : runner K) : Prop := settled r'.

#[export] Instance settled_composes : Composes (λ r (_ : list unit), settled r) stays settles.
Proof. by split. Qed.

Definition settled_after {A} (m : R A) : Prop :=
  ∀ r, settled r → safe stays settles (λ _ _ r', settled r') m tt r.

Lemma settled_ret {A} (x : A) : settled_after (mret x).
Proof. by intros r Hr r1. Qed.

Lemma settled_bind {A B} (m : R A) (k : A → R B) :
  settled_after m → (∀ x, settled_after (k x)) → settled_after (m ≫= k).
Proof.
  intros Hm Hk r Hr. eapply (safe_seq (λ r (_ : list unit), settled r) stays settles); [by apply Hm|].
  intros x [] r1. apply Hk.
Qed.

Lemma settled_step {A B} (f : runner K → runner K * A) (k : A → R B) :
  (∀ r, settled r → settled (f r).1 ∧ settled_after (k (f r).2)) → settled_after (critical f ≫= k).
Proof.
  intros Hf r Hr. apply (safe_bind (λ r (_ : list unit), settled r) stays settles). intros r1 H1.
  destruct (Hf r1 H1) as [H2 H3]. exists tt. split; [done|]. intros r2. apply H3.
Qed.

Lemma settled_writes (f : runner K → runner K) : (∀ r, settled r → settled (f r)) → settled_after (writes f).
Proof. intros Hf r Hr r1 H1. exists tt. split; [by apply Hf|]. by intros r2. Qed.

Lemma settled_stop_session o : settled_after (stop_session o).
Proof. destruct o; [|apply settled_ret]. apply settled_writes. by intros r. Qed.

Lemma settled_buildThreadRuntime c command :
  for_pi = false → (h_resident h = true → threadResidentEligible h (buildAcpConfig h a) = true) →
  settled_after (buildThreadRuntime sha16 h c command).
Proof.
  intros Hpi He. unfold buildThreadRuntime. destruct (h_resident h); simpl negb; cbv iota; [|apply settled_ret].
  apply settled_step. intros r Hr. split.
  - destruct (swap_thread_cases (threadFingerprint sha16 (with_idle (h_idle h) c) command) r)
      as [(id & _ & _ & ->)| ->]; [done|].
    unfold settled in *. rewrite Hpi in *. destruct Hr as (H1 & H2 & _). split_and!; [done..|].
    by rewrite He.
  - apply settled_bind; [apply settled_stop_session|]. intros _. apply settled_ret.
Qed.

Lemma settled_buildRuntimeForAgent mcp : settled_after (buildRuntimeForAgent sha16 h mcp).
Proof.
  apply settled_step. intros r Hr.
  assert (settled (snapshot_pi r).1 ∧ (snapshot_pi r).2.1 = rn_pi r) as [Hs Hx].
  { destruct (snapshot_pi_cases r) as [(-> & -> & _)|(c & Hc & _ & -> & ->)]; [done|]. split; [|done].
    exact Hr. }
  split; [done|]. rewrite Hx. destruct (rn_pi r) as [c|] eqn:Ep; [apply settled_ret|].
  assert (for_pi = false) as Hpi.
  { unfold settled in Hr. destruct for_pi; [|done]. destruct Hr as (c & _ & Hc & _). congruence. }
  apply settled_step. intros r1 Hr1. split; [done|]. simpl.
  unfold settled in Hr1. rewrite Hpi in Hr1. destruct Hr1 as (_ & Hacp & _). rewrite Hacp.
  destruct (buildAcpConfig h a) as [cfg|] eqn:Ec; [|apply settled_ret].
  destruct (Lookup (ac_provider cfg)) as [p|] eqn:El.
  - destruct (pv_thread p) eqn:Et; [|apply settled_ret].
    apply settled_buildThreadRuntime; [done|]. intros Hh. rewrite Ec. simpl. by rewrite Hh, El, Et.
  - destruct (_ && _) eqn:Ex; [|apply settled_ret].
    apply settled_buildThreadRuntime; [done|]. intros Hh. rewrite Ec. simpl. by rewrite Hh, El, Ex.
Qed.

Lemma settled_drain_turn mcp : settled_after (drain_turn sha16 h mcp).
Proof.
  apply settled_bind; [apply settled_buildRuntimeForAgent|]. intros [rt|e]; [|apply settled_ret].
  repeat (apply settled_bind; [|intros _]); by apply settled_writes.
Qed.

Lemma settled_turns l : settled_after (turns sha16 (pair h <$> l)).
Proof.
  induction l as [|mcp l IH]; [apply settled_ret|]. rewrite fmap_cons. cbn [turns].
  apply settled_bind; [apply settled_drain_turn|done].
Qed.

Lemma settled_pool r ls picks :
  settled r → settled (run picks (r, (λ l, turns sha16 (pair h <$> l)) <$> ls)).1.
Proof.
  intros Hr. destruct (run_safe (λ r (_ : list unit), settled r) stays settles (λ _ r, settled r) picks
    (r, (λ l, turns sha16 (pair h <$> l)) <$> ls) ((λ _, tt) <$> ls)) as (ts & H & _); [|done].
  split; [done|]. simpl. apply Forall2_fmap, Forall_Forall2_diag, Forall_true. intros l. by apply settled_turns.
Qed.

(** The assignment can be acted on. *)
Definition usable : Prop := for_pi = true → ∃ c, buildPiConfig h a = Some c.

Lemma settled_applyAssignment r : usable → settled (exec (applyAssignment sha16 h a) r).1.
Proof.
  intros Hu. unfold applyAssignment, settled. fold for_pi. unfold usable in Hu. destruct for_pi eqn:Hpi.
  - destruct (Hu eq_refl) as [c ->]. exists c. split; [done|]. unfold apply_pi.
    rewrite exec_bind. change (exec currentPiConfig r) with (r, rn_pi r). cbn [fst snd].
    destruct (match rn_pi r with Some _ => _ | None => _ end).
    + cbn [fst snd]. rewrite exec_bind. change (exec currentThreadSession r) with (r, rn_thread r). cbn [fst snd].
      rewrite exec_bind. destruct (rn_thread r) as [t|] eqn:Et; [|done].
      destruct (exec_stop_resident r) as (x & l & ->). done.
    + rewrite exec_bind. destruct (exec_coordinate reloadedMidTurnReason r) as (x & ->).
      destruct r as [acp pi [p|] [t|] l s b f y z]; done.
  - unfold apply_acp. rewrite exec_bind. change (exec currentPiConfig r) with (r, rn_pi r). cbn [fst snd].
    assert (∃ r1, exec (match rn_pi r with Some _ => coordinateInFlightTurn reloadedMidTurnReason;; stopPiSession
      | None => mret tt end) r = (r1, tt) ∧ rn_pi r1 = None) as (r1 & Hr1 & Hn).
    { destruct (rn_pi r) eqn:Ep; [|by exists r]. rewrite exec_bind.
      destruct (exec_coordinate reloadedMidTurnReason r) as (x & ->).
      destruct r as [acp pi [id|] t l s b f y z]; simpl; by eexists. }
    rewrite exec_bind, Hr1. cbn [fst snd]. rewrite exec_bind.
    change (exec (setConfig (buildAcpConfig h a)) r1) with (set_acp (buildAcpConfig h a) r1, tt). cbn [fst snd].
    destruct (threadResidentEligible h (buildAcpConfig h a)) eqn:Ee; [done|].
    rewrite exec_bind. set (r2 := set_acp (buildAcpConfig h a) r1).
    change (exec currentThreadSession r2) with (r2, rn_thread r2). cbn [fst snd].
    destruct (rn_thread r2) as [t|] eqn:Et.
    + destruct (exec_stop_resident r2) as (x & l & ->). done.
    + done.
Qed.

Lemma settled_reapply r : settled r → exec (applyAssignment sha16 h a) r = (r, tt).
Proof.
  unfold applyAssignment, settled. fold for_pi. destruct for_pi.
  - intros (c & -> & Hp & Ht). unfold apply_pi. simpl. rewrite Hp, String.eqb_refl. simpl. rewrite Ht. simpl.
    by destruct r; simpl in *; subst.
  - intros (Hp & Ha & Ht). unfold apply_acp. simpl. rewrite Hp. simpl.
    destruct (threadResidentEligible h (buildAcpConfig h a)).
    + simpl. rewrite <- Ha. by destruct r.
    + simpl. rewrite (Ht eq_refl). simpl. rewrite <- Ha. by destruct r.
Qed.
End settled.

(** ** What holds of a runner *)

Section claims.
Context {K : Type} (sha16 : string → string).
Implicit Types (r : runner K).

Definition mark_opt (o : option nat) (l : list session) : list session :=
  match o with Some id => alter (λ s, MkSession (se_kind s) true) id l | None => l end.

Lemma exec_stop_session o r :
  (exec (stop_session o) r).1 = set_sessions (mark_opt o (rn_sessions r)) r.
Proof. destruct o; [done|]. by destruct r. Qed.

Lemma exec_stop close cause r :
  rn_sessions (exec (stop close cause) r).1 = mark_opt (rn_thread r) (mark_opt (rn_piSession r) (rn_sessions r)).
Proof.
  unfold stop. rewrite exec_bind. destruct (exec_coordinate cause r) as [c ->].
  destruct r as [acp pi [p|] [t|] l s [] f x y]; reflexivity.
Qed.

Lemma mark_opt_live o l id k :
  mark_opt o l !! id = Some (MkSession k false) → o ≠ Some id ∧ l !! id = Some (MkSession k false).
Proof.
  destruct o as [j|]; [|done]. simpl. destruct (decide (j = id)) as [<-|Hne].
  - rewrite list_lookup_alter_eq. by destruct (l !! j); intros ?; simplify_eq/=.
  - rewrite list_lookup_alter_ne by done. by split; [congruence|].
Qed.

(** C9: Whatever the control side does to a runner (assignments, config updates,
    cold restarts, from one goroutine or several) and whatever turns its drain side
    runs, in any interleaving of their critical sections: when they are done and
    the runner is torn down, every session that was ever created is stopped.  No
    pi or agent subprocess outlives its runner. *)
Theorem sessions_never_leak r gs picks close cause :
  fresh r →
  let p := run picks (r, program sha16 <$> gs) in
  Forall (λ m, is_done m = true) p.2 →
  Forall (λ s, se_stopped s = true) (rn_sessions (exec (stop close cause) p.1).1).
Proof.
  intros Hr p Hdone.
  destruct (pool_inv sha16 false "" r gs picks Hr) as (ts & [Hs _] & Hown); [|done|].
  { apply Forall_forall. intros [l|l] _; [|done]. simpl. apply Forall_forall. by intros []. }
  fold p in Hs, Hown. rewrite Forall_forall in Hdone. specialize (Hown Hdone). rewrite exec_stop.
  apply Forall_lookup. intros id [k b] Hl. destruct b; [done|]. exfalso.
  apply mark_opt_live in Hl as [Ht Hl]. apply mark_opt_live in Hl as [Hp Hl].
  destruct (no_leak _ _ Hs id) as [|[|Ho]]; [by exists k|done..|]. by apply (Hown id).
Qed.

(** With one goroutine on the control side and any number of turns on the
    drain side, in any interleaving: the pi config and the pi session are set and
    cleared together, the current session is not stopped and was launched with the
    current config's launch shape, and every runtime that was built or whose turn
    started is over a session of its own launch shape.  So the lazy creation in
    buildRuntimeForAgent is not reached. *)
Theorem pi_pair_consistent bundle r l ds picks :
  fresh r → Forall (λ o, match o with OAssign h _ => h_bundle h = bundle | _ => True end) l →
  let r' := (run picks (r, program sha16 <$> (GControl l :: (GDrain <$> ds)))).1 in
  paired sha16 bundle r' ∧ Forall (rt_ok sha16 bundle r') (rn_built r' ++ rn_started r') ∧
  snapshot_pi r' = (r', (rn_pi r', rn_piSession r')).
Proof.
  intros Hr Hl r'.
  destruct (pool_inv sha16 true bundle r (GControl l :: (GDrain <$> ds)) picks Hr) as (ts & [_ HI] & _).
  - constructor; [|by apply Forall_fmap, Forall_true].
    eapply Forall_impl; [exact Hl|]. intros [] ?; by try intros _.
  - intros _ j k o o'. rewrite !fmap_cons, <- !list_fmap_compose.
    destruct j, k; simpl; [done|..]; rewrite ?list_lookup_fmap; intros Hj Hk; exfalso;
      [destruct (ds !! k)|destruct (ds !! j)..]; done.
  - destruct (HI eq_refl) as (_ & Hp & Hh). split_and!; [done..|].
    destruct (snapshot_pi_cases r') as [(H1 & H2 & _)|(c & H1 & H2 & _)].
    + by rewrite (surjective_pairing (snapshot_pi r')), H1, H2.
    + exfalso. fold r' in Hp. unfold paired in Hp. by rewrite H1, H2 in Hp.
Qed.

(** A reconnect applies every assignment again.  An assignment that can be
    acted on, applied again after any turns were run or are running at any of
    their critical sections, changes nothing of the runner: no session is stopped
    or created, no turn is cancelled, no config changes. *)
Theorem reapply_keeps_turn h a r ls picks :
  usable h a →
  let r1 := (exec (applyAssignment sha16 h a) r).1 in
  let r2 := (run picks (r1, (λ l, program sha16 (GDrain (pair h <$> l))) <$> ls)).1 in
  exec (applyAssignment sha16 h a) r2 = (r2, tt).
Proof. intros Hu r1 r2. by apply settled_reapply, settled_pool, settled_applyAssignment. Qed.

Definition started_turn (rt : runtime) : prog (runner K) unit :=
  writes (λ r, add_built rt (set_stream (setCurrentExecutor true (rn_stream r)) r));;
  writes (λ r, add_started rt (set_stream (beginInFlight (rn_stream r)) r));;
  writes (λ r, set_stream (end_turn (rn_stream r)) r).

Lemma drain_turn_pi h mcp r c id :
  rn_pi r = Some c → rn_piSession r = Some id →
  ∃ k, turns sha16 [(h, mcp)] = Atomic (λ r, (snapshot_pi r).1) k ∧
    k r = (started_turn (RtPi id c);; mret tt).
Proof.
  intros Hp Hs. eexists. split; [reflexivity|]. cbv beta. unfold snapshot_pi. rewrite Hp, Hs. reflexivity.
Qed.

(** A restart while no turn is in flight. *)
Lemma exec_restart h a r c new id :
  for_pi a = true → buildPiConfig h a = Some new → rn_pi r = Some c → rn_piSession r = Some id →
  rn_thread r = None → fingerprint sha16 h c ≠ fingerprint sha16 h new → InFlight (rn_stream r) = false →
  (exec (applyAssignment sha16 h a) r).1 = mark_stopped id (swap_pi new (set_acp None r)).1.
Proof.
  intros Ha Hnew Hp Hs Ht Hne Hfl. apply String.eqb_neq in Hne.
  unfold for_pi in Ha. unfold applyAssignment. rewrite Ha, Hnew. unfold apply_pi.
  rewrite exec_bind. change (exec currentPiConfig r) with (r, rn_pi r). cbn [fst snd]. rewrite Hp, Hne, exec_bind.
  assert (exec (coordinateInFlightTurn reloadedMidTurnReason) r = (r, tt)) as ->.
  { simpl. destruct (rn_cs r); [|done]. simpl. unfold cancel_in_flight, CancelInFlight.
    unfold InFlight in Hfl. rewrite Hfl. by destruct r. }
  destruct r as [acp pi p t l st cs f b y]. simpl in *. by subst.
Qed.

(** CoordinateInFlightTurn sees a turn only once it is in flight.  When an
    assignment of another launch shape comes between the build of a turn's runtime
    and the start of the turn, the session is stopped, no cancel reaches the turn,
    and the turn starts over the stopped session. *)
Theorem restart_misses_starting_turn h a mcp r c new id :
  for_pi a = true → buildPiConfig h a = Some new → rn_pi r = Some c → rn_piSession r = Some id →
  rn_sessions r !! id = Some (MkSession (SPi c) false) → rn_thread r = None →
  fingerprint sha16 h c ≠ fingerprint sha16 h new → InFlight (rn_stream r) = false →
  ∃ picks, let r' := (run picks (r, program sha16 <$> [GControl [OAssign h a]; GDrain [(h, mcp)]])).1 in
    rn_started r' = rn_started r ++ [RtPi id c] ∧ InFlight (rn_stream r') = true ∧
    rn_sessions r' !! id = Some (MkSession (SPi c) true) ∧
    st_cancels (rn_stream r') = st_cancels (rn_stream r).
Proof.
  intros Ha Hnew Hp Hs Hl Ht Hne Hfl.
  set (ms := program sha16 <$> [GControl [OAssign h a]; GDrain [(h, mcp)]]).
  destruct (drain_turn_pi h mcp r c id Hp Hs) as (k & Hk & Hkr).
  set (ms1 := <[1%nat := k r]> ms).
  destruct (run_alone 0 r ms1 (applyAssignment sha16 h a) (λ _, mret tt) eq_refl) as [n Hn].
  exists (1 :: replicate n 0 ++ [1; 1])%nat.
  change (run (1%nat :: ?l) ?p) with (run l (tick 1 p)).
  rewrite (tick_at 1 r ms (λ r, (snapshot_pi r).1) k) by (by rewrite <- Hk).
  assert ((snapshot_pi r).1 = r) as -> by (unfold snapshot_pi; by rewrite Hp, Hs).
  rewrite run_app. fold ms1. rewrite Hn, (exec_restart h a r c new id) by done. unfold ms1. rewrite Hkr.
  destruct r as [acp pi p t l st cs f b y]. simpl in *. split_and!; [done..| |done].
  rewrite list_lookup_alter_eq, lookup_app_l, Hl; [done|]. by eapply lookup_lt_Some.
Qed.

(** The config update the manager pushes after an agent is reconfigured sets
    the ACP config only: the runner of a pi agent goes on building its turns over
    the old pi config and session, whatever the update carries, and nothing is
    restarted. *)
Theorem config_update_ignored_by_pi h a mcp r c id :
  rn_pi r = Some c → rn_piSession r = Some id →
  let r' := (exec (hotReloadAgentConfig h a) r).1 in
  exec (buildRuntimeForAgent sha16 h mcp) r' = (r', Ok (RtPi id c)) ∧
  core r' = core r ∧ rn_stream r' = rn_stream r.
Proof.
  intros Hp Hs r'. assert (rn_pi r' = Some c ∧ rn_piSession r' = Some id) as [Hp' Hs'] by done.
  split; [|done]. unfold buildRuntimeForAgent. rewrite exec_bind.
  assert (exec (critical snapshot_pi) r' = (r', (Some c, Some id))) as ->; [|done].
  simpl. unfold snapshot_pi. by rewrite Hp', Hs'.
Qed.
End claims.

Module RunnerDemo.
Import ConfigDemo.

Definition host : Host :=
  MkHost "/home" "m" "a" None (Some "/bin/pi") "sock" "tok" "/bin" None (λ _, true) (Ok "/w") true 300 "v1".
Definition r0 : runner unit := MkRunner None None None None [] (newCommandStream tt) true false [] [].
Definition pi_form : AgentACPConfig := resolved.
Definition pi_form2 : AgentACPConfig :=
  MkForm "" [] [] "builtin-pi" "qwen-2" ∅ "" "openrouter" "sk-1" "" "" "" "" 0 0.

Definition gs : list goroutine :=
  [GControl [OAssign host (Some pi_form); ORestart; OAssign host (Some codex); OAssign host (Some pi_form2)];
   GDrain [(host, []); (host, []); (host, [])]].
Definition round_robin : list nat := concat (replicate 60 [0; 1]%nat).

(** Three sessions are created on the way. *)
Lemma sessions_never_leak_witness :
  length (rn_sessions (run round_robin (r0, program id <$> gs)).1) = 3%nat ∧
  Forall (λ s, se_stopped s = true)
    (rn_sessions (exec (stop (λ _ c, c) "x") (run round_robin (r0, program id <$> gs)).1).1).
Proof.
  split; [vm_compute; reflexivity|]. apply (sessions_never_leak id r0 gs round_robin (λ _ c, c) "x").
  - split; reflexivity.
  - vm_compute. repeat constructor.
Defined.

Lemma pi_pair_consistent_witness :
  let r' := (run round_robin (r0, program id <$> gs)).1 in
  rn_pi r' <> None ∧ paired id "v1" r' ∧ Forall (rt_ok id "v1" r') (rn_built r' ++ rn_started r') ∧
  snapshot_pi r' = (r', (rn_pi r', rn_piSession r')).
Proof.
  split; [vm_compute; discriminate|].
  apply (pi_pair_consistent id "v1" r0
    [OAssign host (Some pi_form); ORestart; OAssign host (Some codex); OAssign host (Some pi_form2)]
    [[(host, []); (host, []); (host, [])]] round_robin).
  - split; reflexivity.
  - repeat constructor.
Defined.

(** The second application comes while a turn is in flight. *)
Lemma reapply_keeps_turn_witness :
  let r1 := (exec (applyAssignment id host (Some pi_form)) r0).1 in
  let r2 := (run [0; 0; 0]%nat (r1, (λ l, program id (GDrain (pair host <$> l))) <$> [[[]]])).1 in
  InFlight (rn_stream r2) = true ∧ exec (applyAssignment id host (Some pi_form)) r2 = (r2, tt).
Proof.
  split; [vm_compute; reflexivity|]. apply (reapply_keeps_turn id host (Some pi_form) r0 [[[]]] [0; 0; 0]%nat).
  intros _. eexists. vm_compute. reflexivity.
Defined.

Definition new_config (a : AgentACPConfig) : PiConfig := default (pi_of "") (buildPiConfig host (Some a)).
Definition r_pi : runner unit :=
  MkRunner None (Some (new_config pi_form)) (Some 0%nat) None [MkSession (SPi (new_config pi_form)) false]
    (newCommandStream tt) true false [] [].

Lemma restart_misses_starting_turn_witness :
  ∃ picks, let r' := (run picks (r_pi, program id <$> [GControl [OAssign host (Some pi_form2)]; GDrain [(host, [])]])).1 in
    rn_started r' = rn_started r_pi ++ [RtPi 0 (new_config pi_form)] ∧ InFlight (rn_stream r') = true ∧
    rn_sessions r' !! 0%nat = Some (MkSession (SPi (new_config pi_form)) true) ∧
    st_cancels (rn_stream r') = st_cancels (rn_stream r_pi).
Proof.
  apply (restart_misses_starting_turn id host (Some pi_form2) [] r_pi (new_config pi_form) (new_config pi_form2) 0);
    try reflexivity.
  vm_compute. discriminate.
Defined.

Lemma config_update_ignored_by_pi_witness :
  let r' := (exec (hotReloadAgentConfig host (Some pi_form2)) r_pi).1 in
  exec (buildRuntimeForAgent id host []) r' = (r', Ok (RtPi 0 (new_config pi_form))) ∧
  core r' = core r_pi ∧ rn_stream r' = rn_stream r_pi.
Proof. apply (config_update_ignored_by_pi id host (Some pi_form2) [] r_pi (new_config pi_form) 0); reflexivity. Defined.
End RunnerDemo.
