(* ===== verification/Iam.v ===== *)
(** Access control: the permission catalog ([backend/common/permission]), the
    roles ([store/predefined_roles.go], [store/role.go]), the bindings of a policy
    and their evaluation ([manager/utils/member.go], [common/cel.go]), and the
    engine that decides a check ([component/iam/manager.go],
    [object_permission.go]) with the interceptor that asks it ([api/v1/iam.go],
    [resource_resolver.go]).

    What the tables hold is [Env]: the answer of every query the engine makes.  A
    CEL program is a parameter: its value at a time, or a compile or evaluation
    error. *)

From stdpp Require Import base list strings numbers gmap sets.
From S2P Require Import Prelude Strings Names.
Local Open Scope Z_scope.

(** ** The catalog *)

Definition allPermissions : list string := [
  "laelia.agents.create"; "laelia.agents.get"; "laelia.agents.edit"; "laelia.agents.listSessions";
  "laelia.machines.create"; "laelia.machines.get"; "laelia.machines.edit"; "laelia.machines.delete";
  "laelia.machines.createAgent"; "laelia.provisioners.get"; "laelia.provisioners.create";
  "laelia.provisioners.delete"; "laelia.provisioners.provision"; "laelia.commands.get";
  "laelia.commands.list"; "laelia.commands.watch"; "laelia.commands.cancel";
  "laelia.conversations.create"; "laelia.conversations.list"; "laelia.conversations.read";
  "laelia.conversations.send"; "laelia.conversations.manage"; "laelia.conversations.manageMembers";
  "laelia.conversations.reviewAgentDM"; "laelia.conversations.reviewAll"; "laelia.reminders.get";
  "laelia.reminders.list"; "laelia.reminders.update"; "laelia.reminders.cancel"; "laelia.tasks.list";
  "laelia.tasks.create"; "laelia.tasks.manage"; "laelia.activities.list"; "laelia.activities.markDone";
  "laelia.pushConfig.get"; "laelia.pushConfig.update"; "laelia.pushSubscriptions.create";
  "laelia.pushSubscriptions.delete"; "laelia.pushSubscriptions.list"; "laelia.files.upload";
  "laelia.files.download"; "laelia.files.list"; "laelia.users.create"; "laelia.users.get";
  "laelia.users.list"; "laelia.users.update"; "laelia.users.delete"; "laelia.settings.get";
  "laelia.settings.update"; "laelia.roles.create"; "laelia.roles.get"; "laelia.roles.list";
  "laelia.roles.update"; "laelia.roles.delete"; "laelia.iam.getPolicy"; "laelia.iam.setPolicy";
  "laelia.groups.create"; "laelia.groups.get"; "laelia.groups.list"; "laelia.groups.update";
  "laelia.groups.delete"; "laelia.agentTeams.create"; "laelia.agentTeams.get"; "laelia.agentTeams.list";
  "laelia.agentTeams.update"; "laelia.agentTeams.delete"; "laelia.auditLogs.search";
  "laelia.auditLogs.export"; "laelia.apiProviders.create"; "laelia.apiProviders.get";
  "laelia.apiProviders.list"; "laelia.apiProviders.update"; "laelia.apiProviders.delete";
  "laelia.mcpServers.create"; "laelia.mcpServers.get"; "laelia.mcpServers.list";
  "laelia.mcpServers.update"; "laelia.mcpServers.delete"; "laelia.identityProviders.create";
  "laelia.identityProviders.get"; "laelia.identityProviders.list"; "laelia.identityProviders.update";
  "laelia.identityProviders.delete"].

Definition Exist (permission : string) : bool := existsb (String.eqb permission) allPermissions.

Definition ConversationsRead : string := "laelia.conversations.read".
Definition ConversationsManageMembers : string := "laelia.conversations.manageMembers".
Definition ConversationsReviewAgentDM : string := "laelia.conversations.reviewAgentDM".
Definition ConversationsReviewAll : string := "laelia.conversations.reviewAll".
Definition CommandsWatch : string := "laelia.commands.watch".
Definition FilesDownload : string := "laelia.files.download".

Definition resourceScopedPermissions : gset string := list_to_set
  [ConversationsRead; "laelia.conversations.send"; "laelia.conversations.manage"; ConversationsManageMembers;
   "laelia.agents.edit"; "laelia.commands.get"; CommandsWatch; "laelia.commands.cancel"; "laelia.reminders.get";
   "laelia.reminders.update"; "laelia.reminders.cancel"; FilesDownload; "laelia.files.list";
   "laelia.machines.createAgent"; "laelia.provisioners.provision"].
Definition IsResourceScoped (perm : string) : bool := bool_decide (perm ∈ resourceScopedPermissions).

(** ** Roles *)

Definition WorkspaceAdminRole : string := "workspaceAdmin".
Definition WorkspaceMemberRole : string := "workspaceMember".
Definition ConversationMemberRole : string := "conversationMember".
Definition ConversationAdminRole : string := "conversationAdmin".
Definition ConversationOwnerRole : string := "conversationOwner".
Definition MachineAgentCreatorRole : string := "machineAgentCreator".
Definition ProvisionerMachineCreatorRole : string := "provisionerMachineCreator".
Definition MachineProvisionerRole : string := "machineProvisioner".

Definition memberBaselinePermissions : gset string := list_to_set
  ["laelia.agents.get"; "laelia.machines.get"; "laelia.provisioners.get"; "laelia.conversations.create";
   "laelia.conversations.list"; "laelia.commands.list"; "laelia.reminders.list"; "laelia.activities.list";
   "laelia.activities.markDone"; "laelia.pushConfig.get"; "laelia.pushSubscriptions.create";
   "laelia.pushSubscriptions.delete"; "laelia.pushSubscriptions.list"; "laelia.files.upload"; "laelia.groups.get";
   "laelia.groups.list"; "laelia.agentTeams.create"; "laelia.agentTeams.get"; "laelia.agentTeams.list"].

Definition GetPredefinedRole (resourceID : string) : option (gset string) :=
  if String.eqb resourceID WorkspaceAdminRole then Some (list_to_set allPermissions)
  else if String.eqb resourceID WorkspaceMemberRole then Some memberBaselinePermissions
  else if String.eqb resourceID MachineProvisionerRole
  then Some {[ "laelia.provisioners.get"; "laelia.provisioners.provision" ]}
  else None.

Definition chatMemberPermissions : gset string := list_to_set
  [ConversationsRead; "laelia.conversations.send"; "laelia.commands.get"; CommandsWatch; "laelia.files.list"].
Definition chatAdminPermissions : gset string := list_to_set
  [ConversationsRead; "laelia.conversations.send"; "laelia.conversations.manage"; ConversationsManageMembers;
   "laelia.commands.get"; CommandsWatch; "laelia.files.list"].
Definition chatOwnerPermissions : gset string := chatAdminPermissions.
Definition machineAgentCreatorPermissions : gset string := {[ "laelia.machines.createAgent" ]}.
Definition provisionerMachineCreatorPermissions : gset string := {[ "laelia.provisioners.provision" ]}.

(** ** Policies and callers *)

Record Binding := MkBinding { b_role : string; b_members : list string; b_condition : option string }.
Abbreviation Policy := (list Binding).

Inductive PrincipalType := PRINCIPAL_TYPE_UNSPECIFIED | END_USER | SERVICE_ACCOUNT | SYSTEM_BOT.
Record User := MkUser { u_id : Z; u_handle : string; u_deleted : bool; u_type : PrincipalType }.
Record Agent := MkAgent {
  ag_id : Z; ag_resource : string; ag_owner : Z; ag_follow : bool; ag_manage_members : bool; ag_allow_add : bool }.

Inductive resource_kind := CONVERSATION | AGENT | MACHINE | PROVISIONER | COMMAND | REMINDER | FILE | OTHER.
Record ResourceRef := MkRef { r_kind : resource_kind; r_name : string }.

(** A CEL value: a boolean, or what partial evaluation leaves. *)
Inductive cel_value := CBool (b : bool) | CResidual.

Definition AllUsers : string := "allUsers".
Definition ConversationTypeAgentDM : Z := 3.
Definition MemberTypeUser : Z := 1.
Definition MemberTypeAgent : Z := 2.
Definition MemberRoleOwner : Z := 1.
Definition MemberRoleMember : Z := 2.
Definition MemberRoleAdmin : Z := 3.

(** The answers of the store. [e_policy] of [OTHER] is the workspace's. *)
Record Env := MkEnv {
  e_now : Z;
  e_cel : string → Z → res string cel_value;
  e_custom_role : string → res string (option (gset string));
  e_group : string → res string (option (list string));
  e_user : Z → res string (option User);
  e_policy : resource_kind → string → res string Policy;
  e_uuid : string → option string;
  e_conversation_type : string → res string (option Z);
  e_command : string → res string (string * Z);
  e_command_member : string → Z → string → res string bool;
  e_reminder : string → res string (Z * string);
  e_file : string → res string (option (option string * Z))
}.

(** ** cel.go and member.go *)

Definition EvalBindingCondition (e : Env) (expr : string) : res string bool :=
  if String.eqb expr "" then Ok true else
  match e_cel e expr (e_now e) with
  | Err x => Err x
  | Ok (CBool b) => Ok b
  | Ok CResidual => Ok true
  end.

Definition validateIAMBinding (e : Env) (b : Binding) : bool :=
  match EvalBindingCondition e (default "" (b_condition b)) with Ok ok => ok | Err _ => false end.

Definition callerPrincipalName (user : option User) (agent : option Agent) : string * bool :=
  match user, agent with
  | Some u, _ => (FormatUserHandle (u_handle u), true)
  | None, Some a => (FormatAgentUID (ag_resource a), false)
  | None, None => ("", false)
  end.

Definition MemberContainsUser (e : Env) (member : string) (user : User) : bool :=
  if String.eqb member AllUsers then true
  else if String.prefix UserNamePrefix member then
    match GetUserHandle member with Ok h => String.eqb h (u_handle user) | Err _ => false end
  else if String.prefix GroupPrefix member then
    match e_group e member with
    | Ok (Some members) => existsb (String.eqb (FormatUserHandle (u_handle user))) members
    | _ => false
    end
  else false.

Definition bindingContainsCaller (e : Env) (b : Binding) (principal : string) (isUser : bool) (user : option User) : bool :=
  if existsb (λ m, String.eqb m AllUsers || String.eqb m principal) (b_members b) then true
  else match user with
  | Some u =>
      if negb isUser then false
      else existsb (λ m, String.prefix GroupPrefix m && MemberContainsUser e m u) (b_members b)
  | None => false
  end.

Definition GetCallerIAMPolicyBindings (e : Env) (user : option User) (agent : option Agent) (p : Policy) : list Binding :=
  let '(principal, isUser) := callerPrincipalName user agent in
  if String.eqb principal "" then []
  else filter (λ b, validateIAMBinding e b = true ∧ bindingContainsCaller e b principal isUser user = true) p.

Definition GetUserIAMPolicyBindings (e : Env) (user : User) (p : Policy) : list Binding :=
  GetCallerIAMPolicyBindings e (Some user) None p.

Fixpoint Uniq (seen l : list string) : list string :=
  match l with
  | [] => []
  | x :: l => if bool_decide (x ∈ seen) then Uniq seen l else x :: Uniq (x :: seen) l
  end.

Definition GetUserRolesInIamPolicy (e : Env) (user : User) (p : Policy) : list string :=
  Uniq [] (b_role <$> GetUserIAMPolicyBindings e user p).

(** ** The roles of the engine *)

Definition GetRoleSnapshot (e : Env) (resourceID : string) : res string (option (gset string)) :=
  match GetPredefinedRole resourceID with Some r => Ok (Some r) | None => e_custom_role e resourceID end.

Definition rolePermissions (e : Env) (role : string) : gset string :=
  match GetRoleSnapshot e (Strings.TrimPrefix role RolePrefix) with Ok (Some ps) => ps | _ => ∅ end.

Definition conversationRolePermissions (e : Env) (role : string) : gset string :=
  if String.eqb role (FormatRole ConversationOwnerRole) then chatOwnerPermissions
  else if String.eqb role (FormatRole ConversationAdminRole) then chatAdminPermissions
  else if String.eqb role (FormatRole ConversationMemberRole) then chatMemberPermissions
  else rolePermissions e role.

Definition machineRolePermissions (e : Env) (role : string) : gset string :=
  if String.eqb role (FormatRole MachineAgentCreatorRole) then machineAgentCreatorPermissions else rolePermissions e role.

Definition provisionerRolePermissions (e : Env) (role : string) : gset string :=
  if String.eqb role (FormatRole ProvisionerMachineCreatorRole) then provisionerMachineCreatorPermissions
  else rolePermissions e role.

(** The loop over the caller's bindings. *)
Definition binding_grants (perms_of : string → gset string) (perm : string) (bs : list Binding) : bool :=
  existsb (λ b, bool_decide (perm ∈ perms_of (b_role b))) bs.

Definition callerMemberInfo (user : option User) (agent : option Agent) : option (Z * string) :=
  match user, agent with
  | Some u, _ => Some (MemberTypeUser, u_handle u)
  | None, Some a => Some (MemberTypeAgent, ag_resource a)
  | None, None => None
  end.

(** ** The membership of a conversation (conversation_policy.go, conversation_member.go) *)

Definition conversationMemberName (memberType : Z) (memberID : string) : string :=
  if memberType =? MemberTypeAgent then FormatAgentUID memberID else UserNamePrefix +:+ memberID.

Definition conversationRoleName (role : Z) : string :=
  if role =? MemberRoleOwner then FormatRole ConversationOwnerRole
  else if role =? MemberRoleAdmin then FormatRole ConversationAdminRole
  else FormatRole ConversationMemberRole.

Definition conversationRoleFromName (role : string) : Z :=
  if String.eqb role (FormatRole ConversationOwnerRole) then MemberRoleOwner
  else if String.eqb role (FormatRole ConversationAdminRole) then MemberRoleAdmin
  else if String.eqb role (FormatRole ConversationMemberRole) then MemberRoleMember
  else 0.

Definition policyContainsMember (p : Policy) (member : string) : bool :=
  existsb (λ b, existsb (String.eqb member) (b_members b)) p.

(** The role of the first binding that lists the member, over the chat roles. *)
Definition policy_role (p : Policy) (member : string) : Z :=
  match find (λ b, negb (conversationRoleFromName (b_role b) =? 0) && existsb (String.eqb member) (b_members b)) p with
  | Some b => conversationRoleFromName (b_role b)
  | None => 0
  end.

Definition conversation_policy (e : Env) (convID : string) : res string Policy :=
  e_policy e CONVERSATION (FormatConversationName convID).

Definition IsConversationMember (e : Env) (convID : string) (memberType : Z) (memberID : string) : res string bool :=
  match conversation_policy e convID with
  | Err x => Err x
  | Ok p => Ok (policyContainsMember p (conversationMemberName memberType memberID))
  end.

Definition GetConversationMembership (e : Env) (convID : string) (memberType : Z) (memberID : string) : res string (Z * Z) :=
  match e_conversation_type e convID with
  | Err x => Err x
  | Ok None => Err "conversation not found"
  | Ok (Some t) =>
      match conversation_policy e convID with
      | Err x => Err x
      | Ok p => Ok (policy_role p (conversationMemberName memberType memberID), t)
      end
  end.

(** ** manager.go *)

(** CheckPermission without a resource. *)
Definition CheckWorkspace (e : Env) (perm : string) (user : option User) : res string bool :=
  if bool_decide (perm ∈ default ∅ (GetPredefinedRole WorkspaceMemberRole)) then Ok true else
  match user with
  | None => Ok false
  | Some u =>
      match e_policy e OTHER "" with
      | Err x => Err x
      | Ok p => Ok (existsb (λ role, bool_decide (perm ∈ rolePermissions e role)) (GetUserRolesInIamPolicy e u p))
      end
  end.

(** [rErr == nil && ok] *)
Definition allowed (r : res string bool) : bool := match r with Ok ok => ok | Err _ => false end.

Definition reviews_all (e : Env) (user : option User) : bool :=
  match user with Some _ => allowed (CheckWorkspace e ConversationsReviewAll user) | None => false end.

Definition checkCommandPermission (e : Env) (user : option User) (agent : option Agent) (name : string) : res string bool :=
  match e_command e name with
  | Err _ => Ok false
  | Ok (id, owner) =>
      if match agent with Some a => ag_id a =? owner | None => false end then Ok true
      else if reviews_all e user then Ok true
      else match callerMemberInfo user agent with
      | None => Ok false
      | Some (t, m) => e_command_member e id t m
      end
  end.

Definition parseReminderResourceID (e : Env) (name : string) : option string :=
  if String.prefix "reminders/" name then
    let rest := Strings.TrimPrefix name "reminders/" in if String.eqb rest "" then None else e_uuid e rest
  else None.

Definition parseFileResourceID (e : Env) (name : string) : option string :=
  e_uuid e (Strings.TrimPrefix name "files/").

Definition checkReminderPermission (e : Env) (user : option User) (agent : option Agent) (name : string) : res string bool :=
  match parseReminderResourceID e name with
  | None => Ok false
  | Some id =>
      match e_reminder e id with
      | Err _ => Ok false
      | Ok (assignee, conv) =>
          if match agent with Some a => ag_id a =? assignee | None => false end then Ok true
          else if reviews_all e user then Ok true
          else match callerMemberInfo user agent with
          | None => Ok false
          | Some (t, m) =>
              match GetConversationMembership e conv t m with
              | Err x => Err x
              | Ok (role, _) => Ok (negb (role =? 0))
              end
          end
      end
  end.

Definition checkFilePermission (e : Env) (user : option User) (agent : option Agent) (name : string) : res string bool :=
  match parseFileResourceID e name with
  | None => Ok false
  | Some id =>
      match e_file e id with
      | Err x => Err x
      | Ok None => Ok false
      | Ok (Some (Some conv, _)) =>
          match callerMemberInfo user agent with
          | None => Ok false
          | Some (t, m) => IsConversationMember e conv t m
          end
      | Ok (Some (None, uploader)) => Ok (match user with Some u => u_id u =? uploader | None => false end)
      end
  end.

(** The owner-follow branches: does the agent's owner hold [perm] on the
    conversation? *)
Definition owner_grants (e : Env) (perm : string) (agent : Agent) (p : Policy) : res string bool :=
  match e_user e (ag_owner agent) with
  | Err x => Err x
  | Ok None => Ok false
  | Ok (Some owner) =>
      Ok (negb (u_deleted owner) &&
          binding_grants (conversationRolePermissions e) perm (GetUserIAMPolicyBindings e owner p))
  end.

(** The non-member override of a user. *)
Definition review_override (e : Env) (user : option User) (convID : string) : res string bool :=
  match e_conversation_type e convID with
  | Err x => Err x
  | Ok None => Ok false
  | Ok (Some t) =>
      if negb (t =? ConversationTypeAgentDM) then Ok false
      else Ok (allowed (CheckWorkspace e ConversationsReviewAgentDM user))
  end.

(** One check after another: the next is made when the last did not grant. *)
Definition or_else (r : res string bool) (next : res string bool) : res string bool :=
  match r with Err x => Err x | Ok true => Ok true | Ok false => next end.

Definition checkConversationPermission (e : Env) (perm : string) (user : option User) (agent : option Agent)
    (name : string) : res string bool :=
  match GetConversationResourceID name with
  | Err _ => Ok false
  | Ok str =>
      match e_uuid e str with
      | None => Ok false
      | Some convID =>
          match conversation_policy e convID with
          | Err x => Err x
          | Ok p =>
              or_else (Ok (binding_grants (conversationRolePermissions e) perm (GetCallerIAMPolicyBindings e user agent p)))
              (or_else
                match agent with
                | Some a => if String.eqb perm ConversationsRead && ag_follow a then owner_grants e perm a p else Ok false
                | None => Ok false
                end
              (or_else
                match agent with
                | Some a =>
                    if String.eqb perm ConversationsManageMembers && ag_manage_members a then owner_grants e perm a p
                    else Ok false
                | None => Ok false
                end
              match user with
              | Some _ => if String.eqb perm ConversationsRead then review_override e user convID else Ok false
              | None => Ok false
              end))
          end
      end
  end.

Definition check_bindings (e : Env) (perms_of : string → gset string) (perm : string) (user : option User)
    (agent : option Agent) (resource : ResourceRef) : res string bool :=
  match e_policy e (r_kind resource) (r_name resource) with
  | Err x => Err x
  | Ok p => Ok (binding_grants perms_of perm (GetCallerIAMPolicyBindings e user agent p))
  end.

Definition checkResourcePermission (e : Env) (perm : string) (user : option User) (agent : option Agent)
    (resource : ResourceRef) : res string bool :=
  match r_kind resource with
  | CONVERSATION => checkConversationPermission e perm user agent (r_name resource)
  | AGENT => check_bindings e (rolePermissions e) perm user agent resource
  | MACHINE => check_bindings e (machineRolePermissions e) perm user agent resource
  | PROVISIONER => check_bindings e (provisionerRolePermissions e) perm user agent resource
  | COMMAND => checkCommandPermission e user agent (r_name resource)
  | REMINDER => checkReminderPermission e user agent (r_name resource)
  | FILE => checkFilePermission e user agent (r_name resource)
  | OTHER => Ok false
  end.

Definition CheckPermission (e : Env) (perm : string) (user : option User) (agent : option Agent)
    (resource : option ResourceRef) : res string bool :=
  or_else (CheckWorkspace e perm user)
    match resource with None => Ok false | Some r => checkResourcePermission e perm user agent r end.

(** EffectiveWorkspacePermissions; the sort of the result is the set. *)
Definition EffectiveWorkspacePermissions (e : Env) (user : option User) : res string (gset string) :=
  let base := default ∅ (GetPredefinedRole WorkspaceMemberRole) in
  match user with
  | None => Ok base
  | Some u =>
      match e_policy e OTHER "" with
      | Err x => Err x
      | Ok p => Ok (base ∪ ⋃ (rolePermissions e <$> GetUserRolesInIamPolicy e u p))
      end
  end.

(** ** The interceptor *)

(** An annotated field of a request: the type of the reference, and the names it
    holds (one, or one per inline message). *)
Record Field := MkField { f_type : string; f_inline : bool; f_names : list string }.

Definition parentResourceName (name prefix : string) : string :=
  prefix +:+ match split (Strings.TrimPrefix name prefix) with t :: _ => t | [] => "" end.

Fixpoint contains (sub s : string) : bool :=
  String.prefix sub s || match s with EmptyString => false | String _ s' => contains sub s' end.

Definition classifyResource (name : string) : option ResourceRef :=
  if String.prefix ConversationNamePrefix name
  then Some (MkRef CONVERSATION (parentResourceName name ConversationNamePrefix))
  else if String.prefix AgentNamePrefix name then
    if contains "/commands/" name then Some (MkRef COMMAND name)
    else Some (MkRef AGENT (parentResourceName name AgentNamePrefix))
  else if String.prefix "reminders/" name then Some (MkRef REMINDER name)
  else if String.prefix "files/" name then Some (MkRef FILE name)
  else if String.prefix ProvisionerNamePrefix name then Some (MkRef PROVISIONER name)
  else None.

Definition classifyFileID (id : string) : option ResourceRef :=
  if String.eqb id "" then None else Some (MkRef FILE ("files/" +:+ id)).

Definition collectResourceRefs (fields : list Field) : list ResourceRef :=
  mbind (λ f, omap (if negb (f_inline f) && String.eqb (f_type f) "laelia/File" then classifyFileID else classifyResource)
                (f_names f))
    (filter (λ f, f_type f ≠ "") fields).

#[global] Instance resource_kind_eq_dec : EqDecision resource_kind.
Proof. solve_decision. Defined.
#[global] Instance ResourceRef_eq_dec : EqDecision ResourceRef.
Proof. solve_decision. Defined.

Fixpoint dedupeRefs (seen refs : list ResourceRef) : list ResourceRef :=
  match refs with
  | [] => []
  | r :: refs => if bool_decide (r ∈ seen) then dedupeRefs seen refs else r :: dedupeRefs (r :: seen) refs
  end.

Definition resolveResources (msg : list Field) : list ResourceRef := dedupeRefs [] (collectResourceRefs msg).

(** The annotation of an RPC. *)
Record AuthContext := MkAuth { au_open : bool; au_iam : bool; au_permission : string }.

Inductive autherr := AUnauthenticated | AInternal (x : string) | APermissionDenied (resources : list string).

(** The verdicts over the references, in order; an error ends the loop. *)
Fixpoint check_refs (e : Env) (perm : string) (user : option User) (agent : option Agent)
    (refs : list (option ResourceRef)) (denied : list string) : res autherr unit :=
  match refs with
  | [] => match denied with [] => Ok tt | _ => Err (APermissionDenied denied) end
  | r :: refs =>
      match CheckPermission e perm user agent r with
      | Err x => Err (AInternal x)
      | Ok true => check_refs e perm user agent refs denied
      | Ok false =>
          check_refs e perm user agent refs
            (denied ++ [match r with Some r => r_name r | None => "workspaces/-" end])
      end
  end.

Definition authorize (e : Env) (auth : option AuthContext) (user : option User) (agent : option Agent)
    (msg : list Field) : res autherr unit :=
  match auth with
  | None => Ok tt
  | Some auth =>
      if au_open auth then Ok tt
      else if negb (au_iam auth) || String.eqb (au_permission auth) "" then Ok tt
      else match user, agent with
      | None, None => Err AUnauthenticated
      | _, _ =>
          let refs := if IsResourceScoped (au_permission auth) then resolveResources msg else [] in
          check_refs e (au_permission auth) user agent (match refs with [] => [None] | _ => Some <$> refs end) []
      end
  end.

(** A server stream: the check in front of the handler, then Receive, which asks
    before the message is read into [msg]; the handler runs with the request. *)
Definition stream_handler (e : Env) (auth : option AuthContext) (user : option User) (agent : option Agent)
    (request : list Field) : res autherr (list Field) :=
  let skip := match auth with Some a => au_iam a && negb (String.eqb (au_permission a) "") && IsResourceScoped (au_permission a)
              | None => false end in
  match (if skip then Ok tt else authorize e auth user agent []) with
  | Err x => Err x
  | Ok _ =>
      let msg : list Field := [] in
      match authorize e auth user agent msg with Err x => Err x | Ok _ => Ok request end
  end.
