(* ===== verification/Policies.v ===== *)
(** The writes of a policy: the patch of one member's roles ([store/policy.go]
    [applyIamPolicyPatch]) and the addition of a member with a condition
    ([store/conversation_policy.go]).  [places] says where a member stands; the
    lemmas say what a write does to it, for policies of any shape. *)

From stdpp Require Import base list strings numbers gmap sets.
From S2P Require Import Prelude Strings Names Iam.
Local Open Scope Z_scope.

(** ** The writes *)

(** [slices.Index] and [slices.Delete]: the first occurrence goes. *)
Fixpoint remove_first (member : string) (l : list string) : list string :=
  match l with
  | [] => []
  | m :: l => if String.eqb m member then l else m :: remove_first member l
  end.

(** Bindings that lost their last member are dropped. *)
Definition reap (p : Policy) : Policy := filter (λ b, b_members b ≠ []) p.

Definition with_members (b : Binding) (ms : list string) : Binding := MkBinding (b_role b) ms (b_condition b).

(** The loop over the bindings; [roleMap] is what is left of the roles to set. *)
Fixpoint patch_bindings (member : string) (roleMap : list string) (p : Policy) : Policy * list string :=
  match p with
  | [] => ([], roleMap)
  | b :: p =>
      let ms :=
        if bool_decide (b_role b ∈ roleMap)
        then if bool_decide (member ∈ b_members b) then b_members b else b_members b ++ [member]
        else remove_first member (b_members b) in
      let '(p', rest) := patch_bindings member (filter (λ r, r ≠ b_role b) roleMap) p in
      (with_members b ms :: p', rest)
  end.

(** The roles without a binding get one; the order in which Go ranges over them is
    the order of [roles]. *)
Definition applyIamPolicyPatch (member : string) (roles : list string) (p : Policy) : Policy :=
  let '(p', rest) := patch_bindings member (remove_dups roles) p in
  reap (p' ++ ((λ r, MkBinding r [member] None) <$> rest)).

Definition sameBindingCondition (a b : option string) : bool :=
  match a, b with
  | None, None => true
  | Some a, Some b => String.eqb a b
  | _, _ => false
  end.

(** The first binding of the role and the condition takes the member. *)
Fixpoint append_to (member role : string) (condition : option string) (p : Policy) : Policy :=
  match p with
  | [] => [MkBinding role [member] condition]
  | b :: p =>
      if String.eqb (b_role b) role && sameBindingCondition (b_condition b) condition
      then with_members b (b_members b ++ [member]) :: p
      else b :: append_to member role condition p
  end.

(** [slices.DeleteFunc]: every occurrence goes. *)
Definition drop_from (member role : string) (b : Binding) : Binding :=
  if String.eqb (b_role b) role then with_members b (filter (λ m, m ≠ member) (b_members b)) else b.

Definition addMemberWithCondition (member role : string) (condition : option string) (p : Policy) : Policy :=
  reap (append_to member role condition (drop_from member role <$> p)).

(** ** Where a member stands *)

Definition place : Type := string * option string.

(** The bindings that list the member, as role and condition, in order. *)
Definition places (member : string) (p : Policy) : list place :=
  (λ b, (b_role b, b_condition b)) <$> filter (λ b, member ∈ b_members b) p.

(** No binding lists a member twice. *)
Definition distinct (p : Policy) : Prop := Forall (λ b, NoDup (b_members b)) p.

Lemma places_app member p q : places member (p ++ q) = places member p ++ places member q.
Proof. unfold places. by rewrite filter_app, fmap_app. Qed.

Lemma places_cons member b p :
  places member (b :: p) = (if bool_decide (member ∈ b_members b) then [(b_role b, b_condition b)] else []) ++ places member p.
Proof. unfold places. rewrite filter_cons. by case_decide; case_bool_decide. Qed.

Lemma places_elem member p r c :
  (r, c) ∈ places member p ↔ ∃ b, b ∈ p ∧ member ∈ b_members b ∧ b_role b = r ∧ b_condition b = c.
Proof.
  unfold places. rewrite list_elem_of_fmap. split.
  - intros (b & [= -> ->] & [Hm Hb]%list_elem_of_filter). eauto.
  - intros (b & Hb & Hm & <- & <-). exists b. split; [done|]. by apply list_elem_of_filter.
Qed.

Lemma places_reap member p : places member (reap p) = places member p.
Proof.
  unfold reap. induction p as [|b p IH]; [done|]. rewrite filter_cons. case_decide as Hd.
  - by rewrite !places_cons, IH.
  - rewrite places_cons, IH, Hd.
    by rewrite bool_decide_eq_false_2 by apply not_elem_of_nil.
Qed.

Lemma remove_first_other m member l : m ≠ member → m ∈ remove_first member l ↔ m ∈ l.
Proof.
  intros Hne. induction l as [|x l IH]; simpl; [done|]. destruct (String.eqb_spec x member) as [->|Hx].
  - rewrite elem_of_cons. naive_solver.
  - by rewrite !elem_of_cons, IH.
Qed.

Lemma remove_first_gone member l : NoDup l → member ∉ remove_first member l.
Proof.
  induction 1 as [|x l Hx Hl IH]; simpl; [apply not_elem_of_nil|].
  destruct (String.eqb_spec x member) as [->|Hne]; [done|]. apply not_elem_of_cons. done.
Qed.

Lemma remove_first_sub member l : remove_first member l `sublist_of` l.
Proof.
  induction l as [|x l IH]; simpl; [done|]. destruct (String.eqb x member); [by apply sublist_cons|by apply sublist_skip].
Qed.

(** ** What a patch does *)

(** The first binding of each role to set, and a new one for a role without any. *)
Fixpoint firsts (roleMap : list string) (p : Policy) : list place :=
  match p with
  | [] => (λ r, (r, None)) <$> roleMap
  | b :: p =>
      if bool_decide (b_role b ∈ roleMap)
      then (b_role b, b_condition b) :: firsts (filter (λ r, r ≠ b_role b) roleMap) p
      else firsts roleMap p
  end.

Lemma filter_absent (x : string) (l : list string) : x ∉ l → filter (λ r, r ≠ x) l = l.
Proof.
  intros Hx. induction l as [|y l IH]; [done|]. apply not_elem_of_cons in Hx as [Hy Hx].
  rewrite filter_cons_True by done. by rewrite IH.
Qed.

Lemma places_new m member rest :
  places m ((λ r, MkBinding r [member] None) <$> rest) = if bool_decide (m = member) then (λ r, (r, None)) <$> rest else [].
Proof.
  induction rest as [|r rest IH]; [by case_bool_decide|]. rewrite fmap_cons, places_cons, IH. simpl.
  destruct (decide (m = member)) as [->|Hne].
  - rewrite !bool_decide_eq_true_2 by set_solver. done.
  - rewrite !bool_decide_eq_false_2 by set_solver. done.
Qed.

Lemma patch_bindings_places member roleMap p : distinct p →
  let '(p', rest) := patch_bindings member roleMap p in
  places member p' ++ ((λ r, (r, None)) <$> rest) = firsts roleMap p.
Proof.
  intros Hd. revert roleMap. induction Hd as [|b p Hb Hd IH]; intros roleMap; simpl; [done|].
  specialize (IH (filter (λ r, r ≠ b_role b) roleMap)).
  destruct (patch_bindings member (filter _ _) p) as [p' rest]. simpl in IH.
  rewrite places_cons, <- app_assoc. simpl. etransitivity; [apply (f_equal (app _)), IH|].
  destruct (decide (b_role b ∈ roleMap)) as [Hr|Hr].
  - rewrite !(bool_decide_eq_true_2 (b_role b ∈ roleMap)) by done.
    rewrite bool_decide_eq_true_2; [done|]. case_bool_decide; set_solver.
  - rewrite !(bool_decide_eq_false_2 (b_role b ∈ roleMap)) by done.
    rewrite bool_decide_eq_false_2 by (by apply remove_first_gone). by rewrite filter_absent.
Qed.

Lemma patch_bindings_other m member roleMap p : m ≠ member →
  places m (patch_bindings member roleMap p).1 = places m p.
Proof.
  intros Hne. revert roleMap. induction p as [|b p IH]; intros roleMap; simpl; [done|].
  specialize (IH (filter (λ r, r ≠ b_role b) roleMap)).
  destruct (patch_bindings member _ p) as [p' rest]. simpl in *. rewrite !places_cons, IH. simpl. f_equal.
  assert (Heq : m ∈ (if bool_decide (b_role b ∈ roleMap)
                     then if bool_decide (member ∈ b_members b) then b_members b else b_members b ++ [member]
                     else remove_first member (b_members b)) ↔ m ∈ b_members b).
  { repeat case_bool_decide; [done| |by apply remove_first_other]. rewrite elem_of_app, list_elem_of_singleton. tauto. }
  by rewrite (bool_decide_ext _ _ Heq).
Qed.

(** The member ends in the first binding of each role, and nowhere else. *)
Lemma patch_places member roles p : distinct p →
  places member (applyIamPolicyPatch member roles p) = firsts (remove_dups roles) p.
Proof.
  intros Hd. unfold applyIamPolicyPatch. pose proof (patch_bindings_places member (remove_dups roles) p Hd) as Hp.
  destruct (patch_bindings member _ p) as [p' rest]. rewrite places_reap, places_app, places_new.
  by rewrite bool_decide_eq_true_2.
Qed.

(** Nobody else is touched. *)
Lemma patch_other m member roles p : m ≠ member → places m (applyIamPolicyPatch member roles p) = places m p.
Proof.
  intros Hne. unfold applyIamPolicyPatch. pose proof (patch_bindings_other m member (remove_dups roles) p Hne) as Hp.
  destruct (patch_bindings member _ p) as [p' rest]. rewrite places_reap, places_app, places_new.
  rewrite bool_decide_eq_false_2 by done. rewrite app_nil_r. done.
Qed.

Lemma distinct_reap p : distinct p → distinct (reap p).
Proof. unfold distinct, reap. rewrite !Forall_forall. intros H b [_ Hb]%list_elem_of_filter. auto. Qed.

Lemma distinct_patch member roles p : distinct p → distinct (applyIamPolicyPatch member roles p).
Proof.
  intros Hd. unfold applyIamPolicyPatch.
  assert (H : ∀ roleMap, distinct (patch_bindings member roleMap p).1).
  { induction Hd as [|b p Hb Hd IH]; intros roleMap; simpl; [constructor|].
    specialize (IH (filter (λ r, r ≠ b_role b) roleMap)). destruct (patch_bindings member _ p) as [p' rest].
    constructor; [|done]. simpl. repeat case_bool_decide; [done| |by eapply sublist_NoDup; [|apply remove_first_sub]].
    apply NoDup_app. split; [done|]. split; [|apply NoDup_singleton]. by intros m Hm ->%list_elem_of_singleton. }
  specialize (H (remove_dups roles)). destruct (patch_bindings member _ p) as [p' rest].
  apply distinct_reap, Forall_app. split; [done|]. apply Forall_fmap, Forall_true. intros r. simpl. apply NoDup_singleton.
Qed.

(** ** What an addition does *)

Lemma sameBindingCondition_eq a b : sameBindingCondition a b = true ↔ a = b.
Proof. destruct a, b; simpl; rewrite ?String.eqb_eq; naive_solver. Qed.

Lemma drop_other m member role p : m ≠ member → places m (drop_from member role <$> p) = places m p.
Proof.
  intros Hne. induction p as [|b p IH]; [done|]. rewrite fmap_cons, !places_cons, IH. f_equal.
  unfold drop_from. destruct (String.eqb _ _); [|done]. simpl.
  rewrite (bool_decide_ext (m ∈ filter _ _) (m ∈ b_members b)); [done|]. rewrite list_elem_of_filter. tauto.
Qed.

Lemma drop_places member role p :
  places member (drop_from member role <$> p) = filter (λ pl, pl.1 ≠ role) (places member p).
Proof.
  induction p as [|b p IH]; [done|]. rewrite fmap_cons, !places_cons, filter_app, IH. f_equal.
  unfold drop_from. destruct (String.eqb_spec (b_role b) role) as [Hr|Hr]; simpl.
  - rewrite bool_decide_eq_false_2 by (rewrite list_elem_of_filter; tauto).
    case_bool_decide; [|done]. by rewrite filter_cons_False by (by intros H').
  - case_bool_decide; [|done]. by rewrite filter_cons_True.
Qed.

Lemma append_other m member role c p : m ≠ member → places m (append_to member role c p) = places m p.
Proof.
  intros Hne. induction p as [|b p IH]; simpl.
  - rewrite places_cons. by rewrite bool_decide_eq_false_2 by set_solver.
  - destruct (_ && _); rewrite !places_cons; [|by rewrite IH]. simpl.
    rewrite (bool_decide_ext (m ∈ _ ++ _) (m ∈ b_members b)); [done|]. set_solver.
Qed.

Lemma append_places member role c p pl :
  pl ∈ places member (append_to member role c p) ↔ pl ∈ places member p ∨ pl = (role, c).
Proof.
  induction p as [|b p IH]; simpl.
  - rewrite places_cons. simpl. rewrite bool_decide_eq_true_2 by set_solver. set_solver.
  - destruct (String.eqb (b_role b) role && sameBindingCondition (b_condition b) c) eqn:Hb.
    + apply andb_prop in Hb as [Hr%String.eqb_eq Hc%sameBindingCondition_eq]. rewrite !places_cons. simpl.
      rewrite (bool_decide_eq_true_2 (member ∈ b_members b ++ [member])) by set_solver. rewrite Hr, Hc.
      case_bool_decide; rewrite !elem_of_app, ?list_elem_of_singleton, ?elem_of_nil; tauto.
    + rewrite !places_cons, !elem_of_app, IH. tauto.
Qed.

(** The member leaves the other bindings of the role and stands in the one of the
    condition; nobody else is touched. *)
Lemma add_places member role c p pl :
  pl ∈ places member (addMemberWithCondition member role c p) ↔ pl ∈ places member p ∧ pl.1 ≠ role ∨ pl = (role, c).
Proof.
  unfold addMemberWithCondition. rewrite places_reap, append_places, drop_places, list_elem_of_filter. tauto.
Qed.

Lemma add_somewhere member role c p : places member (addMemberWithCondition member role c p) ≠ [].
Proof.
  intros Hp. assert (Hin : (role, c) ∈ places member (addMemberWithCondition member role c p)) by (apply add_places; by right).
  rewrite Hp in Hin. by apply elem_of_nil in Hin.
Qed.

Lemma add_other m member role c p : m ≠ member → places m (addMemberWithCondition member role c p) = places m p.
Proof. intros Hne. unfold addMemberWithCondition. by rewrite places_reap, append_other, drop_other. Qed.

Lemma distinct_add member role c p : distinct p → distinct (addMemberWithCondition member role c p).
Proof.
  intros Hd. apply distinct_reap.
  assert (Hdrop : distinct (drop_from member role <$> p) ∧
    Forall (λ b, b_role b = role → member ∉ b_members b) (drop_from member role <$> p)).
  { unfold distinct. rewrite !Forall_fmap. split; apply (Forall_impl _ _ _ Hd); intros b Hb; simpl; unfold drop_from.
    - destruct (String.eqb _ _); [by apply NoDup_filter|done].
    - destruct (String.eqb_spec (b_role b) role); simpl; [|done]. intros _. rewrite list_elem_of_filter. tauto. }
  destruct Hdrop as [Hd' Hno]. induction Hd' as [|b q Hb Hd' IH]; simpl.
  - repeat constructor. apply not_elem_of_nil.
  - apply Forall_cons in Hno as [Hbno Hno].
    destruct (String.eqb_spec (b_role b) role) as [Hr|Hr]; [destruct (sameBindingCondition _ _)|]; simpl;
      (constructor; [|first [exact Hd'|exact (IH Hno)]]); try done.
    apply NoDup_app. split; [done|]. split; [|apply NoDup_singleton].
    intros m Hm ->%list_elem_of_singleton. by apply Hbno in Hr.
Qed.

(** ** Reading *)

Lemma policyContainsMember_spec p member : policyContainsMember p member = true ↔ places member p ≠ [].
Proof.
  unfold policyContainsMember. induction p as [|b p IH]; simpl; [done|]. rewrite places_cons, orb_true_iff, IH.
  case_bool_decide as Hm.
  - split; [done|]. intros _. left. apply existsb_exists. exists member. split; [by apply list_elem_of_In|apply String.eqb_refl].
  - simpl. split; [|by right]. intros [Hx|]; [|done]. apply existsb_exists in Hx as (m & Hin%list_elem_of_In & ->%String.eqb_eq). done.
Qed.

(** The role a reader of the policy finds: the first chat role of the member. *)
Definition place_role (ps : list place) : Z :=
  match find (λ pl, negb (conversationRoleFromName pl.1 =? 0)) ps with
  | Some pl => conversationRoleFromName pl.1
  | None => 0
  end.

Lemma policy_role_places p member : policy_role p member = place_role (places member p).
Proof.
  unfold policy_role, place_role. induction p as [|b p IH]; simpl; [done|]. rewrite places_cons.
  assert (Hin : existsb (String.eqb member) (b_members b) = bool_decide (member ∈ b_members b)).
  { apply eq_true_iff_eq. rewrite bool_decide_eq_true, existsb_exists. setoid_rewrite <- list_elem_of_In.
    setoid_rewrite String.eqb_eq. naive_solver. }
  rewrite Hin. case_bool_decide; simpl; [|by rewrite andb_false_r].
  destruct (negb _); simpl; [done|]. exact IH.
Qed.
