(* ===== verification/IamSpec.v ===== *)
(** What the access engine ([Iam]) promises: a relation [granted] that says who may
    do what, one rule per source of access, that [CheckPermission] decides; what
    follows from it for agents and for growing policies; a relation [denotes] that
    says what a request names, and the verdict of the interceptor on all of it; and the two places where
    the code grants or denies what the bindings do not say. *)

From stdpp Require Import base list strings numbers gmap sets.
From S2P Require Import Prelude Strings Names Iam.
Local Open Scope Z_scope.

Section spec.
Context (e : Env).
Implicit Types (user : option User) (agent : option Agent) (p : Policy) (b : Binding) (perm : string).

(** ** The rules *)

(** The condition of a binding holds now, or depends on more than the time. *)
Definition active b : Prop :=
  b_condition b = None ∨ b_condition b = Some "" ∨
  ∃ expr v, b_condition b = Some expr ∧ e_cel e expr (e_now e) = Ok v ∧ v ≠ CBool false.

Definition principal user agent : option string :=
  match user, agent with
  | Some u, _ => Some (FormatUserHandle (u_handle u))
  | None, Some a => Some (FormatAgentUID (ag_resource a))
  | None, None => None
  end.

Definition in_group (u : User) (m : string) : Prop :=
  String.prefix GroupPrefix m = true ∧ ∃ members, e_group e m = Ok (Some members) ∧ FormatUserHandle (u_handle u) ∈ members.

Definition names_caller user agent b : Prop :=
  ∃ who m, principal user agent = Some who ∧ m ∈ b_members b ∧
    (m = AllUsers ∨ m = who ∨ ∃ u, user = Some u ∧ in_group u m).

(** A binding of [p] gives the caller [perm]. *)
Definition bound (perms_of : string → gset string) perm user agent p : Prop :=
  ∃ b, b ∈ p ∧ active b ∧ names_caller user agent b ∧ perm ∈ perms_of (b_role b).

Inductive granted_workspace perm user : Prop :=
| by_baseline : perm ∈ memberBaselinePermissions → granted_workspace perm user
| by_workspace_role u p : user = Some u → e_policy e OTHER "" = Ok p →
    bound (rolePermissions e) perm user None p → granted_workspace perm user.

(** The owner the agent follows: known, and not deleted. *)
Definition follows (a : Agent) (owner : User) : Prop := e_user e (ag_owner a) = Ok (Some owner) ∧ u_deleted owner = false.

(** The roles a policy of that kind of resource may bind. *)
Definition role_catalog (k : resource_kind) : option (string → gset string) :=
  match k with
  | AGENT => Some (rolePermissions e)
  | MACHINE => Some (machineRolePermissions e)
  | PROVISIONER => Some (provisionerRolePermissions e)
  | _ => None
  end.

Definition conv_bound perm user agent (id : string) : Prop :=
  ∃ p, conversation_policy e id = Ok p ∧ bound (conversationRolePermissions e) perm user agent p.

Inductive granted_conversation perm user agent (id : string) : Prop :=
| by_conversation_role : conv_bound perm user agent id → granted_conversation perm user agent id
| by_owner_read a owner : agent = Some a → perm = ConversationsRead → ag_follow a = true → follows a owner →
    conv_bound perm (Some owner) None id → granted_conversation perm user agent id
| by_owner_manage a owner : agent = Some a → perm = ConversationsManageMembers → ag_manage_members a = true →
    follows a owner → conv_bound perm (Some owner) None id → granted_conversation perm user agent id
| by_review : is_Some user → perm = ConversationsRead →
    e_conversation_type e id = Ok (Some ConversationTypeAgentDM) →
    granted_workspace ConversationsReviewAgentDM user → granted_conversation perm user agent id.

Definition overseer user : Prop := is_Some user ∧ granted_workspace ConversationsReviewAll user.

Inductive granted_object user agent : ResourceRef → Prop :=
| by_command_owner name id a : e_command e name = Ok (id, ag_id a) → agent = Some a →
    granted_object user agent (MkRef COMMAND name)
| by_command_overseer name c : e_command e name = Ok c → overseer user → granted_object user agent (MkRef COMMAND name)
| by_command_member name id owner t m : e_command e name = Ok (id, owner) → callerMemberInfo user agent = Some (t, m) →
    e_command_member e id t m = Ok true → granted_object user agent (MkRef COMMAND name)
| by_reminder_owner name id conv a : parseReminderResourceID e name = Some id → e_reminder e id = Ok (ag_id a, conv) →
    agent = Some a → granted_object user agent (MkRef REMINDER name)
| by_reminder_overseer name id r : parseReminderResourceID e name = Some id → e_reminder e id = Ok r → overseer user →
    granted_object user agent (MkRef REMINDER name)
| by_reminder_member name id owner conv t m role ty : parseReminderResourceID e name = Some id →
    e_reminder e id = Ok (owner, conv) → callerMemberInfo user agent = Some (t, m) →
    GetConversationMembership e conv t m = Ok (role, ty) → role ≠ 0 → granted_object user agent (MkRef REMINDER name)
| by_file_member name id conv by_ t m : parseFileResourceID e name = Some id → e_file e id = Ok (Some (Some conv, by_)) →
    callerMemberInfo user agent = Some (t, m) → IsConversationMember e conv t m = Ok true →
    granted_object user agent (MkRef FILE name)
| by_file_uploader name id u : parseFileResourceID e name = Some id → e_file e id = Ok (Some (None, u_id u)) →
    user = Some u → granted_object user agent (MkRef FILE name).

Inductive granted perm user agent : option ResourceRef → Prop :=
| on_workspace ref : granted_workspace perm user → granted perm user agent ref
| on_policy ref catalog p : role_catalog (r_kind ref) = Some catalog → e_policy e (r_kind ref) (r_name ref) = Ok p →
    bound catalog perm user agent p → granted perm user agent (Some ref)
| on_conversation name str id : GetConversationResourceID name = Ok str → e_uuid e str = Some id →
    granted_conversation perm user agent id → granted perm user agent (Some (MkRef CONVERSATION name))
| on_object ref : granted_object user agent ref → granted perm user agent (Some ref).

(** The queries whose errors the engine reports; the others deny.  A reminder has
    a conversation. *)
Record store_answers : Prop := {
  policy_read k name : is_ok (e_policy e k name) = true;
  user_read id : is_ok (e_user e id) = true;
  type_read id : is_ok (e_conversation_type e id) = true;
  member_read id t m : is_ok (e_command_member e id t m) = true;
  file_read id : is_ok (e_file e id) = true;
  reminder_conversation id owner conv : e_reminder e id = Ok (owner, conv) → e_conversation_type e conv ≠ Ok None
}.

(** An answer is right, and an error has a query that failed. *)
Definition verdict (r : res string bool) (P : Prop) : Prop :=
  match r with Ok v => v = true ↔ P | Err _ => ¬ store_answers end.

(** ** The bindings of a caller *)

Lemma validateIAMBinding_spec b : validateIAMBinding e b = true ↔ active b.
Proof.
  unfold validateIAMBinding, EvalBindingCondition, active. destruct b as [role ms [expr|]]; simpl; [|tauto].
  destruct (String.eqb_spec expr "") as [->|Hne]; [tauto|].
  transitivity (∃ v, e_cel e expr (e_now e) = Ok v ∧ v ≠ CBool false).
  - destruct (e_cel e expr (e_now e)) as [[[] |]|x]; split; intros H; try done; try (by eexists).
    + by destruct H as (v & [= <-] & Hv).
    + by destruct H as (v & [=] & Hv).
  - split.
    + intros (v & Hv). eauto 6.
    + intros [[=]|[[= ->]|(expr' & v & [= <-] & Hv)]]; [done|by exists v].
Qed.

Lemma group_not_user m : String.prefix GroupPrefix m = true → String.prefix UserNamePrefix m = false ∧ m ≠ AllUsers.
Proof.
  intros H. split; [|by intros ->]. destruct m as [|c m]; [done|].
  unfold GroupPrefix, UserNamePrefix in *. simpl in *. case_match; subst; done.
Qed.

Lemma MemberContainsUser_group u m : String.prefix GroupPrefix m = true → MemberContainsUser e m u = true ↔ in_group u m.
Proof.
  intros Hg. destruct (group_not_user m Hg) as [Hu Ha]. unfold MemberContainsUser, in_group.
  rewrite (proj2 (String.eqb_neq _ _) Ha), Hu, Hg.
  destruct (e_group e m) as [[ms|]|x]; [|naive_solver..]. rewrite existsb_exists.
  setoid_rewrite <- list_elem_of_In. setoid_rewrite String.eqb_eq. naive_solver.
Qed.

Lemma existsb_elem {A} (f : A → bool) (l : list A) : existsb f l = true ↔ ∃ x, x ∈ l ∧ f x = true.
Proof. rewrite existsb_exists. by setoid_rewrite list_elem_of_In. Qed.

Lemma bindingContainsCaller_spec user agent who isUser b :
  callerPrincipalName user agent = (who, isUser) → principal user agent = Some who →
  bindingContainsCaller e b who isUser user = true ↔ names_caller user agent b.
Proof.
  intros Hc Hp.
  transitivity (existsb (λ m, String.eqb m AllUsers || String.eqb m who) (b_members b) = true ∨
                ∃ u, user = Some u ∧ existsb (λ m, String.prefix GroupPrefix m && MemberContainsUser e m u) (b_members b) = true).
  - unfold bindingContainsCaller. destruct (existsb _ (b_members b)); [tauto|].
    destruct user as [u|]; simpl in Hc; [injection Hc as <- <-; simpl|]; naive_solver.
  - unfold names_caller. rewrite Hp. setoid_rewrite existsb_elem. setoid_rewrite orb_true_iff.
    setoid_rewrite andb_true_iff. setoid_rewrite String.eqb_eq.
    split.
    + intros [(m & Hm & [->| ->])|(u & -> & m & Hm & Hg & Hu)]; [by eauto 8..|].
      apply MemberContainsUser_group in Hu; eauto 10.
    + intros (who' & m & [= <-] & Hm & [->|[->|(u & -> & Hg)]]); [by eauto..|]. right. exists u. split; [done|].
      exists m. split; [done|]. pose proof Hg as [Hp' _]. split; [done|]. by apply MemberContainsUser_group.
Qed.

Lemma callerPrincipalName_spec user agent :
  match principal user agent with
  | Some who => callerPrincipalName user agent = (who, match user with Some _ => true | None => false end) ∧ who ≠ ""
  | None => callerPrincipalName user agent = ("", false)
  end.
Proof. destruct user, agent; simpl; done. Qed.

Lemma caller_bindings user agent p b :
  b ∈ GetCallerIAMPolicyBindings e user agent p ↔ b ∈ p ∧ active b ∧ names_caller user agent b.
Proof.
  unfold GetCallerIAMPolicyBindings. pose proof (callerPrincipalName_spec user agent) as Hc.
  destruct (principal user agent) as [who|] eqn:Hp.
  - destruct Hc as [Hc Hne]. rewrite Hc, (proj2 (String.eqb_neq _ _) Hne), list_elem_of_filter, validateIAMBinding_spec.
    rewrite (bindingContainsCaller_spec user agent who _ b Hc Hp). tauto.
  - rewrite Hc. simpl. split; [by intros ?%not_elem_of_nil|]. intros (_ & _ & who & m & Hw & _). congruence.
Qed.

Lemma binding_grants_spec perms_of perm user agent p :
  binding_grants perms_of perm (GetCallerIAMPolicyBindings e user agent p) = true ↔ bound perms_of perm user agent p.
Proof.
  unfold binding_grants, bound. rewrite existsb_elem. setoid_rewrite caller_bindings.
  setoid_rewrite bool_decide_eq_true. naive_solver.
Qed.

(** A user acts as a user, whatever agent comes with the call. *)
Lemma bound_user perms_of perm u agent p : bound perms_of perm (Some u) agent p ↔ bound perms_of perm (Some u) None p.
Proof. done. Qed.

Lemma Uniq_elem seen l x : x ∈ Uniq seen l ↔ x ∈ l ∧ x ∉ seen.
Proof.
  revert seen. induction l as [|y l IH]; intros seen; simpl; [set_solver|].
  case_bool_decide as Hy.
  - rewrite IH. set_solver.
  - rewrite elem_of_cons, IH, elem_of_cons. destruct (decide (x = y)) as [->|]; set_solver.
Qed.

Lemma role_grants u p perm :
  existsb (λ role, bool_decide (perm ∈ rolePermissions e role)) (GetUserRolesInIamPolicy e u p) = true ↔
  bound (rolePermissions e) perm (Some u) None p.
Proof.
  rewrite existsb_elem. unfold GetUserRolesInIamPolicy, GetUserIAMPolicyBindings, bound.
  setoid_rewrite Uniq_elem. setoid_rewrite list_elem_of_fmap. setoid_rewrite caller_bindings.
  setoid_rewrite bool_decide_eq_true. split.
  - intros (role & ((b & -> & Hb) & _) & Hr). naive_solver.
  - intros (b & Hb & Ha & Hn & Hr). exists (b_role b). split; [|done]. split; [by eauto|]. apply not_elem_of_nil.
Qed.

(** ** The checks, one after another *)

Lemma verdict_iff r P Q : (P ↔ Q) → verdict r P → verdict r Q.
Proof. unfold verdict. destruct r; tauto. Qed.

Lemma verdict_or_else r1 r2 P Q : verdict r1 P → verdict r2 Q → verdict (or_else r1 r2) (P ∨ Q).
Proof. destruct r1 as [[]|], r2 as [[]|]; simpl; intuition congruence. Qed.

Lemma verdict_ok (v : bool) (P : Prop) : (v = true ↔ P) → verdict (Ok v) P.
Proof. done. Qed.

Lemma verdict_false (P : Prop) : ¬ P → verdict (Ok false) P.
Proof. intros HP. split; [done|tauto]. Qed.

(** A query of the store in front of the verdict. *)
Lemma verdict_query {A} (q : res string A) (k : A → res string bool) (P : A → Prop) :
  (store_answers → is_ok q = true) → (∀ a, q = Ok a → verdict (k a) (P a)) →
  verdict (match q with Err x => Err x | Ok a => k a end) (∃ a, q = Ok a ∧ P a).
Proof.
  intros Hq Hk. destruct q as [a|x]; simpl.
  - apply (verdict_iff _ (P a)); [|by apply Hk]. split; [by eauto|]. by intros (a' & [= <-] & ?).
  - intros Hs. by discriminate (Hq Hs).
Qed.

(** A query whose error denies. *)
Lemma verdict_lookup {Er A} (q : res Er A) (k : A → res string bool) (P : A → Prop) :
  (∀ a, q = Ok a → verdict (k a) (P a)) →
  verdict (match q with Err _ => Ok false | Ok a => k a end) (∃ a, q = Ok a ∧ P a).
Proof.
  intros Hk. destruct q as [a|x]; simpl.
  - apply (verdict_iff _ (P a)); [|by apply Hk]. split; [by eauto|]. by intros (a' & [= <-] & ?).
  - split; [done|]. by intros (a & [=] & _).
Qed.

Lemma verdict_some {A} (o : option A) (k : A → res string bool) (P : A → Prop) :
  (∀ a, o = Some a → verdict (k a) (P a)) →
  verdict (match o with None => Ok false | Some a => k a end) (∃ a, o = Some a ∧ P a).
Proof.
  intros Hk. destruct o as [a|]; simpl.
  - apply (verdict_iff _ (P a)); [|by apply Hk]. split; [by eauto|]. by intros (a' & [= <-] & ?).
  - apply verdict_false. by intros (a & [=] & _).
Qed.

Lemma verdict_if (c : bool) (C : Prop) r P : (c = true ↔ C) → (C → verdict r P) →
  verdict (if c then r else Ok false) (C ∧ P).
Proof.
  intros Hc Hr. destruct c; [apply (verdict_iff _ P); [tauto|apply Hr; tauto]|apply verdict_false].
  intros [HC _]. by discriminate (proj2 Hc HC).
Qed.

Lemma verdict_or_if (c : bool) (C : Prop) r P : (c = true ↔ C) → verdict r P →
  verdict (if c then Ok true else r) (C ∨ P).
Proof. intros Hc Hr. destruct c, r as [[]|]; simpl in *; intuition congruence. Qed.

Lemma CheckWorkspace_verdict perm user : verdict (CheckWorkspace e perm user) (granted_workspace perm user).
Proof.
  unfold CheckWorkspace. simpl.
  eapply (verdict_iff _ (perm ∈ memberBaselinePermissions ∨ ∃ u, user = Some u ∧ ∃ p, e_policy e OTHER "" = Ok p ∧
    bound (rolePermissions e) perm (Some u) None p)).
  - split; [intros [?|(u & -> & p & ? & ?)]; [by left|by eright]|intros []; subst; eauto 8].
  - apply verdict_or_if; [apply bool_decide_eq_true|]. apply verdict_some. intros u ->.
    apply verdict_query; [intros H; apply H|]. intros p _. apply verdict_ok, role_grants.
Qed.

(** A check that fails denies: without a workspace policy there is no role. *)
Lemma allowed_spec perm user : allowed (CheckWorkspace e perm user) = true ↔ granted_workspace perm user.
Proof.
  pose proof (CheckWorkspace_verdict perm user) as Hv.
  destruct (CheckWorkspace e perm user) as [v|x] eqn:Hc; simpl in *; [done|]. split; [done|].
  unfold CheckWorkspace in Hc. simpl in Hc. case_bool_decide as Hb; [discriminate Hc|].
  intros [?|u p -> Hp _]; [contradiction|]. rewrite Hp in Hc. discriminate Hc.
Qed.

Lemma reviews_all_spec user : reviews_all e user = true ↔ overseer user.
Proof.
  unfold reviews_all, overseer. destruct user as [u|].
  - rewrite allowed_spec. split; [by eauto|tauto].
  - split; [done|]. by intros [[u [=]] _].
Qed.

Lemma owns_spec agent id :
  (match agent with Some a => ag_id a =? id | None => false end) = true ↔ ∃ a, agent = Some a ∧ ag_id a = id.
Proof. destruct agent as [a|]; [rewrite Z.eqb_eq|]; naive_solver. Qed.

Lemma verdict_self r : (store_answers → is_ok r = true) → verdict r (r = Ok true).
Proof. destruct r as [v|x]; simpl; intros Hr; [split; congruence|]. intros Hs. by discriminate (Hr Hs). Qed.

(** The common tail of the object checks: the owning agent, an overseer, then
    whoever the conversation lists. *)
Lemma object_verdict (owns : bool) user agent (k : Z * string → res string bool) (P : Z * string → Prop) (O : Prop) :
  (owns = true ↔ O) → (∀ tm, verdict (k tm) (P tm)) →
  verdict (if owns then Ok true else if reviews_all e user then Ok true else
           match callerMemberInfo user agent with None => Ok false | Some tm => k tm end)
          (O ∨ overseer user ∨ ∃ tm, callerMemberInfo user agent = Some tm ∧ P tm).
Proof.
  intros HO Hk. apply verdict_or_if; [done|]. apply verdict_or_if; [apply reviews_all_spec|].
  by apply verdict_some.
Qed.

Lemma checkCommandPermission_verdict user agent name :
  verdict (checkCommandPermission e user agent name) (granted_object user agent (MkRef COMMAND name)).
Proof.
  apply (verdict_iff _ (∃ c, e_command e name = Ok c ∧ ((∃ a, agent = Some a ∧ ag_id a = c.2) ∨ overseer user ∨
    ∃ tm, callerMemberInfo user agent = Some tm ∧ e_command_member e c.1 tm.1 tm.2 = Ok true))).
  - split.
    + intros ([id owner] & Hc & Hor). simpl in Hor. destruct Hor as [(a & -> & <-)|[Ho|([t m] & Hm & Hr)]].
      * by eapply by_command_owner.
      * by eapply by_command_overseer.
      * by eapply by_command_member.
    + inversion 1; subst; eexists; (split; [eassumption|]); simpl; eauto.
  - apply (verdict_lookup _ (λ c, let '(id, owner) := c in _)). intros [id owner] _.
    apply (object_verdict _ _ _ (λ tm, let '(t, m) := tm in _)); [apply owns_spec|].
    intros [t m]. apply verdict_self. intros H. apply H.
Qed.

Lemma membership_answers conv t m : store_answers → e_conversation_type e conv ≠ Ok None →
  is_ok (GetConversationMembership e conv t m) = true.
Proof.
  intros H Hne. unfold GetConversationMembership, conversation_policy.
  pose proof (type_read H conv) as Ht. destruct (e_conversation_type e conv) as [[ty|]|]; [|done..].
  pose proof (policy_read H CONVERSATION (FormatConversationName conv)) as Hp.
  by destruct (e_policy e CONVERSATION (FormatConversationName conv)).
Qed.

Lemma checkReminderPermission_verdict user agent name :
  verdict (checkReminderPermission e user agent name) (granted_object user agent (MkRef REMINDER name)).
Proof.
  apply (verdict_iff _ (∃ id, parseReminderResourceID e name = Some id ∧ ∃ c, e_reminder e id = Ok c ∧
    ((∃ a, agent = Some a ∧ ag_id a = c.1) ∨ overseer user ∨
     ∃ tm, callerMemberInfo user agent = Some tm ∧ ∃ r, GetConversationMembership e c.2 tm.1 tm.2 = Ok r ∧ r.1 ≠ 0))).
  - split.
    + intros (id & Hid & [owner conv] & Hc & Hor). simpl in Hor.
      destruct Hor as [(a & -> & <-)|[Ho|([t m] & Hm & [role ty] & Hr & Hn)]].
      * by eapply by_reminder_owner.
      * by eapply by_reminder_overseer.
      * by eapply by_reminder_member.
    + inversion 1; subst; eexists; (split; [eassumption|]); eexists; (split; [eassumption|]); simpl; eauto.
      right. right. eexists (_, _). eauto.
  - apply verdict_some. intros id _. apply (verdict_lookup _ (λ c, let '(owner, conv) := c in _)).
    intros [owner conv] Hc. apply (object_verdict _ _ _ (λ tm, let '(t, m) := tm in _)); [apply owns_spec|].
    intros [t m]. apply (verdict_query _ (λ r, let '(role, _) := r in Ok (negb (role =? 0)))).
    + intros H. apply membership_answers; [done|]. by eapply reminder_conversation.
    + intros [role ty] _. apply verdict_ok. simpl. by rewrite negb_true_iff, Z.eqb_neq.
Qed.

Lemma IsConversationMember_answers conv t m : store_answers → is_ok (IsConversationMember e conv t m) = true.
Proof.
  intros H. unfold IsConversationMember, conversation_policy.
  pose proof (policy_read H CONVERSATION (FormatConversationName conv)) as Hp.
  by destruct (e_policy e CONVERSATION (FormatConversationName conv)).
Qed.

Lemma checkFilePermission_verdict user agent name :
  verdict (checkFilePermission e user agent name) (granted_object user agent (MkRef FILE name)).
Proof.
  apply (verdict_iff _ (∃ id, parseFileResourceID e name = Some id ∧ ∃ f, e_file e id = Ok f ∧
    match f with
    | None => False
    | Some (Some conv, _) => ∃ tm, callerMemberInfo user agent = Some tm ∧ IsConversationMember e conv tm.1 tm.2 = Ok true
    | Some (None, uploader) => ∃ u, user = Some u ∧ u_id u = uploader
    end)).
  - split.
    + intros (id & Hid & [[[conv|] by_]|] & Hf & Hor); [|by destruct Hor as (u & -> & <-); eapply by_file_uploader|done].
      destruct Hor as ([t m] & Hm & Hr). by eapply by_file_member.
    + inversion 1; subst; eexists; (split; [eassumption|]); eexists; (split; [eassumption|]); simpl; [|by eauto].
      eexists (_, _). eauto.
  - apply verdict_some. intros id _.
    apply (verdict_query _ (λ f, match f with None => Ok false | Some (Some conv, _) => _ | Some (None, _) => _ end)).
    + intros H. apply H.
    + intros [[[conv|] uploader]|] Hf; [| |apply verdict_false; tauto].
      * apply (verdict_some _ (λ tm, let '(t, m) := tm in _)). intros [t m] _. apply verdict_self.
        intros H. by apply IsConversationMember_answers.
      * apply verdict_ok. destruct user as [u|]; simpl.
        -- rewrite Z.eqb_eq. split; [by eauto|]. by intros (u' & [= <-] & ?).
        -- split; [done|]. by intros (u' & [=] & _).
Qed.

(** ** Conversations *)

Lemma owner_grants_verdict perm a p :
  verdict (owner_grants e perm a p) (∃ owner, follows a owner ∧ bound (conversationRolePermissions e) perm (Some owner) None p).
Proof.
  apply (verdict_iff _ (∃ o, e_user e (ag_owner a) = Ok o ∧ match o with
    | Some owner => u_deleted owner = false ∧ bound (conversationRolePermissions e) perm (Some owner) None p
    | None => False end)).
  - split.
    + intros ([owner|] & Hu & H); [|done]. destruct H. by exists owner.
    + intros (owner & [Hu Hd] & Hb). by exists (Some owner).
  - apply (verdict_query _ (λ o, match o with None => Ok false | Some owner => _ end)).
    + intros H. apply H.
    + intros [owner|] _; [|apply verdict_false; tauto]. apply verdict_ok.
      unfold GetUserIAMPolicyBindings. by rewrite andb_true_iff, negb_true_iff, binding_grants_spec.
Qed.

(** An owner-follow branch: for one permission, when the agent's flag is on. *)
Lemma owner_follow_verdict (P : string) (flag : Agent → bool) perm agent p :
  verdict match agent with
          | Some a => if String.eqb perm P && flag a then owner_grants e perm a p else Ok false
          | None => Ok false
          end
    (∃ a, agent = Some a ∧ (perm = P ∧ flag a = true) ∧
          ∃ owner, follows a owner ∧ bound (conversationRolePermissions e) perm (Some owner) None p).
Proof.
  apply verdict_some. intros a _. apply verdict_if; [by rewrite andb_true_iff, String.eqb_eq|].
  intros _. apply owner_grants_verdict.
Qed.

Lemma review_override_verdict user id :
  verdict (review_override e user id)
    (e_conversation_type e id = Ok (Some ConversationTypeAgentDM) ∧ granted_workspace ConversationsReviewAgentDM user).
Proof.
  unfold review_override. destruct (e_conversation_type e id) as [[t|]|x] eqn:Ht; simpl.
  - destruct (Z.eqb_spec t ConversationTypeAgentDM) as [->|Hne]; simpl.
    + rewrite allowed_spec. tauto.
    + split; [done|]. intros [[= ->] _]. done.
  - split; [done|]. by intros [[=] _].
  - intros H. pose proof (type_read H id) as Hr. by rewrite Ht in Hr.
Qed.

Lemma granted_conversation_cases perm user agent id p : conversation_policy e id = Ok p →
  (bound (conversationRolePermissions e) perm user agent p ∨
   (∃ a, agent = Some a ∧ (perm = ConversationsRead ∧ ag_follow a = true) ∧
      ∃ owner, follows a owner ∧ bound (conversationRolePermissions e) perm (Some owner) None p) ∨
   (∃ a, agent = Some a ∧ (perm = ConversationsManageMembers ∧ ag_manage_members a = true) ∧
      ∃ owner, follows a owner ∧ bound (conversationRolePermissions e) perm (Some owner) None p) ∨
   ∃ u, user = Some u ∧ perm = ConversationsRead ∧ e_conversation_type e id = Ok (Some ConversationTypeAgentDM) ∧
      granted_workspace ConversationsReviewAgentDM user) ↔ granted_conversation perm user agent id.
Proof.
  intros Hp. assert (Hcb : ∀ u a, bound (conversationRolePermissions e) perm u a p ↔ conv_bound perm u a id).
  { intros u a. unfold conv_bound. rewrite Hp. split; [by eauto|]. by intros (p' & [= <-] & ?). }
  setoid_rewrite Hcb. split.
  - intros [Hb|[(a & -> & [-> Hf] & o & Ho & Hb)|[(a & -> & [-> Hf] & o & Ho & Hb)|(u & -> & -> & Ht & Hr)]]].
    + by apply by_conversation_role.
    + by eapply by_owner_read.
    + by eapply by_owner_manage.
    + by apply by_review.
  - intros [Hb|a o -> -> Hf Ho Hb|a o -> -> Hf Ho Hb|[u ->] -> Ht Hr]; eauto 12.
Qed.

Lemma checkConversationPermission_verdict perm user agent name :
  verdict (checkConversationPermission e perm user agent name)
    (∃ str, GetConversationResourceID name = Ok str ∧ ∃ id, e_uuid e str = Some id ∧ granted_conversation perm user agent id).
Proof.
  unfold checkConversationPermission.
  apply (verdict_lookup _ _ (λ str, ∃ id, e_uuid e str = Some id ∧ granted_conversation perm user agent id)).
  intros str _. apply verdict_some. intros id _.
  destruct (conversation_policy e id) as [p|x] eqn:Hp.
  - eapply verdict_iff; [by apply granted_conversation_cases|].
    apply verdict_or_else; [apply verdict_ok, binding_grants_spec|].
    apply verdict_or_else; [apply owner_follow_verdict|].
    apply verdict_or_else; [apply owner_follow_verdict|].
    destruct user as [u|]; [|apply verdict_false; by intros (? & [=] & _)].
    eapply verdict_iff; [|apply verdict_if; [apply String.eqb_eq|intros _; apply review_override_verdict]].
    split; [by eauto 6|]. by intros (u' & [= <-] & ?).
  - intros H. pose proof (policy_read H CONVERSATION (FormatConversationName id)) as Hr.
    unfold conversation_policy in Hp. by rewrite Hp in Hr.
Qed.

(** ** The engine *)

Lemma check_bindings_verdict catalog perm user agent ref :
  verdict (check_bindings e catalog perm user agent ref)
    (∃ p, e_policy e (r_kind ref) (r_name ref) = Ok p ∧ bound catalog perm user agent p).
Proof.
  apply verdict_query; [intros H; apply H|]. intros p _. apply verdict_ok, binding_grants_spec.
Qed.

Lemma checkResourcePermission_verdict perm user agent ref :
  ∃ P, verdict (checkResourcePermission e perm user agent ref) P ∧
       (granted perm user agent (Some ref) ↔ granted_workspace perm user ∨ P).
Proof.
  destruct ref as [k name]. unfold checkResourcePermission. simpl.
  assert (Hpol : ∀ catalog, role_catalog k = Some catalog →
    ∃ P, verdict (check_bindings e catalog perm user agent (MkRef k name)) P ∧
         (granted perm user agent (Some (MkRef k name)) ↔ granted_workspace perm user ∨ P)).
  { intros catalog Hc. eexists. split; [apply check_bindings_verdict|]. split.
    - intros Hg. inversion Hg as [|? ? ? Hk|? ? ? Hk|? Ho]; subst; simpl in *; [auto|right; naive_solver|done|].
      by inversion Ho; subst.
    - intros [Hw|(p & Hp & Hb)]; [by apply on_workspace|]. by eapply on_policy. }
  assert (Hobj : role_catalog k = None → k ≠ CONVERSATION → (granted perm user agent (Some (MkRef k name)) ↔
    granted_workspace perm user ∨ granted_object user agent (MkRef k name))).
  { intros Hc Hk. split.
    - intros Hg. inversion Hg; subst; simpl in *; [auto|congruence|congruence|auto].
    - intros [Hw|Ho]; [by apply on_workspace|by apply on_object]. }
  destruct k; try (by apply Hpol).
  - eexists. split; [apply checkConversationPermission_verdict|]. split.
    + intros Hg. inversion Hg as [| | |? Ho]; subst; simpl in *; [auto|congruence|right; eauto 8|].
      by inversion Ho.
    + intros [Hw|(str & Hs & id & Hi & Hc)]; [by apply on_workspace|]. by eapply on_conversation.
  - eexists. split; [apply checkCommandPermission_verdict|]. by apply Hobj.
  - eexists. split; [apply checkReminderPermission_verdict|]. by apply Hobj.
  - eexists. split; [apply checkFilePermission_verdict|]. by apply Hobj.
  - exists False. split; [apply verdict_false; tauto|]. rewrite Hobj by done. split; [|tauto].
    intros [?|Ho]; [by left|by inversion Ho].
Qed.

Lemma CheckPermission_verdict perm user agent ref :
  verdict (CheckPermission e perm user agent ref) (granted perm user agent ref).
Proof.
  unfold CheckPermission. destruct ref as [ref|].
  - destruct (checkResourcePermission_verdict perm user agent ref) as (P & Hv & Hg).
    eapply verdict_iff; [symmetry; exact Hg|]. apply verdict_or_else; [apply CheckWorkspace_verdict|done].
  - eapply verdict_iff; [|apply verdict_or_else; [apply CheckWorkspace_verdict|apply (verdict_false False); tauto]].
    split; [intros [Hw|[]]; by apply on_workspace|]. intros Hg. inversion Hg; subst; auto.
Qed.

(** C4: what [CheckPermission] answers is what the rules of access say, for every
    permission, caller and resource; and when the queries it makes succeed it
    answers. *)
Theorem check_permission_decides perm user agent ref :
  (∀ v, CheckPermission e perm user agent ref = Ok v → v = true ↔ granted perm user agent ref) ∧
  (store_answers → ∃ v, CheckPermission e perm user agent ref = Ok v).
Proof.
  pose proof (CheckPermission_verdict perm user agent ref) as Hv. unfold verdict in Hv.
  destruct (CheckPermission e perm user agent ref) as [v|x]; split; [by intros ? [= ->]|eauto|done|tauto].
Qed.

(** ** What follows *)

Lemma baseline_only perm agent : granted perm None agent None ↔ perm ∈ memberBaselinePermissions.
Proof.
  split.
  - intros Hg. inversion Hg as [? [Hb|u p [=] _ _]| | |]; subst. done.
  - intros Hb. by apply on_workspace, by_baseline.
Qed.

Lemma workspace_roles_union u p perm :
  perm ∈ ⋃ (rolePermissions e <$> GetUserRolesInIamPolicy e u p) ↔ bound (rolePermissions e) perm (Some u) None p.
Proof.
  rewrite <- role_grants, existsb_elem, elem_of_union_list. setoid_rewrite list_elem_of_fmap.
  setoid_rewrite bool_decide_eq_true. naive_solver.
Qed.

(** The permissions a user is shown ([EffectiveWorkspacePermissions]) are
    exactly the ones a check without a resource grants. *)
Theorem effective_permissions_agree user agent ps :
  EffectiveWorkspacePermissions e user = Ok ps →
  ∀ perm, CheckPermission e perm user agent None = Ok (bool_decide (perm ∈ ps)).
Proof.
  intros Hps perm. unfold CheckPermission, CheckWorkspace.
  unfold EffectiveWorkspacePermissions in Hps. simpl in *. destruct user as [u|].
  - destruct (e_policy e OTHER "") as [p|] eqn:Hp; [|done]. injection Hps as <-.
    case_bool_decide as Hb.
    + simpl. by rewrite bool_decide_eq_true_2 by set_solver.
    + destruct (existsb _ _) eqn:Hr.
      * apply role_grants, workspace_roles_union in Hr. simpl. by rewrite bool_decide_eq_true_2 by set_solver.
      * simpl. rewrite bool_decide_eq_false_2; [reflexivity|]. intros [?|Hu]%elem_of_union; [contradiction|].
        apply workspace_roles_union, role_grants in Hu. congruence.
  - injection Hps as <-. by case_bool_decide; simpl.
Qed.




(** ** The interceptor *)

(** What the code checks. *)
Definition asked (perm : string) (msg : list Field) : list (option ResourceRef) :=
  match (if IsResourceScoped perm then resolveResources msg else []) with [] => [None] | refs => Some <$> refs end.

(** *** What a request names *)

(** A bare file id stands in an annotated field of the request itself; every
    other text is a resource name. *)
Definition file_id_field (f : Field) : Prop := f_inline f = false ∧ f_type f = "laelia/File".

(** Nothing, or a path below. *)
Definition below_path (rest : string) : Prop := rest = "" ∨ ∃ t, rest = "/" +:+ t.
Definition has_part (sub s : string) : Prop := ∃ pre post, s = pre +:+ sub +:+ post.

(** [denotes f n ref]: the text [n] of the field [f] is a name of [ref].  The
    path below a conversation or an agent belongs to it, except that a command of
    an agent is a resource of its own. *)
Inductive denotes (f : Field) : string → ResourceRef → Prop :=
| names_file_id n : file_id_field f → n ≠ "" → denotes f n (MkRef FILE ("files/" +:+ n))
| names_conversation id rest : ¬ file_id_field f → no_slash id = true → below_path rest →
    denotes f ("conversations/" +:+ id +:+ rest) (MkRef CONVERSATION ("conversations/" +:+ id))
| names_command t : ¬ file_id_field f → has_part "/commands/" ("agents/" +:+ t) →
    denotes f ("agents/" +:+ t) (MkRef COMMAND ("agents/" +:+ t))
| names_agent id rest : ¬ file_id_field f → no_slash id = true → below_path rest →
    ¬ has_part "/commands/" ("agents/" +:+ id +:+ rest) →
    denotes f ("agents/" +:+ id +:+ rest) (MkRef AGENT ("agents/" +:+ id))
| names_reminder t : ¬ file_id_field f → denotes f ("reminders/" +:+ t) (MkRef REMINDER ("reminders/" +:+ t))
| names_file t : ¬ file_id_field f → denotes f ("files/" +:+ t) (MkRef FILE ("files/" +:+ t))
| names_provisioner t : ¬ file_id_field f →
    denotes f ("provisioners/" +:+ t) (MkRef PROVISIONER ("provisioners/" +:+ t)).

Definition names_resource (msg : list Field) (ref : ResourceRef) : Prop :=
  ∃ f n, f ∈ msg ∧ f_type f ≠ "" ∧ n ∈ f_names f ∧ denotes f n ref.

(** [requires perm msg r]: a request with the permission [perm] is judged on [r],
    a resource it names or the workspace. *)
Definition requires (perm : string) (msg : list Field) (r : option ResourceRef) : Prop :=
  match r with
  | Some ref => perm ∈ resourceScopedPermissions ∧ names_resource msg ref
  | None => perm ∉ resourceScopedPermissions ∨ ∀ ref, ¬ names_resource msg ref
  end.

Lemma prefix_split pre s : String.prefix pre s = true ↔ ∃ t, s = pre +:+ t.
Proof.
  split; [|intros [t ->]; apply Strings.prefix_app].
  revert s. induction pre as [|c pre IH]; intros s; [by exists s|]. destruct s as [|c' s]; [done|].
  simpl. destruct (Ascii.ascii_dec c c') as [<-|]; [|done]. intros [t ->]%IH. by exists t.
Qed.

Lemma contains_iff sub s : contains sub s = true ↔ has_part sub s.
Proof.
  unfold has_part. induction s as [|c s IH]; cbn [contains]; rewrite orb_true_iff, prefix_split.
  - split; [intros [[t ->]|]; [by exists "", t|done]|]. intros ([|] & post & H); [left; by exists post|done].
  - rewrite IH. split.
    + intros [[t ->]|(pre & post & ->)]; [by exists "", t|by exists (String c pre), post].
    + intros ([|c' pre] & post & H); [left; by exists post|]. injection H as <- ->. right. by exists pre, post.
Qed.

(** The parent of a name: its first segment, whatever path is below. *)
Lemma parent_name prefix id rest : no_slash id = true → below_path rest →
  parentResourceName (prefix +:+ id +:+ rest) prefix = prefix +:+ id.
Proof.
  intros Hid [->|[t ->]]; unfold parentResourceName; rewrite Strings.TrimPrefix_app.
  - by rewrite Strings.str_app_nil, split_no_slash.
  - by rewrite split_app.
Qed.

Lemma parent_split t : ∃ id rest, t = id +:+ rest ∧ no_slash id = true ∧ below_path rest.
Proof.
  pose proof (join_split t) as Hj. pose proof (split_parts t) as Hp.
  destruct (split t) as [|id parts] eqn:E; [by destruct (split_not_nil t)|].
  apply Forall_cons_1 in Hp as [Hid _]. exists id. destruct parts as [|p parts].
  - exists "". rewrite Strings.str_app_nil. split_and!; [by rewrite <- Hj|done|by left].
  - exists ("/" +:+ join (p :: parts)). split_and!; [by rewrite <- Hj|done|by right; eexists].
Qed.

Definition classify (f : Field) (n : string) : option ResourceRef :=
  if negb (f_inline f) && String.eqb (f_type f) "laelia/File" then classifyFileID n else classifyResource n.

Lemma classify_sound f n ref : classify f n = Some ref → denotes f n ref.
Proof.
  unfold classify. destruct (_ && _) eqn:Hf.
  - apply andb_true_iff in Hf as [Hi%negb_true_iff Ht%String.eqb_eq]. unfold classifyFileID.
    destruct (String.eqb_spec n "") as [|Hn]; [done|]. intros [= <-]. by apply names_file_id.
  - assert (¬ file_id_field f) as Hnf by (intros [Hi Ht]; by rewrite Hi, Ht in Hf).
    unfold classifyResource.
    destruct (String.prefix ConversationNamePrefix n) eqn:E1.
    { apply prefix_split in E1 as [t ->]. destruct (parent_split t) as (id & rest & -> & Hid & Hr).
      intros [= <-]. rewrite parent_name by done. by apply names_conversation. }
    destruct (String.prefix AgentNamePrefix n) eqn:E2.
    { apply prefix_split in E2 as [t ->]. destruct (contains _ _) eqn:Ec.
      - intros [= <-]. apply names_command; [done|]. by apply contains_iff.
      - destruct (parent_split t) as (id & rest & -> & Hid & Hr).
        intros [= <-]. rewrite parent_name by done. apply names_agent; [done..|].
        intros H%contains_iff. unfold AgentNamePrefix in Ec. congruence. }
    destruct (String.prefix "reminders/" n) eqn:E3.
    { apply prefix_split in E3 as [t ->]. intros [= <-]. by apply names_reminder. }
    destruct (String.prefix "files/" n) eqn:E4.
    { apply prefix_split in E4 as [t ->]. intros [= <-]. by apply names_file. }
    destruct (String.prefix ProvisionerNamePrefix n) eqn:E5; [|done].
    apply prefix_split in E5 as [t ->]. intros [= <-]. by apply names_provisioner.
Qed.

Lemma no_file_id f : ¬ file_id_field f → negb (f_inline f) && String.eqb (f_type f) "laelia/File" = false.
Proof.
  intros H. destruct (negb (f_inline f) && _) eqn:E; [|done].
  apply andb_true_iff in E as [Hi%negb_true_iff Ht%String.eqb_eq]. by destruct H.
Qed.

Lemma classify_complete f n ref : denotes f n ref → classify f n = Some ref.
Proof.
  unfold classify. intros Hd.
  destruct Hd as [n [-> ->] Hn|id rest Hf Hid Hr|t Hf Hc|id rest Hf Hid Hr Hc|t Hf|t Hf|t Hf];
    [|rewrite (no_file_id f Hf)..].
  - simpl. unfold classifyFileID. by rewrite (proj2 (String.eqb_neq _ _) Hn).
  - unfold classifyResource, ConversationNamePrefix. rewrite Strings.prefix_app. by rewrite parent_name.
  - apply contains_iff in Hc. unfold classifyResource, AgentNamePrefix.
    by rewrite Strings.prefix_app, Hc.
  - assert (contains "/commands/" ("agents/" +:+ id +:+ rest) = false) as Hc'.
    { apply not_true_iff_false. by rewrite contains_iff. }
    unfold classifyResource, AgentNamePrefix. rewrite Hc', Strings.prefix_app, parent_name by done. done.
  - unfold classifyResource. by rewrite Strings.prefix_app.
  - unfold classifyResource. by rewrite (Strings.prefix_app "files/").
  - unfold classifyResource, ProvisionerNamePrefix. by rewrite (Strings.prefix_app "provisioners/").
Qed.

Lemma classify_iff f n ref : classify f n = Some ref ↔ denotes f n ref.
Proof. split; [apply classify_sound|apply classify_complete]. Qed.

Lemma dedupeRefs_elem seen refs r : r ∈ dedupeRefs seen refs ↔ r ∈ refs ∧ r ∉ seen.
Proof.
  revert seen. induction refs as [|r' refs IH]; intros seen; simpl; [set_solver|].
  case_bool_decide as Hr; [rewrite IH; set_solver|].
  rewrite elem_of_cons, IH, elem_of_cons. destruct (decide (r = r')) as [->|]; set_solver.
Qed.

(** The resolver finds what the request names. *)
Lemma resolveResources_spec msg ref : ref ∈ resolveResources msg ↔ names_resource msg ref.
Proof.
  unfold resolveResources. rewrite dedupeRefs_elem. unfold collectResourceRefs, names_resource.
  rewrite list_elem_of_bind. split.
  - intros [(f & Href & [Ht Hf]%list_elem_of_filter) _]. apply list_elem_of_omap in Href as (n & Hn & Hc).
    exists f, n. split_and!; [done..|]. apply classify_sound. unfold classify. by destruct (_ && _).
  - intros (f & n & Hf & Ht & Hn & Hd). split; [|apply not_elem_of_nil]. exists f.
    split; [|by apply list_elem_of_filter]. apply list_elem_of_omap. exists n. split; [done|].
    apply classify_complete in Hd. unfold classify in Hd. by destruct (_ && _).
Qed.

Lemma asked_requires perm msg r : r ∈ asked perm msg ↔ requires perm msg r.
Proof.
  unfold asked, requires, IsResourceScoped. generalize resourceScopedPermissions. intros scoped. case_bool_decide as Hs; simpl.
  2:{ rewrite list_elem_of_singleton. destruct r; naive_solver. }
  pose proof (resolveResources_spec msg) as Hr. destruct (resolveResources msg) as [|ref refs].
  - rewrite list_elem_of_singleton. destruct r as [ref|].
    + split; [done|]. intros [_ H%Hr]. by apply not_elem_of_nil in H.
    + split; [|done]. intros _. right. intros ref H%Hr. by apply not_elem_of_nil in H.
  - simpl. change (Some ref :: list_fmap _ _ Some refs) with (Some <$> ref :: refs).
    rewrite list_elem_of_fmap. destruct r as [ref'|].
    + split; [intros (? & [= <-] & H%Hr); done|]. intros [_ H%Hr]. eauto.
    + split; [by intros (? & ? & _)|]. intros [|Hn]; [done|]. by destruct (Hn ref); apply Hr; left.
Qed.

Definition shown (r : option ResourceRef) : string := match r with Some r => r_name r | None => "workspaces/-" end.

Definition gated (au : AuthContext) : Prop :=
  au_open au = false ∧ au_iam au = true ∧ au_permission au ≠ "".

Lemma authorize_gated au user agent msg : gated au → is_Some (principal user agent) →
  authorize e (Some au) user agent msg = check_refs e (au_permission au) user agent (asked (au_permission au) msg) [].
Proof.
  intros (Ho & Hi & Hp) Hc. unfold authorize, asked. apply String.eqb_neq in Hp. rewrite Ho, Hi, Hp. simpl.
  destruct user as [u|], agent as [a|]; simpl in Hc; try (destruct (if IsResourceScoped _ then _ else _); reflexivity).
  by destruct Hc.
Qed.

(** The references are judged in turn; the refused ones are collected. *)
Lemma check_refs_spec perm user agent refs denied : store_answers →
  ∃ ds, (∀ d, d ∈ ds ↔ ∃ r, r ∈ refs ∧ ¬ granted perm user agent r ∧ d = shown r) ∧
    check_refs e perm user agent refs denied = (match denied ++ ds with [] => Ok tt | all => Err (APermissionDenied all) end).
Proof.
  intros Hst. revert denied. induction refs as [|r refs IH]; intros denied; simpl.
  - exists []. split; [set_solver|]. rewrite app_nil_r. by destruct denied.
  - pose proof (CheckPermission_verdict perm user agent r) as Hv.
    destruct (CheckPermission e perm user agent r) as [[]|x]; simpl in Hv; [| |done].
    + destruct (IH denied) as (ds & Hd & ->). exists ds. split; [|done]. intros d. rewrite Hd.
      setoid_rewrite elem_of_cons. split; [naive_solver|]. intros (r' & [->|Hr] & Hn & ->); [by destruct Hn; apply Hv|eauto].
    + destruct (IH (denied ++ [shown r])) as (ds & Hd & Hc). exists (shown r :: ds). split.
      * intros d. rewrite elem_of_cons, Hd. setoid_rewrite elem_of_cons. split.
        -- intros [->|(r' & Hr & Hn & ->)]; [|by eauto]. exists r. repeat split; [by left|]. intros Hg. by apply Hv in Hg.
        -- intros (r' & [->|Hr] & Hn & ->); [by left|right; eauto].
      * unfold shown in Hc at 1. rewrite Hc, <- app_assoc. done.
Qed.

(** C16: a gated call of a known caller goes through exactly when its permission
    is granted on everything the request is judged on; a refusal lists what is
    not granted, all of it and nothing else.  A permission that is scoped to
    resources is judged on every resource the request names, by [denotes]: a
    conversation or an agent by its name or by a path below it, a command, a
    reminder, a file and a provisioner by their names, a file also by its id.  A
    permission that is not scoped, or a request that names no such resource, is
    judged on the workspace alone. *)
Theorem authorize_every_resource au user agent msg : gated au → is_Some (principal user agent) → store_answers →
  (authorize e (Some au) user agent msg = Ok tt ↔
     ∀ r, requires (au_permission au) msg r → granted (au_permission au) user agent r) ∧
  ∀ x, authorize e (Some au) user agent msg = Err x →
    ∃ ds, x = APermissionDenied ds ∧ ∀ d, d ∈ ds ↔
      ∃ r, requires (au_permission au) msg r ∧ ¬ granted (au_permission au) user agent r ∧ d = shown r.
Proof.
  intros Hg Hc Hst. setoid_rewrite <- asked_requires. rewrite (authorize_gated au user agent msg Hg Hc).
  destruct (check_refs_spec (au_permission au) user agent (asked (au_permission au) msg) [] Hst) as (ds & Hd & ->).
  simpl. split.
  - destruct ds as [|d ds]; split; try done.
    + intros _ r Hr. pose proof (CheckPermission_verdict (au_permission au) user agent r) as Hv.
      destruct (CheckPermission e _ user agent r) as [[]|x]; simpl in Hv; [by apply Hv| |done].
      exfalso. apply (not_elem_of_nil (shown r)), Hd. exists r. split; [done|]. split; [|done].
      intros H. by apply Hv in H.
    + intros Hall. destruct (proj1 (Hd d)) as (r & Hr & Hn & _); [by left|]. by destruct Hn; apply Hall.
  - intros x. destruct ds as [|d ds]; [done|]. intros [= <-]. by exists (d :: ds).
Qed.

(** A stream whose permission is scoped to a resource is judged without its
    request: what the resource's own policy grants never counts. *)
Theorem stream_ignores_resources au user agent request request' :
  IsResourceScoped (au_permission au) = true → gated au →
  is_ok (stream_handler e (Some au) user agent request) = is_ok (stream_handler e (Some au) user agent request') ∧
  (stream_handler e (Some au) user agent request = Ok request → granted (au_permission au) user agent None).
Proof.
  intros Hs (Ho & Hi & Hp).
  unfold stream_handler. apply String.eqb_neq in Hp as Hp'. rewrite Hs, Hi, Hp'. cbn -[authorize]. split.
  - by destruct (authorize e (Some au) user agent []).
  - intros Hok. pose proof (conj Ho (conj Hi Hp) : gated au) as Hg.
    destruct (authorize e (Some au) user agent []) as [[]|x] eqn:Ha; [|done]. clear Hok.
    assert (Hc : is_Some (principal user agent)).
    { destruct user, agent; try (eexists; reflexivity). unfold authorize in Ha. by rewrite Ho, Hi, Hp' in Ha. }
    rewrite (authorize_gated au user agent [] Hg Hc) in Ha. unfold asked in Ha. rewrite Hs in Ha. simpl in Ha.
    pose proof (CheckPermission_verdict (au_permission au) user agent None) as Hv.
    destruct (CheckPermission e (au_permission au) user agent None) as [[]|x]; simpl in *; [tauto|done..].
Qed.

(** Membership reads pass over the conditions of the bindings: once every
    binding of a conversation has expired its readers are refused the
    conversation, and still pass for every permission on its files. *)
Theorem expired_member_keeps_files u conv p b name id uploader :
  conversation_policy e conv = Ok p → b ∈ p → FormatUserHandle (u_handle u) ∈ b_members b →
  (∀ b', b' ∈ p → ¬ active b') →
  parseFileResourceID e name = Some id → e_file e id = Ok (Some (Some conv, uploader)) →
  ∀ perm, ¬ conv_bound perm (Some u) None conv ∧ granted perm (Some u) None (Some (MkRef FILE name)).
Proof.
  intros Hp Hb Hu Hna Hid Hf perm. split.
  - intros (p' & Hp' & b' & Hin & Ha & _). rewrite Hp in Hp'. injection Hp' as <-. by eapply Hna.
  - eapply on_object, by_file_member; [done..|]. unfold IsConversationMember. rewrite Hp. f_equal.
    apply existsb_elem. exists b. split; [done|]. apply existsb_elem. eexists. split; [done|]. apply String.eqb_refl.
Qed.

End spec.

(** ** Growing policies *)

Section monotone.
Context (e : Env) (policy : resource_kind → string → res string Policy).

(** The same answers, with the policies of [policy]. *)
Definition with_policies : Env := {|
  e_now := e_now e; e_cel := e_cel e; e_custom_role := e_custom_role e; e_group := e_group e; e_user := e_user e;
  e_policy := policy; e_uuid := e_uuid e; e_conversation_type := e_conversation_type e; e_command := e_command e;
  e_command_member := e_command_member e; e_reminder := e_reminder e; e_file := e_file e |}.

Hypothesis Hgrow : ∀ k name p, e_policy e k name = Ok p → ∃ p', policy k name = Ok p' ∧ p ⊆ p'.

Lemma bound_grows perms_of perm user agent p p' : p ⊆ p' →
  bound e perms_of perm user agent p → bound with_policies perms_of perm user agent p'.
Proof. intros Hs (b & Hb & H). exists b. split; [by apply Hs|done]. Qed.

Lemma workspace_grows perm user : granted_workspace e perm user → granted_workspace with_policies perm user.
Proof.
  intros [Hb|u p -> Hp Hbd]; [by apply by_baseline|].
  destruct (Hgrow _ _ _ Hp) as (p' & Hp' & Hs). eapply by_workspace_role; [done..|]. by eapply bound_grows.
Qed.

Lemma conv_grows perm user agent id : conv_bound e perm user agent id → conv_bound with_policies perm user agent id.
Proof.
  intros (p & Hp & Hb). destruct (Hgrow _ _ _ Hp) as (p' & Hp' & Hs). exists p'. split; [done|]. by eapply bound_grows.
Qed.

Lemma member_grows conv t m : IsConversationMember e conv t m = Ok true → IsConversationMember with_policies conv t m = Ok true.
Proof.
  unfold IsConversationMember. destruct (conversation_policy e conv) as [p|] eqn:Hp; [|done]. intros [= H].
  destruct (Hgrow _ _ _ Hp) as (p' & Hp' & Hs). unfold conversation_policy. simpl. rewrite Hp'. f_equal.
  apply existsb_elem in H as (b & Hb & Hm). apply existsb_elem. exists b. split; [by apply Hs|done].
Qed.

Lemma policy_role_spec p member : policy_role p member ≠ 0 ↔
  ∃ b, b ∈ p ∧ conversationRoleFromName (b_role b) ≠ 0 ∧ member ∈ b_members b.
Proof.
  unfold policy_role. assert (Hf : ∀ b, (negb (conversationRoleFromName (b_role b) =? 0) &&
      existsb (String.eqb member) (b_members b)) = true ↔ conversationRoleFromName (b_role b) ≠ 0 ∧ member ∈ b_members b).
  { intros b. rewrite andb_true_iff, negb_true_iff, Z.eqb_neq, existsb_elem. setoid_rewrite String.eqb_eq. naive_solver. }
  destruct (find _ p) as [b|] eqn:Hb.
  - apply List.find_some in Hb as [Hin%list_elem_of_In Hb%Hf]. split; [by eauto|tauto].
  - split; [done|]. intros (b & Hin%list_elem_of_In & Hbb%Hf). by rewrite (List.find_none _ _ Hb b Hin) in Hbb.
Qed.

Lemma membership_grows conv t m role ty : GetConversationMembership e conv t m = Ok (role, ty) → role ≠ 0 →
  ∃ role', GetConversationMembership with_policies conv t m = Ok (role', ty) ∧ role' ≠ 0.
Proof.
  unfold GetConversationMembership. simpl. destruct (e_conversation_type e conv) as [[ty'|]|]; [|done..].
  destruct (conversation_policy e conv) as [p|] eqn:Hp; [|done]. intros [= <- ->] Hr.
  destruct (Hgrow _ _ _ Hp) as (p' & Hp' & Hs). unfold conversation_policy. simpl. rewrite Hp'.
  eexists. split; [done|]. apply policy_role_spec in Hr as (b & Hb & H). apply policy_role_spec. eauto.
Qed.

Lemma object_grows user agent ref : granted_object e user agent ref → granted_object with_policies user agent ref.
Proof.
  intros []; try (by econstructor); try (econstructor; [done..|]; match goal with H : overseer _ _ |- _ => destruct H end;
    split; [done|by apply workspace_grows]).
  - edestruct membership_grows as (role' & Hm & Hne); [done..|]. by eapply by_reminder_member.
  - eapply by_file_member; [done..|]. by apply member_grows.
Qed.

(** Access only grows when bindings are added to policies: whatever is
    granted stays granted under policies that hold every binding of the old ones. *)
Theorem bindings_only_add perm user agent ref :
  granted e perm user agent ref → granted with_policies perm user agent ref.
Proof.
  intros [? Hw|r cat p Hc Hp Hb|name str id Hs Hi Hg|r Ho].
  - by apply on_workspace, workspace_grows.
  - destruct (Hgrow _ _ _ Hp) as (p' & Hp' & Hsub). eapply on_policy; [done|done|]. by eapply bound_grows.
  - eapply on_conversation; [done..|]. destruct Hg as [Hb|a o ? ? ? ? Hb|a o ? ? ? ? Hb|? ? ? Hr].
    + by apply by_conversation_role, conv_grows.
    + eapply by_owner_read; [done..|]. by apply conv_grows.
    + eapply by_owner_manage; [done..|]. by apply conv_grows.
    + apply by_review; [done..|]. by apply workspace_grows.
  - by apply on_object, object_grows.
Qed.

End monotone.

(** ** A workspace of two users and an agent *)

Module IamDemo.

Definition ann : User := MkUser 1 "ann" false END_USER.
Definition bob : User := MkUser 2 "bob" false END_USER.
Definition helper : Agent := MkAgent 7 "helper" 1 true false true.

(** Ann administers the workspace and owns conversation [c]; bob's membership of
    [c] has expired, and so has everybody's of [old]. *)
Definition expired : option string := Some "request.time < t".
Definition c_policy : Policy :=
  [MkBinding "roles/conversationOwner" ["users/ann"] None; MkBinding "roles/conversationMember" ["users/bob"] expired].
Definition old_policy : Policy := [MkBinding "roles/conversationMember" ["users/bob"] expired].

Definition e : Env := {|
  e_now := 0;
  e_cel := λ expr _, Ok (CBool false);
  e_custom_role := λ _, Ok None;
  e_group := λ _, Ok None;
  e_user := λ id, Ok (if id =? 1 then Some ann else None);
  e_policy := λ k name, Ok (match k with
    | OTHER => [MkBinding "roles/workspaceAdmin" ["users/ann"] None]
    | CONVERSATION => if String.eqb name "conversations/c" then c_policy
                      else if String.eqb name "conversations/old" then old_policy
                      else if String.eqb name "conversations/live"
                      then [MkBinding "roles/conversationMember" ["users/bob"] None] else []
    | _ => []
    end);
  e_uuid := Some;
  e_conversation_type := λ _, Ok (Some 1);
  e_command := λ _, Err "no such command";
  e_command_member := λ _ _ _, Ok false;
  e_reminder := λ _, Err "no such reminder";
  e_file := λ id, Ok (if String.eqb id "f" then Some (Some "old", 1) else None)
|}.

Definition on_c : ResourceRef := MkRef CONVERSATION "conversations/c".

Lemma e_answers : store_answers e.
Proof. by split. Qed.

Example ann_manages : CheckPermission e "laelia.conversations.manage" (Some ann) None (Some on_c) = Ok true.
Proof. vm_compute. reflexivity. Qed.
Example bob_expired : CheckPermission e ConversationsRead (Some bob) None (Some on_c) = Ok false.
Proof. vm_compute. reflexivity. Qed.
Example helper_follows : CheckPermission e ConversationsRead None (Some helper) (Some on_c) = Ok true.
Proof. vm_compute. reflexivity. Qed.
Example helper_only_reads : CheckPermission e "laelia.conversations.send" None (Some helper) (Some on_c) = Ok false.
Proof. vm_compute. reflexivity. Qed.

Lemma check_permission_decides_witness :
  (∃ v, CheckPermission e ConversationsRead (Some bob) None (Some on_c) = Ok v) ∧
  ¬ granted e ConversationsRead (Some bob) None (Some on_c).
Proof.
  split; [exact (proj2 (check_permission_decides e ConversationsRead (Some bob) None (Some on_c)) e_answers)|].
  intros H. apply (proj1 (check_permission_decides e ConversationsRead (Some bob) None (Some on_c)) false bob_expired) in H.
  discriminate H.
Defined.

Lemma effective_permissions_agree_witness :
  CheckPermission e ConversationsReviewAll (Some ann) None None = Ok true.
Proof.
  destruct (EffectiveWorkspacePermissions e (Some ann)) as [ps|x] eqn:Hps; [|discriminate Hps].
  rewrite (effective_permissions_agree e (Some ann) None ps Hps ConversationsReviewAll). f_equal.
  apply bool_decide_eq_true. injection Hps as <-. apply (bool_decide_unpack _). vm_compute. exact I.
Defined.


Definition read_auth : AuthContext := MkAuth false true ConversationsRead.
(** A request that names [c], by a path below it, and [live]. *)
Definition read_both : list Field :=
  [MkField "laelia/Conversation" false ["conversations/c/messages/42"]; MkField "" false ["x"];
   MkField "laelia/Conversation" true ["conversations/live"]].

Lemma read_gated : gated read_auth.
Proof. by split. Qed.

(** Bob reads [live] and no longer [c]: he is refused, and told of [c] alone. *)
Lemma authorize_every_resource_witness :
  requires ConversationsRead read_both (Some on_c) ∧ ¬ granted e ConversationsRead (Some bob) None (Some on_c) ∧
  granted e ConversationsRead (Some bob) None (Some (MkRef CONVERSATION "conversations/live")).
Proof.
  destruct (authorize_every_resource e read_auth (Some bob) None read_both read_gated (ex_intro _ _ eq_refl) e_answers)
    as [_ Hr].
  destruct (Hr (APermissionDenied ["conversations/c"])) as (ds & [= <-] & Hds); [vm_compute; reflexivity|].
  split; [|split].
  - split; [apply (bool_decide_unpack _); vm_compute; exact I|]. exists (MkField "laelia/Conversation" false ["conversations/c/messages/42"]).
    exists "conversations/c/messages/42". split; [by left|]. split; [done|]. split; [by left|].
    apply (names_conversation _ "c" "/messages/42"); [by intros [_ ?]|done|by right; exists "messages/42"].
  - intros H. destruct (proj1 (Hds "conversations/c")) as (r & Hreq & Hn & Hd); [by left|].
    apply Hn. revert H. assert (r = Some on_c) as ->; [|done].
    destruct r as [[k name]|]; [|discriminate Hd]. simpl in Hd. subst name. f_equal. unfold on_c. f_equal.
    destruct Hreq as [_ Href]. apply resolveResources_spec in Href. vm_compute in Href.
    apply elem_of_cons in Href as [[= ->]|[[=]|Hnil%not_elem_of_nil]%elem_of_cons]; [reflexivity|done].
  - pose proof (CheckPermission_verdict e ConversationsRead (Some bob) None (Some (MkRef CONVERSATION "conversations/live"))) as Hv.
    assert (CheckPermission e ConversationsRead (Some bob) None (Some (MkRef CONVERSATION "conversations/live")) = Ok true)
      as Hok by (vm_compute; reflexivity). rewrite Hok in Hv. exact (proj1 Hv eq_refl).
Defined.

(** Bob may watch [live], a conversation he is a member of, but not over a
    stream. *)
Definition watch_auth : AuthContext := MkAuth false true CommandsWatch.
Definition live : list Field := [MkField "laelia/Conversation" false ["conversations/live"]].

Example bob_may_watch : authorize e (Some watch_auth) (Some bob) None live = Ok tt.
Proof. vm_compute. reflexivity. Qed.
Example bob_stream_denied :
  stream_handler e (Some watch_auth) (Some bob) None live = Err (APermissionDenied ["workspaces/-"]).
Proof. vm_compute. reflexivity. Qed.

Lemma stream_ignores_resources_witness :
  is_ok (stream_handler e (Some watch_auth) (Some bob) None live) =
  is_ok (stream_handler e (Some watch_auth) (Some bob) None []).
Proof. apply (stream_ignores_resources e watch_auth (Some bob) None live []); [vm_compute; reflexivity|by split]. Defined.

Lemma expired_member_keeps_files_witness :
  ¬ conv_bound e ConversationsRead (Some bob) None "old" ∧
  granted e FilesDownload (Some bob) None (Some (MkRef FILE "files/f")).
Proof.
  assert (H : ∀ perm, ¬ conv_bound e perm (Some bob) None "old" ∧ granted e perm (Some bob) None (Some (MkRef FILE "files/f"))).
  { apply (expired_member_keeps_files e bob "old" old_policy (MkBinding "roles/conversationMember" ["users/bob"] expired)
             "files/f" "f" 1); try (vm_compute; reflexivity); [by left|by left|].
    intros b' ->%list_elem_of_singleton [[=]|[[=]|(expr & v & _ & [= <-] & Hv)]]. done. }
  split; apply H.
Defined.

Definition e' : Env := with_policies e (λ k name, Ok (match k with
    | OTHER => [MkBinding "roles/workspaceAdmin" ["users/ann"; "users/eve"] None; MkBinding "roles/workspaceAdmin" ["users/ann"] None]
    | CONVERSATION => if String.eqb name "conversations/c" then MkBinding "roles/conversationMember" ["allUsers"] None :: c_policy
                      else if String.eqb name "conversations/old" then old_policy
                      else if String.eqb name "conversations/live"
                      then [MkBinding "roles/conversationMember" ["users/bob"] None] else []
    | _ => []
    end)).

Lemma bindings_only_add_witness : granted e' ConversationsRead None (Some helper) (Some on_c).
Proof.
  apply bindings_only_add.
  - intros k name p [= <-]. eexists. split; [reflexivity|].
    destruct k; repeat case_match; simplify_eq; try done; set_solver.
  - exact (proj1 (proj1 (check_permission_decides e ConversationsRead None (Some helper) (Some on_c)) true helper_follows) eq_refl).
Defined.

End IamDemo.
