(* ===== verification/Membership.v ===== *)
(** The membership of conversations: the store's writes over the policy and the
    membership index ([store/conversation_member.go], [conversation_policy.go],
    [conversation.go], the cursors of [agent_channel_cursor.go] and
    [user_channel_cursor.go]) and the handlers of [api/v1/channel_members.go] and
    [channel.go].

    [Chat] is the tables; [Dir] what the handlers read elsewhere (users, agents,
    groups, the clock) and the calls of the store that fail.  A transaction that
    fails changes nothing.  The API's answers are left out where they only read. *)

From stdpp Require Import base list strings numbers gmap sets.
From S2P Require Import Prelude Strings Names Iam Policies.
Local Open Scope Z_scope.

(** ** The tables *)

Record Conversation := MkConv {
  cv_type : Z; cv_owner : Z; cv_title : string; cv_archived : bool; cv_version : Z;
  cv_meta : list (Z * string) (* conversation_member_meta, in joining order *) }.

Record Chat := MkChat {
  ch_convs : gmap string Conversation;
  ch_policies : gmap string Policy; (* the rows of the policy table, by resource name *)
  ch_cursors : gmap (Z * string) Z; (* agent_channel_cursor *)
  ch_reads : gmap (Z * string) Z (* user_channel_cursor *) }.

Definition ConversationTypeDM : Z := 1.
Definition ConversationTypeChannel : Z := 2.
Definition ConversationTypeUserDM : Z := 4.

(** What the handlers read elsewhere.  [d_env]: the workspace's policy, users by id,
    groups and the parsing of ids; [d_fails]: the store calls that fail. *)
Record Dir := MkDir {
  d_env : Env;
  d_handle : string → res string (option User);
  d_agent : string → res string (option Agent);
  d_rfc3339 : Z → string;
  d_fails : string → option string }.

(** A connect error: its code and message. *)
Inductive code := InvalidArgument | Unauthenticated | NotFound | FailedPrecondition | PermissionDenied | Internal.
Definition failure : Type := code * string.

Definition call {A} (d : Dir) (name : string) (r : A) : res string A :=
  match d_fails d name with Some x => Err x | None => Ok r end.

(** ** conversation_policy.go *)

Definition conversationPolicyResource (convID : string) : string := FormatConversationName convID.

Definition getConversationPolicyForUpdate (ch : Chat) (convID : string) : Policy :=
  default [] (ch_policies ch !! conversationPolicyResource convID).

Definition upsertConversationPolicyTx (convID : string) (p : Policy) (ch : Chat) : Chat :=
  MkChat (ch_convs ch) (<[conversationPolicyResource convID := p]> (ch_policies ch)) (ch_cursors ch) (ch_reads ch).

Definition patchConversationMemberRolesTx (convID : string) (memberType : Z) (memberID : string) (roles : list string)
    (ch : Chat) : Chat :=
  upsertConversationPolicyTx convID
    (applyIamPolicyPatch (conversationMemberName memberType memberID) roles (getConversationPolicyForUpdate ch convID)) ch.

Definition addConversationMemberWithConditionTx (convID : string) (memberType : Z) (memberID role : string)
    (condition : option string) (ch : Chat) : Chat :=
  upsertConversationPolicyTx convID
    (addMemberWithCondition (conversationMemberName memberType memberID) role condition
       (getConversationPolicyForUpdate ch convID)) ch.

(** ** The membership index *)

Definition set_convs (f : gmap string Conversation → gmap string Conversation) (ch : Chat) : Chat :=
  MkChat (f (ch_convs ch)) (ch_policies ch) (ch_cursors ch) (ch_reads ch).

Definition set_meta (f : list (Z * string) → list (Z * string)) (c : Conversation) : Conversation :=
  MkConv (cv_type c) (cv_owner c) (cv_title c) (cv_archived c) (cv_version c) (f (cv_meta c)).

Definition upsertConversationMemberMetaTx (convID : string) (memberType : Z) (memberID : string) (ch : Chat) : Chat :=
  set_convs (alter (set_meta (λ l, if bool_decide ((memberType, memberID) ∈ l) then l else l ++ [(memberType, memberID)])) convID) ch.

Definition deleteConversationMemberMetaTx (convID : string) (memberType : Z) (memberID : string) (ch : Chat) : Chat :=
  set_convs (alter (set_meta (filter (λ k, k ≠ (memberType, memberID)))) convID) ch.

(** ** conversation_member.go *)

Record ConversationMemberInput := MkInput { in_type : Z; in_id : string; in_expire : option Z }.

Definition dquote : string := String (Ascii.ascii_of_nat 34) EmptyString.

Definition memberExpirationCondition (d : Dir) (expireAt : option Z) : option string :=
  (λ t, "request.time < timestamp(" +:+ dquote +:+ d_rfc3339 d t +:+ dquote +:+ ")") <$> expireAt.

Definition addConversationMemberTx (d : Dir) (convID : string) (memberType : Z) (memberID : string) (role : Z)
    (expireAt : option Z) (ch : Chat) : Chat :=
  upsertConversationMemberMetaTx convID memberType memberID
    (addConversationMemberWithConditionTx convID memberType memberID (conversationRoleName role)
       (memberExpirationCondition d expireAt) ch).

Definition add_input (d : Dir) (convID : string) (ch : Chat) (m : ConversationMemberInput) : Chat :=
  addConversationMemberTx d convID (in_type m) (in_id m) MemberRoleMember (in_expire m) ch.

Definition AddConversationMembers (d : Dir) (convID : string) (members : list ConversationMemberInput) (ch : Chat)
    : res string Chat :=
  call d "AddConversationMembers" (foldl (add_input d convID) ch members).

Definition RemoveConversationMember (d : Dir) (convID : string) (memberType : Z) (memberID : string) (ch : Chat)
    : res string Chat :=
  call d "RemoveConversationMember"
    (deleteConversationMemberMetaTx convID memberType memberID
       (patchConversationMemberRolesTx convID memberType memberID [] ch)).

(** The role and the type, read from the policy. *)
Definition conversationMembership (d : Dir) (ch : Chat) (convID : string) (memberType : Z) (memberID : string)
    : res string (Z * Z) :=
  match ch_convs ch !! convID with
  | None => Err "conversation not found"
  | Some c =>
      call d "GetConversationMembership"
        (policy_role (getConversationPolicyForUpdate ch convID) (conversationMemberName memberType memberID), cv_type c)
  end.

Definition conversationHasMember (d : Dir) (ch : Chat) (convID : string) (memberType : Z) (memberID : string)
    : res string bool :=
  call d "IsConversationMember"
    (policyContainsMember (getConversationPolicyForUpdate ch convID) (conversationMemberName memberType memberID)).

Definition UpdateConversationMemberRole (d : Dir) (convID : string) (memberType : Z) (memberID : string) (role : Z)
    (ch : Chat) : res string Chat :=
  let policy := getConversationPolicyForUpdate ch convID in
  let member := conversationMemberName memberType memberID in
  if negb (policyContainsMember policy member) then Err "conversation member not found" else
  call d "UpdateConversationMemberRole"
    (upsertConversationMemberMetaTx convID memberType memberID
       (upsertConversationPolicyTx convID (applyIamPolicyPatch member [conversationRoleName role] policy) ch)).

Definition set_owner (owner : Z) (c : Conversation) : Conversation :=
  MkConv (cv_type c) owner (cv_title c) (cv_archived c) (cv_version c) (cv_meta c).

(** The store's TransferChannelOwnership. *)
Definition transfer_ownership (d : Dir) (convID oldOwnerID newOwnerID : string) (newOwnerPrincipalID : Z) (ch : Chat)
    : res string Chat :=
  call d "TransferChannelOwnership"
    (upsertConversationMemberMetaTx convID MemberTypeUser newOwnerID
    (upsertConversationMemberMetaTx convID MemberTypeUser oldOwnerID
    (patchConversationMemberRolesTx convID MemberTypeUser newOwnerID [conversationRoleName MemberRoleOwner]
    (patchConversationMemberRolesTx convID MemberTypeUser oldOwnerID [conversationRoleName MemberRoleMember]
    (set_convs (alter (set_owner newOwnerPrincipalID) convID) ch))))).

(** ListConversationMembers: the index, each member with the role of the last
    binding that lists it. *)
Definition roleByMember (p : Policy) : gmap string Z :=
  foldl (λ acc b, let r := conversationRoleFromName (b_role b) in
           if r =? 0 then acc else foldl (λ acc m, <[m := r]> acc) acc (b_members b)) ∅ p.

Definition ListConversationMembers (ch : Chat) (convID : string) : list (Z * string * Z) :=
  let roles := roleByMember (getConversationPolicyForUpdate ch convID) in
  match ch_convs ch !! convID with
  | None => []
  | Some c => (λ k : Z * string, (k, default 0 (roles !! conversationMemberName k.1 k.2))) <$> cv_meta c
  end.

(** ** The cursors *)

Definition set_cursor (k : Z * string) (v : Z) (ch : Chat) : Chat :=
  MkChat (ch_convs ch) (ch_policies ch) (<[k := Z.max (default v (ch_cursors ch !! k)) v]> (ch_cursors ch)) (ch_reads ch).

Definition SeedCursorOnJoin (d : Dir) (agentID : Z) (convID : string) (ch : Chat) : res string Chat :=
  match ch_convs ch !! convID with
  | None => Err "failed to read conversation version for cursor seed"
  | Some c => call d "UpsertCursor" (set_cursor (agentID, convID) (cv_version c) ch)
  end.

Definition upsertUserReadCursorTx (k : Z * string) (v : Z) (ch : Chat) : Chat :=
  MkChat (ch_convs ch) (ch_policies ch) (ch_cursors ch) (<[k := Z.max (default v (ch_reads ch !! k)) v]> (ch_reads ch)).

(** ** conversation.go

    [convID] is the id the insert draws. *)

Definition userMemberHandle (d : Dir) (principalID : Z) : res string string :=
  match e_user (d_env d) principalID with
  | Ok (Some u) => Ok (u_handle u)
  | Ok None => Err "failed to resolve handle"
  | Err x => Err x
  end.

Definition create_channel (d : Dir) (convID title : string) (ownerID : Z) (ch : Chat) : res string Chat :=
  let ch1 := set_convs <[convID := MkConv ConversationTypeChannel ownerID title false 1 []]> ch in
  match userMemberHandle d ownerID with
  | Err x => Err x
  | Ok ownerHandle =>
      let ch2 := addConversationMemberTx d convID MemberTypeUser ownerHandle MemberRoleOwner None ch1 in
      call d "CreateChannel" (upsertUserReadCursorTx (ownerID, convID) 1 ch2)
  end.

(** A row of [conversation] goes, with what cascades; the policy row stays. *)
Definition delete_channel (d : Dir) (convID : string) (ch : Chat) : res string Chat :=
  call d "DeleteChannel"
    (MkChat (delete convID (ch_convs ch)) (ch_policies ch)
       (filter (λ kv, kv.1.2 ≠ convID) (ch_cursors ch)) (filter (λ kv, kv.1.2 ≠ convID) (ch_reads ch))).

Definition set_archived (archived : bool) (c : Conversation) : Conversation :=
  MkConv (cv_type c) (cv_owner c) (cv_title c) archived (cv_version c) (cv_meta c).

Definition set_title (title : string) (c : Conversation) : Conversation :=
  MkConv (cv_type c) (cv_owner c) title (cv_archived c) (cv_version c) (cv_meta c).

(** ** The handlers: helpers *)

Record Caller := MkCaller { by_user : option User; by_agent : option Agent }.

Definition parseConversationID (d : Dir) (conversation : string) : option string :=
  match split conversation with
  | [p; id] => if String.eqb p "conversations" then e_uuid (d_env d) id else e_uuid (d_env d) conversation
  | _ => e_uuid (d_env d) conversation
  end.

Definition GetConversation (d : Dir) (ch : Chat) (convID : string) : res string Conversation :=
  match d_fails d "GetConversation" with
  | Some x => Err x
  | None => match ch_convs ch !! convID with Some c => Ok c | None => Err "conversation not found" end
  end.

Definition resolveUserHandle (d : Dir) (principalID : Z) : string :=
  if principalID =? 0 then "" else
  match e_user (d_env d) principalID with Ok (Some u) => u_handle u | _ => "" end.

Definition requireChannelOwner (caller : Caller) (conv : Conversation) : bool :=
  match by_user caller with Some u => cv_owner conv =? u_id u | None => false end.

Definition isUserWorkspaceAdmin (d : Dir) (user : User) : res string bool :=
  match e_policy (d_env d) OTHER "" with
  | Err x => Err x
  | Ok p => Ok (existsb (String.eqb (FormatRole WorkspaceAdminRole)) (GetUserRolesInIamPolicy (d_env d) user p))
  end.

Definition is_system_bot (u : User) : bool := match u_type u with SYSTEM_BOT => true | _ => false end.

Definition validateChannelUserMember (user : option User) : res failure unit :=
  match user with
  | None => Err (InvalidArgument, "user not found or deleted")
  | Some u =>
      if u_deleted u then Err (InvalidArgument, "user not found or deleted")
      else if is_system_bot u then Err (InvalidArgument, "cannot add the system bot to a channel") else Ok tt
  end.

Definition checkAgentAddableByCaller (d : Dir) (caller : Caller) (agent : Agent) : res failure unit :=
  match by_user caller with
  | None => Err (PermissionDenied, "agent does not allow being added")
  | Some user =>
      if negb (ag_owner agent =? 0) && (ag_owner agent =? u_id user) then Ok tt else
      match isUserWorkspaceAdmin d user with
      | Err x => Err (Internal, x)
      | Ok true => Ok tt
      | Ok false => Err (PermissionDenied, "agent does not allow being added")
      end
  end.

(** The conversation of a request. *)
Definition load (d : Dir) (ch : Chat) (name : string) : res failure (string * Conversation) :=
  match parseConversationID d name with
  | None => Err (InvalidArgument, "invalid conversation name")
  | Some convID =>
      match GetConversation d ch convID with
      | Err x => Err (NotFound, x)
      | Ok conv => Ok (convID, conv)
      end
  end.

(** A store call whose failure is an internal error. *)
Definition internal {A} (r : res string A) : res failure A :=
  match r with Err x => Err (Internal, x) | Ok a => Ok a end.

Definition then_ {A B} (r : res failure A) (k : A → res failure B) : res failure B :=
  match r with Err x => Err x | Ok a => k a end.
Notation "'let!' x ':=' r 'in' k" := (then_ r (fun x => k)) (at level 200, x pattern, r at level 100, k at level 200).

(** ** AddChannelMember *)

Record AddRequest := MkAdd { ad_type : Z; ad_id : string; ad_group : string; ad_expire : option Z }.

(** [seen] and [inputs] of the loop; a key is the pair the code prints. *)
Definition adding : Type := list (Z * string) * list ConversationMemberInput.

(** One member of a group: skipped, taken, or an error. *)
Definition snapshot_member (d : Dir) (ch : Chat) (convID ownerHandle : string) (expireAt : option Z)
    (acc : adding) (gm : string) : res failure adding :=
  match GetUserHandle gm with
  | Err _ => Ok acc
  | Ok memberID =>
      let key := (MemberTypeUser, memberID) in
      if bool_decide (key ∈ acc.1) || String.eqb memberID ownerHandle then Ok acc else
      let! (existing, _) := internal (conversationMembership d ch convID MemberTypeUser memberID) in
      if negb (existing =? 0) then Ok acc else
      let! user := internal (d_handle d memberID) in
      match validateChannelUserMember user with
      | Err _ => Ok acc
      | Ok _ => Ok (key :: acc.1, acc.2 ++ [MkInput MemberTypeUser memberID expireAt])
      end
  end.

Fixpoint snapshot_group (d : Dir) (ch : Chat) (convID ownerHandle : string) (expireAt : option Z)
    (acc : adding) (members : list string) : res failure adding :=
  match members with
  | [] => Ok acc
  | gm :: members =>
      let! acc := snapshot_member d ch convID ownerHandle expireAt acc gm in
      snapshot_group d ch convID ownerHandle expireAt acc members
  end.

(** A single member. *)
Definition add_single (d : Dir) (ch : Chat) (caller : Caller) (convID ownerHandle : string) (expireAt : option Z)
    (acc : adding) (memberType : Z) (memberID : string) : res failure adding :=
  let key := (memberType, memberID) in
  if bool_decide (key ∈ acc.1) then Err (InvalidArgument, "duplicate member in request") else
  if (memberType =? MemberTypeUser) && String.eqb memberID ownerHandle
  then Err (InvalidArgument, "cannot add the channel owner as a member") else
  let! (existing, _) := internal (conversationMembership d ch convID memberType memberID) in
  if negb (existing =? 0) then Err (InvalidArgument, "already a member of this channel") else
  let! _ :=
    if memberType =? MemberTypeAgent then
      match d_agent d memberID with
      | Ok (Some agent) => if ag_allow_add agent then Ok tt else checkAgentAddableByCaller d caller agent
      | _ => Err (NotFound, "agent not found")
      end
    else Ok tt in
  let! _ :=
    if memberType =? MemberTypeUser
    then let! user := internal (d_handle d memberID) in validateChannelUserMember user
    else Ok tt in
  Ok (key :: acc.1, acc.2 ++ [MkInput memberType memberID expireAt]).

Definition add_request (d : Dir) (ch : Chat) (caller : Caller) (convID ownerHandle : string) (acc : adding)
    (m : AddRequest) : res failure adding :=
  if match ad_expire m with Some t => t <=? e_now (d_env d) | None => false end
  then Err (InvalidArgument, "expire_time must be in the future") else
  if negb (String.eqb (ad_group m) "") then
    if negb (ad_type m =? 0) || negb (String.eqb (ad_id m) "")
    then Err (InvalidArgument, "group is mutually exclusive with member_type/member_id") else
    match e_group (d_env d) (ad_group m) with
    | Err x => Err (Internal, x)
    | Ok None => Err (NotFound, "group not found")
    | Ok (Some members) => snapshot_group d ch convID ownerHandle (ad_expire m) acc members
    end
  else add_single d ch caller convID ownerHandle (ad_expire m) acc (ad_type m) (ad_id m).

Fixpoint add_requests (d : Dir) (ch : Chat) (caller : Caller) (convID ownerHandle : string) (acc : adding)
    (ms : list AddRequest) : res failure adding :=
  match ms with
  | [] => Ok acc
  | m :: ms =>
      let! acc := add_request d ch caller convID ownerHandle acc m in
      add_requests d ch caller convID ownerHandle acc ms
  end.

(** A seed that fails is logged. *)
Definition seed_agent (d : Dir) (convID : string) (ch : Chat) (m : ConversationMemberInput) : Chat :=
  if in_type m =? MemberTypeAgent then
    match d_agent d (in_id m) with
    | Ok (Some agent) => match SeedCursorOnJoin d (ag_id agent) convID ch with Ok ch' => ch' | Err _ => ch end
    | _ => ch
    end
  else ch.

(** The new tables and the members of the answer. *)
Definition AddChannelMember (d : Dir) (caller : Caller) (name : string) (members : list AddRequest) (ch : Chat)
    : res failure (Chat * list ConversationMemberInput) :=
  let! (convID, conv) := load d ch name in
  match members with
  | [] => Err (InvalidArgument, "at least one member must be specified")
  | _ =>
      let! (_, inputs) := add_requests d ch caller convID (resolveUserHandle d (cv_owner conv)) ([], []) members in
      match inputs with
      | [] => Ok (ch, [])
      | _ =>
          let! ch := internal (AddConversationMembers d convID inputs ch) in
          Ok (foldl (seed_agent d convID) ch inputs, inputs)
      end
  end.

(** ** The other handlers *)

Definition RemoveChannelMember (d : Dir) (name : string) (memberType : Z) (memberID : string) (ch : Chat) : res failure Chat :=
  let! (convID, conv) := load d ch name in
  if (memberType =? MemberTypeUser) && String.eqb memberID (resolveUserHandle d (cv_owner conv))
  then Err (InvalidArgument, "cannot remove the channel owner") else
  internal (RemoveConversationMember d convID memberType memberID ch).

Definition TransferChannelOwnership (d : Dir) (caller : Caller) (name : string) (memberType : Z) (memberID : string)
    (ch : Chat) : res failure Chat :=
  let! (convID, conv) := load d ch name in
  if negb (cv_type conv =? ConversationTypeChannel) then Err (InvalidArgument, "only channels support ownership transfer") else
  if negb (requireChannelOwner caller conv) then Err (PermissionDenied, "only the channel owner") else
  if negb (memberType =? MemberTypeUser) then Err (InvalidArgument, "only users can own a channel") else
  match d_handle d memberID with
  | Ok (Some newOwner) =>
      let newOwnerID := u_handle newOwner in
      let ownerHandle := resolveUserHandle d (cv_owner conv) in
      if String.eqb newOwnerID ownerHandle then Err (InvalidArgument, "caller is already the owner") else
      let! (role, _) := internal (conversationMembership d ch convID MemberTypeUser newOwnerID) in
      if role =? 0 then Err (FailedPrecondition, "target is not a channel member") else
      let! ch := internal (transfer_ownership d convID ownerHandle newOwnerID (u_id newOwner) ch) in
      let! _ := internal (GetConversation d ch convID) in
      Ok ch
  | _ => Err (InvalidArgument, "invalid user member_id")
  end.

Definition UpdateChannelMemberRole (d : Dir) (caller : Caller) (name : string) (memberType : Z) (memberID : string)
    (targetRole : Z) (ch : Chat) : res failure Chat :=
  let! (convID, conv) := load d ch name in
  if negb (cv_type conv =? ConversationTypeChannel) then Err (InvalidArgument, "only channels support member roles") else
  if negb (requireChannelOwner caller conv) then Err (PermissionDenied, "only the channel owner") else
  if negb (targetRole =? MemberRoleMember) && negb (targetRole =? MemberRoleAdmin)
  then Err (InvalidArgument, "target_role must be member (2) or admin (3)") else
  if (memberType =? MemberTypeUser) && String.eqb memberID (resolveUserHandle d (cv_owner conv))
  then Err (InvalidArgument, "cannot change the owner's role") else
  let! (role, _) := internal (conversationMembership d ch convID memberType memberID) in
  if role =? 0 then Err (FailedPrecondition, "target is not a channel member") else
  internal (UpdateConversationMemberRole d convID memberType memberID targetRole ch).

Definition LeaveChannel (d : Dir) (caller : Caller) (name : string) (ch : Chat) : res failure Chat :=
  let! (convID, conv) := load d ch name in
  if negb (cv_type conv =? ConversationTypeChannel) then Err (InvalidArgument, "only channels support leaving") else
  match callerMemberInfo (by_user caller) (by_agent caller) with
  | None => Err (Unauthenticated, "authentication required")
  | Some (memberType, memberID) =>
      if requireChannelOwner caller conv then Err (FailedPrecondition, "channel owner cannot leave") else
      let! (role, _) := internal (conversationMembership d ch convID memberType memberID) in
      if role =? 0 then Err (FailedPrecondition, "not a channel member") else
      internal (RemoveConversationMember d convID memberType memberID ch)
  end.

Definition JoinChannel (d : Dir) (caller : Caller) (name : string) (ch : Chat) : res failure Chat :=
  match by_agent caller with
  | None => Err (Unauthenticated, "agent authentication required")
  | Some agent =>
      let! (convID, conv) := load d ch name in
      if negb (cv_type conv =? ConversationTypeChannel) then Err (InvalidArgument, "only channels can be joined") else
      let! isMember := internal (conversationHasMember d ch convID MemberTypeAgent (ag_resource agent)) in
      if (isMember : bool) then Ok ch else
      let! ch := internal (AddConversationMembers d convID [MkInput MemberTypeAgent (ag_resource agent) None] ch) in
      Ok (match SeedCursorOnJoin d (ag_id agent) convID ch with Ok ch' => ch' | Err _ => ch end)
  end.

Definition CreateChannel (d : Dir) (caller : Caller) (convID title : string) (ch : Chat) : res failure Chat :=
  if String.eqb title "" then Err (InvalidArgument, "title must not be empty") else
  match by_user caller with
  | None => Err (Unauthenticated, "authentication required")
  | Some user => internal (create_channel d convID title (u_id user) ch)
  end.

Definition DeleteChannel (d : Dir) (caller : Caller) (name : string) (ch : Chat) : res failure Chat :=
  let! (convID, conv) := load d ch name in
  if negb (requireChannelOwner caller conv) then Err (PermissionDenied, "only the channel owner") else
  internal (delete_channel d convID ch).

Definition setChannelArchived (d : Dir) (caller : Caller) (name : string) (archived : bool) (ch : Chat) : res failure Chat :=
  let! (convID, conv) := load d ch name in
  if negb (requireChannelOwner caller conv) then Err (PermissionDenied, "only the channel owner") else
  internal (call d "SetConversationArchived" (set_convs (alter (set_archived archived) convID) ch)).

Definition UpdateChannel (d : Dir) (name title : string) (ch : Chat) : res failure Chat :=
  match parseConversationID d name with
  | None => Err (InvalidArgument, "invalid channel name")
  | Some convID =>
      if String.eqb title "" then Err (InvalidArgument, "title must not be empty") else
      match ch_convs ch !! convID with
      | None => Err (Internal, "conversation not found")
      | Some _ => internal (call d "UpdateChannel" (set_convs (alter (set_title title) convID) ch))
      end
  end.
