(* ===== verification/MembershipSpec.v ===== *)
(** What the membership handlers keep ([Membership]): a channel has exactly one
    owner, the owner of record, and its roster mirrors its policy, over any
    sequence of requests that name users and agents; what a transfer and an
    addition do to everybody's role; and three ways out of that: a request with
    another member type, a demotion into an expiring binding, a re-addition. *)

From stdpp Require Import base list strings numbers gmap sets relations.
From S2P Require Import Prelude Strings Names Iam Policies Membership.
Local Open Scope Z_scope.

Definition ownerRole : string := conversationRoleName MemberRoleOwner.
Definition memberRole : string := conversationRoleName MemberRoleMember.

(** ** Policies of a channel *)

Record policy_ok (owner : string) (p : Policy) : Prop := {
  po_distinct : distinct p;
  po_full : Forall (λ b, b_members b ≠ []) p;
  po_chat m pl : pl ∈ places m p → conversationRoleFromName pl.1 ≠ 0;
  po_single m pl pl' : pl ∈ places m p → pl' ∈ places m p → pl = pl';
  po_owner m : (∃ c, (ownerRole, c) ∈ places m p) ↔ m = owner
}.

Lemma chat_role_name r : conversationRoleFromName (conversationRoleName r) ≠ 0.
Proof. unfold conversationRoleName. by repeat case_match. Qed.

Lemma firsts_one r p : ∃ c, firsts (remove_dups [r]) p = [(r, c)] ∧ (c = None ∨ ∃ b, b ∈ p ∧ b_role b = r ∧ b_condition b = c).
Proof.
  assert (remove_dups [r] = [r]) as -> by reflexivity.
  induction p as [|b p IH]; simpl; [by exists None; auto|]. case_bool_decide as Hb.
  - apply list_elem_of_singleton in Hb as Hr. exists (b_condition b). rewrite Hr.
    split; [|right; exists b; split; [by left|done]]. f_equal.
    rewrite filter_cons_False by (by intros H). simpl. clear. by induction p.
  - destruct IH as (c & -> & Hc). exists c. split; [done|]. destruct Hc as [Hc|(b' & Hin & H)]; [by left|].
    right. exists b'. split; [by right|done].
Qed.

Lemma firsts_none p : firsts (remove_dups []) p = [].
Proof. simpl. by induction p. Qed.

Lemma full_reap p : Forall (λ b, b_members b ≠ []) (reap p).
Proof. apply Forall_forall. intros b [Hb _]%list_elem_of_filter. done. Qed.

Lemma full_patch member roles p : Forall (λ b, b_members b ≠ []) (applyIamPolicyPatch member roles p).
Proof. unfold applyIamPolicyPatch. destruct (patch_bindings _ _ _). apply full_reap. Qed.

Section policies.
Context (owner : string).
Implicit Types (p : Policy) (m : string).

Lemma policy_ok_remove m p : m ≠ owner → policy_ok owner p → policy_ok owner (applyIamPolicyPatch m [] p).
Proof.
  intros Hm [Hd Hf Hc Hs Ho].
  assert (Hp : ∀ m', places m' (applyIamPolicyPatch m [] p) = if decide (m' = m) then [] else places m' p).
  { intros m'. case_decide as Hd'; [subst; by rewrite patch_places, firsts_none|by apply patch_other]. }
  split; [by apply distinct_patch|apply full_patch|..]; intros m'; rewrite Hp; case_decide as Hd'; eauto.
  - by intros pl ?%elem_of_nil.
  - by intros pl pl' ?%elem_of_nil.
  - split; [by intros (c & ?%elem_of_nil)|]. congruence.
Qed.

Lemma policy_ok_update m r p : m ≠ owner → conversationRoleName r ≠ ownerRole → policy_ok owner p →
  policy_ok owner (applyIamPolicyPatch m [conversationRoleName r] p).
Proof.
  intros Hm Hr [Hd Hf Hc Hs Ho]. destruct (firsts_one (conversationRoleName r) p) as (c & Hfs & _).
  assert (Hp : ∀ m', places m' (applyIamPolicyPatch m [conversationRoleName r] p) =
                     if decide (m' = m) then [(conversationRoleName r, c)] else places m' p).
  { intros m'. case_decide as Hd'; [subst; by rewrite patch_places|by apply patch_other]. }
  split; [by apply distinct_patch|apply full_patch|..]; intros m'; rewrite Hp; case_decide as Hd'; eauto.
  - intros pl ->%list_elem_of_singleton. apply chat_role_name.
  - by intros pl pl' ->%list_elem_of_singleton ->%list_elem_of_singleton.
  - split; [|congruence]. intros (c' & [= Heq _]%list_elem_of_singleton). congruence.
Qed.

Lemma policy_ok_add m c p : (∀ pl, pl ∈ places m p → pl.1 = memberRole) → policy_ok owner p →
  policy_ok owner (addMemberWithCondition m memberRole c p).
Proof.
  intros Hm [Hd Hf Hc Hs Ho].
  assert (Hmem : ∀ pl, pl ∈ places m (addMemberWithCondition m memberRole c p) ↔ pl = (memberRole, c)).
  { intros pl. rewrite add_places. split; [|by right]. by intros [[Hin Hne]|]; [destruct Hne; auto|]. }
  split; [by apply distinct_add|apply full_reap|..]; intros m'; destruct (decide (m' = m)) as [->|Hne];
    try (rewrite add_other by done; eauto).
  - intros pl ->%Hmem. done.
  - by intros pl pl' ->%Hmem ->%Hmem.
  - split; [by intros (c' & ?%Hmem)|]. intros ->. destruct (proj2 (Ho owner) eq_refl) as (c' & Hin).
    by apply Hm in Hin.
Qed.

End policies.

Lemma policy_ok_create o : policy_ok o (addMemberWithCondition o ownerRole None []).
Proof.
  assert (Hmem : ∀ pl, pl ∈ places o (addMemberWithCondition o ownerRole None []) ↔ pl = (ownerRole, None)).
  { intros pl. rewrite add_places. split; [|by right]. by intros [[?%elem_of_nil _]|]. }
  split; [by apply distinct_add; constructor|apply full_reap|..]; intros m'; destruct (decide (m' = o)) as [->|Hne];
    try (rewrite add_other by done).
  - by intros pl ->%Hmem.
  - by intros pl ?%elem_of_nil.
  - by intros pl pl' ->%Hmem ->%Hmem.
  - by intros pl pl' ?%elem_of_nil.
  - split; [done|]. intros _. exists None. by apply Hmem.
  - split; [|congruence]. by intros (c & ?%elem_of_nil).
Qed.

(** After the demotion of the old owner no binding is left of the owner's role. *)
Lemma policy_ok_transfer old new p : new ≠ old → policy_ok old p →
  let p1 := applyIamPolicyPatch old [memberRole] p in
  policy_ok new (applyIamPolicyPatch new [ownerRole] p1) ∧
  places new (applyIamPolicyPatch new [ownerRole] p1) = [(ownerRole, None)] ∧
  places old (applyIamPolicyPatch new [ownerRole] p1) = firsts (remove_dups [memberRole]) p.
Proof.
  intros Hne [Hd Hf Hc Hs Ho] p1.
  destruct (firsts_one memberRole p) as (c1 & Hfs1 & _).
  assert (Hd1 : distinct p1) by (by apply distinct_patch).
  assert (Hold : places old p1 = [(memberRole, c1)]) by (unfold p1; by rewrite patch_places).
  assert (Hno : ∀ b, b ∈ p1 → b_role b ≠ ownerRole).
  { intros b Hb Hr. pose proof (full_patch old [memberRole] p) as Hfull. rewrite Forall_forall in Hfull.
    specialize (Hfull b Hb). destruct (b_members b) as [|m ms] eqn:Hms; [done|].
    assert (Hin : (ownerRole, b_condition b) ∈ places m p1).
    { apply places_elem. exists b. rewrite Hms. repeat split; [done|by left|done]. }
    destruct (decide (m = old)) as [->|Hmo].
    - rewrite Hold in Hin. apply list_elem_of_singleton in Hin. done.
    - unfold p1 in Hin. rewrite patch_other in Hin by done. by apply Hmo, Ho; eauto. }
  destruct (firsts_one ownerRole p1) as (c & Hfs & Hcnd).
  assert (c = None) as -> by (destruct Hcnd as [|(b & Hb & Hr & _)]; [done|by apply Hno in Hb]).
  assert (Hp : ∀ m, places m (applyIamPolicyPatch new [ownerRole] p1) =
     if decide (m = new) then [(ownerRole, None)] else if decide (m = old) then [(memberRole, c1)] else places m p).
  { intros m. case_decide as H1; [subst; by rewrite patch_places|]. rewrite patch_other by done.
    case_decide as H2; [by subst|]. unfold p1. by rewrite patch_other. }
  split; [|rewrite !Hp, Hfs1; by repeat case_decide].
  split; [by apply distinct_patch|apply full_patch|..]; intros m; rewrite Hp.
  - repeat case_decide; [by intros pl ->%list_elem_of_singleton..|apply Hc].
  - repeat case_decide; [by intros pl pl' ->%list_elem_of_singleton ->%list_elem_of_singleton..|apply Hs].
  - case_decide as H1; [subst; split; [done|intros _; exists None; by left]|].
    case_decide as H2; [split; [by intros (c' & [=]%list_elem_of_singleton)|done]|].
    rewrite Ho. split; [done|]. by intros ->.
Qed.

(** ** Reading and writing the tables *)

Definition pol (ch : Chat) (id : string) : Policy := getConversationPolicyForUpdate ch id.

Lemma resource_inj id id' : conversationPolicyResource id = conversationPolicyResource id' → id = id'.
Proof. unfold conversationPolicyResource, FormatConversationName, ConversationNamePrefix. simpl. by intros [=]. Qed.

Lemma pol_upsert id p ch id' : pol (upsertConversationPolicyTx id p ch) id' = if decide (id' = id) then p else pol ch id'.
Proof.
  unfold pol, getConversationPolicyForUpdate, upsertConversationPolicyTx. simpl. case_decide as Hd.
  - subst. by rewrite lookup_insert_eq.
  - rewrite lookup_insert_ne; [done|]. by intros Heq%resource_inj.
Qed.

Lemma convs_upsert id p ch : ch_convs (upsertConversationPolicyTx id p ch) = ch_convs ch.
Proof. done. Qed.

Lemma user_name_inj i j : conversationMemberName MemberTypeUser i = conversationMemberName MemberTypeUser j → i = j.
Proof. unfold conversationMemberName. simpl. by intros [=]. Qed.

Definition typed (t : Z) : Prop := t = MemberTypeUser ∨ t = MemberTypeAgent.

(** A user and an agent never share a name, nor do two users or two agents. *)
Lemma name_inj t i t' i' : typed t → typed t' →
  conversationMemberName t i = conversationMemberName t' i' → t = t' ∧ i = i'.
Proof. by intros [->| ->] [->| ->] [=]; subst. Qed.

(** ** A channel in order *)

(** The roster: who the index lists is who the policy lists. *)
Definition mirrors (meta : list (Z * string)) (p : Policy) : Prop :=
  NoDup meta ∧
  (∀ t i, (t, i) ∈ meta → typed t) ∧
  ∀ t i, typed t → (t, i) ∈ meta ↔ places (conversationMemberName t i) p ≠ [].

Lemma mirrors_add meta p t i r c : typed t → mirrors meta p →
  mirrors (if bool_decide ((t, i) ∈ meta) then meta else meta ++ [(t, i)]) (addMemberWithCondition (conversationMemberName t i) r c p).
Proof.
  intros Ht (Hn & Hty & Hm).
  assert (Hin : ∀ k, k ∈ (if bool_decide ((t, i) ∈ meta) then meta else meta ++ [(t, i)]) ↔ k ∈ meta ∨ k = (t, i)).
  { intros k. case_bool_decide; [naive_solver|]. by rewrite elem_of_app, list_elem_of_singleton. }
  split; [|split].
  - case_bool_decide; [done|]. apply NoDup_app. split; [done|]. split; [|apply NoDup_singleton].
    by intros k Hk ->%list_elem_of_singleton.
  - intros t' i' [Hk|[= -> ->]]%Hin; [by eapply Hty|done].
  - intros t' i' Ht'. rewrite Hin. destruct (decide ((t', i') = (t, i))) as [[= -> ->]|Hne].
    + split; [intros _; apply add_somewhere|by right].
    + rewrite add_other; [|by intros [-> ->]%name_inj]. rewrite <- Hm by done. tauto.
Qed.

(** A patch that leaves the member somewhere, or nowhere when the index forgets it. *)
Lemma mirrors_patch meta p t i r : typed t → distinct p → mirrors meta p →
  mirrors (if bool_decide ((t, i) ∈ meta) then meta else meta ++ [(t, i)])
    (applyIamPolicyPatch (conversationMemberName t i) [r] p).
Proof.
  intros Ht Hd (Hn & Hty & Hm). destruct (firsts_one r p) as (c & Hfs & _).
  assert (Hin : ∀ k, k ∈ (if bool_decide ((t, i) ∈ meta) then meta else meta ++ [(t, i)]) ↔ k ∈ meta ∨ k = (t, i)).
  { intros k. case_bool_decide; [naive_solver|]. by rewrite elem_of_app, list_elem_of_singleton. }
  split; [|split].
  - case_bool_decide; [done|]. apply NoDup_app. split; [done|]. split; [|apply NoDup_singleton].
    by intros k Hk ->%list_elem_of_singleton.
  - intros t' i' [Hk|[= -> ->]]%Hin; [by eapply Hty|done].
  - intros t' i' Ht'. rewrite Hin. destruct (decide ((t', i') = (t, i))) as [[= -> ->]|Hne].
    + rewrite patch_places, Hfs by done. split; [done|by right].
    + rewrite patch_other; [|by intros [-> ->]%name_inj]. rewrite <- Hm by done. tauto.
Qed.

Lemma mirrors_remove meta p t i : typed t → distinct p → mirrors meta p →
  mirrors (filter (λ k, k ≠ (t, i)) meta) (applyIamPolicyPatch (conversationMemberName t i) [] p).
Proof.
  intros Ht Hd (Hn & Hty & Hm). split; [by apply NoDup_filter|]. split.
  - intros t' i' [_ Hk]%list_elem_of_filter. by eapply Hty.
  - intros t' i' Ht'. rewrite list_elem_of_filter. destruct (decide ((t', i') = (t, i))) as [[= -> ->]|Hne].
    + rewrite patch_places, firsts_none by done. tauto.
    + rewrite patch_other; [|by intros [-> ->]%name_inj]. rewrite <- Hm by done. tauto.
Qed.

(** ** The roster *)

Lemma insert_all (ms : list string) (r : Z) (acc : gmap string Z) m :
  foldl (λ acc m, <[m := r]> acc) acc ms !! m = if bool_decide (m ∈ ms) then Some r else acc !! m.
Proof.
  revert acc. induction ms as [|x ms IH]; intros acc; simpl; [done|]. rewrite IH.
  destruct (decide (m ∈ ms)) as [Hin|Hin].
  - by rewrite !bool_decide_eq_true_2 by set_solver.
  - rewrite (bool_decide_eq_false_2 (m ∈ ms)) by done. destruct (decide (m = x)) as [->|Hne].
    + by rewrite lookup_insert_eq, bool_decide_eq_true_2 by set_solver.
    + by rewrite lookup_insert_ne, bool_decide_eq_false_2 by set_solver.
Qed.

(** The roster's role of a member is that of one of its places. *)
Lemma roleByMember_spec p m :
  match roleByMember p !! m with
  | Some r => r ≠ 0 ∧ ∃ pl, pl ∈ places m p ∧ conversationRoleFromName pl.1 = r
  | None => ∀ pl, pl ∈ places m p → conversationRoleFromName pl.1 = 0
  end.
Proof.
  unfold roleByMember. induction p as [|b p IH] using rev_ind; [simpl; rewrite lookup_empty; by intros pl ?%elem_of_nil|].
  rewrite foldl_app. simpl. rewrite places_app, places_cons. change (places m []) with (@nil place).
  rewrite app_nil_r. simpl.
  destruct (Z.eqb_spec (conversationRoleFromName (b_role b)) 0) as [Hz|Hz].
  - destruct (foldl _ _ p !! m) as [r|].
    + destruct IH as [Hr (pl & Hin & Hpl)]. split; [done|]. exists pl. split; [|done]. apply elem_of_app. by left.
    + intros pl [Hin|Hin]%elem_of_app; [by apply IH|]. case_bool_decide; [|by apply elem_of_nil in Hin].
      by apply list_elem_of_singleton in Hin as ->.
  - rewrite insert_all. case_bool_decide as Hm.
    + split; [done|]. exists (b_role b, b_condition b). split; [|done]. apply elem_of_app. right. by left.
    + by rewrite app_nil_r.
Qed.

Lemma firsts_skip r p b q : (∀ b', b' ∈ p → b_role b' ≠ r) → b_role b = r →
  firsts (remove_dups [r]) (p ++ b :: q) = [(r, b_condition b)].
Proof.
  assert (remove_dups [r] = [r]) as -> by reflexivity. intros Hp Hb. induction p as [|b' p IH]; simpl.
  - rewrite bool_decide_eq_true_2 by (rewrite Hb; by left). rewrite Hb. f_equal.
    rewrite filter_cons_False by (by intros H). simpl. clear. by induction q.
  - rewrite bool_decide_eq_false_2; [apply IH; set_solver|]. intros Hr%list_elem_of_singleton.
    by apply (Hp b'); [left|].
Qed.

(** ** The directory *)

Section keep.
(** The users, by id; their handles are their own, and none is empty. *)
Context (who : Z → option User).
Hypothesis who_id : ∀ id u, who id = Some u → u_id u = id ∧ id ≠ 0 ∧ u_handle u ≠ "".
Hypothesis handles_unique : ∀ id id' u u', who id = Some u → who id' = Some u' → u_handle u = u_handle u' → id = id'.

(** The directory answers from [who]. *)
Definition sees (d : Dir) : Prop :=
  (∀ id, e_user (d_env d) id = Ok (who id)) ∧
  ∀ h u, d_handle d h = Ok (Some u) → who (u_id u) = Some u ∧ u_handle u = h.

Definition known (caller : Caller) : Prop := ∀ u, by_user caller = Some u → who (u_id u) = Some u.

(** A channel: its owner is a user, the only one its policy makes owner, and its
    roster mirrors its policy. *)
Definition channel_ok (ch : Chat) (id : string) (c : Conversation) : Prop :=
  ∃ u, who (cv_owner c) = Some u ∧
    policy_ok (conversationMemberName MemberTypeUser (u_handle u)) (pol ch id) ∧ mirrors (cv_meta c) (pol ch id).

Definition chat_ok (ch : Chat) : Prop :=
  ∀ id c, ch_convs ch !! id = Some c → cv_type c = ConversationTypeChannel → channel_ok ch id c.

Lemma resolve_sees d id u : sees d → who id = Some u → resolveUserHandle d id = u_handle u.
Proof.
  intros [Hd _] Hw. unfold resolveUserHandle. destruct (who_id _ _ Hw) as (_ & H0 & _).
  rewrite (proj2 (Z.eqb_neq _ _) H0), Hd, Hw. done.
Qed.

(** *** One conversation is written *)

(** [ch'] differs from [ch] in the conversation [id] only. *)
Definition only (id : string) (ch ch' : Chat) : Prop :=
  (∀ id', id' ≠ id → ch_convs ch' !! id' = ch_convs ch !! id' ∧ pol ch' id' = pol ch id').

Lemma only_refl id ch : only id ch ch.
Proof. done. Qed.

Lemma only_trans id a b c : only id a b → only id b c → only id a c.
Proof. intros H1 H2 id' Hne. destruct (H1 id' Hne), (H2 id' Hne). split; congruence. Qed.

Lemma only_upsert id p ch : only id ch (upsertConversationPolicyTx id p ch).
Proof. intros id' Hne. rewrite pol_upsert. by rewrite decide_False. Qed.

Lemma only_alter id f ch : only id ch (set_convs (alter f id) ch).
Proof. intros id' Hne. split; [|done]. simpl. by rewrite lookup_alter_ne. Qed.

Lemma chat_ok_only id ch ch' : only id ch ch' → chat_ok ch →
  (∀ c, ch_convs ch' !! id = Some c → cv_type c = ConversationTypeChannel → channel_ok ch' id c) → chat_ok ch'.
Proof.
  intros Ho Hok Hid id' c Hc Ht. destruct (decide (id' = id)) as [->|Hne]; [by apply Hid|].
  destruct (Ho id' Hne) as [Hcv Hp]. rewrite Hcv in Hc. destruct (Hok id' c Hc Ht) as (u & Hw & Hpo & Hmi).
  exists u. rewrite Hp. done.
Qed.

(** Cursors are not looked at. *)
Lemma chat_ok_same ch ch' : ch_convs ch' = ch_convs ch → ch_policies ch' = ch_policies ch → chat_ok ch → chat_ok ch'.
Proof.
  intros Hc Hp Hok id c Hid Ht. rewrite Hc in Hid. destruct (Hok id c Hid Ht) as (u & H).
  exists u. unfold pol, getConversationPolicyForUpdate. by rewrite Hp.
Qed.

(** *** The handlers *)

Lemma call_ok {A} d name (r r' : A) : call d name r = Ok r' → r' = r.
Proof. unfold call. by destruct (d_fails d name) as [x|]; intros [=]. Qed.

Lemma internal_ok {A} (r : res string A) a : internal r = Ok a → r = Ok a.
Proof. destruct r as [a'|x]; [by intros [= ->]|done]. Qed.

Lemma then_ok {A B} (r : res failure A) (k : A → res failure B) b : then_ r k = Ok b → ∃ a, r = Ok a ∧ k a = Ok b.
Proof. destruct r; [eauto|done]. Qed.

Lemma load_ok d ch name id c : load d ch name = Ok (id, c) → ch_convs ch !! id = Some c.
Proof.
  unfold load, GetConversation. destruct (parseConversationID d name) as [id'|]; [|done].
  destruct (d_fails d "GetConversation"); [done|]. destruct (ch_convs ch !! id') eqn:Hc; [|done]. by intros [= <- <-].
Qed.

Lemma membership_ok d ch id t i role ty : conversationMembership d ch id t i = Ok (role, ty) →
  role = place_role (places (conversationMemberName t i) (pol ch id)) ∧ ∃ c, ch_convs ch !! id = Some c.
Proof.
  unfold conversationMembership. destruct (ch_convs ch !! id) as [c|]; [|done].
  intros [= -> ->]%call_ok. split; [apply policy_role_places|eauto].
Qed.

Lemma no_role_nowhere owner p m : policy_ok owner p → place_role (places m p) = 0 → places m p = [].
Proof.
  intros Hok. pose proof (po_chat _ _ Hok m) as Hc. unfold place_role. destruct (places m p) as [|pl ps]; [done|].
  simpl. pose proof (Hc pl (list_elem_of_here _ _)) as Hpl. apply Z.eqb_neq in Hpl. rewrite Hpl. simpl.
  by apply Z.eqb_neq in Hpl.
Qed.

Lemma add_input_convs d id ch m : ch_convs (add_input d id ch m) !! id =
  set_meta (λ l, if bool_decide ((in_type m, in_id m) ∈ l) then l else l ++ [(in_type m, in_id m)]) <$> ch_convs ch !! id.
Proof. simpl. by rewrite lookup_alter_eq. Qed.

Lemma add_input_pol d id ch m : pol (add_input d id ch m) id =
  addMemberWithCondition (conversationMemberName (in_type m) (in_id m)) memberRole (memberExpirationCondition d (in_expire m)) (pol ch id).
Proof.
  unfold add_input, addConversationMemberTx. change (pol (upsertConversationMemberMetaTx ?a ?b ?c ?x) id) with (pol x id).
  unfold addConversationMemberWithConditionTx. rewrite pol_upsert. by rewrite decide_True.
Qed.

Lemma pol_patch id t i roles ch : pol (patchConversationMemberRolesTx id t i roles ch) id =
  applyIamPolicyPatch (conversationMemberName t i) roles (pol ch id).
Proof. unfold patchConversationMemberRolesTx. by rewrite pol_upsert, decide_True. Qed.

Lemma pol_meta id t i ch : pol (upsertConversationMemberMetaTx id t i ch) id = pol ch id.
Proof. done. Qed.

Lemma add_input_only d id ch m : only id ch (add_input d id ch m).
Proof. eapply only_trans; [apply only_upsert|apply only_alter]. Qed.

(** The members of a batch are not in the channel, or were put there by it. *)
Definition addable (ch : Chat) (id : string) (m : ConversationMemberInput) : Prop :=
  typed (in_type m) ∧ ∀ pl, pl ∈ places (conversationMemberName (in_type m) (in_id m)) (pol ch id) → pl.1 = memberRole.

Lemma addable_kept d id ch m m' : addable ch id m → addable ch id m' → addable (add_input d id ch m) id m'.
Proof.
  intros [Ht Hm] [Ht' Hm']. split; [done|]. intros pl. rewrite add_input_pol.
  destruct (decide (conversationMemberName (in_type m') (in_id m') = conversationMemberName (in_type m) (in_id m))) as [->|Hne].
  - rewrite add_places. intros [[Hin _]| ->]; [by apply Hm|done].
  - rewrite add_other by done. apply Hm'.
Qed.

Lemma add_input_ok d id ch m : addable ch id m → chat_ok ch → chat_ok (add_input d id ch m).
Proof.
  intros [Ht Hm] Hok. eapply chat_ok_only; [apply add_input_only|done|]. intros c'. rewrite add_input_convs.
  intros (c & Hc & ->)%fmap_Some Hty. destruct (Hok id c Hc Hty) as (u & Hw & Hp & Hmi).
  exists u. split; [done|]. rewrite add_input_pol. split; [by apply policy_ok_add|]. simpl. by apply mirrors_add.
Qed.

Lemma AddConversationMembers_ok d id ch ch' inputs : AddConversationMembers d id inputs ch = Ok ch' →
  Forall (addable ch id) inputs → chat_ok ch → chat_ok ch'.
Proof.
  intros ->%call_ok. revert ch. induction inputs as [|m inputs IH]; intros ch Hf Hok; simpl; [done|].
  apply Forall_cons in Hf as [Hm Hf]. apply IH; [|by apply add_input_ok].
  apply (Forall_impl _ _ _ Hf). intros m' Hm'. by apply addable_kept.
Qed.

Lemma seed_ok d agentID id ch ch' : SeedCursorOnJoin d agentID id ch = Ok ch' → chat_ok ch → chat_ok ch'.
Proof.
  unfold SeedCursorOnJoin. destruct (ch_convs ch !! id); [|done]. intros ->%call_ok. by apply chat_ok_same.
Qed.

Lemma seed_agents_ok d id inputs ch : chat_ok ch → chat_ok (foldl (seed_agent d id) ch inputs).
Proof.
  revert ch. induction inputs as [|m inputs IH]; intros ch Hok; simpl; [done|]. apply IH. unfold seed_agent.
  destruct (_ =? _); [|done]. destruct (d_agent d (in_id m)) as [[a|]|]; [|done..].
  destruct (SeedCursorOnJoin d (ag_id a) id ch) eqn:Hs; [by eapply seed_ok|done].
Qed.

(** What the loop of AddChannelMember collects: members without a role. *)
Definition fresh (ch : Chat) (id : string) (m : ConversationMemberInput) : Prop :=
  typed (in_type m) ∧ policy_role (pol ch id) (conversationMemberName (in_type m) (in_id m)) = 0.

Definition names_principal (m : AddRequest) : Prop := ad_group m ≠ "" ∨ typed (ad_type m).

Lemma fresh_of_membership d ch id t i role ty : typed t → conversationMembership d ch id t i = Ok (role, ty) → role = 0 →
  ∀ e, fresh ch id (MkInput t i e).
Proof. intros Ht [Hr _]%membership_ok -> e. split; [done|]. simpl. rewrite policy_role_places. done. Qed.

Lemma snapshot_group_fresh d ch id oh e members acc acc' : snapshot_group d ch id oh e acc members = Ok acc' →
  Forall (fresh ch id) acc.2 → Forall (fresh ch id) acc'.2.
Proof.
  revert acc. induction members as [|gm members IH]; intros acc; simpl; [by intros [= <-]|].
  intros (acc1 & H1 & H2)%then_ok Hf. apply (IH _ H2). unfold snapshot_member in H1.
  destruct (GetUserHandle gm) as [h|]; [|by injection H1 as <-]. destruct (_ || _); [by injection H1 as <-|].
  apply then_ok in H1 as ([role ty] & Hm%internal_ok & H1).
  destruct (Z.eqb_spec role 0) as [Hr|]; simpl in H1; [|by injection H1 as <-].
  apply then_ok in H1 as (u & _ & H1). destruct (validateChannelUserMember u); injection H1 as <-; [|done].
  apply Forall_app. split; [done|]. apply Forall_singleton. eapply fresh_of_membership; [by left|done|done].
Qed.

Lemma add_request_fresh d ch caller id oh acc m acc' : add_request d ch caller id oh acc m = Ok acc' →
  names_principal m → Forall (fresh ch id) acc.2 → Forall (fresh ch id) acc'.2.
Proof.
  intros Ha Hn Hf. unfold add_request in Ha. destruct (match ad_expire m with Some t => _ | None => false end); [done|].
  destruct (String.eqb_spec (ad_group m) "") as [Hg|Hg]; simpl in Ha.
  - destruct Hn as [?|Ht]; [done|]. unfold add_single in Ha.
    destruct (bool_decide _); [done|]. destruct (_ && _); [done|].
    apply then_ok in Ha as ([role ty] & Hm%internal_ok & Ha). destruct (Z.eqb_spec role 0) as [Hr|]; [|done]. simpl in Ha.
    apply then_ok in Ha as (? & _ & Ha). apply then_ok in Ha as (? & _ & Ha). injection Ha as <-. simpl.
    apply Forall_app. split; [done|]. apply Forall_singleton. by eapply fresh_of_membership.
  - destruct (_ || _); [done|]. destruct (e_group (d_env d) (ad_group m)) as [[ms|]|]; [|done..].
    by eapply snapshot_group_fresh.
Qed.

Lemma add_requests_fresh d ch caller id oh ms acc acc' : add_requests d ch caller id oh acc ms = Ok acc' →
  Forall names_principal ms → Forall (fresh ch id) acc.2 → Forall (fresh ch id) acc'.2.
Proof.
  revert acc. induction ms as [|m ms IH]; intros acc; simpl; [by intros [= <-]|].
  intros (acc1 & H1 & H2)%then_ok [Hm Hms]%Forall_cons Hf. eapply IH; [done..|]. by eapply add_request_fresh.
Qed.

Lemma batch_shape d id ch inputs : only id ch (foldl (add_input d id) ch inputs) ∧
  cv_type <$> (ch_convs (foldl (add_input d id) ch inputs) !! id) = cv_type <$> (ch_convs ch !! id).
Proof.
  revert ch. induction inputs as [|m inputs IH]; intros ch; simpl; [done|].
  destruct (IH (add_input d id ch m)) as [H1 H2]. split; [eapply only_trans; [apply add_input_only|done]|].
  rewrite H2, add_input_convs. by destruct (ch_convs ch !! id).
Qed.

Lemma chat_ok_other id ch ch' : only id ch ch' → chat_ok ch →
  (∀ c, ch_convs ch' !! id = Some c → cv_type c ≠ ConversationTypeChannel) → chat_ok ch'.
Proof. intros Ho Hok Hne. eapply chat_ok_only; [done..|]. intros c Hc Ht. by apply Hne in Hc. Qed.

Lemma add_batch_ok d id ch ch' c inputs : ch_convs ch !! id = Some c → AddConversationMembers d id inputs ch = Ok ch' →
  Forall (fresh ch id) inputs → chat_ok ch → chat_ok ch'.
Proof.
  intros Hc Ha Hf Hok. destruct (decide (cv_type c = ConversationTypeChannel)) as [Ht|Ht].
  - destruct (Hok id c Hc Ht) as (u & Hw & Hp & _). eapply AddConversationMembers_ok; [done| |done].
    apply (Forall_impl _ _ _ Hf). intros m [Hty Hr]. split; [done|].
    rewrite policy_role_places in Hr. rewrite (no_role_nowhere _ _ _ Hp Hr). by intros pl ?%elem_of_nil.
  - apply call_ok in Ha as ->. destruct (batch_shape d id ch inputs) as [Ho Hty].
    eapply chat_ok_other; [done..|]. intros c' Hc'. rewrite Hc, Hc' in Hty. by injection Hty as ->.
Qed.

Lemma AddChannelMember_ok d caller name ms ch ch' inputs : AddChannelMember d caller name ms ch = Ok (ch', inputs) →
  Forall names_principal ms → chat_ok ch → chat_ok ch'.
Proof.
  unfold AddChannelMember. intros ([id c] & Hl%load_ok & H)%then_ok Hn Hok. destruct ms as [|m ms]; [done|].
  apply then_ok in H as ([seen inp] & Hi & H).
  pose proof (add_requests_fresh _ _ _ _ _ _ _ _ Hi Hn (Forall_nil_2 _)) as Hf. simpl in Hf.
  destruct inp as [|i inp]; [by injection H as <- _|].
  apply then_ok in H as (ch1 & H1%internal_ok & H). injection H as <- _.
  apply (seed_agents_ok d id (i :: inp)). by eapply add_batch_ok.
Qed.

(** A member other than the owner is taken out. *)
Lemma remove_ok d id c t i ch ch' : ch_convs ch !! id = Some c → typed t →
  (∀ u, who (cv_owner c) = Some u → (t, i) ≠ (MemberTypeUser, u_handle u)) →
  RemoveConversationMember d id t i ch = Ok ch' → chat_ok ch → chat_ok ch'.
Proof.
  intros Hc Ht Hne ->%call_ok Hok. eapply chat_ok_only; [eapply only_trans; [apply only_upsert|apply only_alter]|done|].
  simpl. rewrite lookup_alter_eq, Hc. intros c' [= <-] Hty. destruct (Hok id c Hc Hty) as (u & Hw & Hp & Hmi).
  exists u. split; [done|]. unfold deleteConversationMemberMetaTx.
  change (pol (set_convs ?f ?x) id) with (pol x id). unfold patchConversationMemberRolesTx.
  rewrite pol_upsert, decide_True by done. split; [|apply mirrors_remove; [done|apply Hp|done]].
  apply policy_ok_remove; [|done]. intros [-> ->]%name_inj; [|done|by left]. by apply (Hne u).
Qed.

Lemma RemoveChannelMember_ok d name t i ch ch' : sees d → typed t → RemoveChannelMember d name t i ch = Ok ch' →
  chat_ok ch → chat_ok ch'.
Proof.
  unfold RemoveChannelMember. intros Hs Ht ([id c] & Hl%load_ok & H)%then_ok Hok.
  destruct (_ && _) eqn:Hg in H; [done|]. apply internal_ok in H. eapply remove_ok; [done..| |done|done].
  intros u Hw [= -> ->]. by rewrite (resolve_sees _ _ _ Hs Hw), String.eqb_refl in Hg.
Qed.

Lemma LeaveChannel_ok d caller name ch ch' : sees d → known caller → LeaveChannel d caller name ch = Ok ch' →
  chat_ok ch → chat_ok ch'.
Proof.
  unfold LeaveChannel. intros Hs Hk ([id c] & Hl%load_ok & H)%then_ok Hok. destruct (negb _); [done|].
  destruct (callerMemberInfo _ _) as [[t i]|] eqn:Hi; [|done].
  destruct (requireChannelOwner caller c) eqn:Ho; [done|].
  apply then_ok in H as ([role ty] & _ & H). destruct (role =? 0); [done|]. apply internal_ok in H.
  assert (Hti : typed t ∧ ∀ u, who (cv_owner c) = Some u → (t, i) ≠ (MemberTypeUser, u_handle u)).
  { unfold requireChannelOwner in Ho. destruct (by_user caller) as [u|] eqn:Hu; simpl in Hi.
    - injection Hi as <- <-. split; [by left|]. intros o Hw [= Hh]. apply Hk in Hu.
      pose proof (handles_unique _ _ _ _ Hu Hw Hh) as Hid. destruct (who_id _ _ Hw) as [Hio _].
      apply Z.eqb_neq in Ho. congruence.
    - destruct (by_agent caller) as [a|]; [|done]. injection Hi as <- <-. by split; [right|]. }
  eapply remove_ok; [done|apply Hti|apply Hti|done|done].
Qed.

Lemma UpdateChannelMemberRole_ok d caller name t i role ch ch' : sees d → typed t →
  UpdateChannelMemberRole d caller name t i role ch = Ok ch' → chat_ok ch → chat_ok ch'.
Proof.
  unfold UpdateChannelMemberRole. intros Hs Ht ([id c] & Hl%load_ok & H)%then_ok Hok.
  destruct (negb (cv_type c =? _)); [done|]. destruct (negb (requireChannelOwner _ _)); [done|].
  destruct (_ && _) eqn:Hr in H; [done|]. destruct (_ && _) eqn:Hg in H; [done|].
  apply then_ok in H as ([r ty] & _ & H). destruct (r =? 0); [done|]. apply internal_ok in H.
  unfold UpdateConversationMemberRole in H. cbv zeta in H. destruct (negb _) in H; [done|]. apply call_ok in H as ->.
  eapply chat_ok_only; [eapply only_trans; [apply only_upsert|apply only_alter]|done|].
  simpl. rewrite lookup_alter_eq, Hl. intros c' [= <-] Hty. destruct (Hok id c Hl Hty) as (u & Hw & Hp & Hmi).
  exists u. split; [done|]. unfold upsertConversationMemberMetaTx.
  change (pol (set_convs ?f ?x) id) with (pol x id). rewrite pol_upsert, decide_True by done.
  split; [|apply mirrors_patch; [done|apply Hp|done]]. apply policy_ok_update; [| |done].
  - intros [-> ->]%name_inj; [|done|by left]. by rewrite (resolve_sees _ _ _ Hs Hw), String.eqb_refl in Hg.
  - apply andb_false_iff in Hr. rewrite !negb_false_iff, !Z.eqb_eq in Hr. by destruct Hr as [-> | ->].
Qed.

(** A transfer that goes through: by the owner, to another registered user. *)
Lemma transfer_inv d caller name t i ch ch' : TransferChannelOwnership d caller name t i ch = Ok ch' →
  ∃ id c new, ch_convs ch !! id = Some c ∧ cv_type c = ConversationTypeChannel ∧ requireChannelOwner caller c = true ∧
    d_handle d i = Ok (Some new) ∧ u_handle new ≠ resolveUserHandle d (cv_owner c) ∧
    transfer_ownership d id (resolveUserHandle d (cv_owner c)) (u_handle new) (u_id new) ch = Ok ch'.
Proof.
  unfold TransferChannelOwnership. intros ([id c] & Hl%load_ok & H)%then_ok.
  destruct (Z.eqb_spec (cv_type c) ConversationTypeChannel) as [Hty|]; simpl in H; [|done].
  destruct (requireChannelOwner caller c) eqn:Ho; simpl in H; [|done]. destruct (negb _); [done|].
  destruct (d_handle d i) as [[new|]|] eqn:Hn; [|done..].
  destruct (String.eqb_spec (u_handle new) (resolveUserHandle d (cv_owner c))) as [|Hne]; [done|].
  apply then_ok in H as ([r ty] & _ & H). destruct (r =? 0); [done|].
  apply then_ok in H as (ch1 & H1%internal_ok & H). apply then_ok in H as (? & _ & [= ->]).
  by exists id, c, new.
Qed.

(** What it writes of the conversation. *)
Lemma transfer_writes d id old new newID ch ch' c : transfer_ownership d id old new newID ch = Ok ch' →
  ch_convs ch !! id = Some c →
  let add t i l := if bool_decide ((t, i) ∈ l) then l else l ++ [(t, i)] in
  only id ch ch' ∧
  ch_convs ch' !! id = Some (MkConv (cv_type c) newID (cv_title c) (cv_archived c) (cv_version c)
                               (add MemberTypeUser new (add MemberTypeUser old (cv_meta c)))) ∧
  pol ch' id = applyIamPolicyPatch (conversationMemberName MemberTypeUser new) [ownerRole]
                 (applyIamPolicyPatch (conversationMemberName MemberTypeUser old) [memberRole] (pol ch id)).
Proof.
  intros ->%call_ok Hc. split; [|split].
  - repeat (eapply only_trans; [|first [apply only_alter|apply only_upsert]]). apply only_refl.
  - simpl. by rewrite !lookup_alter_eq, Hc.
  - by rewrite !pol_meta, !pol_patch.
Qed.

Lemma TransferChannelOwnership_ok d caller name t i ch ch' : sees d →
  TransferChannelOwnership d caller name t i ch = Ok ch' → chat_ok ch → chat_ok ch'.
Proof.
  intros Hs (id & c & new & Hl & Hty & _ & Hn & Hne & H)%transfer_inv Hok. apply (proj2 Hs) in Hn as [Hnew Hh].
  destruct (Hok id c Hl Hty) as (u & Hw & Hp & Hmi). rewrite (resolve_sees _ _ _ Hs Hw) in *.
  destruct (transfer_writes _ _ _ _ _ _ _ _ H Hl) as (Ho & Hc' & Hpol).
  destruct (policy_ok_transfer (conversationMemberName MemberTypeUser (u_handle u))
              (conversationMemberName MemberTypeUser (u_handle new)) (pol ch id)) as (Hp' & _); [|done|].
  { by intros ?%user_name_inj. }
  eapply (chat_ok_only id ch); [done..|]. rewrite Hc'. intros c' [= <-] _. exists new. split; [done|].
  rewrite Hpol. split; [done|].
  apply mirrors_patch; [by left|by apply distinct_patch; apply Hp|]. apply mirrors_patch; [by left|apply Hp|done].
Qed.

Lemma JoinChannel_ok d caller name ch ch' : JoinChannel d caller name ch = Ok ch' → chat_ok ch → chat_ok ch'.
Proof.
  unfold JoinChannel. destruct (by_agent caller) as [a|]; [|done]. intros ([id c] & Hl%load_ok & H)%then_ok Hok.
  destruct (negb _); [done|]. apply then_ok in H as (m & Hm%internal_ok%call_ok & H).
  destruct m; [by injection H as <-|]. apply then_ok in H as (ch1 & H1%internal_ok & H).
  assert (Hok1 : chat_ok ch1).
  { eapply AddConversationMembers_ok; [done| |done]. apply Forall_singleton. split; [by right|]. simpl.
    symmetry in Hm. apply not_true_iff_false in Hm. rewrite policyContainsMember_spec in Hm.
    apply dec_stable in Hm. unfold pol. rewrite Hm. by intros pl ?%elem_of_nil. }
  destruct (SeedCursorOnJoin d (ag_id a) id ch1) eqn:Hs; injection H as <-; [by eapply seed_ok|done].
Qed.

(** A fresh id: nothing is stored under it, and no policy is left of an earlier
    conversation. *)
Definition unused (ch : Chat) (id : string) : Prop :=
  ch_convs ch !! id = None ∧ ch_policies ch !! conversationPolicyResource id = None.

Lemma CreateChannel_ok d caller id title ch ch' : sees d → known caller → unused ch id →
  CreateChannel d caller id title ch = Ok ch' → chat_ok ch → chat_ok ch'.
Proof.
  unfold CreateChannel. intros Hs Hk [Hu1 Hu2] H Hok. destruct (String.eqb title ""); [done|].
  destruct (by_user caller) as [u|] eqn:Hu; [|done]. apply Hk in Hu. apply internal_ok in H. unfold create_channel in H.
  unfold userMemberHandle in H. rewrite (proj1 Hs), Hu in H. apply call_ok in H as ->.
  eapply (chat_ok_same (addConversationMemberTx d id MemberTypeUser (u_handle u) MemberRoleOwner None
    (set_convs <[id := MkConv ConversationTypeChannel (u_id u) title false 1 []]> ch))); [done..|].
  eapply (chat_ok_only id ch); [|done|].
  - repeat (eapply only_trans; [|first [apply only_alter|apply only_upsert]]).
    intros id' Hne. split; [|done]. simpl. by rewrite lookup_insert_ne.
  - simpl. rewrite lookup_alter_eq, lookup_insert_eq. intros c [= <-] _. exists u. split; [done|].
    assert (Hpol : pol (addConversationMemberTx d id MemberTypeUser (u_handle u) MemberRoleOwner None
      (set_convs <[id := MkConv ConversationTypeChannel (u_id u) title false 1 []]> ch)) id =
      addMemberWithCondition (conversationMemberName MemberTypeUser (u_handle u)) ownerRole None []).
    { unfold addConversationMemberTx. rewrite pol_meta. unfold addConversationMemberWithConditionTx.
      rewrite pol_upsert, decide_True by done. unfold getConversationPolicyForUpdate. simpl. by rewrite Hu2. }
    rewrite Hpol. split; [apply policy_ok_create|]. simpl.
    apply (mirrors_add [] []); [by left|]. split; [constructor|]. split; [by intros t i ?%elem_of_nil|].
    intros t i _. split; [by intros ?%elem_of_nil|done].
Qed.

Lemma DeleteChannel_ok d caller name ch ch' : DeleteChannel d caller name ch = Ok ch' → chat_ok ch → chat_ok ch'.
Proof.
  unfold DeleteChannel. intros ([id c] & Hl%load_ok & H)%then_ok Hok. destruct (negb _); [done|].
  apply internal_ok, call_ok in H as ->. intros id' c' Hc'. simpl in Hc'.
  apply lookup_delete_Some in Hc' as [_ Hc']. by apply Hok.
Qed.

(** The archive flag and the title are not looked at. *)
Lemma alter_ok f id ch : (∀ c, cv_type (f c) = cv_type c ∧ cv_owner (f c) = cv_owner c ∧ cv_meta (f c) = cv_meta c) →
  chat_ok ch → chat_ok (set_convs (alter f id) ch).
Proof.
  intros Hf Hok. eapply chat_ok_only; [apply only_alter|done|]. intros c'. simpl. rewrite lookup_alter_eq.
  intros (c & Hc & ->)%fmap_Some Ht. destruct (Hf c) as (Hty & Ho & Hm). rewrite Hty in Ht.
  destruct (Hok id c Hc Ht) as (u & Hw & Hp & Hmi). exists u. by rewrite Ho, Hm.
Qed.

(** *** Any sequence of requests *)

(** A request the manager serves, and the tables it leaves: its directory answers
    from [who], its caller is registered, and it names users and agents (or groups). *)
Inductive request : Chat → Chat → Prop :=
| req_create d caller id title ch ch' : sees d → known caller → unused ch id →
    CreateChannel d caller id title ch = Ok ch' → request ch ch'
| req_add d caller name ms ch ch' inputs : sees d → Forall names_principal ms →
    AddChannelMember d caller name ms ch = Ok (ch', inputs) → request ch ch'
| req_remove d name t i ch ch' : sees d → typed t → RemoveChannelMember d name t i ch = Ok ch' → request ch ch'
| req_transfer d caller name t i ch ch' : sees d → TransferChannelOwnership d caller name t i ch = Ok ch' → request ch ch'
| req_role d caller name t i role ch ch' : sees d → typed t →
    UpdateChannelMemberRole d caller name t i role ch = Ok ch' → request ch ch'
| req_leave d caller name ch ch' : sees d → known caller → LeaveChannel d caller name ch = Ok ch' → request ch ch'
| req_join d caller name ch ch' : JoinChannel d caller name ch = Ok ch' → request ch ch'
| req_delete d caller name ch ch' : DeleteChannel d caller name ch = Ok ch' → request ch ch'
| req_archive d caller name archived ch ch' : setChannelArchived d caller name archived ch = Ok ch' → request ch ch'
| req_title d name title ch ch' : UpdateChannel d name title ch = Ok ch' → request ch ch'.

Lemma request_ok ch ch' : request ch ch' → chat_ok ch → chat_ok ch'.
Proof.
  intros [].
  - by eapply CreateChannel_ok.
  - by eapply AddChannelMember_ok.
  - by eapply RemoveChannelMember_ok.
  - by eapply TransferChannelOwnership_ok.
  - by eapply UpdateChannelMemberRole_ok.
  - by eapply LeaveChannel_ok.
  - by eapply JoinChannel_ok.
  - by eapply DeleteChannel_ok.
  - unfold setChannelArchived in *. match goal with H : then_ _ _ = Ok _ |- _ => apply then_ok in H as ([id c] & _ & H);
      destruct (negb _) in H; [done|]; apply internal_ok, call_ok in H as -> end. by apply alter_ok.
  - unfold UpdateChannel in *. destruct (parseConversationID d name) as [id|]; [|done]. destruct (String.eqb title ""); [done|].
    destruct (ch_convs ch0 !! id); [|done].
    match goal with H : internal _ = Ok _ |- _ => apply internal_ok, call_ok in H as -> end. by apply alter_ok.
Qed.

Definition no_chat : Chat := MkChat ∅ ∅ ∅ ∅.

Lemma reachable_ok ch : rtc request no_chat ch → chat_ok ch.
Proof.
  intros Hr. assert (H0 : chat_ok no_chat) by (intros id' c' Hc; simpl in Hc; by rewrite lookup_empty in Hc).
  induction Hr as [|x y z Hxy _ IH]; [done|]. by eapply IH, request_ok.
Qed.

(** C8: over any sequence of membership requests that name users, agents or
    groups, every channel keeps exactly one owner, the owner of record: its policy
    makes him owner and nobody else; nobody has two roles; and the roster
    ([conversation_member_meta]) lists exactly who the policy lists. *)
Theorem channel_keeps_one_owner ch id c : rtc request no_chat ch →
  ch_convs ch !! id = Some c → cv_type c = ConversationTypeChannel → channel_ok ch id c.
Proof.
  intros Hr. by apply reachable_ok.
Qed.

(** *** What the single requests do *)

Lemma owner_place owner p : policy_ok owner p → place_role (places owner p) = MemberRoleOwner.
Proof.
  intros Hp. destruct (proj2 (po_owner _ _ Hp owner) eq_refl) as (c & Hin).
  unfold place_role. destruct (places owner p) as [|pl ps] eqn:Hpl; [by apply elem_of_nil in Hin|].
  assert (pl = (ownerRole, c)) as -> by (eapply (po_single _ _ Hp owner); rewrite Hpl; [by left|done]). done.
Qed.

(** A transfer moves the ownership and nothing else: the owner of record is
    the new owner, who has the owner's role, the old owner is a member, and
    everybody else keeps the role he had. *)
Theorem transfer_moves_ownership d caller name t i ch ch' : sees d → known caller → chat_ok ch →
  TransferChannelOwnership d caller name t i ch = Ok ch' →
  ∃ id c c' old new, ch_convs ch !! id = Some c ∧ ch_convs ch' !! id = Some c' ∧
    who (cv_owner c) = Some old ∧ by_user caller = Some old ∧
    d_handle d i = Ok (Some new) ∧ cv_owner c' = u_id new ∧
    let role ch m := policy_role (pol ch id) m in
    role ch' (conversationMemberName MemberTypeUser (u_handle new)) = MemberRoleOwner ∧
    role ch' (conversationMemberName MemberTypeUser (u_handle old)) = MemberRoleMember ∧
    ∀ m, m ≠ conversationMemberName MemberTypeUser (u_handle new) →
         m ≠ conversationMemberName MemberTypeUser (u_handle old) → role ch' m = role ch m.
Proof.
  intros Hs Hk Hok (id & c & new & Hl & Hty & Ho & Hn & Hne & H)%transfer_inv.
  destruct (Hok id c Hl Hty) as (old & Hw & Hp & Hmi). rewrite (resolve_sees _ _ _ Hs Hw) in *.
  destruct (transfer_writes _ _ _ _ _ _ _ _ H Hl) as (_ & Hc' & Hpol).
  destruct (policy_ok_transfer (conversationMemberName MemberTypeUser (u_handle old))
              (conversationMemberName MemberTypeUser (u_handle new)) (pol ch id)) as (_ & Hnp & Hop); [|done|].
  { by intros ?%user_name_inj. }
  eexists id, c, _, old, new. split; [done|]. split; [exact Hc'|]. split; [done|].
  split. { unfold requireChannelOwner in Ho. destruct (by_user caller) as [u|] eqn:Hu; [|done].
    apply Hk in Hu. apply Z.eqb_eq in Ho. congruence. }
  split; [done|]. split; [done|]. cbv beta zeta. rewrite !policy_role_places, Hpol, Hnp, Hop.
  split; [done|]. split; [by destruct (firsts_one memberRole (pol ch id)) as (cnd & -> & _)|].
  intros m Hmn Hmo. rewrite !policy_role_places. by rewrite !patch_other.
Qed.

Lemma seed_agents_pol d id inputs ch id' : pol (foldl (seed_agent d id) ch inputs) id' = pol ch id'.
Proof.
  revert ch. induction inputs as [|m inputs IH]; intros ch; simpl; [done|]. rewrite IH. unfold seed_agent.
  destruct (_ =? _); [|done]. destruct (d_agent d (in_id m)) as [[a|]|]; [|done..].
  unfold SeedCursorOnJoin. destruct (ch_convs ch !! id); [|done]. unfold call. by destruct (d_fails d _).
Qed.

Definition input_name (i : ConversationMemberInput) : string := conversationMemberName (in_type i) (in_id i).

Lemma batch_others d id inputs ch m : (∀ i, i ∈ inputs → m ≠ input_name i) →
  places m (pol (foldl (add_input d id) ch inputs) id) = places m (pol ch id).
Proof.
  revert ch. induction inputs as [|i inputs IH]; intros ch Hm; simpl; [done|].
  rewrite IH by (intros j Hj; apply Hm; by right). rewrite add_input_pol. apply add_other. apply Hm. by left.
Qed.

Lemma batch_members d id inputs ch i : Forall (addable ch id) inputs → addable ch id i →
  i ∈ inputs ∨ places (input_name i) (pol ch id) ≠ [] →
  addable (foldl (add_input d id) ch inputs) id i ∧ places (input_name i) (pol (foldl (add_input d id) ch inputs) id) ≠ [].
Proof.
  revert ch. induction inputs as [|j inputs IH]; intros ch Hf Hi Hin; simpl.
  - destruct Hin as [Hin|]; [by apply elem_of_nil in Hin|done].
  - apply Forall_cons in Hf as [Hj Hf]. apply IH.
    + apply (Forall_impl _ _ _ Hf). intros k Hk. by apply addable_kept.
    + by apply addable_kept.
    + destruct Hin as [[->|Hin]%elem_of_cons|Hne]; [right|by left|right]; rewrite add_input_pol; [apply add_somewhere|].
      destruct (decide (input_name i = input_name j)) as [Heq|Hij].
      * fold (input_name j). rewrite Heq. apply add_somewhere.
      * by rewrite add_other.
Qed.

Lemma member_places_role ps : ps ≠ [] → (∀ pl : place, pl ∈ ps → pl.1 = memberRole) → place_role ps = MemberRoleMember.
Proof.
  destruct ps as [|[r c] ps]; [done|]. intros _ Hall. pose proof (Hall _ (list_elem_of_here _ _)) as Hr.
  simpl in Hr. subst r. reflexivity.
Qed.

(** Adding members never changes the role of somebody who had one: an owner,
    an admin or a member named again, alone or in a group, keeps it; and everybody
    who is added is a member. *)
Theorem add_keeps_roles d caller name ms ch ch' inputs : chat_ok ch → Forall names_principal ms →
  AddChannelMember d caller name ms ch = Ok (ch', inputs) →
  ∃ id c, ch_convs ch !! id = Some c ∧
    (∀ m, policy_role (pol ch id) m ≠ 0 → policy_role (pol ch' id) m = policy_role (pol ch id) m) ∧
    (cv_type c = ConversationTypeChannel → ∀ i, i ∈ inputs → policy_role (pol ch' id) (input_name i) = MemberRoleMember).
Proof using Type.
  intros Hok Hn H. unfold AddChannelMember in H. apply then_ok in H as ([id c] & Hl%load_ok & H). exists id, c. split; [done|].
  destruct ms as [|m0 ms]; [done|]. apply then_ok in H as ([seen inp] & Hi & H).
  pose proof (add_requests_fresh _ _ _ _ _ _ _ _ Hi Hn (Forall_nil_2 _)) as Hf. simpl in Hf.
  destruct inp as [|i0 inp0]; [injection H as <- <-; split; [done|]; by intros _ i ?%elem_of_nil|].
  remember (i0 :: inp0) as inp. clear Heqinp i0 inp0.
  apply then_ok in H as (ch1 & ->%internal_ok%call_ok & H). injection H as <- <-. setoid_rewrite seed_agents_pol. split.
  - intros m Hm. rewrite !policy_role_places. rewrite batch_others; [done|]. intros i Hin ->.
    rewrite Forall_forall in Hf. by destruct (Hf i Hin).
  - intros Ht i Hin. destruct (Hok id c Hl Ht) as (u & _ & Hp & _).
    assert (Hadd : Forall (addable ch id) inp).
    { apply (Forall_impl _ _ _ Hf). intros m [Hty Hr]. split; [done|].
      rewrite policy_role_places in Hr. rewrite (no_role_nowhere _ _ _ Hp Hr). by intros pl ?%elem_of_nil. }
    destruct (batch_members d id inp ch i Hadd) as [[_ Hall] Hne]; [by eapply Forall_forall in Hadd|by left|].
    rewrite policy_role_places. by apply member_places_role.
Qed.

(** The roster of a channel ([ListConversationMembers]) lists each user and
    agent with the role the access checks read, and lists nobody else. *)
Theorem roster_lists_roles ch id c t i r : chat_ok ch → ch_convs ch !! id = Some c →
  cv_type c = ConversationTypeChannel → typed t →
  (t, i, r) ∈ ListConversationMembers ch id ↔ r ≠ 0 ∧ policy_role (pol ch id) (conversationMemberName t i) = r.
Proof using Type.
  intros Hok Hc Hty Ht. destruct (Hok id c Hc Hty) as (u & _ & Hp & _ & _ & Hm).
  unfold ListConversationMembers. rewrite Hc, list_elem_of_fmap. fold (pol ch id).
  rewrite policy_role_places. pose proof (roleByMember_spec (pol ch id) (conversationMemberName t i)) as Hr.
  assert (Heq : places (conversationMemberName t i) (pol ch id) ≠ [] →
    place_role (places (conversationMemberName t i) (pol ch id)) ≠ 0 ∧
    default 0 (roleByMember (pol ch id) !! conversationMemberName t i) = place_role (places (conversationMemberName t i) (pol ch id))).
  { intros Hne. unfold place_role. destruct (places _ (pol ch id)) as [|pl ps] eqn:Hpl; [done|]. simpl.
    pose proof (po_chat _ _ Hp (conversationMemberName t i) pl) as Hchat. rewrite Hpl in Hchat.
    specialize (Hchat (list_elem_of_here _ _)). apply Z.eqb_neq in Hchat as Hb. rewrite Hb. simpl. split; [done|].
    destruct (roleByMember (pol ch id) !! _) as [r'|]; [|by destruct Hchat; apply Hr; left]. simpl.
    destruct Hr as [_ (pl' & Hin & <-)]. f_equal. f_equal. apply (po_single _ _ Hp (conversationMemberName t i)); rewrite Hpl; [done|by left]. }
  split.
  - intros ([t' i'] & [= <- <- ->] & Hin). simpl. apply Hm in Hin; [|done]. destruct (Heq Hin) as [Hne ->]. done.
  - intros [Hr0 Hrole]. assert (Hne : places (conversationMemberName t i) (pol ch id) ≠ []).
    { intros He. rewrite He in Hrole. by simpl in Hrole. }
    exists (t, i). simpl. destruct (Heq Hne) as [_ ->]. split; [by rewrite Hrole|]. by apply Hm.
Qed.

(** *** Ways out *)

(** The guard of the owner looks at the member type, the policy at the name
    alone: a request to remove the owner with a type that is neither user nor agent
    goes through and leaves the channel without an owner, while the owner of record
    and the roster still name him. *)
Theorem untyped_remove_orphans d name t id c owner ch ch' : chat_ok ch → ch_convs ch !! id = Some c →
  cv_type c = ConversationTypeChannel → who (cv_owner c) = Some owner → ¬ typed t →
  parseConversationID d name = Some id → RemoveChannelMember d name t (u_handle owner) ch = Ok ch' →
  (∀ m cond, (ownerRole, cond) ∉ places m (pol ch' id)) ∧
  ∃ c', ch_convs ch' !! id = Some c' ∧ cv_owner c' = cv_owner c ∧ (MemberTypeUser, u_handle owner) ∈ cv_meta c'.
Proof using Type.
  intros Hok Hc Hty Hw Hnt Hname H. destruct (Hok id c Hc Hty) as (u & Hw' & Hp & _ & _ & Hm).
  assert (u = owner) as -> by congruence.
  unfold RemoveChannelMember, load in H. rewrite Hname in H. unfold GetConversation in H. rewrite Hc in H.
  destruct (d_fails d "GetConversation"); [done|]. simpl in H.
  destruct (_ && _) in H; [done|]. apply internal_ok, call_ok in H as ->.
  assert (Hn : conversationMemberName t (u_handle owner) = conversationMemberName MemberTypeUser (u_handle owner)).
  { unfold conversationMemberName. by rewrite (proj2 (Z.eqb_neq t MemberTypeAgent)) by (intros ->; by apply Hnt; right). }
  assert (Hpol : pol (deleteConversationMemberMetaTx id t (u_handle owner) (patchConversationMemberRolesTx id t (u_handle owner) [] ch)) id =
    applyIamPolicyPatch (conversationMemberName MemberTypeUser (u_handle owner)) [] (pol ch id)).
  { rewrite <- Hn. apply pol_patch. }
  rewrite Hpol. split.
  - intros m cond Hin. destruct (decide (m = conversationMemberName MemberTypeUser (u_handle owner))) as [->|Hne].
    + rewrite patch_places, firsts_none in Hin by apply Hp. by apply elem_of_nil in Hin.
    + rewrite patch_other in Hin by done. apply Hne, (po_owner _ _ Hp). eauto.
  - simpl. rewrite lookup_alter_eq, Hc. eexists. split; [done|]. split; [done|]. simpl. apply list_elem_of_filter.
    split; [by intros [= <-]; apply Hnt; left|]. apply Hm; [by left|].
    destruct (proj2 (po_owner _ _ Hp _) eq_refl) as (cnd & Hin). intros He. rewrite He in Hin. by apply elem_of_nil in Hin.
Qed.

(** An admin made a member again, and an owner after a transfer, joins the
    first binding of the member's role whatever its condition: when a temporary
    member stands there first, a permanent one leaves with him. *)
Theorem demotion_may_expire d caller name t i ch ch' id p b q : sees d → chat_ok ch → typed t →
  parseConversationID d name = Some id →
  pol ch id = p ++ b :: q → (∀ b', b' ∈ p → b_role b' ≠ memberRole) → b_role b = memberRole →
  UpdateChannelMemberRole d caller name t i MemberRoleMember ch = Ok ch' →
  places (conversationMemberName t i) (pol ch' id) = [(memberRole, b_condition b)].
Proof using Type.
  intros Hs Hok Ht Hname Hpol Hnone Hb H. unfold UpdateChannelMemberRole, load in H. rewrite Hname in H.
  unfold GetConversation in H. destruct (d_fails d "GetConversation"); [done|].
  destruct (ch_convs ch !! id) as [c|] eqn:Hc; [|done]. simpl in H.
  destruct (Z.eqb_spec (cv_type c) ConversationTypeChannel) as [Hty|]; simpl in H; [|done].
  destruct (negb (requireChannelOwner caller c)); [done|]. destruct (_ && _) in H; [done|].
  apply then_ok in H as ([r ty] & _ & H). destruct (r =? 0); [done|]. apply internal_ok in H.
  unfold UpdateConversationMemberRole in H. cbv zeta in H. destruct (negb _) in H; [done|]. apply call_ok in H as ->.
  destruct (Hok id c Hc Hty) as (u & _ & Hp & _).
  rewrite pol_meta, pol_upsert, decide_True by done. fold (pol ch id).
  rewrite patch_places by apply Hp. rewrite Hpol. by apply firsts_skip.
Qed.

End keep.

(** ** A channel of three users and an agent *)

Module MembershipDemo.

Definition ann : User := MkUser 1 "ann" false END_USER.
Definition bob : User := MkUser 2 "bob" false END_USER.
Definition cat : User := MkUser 3 "cat" false END_USER.
Definition bot : Agent := MkAgent 7 "bot" 1 false false true.

Definition who (id : Z) : option User :=
  if id =? 1 then Some ann else if id =? 2 then Some bob else if id =? 3 then Some cat else None.

Definition e : Env := {|
  e_now := 0; e_cel := λ _ _, Ok (CBool true); e_custom_role := λ _, Ok None;
  e_group := λ g, Ok (if String.eqb g "groups/team" then Some ["users/ann"; "users/cat"; "agents/x"] else None);
  e_user := λ id, Ok (who id); e_policy := λ _ _, Ok []; e_uuid := Some; e_conversation_type := λ _, Ok (Some 2);
  e_command := λ _, Err ""; e_command_member := λ _ _ _, Ok false; e_reminder := λ _, Err ""; e_file := λ _, Ok None |}.

Definition d : Dir := {|
  d_env := e;
  d_handle := λ h, Ok (if String.eqb h "ann" then Some ann else if String.eqb h "bob" then Some bob
                       else if String.eqb h "cat" then Some cat else None);
  d_agent := λ a, Ok (if String.eqb a "bot" then Some bot else None);
  d_rfc3339 := λ t, if t =? 10 then "1970-01-01T00:00:10Z" else "";
  d_fails := λ _, None |}.

Lemma who_id id u : who id = Some u → u_id u = id ∧ id ≠ 0 ∧ u_handle u ≠ "".
Proof. unfold who. repeat case_match; intros [= <-]; simpl; lia || (repeat split; [lia|lia|done]). Qed.

Lemma handles_unique id id' u u' : who id = Some u → who id' = Some u' → u_handle u = u_handle u' → id = id'.
Proof. unfold who. repeat case_match; intros [= <-] [= <-]; simpl; intros [=]; lia. Qed.

Lemma sees_d : sees who d.
Proof. split; [done|]. intros h u. simpl. repeat case_match; intros [= <-]; by apply String.eqb_eq in H || (split; [done|]; symmetry; by apply String.eqb_eq). Qed.

Definition by_ann : Caller := MkCaller (Some ann) None.
Definition general : string := "conversations/c".
Definition tables (r : res failure Chat) : Chat := match r with Ok ch => ch | Err _ => no_chat end.

(** Ann makes a channel, adds bob for ten seconds, her team and the agent. *)
Definition ch1 : Chat := tables (CreateChannel d by_ann "c" "general" no_chat).
Definition adds : list AddRequest :=
  [MkAdd 1 "bob" "" (Some 10); MkAdd 0 "" "groups/team" None; MkAdd 2 "bot" "" None].
Definition added : Chat * list ConversationMemberInput :=
  match AddChannelMember d by_ann general adds ch1 with Ok r => r | Err _ => (no_chat, []) end.
Definition ch2 : Chat := added.1.
(** Cat becomes an admin, then a member again. *)
Definition ch3 : Chat := tables (UpdateChannelMemberRole d by_ann general MemberTypeUser "cat" MemberRoleAdmin ch2).
Definition ch4 : Chat := tables (UpdateChannelMemberRole d by_ann general MemberTypeUser "cat" MemberRoleMember ch3).
(** Ann hands the channel to cat. *)
Definition ch5 : Chat := tables (TransferChannelOwnership d by_ann general MemberTypeUser "cat" ch3).
(** Or somebody removes ann, as a member of no type. *)
Definition ch6 : Chat := tables (RemoveChannelMember d general 0 "ann" ch2).

Lemma create_runs : CreateChannel d by_ann "c" "general" no_chat = Ok ch1.
Proof. vm_compute. reflexivity. Qed.
Lemma add_runs : AddChannelMember d by_ann general adds ch1 = Ok (ch2, added.2).
Proof. vm_compute. reflexivity. Qed.
Lemma role_runs : UpdateChannelMemberRole d by_ann general MemberTypeUser "cat" MemberRoleAdmin ch2 = Ok ch3.
Proof. vm_compute. reflexivity. Qed.
Lemma demote_runs : UpdateChannelMemberRole d by_ann general MemberTypeUser "cat" MemberRoleMember ch3 = Ok ch4.
Proof. vm_compute. reflexivity. Qed.
Lemma transfer_runs : TransferChannelOwnership d by_ann general MemberTypeUser "cat" ch3 = Ok ch5.
Proof. vm_compute. reflexivity. Qed.
Lemma remove_runs : RemoveChannelMember d general 0 "ann" ch2 = Ok ch6.
Proof. vm_compute. reflexivity. Qed.

Example roster_after : ListConversationMembers ch5 "c" =
  [(1, "ann", 2); (1, "bob", 2); (1, "cat", 1); (2, "bot", 2)].
Proof. vm_compute. reflexivity. Qed.

Lemma known_ann : known who by_ann.
Proof. intros u [= <-]. reflexivity. Qed.
Lemma add_typed : Forall names_principal adds.
Proof.
  apply Forall_cons. split; [by right; left|]. apply Forall_cons. split; [by left|].
  apply Forall_cons. split; [by right; right|]. apply Forall_nil_2.
Qed.

Lemma run2 : rtc (request who) no_chat ch2.
Proof.
  eapply rtc_l; [eapply (req_create who d by_ann "c" "general"); [exact sees_d|exact known_ann|split; reflexivity|exact create_runs]|].
  eapply rtc_l; [eapply (req_add who d by_ann general adds); [exact sees_d|exact add_typed|exact add_runs]|]. apply rtc_refl.
Qed.

Lemma run3 : rtc (request who) no_chat ch3.
Proof.
  eapply rtc_r; [exact run2|].
  eapply (req_role who d by_ann general MemberTypeUser "cat" MemberRoleAdmin); [exact sees_d|by left|exact role_runs].
Qed.

Lemma ok_run ch : rtc (request who) no_chat ch → chat_ok who ch.
Proof. apply reachable_ok; [exact who_id|exact handles_unique]. Qed.

Lemma channel_keeps_one_owner_witness : ∃ c, ch_convs ch5 !! "c" = Some c ∧ channel_ok who ch5 "c" c.
Proof.
  eexists. split; [vm_compute; reflexivity|].
  apply (channel_keeps_one_owner who who_id handles_unique ch5 "c"); [|vm_compute; reflexivity|reflexivity].
  eapply rtc_r; [exact run3|].
  eapply (req_transfer who d by_ann general MemberTypeUser "cat"); [exact sees_d|exact transfer_runs].
Defined.

Lemma transfer_moves_ownership_witness : ∃ id c', ch_convs ch5 !! id = Some c' ∧ cv_owner c' = 3.
Proof.
  destruct (transfer_moves_ownership who who_id d by_ann general MemberTypeUser "cat" ch3 ch5 sees_d known_ann
    (ok_run _ run3) transfer_runs) as (id & c & c' & old & new & _ & Hc' & _ & _ & Hn & Ho & _).
  exists id, c'. split; [exact Hc'|]. rewrite Ho. injection Hn as <-. reflexivity.
Defined.

Lemma add_keeps_roles_witness : ∃ id c, ch_convs ch1 !! id = Some c ∧
  (∀ m, policy_role (pol ch1 id) m ≠ 0 → policy_role (pol ch2 id) m = policy_role (pol ch1 id) m).
Proof.
  destruct (add_keeps_roles who d by_ann general adds ch1 ch2 added.2) as (id & c & Hc & Hr & _).
  - apply ok_run. eapply rtc_l; [|apply rtc_refl].
    eapply (req_create who d by_ann "c" "general"); [exact sees_d|exact known_ann|split; reflexivity|exact create_runs].
  - exact add_typed.
  - exact add_runs.
  - exists id, c. split; [exact Hc|exact Hr].
Defined.

Lemma roster_lists_roles_witness : (MemberTypeUser, "cat", MemberRoleAdmin) ∈ ListConversationMembers ch3 "c".
Proof.
  destruct (ch_convs ch3 !! "c") as [c|] eqn:Hc; [|vm_compute in Hc; discriminate Hc].
  apply (roster_lists_roles who ch3 "c" c MemberTypeUser "cat" MemberRoleAdmin (ok_run _ run3) Hc);
    [vm_compute in Hc; injection Hc as <-; reflexivity|by left|]. split; [done|vm_compute; reflexivity].
Defined.

Lemma untyped_remove_orphans_witness : ∃ c', ch_convs ch6 !! "c" = Some c' ∧ cv_owner c' = 1 ∧
  (MemberTypeUser, "ann") ∈ cv_meta c' ∧ (ownerRole, None) ∉ places "users/ann" (pol ch6 "c").
Proof.
  destruct (ch_convs ch2 !! "c") as [c|] eqn:Hc; [|vm_compute in Hc; discriminate Hc].
  assert (Ho : cv_owner c = 1) by (vm_compute in Hc; injection Hc as <-; reflexivity).
  destruct (untyped_remove_orphans who d general 0 "c" c ann ch2 ch6 (ok_run _ run2) Hc) as [Hno (c' & Hc' & Hown & Hin)].
  - vm_compute in Hc. injection Hc as <-. reflexivity.
  - by rewrite Ho.
  - by intros [?|?].
  - vm_compute. reflexivity.
  - exact remove_runs.
  - exists c'. split; [exact Hc'|]. split; [by rewrite Hown|]. split; [exact Hin|]. apply Hno.
Defined.

(** Cat joined for good and leaves with bob. *)
Lemma demotion_may_expire_witness : ∃ cond, places "users/cat" (pol ch4 "c") = [(memberRole, Some cond)].
Proof.
  destruct (pol ch3 "c") as [|b0 [|b1 q]] eqn:Hp; [vm_compute in Hp; discriminate Hp..|].
  exists (default "" (b_condition b1)).
  assert (Hb : b_condition b1 = Some (default "" (b_condition b1))) by (vm_compute in Hp; injection Hp as <- <- <-; reflexivity).
  rewrite <- Hb.
  apply (demotion_may_expire who d by_ann general MemberTypeUser "cat" ch3 ch4 "c" [b0] b1 q sees_d (ok_run _ run3)
    (or_introl eq_refl)); [vm_compute; reflexivity|exact Hp| | |exact demote_runs].
  - intros b ->%list_elem_of_singleton. vm_compute in Hp. injection Hp as <- <- <-. discriminate.
  - vm_compute in Hp. injection Hp as <- <- <-. reflexivity.
Defined.

End MembershipDemo.
