(* ===== verification/Runes.v ===== *)
(** Go's conversions between strings and runes, and what package unicode says of
    a rune.  A string is bytes; [decode] is the conversion to a slice of runes,
    [encode] the one back.  The tables of package unicode are a record, [Unicode],
    with the few facts about ASCII the code relies on ([UnicodeLaws]). *)

From Stdlib Require Import Ascii.
From stdpp Require Import base list strings numbers.
From S2P Require Import Prelude Strings.
Import Strings.
Local Open Scope Z_scope.

(** ** UTF-8 *)

Definition RuneError : Z := 65533.

Definition between (lo hi z : Z) : bool := (lo <=? z) && (z <=? hi).
Definition cont (b : Z) : bool := between 128 191 b.

(** The second byte of a three- or four-byte sequence: neither overlong nor a
    surrogate nor past U+10FFFF. *)
Definition second3 (a b : Z) : bool :=
  between (if a =? 224 then 160 else 128) (if a =? 237 then 159 else 191) b.
Definition second4 (a b : Z) : bool :=
  between (if a =? 240 then 144 else 128) (if a =? 244 then 143 else 191) b.

(** An invalid byte is one [RuneError]. *)
Fixpoint decode (l : list Z) : list Z :=
  match l with
  | [] => []
  | a :: l1 =>
      if a <? 128 then a :: decode l1 else
      match l1 with
      | [] => RuneError :: decode l1
      | b :: l2 =>
          if between 194 223 a && cont b then ((a - 192) * 64 + (b - 128)) :: decode l2 else
          match l2 with
          | [] => RuneError :: decode l1
          | c :: l3 =>
              if between 224 239 a && second3 a b && cont c
              then ((a - 224) * 4096 + (b - 128) * 64 + (c - 128)) :: decode l3 else
              match l3 with
              | [] => RuneError :: decode l1
              | d :: l4 =>
                  if between 240 244 a && second4 a b && cont c && cont d
                  then ((a - 240) * 262144 + (b - 128) * 4096 + (c - 128) * 64 + (d - 128)) :: decode l4
                  else RuneError :: decode l1
              end
          end
      end
  end.

Definition valid_rune (r : Z) : bool := between 0 55295 r || between 57344 1114111 r.

Definition encode_valid (r : Z) : list Z :=
  if r <? 128 then [r]
  else if r <? 2048 then [192 + r / 64; 128 + r mod 64]
  else if r <? 65536 then [224 + r / 4096; 128 + r / 64 mod 64; 128 + r mod 64]
  else [240 + r / 262144; 128 + r / 4096 mod 64; 128 + r / 64 mod 64; 128 + r mod 64].

Definition encode_rune (r : Z) : list Z := encode_valid (if valid_rune r then r else RuneError).

(** [[]rune(s)] and [string(runes)]. *)
Definition runes_of (s : string) : list Z := decode (Strings.code <$> String.list_ascii_of_string s).
Definition string_of (rs : list Z) : string := Strings.str_of (rs ≫= encode_rune).

(** ** Package unicode *)

Record Unicode := MkUnicode {
  IsLetter : Z → bool; IsDigit : Z → bool; IsSpace : Z → bool; IsPunct : Z → bool; to_lower : Z → Z }.

Class UnicodeLaws (u : Unicode) : Prop := {
  at_is_no_letter : IsLetter u 64 = false;
  at_is_no_digit : IsDigit u 64 = false;
  blank_is_space : IsSpace u 32 = true;
  blank_is_no_letter : IsLetter u 32 = false;
  blank_is_no_digit : IsDigit u 32 = false }.

(** The tables up to U+007F. *)
Definition ascii_unicode : Unicode :=
  MkUnicode (λ r, between 65 90 r || between 97 122 r) (between 48 57)
    (λ r, between 9 13 r || (r =? 32))
    (λ r, between 33 35 r || between 37 42 r || between 44 47 r || between 58 59 r || between 63 64 r ||
          between 91 93 r || (r =? 95) || (r =? 123) || (r =? 125))
    (λ r, if between 65 90 r then r + 32 else r).

#[export] Instance ascii_unicode_laws : UnicodeLaws ascii_unicode.
Proof. by split. Qed.

(** strings.ToLower *)
Definition ToLower (u : Unicode) (s : string) : string := string_of (to_lower u <$> runes_of s).

(** ** The round trip *)

Ltac bytes :=
  repeat (match goal with
  | |- context [Z.eqb ?a ?b] => destruct (Z.eqb_spec a b); try lia
  | |- context [Z.ltb ?a ?b] => destruct (Z.ltb_spec a b); try lia
  | |- context [Z.leb ?a ?b] => destruct (Z.leb_spec a b); try lia
  end; cbn [andb orb]).

(** A number in base 64. *)
Lemma base64_digits r : 0 ≤ r →
  r = r / 262144 * 262144 + r / 4096 mod 64 * 4096 + r / 64 mod 64 * 64 + r mod 64 ∧
  r / 4096 = r / 262144 * 64 + r / 4096 mod 64 ∧ r / 64 = r / 4096 * 64 + r / 64 mod 64 ∧
  0 ≤ r / 262144 ∧ 0 ≤ r / 4096 mod 64 < 64 ∧ 0 ≤ r / 64 mod 64 < 64 ∧ 0 ≤ r mod 64 < 64.
Proof.
  intros Hr. change 262144 with (64 * 64 * 64). change 4096 with (64 * 64).
  rewrite <- !Z.div_div by lia.
  pose proof (Z.div_mod r 64 ltac:(lia)). pose proof (Z.div_mod (r / 64) 64 ltac:(lia)).
  pose proof (Z.div_mod (r / 64 / 64) 64 ltac:(lia)).
  pose proof (Z.mod_pos_bound r 64 ltac:(lia)). pose proof (Z.mod_pos_bound (r / 64) 64 ltac:(lia)).
  pose proof (Z.mod_pos_bound (r / 64 / 64) 64 ltac:(lia)).
  assert (0 ≤ r / 64 / 64 / 64) by (repeat (apply Z.div_pos; [|lia]); lia).
  lia.
Qed.

Lemma decode_encode_valid r l : valid_rune r = true → decode (encode_valid r ++ l) = r :: decode l.
Proof.
  unfold valid_rune, between. intros Hr.
  assert (0 ≤ r ≤ 55295 ∨ 57344 ≤ r ≤ 1114111) as Hv by (revert Hr; bytes; simpl; intros; lia).
  clear Hr. pose proof (base64_digits r ltac:(lia)) as Hd. unfold encode_valid. revert Hd.
  generalize (r mod 64). generalize (r / 64 mod 64). generalize (r / 64).
  generalize (r / 4096 mod 64). generalize (r / 4096). generalize (r / 262144).
  intros e de d b c m Hd.
  destruct (Z.ltb_spec r 128); [simpl; by bytes|].
  destruct (Z.ltb_spec r 2048).
  { assert (b = c) as -> by lia. cbn [decode app]. unfold between, cont, between. bytes. simpl. f_equal. lia. }
  destruct (Z.ltb_spec r 65536).
  { assert (de = d) as -> by lia. cbn [decode app]. unfold second3, cont, between. bytes; simpl; f_equal; lia. }
  cbn [decode app]. unfold second3, second4, cont, between. bytes; simpl; f_equal; lia.
Qed.

Lemma decode_encode rs : Forall (λ r, valid_rune r = true) rs → decode (rs ≫= encode_rune) = rs.
Proof.
  induction 1 as [|r rs Hr _ IH]; [done|].
  simpl. unfold encode_rune at 1. rewrite Hr. rewrite decode_encode_valid by done. by f_equal.
Qed.

Lemma encode_bytes r b : b ∈ encode_rune r → 0 ≤ b < 256.
Proof.
  unfold encode_rune. assert (valid_rune (if valid_rune r then r else RuneError) = true) as Hv.
  { destruct (valid_rune r) eqn:E; [done|reflexivity]. }
  revert Hv. generalize (if valid_rune r then r else RuneError). clear r. intros r Hv.
  assert (0 ≤ r ≤ 1114111) by (revert Hv; unfold valid_rune, between; bytes; simpl; intros; lia).
  unfold encode_valid. intros Hb.
  repeat case_match; rewrite ?elem_of_cons, elem_of_nil in Hb; Z.to_euclidean_division_equations; lia.
Qed.

Lemma code_byte_of b : 0 ≤ b < 256 → Strings.code (Strings.byte_of b) = b.
Proof. intros Hb. unfold Strings.code, Strings.byte_of. rewrite N_ascii_embedding; lia. Qed.

(** Runes written as a string and read again. *)
Lemma runes_of_string_of rs : Forall (λ r, valid_rune r = true) rs → runes_of (string_of rs) = rs.
Proof.
  intros Hrs. unfold runes_of, string_of, Strings.str_of.
  rewrite String.list_ascii_of_string_of_list_ascii, <- list_fmap_compose.
  rewrite <- (decode_encode rs Hrs) at 2. f_equal.
  rewrite <- (list_fmap_id (rs ≫= encode_rune)) at 2. apply list_fmap_ext. intros i b Hb. simpl.
  apply code_byte_of. apply list_elem_of_lookup_2 in Hb.
  apply list_elem_of_bind in Hb as (r & Hb & _). by eapply encode_bytes.
Qed.

