(* ===== verification/Mentions.v ===== *)
(** Mentions: [api/v1/mention.go] and [store/mention_index.go].  A message's text
    is scanned for [@handle] tokens, and a token is resolved against the members
    of the conversation, then against the whole directory of agents and users.

    [Directory] is what the store answers about agents and users; the cached
    index of the store is an argument and a result of [parseContentMentions]. *)

From stdpp Require Import base list strings numbers gmap.
From S2P Require Import Prelude Strings Runes Iam.
Local Open Scope Z_scope.

(** ** The tokens *)

Section tokens.
Context (u : Unicode).

Definition at_sign : Z := 64.
Definition dot : Z := 46.

Definition isMentionNameRune (r : Z) : bool :=
  IsLetter u r || IsDigit u r || (r =? 95) || (r =? 45) || (r =? dot).

Definition isMentionBoundary (r : Z) : bool :=
  IsSpace u r || (IsPunct u r && negb (r =? 95) && negb (r =? 45)).

(** The loop over [j]: the runes of a name that [l] starts with. *)
Fixpoint name_run (l : list Z) : list Z :=
  match l with
  | r :: l' => if isMentionNameRune r then r :: name_run l' else []
  | [] => []
  end.

(** The loop that takes the trailing dots off. *)
Fixpoint strip_dots (l : list Z) : list Z :=
  match l with
  | [] => []
  | r :: l' => match strip_dots l' with [] => if r =? dot then [] else [r] | l'' => r :: l'' end
  end.

(** The body of the loop at [i]: the token that starts there. *)
Definition mention_at (runes : list Z) (i : nat) : option (list Z) :=
  match runes !! i with
  | None => None
  | Some r =>
      if negb (r =? at_sign) then None else
      match runes !! S i with
      | None => None
      | Some next =>
          if match i with
             | O => false
             | S p => match runes !! p with Some r' => negb (isMentionBoundary r') | None => false end
             end then None
          else if negb (isMentionNameRune next) then None
          else Some (strip_dots (name_run (drop (S i) runes)))
      end
  end.

(** The loop: after a token [i = j - 1], and then [i++]. *)
Fixpoint tokens_from (fuel : nat) (runes : list Z) (i : nat) : list (list Z) :=
  match fuel with
  | O => []
  | S fuel =>
      if decide (i < length runes)%nat then
        match mention_at runes i with
        | Some token => token :: tokens_from fuel runes (S i + length token)
        | None => tokens_from fuel runes (S i)
        end
      else []
  end.

Definition tokenizeMentions (runes : list Z) : list (list Z) := tokens_from (length runes) runes 0.

Definition normalizeMentionName (s : string) : string := ToLower u (Strings.TrimSpace s).

End tokens.

(** ** Mentions and members *)

Record Mention := MkMention { mn_type : string; mn_id : string; mn_name : string }.
Record mentionCandidate := MkCand { mc_type : string; mc_id : string; mc_display : string }.

(** The type and the id of a member. *)
Definition Member : Type := Z * string.

Definition mentionTypeString (memberType : Z) : string :=
  if memberType =? MemberTypeAgent then "agent" else "user".

Record AgentRow := MkAgentRow { ar_id : Z; ar_resource : string; ar_name : string; ar_deleted : bool }.
Record UserRow := MkUserRow { ur_id : Z; ur_handle : string; ur_name : string; ur_deleted : bool }.

Record Directory := MkDirectory {
  GetAgentByResourceID : string → res string (option AgentRow);
  GetUserByHandle : string → res string (option UserRow);
  ListAgents : res string (list AgentRow);
  ListUsers : res string (list UserRow) }.

Definition resolveMemberDisplayName (d : Directory) (m : Member) : string :=
  if m.1 =? MemberTypeUser then
    match GetUserByHandle d m.2 with Ok (Some user) => ur_name user | _ => m.2 end
  else if m.1 =? MemberTypeAgent then
    match GetAgentByResourceID d m.2 with Ok (Some agent) => ar_name agent | _ => m.2 end
  else m.2.

(** *** buildMentionsWithDisplayNames *)

Section names.
Context (u : Unicode).
Notation norm := (normalizeMentionName u).

Definition shown (c : mentionCandidate) : string :=
  if String.eqb (mc_display c) "" then mc_id c else mc_display c.

Definition count {A} (p : A → bool) (l : list A) : nat := length (filter (λ a, p a = true) l).

Definition buildMentionsWithDisplayNames (candidates : list mentionCandidate) : list Mention :=
  (λ c, MkMention (mc_type c) (mc_id c)
          (if (1 <? Z.of_nat (count (λ c', String.eqb (norm (shown c')) (norm (shown c))) candidates))
           then mc_id c else shown c)) <$> candidates.

(** *** The index by display name

    [counts] and [names] of the loop, then the prune. *)
Definition index : Type := gmap string nat * gmap string Member.

Definition index_member (resolve : Member → string) (acc : index) (m : Member) : index :=
  if String.eqb m.2 "" then acc else
  let dn := norm (resolve m) in
  if String.eqb dn "" then acc else
  (<[dn := S (default O (acc.1 !! dn))]> acc.1, <[dn := m]> acc.2).

Definition prune {A} (acc : gmap string nat * gmap string A) : gmap string A :=
  filter (λ kv : string * A, (default O (acc.1 !! kv.1) ≤ 1)%nat) acc.2.

Definition buildDisplayNameIndexWithResolver (members : list Member) (resolve : Member → string) : gmap string Member :=
  prune (foldl (index_member resolve) (∅, ∅) members).

(** [byHandle]: the last member with a handle. *)
Definition byHandle (members : list Member) : gmap string Member :=
  foldl (λ acc m, if String.eqb m.2 "" then acc else <[norm m.2 := m]> acc) ∅ members.

(** *** The global index *)

Record GlobalMentionIndex := MkIndex { gi_handle : gmap string Mention; gi_display : gmap string Mention }.

Definition index_get (i : GlobalMentionIndex) (key : string) : option Mention :=
  match gi_handle i !! key with Some m => Some m | None => gi_display i !! key end.

Definition building : Type := gmap string Mention * (gmap string nat * gmap string Mention).

(** [add] of BuildGlobalMentionIndex; the id is the handle. *)
Definition index_add (acc : building) (mType handle displayName : string) : building :=
  if String.eqb handle "" then acc else
  let m := MkMention mType handle (if String.eqb displayName "" then handle else displayName) in
  let hkey := norm handle in
  let h := if String.eqb hkey "" then acc.1 else <[hkey := m]> acc.1 in
  let dn := norm displayName in
  if String.eqb dn "" then (h, acc.2) else
  (h, (<[dn := S (default O (acc.2.1 !! dn))]> acc.2.1, <[dn := m]> acc.2.2)).

Definition add_agent_row (acc : building) (a : AgentRow) : building :=
  if String.eqb (ar_resource a) "" || ar_deleted a then acc else index_add acc "agent" (ar_resource a) (ar_name a).
Definition add_user_row (acc : building) (x : UserRow) : building :=
  if String.eqb (ur_handle x) "" || ur_deleted x then acc else index_add acc "user" (ur_handle x) (ur_name x).

Definition BuildGlobalMentionIndex (agents : list AgentRow) (users : list UserRow) : GlobalMentionIndex :=
  let acc := foldl add_user_row (foldl add_agent_row (∅, (∅, ∅)) agents) users in
  MkIndex acc.1 (prune acc.2).

(** The cached index, or a new one; an error leaves the cache empty. *)
Definition GetGlobalMentionIndex (d : Directory) (cache : option GlobalMentionIndex) : option GlobalMentionIndex :=
  match cache with
  | Some idx => Some idx
  | None =>
      match ListAgents d, ListUsers d with
      | Ok agents, Ok users => Some (BuildGlobalMentionIndex agents users)
      | _, _ => None
      end
  end.

(** *** parseContentMentions *)

(** [candidates], whose keys are [seen]; [globalIndex]; and the store's cache. *)
Record parsing := MkParsing {
  p_candidates : list mentionCandidate; p_global : option GlobalMentionIndex; p_cache : option GlobalMentionIndex }.

Definition addCandidate (mType mID displayName : string) (s : parsing) : parsing :=
  if String.eqb mID "" then s else
  if existsb (λ c, String.eqb (mc_type c) mType && String.eqb (mc_id c) mID) (p_candidates s) then s else
  MkParsing (p_candidates s ++ [MkCand mType mID (if String.eqb displayName "" then mID else displayName)])
    (p_global s) (p_cache s).

Definition add_global (key : string) (s : parsing) : parsing :=
  match p_global s with
  | Some idx => match index_get idx key with Some gm => addCandidate (mn_type gm) (mn_id gm) (mn_name gm) s | None => s end
  | None => s
  end.

(** A token that is no member. *)
Definition global_fallback (d : Directory) (key : string) (s : parsing) : parsing :=
  match p_global s with
  | Some _ => add_global key s
  | None =>
      let miss :=
        let idx := GetGlobalMentionIndex d (p_cache s) in
        add_global key (MkParsing (p_candidates s) idx idx) in
      let user :=
        match GetUserByHandle d key with
        | Ok (Some user) => if ur_deleted user then miss else addCandidate "user" (ur_handle user) (ur_name user) s
        | _ => miss
        end in
      match GetAgentByResourceID d key with
      | Ok (Some agent) => if ar_deleted agent then user else addCandidate "agent" (ar_resource agent) (ar_name agent) s
      | _ => user
      end
  end.

Definition resolve_member (d : Directory) (members : list Member) (key : string) : option Member :=
  match byHandle members !! key with
  | Some m => Some m
  | None => buildDisplayNameIndexWithResolver members (resolveMemberDisplayName d) !! key
  end.

Definition resolve_token (d : Directory) (members : list Member) (s : parsing) (token : list Z) : parsing :=
  let key := norm (string_of token) in
  if String.eqb key "" then s else
  match resolve_member d members key with
  | Some m => addCandidate (mentionTypeString m.1) m.2 (resolveMemberDisplayName d m) s
  | None => global_fallback d key s
  end.

(** [members] is the answer of ListConversationMembers.  The mentions and the
    store's cache after. *)
Definition parseContentMentions (d : Directory) (members : res string (list Member))
    (cache : option GlobalMentionIndex) (content : string) : list Mention * option GlobalMentionIndex :=
  match members with
  | Err _ => ([], cache)
  | Ok members =>
      let s := foldl (resolve_token d members) (MkParsing [] None cache) (tokenizeMentions u (runes_of content)) in
      (buildMentionsWithDisplayNames (p_candidates s), p_cache s)
  end.

End names.

(** ** mergeMentions *)

Definition mention_key (m : Mention) : string := mn_type m +:+ ":" +:+ mn_id m.

Definition merge_add (out : list Mention) (m : Mention) : list Mention :=
  if existsb (λ m', String.eqb (mention_key m') (mention_key m)) out then out else out ++ [m].

Definition mergeMentions (parsed client : list Mention) : list Mention :=
  foldl merge_add (foldl merge_add [] parsed) client.
