(* ===== verification/MentionsSpec.v ===== *)
(** What the mention parser does: the loop finds exactly the tokens a relation on
    the text ([mention_text]) says it has, texts split at blanks, written handles are
    read back, names never misroute, and a merge keeps the first of each key. *)

From stdpp Require Import base list sorting strings numbers gmap.
From S2P Require Import Prelude Strings Runes Iam Mentions.
Local Open Scope Z_scope.

(** ** The scan *)

Section scan.
Context (u : Unicode) `{!UnicodeLaws u}.

Lemma at_not_name : isMentionNameRune u at_sign = false.
Proof. unfold isMentionNameRune. by rewrite at_is_no_letter, at_is_no_digit. Qed.

Lemma blank_not_name : isMentionNameRune u 32 = false.
Proof. unfold isMentionNameRune. by rewrite blank_is_no_letter, blank_is_no_digit. Qed.

Lemma blank_boundary : isMentionBoundary u 32 = true.
Proof. unfold isMentionBoundary. by rewrite blank_is_space. Qed.

Lemma name_run_prefix l : name_run u l `prefix_of` l.
Proof.
  induction l as [|r l IH]; simpl; [done|].
  destruct (isMentionNameRune u r); [by apply prefix_cons|apply prefix_nil].
Qed.

Lemma name_run_names l : Forall (λ r, isMentionNameRune u r = true) (name_run u l).
Proof. induction l as [|r l IH]; simpl; [done|]. destruct (isMentionNameRune u r) eqn:E; auto. Qed.

Lemma strip_dots_prefix l : strip_dots l `prefix_of` l.
Proof.
  induction l as [|r l IH]; simpl; [done|].
  destruct (strip_dots l) as [|r' l'] eqn:E; [|by apply prefix_cons].
  destruct (r =? dot); [apply prefix_nil|apply prefix_cons, prefix_nil].
Qed.

Lemma scanned_token_spec l :
  strip_dots (name_run u l) `prefix_of` l ∧ Forall (λ r, isMentionNameRune u r = true) (strip_dots (name_run u l)).
Proof.
  pose proof (strip_dots_prefix (name_run u l)) as Hp. split; [etrans; [done|apply name_run_prefix]|].
  destruct Hp as [k Hk]. pose proof (name_run_names l) as Hn. rewrite Hk in Hn. by apply Forall_app in Hn as [? _].
Qed.

(** A token is what follows its [@]; its runes are name runes. *)
Lemma mention_at_spec rs i tok : mention_at u rs i = Some tok →
  rs !! i = Some at_sign ∧ tok `prefix_of` drop (S i) rs ∧ Forall (λ r, isMentionNameRune u r = true) tok.
Proof.
  unfold mention_at. intros H. destruct (rs !! i) as [r|]; [|done].
  destruct (negb (r =? at_sign)) eqn:Er; [done|]. apply negb_false_iff, Z.eqb_eq in Er as ->.
  repeat case_match; simplify_eq; eauto using scanned_token_spec.
Qed.

Lemma not_at i rs r : rs !! i = Some r → isMentionNameRune u r = true → mention_at u rs i = None.
Proof.
  intros Hi Hr. unfold mention_at. rewrite Hi. destruct (Z.eqb_spec r at_sign) as [->|]; [|done].
  by rewrite at_not_name in Hr.
Qed.

Lemma omap_none {A B} (f : A → option B) l : (∀ x, x ∈ l → f x = None) → omap f l = [].
Proof.
  induction l as [|x l IH]; intros H; [done|]. simpl. rewrite (H x) by apply list_elem_of_here.
  apply IH. intros y Hy. apply H. by apply list_elem_of_further.
Qed.

(** No token starts inside a token. *)
Lemma inside_token rs i tok : mention_at u rs i = Some tok →
  omap (mention_at u rs) (seq (S i) (length tok)) = [].
Proof.
  intros H. destruct (mention_at_spec _ _ _ H) as (_ & [k Hk] & Hn). apply omap_none.
  intros j Hj. apply elem_of_seq in Hj.
  destruct (lookup_lt_is_Some_2 tok (j - S i)) as [r Hr]; [lia|].
  apply (not_at _ _ r); [|by eapply Forall_lookup_1 in Hn].
  replace j with (S i + (j - S i))%nat by lia. rewrite <- lookup_drop, Hk. by apply lookup_app_l_Some.
Qed.

Lemma token_length rs i tok : mention_at u rs i = Some tok → (S i + length tok ≤ length rs)%nat.
Proof.
  intros H. destruct (mention_at_spec _ _ _ H) as (Hi & Hp & _). apply prefix_length in Hp.
  rewrite length_drop in Hp. apply lookup_lt_Some in Hi. lia.
Qed.

Lemma tokens_from_spec fuel rs i : (length rs - i ≤ fuel)%nat →
  tokens_from u fuel rs i = omap (mention_at u rs) (seq i (length rs - i)).
Proof.
  revert i. induction fuel as [|fuel IH]; intros i Hf; simpl.
  { by replace (length rs - i)%nat with O by lia. }
  destruct (decide (i < length rs)%nat) as [Hi|Hi]; [|by replace (length rs - i)%nat with O by lia].
  destruct (mention_at u rs i) as [tok|] eqn:E.
  - pose proof (token_length _ _ _ E). rewrite IH by lia.
    replace (length rs - i)%nat with (S (length tok + (length rs - (S i + length tok))))%nat by lia.
    simpl. rewrite E. simpl. f_equal. rewrite seq_app, omap_app, (inside_token _ _ _ E). done.
  - rewrite IH by lia. replace (length rs - i)%nat with (S (length rs - S i)) by lia.
    simpl. by rewrite E.
Qed.

Lemma tokenize_positions rs : tokenizeMentions u rs = omap (mention_at u rs) (seq 0 (length rs)).
Proof. unfold tokenizeMentions. rewrite tokens_from_spec by lia. by rewrite Nat.sub_0_r. Qed.

(** *** What the text says *)

Definition name_rune (r : Z) : Prop := IsLetter u r = true ∨ IsDigit u r = true ∨ r ∈ [95; 45; 46].
Definition boundary (r : Z) : Prop := IsSpace u r = true ∨ IsPunct u r = true ∧ r ∉ [95; 45].

(** The text has the token [tok] at [i]: an at-sign at its start or behind a
    blank or a punctuation mark, and behind it a longest, non-empty run of name
    runes, which is [tok] and the dots that close it. *)
Record mention_text (rs : list Z) (i : nat) (tok : list Z) : Prop := {
  mt_at : rs !! i = Some at_sign;
  mt_before : ∀ p r, i = S p → rs !! p = Some r → boundary r;
  mt_run : ∃ n rest, drop (S i) rs = (tok ++ replicate n dot) ++ rest ∧
    tok ++ replicate n dot ≠ [] ∧ Forall name_rune (tok ++ replicate n dot) ∧
    last tok ≠ Some dot ∧ (∀ r, head rest = Some r → ¬ name_rune r) }.

Lemma name_rune_iff r : isMentionNameRune u r = true ↔ name_rune r.
Proof.
  unfold isMentionNameRune, name_rune, dot. rewrite !orb_true_iff, !Z.eqb_eq, !elem_of_cons, elem_of_nil. tauto.
Qed.

Lemma boundary_iff r : isMentionBoundary u r = true ↔ boundary r.
Proof.
  unfold isMentionBoundary, boundary.
  rewrite orb_true_iff, !andb_true_iff, !negb_true_iff, !Z.eqb_neq, !elem_of_cons, elem_of_nil. tauto.
Qed.

(** The longest run is unique, and so is its end without dots. *)
Lemma name_run_longest run rest : Forall name_rune run → (∀ r, head rest = Some r → ¬ name_rune r) →
  name_run u (run ++ rest) = run.
Proof.
  intros Hrun Hrest. induction Hrun as [|r run Hr _ IH]; simpl.
  - destruct rest as [|r rest]; [done|]. simpl. destruct (isMentionNameRune u r) eqn:E; [|done].
    by destruct (Hrest r eq_refl); apply name_rune_iff.
  - apply name_rune_iff in Hr as ->. by rewrite IH.
Qed.

Lemma name_run_split l : ∃ rest, l = name_run u l ++ rest ∧ ∀ r, head rest = Some r → ¬ name_rune r.
Proof.
  induction l as [|r l (rest & Hl & Hr)]; simpl; [by exists []|].
  destruct (isMentionNameRune u r) eqn:E.
  - exists rest. split; [by rewrite Hl at 1|done].
  - exists (r :: l). split; [done|]. intros r' [= <-]. rewrite <- name_rune_iff. by rewrite E.
Qed.

Lemma strip_dots_append tok n : last tok ≠ Some dot → strip_dots (tok ++ replicate n dot) = tok.
Proof.
  assert (∀ n, strip_dots (replicate n dot) = []) as Hd.
  { clear n. induction n as [|n IH]; [done|]. simpl. by rewrite IH. }
  induction tok as [|r tok IH]; intros Hl; simpl; [apply Hd|].
  destruct tok as [|r' tok]; [simpl; rewrite Hd|by rewrite IH].
  destruct (Z.eqb_spec r dot) as [->|]; [by destruct Hl|done].
Qed.

Lemma strip_dots_split l : ∃ n, l = strip_dots l ++ replicate n dot ∧ last (strip_dots l) ≠ Some dot.
Proof.
  induction l as [|r l (n & Hl & Hlast)]; [by exists O|]. simpl.
  destruct (strip_dots l) as [|r' l'] eqn:E.
  - simpl in Hl. destruct (Z.eqb_spec r dot) as [->|Hr].
    + exists (S n). simpl. by rewrite <- Hl.
    + exists n. simpl. rewrite <- Hl. split; [done|congruence].
  - exists n. split; [simpl in *; by rewrite <- Hl|done].
Qed.

(** The body of the loop decides the relation. *)
Lemma mention_at_iff rs i tok : mention_at u rs i = Some tok ↔ mention_text rs i tok.
Proof.
  assert (∀ next, rs !! S i = Some next → drop (S i) rs = next :: drop (S (S i)) rs) as Hdrop
    by (intros; by apply drop_S).
  split.
  - intros H. destruct (mention_at_spec _ _ _ H) as (Hat & _). unfold mention_at in H. rewrite Hat in H. simpl in H.
    destruct (rs !! S i) as [next|] eqn:En; [|done].
    destruct (match i with O => false | S p => _ end) eqn:Eb; [done|].
    destruct (isMentionNameRune u next) eqn:Enext; [|done]. simpl in H. injection H as <-.
    split; [done| |].
    + intros p r -> Hp. rewrite Hp in Eb. by apply negb_false_iff, boundary_iff in Eb.
    + destruct (name_run_split (drop (S i) rs)) as (rest & Hr & Hrest).
      destruct (strip_dots_split (name_run u (drop (S i) rs))) as (n & Hn & Hlast).
      exists n, rest. rewrite <- Hn. split_and!; [done| | |done|done].
      * rewrite (Hdrop _ eq_refl). simpl. by rewrite Enext.
      * eapply Forall_impl; [apply name_run_names|]. intros r. apply name_rune_iff.
  - intros [Hat Hb (n & rest & Hd & Hne & Hrun & Hlast & Hrest)].
    unfold mention_at. rewrite Hat. simpl.
    destruct (tok ++ replicate n dot) as [|next run] eqn:E; [done|].
    assert (rs !! S i = Some next) as Hn.
    { replace (S i) with (S i + 0)%nat by lia. rewrite <- lookup_drop, Hd. done. }
    rewrite Hn. assert (match i with O => false | S p => match rs !! p with
      Some r' => negb (isMentionBoundary u r') | None => false end end = false) as ->.
    { destruct i as [|p]; [done|]. destruct (rs !! p) as [r|] eqn:Ep; [|done].
      by apply negb_false_iff, boundary_iff, (Hb p r). }
    pose proof (Forall_cons_1 _ _ _ Hrun) as [Hnext _]. apply name_rune_iff in Hnext as ->. simpl negb. cbn iota.
    rewrite Hd, name_run_longest by done. rewrite <- E. by rewrite strip_dots_append.
Qed.

Lemma omap_marks {A} (f : nat → option A) l :
  omap f l = (omap (λ i, pair i <$> f i) l).*2.
Proof.
  induction l as [|i l IH]; [done|]. cbn. destruct (f i); cbn; [f_equal|]; exact IH.
Qed.

Lemma marks_sorted {A} (f : nat → option A) k n :
  StronglySorted (λ a b, a.1 < b.1)%nat (omap (λ i, pair i <$> f i) (seq k n)).
Proof.
  revert k. induction n as [|n IH]; intros k; simpl; [constructor|].
  destruct (f k) as [x|]; simpl; [|apply IH]. constructor; [apply IH|]. apply Forall_forall. intros [j y] Hj.
  apply list_elem_of_omap in Hj as (j' & Hj' & (? & _ & [= <- <-])%fmap_Some). apply elem_of_seq in Hj'. simpl. lia.
Qed.

(** C27: The scan of a text finds every mention and nothing else.  The loop that
    jumps past each token it takes returns, in the order of their positions, the
    tokens of exactly the positions that have one: an at-sign at the start of
    the text or behind a blank or a punctuation mark (not an underscore or a
    dash), followed by a non-empty longest run of letters, digits, underscores,
    dashes and dots; the token is that run without the dots that close it. *)
Theorem tokenize_every_position rs :
  ∃ marks : list (nat * list Z),
    tokenizeMentions u rs = marks.*2 ∧
    StronglySorted (λ a b, a.1 < b.1)%nat marks ∧
    ∀ i tok, (i, tok) ∈ marks ↔ mention_text rs i tok.
Proof.
  exists (omap (λ i, pair i <$> mention_at u rs i) (seq 0 (length rs))).
  split_and!; [by rewrite tokenize_positions, omap_marks|apply marks_sorted|].
  intros i tok. rewrite list_elem_of_omap, <- mention_at_iff. split.
  - by intros (j & _ & (? & ? & [= <- <-])%fmap_Some).
  - intros H. exists i. rewrite H. split; [|done]. apply elem_of_seq.
    destruct (mention_at_spec _ _ _ H) as (Hi & _). apply lookup_lt_Some in Hi. lia.
Qed.

(** *** Texts split at a blank *)

Lemma name_run_stops a b r : isMentionNameRune u r = false → name_run u (a ++ r :: b) = name_run u a.
Proof. intros Hr. induction a as [|x a IH]; simpl; [by rewrite Hr|]. by rewrite IH. Qed.

Lemma mention_before a b i : (i < length a)%nat → mention_at u (a ++ 32 :: b) i = mention_at u a i.
Proof.
  intros Hi. unfold mention_at. rewrite lookup_app_l by done. destruct (a !! i) as [r|] eqn:Er; [|done].
  destruct (negb (r =? at_sign)); [done|].
  assert (drop (S i) (a ++ 32 :: b) = drop (S i) a ++ 32 :: b) as Hd by (apply drop_app_le; lia).
  rewrite Hd, name_run_stops by apply blank_not_name.
  destruct (decide (S i < length a)%nat) as [Hs|Hs].
  - rewrite lookup_app_l by done. destruct i as [|p]; [done|]. rewrite lookup_app_l by lia. done.
  - replace (S i) with (length a) by lia. rewrite list_lookup_middle by done.
    rewrite (lookup_ge_None_2 a (length a)) by lia. rewrite blank_not_name. by repeat case_match.
Qed.

Lemma mention_after a b i : mention_at u (a ++ 32 :: b) (S (length a) + i) = mention_at u b i.
Proof.
  unfold mention_at. replace (S (S (length a) + i)) with (S (length a) + S i)%nat by lia.
  assert (∀ j, (a ++ 32 :: b) !! (S (length a) + j)%nat = b !! j) as Hl.
  { intros j. rewrite lookup_app_r by lia. by replace (S (length a) + j - length a)%nat with (S j) by lia. }
  rewrite !Hl. destruct (b !! i); [|done]. destruct (negb _); [done|]. destruct (b !! S i); [|done].
  replace (S (length a) + S i)%nat with (length a + S (S i))%nat by lia.
  rewrite drop_app_add. simpl drop. destruct i as [|p].
  - rewrite Nat.add_0_r. rewrite list_lookup_middle by done. by rewrite blank_boundary.
  - change (S (length a) + S p)%nat with (S (length a + S p)).
    replace (length a + S p)%nat with (S (length a) + p)%nat by lia. rewrite Hl. done.
Qed.

Lemma omap_shift {A} (f g : nat → option A) k i n :
  (∀ j, f (k + j)%nat = g j) → omap f (seq (k + i) n) = omap g (seq i n).
Proof.
  intros H. revert i. induction n as [|n IH]; intros i; [done|]. simpl. rewrite H, <- IH.
  by rewrite Nat.add_succ_r.
Qed.

Lemma tokenize_split a b : tokenizeMentions u (a ++ 32 :: b) = tokenizeMentions u a ++ tokenizeMentions u b.
Proof.
  rewrite !tokenize_positions, length_app. simpl. rewrite seq_app, omap_app. simpl. f_equal.
  - apply list_omap_ext. apply Forall_Forall2_diag, Forall_forall. intros i Hi. apply elem_of_seq in Hi.
    apply mention_before. lia.
  - assert (mention_at u (a ++ 32 :: b) (length a) = None) as ->.
    { unfold mention_at. by rewrite list_lookup_middle. }
    rewrite <- (Nat.add_0_r (S (length a))). apply (omap_shift _ _ (S (length a)) 0). apply mention_after.
Qed.

(** *** Handles written and read back *)

Definition handle_runes (h : list Z) : Prop :=
  h ≠ [] ∧ Forall (λ r, isMentionNameRune u r = true) h ∧ last h ≠ Some dot.

Fixpoint written (hs : list (list Z)) : list Z :=
  match hs with [] => [] | [h] => at_sign :: h | h :: hs => at_sign :: h ++ 32 :: written hs end.

Lemma name_run_all h : Forall (λ r, isMentionNameRune u r = true) h → name_run u h = h.
Proof. induction 1 as [|r h Hr _ IH]; [done|]. simpl. by rewrite Hr, IH. Qed.

Lemma strip_dots_none h : last h ≠ Some dot → strip_dots h = h.
Proof.
  induction h as [|r h IH]; [done|]. simpl. destruct h as [|r' h']; intros Hl.
  - simpl in *. destruct (Z.eqb_spec r dot) as [->|]; [by destruct Hl|done].
  - rewrite IH by done. done.
Qed.

Lemma tokenize_one h : handle_runes h → tokenizeMentions u (at_sign :: h) = [h].
Proof.
  intros (Hne & Hn & Hl). rewrite tokenize_positions. cbn [length seq omap list_omap].
  assert (mention_at u (at_sign :: h) 0 = Some h) as E.
  { unfold mention_at. simpl. destruct h as [|r h]; [done|]. simpl.
    apply Forall_cons_1 in Hn as [Hr Hn]. rewrite Hr. simpl.
    rewrite name_run_all by done. f_equal. apply (strip_dots_none (r :: h) Hl). }
  rewrite E. f_equal. exact (inside_token _ _ _ E).
Qed.

(** Written handles are read back.  A text that is a list of handles, each
    behind an at-sign and separated by a blank, scans to exactly those handles;
    a handle is a run of name runes that does not end with a dot. *)
Theorem written_handles_read_back hs :
  Forall handle_runes hs → tokenizeMentions u (written hs) = hs.
Proof.
  induction 1 as [|h hs Hh Hhs IH]; [done|]. destruct hs as [|h' hs].
  - by apply tokenize_one.
  - change (written (h :: h' :: hs)) with ((at_sign :: h) ++ 32 :: written (h' :: hs)).
    by rewrite tokenize_split, tokenize_one, IH.
Qed.
End scan.

(** ** The indexes *)

Section indexes.
Context (u : Unicode).
Notation norm := (normalizeMentionName u).

(** Both display-name indexes count the rows under a key and keep the last. *)
Definition keyed {A} (key : A → option string) (acc : gmap string nat * gmap string A) (a : A) :=
  match key a with
  | None => acc
  | Some k => (<[k := S (default O (acc.1 !! k))]> acc.1, <[k := a]> acc.2)
  end.

Definition under {A} (key : A → option string) (k : string) : list A → list A := filter (λ a, key a = Some k).

Lemma keyed_spec {A} (key : A → option string) l k :
  default O ((foldl (keyed key) (∅, ∅) l).1 !! k) = length (under key k l) ∧
  (foldl (keyed key) (∅, ∅) l).2 !! k = last (under key k l).
Proof.
  induction l as [|a l IH] using rev_ind; [by simpl; rewrite !lookup_empty|].
  rewrite foldl_app. simpl. unfold under in *. rewrite filter_app, length_app, last_app.
  set (acc := foldl _ _ l) in *. clearbody acc. destruct IH as [IHc IHn]. unfold keyed.
  destruct (key a) as [k'|] eqn:E; simpl.
  2:{ rewrite filter_cons_False by congruence. rewrite filter_nil. simpl. rewrite ?IHc, ?IHn. split; [lia|done]. }
  destruct (decide (k' = k)) as [->|Hk].
  - rewrite !lookup_insert_eq, filter_cons_True by done. rewrite filter_nil. simpl. rewrite ?IHc, ?IHn. split; [lia|done].
  - rewrite !lookup_insert_ne by done. rewrite filter_cons_False by congruence. rewrite filter_nil. simpl. rewrite ?IHc, ?IHn. split; [lia|done].
Qed.

(** After the prune a key names the only row under it. *)
Lemma prune_spec {A} (key : A → option string) l k a :
  prune (foldl (keyed key) (∅, ∅) l) !! k = Some a ↔ under key k l = [a].
Proof.
  destruct (keyed_spec key l k) as [Hc Hn]. unfold prune. rewrite map_lookup_filter_Some, Hn. simpl. rewrite Hc.
  destruct (under key k l) as [|b [|c l']]; simpl; naive_solver lia.
Qed.

Definition display_key (resolve : Member → string) (m : Member) : option string :=
  if String.eqb m.2 "" then None else
  let dn := norm (resolve m) in if String.eqb dn "" then None else Some dn.

Lemma index_member_keyed resolve acc m : index_member u resolve acc m = keyed (display_key resolve) acc m.
Proof. unfold index_member, keyed, display_key. by repeat case_match. Qed.

Lemma foldl_ext_eq {A B} (f g : A → B → A) l a : (∀ a b, f a b = g a b) → foldl f a l = foldl g a l.
Proof. intros H. revert a. induction l as [|b l IH]; intros a; simpl; [done|]. by rewrite H, IH. Qed.

(** A display name never misroutes.  The index by display name maps a name to
    a member exactly when that member is the only one of the conversation that
    carries it, up to case and surrounding white space. *)
Theorem display_name_names_one_member members resolve dn m :
  buildDisplayNameIndexWithResolver u members resolve !! dn = Some m ↔ under (display_key resolve) dn members = [m].
Proof.
  unfold buildDisplayNameIndexWithResolver. rewrite (foldl_ext_eq _ (keyed (display_key resolve))).
  - apply prune_spec.
  - apply index_member_keyed.
Qed.

Definition handle_key (m : Member) : option string := if String.eqb m.2 "" then None else Some (norm m.2).

Lemma byHandle_spec members k : byHandle u members !! k = last (under handle_key k members).
Proof.
  unfold byHandle. induction members as [|m l IH] using rev_ind; [done|].
  rewrite foldl_app. simpl. unfold under in *. rewrite filter_app, last_app. unfold handle_key in *.
  destruct (String.eqb m.2 "") eqn:E.
  - rewrite filter_cons_False; [done|]. by rewrite E.
  - destruct (decide (norm m.2 = k)) as [<-|Hk].
    + rewrite lookup_insert_eq. rewrite filter_cons_True; [done|]. by rewrite E.
    + rewrite lookup_insert_ne by done. rewrite filter_cons_False; [done|]. rewrite E. congruence.
Qed.

(** A token's member: its handle first, then a display name only one carries. *)
Lemma resolve_member_spec d members k m : resolve_member u d members k = Some m →
  m ∈ members ∧ m.2 ≠ "" ∧
  (norm m.2 = k ∨
   (∀ m', m' ∈ members → m'.2 ≠ "" → norm m'.2 ≠ k) ∧
   under (display_key (resolveMemberDisplayName d)) k members = [m]).
Proof.
  unfold resolve_member. rewrite byHandle_spec. destruct (last _) as [m0|] eqn:E.
  - intros [= ->]. apply last_Some in E as [l' E].
    assert (m ∈ under handle_key k members) as Hin by (rewrite E; set_solver).
    apply list_elem_of_filter in Hin as [Hk Hin]. unfold handle_key in Hk.
    destruct (String.eqb_spec m.2 ""); simplify_eq. auto.
  - apply last_None in E. intros H. apply display_name_names_one_member in H.
    assert (m ∈ under (display_key (resolveMemberDisplayName d)) k members) as Hin by (rewrite H; set_solver).
    apply list_elem_of_filter in Hin as [Hk Hin]. unfold display_key in Hk.
    destruct (String.eqb_spec m.2 "") as [|Hne]; [done|]. split_and!; [done..|].
    right. split; [|done]. intros m' Hm' Hne' Hk'.
    assert (m' ∈ under handle_key k members) as Hin'; [|by rewrite E in Hin'; apply not_elem_of_nil in Hin'].
    apply list_elem_of_filter. split; [|done]. unfold handle_key.
    destruct (String.eqb_spec m'.2 ""); [done|]. by f_equal.
Qed.

Lemma resolve_member_total d members k m : m ∈ members → m.2 ≠ "" → norm m.2 = k →
  is_Some (resolve_member u d members k).
Proof.
  intros Hm Hne Hk. unfold resolve_member. rewrite byHandle_spec. destruct (last _) eqn:E; [by eexists|].
  apply last_None in E. assert (m ∈ under handle_key k members) as H; [|rewrite E in H; set_solver].
  apply list_elem_of_filter. split; [|done]. unfold handle_key.
  destruct (String.eqb_spec m.2 ""); [done|]. by f_equal.
Qed.

(** ** parseContentMentions *)

Definition cand_key (c : mentionCandidate) : string * string := (mc_type c, mc_id c).
Definition mn_key (m : Mention) : string * string := (mn_type m, mn_id m).

Lemma names_keep_keys cs : mn_key <$> buildMentionsWithDisplayNames u cs = cand_key <$> cs.
Proof. unfold buildMentionsWithDisplayNames. rewrite <- list_fmap_compose. by apply list_fmap_ext. Qed.

Lemma existsb_keys ty id (cs : list mentionCandidate) :
  existsb (λ c, String.eqb (mc_type c) ty && String.eqb (mc_id c) id) cs = true ↔ (ty, id) ∈ cand_key <$> cs.
Proof.
  rewrite existsb_exists, list_elem_of_fmap. split; intros (c & H1 & H2); exists c.
  - apply andb_prop in H2 as [H2%String.eqb_eq H3%String.eqb_eq]. unfold cand_key. split; [congruence|].
    by apply list_elem_of_In.
  - unfold cand_key in H1. simplify_eq. split; [by apply list_elem_of_In|]. by rewrite !String.eqb_refl.
Qed.

(** The keys of a parse grow by at most the key of the token. *)
Lemma addCandidate_keys ty id dn s :
  cand_key <$> p_candidates (addCandidate ty id dn s) =
  (if decide (id = "" ∨ (ty, id) ∈ cand_key <$> p_candidates s) then cand_key <$> p_candidates s
   else (cand_key <$> p_candidates s) ++ [(ty, id)]).
Proof.
  unfold addCandidate. destruct (String.eqb_spec id "") as [->|Hid]; [by rewrite decide_True by auto|].
  destruct (existsb _ _) eqn:E.
  - rewrite decide_True; [done|]. right. by apply existsb_keys.
  - rewrite decide_False; [simpl; by rewrite fmap_app|]. intros [?|Hin]; [done|].
    apply existsb_keys in Hin. congruence.
Qed.

(** What a key means outside the conversation: an agent's or a user's handle, or
    an entry of the directory's index. *)
Inductive outside (d : Directory) (idx : option GlobalMentionIndex) (key : string) : string * string → Prop :=
| outside_agent a : GetAgentByResourceID d key = Ok (Some a) → ar_deleted a = false →
    outside d idx key ("agent", ar_resource a)
| outside_user x : GetUserByHandle d key = Ok (Some x) → ur_deleted x = false →
    outside d idx key ("user", ur_handle x)
| outside_index i gm : idx = Some i → index_get i key = Some gm → outside d idx key (mn_key gm).

Definition means (d : Directory) (members : list Member) (idx : option GlobalMentionIndex) (key : string)
    (k : string * string) : Prop :=
  match resolve_member u d members key with
  | Some m => k = (mentionTypeString m.1, m.2)
  | None => outside d idx key k
  end.

Definition key_of (token : list Z) : string := norm (string_of token).

(** The state of the loop: distinct keys, and the two copies of the index. *)
Definition parsing_ok (d : Directory) (cache : option GlobalMentionIndex) (s : parsing) : Prop :=
  NoDup (cand_key <$> p_candidates s) ∧
  (p_global s = None ∧ (p_cache s = cache ∨ p_cache s = GetGlobalMentionIndex u d cache) ∨
   p_global s = GetGlobalMentionIndex u d cache ∧ p_cache s = GetGlobalMentionIndex u d cache).

Lemma index_cached d cache : GetGlobalMentionIndex u d (GetGlobalMentionIndex u d cache) = GetGlobalMentionIndex u d cache.
Proof. unfold GetGlobalMentionIndex. by repeat case_match; simplify_eq. Qed.

Lemma addCandidate_state ty id dn s :
  p_global (addCandidate ty id dn s) = p_global s ∧ p_cache (addCandidate ty id dn s) = p_cache s.
Proof. unfold addCandidate. by repeat case_match. Qed.

(** A step adds nothing, or one key that is new. *)
Definition grows (s s' : parsing) (P : string * string → Prop) : Prop :=
  cand_key <$> p_candidates s' = cand_key <$> p_candidates s ∨
  ∃ k, P k ∧ k ∉ cand_key <$> p_candidates s ∧
       cand_key <$> p_candidates s' = (cand_key <$> p_candidates s) ++ [k].

Lemma addCandidate_grows ty id dn s s0 (P : string * string → Prop) :
  p_candidates s = p_candidates s0 → P (ty, id) → grows s0 (addCandidate ty id dn s) P.
Proof.
  intros Hs HP. unfold grows. rewrite addCandidate_keys, Hs. case_decide as H; [by left|].
  right. exists (ty, id). split_and!; [done| |done]. intros Hin. apply H. by right.
Qed.

Lemma add_global_grows d idx key s s0 :
  p_candidates s = p_candidates s0 → p_global s = idx → grows s0 (add_global key s) (outside d idx key).
Proof.
  intros Hs Hi. unfold add_global. rewrite Hi. destruct idx as [i|]; [|left; by rewrite Hs].
  destruct (index_get i key) as [gm|] eqn:E; [|left; by rewrite Hs].
  apply addCandidate_grows; [done|]. by eapply (outside_index _ _ _ i gm).
Qed.

Lemma add_global_state key s : p_global (add_global key s) = p_global s ∧ p_cache (add_global key s) = p_cache s.
Proof.
  unfold add_global. destruct (p_global s) eqn:E; [|by rewrite E].
  destruct (index_get _ key) as [gm|]; [|by rewrite E]. rewrite <- E. apply addCandidate_state.
Qed.

(** The answer of the fallback, case by case. *)
Lemma global_fallback_cases d key s (Q : parsing → Prop) :
  Q (add_global key s) →
  (p_global s = None → ∀ a, GetAgentByResourceID d key = Ok (Some a) → ar_deleted a = false →
     Q (addCandidate "agent" (ar_resource a) (ar_name a) s)) →
  (p_global s = None → ∀ x, GetUserByHandle d key = Ok (Some x) → ur_deleted x = false →
     Q (addCandidate "user" (ur_handle x) (ur_name x) s)) →
  (p_global s = None → let idx := GetGlobalMentionIndex u d (p_cache s) in
     Q (add_global key (MkParsing (p_candidates s) idx idx))) →
  Q (global_fallback u d key s).
Proof.
  intros H1 H2 H3 H4. unfold global_fallback. destruct (p_global s) eqn:E; [done|].
  specialize (H4 eq_refl). repeat case_match; subst; eauto.
Qed.

Lemma global_fallback_grows d cache key s : parsing_ok d cache s →
  grows s (global_fallback u d key s) (outside d (GetGlobalMentionIndex u d cache) key).
Proof.
  intros [_ Hs]. apply global_fallback_cases.
  - destruct (p_global s) eqn:E.
    + destruct Hs as [[? _]|[Hg _]]; [done|]. apply add_global_grows; [done|]. congruence.
    + left. unfold add_global. by rewrite E.
  - intros _ a Ha Hd. apply addCandidate_grows; [done|]. by apply outside_agent.
  - intros _ x Hx Hd. apply addCandidate_grows; [done|]. by apply outside_user.
  - intros E idx. apply add_global_grows; [done|]. simpl. unfold idx.
    destruct Hs as [[_ [->| ->]]|[_ ->]]; [done|apply index_cached..].
Qed.

Lemma global_fallback_ok d cache key s : parsing_ok d cache s →
  let s' := global_fallback u d key s in
  p_global s' = None ∧ (p_cache s' = cache ∨ p_cache s' = GetGlobalMentionIndex u d cache) ∨
  p_global s' = GetGlobalMentionIndex u d cache ∧ p_cache s' = GetGlobalMentionIndex u d cache.
Proof.
  intros [_ Hs]. simpl. apply global_fallback_cases.
  - destruct (add_global_state key s) as [-> ->]. done.
  - intros _ a _ _. destruct (addCandidate_state "agent" (ar_resource a) (ar_name a) s) as [-> ->]. done.
  - intros _ x _ _. destruct (addCandidate_state "user" (ur_handle x) (ur_name x) s) as [-> ->]. done.
  - intros E idx. destruct (add_global_state key (MkParsing (p_candidates s) idx idx)) as [-> ->]. simpl.
    right. unfold idx. destruct Hs as [[_ [->| ->]]|[_ ->]]; [done|split; apply index_cached..].
Qed.

Lemma resolve_token_step d members cache s token : parsing_ok d cache s →
  parsing_ok d cache (resolve_token u d members s token) ∧
  grows s (resolve_token u d members s token) (means d members (GetGlobalMentionIndex u d cache) (key_of token)).
Proof.
  intros Hs. assert (grows s (resolve_token u d members s token)
    (means d members (GetGlobalMentionIndex u d cache) (key_of token))) as Hg.
  { unfold resolve_token, means, key_of. destruct (String.eqb _ ""); [by left|].
    destruct (resolve_member u d members _) as [m|]; [by apply addCandidate_grows|by apply global_fallback_grows]. }
  split; [|done]. split.
  - destruct Hs as [Hnd _]. destruct Hg as [->|(k & _ & Hk & ->)]; [done|].
    apply NoDup_app. split_and!; [done| |apply NoDup_singleton].
    intros x Hx Hx'. apply list_elem_of_singleton in Hx' as ->. done.
  - unfold resolve_token. destruct (String.eqb _ ""); [apply Hs|].
    destruct (resolve_member u d members _) as [m|]; [|by apply global_fallback_ok].
    destruct (addCandidate_state (mentionTypeString m.1) m.2 (resolveMemberDisplayName d m) s) as [-> ->]. apply Hs.
Qed.

Lemma grows_incl s s' P k : grows s s' P → k ∈ cand_key <$> p_candidates s → k ∈ cand_key <$> p_candidates s'.
Proof. intros [->|(k' & _ & _ & ->)]; set_solver. Qed.

Lemma resolve_token_member d members s token m :
  resolve_member u d members (key_of token) = Some m → key_of token ≠ "" →
  (mentionTypeString m.1, m.2) ∈ cand_key <$> p_candidates (resolve_token u d members s token).
Proof.
  intros Hm Hk. unfold resolve_token. fold (key_of token). destruct (String.eqb_spec (key_of token) ""); [done|].
  rewrite Hm, addCandidate_keys. apply resolve_member_spec in Hm as (_ & Hne & _).
  case_decide as H; [|set_solver]. by destruct H.
Qed.

Lemma tokens_fold d members cache tokens s : parsing_ok d cache s →
  let s' := foldl (resolve_token u d members) s tokens in
  parsing_ok d cache s' ∧
  (∀ k, k ∈ cand_key <$> p_candidates s' → k ∈ cand_key <$> p_candidates s ∨
     ∃ token, token ∈ tokens ∧ means d members (GetGlobalMentionIndex u d cache) (key_of token) k) ∧
  (∀ k, k ∈ cand_key <$> p_candidates s → k ∈ cand_key <$> p_candidates s') ∧
  (∀ token m, token ∈ tokens → key_of token ≠ "" → resolve_member u d members (key_of token) = Some m →
     (mentionTypeString m.1, m.2) ∈ cand_key <$> p_candidates s').
Proof.
  revert s. induction tokens as [|tok l IH]; intros s Hs; simpl.
  { split_and!; [done|by left|done|]. intros token m H. by apply not_elem_of_nil in H. }
  destruct (resolve_token_step d members cache s tok Hs) as [Hok Hg].
  destruct (IH _ Hok) as (H1 & H2 & H3 & H4). split_and!; [done| | |].
  - intros k [Hk|(t & Ht & Hm)]%H2; [|right; exists t; split; [by apply elem_of_cons; right|exact Hm]].
    destruct Hg as [E|(k' & Hk' & _ & E)]; rewrite E in Hk; [by left|].
    apply elem_of_app in Hk as [?|Hk]; [by left|]. apply list_elem_of_singleton in Hk as ->. right. exists tok. split; [apply list_elem_of_here|assumption].
  - intros k Hk. by eapply H3, grows_incl.
  - intros t m [->|Ht]%elem_of_cons Hne Hm; [|by eapply H4]. by apply H3, resolve_token_member.
Qed.

(** The mentions of a message are its tokens, each read once and in order of
    precedence.  No member is mentioned twice; every mention is what some token
    means: a member with that handle, else the only member with that display name,
    else the agent, the user or the directory entry of that name; and every token
    that names a member gives a mention of it. *)
Theorem mentions_are_the_tokens d members cache content :
  let ms := (parseContentMentions u d (Ok members) cache content).1 in
  let tokens := tokenizeMentions u (runes_of content) in
  NoDup (mn_key <$> ms) ∧
  (∀ k, k ∈ mn_key <$> ms → ∃ token, token ∈ tokens ∧
     means d members (GetGlobalMentionIndex u d cache) (key_of token) k) ∧
  (∀ token m, token ∈ tokens → key_of token ≠ "" → m ∈ members → m.2 ≠ "" → norm m.2 = key_of token →
     ∃ m', m' ∈ members ∧ norm m'.2 = key_of token ∧ (mentionTypeString m'.1, m'.2) ∈ mn_key <$> ms).
Proof.
  simpl. rewrite names_keep_keys.
  destruct (tokens_fold d members cache (tokenizeMentions u (runes_of content)) (MkParsing [] None cache))
    as ([Hnd _] & H2 & _ & H4).
  { split; [apply NoDup_nil_2|]. left. auto. }
  split_and!; [done| |].
  - intros k [Hk|Hk]%H2; [by apply not_elem_of_nil in Hk|done].
  - intros token m Ht Hne Hm Hid Hk. destruct (resolve_member_total d members _ m Hm Hid Hk) as [m' Hm'].
    exists m'. pose proof (resolve_member_spec _ _ _ _ Hm') as (Hin & _ & [He|[Hno _]]); [|by destruct (Hno m)].
    split_and!; [done..|]. by eapply H4.
Qed.
End indexes.

(** ** mergeMentions *)

Lemma merge_add_cases out m :
  merge_add out m = out ∧ mention_key m ∈ mention_key <$> out ∨
  merge_add out m = out ++ [m] ∧ mention_key m ∉ mention_key <$> out.
Proof.
  unfold merge_add. destruct (existsb _ out) eqn:E; [left|right]; (split; [done|]).
  - apply existsb_exists in E as (m' & Hin & Hk%String.eqb_eq). rewrite <- Hk.
    apply list_elem_of_fmap_2. by apply list_elem_of_In.
  - intros Hin. apply list_elem_of_fmap in Hin as (m' & Hk & Hin). apply not_true_iff_false in E. destruct E.
    apply existsb_exists. exists m'. split; [by apply list_elem_of_In|]. by apply String.eqb_eq.
Qed.

Definition first_in (l : list Mention) (m : Mention) : Prop :=
  ∃ l1 l2, l = l1 ++ m :: l2 ∧ mention_key m ∉ mention_key <$> l1.

Lemma first_in_app l l' m : first_in l m → first_in (l ++ l') m.
Proof. intros (l1 & l2 & -> & H). exists l1, (l2 ++ l'). by rewrite <- app_assoc. Qed.

Lemma merge_spec l :
  let out := foldl merge_add [] l in
  NoDup (mention_key <$> out) ∧ (∀ m, m ∈ out → first_in l m) ∧
  (∀ k, k ∈ mention_key <$> l → k ∈ mention_key <$> out).
Proof.
  induction l as [|m l IH] using rev_ind; simpl.
  { split_and!; [apply NoDup_nil_2|intros m H; by apply not_elem_of_nil in H|done]. }
  rewrite foldl_app. simpl in *. destruct IH as (H1 & H2 & H3).
  set (out := foldl merge_add [] l) in *. clearbody out. setoid_rewrite fmap_app. simpl.
  destruct (merge_add_cases out m) as [[-> Hk]|[-> Hk]].
  - split_and!; [done|intros; by apply first_in_app, H2|]. intros k [?|Hk']%elem_of_app; [auto|].
    apply list_elem_of_singleton in Hk' as ->. done.
  - split_and!.
    + rewrite fmap_app. apply NoDup_app. split_and!; [done| |apply NoDup_singleton].
      intros k Hin Hk'. by apply list_elem_of_singleton in Hk' as ->.
    + intros m' [?|Hm']%elem_of_app; [by apply first_in_app, H2|]. apply list_elem_of_singleton in Hm' as ->.
      exists l, []. split; [done|]. intros Hin. by apply Hk, H3.
    + intros k. rewrite fmap_app. simpl. set_solver.
Qed.

(** A merge keeps the first mention of each member.  The mentions the server
    parsed come before those the client sent: the result has every member of both
    lists once, as the first of the two lists has it, so a client cannot rename a
    mention the text makes. *)
Theorem merge_keeps_the_first parsed client :
  let out := mergeMentions parsed client in
  NoDup (mention_key <$> out) ∧ (∀ m, m ∈ out → first_in (parsed ++ client) m) ∧
  (∀ k, k ∈ mention_key <$> parsed ++ client → k ∈ mention_key <$> out).
Proof. simpl. unfold mergeMentions. rewrite <- foldl_app. apply merge_spec. Qed.

(** ** Concrete runs *)

Module MentionsDemo.

Definition u := ascii_unicode.
Definition toks (s : string) : list string := string_of <$> tokenizeMentions u (runes_of s).

(** The cases of the source's tests. *)
Example bare : toks "please ask @alice-user-1, @bob-user-2. ok" = ["alice-user-1"; "bob-user-2"].
Proof. vm_compute. reflexivity. Qed.
Example email : toks "reach me at alice@example.com or see you @" = [].
Proof. vm_compute. reflexivity. Qed.
Example dots : toks "ask @team.lead-user-1.. now" = ["team.lead-user-1"].
Proof. vm_compute. reflexivity. Qed.

Lemma handle_decide h : (negb (bool_decide (h = [])) && forallb (isMentionNameRune u) h && negb (bool_decide (last h = Some dot))) = true →
  handle_runes u h.
Proof.
  rewrite !andb_true_iff, !negb_true_iff, !bool_decide_eq_false, forallb_forall. intros [[H1 H2] H3].
  split_and!; [done| |done]. apply Forall_forall. intros r Hr. by apply H2, list_elem_of_In.
Qed.

Lemma written_handles_read_back_witness :
  tokenizeMentions u (written [runes_of "rei-agent-1"; runes_of "alice-user-1"]) =
  [runes_of "rei-agent-1"; runes_of "alice-user-1"].
Proof.
  apply (written_handles_read_back u). repeat (apply Forall_cons; split; [by apply handle_decide|]). apply Forall_nil_2.
Defined.

Definition line : list Z := runes_of "ask @bob, not a@b or @al.".
Lemma tokenize_every_position_witness :
  ∃ marks, [runes_of "bob"; runes_of "al"] = marks.*2 ∧
    StronglySorted (λ a b : nat * list Z, a.1 < b.1)%nat marks ∧
    ∀ i tok, (i, tok) ∈ marks ↔ mention_text u line i tok.
Proof.
  destruct (tokenize_every_position u line) as (marks & H & Hs & Hm). exists marks.
  split_and!; [|exact Hs|exact Hm]. transitivity (tokenizeMentions u line); [vm_compute; reflexivity|exact H].
Defined.

(** Two agents share a display name; one user has his own. *)
Definition agents := [MkAgentRow 1 "rei-agent-1" "Rei" false; MkAgentRow 2 "bot-agent-1" "Rei" false].
Definition users := [MkUserRow 3 "alice-user-1" "Alice" false; MkUserRow 4 "bob-user-2" "Bob" false].
Definition d : Directory :=
  MkDirectory (λ k, Ok (head (filter (λ a, ar_resource a = k) agents)))
    (λ k, Ok (head (filter (λ x, ur_handle x = k) users))) (Ok agents) (Ok users).
Definition members : list Member := [(2, "rei-agent-1"); (2, "bot-agent-1"); (1, "alice-user-1")].

Example parsed :
  (parseContentMentions u d (Ok members) None "@Alice ask @rei-agent-1 and @bot-agent-1, not @Rei; cc @bob").1 =
  [MkMention "user" "alice-user-1" "Alice"; MkMention "agent" "rei-agent-1" "rei-agent-1";
   MkMention "agent" "bot-agent-1" "bot-agent-1"; MkMention "user" "bob-user-2" "Bob"].
Proof. vm_compute. reflexivity. Qed.

End MentionsDemo.
