(* ===== verification/Messages.v ===== *)
(** The messages of a conversation: the store's writes and reads over
    [chat_message], the cursors of agents and the subscriptions to threads
    ([store/chat_message.go], [agent_channel_cursor.go], [thread_participant.go]
    and the creation of task messages in [task.go]).

    [Room] is the tables; [World] what a request reads elsewhere (users, agents,
    teams, files, the ids and times the server draws, the calls that fail) and
    what other sessions commit meanwhile: [w_others n] at the [n]-th gap between
    two statements.  A transaction is one function from tables to tables and
    changes nothing when it fails.  Rows that compare equal under an ORDER BY keep
    the order of insertion. *)

From stdpp Require Import base list strings numbers gmap sets sorting.
From S2P Require Import Prelude Strings Names Runes Iam Policies Mentions Membership.
Local Open Scope Z_scope.

(** ** The tables *)

Record Attachment := MkAttachment { at_id : string; at_name : string; at_size : Z }.

(** A row of [chat_message]; [m_root] is thread_root_message_id. *)
Record Message := MkMsg {
  m_id : string; m_conv : string; m_principal : Z; m_agent : option Z; m_role : Z; m_content : string;
  m_command : option string; m_created : Z; m_version : Z; m_sender : Z;
  m_mentions : list Mention; m_attachments : list Attachment; m_root : option string }.

Definition SenderTypeUser : Z := 1.
Definition SenderTypeAgent : Z := 2.
Definition SenderTypeSystem : Z := 3.

(** A row of [task]. *)
Record Task := MkTask {
  t_conv : string; t_number : Z; t_status : Z; t_agent : option Z; t_user : option Z; t_type : option Z;
  t_team : option string; t_completed : option Z }.

Definition TaskStatusTodo : Z := 1.
Definition TaskStatusInProgress : Z := 2.
Definition TaskStatusInReview : Z := 3.
Definition TaskStatusDone : Z := 4.

(** A row of [reminder]; [re_cron] is "" for NULL. *)
Record Reminder := MkRem {
  re_conv : string; re_agent : Z; re_content : string; re_fire : Z; re_cron : string; re_tz : string; re_status : Z;
  re_retry : Z; re_next : option Z; re_attempt : option Z; re_fired : option Z; re_completed : option Z; re_result : string;
  re_created : Z; re_updated : Z }.

Definition ReminderStatusPending : Z := 1.
Definition ReminderStatusDue : Z := 2.
Definition ReminderStatusCompleted : Z := 3.
Definition ReminderStatusCancelled : Z := 4.
Definition ReminderStatusMissed : Z := 5.
Definition ReminderStatusFailed : Z := 6.

(** What the scheduler of reminders sees: the table, the agents whose machine is
    connected, and the manager's clock. *)
Record Desk := MkDesk { dk_rems : gmap string Reminder; dk_online : Z → bool; dk_clock : Z }.

(** What the API sends: a wake of long-polling readers, and the dispatcher's
    notices to an agent. *)
Inductive Event :=
| NotifyWake (agentID : Z)
| NotifyConversation (convID : string)
| NotifyNewMessages (agentID : Z) (convID : string) (version : Z)
| NotifyThreadMention (agentID : Z) (convID : string) (version : Z) (rootID : string).

Record Room := MkRoom {
  r_chat : Chat;
  r_msgs : list Message; (* in the order of insertion *)
  r_updated : gmap string Z; (* conversation.updated_at *)
  r_number : gmap string Z; (* conversation.next_task_number, 1 at first *)
  r_closed : gset (string * Member); (* the closed rows of conversation_member_meta *)
  r_subs : gset (string * Z); (* thread_participant *)
  r_usubs : gset (string * Z); (* user_thread_participant *)
  r_tasks : gmap string Task;
  r_links : gset (string * string); (* command_conversation *)
  r_desk : Desk;
  r_events : list Event }.

Record FileRow := MkFile { f_id : string; f_conv : option string; f_name : string; f_size : Z }.
Record TeamMember := MkTeamMember { tm_agent : Z; tm_resource : string; tm_role : Z; tm_responsibility : string }.
Record Team := MkTeam {
  te_id : string; te_resource : string; te_title : string; te_prompt : string; te_leader : option Z; te_members : list TeamMember }.

(** What a lifecycle notice says; its text is made by fmt.Sprintf. *)
Inductive Notice :=
| Created (actor : string) (number : Z) (content : string) | Converted (actor : string) (number : Z) (content : string)
| Claimed (actor : string) (number : Z) (content : string) | Released (actor : string) (number : Z)
| ForReview (actor : string) (number : Z) | Completed (actor : string) (number : Z)
| Assigned (actor : string) (number : Z) (assignee : string) | Closed (actor : string) (number : Z) (content : string).

Record World := MkWorld {
  w_dir : Dir;
  w_names : Directory;
  w_agents : Z → option AgentRow; (* the agent table, by id *)
  w_users : Z → option UserRow; (* the principal table, by id *)
  w_team : string → res string (option Team); (* by id *)
  w_team_name : string → res string (option Team); (* by resource id *)
  w_file : string → res string (option FileRow);
  w_unicode : Unicode;
  w_sprintf : Notice → string;
  w_uuid : list Message → string; (* gen_random_uuid() *)
  w_now : list Message → Z; (* the start of the transaction *)
  w_current : Z → string; (* the dispatcher's CurrentCommandID *)
  w_others : nat → Room → Room }.

(** *** Updates *)

Definition set_chat (f : Chat → Chat) (r : Room) : Room :=
  MkRoom (f (r_chat r)) (r_msgs r) (r_updated r) (r_number r) (r_closed r) (r_subs r) (r_usubs r) (r_tasks r) (r_links r) (r_desk r) (r_events r).
Definition set_msgs (f : list Message → list Message) (r : Room) : Room :=
  MkRoom (r_chat r) (f (r_msgs r)) (r_updated r) (r_number r) (r_closed r) (r_subs r) (r_usubs r) (r_tasks r) (r_links r) (r_desk r) (r_events r).
Definition set_updated (f : gmap string Z → gmap string Z) (r : Room) : Room :=
  MkRoom (r_chat r) (r_msgs r) (f (r_updated r)) (r_number r) (r_closed r) (r_subs r) (r_usubs r) (r_tasks r) (r_links r) (r_desk r) (r_events r).
Definition set_number (f : gmap string Z → gmap string Z) (r : Room) : Room :=
  MkRoom (r_chat r) (r_msgs r) (r_updated r) (f (r_number r)) (r_closed r) (r_subs r) (r_usubs r) (r_tasks r) (r_links r) (r_desk r) (r_events r).
Definition set_closed (f : gset (string * Member) → gset (string * Member)) (r : Room) : Room :=
  MkRoom (r_chat r) (r_msgs r) (r_updated r) (r_number r) (f (r_closed r)) (r_subs r) (r_usubs r) (r_tasks r) (r_links r) (r_desk r) (r_events r).
Definition set_subs (f : gset (string * Z) → gset (string * Z)) (r : Room) : Room :=
  MkRoom (r_chat r) (r_msgs r) (r_updated r) (r_number r) (r_closed r) (f (r_subs r)) (r_usubs r) (r_tasks r) (r_links r) (r_desk r) (r_events r).
Definition set_usubs (f : gset (string * Z) → gset (string * Z)) (r : Room) : Room :=
  MkRoom (r_chat r) (r_msgs r) (r_updated r) (r_number r) (r_closed r) (r_subs r) (f (r_usubs r)) (r_tasks r) (r_links r) (r_desk r) (r_events r).
Definition set_tasks (f : gmap string Task → gmap string Task) (r : Room) : Room :=
  MkRoom (r_chat r) (r_msgs r) (r_updated r) (r_number r) (r_closed r) (r_subs r) (r_usubs r) (f (r_tasks r)) (r_links r) (r_desk r) (r_events r).
Definition set_links (f : gset (string * string) → gset (string * string)) (r : Room) : Room :=
  MkRoom (r_chat r) (r_msgs r) (r_updated r) (r_number r) (r_closed r) (r_subs r) (r_usubs r) (r_tasks r) (f (r_links r)) (r_desk r) (r_events r).
Definition set_desk (f : Desk → Desk) (r : Room) : Room :=
  MkRoom (r_chat r) (r_msgs r) (r_updated r) (r_number r) (r_closed r) (r_subs r) (r_usubs r) (r_tasks r) (r_links r) (f (r_desk r)) (r_events r).
Definition set_rems (f : gmap string Reminder → gmap string Reminder) : Room → Room :=
  set_desk (λ k, MkDesk (f (dk_rems k)) (dk_online k) (dk_clock k)).
Definition emit (es : list Event) (r : Room) : Room :=
  MkRoom (r_chat r) (r_msgs r) (r_updated r) (r_number r) (r_closed r) (r_subs r) (r_usubs r) (r_tasks r) (r_links r) (r_desk r) (r_events r ++ es).

Definition r_rems (r : Room) : gmap string Reminder := dk_rems (r_desk r).
Definition room_conv (r : Room) (convID : string) : option Conversation := ch_convs (r_chat r) !! convID.

(** *** Statements *)

Section store.
Context (w : World).

(** A transaction, or a statement that is its own. *)
Definition tx {A} (f : Room → res string (Room * A)) : M Room string A := λ r,
  match f r with Ok (r', a) => (r', Ok a) | Err x => (r, Err x) end.

(** A query. *)
Definition query {A} (name : string) (f : Room → A) : M Room string A := λ r, (r, call (w_dir w) name (f r)).

(** What other sessions commit here. *)
Definition gap (n : nat) {Er} : M Room Er unit := modify (w_others w n).

Definition MaxInt64 : Z := 9223372036854775807.

Definition set_version (v : Z) (c : Conversation) : Conversation :=
  MkConv (cv_type c) (cv_owner c) (cv_title c) (cv_archived c) v (cv_meta c).

(** conversationVersionBumpSQL *)
Definition bump_version (convID : string) (r : Room) : res string (Room * Z) :=
  match room_conv r convID with
  | None => Err "failed to bump conversation version"
  | Some c =>
      if cv_version c =? MaxInt64 then Err "bigint out of range" else
      let v := cv_version c + 1 in
      Ok (set_updated <[convID := w_now w (r_msgs r)]> (set_chat (set_convs (alter (set_version v) convID)) r), v)
  end.

(** *** chat_message.go: the insert *)

Definition clear_closed (convID : string) (r : Room) : Room := set_closed (filter (λ k, k.1 ≠ convID)) r.

Definition createChatMessageInTx (msg : Message) (roomVersion : Z) (r : Room) : res string (Room * Message) :=
  let id := w_uuid w (r_msgs r) in
  if bool_decide (id ∈ m_id <$> r_msgs r) then Err "duplicate key" else
  if match m_root msg with Some root => negb (bool_decide (root ∈ m_id <$> r_msgs r)) | None => false end
  then Err "violates foreign key constraint" else
  let row := MkMsg id (m_conv msg) (m_principal msg) (m_agent msg) (m_role msg) (m_content msg) (m_command msg)
               (w_now w (r_msgs r)) roomVersion (m_sender msg) (m_mentions msg) (m_attachments msg) (m_root msg) in
  let r := set_msgs (λ l, l ++ [row]) r in
  Ok (match m_root msg with None => clear_closed (m_conv msg) r | Some _ => r end, row).

Definition CreateChatMessageBumpVersion (msg : Message) : M Room string Message := tx (λ r,
  match bump_version (m_conv msg) r with
  | Err x => Err x
  | Ok (r, newVersion) =>
      match createChatMessageInTx msg newVersion r with
      | Err x => Err x
      | Ok (r, row) => call (w_dir w) "CreateChatMessageBumpVersion" (emit [NotifyConversation (m_conv msg)] r, row)
      end
  end).

(** *** task.go: the insert of a task message *)

(** At most one active task of a team: the index idx_task_team_active. *)
Definition active (t : Task) : bool := (t_status t =? 1) || (t_status t =? 2) || (t_status t =? 3).

Definition team_clash (tasks : gmap string Task) (id : string) (t : Task) : bool :=
  match t_team t with
  | None => false
  | Some team =>
      active t && existsb (λ kv : string * Task, negb (String.eqb kv.1 id) && active kv.2 &&
                             bool_decide (t_team kv.2 = Some team)) (map_to_list tasks)
  end.

Definition createTaskRowInTx (msgID convID : string) (taskNumber status : Z) (assignee : option Z) (r : Room)
    : res string Room :=
  match r_tasks r !! msgID with
  | Some _ => Err "duplicate key"
  | None => Ok (set_tasks <[msgID := MkTask convID taskNumber status assignee None None None None]> r)
  end.

Definition MaxInt32 : Z := 2147483647.

(** next_task_number + 1, and the number before. *)
Definition bump_number (convID : string) (r : Room) : res string (Room * Z) :=
  let n := default 1 (r_number r !! convID) in
  if n =? MaxInt32 then Err "integer out of range" else Ok (set_number <[convID := n + 1]> r, n).

Definition CreateTaskMessageBumpVersion (msg : Message) : M Room string (Message * Z) := tx (λ r,
  match bump_version (m_conv msg) r with
  | Err x => Err x
  | Ok (r, newVersion) =>
      match bump_number (m_conv msg) r with
      | Err x => Err x
      | Ok (r, taskNumber) =>
          match createChatMessageInTx msg newVersion r with
          | Err x => Err x
          | Ok (r, row) =>
              match createTaskRowInTx (m_id row) (m_conv msg) taskNumber TaskStatusTodo None r with
              | Err x => Err x
              | Ok r => call (w_dir w) "CreateTaskMessageBumpVersion" (emit [NotifyConversation (m_conv msg)] r, (row, taskNumber))
              end
          end
      end
  end).

(** *** chat_message.go: the reads *)

(** The columns of a task as fillTaskInfo shows them. *)
Record TaskInfo := MkInfo {
  ti_number : Z; ti_status : Z; ti_agent : option Z; ti_user : option Z; ti_type : Z;
  ti_name : string; ti_resource : string; ti_team : string }.

Record View := MkView { v_msg : Message; v_replies : Z; v_task : option TaskInfo }.

Definition is_root (m : Message) : bool := match m_root m with None => true | Some _ => false end.
Definition is_reply_of (root : string) (m : Message) : bool :=
  match m_root m with Some x => String.eqb x root | None => false end.

Definition reply_count (r : Room) (root : string) : Z := Z.of_nat (length (filter (λ m, is_reply_of root m = true) (r_msgs r))).

(** fillThreadReplyCounts *)
Definition fillThreadReplyCounts (r : Room) (v : View) : View :=
  if is_root (v_msg v) then MkView (v_msg v) (reply_count r (m_id (v_msg v))) (v_task v) else v.

(** The team a task names; the join does not look at agent_team.deleted. *)
Definition task_team (t : Task) : option Team :=
  match t_team t with None => None | Some id => match w_team w id with Ok x => x | Err _ => None end end.

Definition task_info (t : Task) : res string TaskInfo :=
  let agent := t_agent t ≫= w_agents w in
  let user := t_user t ≫= w_users w in
  let agent_name := default "" (ar_name <$> agent) in
  let agent_resource := default "" (ar_resource <$> agent) in
  let show ty name resource team := Ok (MkInfo (t_number t) (t_status t) (t_agent t) (t_user t) ty name resource team) in
  let ty := default 0 (t_type t) in
  if ty =? 3 then
    let resource := default "" (te_resource <$> task_team t) in
    show 3 (default "" (te_title <$> task_team t)) resource resource
  else if ty =? 2 then show 2 agent_name agent_resource ""
  else if ty =? 1 then show 1 (default "" (ur_name <$> user)) (default "" (ur_handle <$> user)) ""
  else if ty =? 0 then
    match t_agent t with Some _ => show 2 agent_name agent_resource "" | None => show 0 "" "" "" end
  else Err "Incorrect AssigneeType".

Definition fill_task (r : Room) (v : View) : res string View :=
  if is_root (v_msg v) then
    match r_tasks r !! m_id (v_msg v) with
    | None => Ok v
    | Some t => match task_info t with Err x => Err x | Ok ti => Ok (MkView (v_msg v) (v_replies v) (Some ti)) end
    end
  else Ok v.

Fixpoint fillTaskInfo (r : Room) (vs : list View) : res string (list View) :=
  match vs with
  | [] => Ok []
  | v :: vs =>
      match fill_task r v, fillTaskInfo r vs with
      | Ok v, Ok vs => Ok (v :: vs)
      | Err x, _ | _, Err x => Err x
      end
  end.

Definition created_le (a b : Message) : Prop := m_created a ≤ m_created b.
Definition created_ge (a b : Message) : Prop := m_created b ≤ m_created a.
Definition version_le (a b : Message) : Prop := m_version a ≤ m_version b.
Definition version_ge (a b : Message) : Prop := m_version b ≤ m_version a.
#[export] Instance created_le_dec : RelDecision created_le := λ a b, Z.le_dec (m_created a) (m_created b).
#[export] Instance created_ge_dec : RelDecision created_ge := λ a b, Z.le_dec (m_created b) (m_created a).
#[export] Instance version_le_dec : RelDecision version_le := λ a b, Z.le_dec (m_version a) (m_version b).
#[export] Instance version_ge_dec : RelDecision version_ge := λ a b, Z.le_dec (m_version b) (m_version a).

(** LIMIT and OFFSET *)
Definition page (limit offset : Z) (l : list Message) : list Message := take (Z.to_nat limit) (drop (Z.to_nat offset) l).

Definition roots_of (convID : string) (r : Room) : list Message :=
  filter (λ m, m_conv m = convID ∧ is_root m = true) (r_msgs r).

(** The rows of a descending order, reversed by the code only where
    [afterVersion] is zero. *)
Definition chronological (afterVersion : Z) (l : list Message) : list Message :=
  if afterVersion =? 0 then reverse l else l.

(** The SELECT, and the order of its rows. *)
Definition select_conversation (convID : string) (afterVersion beforeVersion limit offset : Z) (r : Room) : list Message :=
  let rows := roots_of convID r in
  if 0 <? afterVersion then page limit offset (merge_sort created_le (filter (λ m, afterVersion < m_version m) rows))
  else if 0 <? beforeVersion
  then chronological afterVersion (page limit offset (merge_sort version_ge (filter (λ m, m_version m < beforeVersion) rows)))
  else chronological afterVersion (page limit offset (merge_sort created_ge rows)).

Definition conversation_version (convID : string) : M Room string Z := λ r,
  (r, match room_conv r convID with
      | Some c => call (w_dir w) "GetConversationVersion" (cv_version c)
      | None => Err "failed to get conversation version"
      end).

Definition fill (vs : list View) : M Room string (list View) := λ r, (r, fillTaskInfo r (fillThreadReplyCounts r <$> vs)).

Definition view (m : Message) : View := MkView m 0 None.

(** The rows, then the counts, the tasks and the version, each its own statement. *)
Definition ListConversationMessages (convID : string) (afterVersion beforeVersion limit offset : Z)
    : M Room string (list View * Z) :=
  if (0 <? afterVersion) && (0 <? beforeVersion) then throw "after_version and before_version are mutually exclusive" else
  msgs ← query "ListConversationMessages" (select_conversation convID afterVersion beforeVersion limit offset);
  gap 3 ;;
  vs ← fill (view <$> msgs);
  v ← conversation_version convID;
  mret (vs, v).

Definition select_replies (rootID : string) (afterVersion beforeVersion limit offset : Z) (r : Room) : list Message :=
  let rows := filter (λ m, is_reply_of rootID m = true) (r_msgs r) in
  if 0 <? afterVersion then page limit offset (merge_sort version_le (filter (λ m, afterVersion < m_version m) rows))
  else if 0 <? beforeVersion
  then chronological afterVersion (page limit offset (merge_sort version_ge (filter (λ m, m_version m < beforeVersion) rows)))
  else chronological afterVersion (page limit offset (merge_sort created_ge rows)).

Definition find_root (convID rootID : string) (r : Room) : option Message :=
  head (filter (λ m, m_id m = rootID ∧ m_conv m = convID ∧ is_root m = true) (r_msgs r)).

Definition thread_root (convID rootID : string) : M Room string Message := λ r,
  (r, match find_root convID rootID r with Some m => Ok m | None => Err "failed to get thread root message" end).

Definition fill_one (v : View) : M Room string View :=
  vs ← fill [v]; match vs with v :: _ => mret v | [] => mret v end.

Definition ListThreadMessages (convID rootID : string) (afterVersion beforeVersion limit offset : Z)
    : M Room string (list View * Z) :=
  if (0 <? afterVersion) && (0 <? beforeVersion) then throw "after_version and before_version are mutually exclusive" else
  root ← thread_root convID rootID;
  replies ← query "ListThreadMessages" (select_replies rootID afterVersion beforeVersion limit offset);
  gap 3 ;;
  v ← conversation_version convID;
  root ← fill_one (view root);
  mret (root :: (view <$> replies), v).

Definition IsThreadRoot (convID rootID : string) : M Room string bool :=
  query "IsThreadRoot" (λ r, match find_root convID rootID r with Some _ => true | None => false end).

Definition GetThreadRootSender (rootID : string) : M Room string (Z * option Z) := λ r,
  (r, match list_find (λ m, m_id m = rootID) (r_msgs r) with
      | Some (_, m) => call (w_dir w) "GetThreadRootSender" (m_sender m, m_agent m)
      | None => Err "failed to get thread root sender"
      end).
End store.
