(* ===== verification/Inbox.v ===== *)
(** The inbox of an agent: its cursor in each conversation
    ([store/agent_channel_cursor.go]), its subscriptions to threads
    ([store/thread_participant.go]) and the listing of a channel's threads
    ([ListChannelThreads] of [store/chat_message.go]). *)

From stdpp Require Import base list strings numbers gmap sets sorting.
From S2P Require Import Prelude Strings Names Iam Policies Mentions Membership Messages.
Local Open Scope Z_scope.

Section inbox.
Context (w : World).
Notation query := (Messages.query w).

(** ** agent_channel_cursor.go *)

(** agentRelevantMessageCondition *)
Definition relevant (r : Room) (agentID : Z) (m : Message) : bool :=
  match m_root m with None => true | Some root => bool_decide ((root, agentID) ∈ r_subs r) end &&
  negb (m_sender m =? SenderTypeSystem).

(** COALESCE(acc.processed_version, c.version) *)
Definition processed (r : Room) (agentID : Z) (convID : string) (c : Conversation) : Z :=
  default (cv_version c) (ch_cursors (r_chat r) !! (agentID, convID)).

Definition resource_of (agentID : Z) : option string := ar_resource <$> w_agents w agentID.

Definition is_agent_member (agentID : Z) (c : Conversation) : bool :=
  match resource_of agentID with Some id => bool_decide ((MemberTypeAgent, id) ∈ cv_meta c) | None => false end.

(** The messages the agent has not processed. *)
Definition new_messages (r : Room) (agentID : Z) (convID : string) (c : Conversation) : list Message :=
  filter (λ m, m_conv m = convID ∧ processed r agentID convID c < m_version m ∧ relevant r agentID m = true) (r_msgs r).

Record ChannelUpdate := MkUpdate { cu_conv : string; cu_current : Z; cu_processed : Z; cu_new : Z }.

Definition has_update (r : Room) (agentID : Z) (kv : string * Conversation) : bool :=
  is_agent_member agentID kv.2 && (processed r agentID kv.1 kv.2 <? cv_version kv.2) &&
  match new_messages r agentID kv.1 kv.2 with [] => false | _ => true end.

Definition updated_at (r : Room) (convID : string) : Z := default 0 (r_updated r !! convID).

Definition updated_ge (r : Room) (a b : string * Conversation) : Prop := updated_at r b.1 ≤ updated_at r a.1.
#[export] Instance updated_ge_dec r : RelDecision (updated_ge r) := λ a b, Z.le_dec (updated_at r b.1) (updated_at r a.1).

Definition channel_updates (agentID : Z) (r : Room) : list ChannelUpdate :=
  (λ kv : string * Conversation,
     MkUpdate kv.1 (cv_version kv.2) (processed r agentID kv.1 kv.2) (i32 (Z.of_nat (length (new_messages r agentID kv.1 kv.2)))))
  <$> merge_sort (updated_ge r) (filter (λ kv, has_update r agentID kv = true) (map_to_list (ch_convs (r_chat r)))).

Definition ListChannelsWithUpdates (agentID : Z) : M Room string (list ChannelUpdate) :=
  query "ListChannelsWithUpdates" (channel_updates agentID).

Definition has_updates (agentID : Z) (r : Room) : bool :=
  existsb (has_update r agentID) (map_to_list (ch_convs (r_chat r))).

Definition HasUpdates (agentID : Z) : M Room string bool := query "HasUpdates" (has_updates agentID).

(** UpsertCursor; the foreign key asks for the conversation. *)
Definition UpsertCursor (agentID : Z) (convID : string) (processedVersion : Z) : M Room string Z := tx (λ r,
  match room_conv r convID with
  | None => Err "failed to upsert agent channel cursor"
  | Some _ =>
      let r := set_chat (set_cursor (agentID, convID) processedVersion) r in
      call (w_dir w) "UpsertCursor" (r, default 0 (ch_cursors (r_chat r) !! (agentID, convID)))
  end).

Definition GetCursor (agentID : Z) (convID : string) : M Room string (Z * bool) :=
  query "GetCursor" (λ r, match ch_cursors (r_chat r) !! (agentID, convID) with Some v => (v, true) | None => (0, false) end).

(** SeedCursorOnJoin: the version, then the cursor. *)
Definition seed_cursor (agentID : Z) (convID : string) : M Room string unit :=
  v ← conversation_version w convID; UpsertCursor agentID convID v ;; mret tt.

(** ** thread_participant.go *)

Definition AddThreadParticipants (rootID : string) (agentIDs : list Z) : M Room string unit := tx (λ r,
  match agentIDs with
  | [] => Ok (r, tt)
  | _ => call (w_dir w) "AddThreadParticipants" (set_subs (λ s, s ∪ list_to_set (pair rootID <$> agentIDs)) r, tt)
  end).

Definition AddUserThreadParticipants (rootID : string) (principalIDs : list Z) : M Room string unit := tx (λ r,
  match principalIDs with
  | [] => Ok (r, tt)
  | _ => call (w_dir w) "AddUserThreadParticipants" (set_usubs (λ s, s ∪ list_to_set (pair rootID <$> principalIDs)) r, tt)
  end).

Definition subscribers (rootID : string) (s : gset (string * Z)) : list Z :=
  snd <$> filter (λ k : string * Z, k.1 = rootID) (elements s).

Definition ListThreadParticipantAgents (rootID : string) : M Room string (list Z) :=
  query "ListThreadParticipantAgents" (λ r, subscribers rootID (r_subs r)).

Definition ListUserThreadParticipants (rootID : string) : M Room string (list Z) :=
  query "ListUserThreadParticipants" (λ r, subscribers rootID (r_usubs r)).

Definition IsThreadParticipant (rootID : string) (agentID : Z) : M Room string bool :=
  query "IsThreadParticipant" (λ r, bool_decide ((rootID, agentID) ∈ r_subs r)).

Record ThreadUpdate := MkThreadUpdate { tu_conv : string; tu_root : string; tu_latest : Z; tu_new : Z }.

Definition new_replies (r : Room) (agentID : Z) (convID : string) (c : Conversation) (rootID : string) : list Message :=
  filter (λ m, is_reply_of rootID m = true ∧ processed r agentID convID c < m_version m) (r_msgs r).

Definition latest (ms : list Message) : Z := foldr (λ m v, Z.max (m_version m) v) 0 ms.

(** One group of the query: a thread the agent subscribed to. *)
Definition thread_update (r : Room) (agentID : Z) (rootID : string) : option ThreadUpdate :=
  '(_, root) ← list_find (λ m, m_id m = rootID) (r_msgs r);
  c ← room_conv r (m_conv root);
  let ms := new_replies r agentID (m_conv root) c rootID in
  if is_agent_member agentID c && match ms with [] => false | _ => true end
  then Some (MkThreadUpdate (m_conv root) rootID (latest ms) (i32 (Z.of_nat (length ms)))) else None.

Definition latest_ge (a b : ThreadUpdate) : Prop := tu_latest b ≤ tu_latest a.
#[export] Instance latest_ge_dec : RelDecision latest_ge := λ a b, Z.le_dec (tu_latest b) (tu_latest a).

Definition subscribed_threads (agentID : Z) (r : Room) : list string :=
  fst <$> filter (λ k : string * Z, k.2 = agentID) (elements (r_subs r)).

Definition thread_updates (agentID : Z) (r : Room) : list ThreadUpdate :=
  merge_sort latest_ge (omap (thread_update r agentID) (subscribed_threads agentID r)).

Definition ListSubscribedThreadUpdates (agentID : Z) : M Room string (list ThreadUpdate) :=
  query "ListSubscribedThreadUpdates" (thread_updates agentID).

(** A sender of a thread: its type, principal, handle and agent. *)
Definition ThreadSender : Type := Z * Z * string * option Z.

Definition sender_of (m : Message) : ThreadSender :=
  (m_sender m, m_principal m, default "" (ur_handle <$> w_users w (m_principal m)), m_agent m).

Definition none_last (a : option Z) : Z * Z := match a with Some x => (0, x) | None => (1, 0) end.
Definition lex_le (a b : list Z) : bool :=
  (fix go a b := match a, b with
   | [], _ => true
   | _ :: _, [] => false
   | x :: a', y :: b' => (x <? y) || ((x =? y) && go a' b')
   end) a b.
(** ORDER BY sender_type, principal_id, sender_agent_id *)
Definition sender_key (s : ThreadSender) : list Z :=
  let '(ty, p, _, ag) := s in [ty; p; (none_last ag).1; (none_last ag).2].
Definition sender_le (a b : ThreadSender) : Prop := lex_le (sender_key a) (sender_key b) = true.
#[export] Instance sender_le_dec : RelDecision sender_le :=
  λ a b, decide (lex_le (sender_key a) (sender_key b) = true).

Definition ListThreadSenders (convID rootID : string) : M Room string (list ThreadSender) :=
  query "ListThreadSenders" (λ r,
    merge_sort sender_le (remove_dups (sender_of <$>
      filter (λ m, m_conv m = convID ∧ (m_id m = rootID ∨ is_reply_of rootID m = true) ∧
                   (m_sender m = SenderTypeUser ∨ m_sender m = SenderTypeAgent)) (r_msgs r)))).

(** ** ListChannelThreads *)

Record ChannelThread := MkThread {
  ct_root : string; ct_replies : Z; ct_latest : Z; ct_latest_at : Z; ct_new : Z; ct_recent : list Message }.

Definition replies_in (convID rootID : string) (r : Room) : list Message :=
  filter (λ m, m_conv m = convID ∧ is_reply_of rootID m = true) (r_msgs r).

(** The roots that have replies. *)
Definition thread_roots (convID : string) (r : Room) : list string :=
  remove_dups (omap m_root (filter (λ m, m_conv m = convID) (r_msgs r))).

Definition summary (convID : string) (r : Room) (rootID : string) : ChannelThread :=
  let ms := replies_in convID rootID r in
  MkThread rootID (Z.of_nat (length ms)) (latest ms) (foldr (λ m v, Z.max (m_created m) v) 0 ms) 0 [].

Definition thread_ge (a b : ChannelThread) : Prop := ct_latest b ≤ ct_latest a.
#[export] Instance thread_ge_dec : RelDecision thread_ge := λ a b, Z.le_dec (ct_latest b) (ct_latest a).

Definition channelThreadPreviewReplies : Z := 3.

(** The newest replies of a thread, oldest first. *)
Definition previews (convID : string) (r : Room) (rootID : string) : list Message :=
  reverse (take (Z.to_nat channelThreadPreviewReplies) (merge_sort version_ge (replies_in convID rootID r))).

(** listChannelThreadNewCountsSQL with its third parameter as a principal's id. *)
Definition new_count (convID : string) (readVersion principal : Z) (r : Room) (rootID : string) : Z :=
  Z.of_nat (length (filter (λ m, readVersion < m_version m ∧
    negb ((m_sender m =? SenderTypeUser) && (m_principal m =? principal)) = true) (replies_in convID rootID r))).

(** The parameter the code binds is the caller's handle, and the server reads it
    as an integer: [int4in] is PostgreSQL's integer input. *)
Definition listChannelThreadNewCounts (int4in : string → option Z) (convID : string) (readVersion : Z) (userHandle : string)
    (r : Room) : res string (string → Z) :=
  match int4in userHandle with
  | None => Err "failed to list channel thread new counts"
  | Some p => call (w_dir w) "listChannelThreadNewCounts" (new_count convID readVersion p r)
  end.

Definition with_new (counts : string → Z) (t : ChannelThread) : ChannelThread :=
  MkThread (ct_root t) (ct_replies t) (ct_latest t) (ct_latest_at t) (counts (ct_root t)) (ct_recent t).
Definition with_recent (f : string → list Message) (t : ChannelThread) : ChannelThread :=
  MkThread (ct_root t) (ct_replies t) (ct_latest t) (ct_latest_at t) (ct_new t) (f (ct_root t)).

Definition ListChannelThreads (int4in : string → option Z) (convID : string) (userPrincipalID : Z) (userHandle : string)
    : M Room string (list ChannelThread) := λ r, (r,
  match call (w_dir w) "ListChannelThreads" tt with
  | Err x => Err x
  | Ok _ =>
      let threads := merge_sort thread_ge (summary convID r <$> thread_roots convID r) in
      let threads :=
        if 0 <? userPrincipalID then
          match call (w_dir w) "GetUserReadCursor" (ch_reads (r_chat r) !! (userPrincipalID, convID)) with
          | Err _ | Ok None => threads
          | Ok (Some readVersion) =>
              match listChannelThreadNewCounts int4in convID readVersion userHandle r with
              | Ok counts => with_new counts <$> threads
              | Err _ => threads
              end
          end
        else threads in
      Ok (match call (w_dir w) "listChannelThreadPreviews" tt with
          | Ok _ => with_recent (previews convID r) <$> threads
          | Err _ => threads
          end)
  end).
End inbox.
