(* ===== verification/Posting.v ===== *)
(** Posting and reading messages: [api/v1/channel_message.go],
    [message_create.go], [command_message.go], the acknowledgements of
    [command.go] and [resolveAttachments] of [channel_file_service.go].

    A handler is a monadic program over [Room]; the first gap ([w_others 1]) is
    between its checks and its writes, the second between a post and the advance
    of the poster's cursor, the third inside a read.  A long poll is a list of
    wake-ups.  The generation of activity, which runs on its own, is left out. *)

From stdpp Require Import base list strings numbers gmap sets.
From S2P Require Import Prelude Strings Names Runes Iam Policies Mentions Membership Messages Inbox.
Local Open Scope Z_scope.

Section posting.
Context (w : World).
Notation d := (w_dir w).

(** A store call whose failure is an error of the request. *)
Definition as_error {A} (c : code) (m : M Room string A) : M Room failure A := λ r,
  let '(r', x) := m r in (r', match x with Ok a => Ok a | Err e => Err (c, e) end).

(** A store call whose failure is logged. *)
Definition logged {A} (m : M Room string A) : M Room failure unit := λ r, ((m r).1, Ok tt).

Definition fail {A} (c : code) (msg : string) : M Room failure A := throw (c, msg).

Definition guard_ (b : bool) (c : code) (msg : string) : M Room failure unit := if b then mret tt else fail c msg.

(** ** Names *)

Definition conversation_of (name : string) : M Room failure string :=
  match parseConversationID d name with Some id => mret id | None => fail InvalidArgument "invalid conversation name" end.

Definition uuid_of (s msg : string) : M Room failure string :=
  match e_uuid (d_env d) s with Some id => mret id | None => fail InvalidArgument msg end.

Definition get_conversation (convID : string) : M Room failure Conversation := λ r,
  (r, match GetConversation d (r_chat r) convID with Ok c => Ok c | Err x => Err (NotFound, x) end).

Definition is_member (convID : string) (memberType : Z) (memberID : string) : M Room failure bool := λ r,
  (r, match conversationHasMember d (r_chat r) convID memberType memberID with Ok b => Ok b | Err x => Err (Internal, x) end).

(** The thread a message goes to: a root of this conversation, or none. *)
Definition resolve_thread_root (convID threadRoot : string) : M Room failure (option string) :=
  if String.eqb threadRoot "" then mret None else
  rootID ← uuid_of threadRoot "invalid thread_root";
  isRoot ← as_error Internal (IsThreadRoot w convID rootID);
  guard_ isRoot InvalidArgument "thread_root is not a root message in this conversation" ;;
  mret (Some rootID).

(** ** resolveAttachments *)

Definition resolve_attachment (convID id : string) : res failure Attachment :=
  if String.eqb id "" then Err (InvalidArgument, "attachment id is required") else
  match e_uuid (d_env d) id with
  | None => Err (InvalidArgument, "invalid attachment id")
  | Some fid =>
      match w_file w fid with
      | Err x => Err (Internal, x)
      | Ok None => Err (NotFound, "attachment file not found")
      | Ok (Some f) =>
          if bool_decide (f_conv f = Some convID) then Ok (MkAttachment (f_id f) (f_name f) (f_size f))
          else Err (PermissionDenied, "file is not attached to this conversation")
      end
  end.

Fixpoint resolveAttachments (convID : string) (ids : list string) : res failure (list Attachment) :=
  match ids with
  | [] => Ok []
  | id :: ids =>
      match resolve_attachment convID id with
      | Err x => Err x
      | Ok a => match resolveAttachments convID ids with Err x => Err x | Ok l => Ok (a :: l) end
      end
  end.

(** ** Notices *)

(** The agents of a list of members. *)
Definition agent_of (m : Member) : option Z :=
  if negb (m.1 =? MemberTypeAgent) then None else
  match d_agent d m.2 with Ok (Some agent) => Some (ag_id agent) | _ => None end.

Definition other (except : option Z) (agentID : Z) : bool :=
  match except with Some a => negb (agentID =? a) | None => true end.

Definition notifyConversationAgents (convID : string) (version : Z) (except : option Z) : M Room failure unit := λ r,
  match call d "ListConversationMembers" (fst <$> ListConversationMembers (r_chat r) convID) with
  | Err _ => (r, Ok tt)
  | Ok members =>
      (emit ((λ a, NotifyNewMessages a convID version) <$> filter (λ a, other except a = true) (omap agent_of members)) r, Ok tt)
  end.

Definition notifyThreadParticipants (convID rootID : string) (version : Z) (except : option Z) : M Room failure unit := λ r,
  match call d "ListThreadParticipantAgents" (subscribers rootID (r_subs r)) with
  | Err _ => (r, Ok tt)
  | Ok ids =>
      (emit ((λ a, NotifyThreadMention a convID version rootID) <$> filter (λ a, other except a = true) ids) r, Ok tt)
  end.

(** addAgent and addUser *)
Definition add_id (ids : list Z) (id : Z) : list Z :=
  if (0 <? id) && negb (existsb (Z.eqb id) ids) then ids ++ [id] else ids.

Definition mentioned_agent (m : Mention) : option Z :=
  if String.eqb (mn_type m) "agent" && negb (String.eqb (mn_id m) "")
  then match d_agent d (mn_id m) with Ok (Some a) => Some (ag_id a) | _ => None end else None.

Definition mentioned_user (m : Mention) : option Z :=
  if String.eqb (mn_type m) "user" && negb (String.eqb (mn_id m) "")
  then match d_handle d (mn_id m) with Ok (Some x) => Some (u_id x) | _ => None end else None.

Definition root_author (sender : res string (Z * option Z)) : list Z :=
  match sender with
  | Ok (senderType, Some a) => if senderType =? SenderTypeAgent then [a] else []
  | _ => []
  end.

Definition attempt_ {A} (m : M Room string A) : M Room failure (res string A) := λ r,
  let '(r', x) := m r in (r', Ok x).

Definition subscribeAndNotifyThread (convID rootID : string) (version : Z) (mentions : list Mention)
    (posterAgentID posterUserID : option Z) : M Room failure unit :=
  sender ← attempt_ (GetThreadRootSender w rootID);
  let agentIDs := foldl add_id [] (omap mentioned_agent mentions ++ option_list posterAgentID ++ root_author sender) in
  let userIDs := foldl add_id [] (omap mentioned_user mentions ++ option_list posterUserID) in
  logged (AddThreadParticipants w rootID agentIDs) ;;
  logged (AddUserThreadParticipants w rootID userIDs) ;;
  notifyThreadParticipants convID rootID version posterAgentID.

(** ** message_create.go *)

Record createMessageInput := MkInputMsg {
  i_conv : string; i_content : string; i_attachments : list Attachment; i_mentions : list Mention;
  i_root : option string; i_task : bool; i_command : option string; i_principal : Z; i_agent : option Z;
  i_role : Z; i_sender : Z; i_except : option Z; i_user : option Z }.

(** The row a message asks for: its id, time and version are the server's. *)
Definition draft (convID : string) (principal : Z) (agent : option Z) (role : Z) (content : string) (command : option string)
    (sender : Z) (mentions : list Mention) (attachments : list Attachment) (root : option string) : Message :=
  MkMsg "" convID principal agent role content command 0 0 sender mentions attachments root.

(** The message, and the task's number. *)
Definition createMessage (i : createMessageInput) : M Room failure (Message * option Z) :=
  msg ←
    (if i_task i then
       x ← as_error Internal (CreateTaskMessageBumpVersion w
             (draft (i_conv i) (i_principal i) None (i_role i) (i_content i) None (i_sender i) (i_mentions i) (i_attachments i) None));
       mret (x.1, Some x.2)
     else
       x ← as_error Internal (CreateChatMessageBumpVersion w
             (draft (i_conv i) (i_principal i) (i_agent i) (i_role i) (i_content i) (i_command i) (i_sender i) (i_mentions i)
                (i_attachments i) (i_root i)));
       mret (x, None) : M Room failure (Message * option Z));
  (match i_root i with
   | Some root => subscribeAndNotifyThread (i_conv i) root (m_version (msg : Message * option Z).1) (i_mentions i) (i_except i) (i_user i)
   | None => notifyConversationAgents (i_conv i) (m_version msg.1) (i_except i)
   end) ;;
  mret msg.

(** ** task.go: the notice of a task's life *)

Definition postTaskSystemNotification (convID : string) (n : Notice) : M Room failure unit :=
  let content := w_sprintf w n in
  if String.eqb content "" then mret tt else
  logged (CreateChatMessageBumpVersion w (draft convID 1 None 1 content None SenderTypeSystem [] [] None)).

(** ** SendMessage *)

Record SendRequest := MkSend {
  sr_conv : string; sr_content : string; sr_attachments : list string; sr_root : string; sr_task : bool; sr_mentions : list Mention }.

Definition validateSendMessageContent (req : SendRequest) : bool :=
  negb (String.eqb (sr_content req) "" && match sr_attachments req with [] => true | _ => false end).

(** The mentions of a text in a conversation; the store's cache is not part of the
    tables, so the directory is read anew. *)
Definition content_mentions (convID content : string) : M Room failure (list Mention) := λ r,
  (r, Ok (parseContentMentions (w_unicode w) (w_names w)
            (call d "ListConversationMembers" (fst <$> ListConversationMembers (r_chat r) convID)) None content).1).

Definition user_name (principalID : Z) : string := default "" (ur_name <$> w_users w principalID).

Definition SendMessage (caller : Caller) (req : SendRequest) : M Room failure Message :=
  guard_ (validateSendMessageContent req) InvalidArgument "content or attachments must not be empty" ;;
  convID ← conversation_of (sr_conv req);
  match by_user caller with
  | None => fail PermissionDenied "SendMessage is for authenticated users; agents must use PostMessage"
  | Some user =>
      conv ← get_conversation convID;
      guard_ (negb (cv_type conv =? ConversationTypeAgentDM)) PermissionDenied "agent-DM conversations are agent-only" ;;
      guard_ (negb (cv_archived conv)) PermissionDenied "this channel has been archived by the owner" ;;
      threadRoot ← resolve_thread_root convID (sr_root req);
      guard_ (negb (sr_task req && match threadRoot with Some _ => true | None => false end)) InvalidArgument
        "as_task is only valid for top-level messages, not thread replies" ;;
      attachments ← lift_res (resolveAttachments convID (sr_attachments req));
      parsed ← content_mentions convID (sr_content req);
      gap w 1 ;;
      msg ← createMessage (MkInputMsg convID (sr_content req) attachments (mergeMentions parsed (sr_mentions req)) threadRoot
              (sr_task req) None (u_id user) None 1 SenderTypeUser None (Some (u_id user)));
      match msg.2 with
      | Some n => postTaskSystemNotification convID (Created (user_name (u_id user)) n (sr_content req))
      | None => mret tt
      end ;;
      mret msg.1
  end.

(** ** PostMessage *)

Record PostRequest := MkPost {
  pr_conv : string; pr_content : string; pr_attachments : list string; pr_root : string; pr_command : string; pr_base : Z }.

(** What an agent is told: its message, or the messages it had not seen. *)
Inductive Posted :=
| Committed (m : Message) (currentVersion : Z)
| Conflict (currentVersion : Z) (newMessages : list (View * bool)).

Definition own (agentID : Z) (v : View) : bool := bool_decide (m_agent (v_msg v) = Some agentID).

Definition principal_of (conv : Conversation) : Z := if 0 <? cv_owner conv then cv_owner conv else 1.

Definition command_of (command : string) : option string :=
  if String.eqb command "" then None else e_uuid (d_env d) command.

Definition PostMessage (caller : Caller) (req : PostRequest) : M Room failure Posted :=
  match by_agent caller with
  | None => fail Unauthenticated "agent authentication required"
  | Some agent =>
      convID ← conversation_of (pr_conv req);
      conv ← get_conversation convID;
      isMember ← is_member convID MemberTypeAgent (ag_resource agent);
      guard_ isMember PermissionDenied "not a conversation member" ;;
      guard_ (negb (cv_archived conv)) PermissionDenied "this channel has been archived by the owner" ;;
      if pr_base req =? cv_version conv then
        attachments ← lift_res (resolveAttachments convID (pr_attachments req));
        threadRoot ← resolve_thread_root convID (pr_root req);
        mentions ← content_mentions convID (pr_content req);
        gap w 1 ;;
        msg ← createMessage (MkInputMsg convID (pr_content req) attachments mentions threadRoot false
                (command_of (pr_command req)) (principal_of conv) (Some (ag_id agent)) 2 SenderTypeAgent
                (Some (ag_id agent)) None);
        gap w 2 ;;
        logged (UpsertCursor w (ag_id agent) convID (m_version msg.1)) ;;
        mret (Committed msg.1 (m_version msg.1))
      else
        new ← as_error Internal (Messages.ListConversationMessages w convID (pr_base req) 0 50 0);
        mret (Conflict (cv_version conv) ((λ v, (v, own (ag_id agent) v)) <$> new.1))
  end.

(** ** AckProcessedVersion *)

Definition LinkCommandConversation (commandID convID : string) : M Room string unit := tx (λ r,
  call d "LinkCommandConversation" (set_links (λ s, {[ (commandID, convID) ]} ∪ s) r, tt)).

Definition link_command (command convID : string) : M Room failure unit :=
  match command_of command with None => mret tt | Some cid => logged (LinkCommandConversation cid convID) end.

Definition AckProcessedVersion (caller : Caller) (conversation : string) (processedVersion : Z) (command : string)
    : M Room failure Z :=
  match by_agent caller with
  | None => fail Unauthenticated "agent authentication required"
  | Some agent =>
      convID ← conversation_of conversation;
      guard_ (0 <? processedVersion) InvalidArgument "processed_version must be positive" ;;
      result ← as_error Internal (UpsertCursor w (ag_id agent) convID processedVersion);
      link_command command convID ;;
      mret result
  end.

Definition ListChannelUpdates (caller : Caller) : M Room failure (list ChannelUpdate) :=
  match by_agent caller with
  | None => fail Unauthenticated "agent authentication required"
  | Some agent => as_error Internal (ListChannelsWithUpdates w (ag_id agent))
  end.

Definition ListThreadUpdates (caller : Caller) : M Room failure (list ThreadUpdate) :=
  match by_agent caller with
  | None => fail Unauthenticated "agent authentication required"
  | Some agent => as_error Internal (ListSubscribedThreadUpdates w (ag_id agent))
  end.

(** ** Reading *)

Definition maxLongPollWaitMs : Z := 30000.

(** parseLimitAndOffset: the limit of a request without a page token is its size,
    10 when it has none, at most 100.  [token]: the offset of the page token. *)
Definition page_limit (size : Z) : Z := if size <=? 0 then 10 else if 100 <? size then 100 else size.

(** One return of the select: the room changed, or the wait is over. *)
Inductive Wake := Changed (others : Room → Room) | WaitOver.

Definition Read : Type := M Room string (list View * Z).

Fixpoint poll_loop (readDelta : Read) (hasNew : list View → bool) (currentVersion : Z) (wakes : list Wake)
    : M Room failure (list View * Z) :=
  match wakes with
  | [] | WaitOver :: _ => mret ([], currentVersion)
  | Changed others :: wakes =>
      modify others ;;
      x ← as_error Internal readDelta;
      if hasNew x.1 then mret x else poll_loop readDelta hasNew x.2 wakes
  end.

Definition longPollDelta (readDelta : Read) (hasNew : list View → bool) (wakes : list Wake) : M Room failure (list View * Z) :=
  x ← as_error Internal readDelta;
  if hasNew x.1 then mret x else poll_loop readDelta hasNew x.2 wakes.

(** The delta, held while it is empty; [least]: what an empty delta has. *)
Definition held (readDelta : Read) (least waitMs : Z) (wakes : list Wake) : M Room failure (list View * Z) :=
  let hasNew vs := least <? Z.of_nat (length vs) in
  x ← as_error Internal readDelta;
  if negb (hasNew x.1) && (0 <? Z.min waitMs maxLongPollWaitMs) then longPollDelta readDelta hasNew wakes else mret x.

(** The trim of the extra row, and the offset of the next page. *)
Definition trim (afterVersion beforeVersion limit offset : Z) (vs : list View) : list View * option Z :=
  if (beforeVersion =? 0) && (0 <? afterVersion) && (Z.of_nat (length vs) =? limit + 1)
  then (take (Z.to_nat limit) vs, Some (offset + limit)) else (vs, None).

Record ReadRequest := MkRead {
  rd_conv : string; rd_root : string; rd_after : Z; rd_before : Z; rd_size : Z; rd_offset : Z; rd_wait : Z }.

Record ReadReply := MkReply { rp_messages : list (View * bool); rp_next : option Z; rp_version : Z }.

(** The read links the session's command to the conversation. *)
Definition link_session (caller : Caller) (convID : string) : M Room failure unit :=
  match by_agent caller with Some agent => link_command (w_current w (ag_id agent)) convID | None => mret tt end.

Definition reply (caller : Caller) (limit : Z) (req : ReadRequest) (x : list View * Z) : ReadReply :=
  let '(vs, next) := trim (rd_after req) (rd_before req) limit (rd_offset req) x.1 in
  MkReply ((λ v, (v, match by_agent caller with Some a => own (ag_id a) v | None => false end)) <$> vs) next x.2.

Definition ReadConversation (caller : Caller) (req : ReadRequest) (wakes : list Wake) : M Room failure ReadReply :=
  convID ← conversation_of (rd_conv req);
  guard_ (negb ((0 <? rd_after req) && (0 <? rd_before req))) InvalidArgument
    "after_version and before_version are mutually exclusive" ;;
  let limit := page_limit (rd_size req) in
  x ←
    (if 0 <? rd_before req then as_error Internal (Messages.ListConversationMessages w convID 0 (rd_before req) limit 0)
     else if 0 <? rd_after req
     then held (Messages.ListConversationMessages w convID (rd_after req) 0 (limit + 1) (rd_offset req)) 0 (rd_wait req) wakes
     else as_error Internal (Messages.ListConversationMessages w convID 0 0 limit 0));
  link_session caller convID ;;
  mret (reply caller limit req x).

Definition ReadThread (caller : Caller) (req : ReadRequest) (wakes : list Wake) : M Room failure ReadReply :=
  convID ← conversation_of (rd_conv req);
  guard_ (negb (String.eqb (rd_root req) "")) InvalidArgument "thread_root must not be empty" ;;
  rootID ← uuid_of (rd_root req) "invalid thread_root";
  guard_ (negb ((0 <? rd_after req) && (0 <? rd_before req))) InvalidArgument
    "after_version and before_version are mutually exclusive" ;;
  let limit := page_limit (rd_size req) in
  x ←
    (if 0 <? rd_before req then as_error Internal (Messages.ListThreadMessages w convID rootID 0 (rd_before req) limit 0)
     else if 0 <? rd_after req
     then held (Messages.ListThreadMessages w convID rootID (rd_after req) 0 (limit + 1) (rd_offset req)) 1 (rd_wait req) wakes
     else as_error Internal (Messages.ListThreadMessages w convID rootID 0 0 limit 0));
  link_session caller convID ;;
  mret (reply caller limit req x).
End posting.
