(* ===== verification/MessagesSpec.v ===== *)
(** What holds of the messages of a room: they are numbered without gaps, the
    tables only grow, an agent's inbox shows what it has not processed, and what
    the reads return. *)

From stdpp Require Import base list strings numbers gmap sets sorting.
From S2P Require Import Prelude Strings Names Iam Policies Mentions Membership Messages Inbox Posting.
Local Open Scope Z_scope.

(** ** The invariant *)

Definition versions (r : Room) (convID : string) : list Z := m_version <$> filter (λ m, m_conv m = convID) (r_msgs r).

Definition next_number (r : Room) (convID : string) : Z := default 1 (r_number r !! convID).

(** Ids are unique and replies have a root. *)
Definition msgs_ok (r : Room) : Prop :=
  NoDup (m_id <$> r_msgs r) ∧
  (∀ m root, m ∈ r_msgs r → m_root m = Some root → root ∈ m_id <$> r_msgs r).

(** The versions of a conversation's messages are 2, 3, ... up to its own. *)
Definition numbered (r : Room) : Prop :=
  ∀ convID, match room_conv r convID with
            | Some c => 1 ≤ cv_version c ∧ versions r convID = seqZ 2 (cv_version c - 1)
            | None => versions r convID = []
            end.

(** A status is one of the four, and a task is completed when it is done. *)
Definition task_wf (t : Task) : Prop :=
  TaskStatusTodo ≤ t_status t ≤ TaskStatusDone ∧ (is_Some (t_completed t) ↔ t_status t = TaskStatusDone).

(** A task is a message and has its own number in its conversation; a team has one
    active task. *)
Definition tasks_ok (r : Room) : Prop :=
  (∀ id t, r_tasks r !! id = Some t →
     id ∈ m_id <$> r_msgs r ∧ (1 ≤ t_number t < next_number r (t_conv t)) ∧ task_wf t) ∧
  (∀ id id' t t', r_tasks r !! id = Some t → r_tasks r !! id' = Some t' →
     t_conv t = t_conv t' → t_number t = t_number t' → id = id') ∧
  (∀ convID, 1 ≤ next_number r convID) ∧
  (∀ id id' t t' team, r_tasks r !! id = Some t → r_tasks r !! id' = Some t' →
     active t = true → active t' = true → t_team t = Some team → t_team t' = Some team → id = id').

(** A retry is planned for a due reminder only, after the first failed delivery. *)
Definition rem_wf (x : Reminder) : Prop :=
  (ReminderStatusPending ≤ re_status x ≤ ReminderStatusFailed) ∧ (0 ≤ re_retry x ≤ 5) ∧
  (is_Some (re_next x) → re_status x = ReminderStatusDue ∧ 1 ≤ re_retry x) ∧
  (re_status x = ReminderStatusDue → is_Some (re_fired x)).

(** A reminder is a top-level message of its conversation. *)
Definition rems_ok (r : Room) : Prop :=
  ∀ id x, r_rems r !! id = Some x →
    (∃ m, m ∈ r_msgs r ∧ m_id m = id ∧ m_conv m = re_conv x ∧ is_root m = true) ∧ rem_wf x.

Definition room_ok (r : Room) : Prop := msgs_ok r ∧ numbered r ∧ tasks_ok r ∧ rems_ok r.

(** Nothing is lost: messages, versions, cursors and subscriptions. *)
Definition grows (r r' : Room) : Prop :=
  r_msgs r `prefix_of` r_msgs r' ∧
  (∀ convID c, room_conv r convID = Some c → ∃ c', room_conv r' convID = Some c' ∧ cv_version c ≤ cv_version c') ∧
  (∀ k v, ch_cursors (r_chat r) !! k = Some v → ∃ v', ch_cursors (r_chat r') !! k = Some v' ∧ v ≤ v') ∧
  r_subs r ⊆ r_subs r'.

Definition evolves (r r' : Room) : Prop := room_ok r → room_ok r' ∧ grows r r'.

#[export] Instance grows_preorder : PreOrder grows.
Proof.
  split.
  - intros r. unfold grows. split_and!; [done|eauto using Z.le_refl..|done].
  - intros r1 r2 r3 (A1 & B1 & C1 & D1) (A2 & B2 & C2 & D2). unfold grows. split_and!; [by etrans| | |by etrans].
    + intros id c (c2 & H2 & Hle)%B1. apply B2 in H2 as (c3 & H3 & Hle'). exists c3. split; [done|lia].
    + intros k v (v2 & H2 & Hle)%C1. apply C2 in H2 as (v3 & H3 & Hle'). exists v3. split; [done|lia].
Qed.

#[export] Instance evolves_preorder : PreOrder evolves.
Proof.
  split.
  - intros r H. split; [done|reflexivity].
  - intros r1 r2 r3 H12 H23 H. destruct (H12 H) as [H2 G2]. destruct (H23 H2) as [H3 G3]. split; [done|by etrans].
Qed.

(** ** Programs that keep a relation *)

Section keeps.
Context (P : Room → Room → Prop) `{!PreOrder P}.

Definition keeps {Er A} (m : M Room Er A) : Prop := ∀ r, P r (m r).1.

Lemma keeps_mret {Er A} (a : A) : keeps (mret a : M Room Er A).
Proof. intros r. simpl. reflexivity. Qed.

Lemma keeps_throw {Er A} (e : Er) : keeps (throw e : M Room Er A).
Proof. intros r. simpl. reflexivity. Qed.

Lemma keeps_lift {Er A} (x : res Er A) : keeps (lift_res x : M Room Er A).
Proof. intros r. simpl. reflexivity. Qed.

Lemma keeps_mbind {Er A B} (m : M Room Er A) (k : A → M Room Er B) :
  keeps m → (∀ a, keeps (k a)) → keeps (mbind k m).
Proof.
  intros Hm Hk r. unfold mbind, M_bind. specialize (Hm r). destruct (m r) as [r1 [a|e]]; [|done].
  etrans; [apply Hm|apply Hk].
Qed.

(** A query leaves the tables alone. *)
Lemma keeps_read {Er A} (f : Room → res Er A) : keeps (λ r, (r, f r)).
Proof. intros r. simpl. reflexivity. Qed.

Lemma keeps_tx {A} (f : Room → res string (Room * A)) :
  (∀ r r' a, f r = Ok (r', a) → P r r') → keeps (tx f).
Proof. intros H r. unfold tx. destruct (f r) as [[r' a]|e] eqn:E; simpl; [by eapply H|reflexivity]. Qed.

Lemma keeps_modify {Er} (f : Room → Room) : (∀ r, P r (f r)) → keeps (modify f : M Room Er unit).
Proof. intros H r. apply H. Qed.

Lemma keeps_as_error {A} c (m : M Room string A) : keeps m → keeps (as_error c m).
Proof. intros H r. unfold as_error. specialize (H r). by destruct (m r). Qed.

Lemma keeps_logged {A} (m : M Room string A) : keeps m → keeps (logged m).
Proof. intros H r. apply H. Qed.

Lemma keeps_attempt_ {A} (m : M Room string A) : keeps m → keeps (attempt_ m).
Proof. intros H r. unfold attempt_. specialize (H r). by destruct (m r). Qed.

Lemma keeps_if {Er A} (b : bool) (m m' : M Room Er A) : keeps m → keeps m' → keeps (if b then m else m').
Proof. by destruct b. Qed.

Lemma keeps_option {Er A B} (o : option B) (k : B → M Room Er A) (m : M Room Er A) :
  (∀ b, keeps (k b)) → keeps m → keeps (match o with Some b => k b | None => m end).
Proof. by destruct o. Qed.
End keeps.

Create HintDb keeps.

(** Walks down a program; what is left is its writes. *)
Ltac keep :=
  repeat first
    [ progress intros
    | match goal with
      | |- keeps _ (match ?x with _ => _ end) => destruct x
      | |- keeps _ (mbind _ _) => apply keeps_mbind; [apply _|..]
      | |- keeps _ (as_error _ _) => apply keeps_as_error
      | |- keeps _ (logged _) => apply keeps_logged
      | |- keeps _ (attempt_ _) => apply keeps_attempt_
      end
    | solve [apply keeps_mret; apply _] | solve [apply keeps_throw; apply _]
    | solve [apply keeps_lift; apply _] | solve [apply keeps_read; apply _]
    | solve [eauto with keeps typeclass_instances] ].

(** ** The writes *)

Section writes.
Context (w : World).

Lemma grows_chat f r :
  (∀ id c, ch_convs (r_chat r) !! id = Some c → ∃ c', ch_convs (f (r_chat r)) !! id = Some c' ∧ cv_version c ≤ cv_version c') →
  (∀ k v, ch_cursors (r_chat r) !! k = Some v → ∃ v', ch_cursors (f (r_chat r)) !! k = Some v' ∧ v ≤ v') →
  grows r (set_chat f r).
Proof. intros H1 H2. split_and!; done. Qed.

Lemma rems_ok_more r r' : r_rems r' = r_rems r → r_msgs r `prefix_of` r_msgs r' → rems_ok r → rems_ok r'.
Proof.
  intros Hr [k Hm] H id x Hx. rewrite Hr in Hx. apply H in Hx as [(m & Hin & Hm') Hw].
  split; [|done]. exists m. split; [|done]. rewrite Hm. apply elem_of_app. by left.
Qed.

(** Tables that differ only in columns the invariant does not read. *)
Lemma evolves_same r r' :
  r_msgs r' = r_msgs r → r_number r' = r_number r → r_tasks r' = r_tasks r → r_rems r' = r_rems r →
  (∀ id, cv_version <$> room_conv r' id = cv_version <$> room_conv r id) →
  (∀ k v, ch_cursors (r_chat r) !! k = Some v → ∃ v', ch_cursors (r_chat r') !! k = Some v' ∧ v ≤ v') →
  r_subs r ⊆ r_subs r' → evolves r r'.
Proof.
  intros Hm Hn Ht Hr Hc Hk Hs (A & B & C & D). split; [split; [|split; [|split]]|split; [|split; [|split]]].
  - unfold msgs_ok in *. by rewrite Hm.
  - intros id. specialize (B id). specialize (Hc id). unfold versions in *. rewrite Hm.
    destruct (room_conv r id), (room_conv r' id); simplify_eq/=; try done. rewrite Hc. done.
  - unfold tasks_ok, next_number in *. by rewrite Hm, Hn, Ht.
  - eapply rems_ok_more; [done| |done]. by rewrite Hm.
  - by rewrite Hm.
  - intros id c H. specialize (Hc id). rewrite H in Hc. simpl in Hc.
    destruct (room_conv r' id) as [c'|]; [|done]. exists c'. split; [done|]. injection Hc as ->. lia.
  - done.
  - done.
Qed.

Lemma cursors_refl (ch : Chat) k v : ch_cursors ch !! k = Some v → ∃ v', ch_cursors ch !! k = Some v' ∧ v ≤ v'.
Proof. eauto using Z.le_refl. Qed.

Lemma set_cursor_grows k0 v0 (ch : Chat) k v :
  ch_cursors ch !! k = Some v → ∃ v', ch_cursors (set_cursor k0 v0 ch) !! k = Some v' ∧ v ≤ v'.
Proof.
  intros H. simpl. destruct (decide (k0 = k)) as [->|Hk].
  - rewrite lookup_insert_eq, H. simpl. eexists. split; [done|lia].
  - rewrite lookup_insert_ne by done. eauto using Z.le_refl.
Qed.

Lemma call_ok_inv {A} d name (a b : A) : call d name a = Ok b → b = a.
Proof. unfold call. destruct (d_fails d name); [done|]. by intros [= ->]. Qed.

Lemma UpsertCursor_evolves agentID convID v : keeps evolves (UpsertCursor w agentID convID v).
Proof.
  apply keeps_tx; [apply _|]. intros r r' a H. destruct (room_conv r convID); [|done].
  apply call_ok_inv in H. simplify_eq. apply evolves_same; try done. intros k u Hk. by apply set_cursor_grows.
Qed.

Lemma AddThreadParticipants_evolves root ids : keeps evolves (AddThreadParticipants w root ids).
Proof.
  apply keeps_tx; [apply _|]. intros r r' a H. destruct ids as [|id ids]; [by simplify_eq|].
  apply call_ok_inv in H. simplify_eq. apply evolves_same; try done; [apply cursors_refl|]. simpl. set_solver.
Qed.

Lemma AddUserThreadParticipants_evolves root ids : keeps evolves (AddUserThreadParticipants w root ids).
Proof.
  apply keeps_tx; [apply _|]. intros r r' a H. destruct ids as [|id ids]; [by simplify_eq|].
  apply call_ok_inv in H. simplify_eq. apply evolves_same; try done. apply cursors_refl.
Qed.

Lemma Link_evolves cid convID : keeps evolves (LinkCommandConversation w cid convID).
Proof.
  apply keeps_tx; [apply _|]. intros r r' a H. apply call_ok_inv in H. simplify_eq.
  apply evolves_same; try done. apply cursors_refl.
Qed.

Lemma emit_evolves es r : evolves r (emit es r).
Proof. apply evolves_same; try done. apply cursors_refl. Qed.

(** *** The insert of a message *)

Definition inserted (r r' : Room) (convID : string) (c : Conversation) (m : Message) : Prop :=
  room_conv r convID = Some c ∧ m_conv m = convID ∧ m_version m = cv_version c + 1 ∧
  m_id m ∉ m_id <$> r_msgs r ∧ (∀ root, m_root m = Some root → root ∈ m_id <$> r_msgs r) ∧
  r_msgs r' = r_msgs r ++ [m] ∧
  room_conv r' convID = Some (set_version (cv_version c + 1) c) ∧
  (∀ id, id ≠ convID → room_conv r' id = room_conv r id) ∧
  ch_cursors (r_chat r') = ch_cursors (r_chat r) ∧ r_subs r' = r_subs r.

Lemma seqZ_snoc m n : 0 ≤ n → seqZ m (n + 1) = seqZ m n ++ [m + n].
Proof. intros Hn. rewrite seqZ_app by lia. f_equal. Qed.

Lemma inserted_msgs_numbered r r' convID c m : inserted r r' convID c m →
  msgs_ok r → numbered r → msgs_ok r' ∧ numbered r' ∧ grows r r'.
Proof.
  intros (Hc & Hconv & Hv & Hid & Hroot & Hm & Hc' & Ho & Hk & Hs) [A1 A2] B.
  split; [split|split; [|split; [|split; [|split]]]].
  - rewrite Hm, fmap_app. apply NoDup_app. split_and!; [done| |apply NoDup_singleton].
    intros x Hx Hx'. apply list_elem_of_singleton in Hx' as ->. done.
  - intros m' root. rewrite Hm, fmap_app, elem_of_app. intros [H|H] Hr; apply elem_of_app; left.
    + by eapply A2.
    + apply list_elem_of_singleton in H as ->. auto.
  - intros id. unfold versions. rewrite Hm, filter_app, fmap_app. destruct (decide (id = convID)) as [->|Hne].
    + rewrite Hc'. specialize (B convID). rewrite Hc in B. destruct B as [B1 B2]. split; [simpl; lia|].
      unfold versions in B2. rewrite B2. rewrite filter_cons_True, filter_nil by done. simpl.
      replace (cv_version c + 1 - 1) with (cv_version c - 1 + 1) by lia. rewrite seqZ_snoc by lia.
      rewrite Hv. do 2 f_equal. lia.
    + rewrite (Ho _ Hne). rewrite filter_cons_False, filter_nil, app_nil_r by (by rewrite Hconv). apply B.
  - rewrite Hm. by apply prefix_app_r.
  - intros id c0 H. destruct (decide (id = convID)) as [->|Hne].
    + rewrite Hc in H. simplify_eq. eexists. split; [done|]. simpl. lia.
    + rewrite (Ho _ Hne). eauto using Z.le_refl.
  - rewrite Hk. apply cursors_refl.
  - by rewrite Hs.
Qed.

Lemma bump_version_ok convID r r' v : bump_version w convID r = Ok (r', v) →
  ∃ c, room_conv r convID = Some c ∧ v = cv_version c + 1 ∧
    r' = set_updated <[convID := w_now w (r_msgs r)]> (set_chat (set_convs (alter (set_version v) convID)) r).
Proof.
  unfold bump_version. destruct (room_conv r convID) as [c|]; [|done].
  destruct (cv_version c =? MaxInt64); [done|]. intros [= <- <-]. by exists c.
Qed.

Lemma createChatMessageInTx_ok msg v r r' row : createChatMessageInTx w msg v r = Ok (r', row) →
  m_id row ∉ m_id <$> r_msgs r ∧ (∀ root, m_root row = Some root → root ∈ m_id <$> r_msgs r) ∧
  r_msgs r' = r_msgs r ++ [row] ∧ r_chat r' = r_chat r ∧ r_number r' = r_number r ∧ r_tasks r' = r_tasks r ∧
  r_subs r' = r_subs r ∧ r_events r' = r_events r ∧
  m_conv row = m_conv msg ∧ m_version row = v ∧ m_root row = m_root msg ∧ m_sender row = m_sender msg ∧ m_agent row = m_agent msg.
Proof.
  unfold createChatMessageInTx. case_bool_decide as Hid; [done|].
  destruct (m_root msg) as [root|] eqn:Hroot; simpl.
  - case_bool_decide as Hr; [|done]. simpl. intros [= <- <-]. simpl. split_and!; try done. by intros ? [= <-].
  - intros [= <- <-]. simpl. split_and!; done.
Qed.

Lemma createChatMessageInTx_desk msg v r r' row : createChatMessageInTx w msg v r = Ok (r', row) → r_desk r' = r_desk r.
Proof. unfold createChatMessageInTx. intros H. by repeat case_match; simplify_eq/=. Qed.

Lemma bump_version_desk convID r r' v : bump_version w convID r = Ok (r', v) → r_desk r' = r_desk r.
Proof. by intros (c & _ & _ & ->)%bump_version_ok. Qed.

(** Both together, with the task number bumped or not in between. *)
Lemma bump_create_inserted msg r r1 r2 r' v row :
  bump_version w (m_conv msg) r = Ok (r1, v) → createChatMessageInTx w msg v r2 = Ok (r', row) →
  r_msgs r2 = r_msgs r1 → r_chat r2 = r_chat r1 → r_subs r2 = r_subs r1 →
  ∃ c, inserted r r' (m_conv msg) c row.
Proof.
  intros (c & Hc & -> & ->)%bump_version_ok H Em Ec Es. exists c.
  apply createChatMessageInTx_ok in H as (H1 & H2 & H3 & H4 & _ & _ & H5 & _ & H6 & H7 & _).
  rewrite Em in H1, H2, H3. rewrite Ec in H4. rewrite Es in H5. unfold inserted, room_conv in *. simpl in *.
  split_and!; try done.
  - rewrite H4. simpl. by rewrite lookup_alter_eq, Hc.
  - intros id Hne. rewrite H4. simpl. by rewrite lookup_alter_ne.
  - by rewrite H4.
Qed.

Lemma tasks_ok_more r r' : r_tasks r' = r_tasks r → r_number r' = r_number r → r_msgs r `prefix_of` r_msgs r' →
  tasks_ok r → tasks_ok r'.
Proof.
  intros Ht Hn [k Hm] (A & B & C & D). unfold tasks_ok, next_number in *. rewrite Ht, Hn.
  split_and!; [|done..]. intros id t Hid. apply A in Hid as [Hid ?]. split; [|done].
  rewrite Hm, fmap_app. apply elem_of_app. by left.
Qed.

(** The row a post made. *)
Lemma CreateChat_inserted msg r r' row : CreateChatMessageBumpVersion w msg r = (r', Ok row) →
  (∃ c, inserted r r' (m_conv msg) c row) ∧ r_tasks r' = r_tasks r ∧ r_number r' = r_number r ∧
  m_root row = m_root msg ∧ m_sender row = m_sender msg ∧ m_agent row = m_agent msg ∧
  r_events r' = r_events r ++ [NotifyConversation (m_conv msg)].
Proof.
  unfold CreateChatMessageBumpVersion, tx. intros H. destruct (bump_version _ _ _) as [[r1 v]|] eqn:E1; [|done].
  destruct (createChatMessageInTx _ _ _ _) as [[r2 row']|] eqn:E2; [|done].
  destruct (call _ _ _) as [[r3 row3]|] eqn:E3; [|done]. simplify_eq. apply call_ok_inv in E3. simplify_eq.
  destruct (bump_create_inserted _ _ _ _ _ _ _ E1 E2 eq_refl eq_refl eq_refl) as [c Hc].
  apply createChatMessageInTx_ok in E2 as (_ & _ & _ & _ & E5 & E6 & _ & E8 & _ & _ & E9 & E10 & E11).
  apply bump_version_ok in E1 as (c' & _ & _ & ->). split_and!; try done; [by exists c|]. simpl. by rewrite E8.
Qed.

Lemma CreateChat_content msg r r' row : CreateChatMessageBumpVersion w msg r = (r', Ok row) → m_content row = m_content msg.
Proof.
  unfold CreateChatMessageBumpVersion, tx. intros H. destruct (bump_version _ _ _) as [[r1 v]|] eqn:E1; [|done].
  destruct (createChatMessageInTx _ _ _ _) as [[r2 row']|] eqn:E2; [|done].
  destruct (call _ _ _) as [[r3 row3]|] eqn:E3; [|done]. simplify_eq. apply call_ok_inv in E3. simplify_eq.
  unfold createChatMessageInTx in E2. by repeat case_match; simplify_eq.
Qed.

(** Posts do not touch the reminders. *)
Definition desk_same (r r' : Room) : Prop := r_desk r' = r_desk r.
#[export] Instance desk_same_preorder : PreOrder desk_same.
Proof. split; [done|]. unfold desk_same. congruence. Qed.

Lemma CreateChat_desk msg : keeps desk_same (CreateChatMessageBumpVersion w msg).
Proof.
  apply keeps_tx; [apply _|]. intros r r' a H. destruct (bump_version _ _ _) as [[r1 v]|] eqn:E1; [|done].
  destruct (createChatMessageInTx _ _ _ _) as [[r2 row]|] eqn:E2; [|done]. apply call_ok_inv in H. simplify_eq.
  apply createChatMessageInTx_desk in E2. apply bump_version_desk in E1. unfold desk_same. simpl. congruence.
Qed.

Lemma CreateTask_desk msg : keeps desk_same (CreateTaskMessageBumpVersion w msg).
Proof.
  apply keeps_tx; [apply _|]. intros r r' a H. destruct (bump_version _ _ _) as [[r1 v]|] eqn:E1; [|done].
  destruct (bump_number _ _) as [[r2 n']|] eqn:E2; [|done].
  destruct (createChatMessageInTx _ _ _ _) as [[r3 row']|] eqn:E3; [|done].
  destruct (createTaskRowInTx _ _ _ _ _ _) as [r4|] eqn:E4; [|done]. apply call_ok_inv in H. simplify_eq.
  apply createChatMessageInTx_desk in E3. apply bump_version_desk in E1.
  unfold bump_number in E2. destruct (_ =? MaxInt32); [done|]. unfold createTaskRowInTx in E4.
  destruct (r_tasks r3 !! _); [done|]. simplify_eq. unfold desk_same. simpl in *. congruence.
Qed.

Lemma inserted_evolves r r' convID c m : inserted r r' convID c m →
  (tasks_ok r → msgs_ok r' → tasks_ok r') → (rems_ok r → rems_ok r') → evolves r r'.
Proof.
  intros Hi Ht Hr (A & B & C & D). destruct (inserted_msgs_numbered _ _ _ _ _ Hi A B) as (A' & B' & G).
  split; [|done]. split_and!; [done|done|by apply Ht|by apply Hr].
Qed.

Lemma inserted_prefix r r' convID c m : inserted r r' convID c m → r_msgs r `prefix_of` r_msgs r'.
Proof. intros (_ & _ & _ & _ & _ & -> & _). by apply prefix_app_r. Qed.

Lemma CreateChat_evolves msg : keeps evolves (CreateChatMessageBumpVersion w msg).
Proof.
  intros r. pose proof (CreateChat_desk msg r) as Hd. destruct (CreateChatMessageBumpVersion w msg r) as [r' [row|e]] eqn:E.
  - apply CreateChat_inserted in E as ([c Hi] & Ht & Hn & _). pose proof (inserted_prefix _ _ _ _ _ Hi).
    eapply inserted_evolves; [done| |].
    + intros Hok _. simpl. by eapply tasks_ok_more.
    + apply rems_ok_more; [|done]. unfold r_rems. by rewrite Hd.
  - unfold CreateChatMessageBumpVersion, tx in E. case_all E. all: reflexivity.
Qed.

Lemma task_wf_new convID n : task_wf (MkTask convID n TaskStatusTodo None None None None None).
Proof. split; [done|]. simpl. split; [by intros [? ?]|done]. Qed.

(** A new task row under a new message. *)
Lemma tasks_ok_insert r r' id convID : tasks_ok r → r_tasks r !! id = None → id ∈ m_id <$> r_msgs r' →
  r_msgs r `prefix_of` r_msgs r' →
  r_number r' = <[convID := next_number r convID + 1]> (r_number r) →
  r_tasks r' = <[id := MkTask convID (next_number r convID) TaskStatusTodo None None None None None]> (r_tasks r) →
  tasks_ok r'.
Proof.
  intros (A & B & C & D) Hnone Hid [k Hm] Hn Ht.
  assert (∀ conv, next_number r' conv = if decide (conv = convID) then next_number r convID + 1 else next_number r conv) as Hnext.
  { intros conv. unfold next_number. rewrite Hn. case_decide as E; [subst; by rewrite lookup_insert_eq|].
    by rewrite lookup_insert_ne. }
  assert (∀ id' t, r_tasks r !! id' = Some t → t_conv t = convID → t_number t < next_number r convID) as Hlt.
  { intros id' t H <-. apply A in H. lia. }
  split_and!.
  - intros id' t H. rewrite Hnext. rewrite Ht in H. apply lookup_insert_Some in H as [[<- <-]|[Hne H]]; simpl.
    + rewrite decide_True by done. specialize (C convID). split_and!; [done|lia..|apply task_wf_new].
    + apply A in H as (H1 & H2 & H3). split; [|split; [case_decide as E; [rewrite E in H2|]; lia|done]].
      rewrite Hm, fmap_app. apply elem_of_app. by left.
  - intros i1 i2 t1 t2 H1 H2. rewrite Ht in H1, H2.
    apply lookup_insert_Some in H1 as [[<- <-]|[Hn1 H1]]; apply lookup_insert_Some in H2 as [[<- <-]|[Hn2 H2]]; simpl.
    + done.
    + intros Hc Hnum. pose proof (Hlt _ _ H2 (eq_sym Hc)). lia.
    + intros Hc Hnum. pose proof (Hlt _ _ H1 Hc). lia.
    + by apply B.
  - intros conv. rewrite Hnext. pose proof (C conv). pose proof (C convID). case_decide; lia.
  - intros i1 i2 t1 t2 team H1 H2. rewrite Ht in H1, H2.
    apply lookup_insert_Some in H1 as [[<- <-]|[Hn1 H1]]; apply lookup_insert_Some in H2 as [[<- <-]|[Hn2 H2]]; simpl; try done.
    by apply D.
Qed.

Lemma CreateTask_inserted msg r r' row n : CreateTaskMessageBumpVersion w msg r = (r', Ok (row, n)) →
  (∃ c, inserted r r' (m_conv msg) c row) ∧ n = next_number r (m_conv msg) ∧ r_tasks r !! m_id row = None ∧
  r_number r' = <[m_conv msg := n + 1]> (r_number r) ∧
  r_tasks r' = <[m_id row := MkTask (m_conv msg) n TaskStatusTodo None None None None None]> (r_tasks r) ∧
  m_root row = m_root msg ∧ m_sender row = m_sender msg ∧ m_agent row = m_agent msg.
Proof.
  unfold CreateTaskMessageBumpVersion, tx. intros H. destruct (bump_version _ _ _) as [[r1 v]|] eqn:E1; [|done].
  destruct (bump_number _ _) as [[r2 n']|] eqn:E2; [|done].
  destruct (createChatMessageInTx _ _ _ _) as [[r3 row']|] eqn:E3; [|done].
  destruct (createTaskRowInTx _ _ _ _ _ _) as [r4|] eqn:E4; [|done].
  destruct (call _ _ _) as [[r5 p]|] eqn:E5; [|done]. simplify_eq. apply call_ok_inv in E5. simplify_eq.
  unfold bump_number in E2. destruct (_ =? MaxInt32); [done|]. injection E2 as <- <-.
  destruct (bump_create_inserted _ _ _ _ _ _ _ E1 E3 eq_refl eq_refl eq_refl) as [c Hc].
  apply createChatMessageInTx_ok in E3 as (_ & _ & F3 & F4 & F5 & F6 & F7 & _ & _ & _ & F9 & F10 & F11).
  apply bump_version_ok in E1 as (c' & _ & _ & ->). unfold createTaskRowInTx in E4.
  rewrite F6 in E4. simpl in E4. destruct (r_tasks r !! m_id row') eqn:E; [done|]. injection E4 as <-. simpl in *.
  split_and!; try done.
  - exists c. by destruct Hc as (?&?&?&?&?&?&?&?&?&?); split_and!.
  - by rewrite F6.
Qed.

Lemma CreateTask_evolves msg : keeps evolves (CreateTaskMessageBumpVersion w msg).
Proof.
  intros r. pose proof (CreateTask_desk msg r) as Hd. destruct (CreateTaskMessageBumpVersion w msg r) as [r' [[row n]|e]] eqn:E.
  - apply CreateTask_inserted in E as ([c Hi] & -> & Hnone & Hn & Ht & _). pose proof (inserted_prefix _ _ _ _ _ Hi).
    eapply inserted_evolves; [done| |by apply rems_ok_more; [unfold r_rems; rewrite Hd|]].
    intros Hok _. simpl. destruct Hi as (_ & _ & _ & _ & _ & Hm & _).
    eapply tasks_ok_insert; [done|done| | |done|done].
    + rewrite Hm, fmap_app. set_solver.
    + rewrite Hm. by apply prefix_app_r.
  - unfold CreateTaskMessageBumpVersion, tx in E. case_all E. all: reflexivity.
Qed.
End writes.

(** What a relation has to say of the writes for every handler to keep it. *)
Class Kept (w : World) (P : Room → Room → Prop) : Prop := {
  kept_preorder :: PreOrder P;
  kept_emit es r : P r (emit es r);
  kept_cursor agentID convID v : keeps P (UpsertCursor w agentID convID v);
  kept_subs root ids : keeps P (AddThreadParticipants w root ids);
  kept_usubs root ids : keeps P (AddUserThreadParticipants w root ids);
  kept_link cid convID : keeps P (LinkCommandConversation w cid convID);
  kept_post msg : keeps P (CreateChatMessageBumpVersion w msg);
  kept_task_post msg : keeps P (CreateTaskMessageBumpVersion w msg) }.

#[export] Hint Resolve kept_preorder kept_cursor kept_subs kept_usubs kept_link kept_post kept_task_post : keeps.

#[export] Instance evolves_kept w : Kept w evolves.
Proof.
  split; [apply _|apply emit_evolves|apply UpsertCursor_evolves|apply AddThreadParticipants_evolves
    |apply AddUserThreadParticipants_evolves|apply Link_evolves|apply CreateChat_evolves|apply CreateTask_evolves].
Qed.

(** ** The handlers *)

(** The checks of a request read only. *)
Section checks.
Context (P : Room → Room → Prop) `{!PreOrder P} (w : World).

Lemma guard_keeps b c msg : keeps P (guard_ b c msg).
Proof. unfold guard_, fail. keep. Qed.
Lemma conversation_of_keeps name : keeps P (conversation_of w name).
Proof. unfold conversation_of, fail. keep. Qed.
Lemma uuid_of_keeps s msg : keeps P (uuid_of w s msg).
Proof. unfold uuid_of, fail. keep. Qed.
#[local] Hint Resolve guard_keeps conversation_of_keeps uuid_of_keeps : keeps.
Lemma resolve_thread_root_keeps convID s : keeps P (resolve_thread_root w convID s).
Proof. unfold resolve_thread_root, IsThreadRoot, query. keep. Qed.
Lemma is_member_keeps convID ty id : keeps P (is_member w convID ty id).
Proof. unfold is_member. keep. Qed.
Lemma get_conversation_keeps convID : keeps P (get_conversation w convID).
Proof. unfold get_conversation. keep. Qed.
Lemma content_mentions_keeps convID s : keeps P (content_mentions w convID s).
Proof. unfold content_mentions. keep. Qed.
End checks.

#[export] Hint Resolve guard_keeps conversation_of_keeps uuid_of_keeps resolve_thread_root_keeps is_member_keeps
  get_conversation_keeps content_mentions_keeps : keeps.


Section handlers.
Context (w : World) (P : Room → Room → Prop) `{!Kept w P}.
(** Other sessions run the same code. *)
Hypothesis others_kept : ∀ n r, P r (w_others w n r).

Lemma gap_kept {Er} n : keeps P (gap w n : M Room Er unit).
Proof. apply keeps_modify. apply others_kept. Qed.

#[local] Hint Resolve gap_kept : keeps.

Lemma List_kept convID a b l o : keeps P (Messages.ListConversationMessages w convID a b l o).
Proof. unfold Messages.ListConversationMessages, query, fill, conversation_version. keep. Qed.

Lemma ListThread_kept convID root a b l o : keeps P (Messages.ListThreadMessages w convID root a b l o).
Proof. unfold Messages.ListThreadMessages, thread_root, query, conversation_version, fill_one, fill. keep. Qed.

#[local] Hint Resolve List_kept ListThread_kept : keeps.

Lemma notify_kept convID v e : keeps P (notifyConversationAgents w convID v e).
Proof. intros r. unfold notifyConversationAgents. destruct (call _ _ _); [by apply kept_emit|reflexivity]. Qed.

Lemma notify_thread_kept convID root v e : keeps P (notifyThreadParticipants w convID root v e).
Proof. intros r. unfold notifyThreadParticipants. destruct (call _ _ _); [by apply kept_emit|reflexivity]. Qed.

#[local] Hint Resolve notify_kept notify_thread_kept : keeps.

Lemma subscribe_kept convID root v ms a u : keeps P (subscribeAndNotifyThread w convID root v ms a u).
Proof. unfold subscribeAndNotifyThread, GetThreadRootSender. keep. Qed.

#[local] Hint Resolve subscribe_kept : keeps.

Lemma createMessage_kept i : keeps P (createMessage w i).
Proof. unfold createMessage. keep. Qed.

Lemma notice_kept convID n : keeps P (postTaskSystemNotification w convID n).
Proof. unfold postTaskSystemNotification. keep. Qed.

#[local] Hint Resolve createMessage_kept notice_kept : keeps.

Lemma link_command_kept cmd convID : keeps P (link_command w cmd convID).
Proof. unfold link_command. keep. Qed.
#[local] Hint Resolve link_command_kept : keeps.
Ltac unfold_checks := unfold fail, link_session.

Lemma SendMessage_kept caller req : keeps P (SendMessage w caller req).
Proof. unfold SendMessage. unfold_checks. keep. Qed.

Lemma PostMessage_kept caller req : keeps P (PostMessage w caller req).
Proof. unfold PostMessage. unfold_checks. keep. Qed.

Lemma Ack_kept caller conv v cmd : keeps P (AckProcessedVersion w caller conv v cmd).
Proof. unfold AckProcessedVersion. unfold_checks. keep. Qed.

(** A wake of a long poll: other sessions ran. *)
Definition fair_wake (x : Wake) : Prop := match x with Changed others => ∀ r, P r (others r) | WaitOver => True end.

Lemma poll_kept readDelta hasNew v wakes : keeps P readDelta → Forall fair_wake wakes →
  keeps P (poll_loop readDelta hasNew v wakes).
Proof.
  intros Hr Hw. revert v. induction Hw as [|[others|] wakes Ho _ IH]; intros v; simpl; [keep| |keep].
  apply keeps_mbind; [apply _|apply keeps_modify, Ho|]. keep.
Qed.

Lemma held_kept readDelta least waitMs wakes : keeps P readDelta → Forall fair_wake wakes →
  keeps P (held readDelta least waitMs wakes).
Proof. intros Hr Hw. unfold held, longPollDelta. pose proof poll_kept. keep. Qed.

#[local] Hint Resolve held_kept : keeps.

Lemma ReadConversation_kept caller req wakes : Forall fair_wake wakes → keeps P (ReadConversation w caller req wakes).
Proof. intros Hw. unfold ReadConversation. unfold_checks. keep. Qed.

Lemma ReadThread_kept caller req wakes : Forall fair_wake wakes → keeps P (ReadThread w caller req wakes).
Proof. intros Hw. unfold ReadThread. unfold_checks. keep. Qed.
End handlers.

#[export] Hint Resolve gap_kept List_kept ListThread_kept notify_kept notify_thread_kept subscribe_kept
  createMessage_kept notice_kept link_command_kept held_kept : keeps.

(** ** The inbox *)

Section inbox.
Context (w : World).

Lemma message_version r m c : numbered r → m ∈ r_msgs r → room_conv r (m_conv m) = Some c →
  2 ≤ m_version m ≤ cv_version c.
Proof.
  intros Hn Hm Hc. specialize (Hn (m_conv m)). rewrite Hc in Hn. destruct Hn as [_ Hv].
  assert (m_version m ∈ versions r (m_conv m)) as H.
  { apply list_elem_of_fmap_2, list_elem_of_filter. done. }
  rewrite Hv in H. apply elem_of_seqZ in H. lia.
Qed.

Lemma new_messages_nil r agentID convID c :
  match new_messages r agentID convID c with [] => false | _ => true end = true ↔
  ∃ m, m ∈ r_msgs r ∧ m_conv m = convID ∧ processed r agentID convID c < m_version m ∧ relevant r agentID m = true.
Proof.
  destruct (new_messages r agentID convID c) as [|m l] eqn:E.
  - split; [done|]. intros (m & Hm & H). assert (m ∈ new_messages r agentID convID c) as Hin.
    { apply list_elem_of_filter. tauto. } rewrite E in Hin. by apply not_elem_of_nil in Hin.
  - split; [|done]. intros _. exists m. assert (m ∈ new_messages r agentID convID c) as Hin.
    { rewrite E. apply list_elem_of_here. } apply list_elem_of_filter in Hin. tauto.
Qed.

Lemma has_update_iff r agentID convID c : numbered r → room_conv r convID = Some c →
  has_update w r agentID (convID, c) = true ↔
  is_agent_member w agentID c = true ∧
  ∃ m v, m ∈ r_msgs r ∧ m_conv m = convID ∧ ch_cursors (r_chat r) !! (agentID, convID) = Some v ∧
         v < m_version m ∧ relevant r agentID m = true.
Proof.
  intros Hn Hc. unfold has_update. simpl. rewrite !andb_true_iff, new_messages_nil, Z.ltb_lt. split.
  - intros [[Ha Hp] (m & Hm & Hmc & Hv & Hr)]. split; [done|]. unfold processed in *.
    destruct (ch_cursors (r_chat r) !! (agentID, convID)) as [v|]; simpl in *; [|lia]. by exists m, v.
  - intros [Ha (m & v & Hm & <- & Hk & Hv & Hr)]. destruct (message_version r m c Hn Hm Hc).
    unfold processed. rewrite Hk. simpl. split_and!; [done|lia|]. by exists m.
Qed.

(** C12: An agent is woken exactly for what it has not processed.  In a numbered
    room the gate of a session is open exactly when some conversation lists the
    agent, has a cursor of it, and holds beyond the cursor a message that is not
    the system's and is top level or in a thread the agent subscribed to.  In
    particular an unread message keeps the gate open until the cursor passes it,
    and the inbox is empty exactly when the gate is closed. *)
Theorem woken_exactly_for_unread r agentID : room_ok r →
  (has_updates w agentID r = true ↔
   ∃ m c v, m ∈ r_msgs r ∧ room_conv r (m_conv m) = Some c ∧ is_agent_member w agentID c = true ∧
     ch_cursors (r_chat r) !! (agentID, m_conv m) = Some v ∧ v < m_version m ∧ relevant r agentID m = true) ∧
  (has_updates w agentID r = true ↔ channel_updates w agentID r ≠ []).
Proof.
  intros (_ & Hn & _). split.
  - unfold has_updates. rewrite existsb_exists. split.
    + intros ([convID c] & Hin & H). apply list_elem_of_In, elem_of_map_to_list in Hin.
      apply has_update_iff in H as (Ha & m & v & Hm & <- & H); [|done..]. exists m, c, v. tauto.
    + intros (m & c & v & Hm & Hc & Ha & H). exists (m_conv m, c). split; [by apply list_elem_of_In, elem_of_map_to_list|].
      apply has_update_iff; [done..|]. split; [done|]. exists m, v. tauto.
  - unfold has_updates, channel_updates. rewrite existsb_exists. split.
    + intros (kv & Hin & H) E. apply fmap_nil_inv in E.
      assert (kv ∈ merge_sort (updated_ge r) (filter (λ kv, has_update w r agentID kv = true) (map_to_list (ch_convs (r_chat r))))) as Hk.
      { rewrite merge_sort_Permutation. apply list_elem_of_filter. split; [done|by apply list_elem_of_In]. }
      rewrite E in Hk. by apply not_elem_of_nil in Hk.
    + intros H. destruct (merge_sort _ _) as [|kv l] eqn:E; [done|].
      assert (kv ∈ merge_sort (updated_ge r) (filter (λ kv, has_update w r agentID kv = true) (map_to_list (ch_convs (r_chat r))))) as Hk
        by (rewrite E; apply list_elem_of_here).
      rewrite merge_sort_Permutation in Hk. apply list_elem_of_filter in Hk as [H1 H2]. exists kv.
      split; [by apply list_elem_of_In|done].
Qed.

(** An agent without a cursor hears nothing.  A missing cursor reads as caught
    up at every moment, not at the moment of joining: as long as the row does not
    exist no message of the conversation opens the gate or shows in the inbox.  The
    seed at a join is best effort, so a seed that fails leaves the member deaf. *)
Theorem no_cursor_hears_nothing r agentID convID c : room_ok r → room_conv r convID = Some c →
  ch_cursors (r_chat r) !! (agentID, convID) = None →
  has_update w r agentID (convID, c) = false ∧ (∀ u, u ∈ channel_updates w agentID r → cu_conv u ≠ convID).
Proof.
  intros (_ & Hn & _) Hc Hk. assert (has_update w r agentID (convID, c) = false) as Hf.
  { apply not_true_iff_false. intros H. apply has_update_iff in H as (_ & m & v & _ & _ & Hv & _); [|done..]. congruence. }
  split; [done|]. intros u Hu E. apply list_elem_of_fmap in Hu as ([id c'] & -> & Hu). simpl in E. subst id.
  rewrite merge_sort_Permutation in Hu. apply list_elem_of_filter in Hu as [Hu Hin].
  apply elem_of_map_to_list in Hin. unfold room_conv in Hc. congruence.
Qed.
End inbox.

(** ** Posting *)

(** Nothing but notices and subscriptions. *)
Definition talks (r r' : Room) : Prop :=
  r_msgs r' = r_msgs r ∧ r_chat r' = r_chat r ∧ r_tasks r' = r_tasks r ∧ r_number r' = r_number r ∧ r_subs r ⊆ r_subs r'.

#[export] Instance talks_preorder : PreOrder talks.
Proof.
  split; [done|]. intros r1 r2 r3 (A & B & C & D & E) (A' & B' & C' & D' & E').
  unfold talks. split_and!; [congruence..|set_solver].
Qed.

Lemma keeps_eq_inv {Er A} (m : M Room Er A) r r' x : keeps eq m → m r = (r', x) → r' = r.
Proof. intros Hm H. specialize (Hm r). by rewrite H in Hm. Qed.

Lemma as_error_ok {A} c (m : M Room string A) r r' a : as_error c m r = (r', Ok a) → m r = (r', Ok a).
Proof. unfold as_error. destruct (m r) as [r1 [x|e]]; congruence. Qed.

Lemma guard_ok b c msg r r' x : guard_ b c msg r = (r', Ok x) → b = true ∧ r' = r.
Proof. unfold guard_, fail, throw. destruct b; [by intros [= ->]|done]. Qed.

(** Undoes the first bind of [H : ... r = (r', Ok a)] whose program only reads. *)
Ltac reads_in H :=
  let s := fresh "s" in let a := fresh "a" in let E := fresh "E" in
  apply bind_ok_inv in H as (s & a & E & H);
  let Hs := fresh "Hs" in pose proof E as Hs; eapply keeps_eq_inv in Hs; [subst s|solve [keep]].

Section posting.
Context (w : World).

Lemma notify_talks convID v e : keeps talks (notifyConversationAgents w convID v e).
Proof. intros r. unfold notifyConversationAgents. by destruct (call _ _ _). Qed.

Lemma notify_thread_talks convID root v e : keeps talks (notifyThreadParticipants w convID root v e).
Proof. intros r. unfold notifyThreadParticipants. by destruct (call _ _ _). Qed.

Lemma subscribe_talks convID root v ms a u : keeps talks (subscribeAndNotifyThread w convID root v ms a u).
Proof.
  pose proof notify_thread_talks as Hn. unfold subscribeAndNotifyThread, GetThreadRootSender. keep.
  - apply keeps_tx; [apply _|]. intros r r' x H. case_match; [by simplify_eq|]. apply call_ok_inv in H. simplify_eq.
    unfold talks. simpl. split_and!; try done. set_solver.
  - apply keeps_tx; [apply _|]. intros r r' x H. case_match; [by simplify_eq|]. apply call_ok_inv in H. by simplify_eq.
Qed.

(** A message that is no task: the row, then the notices. *)
Lemma createMessage_plain i r r' msg n : i_task i = false → createMessage w i r = (r', Ok (msg, n)) →
  ∃ r1, CreateChatMessageBumpVersion w (draft (i_conv i) (i_principal i) (i_agent i) (i_role i) (i_content i) (i_command i)
           (i_sender i) (i_mentions i) (i_attachments i) (i_root i)) r = (r1, Ok msg) ∧ talks r1 r'.
Proof.
  intros Ht H. unfold createMessage in H. rewrite Ht in H.
  apply bind_ok_inv in H as (r1 & x & E & H). apply bind_ok_inv in E as (r2 & y & E & E2).
  apply as_error_ok in E. injection E2 as <- <-.
  apply bind_ok_inv in H as (r3 & [] & E3 & H). injection H as <- <- <-. exists r2. split; [done|].
  simpl in E3. destruct (i_root i).
  - pose proof (subscribe_talks (i_conv i) s (m_version y) (i_mentions i) (i_except i) (i_user i) r2) as Hk. by rewrite E3 in Hk.
  - pose proof (notify_talks (i_conv i) (m_version y) (i_except i) r2) as Hk. by rewrite E3 in Hk.
Qed.

Lemma GetConversation_room convID r c : get_conversation w convID r = (r, Ok c) → room_conv r convID = Some c.
Proof.
  unfold get_conversation, GetConversation, room_conv. intros H. repeat case_match; simplify_eq; done.
Qed.

(** A committed post: the check, what others did, the row, the notices, what others
    did, the cursor. *)
Lemma PostMessage_committed caller req r r' msg v : PostMessage w caller req r = (r', Ok (Committed msg v)) →
  ∃ agent convID conv d r1 r2,
    by_agent caller = Some agent ∧ parseConversationID (w_dir w) (pr_conv req) = Some convID ∧
    room_conv r convID = Some conv ∧ cv_version conv = pr_base req ∧
    m_conv d = convID ∧ m_sender d = SenderTypeAgent ∧ m_agent d = Some (ag_id agent) ∧ m_content d = pr_content req ∧
    CreateChatMessageBumpVersion w d (w_others w 1 r) = (r1, Ok msg) ∧ talks r1 r2 ∧ v = m_version msg ∧
    r' = (UpsertCursor w (ag_id agent) convID v (w_others w 2 r2)).1.
Proof.
  unfold PostMessage. destruct (by_agent caller) as [agent|]; [|done]. intros H.
  reads_in H. reads_in H. apply GetConversation_room in E0. reads_in H. reads_in H. reads_in H.
  destruct (pr_base req =? cv_version a0) eqn:Eb.
  2:{ apply bind_ok_inv in H as (? & ? & _ & H). done. }
  apply Z.eqb_eq in Eb. reads_in H. reads_in H. reads_in H.
  apply bind_ok_inv in H as (s & [] & Eg & H). injection Eg as <-.
  apply bind_ok_inv in H as (s & [m n] & Ec & H). apply createMessage_plain in Ec as (r1 & Ec & Ht); [|done].
  apply bind_ok_inv in H as (s' & [] & Eg & H). injection Eg as <-.
  apply bind_ok_inv in H as (s' & [] & El & H). injection El as <-. injection H as <- <- <-.
  exists agent, a, a0. eexists _, r1, s. split_and!; try done.
  { unfold conversation_of in E. destruct (parseConversationID _ _); [|done]. by injection E as <-. }
  all: done.
Qed.

(** Nothing happens between two statements. *)
Definition alone : Prop := ∀ n r, w_others w n r = r.

Lemma UpsertCursor_runs agentID convID v r c : room_conv r convID = Some c → d_fails (w_dir w) "UpsertCursor" = None →
  (UpsertCursor w agentID convID v r).1 = set_chat (set_cursor (agentID, convID) v) r.
Proof. intros Hc Hf. unfold UpsertCursor, tx, call. by rewrite Hc, Hf. Qed.

Lemma Upsert_msgs agentID convID v r : r_msgs (UpsertCursor w agentID convID v r).1 = r_msgs r.
Proof. unfold UpsertCursor, tx, call. by repeat case_match; simplify_eq/=. Qed.

Lemma talks_room r r' convID : talks r r' → room_conv r' convID = room_conv r convID.
Proof. intros (_ & Hc & _). unfold room_conv. by rewrite Hc. Qed.

(** A post skips nothing when no one races it.  A post that is committed without
    a commit of others meanwhile is the only message of its conversation beyond the
    version it was based on, so the advance of the poster's cursor passes nobody
    else's message. *)
Theorem lone_post_skips_nothing caller req r r' msg v : alone → room_ok r →
  PostMessage w caller req r = (r', Ok (Committed msg v)) →
  v = pr_base req + 1 ∧ m_version msg = v ∧ m_content msg = pr_content req ∧
  ∀ m, m ∈ r_msgs r' → m_conv m = m_conv msg → pr_base req < m_version m → m = msg.
Proof.
  intros Ha (_ & Hn & _) H.
  apply PostMessage_committed in H as (agent & convID & conv & d & r1 & r2 & _ & _ & Hc & Hv & Hd & _ & _ & Hcont & Hi & Ht & -> & ->).
  rewrite Ha in Hi. rewrite Upsert_msgs, Ha. pose proof (CreateChat_content _ _ _ _ _ Hi) as Hcont'.
  apply CreateChat_inserted in Hi as ([c (Hc' & Hmc & Hmv & _ & _ & Hms & _)] & _). rewrite Hd in *.
  assert (c = conv) as -> by congruence. split_and!; [lia|done|congruence|].
  destruct Ht as [-> _]. rewrite Hms. intros m [Hm|Hm]%elem_of_app Hmc' Hlt.
  - assert (m_version m ≤ cv_version conv); [|lia]. eapply message_version; [done|done|]. by rewrite Hmc', Hmc.
  - by apply list_elem_of_singleton in Hm.
Qed.

(** C31: A post that is raced hides the other's message.  The version is checked
    when the request begins and the row is written later: when another session
    posts in between, the post is committed all the same, with a version two beyond
    its base, and the cursor of its agent passes the other's message, which is in
    the conversation, was in no answer to the agent, and never shows in its inbox. *)
Theorem raced_post_hides_a_message caller req r r' msg v agent convID d0 m0 :
  by_agent caller = Some agent → parseConversationID (w_dir w) (pr_conv req) = Some convID → m_conv d0 = convID →
  CreateChatMessageBumpVersion w d0 r = (w_others w 1 r, Ok m0) → (∀ r, w_others w 2 r = r) →
  d_fails (w_dir w) "UpsertCursor" = None →
  PostMessage w caller req r = (r', Ok (Committed msg v)) →
  m_version m0 = pr_base req + 1 ∧ v = pr_base req + 2 ∧ m0 ∈ r_msgs r' ∧
  ∃ c, room_conv r' convID = Some c ∧ has_update w r' (ag_id agent) (convID, c) = false.
Proof.
  intros Hag Hname Hd0 H0 Hg2 Hf H.
  apply PostMessage_committed in H as (agent' & convID' & conv & d & r1 & r2 & Ha & Hp & Hc & Hv & Hd & _ & _ & _ & Hi & Ht & -> & ->).
  rewrite Hname in Hp. injection Hp as <-. rewrite Hag in Ha. injection Ha as <-.
  apply CreateChat_inserted in H0 as ([c0 (Hc0 & _ & Hv0 & _ & _ & Hm0 & Hc0' & _)] & _).
  apply CreateChat_inserted in Hi as ([c1 (Hc1 & _ & Hv1 & _ & _ & Hm1 & Hc1' & _)] & _).
  rewrite Hd in *. rewrite Hd0 in *. assert (c0 = conv) as -> by congruence.
  assert (c1 = set_version (cv_version conv + 1) conv) as -> by congruence. simpl in *.
  pose proof (eq_trans (talks_room _ _ convID Ht) Hc1') as Hc2.
  rewrite Hg2. erewrite UpsertCursor_runs by done. split_and!; [lia|lia| |].
  - simpl. destruct Ht as [-> _]. rewrite Hm1, Hm0. set_solver.
  - eexists. split; [exact Hc2|]. unfold has_update. simpl. unfold processed. simpl. rewrite lookup_insert_eq. simpl.
    destruct (Z.ltb_spec (Z.max (default (m_version msg) (ch_cursors (r_chat r2) !! (ag_id agent, convID))) (m_version msg))
      (cv_version conv + 1 + 1)); [lia|]. by rewrite andb_false_r.
Qed.

(** *** What the reads answer *)

Lemma fillTaskInfo_msgs r vs vs' : fillTaskInfo w r vs = Ok vs' → v_msg <$> vs' = v_msg <$> vs.
Proof.
  revert vs'. induction vs as [|v vs IH]; intros vs' H; simpl in H; [by simplify_eq|].
  destruct (fill_task w r v) as [v1|] eqn:E; [|by case_all H]. destruct (fillTaskInfo w r vs) as [vs1|]; [|done].
  simplify_eq. rewrite !fmap_cons, (IH _ eq_refl). f_equal. unfold fill_task in E. by repeat case_match; simplify_eq.
Qed.

Lemma fill_msgs r vs vs' : fillTaskInfo w r (fillThreadReplyCounts r <$> vs) = Ok vs' → v_msg <$> vs' = v_msg <$> vs.
Proof.
  intros H. rewrite (fillTaskInfo_msgs _ _ _ H), <- list_fmap_compose. apply list_fmap_ext. intros i v _.
  simpl. unfold fillThreadReplyCounts. by case_match.
Qed.

Lemma query_ok {A} name (f : Room → A) r r' a : query w name f r = (r', Ok a) → r' = r ∧ a = f r.
Proof. unfold query. intros H. injection H as <- H. by apply call_ok_inv in H. Qed.

Lemma conversation_version_ok convID r r' v : conversation_version w convID r = (r', Ok v) →
  r' = r ∧ ∃ c, room_conv r convID = Some c ∧ v = cv_version c.
Proof.
  unfold conversation_version. intros H. injection H as <- H. destruct (room_conv r convID) as [c|]; [|done].
  apply call_ok_inv in H as ->. split; [done|]. by exists c.
Qed.

Lemma views_msgs (ms : list Message) : v_msg <$> (view <$> ms) = ms.
Proof. rewrite <- list_fmap_compose. rewrite <- (list_fmap_id ms) at 2. by apply list_fmap_ext. Qed.

(** The rows are read before the version. *)
Lemma List_ok convID a b l o r r' vs v : Messages.ListConversationMessages w convID a b l o r = (r', Ok (vs, v)) →
  r' = w_others w 3 r ∧ v_msg <$> vs = select_conversation convID a b l o r ∧
  ∃ c, room_conv r' convID = Some c ∧ v = cv_version c.
Proof.
  unfold Messages.ListConversationMessages. intros H. destruct (_ && _); [done|].
  apply bind_ok_inv in H as (s & ms & E & H). apply query_ok in E as [-> ->].
  apply bind_ok_inv in H as (s & [] & E & H). injection E as <-.
  apply bind_ok_inv in H as (s & vs' & E & H). unfold fill in E. injection E as <- E. apply fill_msgs in E.
  rewrite views_msgs in E. apply bind_ok_inv in H as (s & v' & E' & H).
  apply conversation_version_ok in E' as [-> Hc]. injection H as <- <- <-. done.
Qed.

Lemma ListThread_ok convID rootID a b l o r r' vs v : Messages.ListThreadMessages w convID rootID a b l o r = (r', Ok (vs, v)) →
  r' = w_others w 3 r ∧
  (∃ root, find_root convID rootID r = Some root ∧ v_msg <$> vs = root :: select_replies rootID a b l o r) ∧
  ∃ c, room_conv r' convID = Some c ∧ v = cv_version c.
Proof.
  unfold Messages.ListThreadMessages. intros H. destruct (_ && _); [done|].
  apply bind_ok_inv in H as (s & root & E & H). unfold thread_root in E. injection E as <- E.
  destruct (find_root convID rootID r) as [m|] eqn:Er; [|done]. injection E as ->.
  apply bind_ok_inv in H as (s & ms & E & H). apply query_ok in E as [-> ->].
  apply bind_ok_inv in H as (s & [] & E & H). injection E as <-.
  apply bind_ok_inv in H as (s & v' & E' & H). apply conversation_version_ok in E' as [-> Hc].
  apply bind_ok_inv in H as (s & v1 & E & H). injection H as <- <- <-.
  unfold fill_one in E. apply bind_ok_inv in E as (s' & vs' & E & E2). unfold fill in E. injection E as <- E.
  pose proof (fill_msgs (w_others w 3 r) [view root] vs' E) as Em.
  assert (s = w_others w 3 r ∧ v_msg v1 = root) as [-> Hv1].
  { destruct vs' as [|v2 vs']; injection E2 as <- <-; [done|]. simpl in Em. injection Em as Em _. done. }
  split; [done|]. split; [|done]. exists root. split; [done|]. simpl. by rewrite views_msgs, Hv1.
Qed.

(** A refused post changes nothing.  A post whose base is not the version of
    the conversation writes nothing; it answers the current version and at most
    fifty of the top-level messages beyond its base. *)
Theorem conflict_changes_nothing caller req r r' v new convID : alone →
  parseConversationID (w_dir w) (pr_conv req) = Some convID →
  PostMessage w caller req r = (r', Ok (Conflict v new)) →
  r' = r ∧ v ≠ pr_base req ∧ cv_version <$> room_conv r convID = Some v ∧
  v_msg <$> new.*1 = select_conversation convID (pr_base req) 0 50 0 r.
Proof.
  intros Ha Hname H. unfold PostMessage in H. destruct (by_agent caller) as [agent|]; [|done].
  reads_in H. unfold conversation_of in E. rewrite Hname in E. injection E as <-.
  reads_in H. apply GetConversation_room in E. reads_in H. reads_in H. reads_in H.
  destruct (pr_base req =? cv_version a) eqn:Eb.
  - do 3 reads_in H. apply bind_ok_inv in H as (? & ? & _ & H). apply bind_ok_inv in H as (? & ? & _ & H).
    apply bind_ok_inv in H as (? & ? & _ & H). by apply bind_ok_inv in H as (? & ? & _ & H).
  - apply Z.eqb_neq in Eb. apply bind_ok_inv in H as (s & [vs cv] & El & H). apply as_error_ok, List_ok in El as (-> & Hvs & _).
    injection H as <- <- <-. rewrite Ha, E. split_and!; [done|done|done|]. simpl.
    rewrite <- !list_fmap_compose. rewrite <- Hvs. by apply list_fmap_ext.
Qed.
End posting.

(** ** Reading *)

#[export] Instance version_le_total : Total version_le.
Proof. intros a b. unfold version_le. lia. Qed.
#[export] Instance version_ge_total : Total version_ge.
Proof. intros a b. unfold version_ge. lia. Qed.
#[export] Instance version_le_trans : Transitive version_le.
Proof. intros a b c. unfold version_le. lia. Qed.
#[export] Instance version_ge_trans : Transitive version_ge.
Proof. intros a b c. unfold version_ge. lia. Qed.

Lemma elem_of_page m limit offset l : m ∈ page limit offset l → m ∈ l.
Proof.
  unfold page. intros H. apply elem_of_take in H as (i & H & _). rewrite lookup_drop in H.
  by apply list_elem_of_lookup_2 in H.
Qed.

Lemma page_all limit l : Z.of_nat (length l) ≤ limit → page limit 0 l = l.
Proof. intros H. unfold page. simpl. rewrite drop_0. apply take_ge. lia. Qed.

(** The rows of a delta are top-level messages beyond its version, and all of them
    when they fit the page. *)
Lemma select_after convID a l o r m : 0 < a → m ∈ select_conversation convID a 0 l o r →
  m ∈ r_msgs r ∧ m_conv m = convID ∧ is_root m = true ∧ a < m_version m.
Proof.
  intros Ha. unfold select_conversation. rewrite (proj2 (Z.ltb_lt 0 a) Ha). intros Hm. apply elem_of_page in Hm.
  rewrite merge_sort_Permutation in Hm. apply list_elem_of_filter in Hm as [H1 H2].
  apply list_elem_of_filter in H2 as [[? ?] ?]. done.
Qed.

Definition news (convID : string) (a : Z) (r : Room) : list Message := filter (λ m, a < m_version m) (roots_of convID r).

Lemma select_after_all convID a l r m : 0 < a → Z.of_nat (length (news convID a r)) ≤ l →
  m ∈ r_msgs r → m_conv m = convID → is_root m = true → a < m_version m →
  m ∈ select_conversation convID a 0 l 0 r.
Proof.
  intros Ha Hl Hm Hc Hr Hv. unfold select_conversation. rewrite (proj2 (Z.ltb_lt 0 a) Ha). fold (news convID a r).
  rewrite page_all by by rewrite merge_sort_Permutation. rewrite merge_sort_Permutation.
  apply list_elem_of_filter. split; [done|]. by apply list_elem_of_filter.
Qed.

Section reading.
Context (w : World).

(** A delta read alone misses nothing.  When no commit comes between its two
    statements and its rows fit the page, a delta holds exactly the top-level
    messages beyond its version, and no message of the conversation is beyond the
    version it returns: a reader that asks again from that version has seen every
    top-level message. *)
Theorem lone_delta_is_complete convID a l r r' vs v : alone w → room_ok r → 0 < a →
  Z.of_nat (length (news convID a r)) ≤ l →
  Messages.ListConversationMessages w convID a 0 l 0 r = (r', Ok (vs, v)) →
  (∀ m, m ∈ v_msg <$> vs ↔ m ∈ r_msgs r ∧ m_conv m = convID ∧ is_root m = true ∧ a < m_version m) ∧
  (∀ m, m ∈ r_msgs r → m_conv m = convID → m_version m ≤ v).
Proof.
  intros Hal (_ & Hn & _) Ha Hl (-> & Hvs & c & Hc & ->)%List_ok. rewrite Hal in Hc. rewrite Hvs. split.
  - intros m. split; [by apply select_after|]. intros (? & ? & ? & ?). by apply select_after_all.
  - intros m Hm <-. by eapply message_version.
Qed.

(** C34: A delta's version can overtake its rows.  The rows and the version are read
    by two statements: a message another session posts in between is not among the
    rows, yet the version returned counts it, so no later delta that starts at the
    returned version shows it, whatever its page and whenever it is read. *)
Theorem delta_version_overtakes convID a l o r r' vs v d0 m0 : 0 < a → m_conv d0 = convID →
  CreateChatMessageBumpVersion w d0 r = (w_others w 3 r, Ok m0) →
  Messages.ListConversationMessages w convID a 0 l o r = (r', Ok (vs, v)) →
  m0 ∈ r_msgs r' ∧ m0 ∉ v_msg <$> vs ∧ m_version m0 = v ∧
  ∀ l' o' r2, 0 < v → m0 ∉ select_conversation convID v 0 l' o' r2.
Proof.
  intros Ha Hd H0 (-> & Hvs & c & Hc & ->)%List_ok.
  apply CreateChat_inserted in H0 as ([c0 (Hc0 & _ & Hv0 & Hid & _ & Hm0 & Hc0' & _)] & _).
  rewrite Hd in *. rewrite Hc0' in Hc. injection Hc as <-. simpl. rewrite Hvs. split_and!.
  - rewrite Hm0. set_solver.
  - intros Hm. apply select_after in Hm as [Hm _]; [|done]. apply Hid. by apply list_elem_of_fmap_2.
  - done.
  - intros l' o' r2 Hv Hm. apply select_after in Hm as (_ & _ & _ & Hlt); [|done]. lia.
Qed.

(** *** History *)

Lemma page_split limit offset l : 0 ≤ offset → ∃ l1 l2, l = l1 ++ page limit offset l ++ l2 ∧
  length l1 = Nat.min (Z.to_nat offset) (length l) ∧
  (Z.of_nat (length (page limit offset l)) < limit → l2 = []).
Proof.
  intros Ho. exists (take (Z.to_nat offset) l), (drop (Z.to_nat limit) (drop (Z.to_nat offset) l)).
  unfold page. rewrite take_drop, take_drop. split_and!; [done|apply length_take|].
  intros H. apply drop_ge. rewrite length_take in H. lia.
Qed.

(** A page of history is the tail of what came before.  The messages of a
    conversation before a version come in ascending order of version; whatever is
    left out is no newer than anything on the page, and nothing is left out when
    the page is not full. *)
Theorem history_page_is_a_tail convID b l r : 0 < b →
  let ms := select_conversation convID 0 b l 0 r in
  let older m := m ∈ roots_of convID r ∧ m_version m < b in
  (∀ m, m ∈ ms → older m) ∧ Sorted version_le ms ∧
  (∀ m m', older m → m ∉ ms → m' ∈ ms → m_version m ≤ m_version m') ∧
  (Z.of_nat (length ms) < l → ∀ m, older m → m ∈ ms).
Proof.
  intros Hb. unfold select_conversation, chronological. simpl. rewrite (proj2 (Z.ltb_lt 0 b) Hb).
  set (all := merge_sort version_ge _).
  assert (∀ m, m ∈ all ↔ m ∈ roots_of convID r ∧ m_version m < b) as Hall.
  { intros m. unfold all. rewrite merge_sort_Permutation, list_elem_of_filter. tauto. }
  assert (StronglySorted version_ge all) as Hs by (apply StronglySorted_merge_sort; apply _).
  destruct (page_split l 0 all) as (l1 & l2 & E & Hl1 & Hl2); [lia|].
  destruct l1; [|simpl in Hl1; lia]. simpl in E. set (p := page l 0 all) in *. split_and!.
  - intros m Hm. rewrite elem_of_reverse in Hm. apply Hall. rewrite E. set_solver.
  - apply (Sorted_reverse version_ge). rewrite E in Hs. apply StronglySorted_app_1_l in Hs. by apply StronglySorted_Sorted.
  - intros m m' Ho Hm Hm'. rewrite elem_of_reverse in Hm, Hm'. apply Hall in Ho. rewrite E in Ho.
    apply elem_of_app in Ho as [?|Ho]; [done|]. rewrite E in Hs. by eapply StronglySorted_app_1_elem_of in Hs.
  - intros Hlen m Ho. rewrite elem_of_reverse. apply Hall in Ho. rewrite length_reverse in Hlen.
    rewrite (Hl2 Hlen), app_nil_r in E. by rewrite E in Ho.
Qed.
End reading.

(** ** The pages of a thread *)

Section thread.
Context (w : World).

Lemma page_limit_pos size : 1 ≤ page_limit size ≤ 100.
Proof. unfold page_limit. repeat case_match; lia. Qed.

(** The new replies of a thread, oldest first. *)
Definition thread_news (rootID : string) (a : Z) (r : Room) : list Message :=
  merge_sort version_le (filter (λ m, a < m_version m) (filter (λ m, is_reply_of rootID m = true) (r_msgs r))).

Lemma select_thread_news rootID a l o r : 0 < a → select_replies rootID a 0 l o r = page l o (thread_news rootID a r).
Proof. intros Ha. unfold select_replies. by rewrite (proj2 (Z.ltb_lt 0 a) Ha). Qed.

(** A delta of a thread, read alone, that has a new reply. *)
Lemma ReadThread_delta caller req wakes r r' rep rootID : alone w → 0 < rd_after req → rd_before req = 0 →
  e_uuid (d_env (w_dir w)) (rd_root req) = Some rootID →
  let L := page_limit (rd_size req) in
  let new := page (L + 1) (rd_offset req) (thread_news rootID (rd_after req) r) in
  new ≠ [] → ReadThread w caller req wakes r = (r', Ok rep) →
  ∃ root vs, v_msg <$> vs = root :: new ∧
    rp_messages rep = (λ v, (v, match by_agent caller with Some a => own (ag_id a) v | None => false end)) <$>
      (trim (rd_after req) (rd_before req) L (rd_offset req) vs).1 ∧
    rp_next rep = (trim (rd_after req) (rd_before req) L (rd_offset req) vs).2.
Proof.
  intros Hal Ha Hb Hroot L new Hnew H. unfold ReadThread in H. reads_in H. reads_in H. reads_in H.
  unfold uuid_of in E1. rewrite Hroot in E1. injection E1 as <-. reads_in H.
  apply bind_ok_inv in H as (s & [vs v] & El & H). rewrite Hb in El.
  rewrite (proj2 (Z.ltb_lt 0 (rd_after req)) Ha) in El. simpl in El.
  unfold held in El. apply bind_ok_inv in El as (s1 & [vs1 v1] & Er & El).
  apply as_error_ok, ListThread_ok in Er as (-> & (root & _ & Hvs) & _).
  rewrite select_thread_news in Hvs by done. fold L in Hvs. fold new in Hvs.
  assert (1 <? Z.of_nat (length vs1) = true) as Hlen.
  { apply Z.ltb_lt. rewrite <- (length_fmap v_msg vs1), Hvs. simpl. destruct new; [done|]. simpl. lia. }
  cbn [fst] in El. rewrite Hlen in El. simpl in El. injection El as <- <- <-.
  apply bind_ok_inv in H as (s2 & [] & _ & H). injection H as <- <-. exists root, vs1. split; [done|].
  unfold reply. simpl. fold L. by destruct (trim _ _ _ _ _).
Qed.

Lemma trim_full a L o vs : 0 < a → Z.of_nat (length vs) = L + 1 → trim a 0 L o vs = (take (Z.to_nat L) vs, Some (o + L)).
Proof.
  intros Ha Hl. unfold trim. rewrite (proj2 (Z.ltb_lt 0 a) Ha), Hl. by rewrite !Z.eqb_refl.
Qed.

Lemma trim_not_full a L o vs : Z.of_nat (length vs) ≠ L + 1 → trim a 0 L o vs = (vs, None).
Proof. intros Hl. unfold trim. rewrite (proj2 (Z.eqb_neq _ _) Hl). by rewrite andb_false_r. Qed.

(** The pages of a thread lose a reply.  The store adds the root to the replies
    it was asked for, and the handler takes one row more than the limit for the
    sign of a further page.  When exactly as many new replies are left as the limit,
    the last one is trimmed, and the page the token leads to starts after it: it is
    on neither.  When more are left than the limit, the page holds one reply too
    many and has no token, so the rest is on no page. *)
Theorem thread_pages_lose_replies caller req wakes r r' rep rootID : alone w → 0 < rd_after req → rd_before req = 0 →
  0 ≤ rd_offset req → e_uuid (d_env (w_dir w)) (rd_root req) = Some rootID →
  let L := page_limit (rd_size req) in
  let left_ := drop (Z.to_nat (rd_offset req)) (thread_news rootID (rd_after req) r) in
  ReadThread w caller req wakes r = (r', Ok rep) →
  (Z.of_nat (length left_) = L →
   (∃ root, v_msg <$> (rp_messages rep).*1 = root :: take (Z.to_nat (L - 1)) left_) ∧
   rp_next rep = Some (rd_offset req + L) ∧
   select_replies rootID (rd_after req) 0 (L + 1) (rd_offset req + L) r = []) ∧
  (L < Z.of_nat (length left_) →
   (∃ root, v_msg <$> (rp_messages rep).*1 = root :: take (Z.to_nat (L + 1)) left_) ∧ rp_next rep = None).
Proof.
  intros Hal Ha Hb Ho Hroot L left_ H. pose proof (page_limit_pos (rd_size req)) as HL. fold L in HL.
  pose proof (ReadThread_delta caller req wakes r r' rep rootID Hal Ha Hb Hroot) as Hd. simpl in Hd. fold L in Hd.
  unfold page in Hd at 1. fold left_ in Hd.
  assert (left_ ≠ [] → ∃ root vs, v_msg <$> vs = root :: take (Z.to_nat (L + 1)) left_ ∧
    v_msg <$> (rp_messages rep).*1 = v_msg <$> (trim (rd_after req) 0 L (rd_offset req) vs).1 ∧
    rp_next rep = (trim (rd_after req) 0 L (rd_offset req) vs).2) as Hr.
  { intros Hne. destruct Hd as (root & vs & Hvs & Hm & Hn); [|done|].
    - fold left_. intros E. apply Hne. destruct left_; [done|]. by replace (Z.to_nat (L + 1)) with (S (Z.to_nat L)) in E by lia.
    - exists root, vs. rewrite Hb in Hm, Hn. split_and!; [done| |done]. rewrite Hm. rewrite <- !list_fmap_compose.
      by apply list_fmap_ext. }
  clear Hd. assert (left_ ≠ [] → ∀ vs root, v_msg <$> vs = root :: take (Z.to_nat (L + 1)) left_ →
    Z.of_nat (length vs) = 1 + Z.min (L + 1) (Z.of_nat (length left_))) as Hlen.
  { intros _ vs root E. rewrite <- (length_fmap v_msg vs), E. simpl. rewrite length_take. lia. }
  split; intros Hl.
  all: assert (left_ ≠ []) as Hne by (intros E; rewrite E in Hl; simpl in Hl; lia).
  all: destruct (Hr Hne) as (root & vs & Hvs & Hm & Hn); pose proof (Hlen Hne vs root Hvs) as Hv.
  - rewrite trim_full in Hm by lia. rewrite trim_full in Hn by lia.
    split; [|split; [done|]].
    + exists root. simpl in Hm. rewrite Hm, fmap_take, Hvs. replace (Z.to_nat L) with (S (Z.to_nat (L - 1))) by lia.
      simpl. f_equal. rewrite take_take. f_equal. lia.
    + rewrite select_thread_news by done. unfold page. rewrite drop_ge; [by rewrite take_nil|].
      subst left_. rewrite length_drop in Hl. lia.
  - rewrite trim_not_full in Hm by lia. rewrite trim_not_full in Hn by lia.
    split; [|done]. exists root. simpl in Hm. by rewrite Hm.
Qed.

(** The unread badge of a thread always reads zero.  The count of unread replies
    compares the integer column principal_id with the caller's handle: the server
    refuses a handle that is no integer, the code drops the error, and every thread
    of every listing has no new reply. *)
Theorem thread_badges_read_zero int4in convID principal handle r r' ts :
  int4in handle = None → ListChannelThreads w int4in convID principal handle r = (r', Ok ts) →
  ∀ t, t ∈ ts → ct_new t = 0.
Proof.
  intros Hh H. unfold ListChannelThreads, listChannelThreadNewCounts in H. rewrite Hh in H. injection H as _ H.
  destruct (call (w_dir w) "ListChannelThreads" tt); [|done]. injection H as <-.
  assert (∀ t, t ∈ merge_sort thread_ge (summary convID r <$> thread_roots convID r) → ct_new t = 0) as Hs.
  { intros t. rewrite merge_sort_Permutation. intros (root & -> & _)%list_elem_of_fmap. done. }
  assert (∀ ts : list ChannelThread, (∀ t, t ∈ ts → ct_new t = 0) → ∀ t, t ∈ with_recent (previews convID r) <$> ts → ct_new t = 0) as Hw.
  { intros ts H t (t' & -> & Ht')%list_elem_of_fmap. simpl. by apply H. }
  repeat case_match; first [exact Hs | exact (Hw _ Hs)].
Qed.

(** *** Replies *)

Lemma elem_of_add_ids l ids x : x ∈ foldl add_id ids l ↔ x ∈ ids ∨ (x ∈ l ∧ 0 < x).
Proof.
  revert ids. induction l as [|y l IH]; intros ids; simpl; [set_solver|]. rewrite IH.
  assert (x ∈ add_id ids y ↔ x ∈ ids ∨ (x = y ∧ 0 < x)) as ->.
  { unfold add_id. destruct (Z.ltb_spec 0 y); simpl; [|intuition lia].
    destruct (existsb (Z.eqb y) ids) eqn:E; simpl.
    - apply existsb_exists in E as (z & Hz & ->%Z.eqb_eq). apply list_elem_of_In in Hz. intuition congruence.
    - rewrite elem_of_app, list_elem_of_singleton. intuition lia. }
  rewrite elem_of_cons. intuition.
Qed.

Lemma AddThreadParticipants_ok rootID ids r : d_fails (w_dir w) "AddThreadParticipants" = None →
  ∃ x, AddThreadParticipants w rootID ids r = (set_subs (λ s, s ∪ list_to_set (pair rootID <$> ids)) r, x).
Proof.
  intros Hf. unfold AddThreadParticipants, tx, call. rewrite Hf. destruct ids as [|id ids]; [|by eexists].
  eexists. f_equal. destruct r. unfold set_subs. simpl. f_equal. symmetry. apply (right_id_L ∅ (∪)).
Qed.

Lemma AddUserThreadParticipants_subs rootID ids r : r_subs (AddUserThreadParticipants w rootID ids r).1 = r_subs r.
Proof. unfold AddUserThreadParticipants, tx, call. by repeat case_match; simplify_eq/=. Qed.

Lemma elem_of_subscribers rootID a s : a ∈ subscribers rootID s ↔ (rootID, a) ∈ s.
Proof.
  unfold subscribers. rewrite list_elem_of_fmap. split.
  - intros ([x y] & -> & [Hx Hin]%list_elem_of_filter). simpl in *. subst x. by apply elem_of_elements.
  - intros H. exists (rootID, a). split; [done|]. apply list_elem_of_filter. by rewrite elem_of_elements.
Qed.

(** A reply in a thread reaches everyone in it.  After the notices of a reply
    every agent subscribed to the thread, the poster apart, is sent one; and the
    agents the reply mentions, its poster and the agent that wrote the root are
    subscribed, for this reply and all that follow. *)
Theorem thread_reply_reaches_subscribers convID rootID version mentions poster user r r' x :
  d_fails (w_dir w) "AddThreadParticipants" = None → d_fails (w_dir w) "ListThreadParticipantAgents" = None →
  d_fails (w_dir w) "GetThreadRootSender" = None →
  subscribeAndNotifyThread w convID rootID version mentions poster user r = (r', x) →
  (∀ a, (rootID, a) ∈ r_subs r' → poster ≠ Some a → NotifyThreadMention a convID version rootID ∈ r_events r') ∧
  (∀ a, (rootID, a) ∈ r_subs r' ↔ (rootID, a) ∈ r_subs r ∨ (0 < a ∧
     ((∃ m, m ∈ mentions ∧ mentioned_agent w m = Some a) ∨ poster = Some a ∨
      ∃ i m, list_find (λ m, m_id m = rootID) (r_msgs r) = Some (i, m) ∧ m_sender m = SenderTypeAgent ∧ m_agent m = Some a))).
Proof.
  intros Hf1 Hf2 Hf3 H. unfold subscribeAndNotifyThread, attempt_, GetThreadRootSender, logged, mbind, M_bind in H.
  set (sender := match list_find _ _ with Some _ => _ | None => _ end) in H. simpl in H.
  set (ids := foldl _ _ (omap (mentioned_agent w) mentions ++ _)) in H.
  destruct (AddThreadParticipants_ok rootID ids r Hf1) as [y Ey]. rewrite Ey in H. simpl in H.
  set (r2 := (AddUserThreadParticipants _ _ _ _).1) in H.
  assert (r_subs r2 = r_subs r ∪ list_to_set (pair rootID <$> ids)) as Hs by apply AddUserThreadParticipants_subs.
  unfold notifyThreadParticipants, call in H. rewrite Hf2 in H. injection H as <- <-. simpl. rewrite Hs. split.
  - intros a Ha Hp. apply elem_of_app. right. apply list_elem_of_fmap. exists a. split; [done|].
    apply list_elem_of_filter. rewrite elem_of_subscribers. split; [|done].
    destruct poster as [p|]; [|done]. simpl. apply negb_true_iff, Z.eqb_neq. congruence.
  - intros a. rewrite elem_of_union, elem_of_list_to_set, list_elem_of_fmap.
    assert ((∃ y, (rootID, a) = (rootID, y) ∧ y ∈ ids) ↔ a ∈ ids) as ->
      by (split; [intros (? & [= ->] & ?); done|by eexists]).
    unfold ids. rewrite elem_of_add_ids, !elem_of_app, list_elem_of_omap.
    assert (a ∈ option_list poster ↔ poster = Some a) as -> by (destruct poster; set_solver).
    assert (a ∈ root_author sender ↔ ∃ i m, list_find (λ m, m_id m = rootID) (r_msgs r) = Some (i, m) ∧
      m_sender m = SenderTypeAgent ∧ m_agent m = Some a) as ->; [|set_solver].
    unfold sender, call. rewrite Hf3. destruct (list_find _ _) as [[i m]|]; simpl; [|rewrite elem_of_nil; naive_solver].
    destruct (m_agent m) as [b|] eqn:Em; [destruct (Z.eqb_spec (m_sender m) SenderTypeAgent)|];
      rewrite ?elem_of_nil, ?list_elem_of_singleton; naive_solver.
Qed.
End thread.
