(* ===== verification/Tasks.v ===== *)
(** Tasks: top-level messages with a number, a status and an assignee
    ([store/task.go], [TeamHasActiveTask] of [store/agent_team.go], and the
    handlers of [api/v1/task.go]).

    An update of a task row is refused by the index that allows a team one active
    task.  [w_others 1] runs between a handler's first read and its write, and
    [w_others 2] between the two statements of ClaimTeamTask. *)

From stdpp Require Import base list strings numbers gmap sets sorting pretty.
From S2P Require Import Prelude Strings Names Iam Policies Mentions Membership Messages Inbox Posting.
Local Open Scope Z_scope.

(** The sentinel errors; [Other]: any other failure. *)
Inductive terr :=
| ErrTaskNotFound | ErrTaskAlreadyExists | ErrTaskNotClaimable | ErrTaskNotOwner | ErrTaskInvalidTransition
| ErrTaskAssigneeNotMember | ErrTaskTeamAlreadyAssigned | Other (msg : string).

Section tasks.
Context (w : World).
Notation d := (w_dir w).

(** ** store/task.go *)

Definition ttx {Er A} (f : Room → res Er (Room * A)) : M Room Er A := λ r,
  match f r with Ok (r', a) => (r', Ok a) | Err x => (r, Err x) end.

(** A call of another store method. *)
Definition other_err {A} (m : M Room string A) : M Room terr A := λ r,
  let '(r', x) := m r in (r', match x with Ok a => Ok a | Err e => Err (Other e) end).

Definition reads {Er A} (f : Room → res Er A) : M Room Er A := λ r, (r, f r).

Definition tcall {A} (name : string) (a : A) : res terr A :=
  match call d name a with Ok a => Ok a | Err e => Err (Other e) end.

Definition GetTaskMessage (msgID : string) : M Room terr (View * TaskInfo) :=
  msg ← reads (λ r, match list_find (λ m, m_id m = msgID) (r_msgs r) with
                    | Some (_, m) => tcall "GetTaskMessage" m
                    | None => Err (Other "failed to get task message")
                    end);
  v ← other_err (fill_one w (view msg));
  match v_task v with Some ti => mret (v, ti) | None => throw ErrTaskNotFound end.

(** UPDATE task SET ... WHERE message_id = [msgID] AND [p]; with no row, [none]. *)
Definition update_task (name msgID : string) (p : Task → bool) (f : Task → Task) (none : terr) : M Room terr unit := ttx (λ r,
  match r_tasks r !! msgID with
  | None => Err none
  | Some t =>
      if negb (p t) then Err none else
      if team_clash (r_tasks r) msgID (f t) then Err (Other "duplicate key") else
      tcall name (set_tasks <[msgID := f t]> r, tt)
  end).

Definition ConvertMessageToTask (msgID convID : string) : M Room terr (View * TaskInfo) :=
  ttx (λ r,
    match r_tasks r !! msgID with
    | Some _ => Err ErrTaskAlreadyExists
    | None =>
        match room_conv r convID, bump_number convID r with
        | Some _, Ok (r, taskNumber) =>
            if bool_decide (msgID ∈ m_id <$> r_msgs r) then
              match createTaskRowInTx msgID convID taskNumber TaskStatusTodo None r with
              | Ok r => tcall "ConvertMessageToTask" (r, tt)
              | Err _ => Err ErrTaskAlreadyExists
              end
            else Err (Other "violates foreign key constraint")
        | _, _ => Err (Other "failed to bump task number")
        end
    end) ;;
  GetTaskMessage msgID.

Definition status_is (s : Z) (t : Task) : bool := t_status t =? s.
Definition in_conv (convID : string) (t : Task) : bool := String.eqb (t_conv t) convID.
Definition no_agent (t : Task) : bool := match t_agent t with None => true | Some _ => false end.

Definition claimed (agentID assigneeType : Z) (t : Task) : Task :=
  MkTask (t_conv t) (t_number t) TaskStatusInProgress (Some agentID) (t_user t) (Some assigneeType) (t_team t) (t_completed t).

Definition ClaimTask (msgID convID : string) (agentID : Z) : M Room terr (View * TaskInfo) :=
  update_task "ClaimTask" msgID (λ t, in_conv convID t && status_is TaskStatusTodo t && no_agent t) (claimed agentID 2)
    ErrTaskNotClaimable ;;
  GetTaskMessage msgID.

(** The team and its leader; a NULL does not scan. *)
Definition team_of_task (msgID convID : string) (r : Room) : res terr (string * Z) :=
  match r_tasks r !! msgID with
  | None => Err ErrTaskNotClaimable
  | Some t =>
      if negb (in_conv convID t && status_is TaskStatusTodo t) then Err ErrTaskNotClaimable else
      match t_team t, task_team w t ≫= te_leader with
      | Some team, Some leader => tcall "ClaimTeamTask" (team, leader)
      | _, _ => Err (Other "failed to read team task for claim")
      end
  end.

Definition ClaimTeamTask (msgID convID : string) (agentID : Z) : M Room terr (View * TaskInfo) :=
  x ← reads (team_of_task msgID convID);
  if String.eqb x.1 "" || negb (x.2 =? agentID) then throw ErrTaskNotClaimable else
  gap w 2 ;;
  update_task "ClaimTeamTask" msgID (λ t, in_conv convID t && status_is TaskStatusTodo t) (claimed agentID 3)
    ErrTaskNotClaimable ;;
  GetTaskMessage msgID.

Definition unclaimed (t : Task) : Task :=
  MkTask (t_conv t) (t_number t) TaskStatusTodo None (t_user t) None (t_team t) (t_completed t).

Definition UnclaimTask (msgID : string) (agentID : Z) : M Room terr (View * TaskInfo) :=
  update_task "UnclaimTask" msgID (λ t, bool_decide (t_agent t = Some agentID) && status_is TaskStatusInProgress t) unclaimed
    ErrTaskNotOwner ;;
  GetTaskMessage msgID.

Definition moved (target now : Z) (t : Task) : Task :=
  MkTask (t_conv t) (t_number t) target (t_agent t) (t_user t) (t_type t) (t_team t)
    (if target =? TaskStatusDone then Some now else None).

Definition any_task (t : Task) : bool := true.

Definition now : M Room terr Z := gets (λ r, w_now w (r_msgs r)).

Definition UpdateTaskStatus (msgID : string) (target : Z) : M Room terr (View * TaskInfo) :=
  if (target <? TaskStatusTodo) || (TaskStatusDone <? target) then throw ErrTaskInvalidTransition else
  t ← now;
  update_task "UpdateTaskStatus" msgID any_task (moved target t) ErrTaskNotFound ;;
  GetTaskMessage msgID.

(** ** store/agent_team.go *)

Definition TeamHasActiveTask (team : string) (r : Room) : bool :=
  existsb (λ kv : string * Task, bool_decide (t_team kv.2 = Some team) && active kv.2) (map_to_list (r_tasks r)).

(** *** AssignTask *)

(** assignee_type, the agent, the user and the team. *)
Definition Assignee : Type := Z * option Z * option Z * option string.

Definition listed (r : Room) (convID : string) (m : Member) : bool :=
  match room_conv r convID with Some c => bool_decide (m ∈ cv_meta c) | None => false end.

Definition resolve_assignee (convID : string) (memberType : Z) (memberID : string) (r : Room) : res terr Assignee :=
  if memberType =? 3 then
    match w_team_name w memberID with
    | Err x => Err (Other x)
    | Ok None => Err ErrTaskAssigneeNotMember
    | Ok (Some team) =>
        match tcall "TeamHasActiveTask" (TeamHasActiveTask (te_id team) r) with
        | Err x => Err x
        | Ok true => Err ErrTaskTeamAlreadyAssigned
        | Ok false => Ok (3, None, None, Some (te_id team))
        end
    end
  else if memberType =? MemberTypeAgent then
    if negb (listed r convID (MemberTypeAgent, memberID)) then Err ErrTaskAssigneeNotMember else
    match GetAgentByResourceID (w_names w) memberID with
    | Err x => Err (Other x)
    | Ok None => Err ErrTaskAssigneeNotMember
    | Ok (Some a) => Ok (2, Some (ar_id a), None, None)
    end
  else if memberType =? MemberTypeUser then
    if negb (listed r convID (MemberTypeUser, memberID)) then Err ErrTaskAssigneeNotMember else
    match GetUserByHandle (w_names w) memberID with
    | Err x => Err (Other x)
    | Ok None => Err ErrTaskAssigneeNotMember
    | Ok (Some u) => Ok (1, None, Some (ur_id u), None)
    end
  else Err ErrTaskAssigneeNotMember.

Definition assigned (a : Assignee) (t : Task) : Task :=
  let '(ty, agent, user, team) := a in
  MkTask (t_conv t) (t_number t) (t_status t) agent user (Some ty) team (t_completed t).

Definition AssignTask (msgID convID : string) (memberType : Z) (memberID : string) : M Room terr (View * TaskInfo) :=
  a ← reads (resolve_assignee convID memberType memberID);
  update_task "AssignTask" msgID (in_conv convID) (assigned a) ErrTaskNotFound ;;
  GetTaskMessage msgID.

(** *** CloseTask *)

(** The update, and whether it changed a row. *)
Definition close_row (msgID convID : string) (now : Z) : M Room terr bool := λ r,
  match update_task "CloseTask" msgID (λ t, in_conv convID t && negb (status_is TaskStatusDone t)) (moved TaskStatusDone now)
          ErrTaskNotFound r with
  | (r', Ok _) => (r', Ok true)
  | (r', Err ErrTaskNotFound) => (r', Ok false)
  | (r', Err x) => (r', Err x)
  end.

Definition CloseTask (msgID convID : string) : M Room terr (View * TaskInfo * bool) :=
  t ← now;
  changed ← close_row msgID convID t;
  x ← GetTaskMessage msgID;
  if String.eqb (m_conv (v_msg x.1)) convID then mret (x, changed) else throw ErrTaskNotFound.

(** *** The board *)

Definition number_ge (a b : Message * Task) : Prop := t_number b.2 ≤ t_number a.2.
#[export] Instance number_ge_dec : RelDecision number_ge := λ a b, Z.le_dec (t_number b.2) (t_number a.2).

Definition with_task (r : Room) (m : Message) : option (Message * Task) := pair m <$> r_tasks r !! m_id m.

Definition board (convID : string) (statusFilter : list Z) (r : Room) : list (Message * Task) :=
  merge_sort number_ge (filter (λ x, statusFilter = [] ∨ t_status x.2 ∈ statusFilter)
    (omap (with_task r) (roots_of convID r))).

(** [offset]: the page token as a number; an invalid one is 0. *)
Definition ListTasks (convID : string) (statusFilter : list Z) (pageSize offset : Z) : M Room string (list View * option Z) :=
  let pageSize := if (pageSize <=? 0) || (100 <? pageSize) then 30 else pageSize in
  let offset := if offset <? 0 then 0 else offset in
  msgs ← query w "ListTasks" (λ r, fst <$> take (Z.to_nat pageSize) (drop (Z.to_nat offset) (board convID statusFilter r)));
  vs ← fill w (view <$> msgs);
  mret (vs, if Z.of_nat (length msgs) =? pageSize then Some (offset + pageSize) else None).

Definition count_status (convID : string) (s : Z) (r : Room) : Z :=
  Z.of_nat (length (filter (λ kv : string * Task, t_conv kv.2 = convID ∧ t_status kv.2 = s) (map_to_list (r_tasks r)))).

Definition ListTaskCounts (convID : string) : M Room string (Z * Z * Z * Z) :=
  query w "ListTaskCounts" (λ r, (count_status convID TaskStatusTodo r, count_status convID TaskStatusInProgress r,
                                 count_status convID TaskStatusInReview r, count_status convID TaskStatusDone r)).

(** ** The handlers *)

(** conversations/{c}/messages/{m} *)
Definition parseMessageName (message : string) : res failure (string * string) :=
  match split message with
  | [p; c; q; m] =>
      if String.eqb p "conversations" && String.eqb q "messages" then
        match e_uuid (d_env d) c, e_uuid (d_env d) m with
        | Some convID, Some msgID => Ok (convID, msgID)
        | None, _ => Err (InvalidArgument, "invalid conversation id in message name")
        | _, None => Err (InvalidArgument, "invalid message id in message name")
        end
      else Err (InvalidArgument, "invalid message name, expected conversations/{c}/messages/{m}")
  | _ => Err (InvalidArgument, "invalid message name, expected conversations/{c}/messages/{m}")
  end.

Definition mapped {Er A} (f : Er → failure) (m : M Room Er A) : M Room failure A := λ r,
  let '(r', x) := m r in (r', match x with Ok a => Ok a | Err e => Err (f e) end).

Definition requireAgentMemberByConvID (caller : Caller) (convID : string) : M Room failure Agent :=
  match by_agent caller with
  | None => fail Unauthenticated "agent authentication required"
  | Some agent =>
      isMember ← is_member w convID MemberTypeAgent (ag_resource agent);
      guard_ isMember PermissionDenied "not a conversation member" ;;
      mret agent
  end.

Definition agent_name (agentID : Z) : string := default "" (ar_name <$> w_agents w agentID).

Definition resolveActorName (caller : Caller) : string :=
  match by_user caller, by_agent caller with
  | Some u, _ => user_name w (u_id u)
  | None, Some a => agent_name (ag_id a)
  | None, None => "Someone"
  end.

Definition convert_failure (e : terr) : failure :=
  match e with
  | ErrTaskAlreadyExists => (FailedPrecondition, "message is already a task")
  | _ => (Internal, "failed to convert message to task")
  end.

(** The handler's names clash with the store's: [handle_] is api/v1. *)
Definition handle_convert (caller : Caller) (message : string) : M Room failure View :=
  ids ← lift_res (parseMessageName message);
  isRoot ← as_error Internal (IsThreadRoot w ids.1 ids.2);
  guard_ isRoot InvalidArgument "only a top-level message can be converted to a task" ;;
  gap w 1 ;;
  x ← mapped convert_failure (ConvertMessageToTask ids.2 ids.1);
  postTaskSystemNotification w ids.1 (Converted (resolveActorName caller) (ti_number x.2) (m_content (v_msg x.1))) ;;
  mret x.1.

Definition handle_create (caller : Caller) (conversation content : string) (attachments : list string) (mentions : list Mention)
    : M Room failure Message :=
  guard_ (negb (String.eqb content "")) InvalidArgument "content must not be empty" ;;
  convID ← conversation_of w conversation;
  agent ← requireAgentMemberByConvID caller convID;
  attachments ← lift_res (resolveAttachments w convID attachments);
  gap w 1 ;;
  x ← as_error Internal (CreateTaskMessageBumpVersion w
        (draft convID 1 (Some (ag_id agent)) 2 content None SenderTypeAgent mentions attachments None));
  notifyConversationAgents w convID (m_version x.1) None ;;
  postTaskSystemNotification w convID (Created (agent_name (ag_id agent)) x.2 content) ;;
  mret x.1.

(** *** The message to a team *)

Definition newline : string := String (Ascii.ascii_of_nat 10) EmptyString.
Definition AgentTeamRoleLeader : Z := 1.

(** [agent-%d] is written only for a member without a resource id. *)
Definition agentNameForTeam (m : TeamMember) : string :=
  if String.eqb (tm_resource m) "" then "agent-" +:+ pretty (tm_agent m) else tm_resource m.

Definition is_leader (m : TeamMember) : bool := tm_role m =? AgentTeamRoleLeader.

Definition role_line (m : TeamMember) : string :=
  "- " +:+ agentNameForTeam m +:+ " (" +:+ (if is_leader m then "leader" else "member") +:+ ")" +:+
  (if String.eqb (tm_responsibility m) "" then "" else ": " +:+ tm_responsibility m) +:+
  (if is_leader m
   then ". You are the leader. You own the task outcome. You must break the work into subtasks, coordinate other members, track progress, and ensure the task moves from IN_PROGRESS to IN_REVIEW/DONE."
   else ". Follow the leader's coordination and complete the assigned subtasks.") +:+ newline.

Definition concat_map {A} (f : A → string) (l : list A) : string := foldr (λ a s, f a +:+ s) "" l.

Definition buildTeamAssignmentMessage (team : Team) (content : string) : string :=
  "[TEAM ASSIGNMENT]" +:+ newline +:+
  "Team: " +:+ te_title team +:+ newline +:+
  "Team ID: " +:+ FormatAgentTeamName (te_resource team) +:+ newline +:+
  concat_map (λ m, if is_leader m then "Leader: " +:+ agentNameForTeam m +:+ newline else "") (te_members team) +:+
  (if String.eqb (te_prompt team) "" then "" else "Team Prompt: " +:+ te_prompt team +:+ newline) +:+
  newline +:+ "Task Instruction: " +:+ content +:+ newline +:+ newline +:+
  "Roles:" +:+ newline +:+ concat_map role_line (te_members team).

Definition teamLeaderMember (team : Team) : option TeamMember := head (filter (λ m, is_leader m = true) (te_members team)).

Definition postTeamAssignmentMessage (convID msgID : string) (team : Team) (content : string) : M Room failure unit :=
  match teamLeaderMember team with
  | None => mret tt
  | Some leader =>
      logged (CreateChatMessageBumpVersion w
        (draft convID 1 (Some (tm_agent leader)) 2 (buildTeamAssignmentMessage team content) None SenderTypeAgent [] [] (Some msgID)))
  end.

(** *** ClaimTask *)

Definition claim_failure (e : terr) : failure :=
  match e with
  | ErrTaskNotClaimable => (FailedPrecondition, "task is already claimed, not in todo, or only the team leader may claim it")
  | ErrTaskNotFound => (NotFound, "task not found")
  | _ => (Internal, "failed to claim task")
  end.

Definition read_failure (e : terr) : failure :=
  match e with ErrTaskNotFound => (NotFound, "task not found") | _ => (Internal, "failed to read task before claim") end.

Definition handle_claim (caller : Caller) (message : string) : M Room failure View :=
  ids ← lift_res (parseMessageName message);
  agent ← requireAgentMemberByConvID caller ids.1;
  current ← mapped read_failure (GetTaskMessage ids.2);
  gap w 1 ;;
  x ← mapped claim_failure
        (if ti_type current.2 =? 3 then ClaimTeamTask ids.2 ids.1 (ag_id agent) else ClaimTask ids.2 ids.1 (ag_id agent));
  logged (AddThreadParticipants w ids.2 [ag_id agent]) ;;
  (if (ti_type current.2 =? 3) && negb (String.eqb (ti_team x.2) "") then
     match w_team_name w (ti_team x.2) with
     | Ok (Some team) => postTeamAssignmentMessage ids.1 ids.2 team (m_content (v_msg x.1))
     | _ => mret tt
     end
   else mret tt) ;;
  postTaskSystemNotification w ids.1 (Claimed (agent_name (ag_id agent)) (ti_number x.2) (m_content (v_msg x.1))) ;;
  mret x.1.

(** *** UnclaimTask and UpdateTaskStatus *)

Definition unclaim_failure (e : terr) : failure :=
  match e with
  | ErrTaskNotOwner => (FailedPrecondition, "task is not assigned to you or not in progress")
  | ErrTaskNotFound => (NotFound, "task not found")
  | _ => (Internal, "failed to unclaim task")
  end.

Definition handle_unclaim (caller : Caller) (message : string) : M Room failure View :=
  ids ← lift_res (parseMessageName message);
  agent ← requireAgentMemberByConvID caller ids.1;
  x ← mapped unclaim_failure (UnclaimTask ids.2 (ag_id agent));
  postTaskSystemNotification w ids.1 (Released (agent_name (ag_id agent)) (ti_number x.2)) ;;
  mret x.1.

Definition update_failure (e : terr) : failure :=
  match e with
  | ErrTaskInvalidTransition => (InvalidArgument, "invalid task status")
  | ErrTaskNotFound => (NotFound, "task not found")
  | _ => (Internal, "failed to update task status")
  end.

Definition handle_update (caller : Caller) (message : string) (status : Z) : M Room failure View :=
  ids ← lift_res (parseMessageName message);
  let target := wrap_signed 16 status in
  guard_ (negb (target =? 0)) InvalidArgument "status must not be unspecified" ;;
  x ← mapped update_failure (UpdateTaskStatus ids.2 target);
  (if target =? TaskStatusInReview then postTaskSystemNotification w ids.1 (ForReview (resolveActorName caller) (ti_number x.2))
   else if target =? TaskStatusDone then postTaskSystemNotification w ids.1 (Completed (resolveActorName caller) (ti_number x.2))
   else mret tt) ;;
  mret x.1.

(** *** AssignTask *)

Definition assign_failure (e : terr) : failure :=
  match e with
  | ErrTaskNotFound => (NotFound, "task not found")
  | ErrTaskAssigneeNotMember => (InvalidArgument, "assignee is not a member of this conversation")
  | ErrTaskTeamAlreadyAssigned => (FailedPrecondition, "team is already assigned to an active task")
  | _ => (Internal, "failed to assign task")
  end.

(** The members that join, and the agents of those that had joined. *)
Fixpoint team_inputs (r : Room) (convID : string) (ms : list TeamMember) : res failure (list ConversationMemberInput * list Z) :=
  match ms with
  | [] => Ok ([], [])
  | m :: ms =>
      match conversationMembership d (r_chat r) convID MemberTypeAgent (tm_resource m) with
      | Err x => Err (Internal, x)
      | Ok (existingRole, _) =>
          match team_inputs r convID ms with
          | Err x => Err x
          | Ok (inputs, ids) =>
              if existingRole =? 0 then Ok (MkInput MemberTypeAgent (tm_resource m) None :: inputs, ids)
              else Ok (inputs, option_list (agent_of w (MemberTypeAgent, tm_resource m)) ++ ids)
          end
      end
  end.

Definition add_team (convID : string) (inputs : list ConversationMemberInput) : M Room failure unit := λ r,
  match inputs with
  | [] => (r, Ok tt)
  | _ => match AddConversationMembers d convID inputs (r_chat r) with
         | Err x => (r, Err (Internal, x))
         | Ok ch => (set_chat (λ _, ch) r, Ok tt)
         end
  end.

Fixpoint seed_all (convID : string) (ids : list Z) : M Room failure unit :=
  match ids with [] => mret tt | a :: ids => logged (seed_cursor w a convID) ;; seed_all convID ids end.

Definition afterTeamAssign (convID msgID : string) (ti : TaskInfo) (content : string) : M Room failure unit :=
  if String.eqb (ti_team ti) "" then mret tt else
  match w_team_name w (ti_team ti) with
  | Err x => fail Internal x
  | Ok None => fail Internal "assigned team not found"
  | Ok (Some team) =>
      p ← reads (λ r, team_inputs r convID (te_members team));
      add_team convID p.1 ;;
      let teamAgentIDs := p.2 ++ omap (λ m, agent_of w (MemberTypeAgent, in_id m)) p.1 in
      logged (AddThreadParticipants w msgID teamAgentIDs) ;;
      seed_all convID teamAgentIDs ;;
      postTeamAssignmentMessage convID msgID team content ;;
      notifyConversationAgents w convID 0 None
  end.

Definition handle_assign (caller : Caller) (message : string) (memberType : Z) (memberID : string) : M Room failure View :=
  ids ← lift_res (parseMessageName message);
  guard_ (negb (String.eqb memberID "")) InvalidArgument "member_id must not be empty" ;;
  x ← mapped assign_failure (AssignTask ids.2 ids.1 memberType memberID);
  (if memberType =? 3 then afterTeamAssign ids.1 ids.2 x.2 (m_content (v_msg x.1)) else mret tt) ;;
  postTaskSystemNotification w ids.1 (Assigned (resolveActorName caller) (ti_number x.2) (ti_name x.2)) ;;
  mret x.1.

(** *** CloseTask *)

Definition close_failure (e : terr) : failure :=
  match e with ErrTaskNotFound => (NotFound, "task not found") | _ => (Internal, "failed to close task") end.

Definition handle_close (caller : Caller) (message : string) : M Room failure View :=
  ids ← lift_res (parseMessageName message);
  x ← mapped close_failure (CloseTask ids.2 ids.1);
  (if (x : View * TaskInfo * bool).2 then postTaskSystemNotification w ids.1 (Closed (resolveActorName caller) (ti_number x.1.2) (m_content (v_msg x.1.1)))
   else mret tt) ;;
  mret x.1.1.
End tasks.
