(* ===== verification/TasksSpec.v ===== *)
(** What holds of tasks: every operation keeps the numbering of messages and tasks, a
    task has one claimant at a time, closing is idempotent, and where a task can be
    changed from outside its conversation, stay out of its assignee's reach, or
    cost a team member its unread messages. *)

From stdpp Require Import base list strings numbers gmap sets sorting.
From S2P Require Import Prelude Strings Names Iam Policies Mentions Membership Messages Inbox Posting MessagesSpec Tasks.
Local Open Scope Z_scope.

(** ** The wrappers of task.go *)

Section wrappers.
Context (P : Room → Room → Prop) `{!PreOrder P}.

Lemma keeps_ttx {Er A} (f : Room → res Er (Room * A)) : (∀ r r' a, f r = Ok (r', a) → P r r') → keeps P (ttx f).
Proof. intros H r. unfold ttx. destruct (f r) as [[r' a]|e] eqn:E; simpl; [by eapply H|reflexivity]. Qed.

Lemma keeps_other_err {A} (m : M Room string A) : keeps P m → keeps P (other_err m).
Proof. intros H r. unfold other_err. specialize (H r). by destruct (m r). Qed.

Lemma keeps_reads_ {Er A} (f : Room → res Er A) : keeps P (reads f).
Proof. intros r. simpl. reflexivity. Qed.

Lemma keeps_mapped {Er A} (f : Er → failure) (m : M Room Er A) : keeps P m → keeps P (mapped f m).
Proof. intros H r. unfold mapped. specialize (H r). by destruct (m r). Qed.

Lemma keeps_gets_ {Er A} (f : Room → A) : keeps P (gets f : M Room Er A).
Proof. intros r. simpl. reflexivity. Qed.
End wrappers.

#[export] Hint Resolve keeps_reads_ keeps_gets_ : keeps.

Ltac wrapped :=
  repeat (keep; match goal with |- keeps _ (other_err _) => apply keeps_other_err | |- keeps _ (mapped _ _) => apply keeps_mapped end);
  keep.

(** ** The writes keep the invariant *)

(** What an update may do to a row. *)
Definition task_update (p : Task → bool) (f : Task → Task) : Prop :=
  ∀ t, task_wf t → p t = true → t_conv (f t) = t_conv t ∧ t_number (f t) = t_number t ∧ task_wf (f t).

Lemma team_clash_false tasks id t team id' t' : team_clash tasks id t = false → active t = true → t_team t = Some team →
  tasks !! id' = Some t' → active t' = true → t_team t' = Some team → id' = id.
Proof.
  unfold team_clash. intros H Ha Ht Hl Ha' Ht'. rewrite Ht, Ha in H. simpl in H.
  destruct (decide (id' = id)) as [|Hne]; [done|exfalso]. apply not_true_iff_false in H. apply H, existsb_exists.
  exists (id', t'). split; [by apply list_elem_of_In, elem_of_map_to_list|]. simpl. rewrite Ha', Ht'.
  rewrite (proj2 (String.eqb_neq _ _) Hne). simpl. by apply bool_decide_eq_true.
Qed.

Lemma tasks_ok_update r id t t' : tasks_ok r → r_tasks r !! id = Some t →
  t_conv t' = t_conv t → t_number t' = t_number t → task_wf t' → team_clash (r_tasks r) id t' = false →
  tasks_ok (set_tasks <[id := t']> r).
Proof.
  intros (A & B & C & D) Hid Hc Hn Hw Hclash.
  assert (∀ i x, r_tasks (set_tasks <[id := t']> r) !! i = Some x → (i = id ∧ x = t') ∨ (i ≠ id ∧ r_tasks r !! i = Some x)) as Hl.
  { intros i x H. simpl in H. apply lookup_insert_Some in H as [[<- <-]|[Hne H]]; [by left|by right]. }
  split_and!.
  - intros i x [[-> ->]|[_ H]]%Hl; [|by apply A]. destruct (A _ _ Hid) as (? & ? & ?).
    split; [done|]. split; [by rewrite Hc, Hn|done].
  - intros i j x y [[-> ->]|[Hi H]]%Hl [[-> ->]|[Hj H']]%Hl; [done|rewrite Hc, Hn; by apply B..|by apply B].
  - done.
  - intros i j x y team [[-> ->]|[Hi H]]%Hl [[-> ->]|[Hj H']]%Hl; [done| | |by apply D]; intros Ha Ha' Ht Ht'.
    + symmetry. by eapply team_clash_false.
    + by eapply team_clash_false.
Qed.

Section writes.
Context (w : World).

Lemma update_task_inv name id p f none r r' : update_task w name id p f none r = (r', Ok tt) →
  ∃ t, r_tasks r !! id = Some t ∧ p t = true ∧ team_clash (r_tasks r) id (f t) = false ∧ r' = set_tasks <[id := f t]> r.
Proof.
  unfold update_task, ttx, tcall. intros H. destruct (r_tasks r !! id) as [t|]; [|done].
  destruct (p t) eqn:Ep; [|done]. simpl in H. destruct (team_clash _ _ _) eqn:Ec; [done|].
  destruct (call _ _ _) as [[r1 u]|] eqn:E; [|done]. apply call_ok_inv in E. simplify_eq. by exists t.
Qed.

Lemma update_task_evolves name id p f none : task_update p f → keeps evolves (update_task w name id p f none).
Proof.
  intros Hf r. destruct (update_task w name id p f none r) as [r' [[]|e]] eqn:E; simpl.
  - apply update_task_inv in E as (t & Hid & Hp & Hc & ->). intros (Hm & Hn & Ht & Hr).
    destruct (Hf t) as (H1 & H2 & H3); [|done|].
    { destruct Ht as [A _]. by apply A in Hid as (_ & _ & ?). }
    split; [split_and!; [apply Hm..|done|by eapply tasks_ok_update|done]|].
    split; [done|]. split; [by eauto using Z.le_refl|]. split; [apply cursors_refl|done].
  - unfold update_task, ttx in E. case_all E. all: reflexivity.
Qed.

Lemma wf_open t s : task_wf t → t_status t = s → s ≠ TaskStatusDone → t_completed t = None.
Proof. intros [_ H] Hs Hne. destruct (t_completed t); [|done]. exfalso. apply Hne. rewrite <- Hs. by apply H. Qed.

Ltac row := intros t Ht Hp; split; [done|split; [done|]].

Lemma claimed_update p agentID ty : (∀ t, p t = true → status_is TaskStatusTodo t = true) →
  task_update p (claimed agentID ty).
Proof.
  intros H. row. apply H, Z.eqb_eq in Hp. split; [done|]. simpl. rewrite (wf_open _ _ Ht Hp) by done.
  split; [by intros [? ?]|done].
Qed.

Lemma unclaimed_update p : (∀ t, p t = true → status_is TaskStatusInProgress t = true) → task_update p unclaimed.
Proof.
  intros H. row. apply H, Z.eqb_eq in Hp. split; [done|]. simpl. rewrite (wf_open _ _ Ht Hp) by done.
  split; [by intros [? ?]|done].
Qed.

Lemma moved_update p target now : TaskStatusTodo ≤ target ≤ TaskStatusDone → task_update p (moved target now).
Proof.
  intros H. row. split; [done|]. simpl. by destruct (Z.eqb_spec target TaskStatusDone).
Qed.

Lemma assigned_update p a : task_update p (assigned a).
Proof. destruct a as [[[ty ag] us] tm]. row. apply Ht. Qed.

Lemma GetTaskMessage_keeps (P : Room → Room → Prop) `{!PreOrder P} id : keeps P (GetTaskMessage w id).
Proof.
  unfold GetTaskMessage, fill_one, fill. wrapped.
Qed.

Lemma CreateTaskRow_evolves msgID convID : keeps evolves (ConvertMessageToTask w msgID convID).
Proof.
  unfold ConvertMessageToTask. apply keeps_mbind; [apply _| |intros; apply GetTaskMessage_keeps; apply _].
  apply keeps_ttx; [apply _|]. intros r r' a H. destruct (r_tasks r !! msgID) eqn:Et; [done|].
  destruct (room_conv r convID) as [c|] eqn:Ec; [|by case_all H]. unfold bump_number in H.
  destruct (_ =? MaxInt32); [done|]. simpl in H. case_bool_decide as Hin; [|done]. unfold createTaskRowInTx in H. simpl in H.
  rewrite Et in H. simpl in H. unfold tcall in H. destruct (call _ _ _) as [p|] eqn:E; [|done]. apply call_ok_inv in E.
  simplify_eq. intros (Hm & Hn & Ht & Hr). split; [split_and!; [apply Hm..|done| |done]|].
  - by eapply tasks_ok_insert.
  - split; [done|]. split; [by eauto using Z.le_refl|]. split; [apply cursors_refl|done].
Qed.
End writes.

(** ** The operations and the handlers *)

Lemma requireAgentMember_keeps (P : Room → Room → Prop) `{!PreOrder P} w caller convID :
  keeps P (requireAgentMemberByConvID w caller convID).
Proof. unfold requireAgentMemberByConvID, fail. keep. Qed.

#[export] Hint Resolve GetTaskMessage_keeps requireAgentMember_keeps : keeps.

(** What a relation has to say of the writes of a task, too. *)
Class KeptTasks (w : World) (P : Room → Room → Prop) : Prop := {
  kept_messages :: Kept w P;
  kept_task name id p f none : task_update p f → keeps P (update_task w name id p f none);
  kept_task_row msgID convID : keeps P (ConvertMessageToTask w msgID convID);
  kept_join convID inputs r : P r (set_chat (λ ch, foldl (add_input (w_dir w) convID) ch inputs) r) }.

#[export] Hint Resolve kept_messages kept_task_row : keeps.

(** Members join a conversation; its version and the cursors stay. *)
Lemma join_evolves w convID inputs r : evolves r (set_chat (λ ch, foldl (add_input (w_dir w) convID) ch inputs) r).
Proof.
  apply evolves_same; try done.
  - intros id. unfold room_conv. simpl. generalize (r_chat r). induction inputs as [|m l IH]; intros ch; [done|].
    simpl. rewrite IH. simpl. destruct (decide (id = convID)) as [->|Hne].
    + rewrite lookup_alter_eq. by destruct (ch_convs ch !! convID).
    + by rewrite lookup_alter_ne.
  - simpl. intros k v. generalize (r_chat r). induction inputs as [|m l IH]; intros ch; [apply cursors_refl|]. simpl. intros H. by apply IH.
Qed.

#[export] Instance evolves_kept_tasks w : KeptTasks w evolves.
Proof.
  split; [apply _|intros; by apply update_task_evolves|apply CreateTaskRow_evolves|apply join_evolves].
Qed.

Section handlers.
Context (w : World) (P : Room → Room → Prop) `{!KeptTasks w P}.
Hypothesis others_kept : ∀ n r, P r (w_others w n r).

Lemma gap_any {Er} n : keeps P (gap w n : M Room Er unit).
Proof. by apply gap_kept. Qed.
#[local] Hint Resolve gap_any : keeps.

Ltac todo_only := intros ?; unfold status_is; rewrite ?andb_true_iff; tauto.

Lemma ClaimTask_kept msgID convID agentID : keeps P (ClaimTask w msgID convID agentID).
Proof. unfold ClaimTask. keep. apply kept_task, claimed_update. todo_only. Qed.

Lemma ClaimTeamTask_kept msgID convID agentID : keeps P (ClaimTeamTask w msgID convID agentID).
Proof. unfold ClaimTeamTask. keep. apply kept_task, claimed_update. todo_only. Qed.

Lemma UnclaimTask_kept msgID agentID : keeps P (UnclaimTask w msgID agentID).
Proof. unfold UnclaimTask. keep. apply kept_task, unclaimed_update. todo_only. Qed.

Lemma UpdateTaskStatus_kept msgID target : keeps P (UpdateTaskStatus w msgID target).
Proof.
  unfold UpdateTaskStatus, now. destruct (_ || _) eqn:E; [keep|].
  apply orb_false_iff in E as [E1%Z.ltb_ge E2%Z.ltb_ge]. keep. apply kept_task, moved_update. lia.
Qed.

Lemma AssignTask_kept msgID convID ty id : keeps P (AssignTask w msgID convID ty id).
Proof. unfold AssignTask. keep. apply kept_task, assigned_update. Qed.

Lemma close_row_kept msgID convID t : keeps P (close_row w msgID convID t).
Proof.
  intros r. unfold close_row. set (p := λ t, in_conv convID t && _).
  pose proof (kept_task "CloseTask" msgID p (moved TaskStatusDone t) ErrTaskNotFound) as H.
  specialize (H ltac:(by apply moved_update) r). by destruct (update_task _ _ _ _ _ _ r) as [r' [[]|[]]].
Qed.
#[local] Hint Resolve close_row_kept : keeps.

Lemma CloseTask_kept msgID convID : keeps P (CloseTask w msgID convID).
Proof. unfold CloseTask, now. keep. Qed.

#[local] Hint Resolve ClaimTask_kept ClaimTeamTask_kept UnclaimTask_kept UpdateTaskStatus_kept
  AssignTask_kept CloseTask_kept : keeps.

Lemma handle_convert_kept caller msg : keeps P (handle_convert w caller msg).
Proof. unfold handle_convert, IsThreadRoot, query. wrapped. Qed.

Lemma handle_create_kept caller conv content atts ms : keeps P (handle_create w caller conv content atts ms).
Proof. unfold handle_create. wrapped. Qed.

Lemma team_message_kept convID msgID team content : keeps P (postTeamAssignmentMessage w convID msgID team content).
Proof. unfold postTeamAssignmentMessage. wrapped. Qed.
#[local] Hint Resolve team_message_kept : keeps.

Lemma handle_claim_kept caller msg : keeps P (handle_claim w caller msg).
Proof. unfold handle_claim. wrapped. Qed.

Lemma handle_unclaim_kept caller msg : keeps P (handle_unclaim w caller msg).
Proof. unfold handle_unclaim. wrapped. Qed.

Lemma handle_update_kept caller msg status : keeps P (handle_update w caller msg status).
Proof. unfold handle_update. wrapped. Qed.

Lemma handle_close_kept caller msg : keeps P (handle_close w caller msg).
Proof. unfold handle_close. wrapped. Qed.

Lemma add_team_kept convID inputs : keeps P (add_team w convID inputs).
Proof.
  intros r. unfold add_team. destruct inputs as [|m l]; [reflexivity|]. destruct (AddConversationMembers _ _ _ _) eqn:E; [|reflexivity].
  apply call_ok_inv in E as ->. apply (kept_join convID (m :: l) r).
Qed.

Lemma seed_all_kept convID ids : keeps P (seed_all w convID ids).
Proof. induction ids as [|a ids IH]; simpl; unfold seed_cursor, conversation_version; wrapped. Qed.
#[local] Hint Resolve add_team_kept seed_all_kept : keeps.

Lemma handle_assign_kept caller msg ty id : keeps P (handle_assign w caller msg ty id).
Proof. unfold handle_assign, afterTeamAssign, fail. wrapped. Qed.
End handlers.

(** ** Claims *)

(** Programs that do not touch the tasks. *)
Definition tasks_same (r r' : Room) : Prop := r_tasks r' = r_tasks r.
#[export] Instance tasks_same_preorder : PreOrder tasks_same.
Proof. split; [done|]. unfold tasks_same. congruence. Qed.

Section claims.
Context (w : World).

Lemma CreateChat_tasks msg : keeps tasks_same (CreateChatMessageBumpVersion w msg).
Proof.
  intros r. destruct (CreateChatMessageBumpVersion w msg r) as [r' [row|e]] eqn:E.
  - apply CreateChat_inserted in E as (_ & Ht & _). done.
  - unfold CreateChatMessageBumpVersion, tx in E. case_all E. all: reflexivity.
Qed.

Lemma AddThread_tasks root ids : keeps tasks_same (AddThreadParticipants w root ids).
Proof.
  apply keeps_tx; [apply _|]. intros r r' a H. destruct ids; [by simplify_eq|]. apply call_ok_inv in H. by simplify_eq.
Qed.

Lemma notice_tasks convID n : keeps tasks_same (postTaskSystemNotification w convID n).
Proof. unfold postTaskSystemNotification. pose proof CreateChat_tasks. keep. Qed.

Lemma team_message_tasks convID msgID team content : keeps tasks_same (postTeamAssignmentMessage w convID msgID team content).
Proof. unfold postTeamAssignmentMessage. pose proof CreateChat_tasks. keep. Qed.

Lemma GetTaskMessage_room id r r' x : GetTaskMessage w id r = (r', x) → r' = r.
Proof. apply keeps_eq_inv. apply GetTaskMessage_keeps; apply _. Qed.

Lemma mapped_ok {Er A} (f : Er → failure) (m : M Room Er A) r r' a : mapped f m r = (r', Ok a) → m r = (r', Ok a).
Proof. unfold mapped. destruct (m r) as [r1 [x|e]]; congruence. Qed.

(** What a claim that succeeded leaves. *)
Definition claimed_by (msgID convID : string) (agentID : Z) (r : Room) : Prop :=
  ∃ t, r_tasks r !! msgID = Some t ∧ t_conv t = convID ∧ t_status t = TaskStatusInProgress ∧ t_agent t = Some agentID.

Lemma update_claims name msgID convID agentID ty p none r r1 x :
  (∀ t, p t = true → t_conv t = convID) →
  (update_task w name msgID p (claimed agentID ty) none ;; GetTaskMessage w msgID) r = (r1, Ok x) →
  claimed_by msgID convID agentID r1.
Proof.
  intros Hp H. apply bind_ok_inv in H as (s & [] & E & H). apply GetTaskMessage_room in H as ->.
  apply update_task_inv in E as (t & Hid & Ht & _ & ->). exists (claimed agentID ty t). simpl.
  rewrite lookup_insert_eq. split_and!; try done. simpl. auto.
Qed.

Lemma ClaimTask_claims msgID convID agentID r r1 x : ClaimTask w msgID convID agentID r = (r1, Ok x) → claimed_by msgID convID agentID r1.
Proof.
  apply update_claims. intros t. unfold in_conv. rewrite !andb_true_iff, String.eqb_eq. tauto.
Qed.

Lemma ClaimTeamTask_claims msgID convID agentID r r1 x : ClaimTeamTask w msgID convID agentID r = (r1, Ok x) →
  claimed_by msgID convID agentID r1.
Proof.
  unfold ClaimTeamTask. intros H. apply bind_ok_inv in H as (s & y & _ & H). destruct (_ || _); [done|].
  apply bind_ok_inv in H as (s' & [] & _ & H). revert H. apply update_claims.
  intros t. unfold in_conv. rewrite !andb_true_iff, String.eqb_eq. tauto.
Qed.

(** A claimed task refuses every claim, its own agent's included. *)
Lemma claimed_refuses name msgID convID agentID p f none r : claimed_by msgID convID agentID r →
  (∀ t, p t = true → status_is TaskStatusTodo t = true) → update_task w name msgID p f none r = (r, Err none).
Proof.
  intros (t & Hid & _ & Hs & _) Hp. unfold update_task, ttx. rewrite Hid. destruct (p t) eqn:E; [|done].
  apply Hp, Z.eqb_eq in E. rewrite Hs in E. done.
Qed.

Lemma ClaimTask_refused msgID convID agentID conv' b r : claimed_by msgID convID agentID r →
  ClaimTask w msgID conv' b r = (r, Err ErrTaskNotClaimable).
Proof.
  intros Hc. unfold ClaimTask, mbind, M_bind. erewrite claimed_refuses; [done|done|].
  intros t. rewrite !andb_true_iff. tauto.
Qed.

Lemma ClaimTeamTask_refused msgID convID agentID conv' b r : claimed_by msgID convID agentID r →
  ClaimTeamTask w msgID conv' b r = (r, Err ErrTaskNotClaimable).
Proof.
  intros (t & Hid & _ & Hs & _). unfold ClaimTeamTask, mbind, M_bind, reads, team_of_task. rewrite Hid.
  unfold status_is. rewrite Hs. by rewrite andb_false_r.
Qed.

(** A handler that claimed: the checks, what others did, the claim, the notices. *)
Lemma handle_claim_ok caller message r r' v : handle_claim w caller message r = (r', Ok v) →
  ∃ agent ids r0 r1 x, by_agent caller = Some agent ∧ parseMessageName w message = Ok ids ∧ r0 = w_others w 1 r ∧
    (ClaimTask w ids.2 ids.1 (ag_id agent) r0 = (r1, Ok x) ∨ ClaimTeamTask w ids.2 ids.1 (ag_id agent) r0 = (r1, Ok x)) ∧
    tasks_same r1 r'.
Proof.
  intros H. unfold handle_claim in H. reads_in H. injection E as E.
  apply bind_ok_inv in H as (s & agent & Ea & H). assert (by_agent caller = Some agent ∧ s = r) as [Hag ->].
  { unfold requireAgentMemberByConvID in Ea. destruct (by_agent caller) as [ag|]; [|done].
    apply bind_ok_inv in Ea as (s1 & b & E1 & Ea). apply bind_ok_inv in Ea as (s2 & [] & E2 & Ea).
    apply guard_ok in E2 as [_ ->]. injection Ea as -> ->. by injection E1 as <-. }
  apply bind_ok_inv in H as (s & cur & Ec & H). apply mapped_ok, GetTaskMessage_room in Ec as ->.
  apply bind_ok_inv in H as (s & [] & Eg & H). injection Eg as <-.
  apply bind_ok_inv in H as (s & x & Ex & H). apply mapped_ok in Ex.
  exists agent, a, (w_others w 1 r), s, x. split_and!; [done..| |].
  - destruct (ti_type cur.2 =? 3); [by right|by left].
  - revert H. match goal with |- ?m s = _ → _ => assert (keeps tasks_same m) as Hk end; [|intros H; specialize (Hk s); by rewrite H in Hk].
    pose proof AddThread_tasks. pose proof notice_tasks. pose proof team_message_tasks. keep.
Qed.

End claims.

Lemma claimed_by_same msgID convID agentID r r' : tasks_same r r' → claimed_by msgID convID agentID r → claimed_by msgID convID agentID r'.
Proof. unfold claimed_by. by intros ->. Qed.

(** C22: A claim is exclusive.  When a claim succeeds the task is in progress and
    its agent's; and as long as nothing else changes the task, every further claim,
    by whomever and through whichever of the two ways, is refused. *)
Theorem claim_is_exclusive w caller message r r1 v : handle_claim w caller message r = (r1, Ok v) →
  ∃ agent ids, by_agent caller = Some agent ∧ parseMessageName w message = Ok ids ∧
    claimed_by ids.2 ids.1 (ag_id agent) r1 ∧
    ∀ w2 caller2, d_env (w_dir w2) = d_env (w_dir w) → (∀ r, r_tasks (w_others w2 1 r) = r_tasks r) →
      ∃ r2 e, handle_claim w2 caller2 message r1 = (r2, Err e).
Proof.
  intros (agent & ids & r0 & r3 & x & Ha & Hids & _ & Hx & Ht)%handle_claim_ok. exists agent, ids.
  assert (claimed_by ids.2 ids.1 (ag_id agent) r1) as Hc.
  { eapply claimed_by_same; [done|]. destruct Hx; [by eapply ClaimTask_claims|by eapply ClaimTeamTask_claims]. }
  split_and!; [done..|]. intros w2 caller2 Henv Ho.
  destruct (handle_claim w2 caller2 message r1) as [r2 [v2|e]] eqn:E2; [exfalso|by eexists _, _].
  apply handle_claim_ok in E2 as (agent2 & ids2 & s0 & s1 & y & _ & Hids2 & -> & Hy & _).
  assert (ids2 = ids) as ->. { unfold parseMessageName in Hids, Hids2. rewrite Henv in Hids2. congruence. }
  eapply claimed_by_same in Hc; [|exact (Ho r1)].
  destruct Hy as [Hy|Hy]; [erewrite ClaimTask_refused in Hy by done|erewrite ClaimTeamTask_refused in Hy by done]; done.
Qed.

(** *** Tasks that were assigned *)

Section assigned.
Context (w : World).

(** An assigned agent cannot claim its task.  A task to do that is assigned to
    an agent stays to do, and from then on every claim of it is refused, the
    assigned agent's included; it cannot be released either. *)
Theorem assigned_agent_cannot_claim msgID convID agentHandle r r1 x t : r_tasks r !! msgID = Some t → t_status t = TaskStatusTodo →
  AssignTask w msgID convID MemberTypeAgent agentHandle r = (r1, Ok x) →
  ∃ t' a, r_tasks r1 !! msgID = Some t' ∧ t_status t' = TaskStatusTodo ∧ t_agent t' = Some a ∧
    ∀ w2 agentID, ClaimTask w2 msgID convID agentID r1 = (r1, Err ErrTaskNotClaimable) ∧
      UnclaimTask w2 msgID agentID r1 = (r1, Err ErrTaskNotOwner) ∧
      ∃ e, ClaimTeamTask w2 msgID convID agentID r1 = (r1, Err e).
Proof.
  intros Ht Hs H. unfold AssignTask in H. apply bind_ok_inv in H as (s & a & Ea & H). injection Ea as <- Ea.
  apply bind_ok_inv in H as (s & [] & E & H). apply GetTaskMessage_room in H as ->.
  apply update_task_inv in E as (t0 & Ht0 & _ & _ & ->). rewrite Ht in Ht0. injection Ht0 as <-.
  assert (∃ b, a = (2, Some b, None, None)) as [b ->].
  { unfold resolve_assignee in Ea. simpl in Ea. repeat case_match; simplify_eq. by eexists. }
  exists (assigned (2, Some b, None, None) t), b. simpl. rewrite lookup_insert_eq. split_and!; [done..|].
  intros w2 ag. split_and!.
  - unfold ClaimTask, mbind, M_bind, update_task, ttx. simpl. rewrite lookup_insert_eq. unfold no_agent. simpl.
    by rewrite andb_false_r.
  - unfold UnclaimTask, mbind, M_bind, update_task, ttx. simpl. rewrite lookup_insert_eq. unfold status_is. simpl.
    rewrite Hs. by rewrite andb_false_r.
  - unfold ClaimTeamTask, mbind, M_bind, reads, team_of_task. simpl. rewrite lookup_insert_eq. unfold status_is. simpl.
    rewrite Hs. unfold in_conv. simpl. destruct (String.eqb (t_conv t) convID); simpl; by eexists.
Qed.

(** The task that is shown is the row's. *)
Lemma GetTaskMessage_ok msgID r r' v ti : GetTaskMessage w msgID r = (r', Ok (v, ti)) →
  ∃ t, r_tasks r !! msgID = Some t ∧ task_info w t = Ok ti.
Proof.
  unfold GetTaskMessage. intros H. apply bind_ok_inv in H as (s & m & E & H). injection E as <- E.
  destruct (list_find _ _) as [[i m']|] eqn:El; [|done]. apply list_find_Some in El as (_ & Hid & _).
  unfold tcall, call in E. destruct (d_fails _ _); [done|]. injection E as ->.
  apply bind_ok_inv in H as (s & v' & E & H). assert (s = r ∧ fillTaskInfo w r [fillThreadReplyCounts r (view m)] = Ok [v']) as [-> Hf].
  { unfold other_err in E. destruct (fill_one w (view m) r) as [r1 [v1|]] eqn:Ef; [|done]. injection E as <- <-.
    unfold fill_one in Ef. apply bind_ok_inv in Ef as (s & vs & Ef & Eh). injection Ef as <- Ef. simpl in Ef |- *.
    destruct (fill_task _ _ _) as [v2|]; [|done]. injection Ef as <-. by injection Eh as <- <-. }
  simpl in Hf. unfold fill_task, fillThreadReplyCounts in Hf.
  destruct (is_root (v_msg (view m))) eqn:Er; simpl in Hf, Er; rewrite ?Er, ?Hid in Hf.
  - destruct (r_tasks r !! msgID) as [t|]; [|by simplify_eq/=]. destruct (task_info w t) eqn:Ei; simplify_eq/=.
    injection H as <- <- <-. by exists t.
  - by simplify_eq/=.
Qed.

End assigned.

(** Clashes depend on the other rows. *)
Lemma team_clash_other tasks id t t' u : t_team t' = t_team t → active t' = active t →
  team_clash (<[id := u]> tasks) id t' = team_clash tasks id t.
Proof.
  intros Ht Ha. unfold team_clash. rewrite Ht, Ha. destruct (t_team t) as [team|]; [|done]. f_equal.
  apply eq_true_iff_eq. rewrite !existsb_exists. split; intros ([id' t0] & Hin & H); apply list_elem_of_In, elem_of_map_to_list in Hin.
  all: simpl in H; apply andb_true_iff in H as [H H3]; apply andb_true_iff in H as [H H2];
    apply negb_true_iff, String.eqb_neq in H; exists (id', t0); split.
  all: try (simpl; rewrite H2, H3, (proj2 (String.eqb_neq _ _) H); done).
  all: apply list_elem_of_In, elem_of_map_to_list.
  - by rewrite lookup_insert_ne in Hin.
  - by rewrite lookup_insert_ne.
Qed.

(** A released team task is anyone's.  When the leader of a team claims the
    team's task and releases it, the task names nobody (neither team nor agent is
    shown), yet the team stays in its row: any agent of the conversation can claim
    it as an ordinary task, and the team can be assigned no other task. *)
Theorem released_team_task_is_anyones w w2 msgID convID leader r r1 r2 x y :
  w_others w 2 r = r → ClaimTeamTask w msgID convID leader r = (r1, Ok x) → UnclaimTask w2 msgID leader r1 = (r2, Ok y) →
  ∃ t team, r_tasks r2 !! msgID = Some t ∧ t_team t = Some team ∧
    ti_type y.2 = 0 ∧ ti_team y.2 = "" ∧ ti_name y.2 = "" ∧ TeamHasActiveTask team r2 = true ∧
    ∀ w3 agentID, d_fails (w_dir w3) "ClaimTask" = None →
      claimed_by msgID convID agentID (ClaimTask w3 msgID convID agentID r2).1.
Proof.
  intros Ho Hc Hu. unfold ClaimTeamTask in Hc. apply bind_ok_inv in Hc as (s & z & E & Hc). injection E as <- E.
  destruct (_ || _); [done|]. apply bind_ok_inv in Hc as (s & [] & Eg & Hc). injection Eg as <-. rewrite Ho in Hc.
  apply bind_ok_inv in Hc as (s & [] & Eu & Hc). apply GetTaskMessage_room in Hc as ->.
  apply update_task_inv in Eu as (t & Ht & Hp & _ & ->). apply andb_true_iff in Hp as [Hconv _].
  assert (∃ team, t_team t = Some team) as [team Hteam].
  { unfold team_of_task in E. rewrite Ht in E. repeat case_match; simplify_eq; eauto. }
  unfold UnclaimTask in Hu. apply bind_ok_inv in Hu as (s & [] & Eu & Hu). pose proof (GetTaskMessage_room _ _ _ _ _ Hu) as ->.
  apply update_task_inv in Eu as (t1 & Ht1 & _ & Hclash & ->). simpl in Ht1. rewrite lookup_insert_eq in Ht1. injection Ht1 as <-.
  destruct y as [v ti]. apply GetTaskMessage_ok in Hu as (t2 & Ht2 & Hi). simpl in Ht2. rewrite lookup_insert_eq in Ht2. injection Ht2 as <-.
  injection Hi as <-. simpl in Hclash.
  set (t2 := unclaimed (claimed leader 3 t)) in *. exists t2, team. simpl. rewrite lookup_insert_eq. split_and!; try done.
  - unfold TeamHasActiveTask. simpl. apply existsb_exists. exists (msgID, t2).
    split; [apply list_elem_of_In, elem_of_map_to_list, lookup_insert_eq|]. apply andb_true_iff. split; [by apply bool_decide_eq_true|done].
  - intros w3 ag Hf. unfold ClaimTask, mbind, M_bind, update_task, ttx. simpl. rewrite lookup_insert_eq.
    unfold in_conv in *. simpl. rewrite Hconv. simpl.
    rewrite (team_clash_other _ _ t2), Hclash by done. unfold tcall, call. rewrite Hf.
    destruct (GetTaskMessage w3 msgID _) as [r3 z3] eqn:Eg. pose proof (GetTaskMessage_room _ _ _ _ _ Eg) as ->.
    exists (claimed ag 2 t2). simpl. rewrite lookup_insert_eq. split_and!; try done. by apply String.eqb_eq.
Qed.

(** ** Tasks of another conversation *)

(** The row stays. *)
Definition row_stays (msgID : string) (t : Task) (r r' : Room) : Prop := r_tasks r !! msgID = Some t → r_tasks r' !! msgID = Some t.
#[export] Instance row_stays_preorder msgID t : PreOrder (row_stays msgID t).
Proof. split; unfold row_stays; auto. Qed.

Lemma same_stays {A Er} msgID t (m : M Room Er A) : keeps tasks_same m → keeps (row_stays msgID t) m.
Proof. intros H r Hr. by rewrite H. Qed.

(** A check whose answer is known. *)
Lemma keeps_known {Er A B} P `{!PreOrder P} (x : res Er A) (a : A) (k : A → M Room Er B) :
  x = Ok a → keeps P (k a) → keeps P (mbind k (lift_res x)).
Proof. intros -> H. exact H. Qed.

Section crossing.
Context (w : World) (convID msgID : string) (t : Task).
Hypothesis others_same : ∀ n r, r_tasks (w_others w n r) = r_tasks r.
Hypothesis elsewhere : t_conv t ≠ convID.
Notation stays := (row_stays msgID t).

Lemma gap_stays {Er} n : keeps stays (gap w n : M Room Er unit).
Proof. apply same_stays, keeps_modify, others_same. Qed.

Lemma update_task_stays name p f none : (∀ x, p x = true → in_conv convID x = true) → keeps stays (update_task w name msgID p f none).
Proof.
  intros Hp r Hr. unfold update_task, ttx. rewrite Hr. destruct (p t) eqn:E; [|done].
  apply Hp, String.eqb_eq in E. done.
Qed.

Ltac in_room := intros ?; rewrite ?andb_true_iff; tauto.

Lemma close_row_stays now : keeps stays (close_row w msgID convID now).
Proof.
  intros r. unfold close_row. match goal with |- context [update_task w ?a ?b ?p ?f ?n r] =>
    pose proof (update_task_stays a p f n ltac:(in_room) r) as H; destruct (update_task w a b p f n r) as [r' [|[]]] end; exact H.
Qed.

Lemma claims_stay agentID : keeps stays (ClaimTask w msgID convID agentID) ∧ keeps stays (ClaimTeamTask w msgID convID agentID).
Proof.
  pose proof @gap_stays. split; [unfold ClaimTask|unfold ClaimTeamTask]; wrapped; apply update_task_stays; in_room.
Qed.

Lemma AssignTask_stays ty id : keeps stays (AssignTask w msgID convID ty id).
Proof. unfold AssignTask. wrapped. apply update_task_stays. done. Qed.

Lemma CloseTask_stays : keeps stays (CloseTask w msgID convID).
Proof. unfold CloseTask, now. pose proof close_row_stays. wrapped. Qed.

Lemma notices_stay c n : keeps stays (postTaskSystemNotification w c n).
Proof. apply same_stays, notice_tasks. Qed.

Lemma thread_stays root ids : keeps stays (AddThreadParticipants w root ids).
Proof. apply same_stays, AddThread_tasks. Qed.

Lemma team_message_stays c m team content : keeps stays (postTeamAssignmentMessage w c m team content).
Proof. apply same_stays, team_message_tasks. Qed.

Lemma seed_stays c ids : keeps stays (seed_all w c ids).
Proof.
  apply same_stays. induction ids as [|a ids IH]; simpl; unfold seed_cursor, conversation_version; keep.
  apply keeps_tx; [apply _|]. intros r r' x H. destruct (room_conv r c); [|done]. apply call_ok_inv in H. by simplify_eq.
Qed.

Lemma after_assign_stays c m ti content : keeps stays (afterTeamAssign w c m ti content).
Proof.
  pose proof thread_stays. pose proof team_message_stays. pose proof seed_stays. unfold afterTeamAssign, fail. wrapped.
  - apply same_stays. intros r. unfold add_team. by repeat case_match.
  - apply same_stays. intros r. unfold notifyConversationAgents. by destruct (call _ _ _).
Qed.
End crossing.

(** A status changes from any conversation.  A request that names a conversation
    and the message of another conversation's task changes the status of that task:
    the store's update looks at the message alone, so a caller that may act in the
    conversation it names moves tasks of conversations it has no part in.  Claims,
    assignments and closings under the same name leave the task as it is. *)
Theorem status_changes_from_any_conversation w caller message status r convID msgID t :
  parseMessageName w message = Ok (convID, msgID) → r_tasks r !! msgID = Some t → t_conv t ≠ convID →
  TaskStatusTodo ≤ status ≤ TaskStatusDone →
  (let moved_row := moved status (w_now w (r_msgs r)) t in
   team_clash (r_tasks r) msgID moved_row = false → d_fails (w_dir w) "UpdateTaskStatus" = None →
   r_tasks (handle_update w caller message status r).1 !! msgID = Some moved_row) ∧
  ((∀ n r, r_tasks (w_others w n r) = r_tasks r) →
   (∀ caller, r_tasks (handle_claim w caller message r).1 !! msgID = Some t) ∧
   (∀ caller ty id, r_tasks (handle_assign w caller message ty id r).1 !! msgID = Some t) ∧
   (∀ caller, r_tasks (handle_close w caller message r).1 !! msgID = Some t)).
Proof.
  intros Hname Ht Hne Hs. split.
  - intros moved_row Hc Hf.
    assert (wrap_signed 16 status = status ∧ status =? 0 = false ∧ (status <? TaskStatusTodo) || (TaskStatusDone <? status) = false)
      as (Hw & H0 & Hr).
    { unfold TaskStatusTodo, TaskStatusDone in *. assert (status = 1 ∨ status = 2 ∨ status = 3 ∨ status = 4) as [-> | [-> | [-> | ->]]] by lia; done. }
    unfold handle_update, mbind, M_bind, lift_res, mapped. rewrite Hname, Hw, H0. simpl. unfold UpdateTaskStatus. rewrite Hr.
    unfold now, mbind, M_bind, gets, update_task, ttx. rewrite Ht. fold moved_row. rewrite Hc. unfold tcall, call. rewrite Hf. simpl.
    destruct (GetTaskMessage w msgID _) as [r3 z] eqn:Eg. apply GetTaskMessage_room in Eg as ->.
    destruct z as [x|e]; simpl; [|by rewrite lookup_insert_eq].
    match goal with |- r_tasks (match ?m ?s with _ => _ end).1 !! _ = _ => assert (keeps tasks_same m) as Hk end.
    { pose proof (notice_tasks w). keep. }
    match goal with |- r_tasks (match ?m ?s with _ => _ end).1 !! _ = _ => specialize (Hk s); destruct (m s) as [r4 [|]] end;
      simpl in *; rewrite Hk; simpl; by rewrite lookup_insert_eq.
  - intros Ho. pose proof (notices_stay w msgID t) as Hn. pose proof (thread_stays w msgID t). pose proof (team_message_stays w msgID t).
    pose proof (@gap_stays w msgID t Ho). pose proof (after_assign_stays w msgID t).
    split_and!; intros; revert Ht; match goal with |- r_tasks _ !! _ = Some _ → r_tasks (?m r).1 !! _ = _ =>
      assert (keeps (row_stays msgID t) m) as Hk; [|exact (Hk r)] end.
    all: unfold handle_claim, handle_assign, handle_close; apply (keeps_known _ _ _ _ Hname); cbn [fst snd].
    + pose proof (λ a, proj1 (claims_stay w convID msgID t Ho Hne a)). pose proof (λ a, proj2 (claims_stay w convID msgID t Ho Hne a)). wrapped.
    + pose proof (AssignTask_stays w convID msgID t Hne). wrapped.
    + pose proof (CloseTask_stays w convID msgID t Hne). wrapped.
Qed.

(** ** Closing *)

(** Nothing is left to close. *)
Definition closed_row (msgID convID : string) (r : Room) : Prop :=
  ∀ t, r_tasks r !! msgID = Some t → t_conv t = convID → t_status t = TaskStatusDone.

Section closing.
Context (w : World).

Lemma close_row_ok msgID convID now r r' b : close_row w msgID convID now r = (r', Ok b) →
  closed_row msgID convID r' ∧ (b = false → r' = r).
Proof.
  unfold close_row. destruct (update_task _ _ _ _ _ _ r) as [r1 x] eqn:E. intros H.
  destruct x as [[]|e].
  - injection H as <- <-. split; [|done]. apply update_task_inv in E as (t & _ & _ & _ & ->).
    intros t'. simpl. rewrite lookup_insert_eq. by intros [= <-].
  - destruct e; try done. injection H as <- <-.
    unfold update_task, ttx in E. destruct (r_tasks r !! msgID) as [t|] eqn:Et; [|injection E as <-; split; [|done]; intros ?; congruence].
    destruct (in_conv convID t && negb (status_is TaskStatusDone t)) eqn:Ep; simpl in E.
    + destruct (team_clash _ _ _); [done|]. unfold tcall in E. by destruct (call _ _ _) as [[? []]|].
    + injection E as <-. split; [|done]. intros t' Ht' Hc. rewrite Et in Ht'. injection Ht' as <-.
      apply andb_false_iff in Ep as [Ep|Ep]; [by apply String.eqb_neq in Ep|].
      by apply negb_false_iff, Z.eqb_eq in Ep.
Qed.

Lemma close_row_again msgID convID now r : closed_row msgID convID r → close_row w msgID convID now r = (r, Ok false).
Proof.
  intros Hc. unfold close_row, update_task, ttx. destruct (r_tasks r !! msgID) as [t|] eqn:Et; [|done].
  unfold in_conv, status_is. destruct (String.eqb_spec (t_conv t) convID) as [E|]; [|done].
  by rewrite (Hc _ Et E).
Qed.

Lemma handle_close_ok caller message r r' v : handle_close w caller message r = (r', Ok v) →
  ∃ ids, parseMessageName w message = Ok ids ∧ closed_row ids.2 ids.1 r'.
Proof.
  intros H. unfold handle_close in H. reads_in H. injection E as E. exists a. split; [done|].
  apply bind_ok_inv in H as (s & [x b] & Ec & H). apply mapped_ok in Ec. unfold CloseTask in Ec. reads_in Ec.
  apply bind_ok_inv in Ec as (s1 & b1 & Er & Ec). apply close_row_ok in Er as [Hr _].
  apply bind_ok_inv in Ec as (s2 & y & Eg & Ec). apply GetTaskMessage_room in Eg as ->.
  assert (s = s1) as ->. { destruct (String.eqb _ _); [by injection Ec as <-|done]. }
  apply bind_ok_inv in H as (s & [] & En & H). injection H as <- _.
  intros t. assert (tasks_same s1 s) as ->; [|apply Hr].
  simpl in En. destruct b; [|by injection En as <-].
  pose proof (notice_tasks w a.1 (Closed (resolveActorName w caller) (ti_number x.2) (m_content (v_msg x.1))) s1) as Hk. by rewrite En in Hk.
Qed.
End closing.

(** Closing twice is closing once.  After a close that succeeded the task is done,
    and a further close of the same message, by anyone, changes no table and posts
    no notice. *)
Theorem closing_twice_is_closing_once w caller message r r1 v : handle_close w caller message r = (r1, Ok v) →
  (∃ ids, parseMessageName w message = Ok ids ∧ closed_row ids.2 ids.1 r1) ∧
  ∀ w2 caller2, d_env (w_dir w2) = d_env (w_dir w) → (handle_close w2 caller2 message r1).1 = r1.
Proof.
  intros (ids & Hids & Hc)%handle_close_ok. split; [by exists ids|]. intros w2 caller2 Henv.
  assert (parseMessageName w2 message = Ok ids) as Hids2 by (unfold parseMessageName in *; by rewrite Henv).
  unfold handle_close, mbind, M_bind, lift_res, mapped. rewrite Hids2. unfold CloseTask, now, mbind, M_bind, gets.
  rewrite (close_row_again w2 ids.2 ids.1 _ r1 Hc).
  destruct (GetTaskMessage w2 ids.2 r1) as [r2 y] eqn:Eg. apply GetTaskMessage_room in Eg as ->.
  destruct y as [y|e]; [|done]. by destruct (String.eqb _ _).
Qed.

(** ** The board *)

#[export] Instance number_ge_total : Total number_ge.
Proof. intros a b. unfold number_ge. lia. Qed.
#[export] Instance number_ge_trans : Transitive number_ge.
Proof. intros a b c. unfold number_ge. lia. Qed.

Definition passes (statusFilter : list Z) (t : Task) : Prop := statusFilter = [] ∨ t_status t ∈ statusFilter.

Lemma elem_of_board convID f r m t : (m, t) ∈ board convID f r ↔
  m ∈ r_msgs r ∧ m_conv m = convID ∧ is_root m = true ∧ r_tasks r !! m_id m = Some t ∧ passes f t.
Proof.
  unfold board. rewrite merge_sort_Permutation, list_elem_of_filter, list_elem_of_omap. unfold roots_of, passes, with_task. split.
  - intros [Hp (m' & [[Hc Hr] Hm]%list_elem_of_filter & H)]. apply fmap_Some in H as (t' & Ht & [= -> ->]). tauto.
  - intros (Hm & Hc & Hr & Ht & Hp). split; [done|]. exists m. rewrite Ht. split; [|done]. by apply list_elem_of_filter.
Qed.

Section board.
Context (w : World).

Lemma ListTasks_ok convID f size offset r r' vs next : ListTasks w convID f size offset r = (r', Ok (vs, next)) →
  let n := if (size <=? 0) || (100 <? size) then 30 else size in
  let rows := take (Z.to_nat n) (drop (Z.to_nat (Z.max 0 offset)) (board convID f r)) in
  r' = r ∧ v_msg <$> vs = fst <$> rows ∧
  next = if Z.of_nat (length rows) =? n then Some (Z.max 0 offset + n) else None.
Proof.
  unfold ListTasks. intros H. apply bind_ok_inv in H as (s & ms & E & H). apply query_ok in E as [-> ->].
  apply bind_ok_inv in H as (s & vs' & E & H). unfold fill in E. injection E as <- E. apply fill_msgs in E. rewrite views_msgs in E.
  injection H as <- <- <-. simpl. rewrite E, length_fmap.
  assert ((if offset <? 0 then 0 else offset) = Z.max 0 offset) as -> by (destruct (Z.ltb_spec offset 0); lia). done.
Qed.

(** The pages from an offset, each read with the token of the one before. *)
Fixpoint board_pages (fuel : nat) (convID : string) (f : list Z) (size offset : Z) (r : Room) : option (list View) :=
  match fuel with
  | O => None
  | S fuel =>
      match (ListTasks w convID f size offset r).2 with
      | Err _ => None
      | Ok (vs, None) => Some vs
      | Ok (vs, Some next) => app vs <$> board_pages fuel convID f size next r
      end
  end.

Lemma board_pages_ok fuel convID f size offset r vs : 0 ≤ offset → board_pages fuel convID f size offset r = Some vs →
  v_msg <$> vs = fst <$> drop (Z.to_nat offset) (board convID f r).
Proof.
  revert offset vs. induction fuel as [|fuel IH]; intros offset vs Ho H; simpl in H; [done|].
  destruct (ListTasks w convID f size offset r) as [r' [[vs1 next]|]] eqn:E; [|done]. simpl in H.
  apply ListTasks_ok in E as (_ & Hvs & Hn). rewrite Z.max_r in Hvs, Hn by done.
  set (n := if _ || _ then 30 else size) in *. assert (0 < n).
  { unfold n. destruct (Z.leb_spec size 0), (Z.ltb_spec 100 size); simpl; lia. }
  set (l := drop (Z.to_nat offset) (board convID f r)) in *. destruct (Z.eqb_spec (Z.of_nat (length (take (Z.to_nat n) l))) n) as [Hl|Hl]; subst next.
  - apply fmap_Some in H as (vs2 & H & ->). apply IH in H; [|lia]. rewrite fmap_app, Hvs, H.
    rewrite <- fmap_app. f_equal. rewrite <- (take_drop (Z.to_nat n) l) at 2. f_equal. unfold l. rewrite drop_drop. f_equal. lia.
  - injection H as <-. rewrite Hvs. f_equal. apply take_ge. rewrite length_take in Hl. lia.
Qed.

Lemma board_pages_end convID f size r fuel offset : (∀ offset, ∃ p, (ListTasks w convID f size offset r).2 = Ok p) →
  0 ≤ offset → (length (drop (Z.to_nat offset) (board convID f r)) < fuel)%nat →
  ∃ vs, board_pages fuel convID f size offset r = Some vs.
Proof.
  intros Hok. revert offset. induction fuel as [|fuel IH]; intros offset Ho Hl; [lia|]. simpl.
  destruct (Hok offset) as [[vs1 next] E]. rewrite E. destruct next as [o'|]; [|by eexists].
  destruct (ListTasks w convID f size offset r) as [r' x] eqn:E'. simpl in E. subst x.
  apply ListTasks_ok in E' as (_ & _ & Hn). rewrite Z.max_r in Hn by done.
  set (n := if _ || _ then 30 else size) in *. assert (0 < n).
  { unfold n. destruct (Z.leb_spec size 0), (Z.ltb_spec 100 size); simpl; lia. }
  destruct (Z.eqb_spec (Z.of_nat (length (take (Z.to_nat n) (drop (Z.to_nat offset) (board convID f r))))) n) as [Hn'|]; [|done].
  injection Hn as ->. rewrite length_take in Hn'. destruct (IH (offset + n)) as [vs2 ->]; [lia| |by eexists].
  rewrite length_drop in *. lia.
Qed.
End board.

Lemma NoDup_fst_filter {A B} (P : A * B → Prop) `{!∀ x, Decision (P x)} (l : list (A * B)) : NoDup l.*1 → NoDup (filter P l).*1.
Proof.
  induction l as [|x l IH]; [done|]. intros [Hx Hl]%NoDup_cons. rewrite filter_cons. case_decide; [|by apply IH].
  apply NoDup_cons. split; [|by apply IH]. intros (y & E & [_ Hy]%list_elem_of_filter)%list_elem_of_fmap.
  apply Hx. rewrite E. by apply list_elem_of_fmap_2.
Qed.

Lemma board_NoDup convID f r : NoDup (m_id <$> r_msgs r) → NoDup (board convID f r).*1.
Proof.
  intros Hn. apply NoDup_fmap_1 in Hn. unfold board. rewrite merge_sort_Permutation.
  assert (∀ l, NoDup l → NoDup (omap (with_task r) l).*1) as Ho.
  { induction 1 as [|m l Hm _ IH]; simpl; [constructor|]. unfold with_task at 1. destruct (r_tasks r !! m_id m); simpl; [|done].
    constructor; [|done]. intros ([m' t'] & -> & (m2 & H2 & E2)%list_elem_of_omap)%list_elem_of_fmap. simpl in *.
    unfold with_task in E2. apply fmap_Some in E2 as (? & _ & [= <- _]). done. }
  apply NoDup_fst_filter, Ho. unfold roots_of. by apply NoDup_filter.
Qed.

(** C30: The pages of a board are its tasks.  Reading a board page by page with the
    tokens it returns ends as soon as the calls succeed, and the pages together are
    the top-level messages of the conversation that are tasks of the asked
    statuses, each once, the newest number first. *)
Theorem board_pages_are_the_tasks w convID f size r fuel : room_ok r →
  (∀ offset, ∃ p, (ListTasks w convID f size offset r).2 = Ok p) → (length (board convID f r) < fuel)%nat →
  ∃ vs, board_pages w fuel convID f size 0 r = Some vs ∧ v_msg <$> vs = (board convID f r).*1 ∧
    Sorted number_ge (board convID f r) ∧ NoDup (v_msg <$> vs) ∧
    ∀ m, m ∈ v_msg <$> vs ↔ m ∈ r_msgs r ∧ m_conv m = convID ∧ is_root m = true ∧ ∃ t, r_tasks r !! m_id m = Some t ∧ passes f t.
Proof.
  intros (Hm & _ & _) Hok Hfuel. destruct (board_pages_end w convID f size r fuel 0 Hok) as [vs Hvs]; [lia|by rewrite drop_0|].
  exists vs. split; [done|]. apply board_pages_ok in Hvs; [|done]. simpl in Hvs. rewrite drop_0 in Hvs.
  split_and!; [done|apply Sorted_merge_sort; apply _|rewrite Hvs; apply board_NoDup, Hm|].
  intros m. rewrite Hvs, list_elem_of_fmap. split.
  - intros ([m' t] & -> & (? & ? & ? & ? & ?)%elem_of_board). simpl. eauto 10.
  - intros (? & ? & ? & t & ? & ?). exists (m, t). split; [done|]. by apply elem_of_board.
Qed.

(** ** A team's task *)

Section teams.
Context (w : World).
Hypothesis version_read : d_fails (w_dir w) "GetConversationVersion" = None.
Hypothesis cursor_written : d_fails (w_dir w) "UpsertCursor" = None.

Lemma seed_cursor_runs a convID r c : room_conv r convID = Some c →
  (seed_cursor w a convID r).1 = set_chat (set_cursor (a, convID) (cv_version c)) r.
Proof.
  intros Hc. unfold seed_cursor, conversation_version, mbind, M_bind. rewrite Hc. unfold call. rewrite version_read.
  rewrite <- (UpsertCursor_runs w a convID (cv_version c) r c Hc cursor_written).
  by destruct (UpsertCursor w a convID (cv_version c) r) as [r' [x|e]].
Qed.

Lemma seed_all_step convID a ids r c : room_conv r convID = Some c →
  (seed_all w convID (a :: ids) r).1 = (seed_all w convID ids (set_chat (set_cursor (a, convID) (cv_version c)) r)).1.
Proof. intros Hc. simpl. unfold mbind, M_bind, logged. by rewrite (seed_cursor_runs _ _ _ _ Hc). Qed.

Lemma seed_all_seeds convID a ids r c : room_ok r → room_conv r convID = Some c → a ∈ ids →
  ∃ v, ch_cursors (r_chat (seed_all w convID ids r).1) !! (a, convID) = Some v ∧ cv_version c ≤ v.
Proof.
  revert r. induction ids as [|b ids IH]; intros r Hok Hc Ha; [by apply not_elem_of_nil in Ha|].
  erewrite seed_all_step by done. set (r1 := set_chat _ r).
  assert (evolves r r1) as He. { apply evolves_same; try done. intros k v. apply set_cursor_grows. }
  destruct (He Hok) as [Hok1 _]. apply elem_of_cons in Ha as [->|Ha]; [|by apply IH].
  destruct (seed_all_kept w evolves convID ids r1 Hok1) as [_ (_ & _ & Hk & _)].
  destruct (Hk (b, convID) (Z.max (default (cv_version c) (ch_cursors (r_chat r) !! (b, convID))) (cv_version c))) as (v & Hv & Hle).
  { simpl. by rewrite lookup_insert_eq. }
  exists v. split; [done|lia].
Qed.

Lemma team_inputs_ids r convID ms p m role ty a : team_inputs w r convID ms = Ok p → m ∈ ms →
  conversationMembership (w_dir w) (r_chat r) convID MemberTypeAgent (tm_resource m) = Ok (role, ty) → role ≠ 0 →
  agent_of w (MemberTypeAgent, tm_resource m) = Some a → a ∈ p.2.
Proof.
  revert p. induction ms as [|m' ms IH]; intros p H Hm Hr Hne Ha; simpl in H; [by apply not_elem_of_nil in Hm|].
  destruct (conversationMembership _ _ _ _ (tm_resource m')) as [[role' ty']|] eqn:E; [|done].
  destruct (team_inputs w r convID ms) as [[inputs ids]|]; [|done].
  apply elem_of_cons in Hm as [->|Hm].
  - rewrite Hr in E. injection E as <- <-. rewrite (proj2 (Z.eqb_neq _ _) Hne) in H. injection H as <-. simpl.
    rewrite Ha. by apply list_elem_of_here.
  - specialize (IH _ eq_refl Hm Hr Hne Ha). destruct (role' =? 0); injection H as <-; simpl in *; [done|].
    apply elem_of_app. by right.
Qed.

(** A team's task costs its members their unread messages.  When a task is
    assigned to a team, the cursors of all the team's agents go to the version of
    the conversation, not only of those that join: an agent that had joined before
    never sees in its inbox the messages it had not processed. *)
Theorem team_assignment_drops_unread convID msgID ti content r r' team m role ty a : room_ok r →
  afterTeamAssign w convID msgID ti content r = (r', Ok tt) → ti_team ti ≠ "" →
  w_team_name w (ti_team ti) = Ok (Some team) → m ∈ te_members team →
  conversationMembership (w_dir w) (r_chat r) convID MemberTypeAgent (tm_resource m) = Ok (role, ty) → role ≠ 0 →
  agent_of w (MemberTypeAgent, tm_resource m) = Some a →
  ∀ m0 c', m0 ∈ r_msgs r → m_conv m0 = convID → m0 ∈ r_msgs r' ∧ m0 ∉ new_messages r' a convID c'.
Proof.
  intros Hok H Hti Hteam Hm Hr Hne Ha m0 c' Hm0 Hm0c. unfold afterTeamAssign in H.
  rewrite (proj2 (String.eqb_neq _ _) Hti), Hteam in H.
  apply bind_ok_inv in H as (s & p & Ep & H). injection Ep as <- Ep. pose proof (team_inputs_ids _ _ _ _ _ _ _ _ Ep Hm Hr Hne Ha) as Hin.
  apply bind_ok_inv in H as (s & [] & E1 & H). pose proof (add_team_kept w evolves convID p.1 r Hok) as [Hok1 G1]. rewrite E1 in Hok1, G1. simpl in Hok1, G1.
  set (ids := p.2 ++ _) in H. apply bind_ok_inv in H as (s2 & [] & E2 & H).
  pose proof (keeps_logged _ _ (AddThreadParticipants_evolves w msgID ids) s Hok1) as [Hok2 G2]. rewrite E2 in Hok2, G2. simpl in Hok2, G2.
  apply bind_ok_inv in H as (s3 & [] & E3 & H).
  pose proof (seed_all_kept w evolves convID ids s2 Hok2) as [Hok3 G3]. rewrite E3 in Hok3, G3. simpl in Hok3, G3.
  match type of H with ?prog s3 = _ => assert (keeps evolves prog) as Hk by (pose proof team_message_kept; pose proof notify_kept; keep) end.
  destruct (Hk s3 Hok3) as [_ G4]. rewrite H in G4. simpl in G4.
  assert (∃ c, room_conv r convID = Some c ∧ m_version m0 ≤ cv_version c) as (c & Hc & Hv).
  { unfold conversationMembership in Hr. destruct (ch_convs (r_chat r) !! convID) as [c|] eqn:Ec; [|done].
    exists c. split; [done|]. destruct Hok as (_ & Hn & _). eapply message_version; [done|done|]. by rewrite Hm0c. }
  assert (grows r s2) as G12 by by etrans. destruct G12 as (_ & Hcv & _). destruct (Hcv _ _ Hc) as (c2 & Hc2 & Hle).
  destruct (seed_all_seeds convID a ids s2 c2 Hok2 Hc2) as (v & Hcur & Hlv); [by apply elem_of_app; left|].
  rewrite E3 in Hcur. simpl in Hcur. destruct G4 as (Hp4 & _ & Hk4 & _). destruct (Hk4 _ _ Hcur) as (v' & Hcur' & Hlv').
  split.
  - assert (r_msgs r `prefix_of` r_msgs r') as [k ->] by (etrans; [apply G1|etrans; [apply G2|etrans; [apply G3|done]]]). set_solver.
  - intros [(_ & Hlt & _) _]%list_elem_of_filter. unfold processed in Hlt. rewrite Hcur' in Hlt. simpl in Hlt. lia.
Qed.
End teams.
