(* ===== verification/Reminders.v ===== *)
(** Reminders: a top-level message with a time to fire at, an agent that owns it and a
    status ([store/reminder.go], [api/v1/reminder.go]), the scheduler that fires them
    ([component/scheduler/scheduler.go]) and the computation of the next fire
    ([component/schedule/schedule.go]).

    Times are nanoseconds since 1970; the rounding of a column to microseconds is left
    out.  [w_others 1] runs between a handler's first read and its write, [w_others 2]
    between the two statements of UpdateReminderFields, [w_others 3] between the list
    of a scan and each of its reminders, [w_others 4] between MarkDue and the delivery,
    [w_others 5] between the look at the agent's machine and the write. *)

From stdpp Require Import base list strings numbers gmap sets sorting pretty.
From S2P Require Import Prelude Strings Names Runes Iam Policies Mentions Membership Messages Inbox Posting Tasks.
Local Open Scope Z_scope.

(** ** component/schedule/schedule.go *)

(** The parser of cron expressions and the time zones are not the repository's. *)
Class CronLib := {
  Sched : Type; Loc : Type; UTC : Loc;
  Parse : string → res string Sched;
  LoadLocation : string → option Loc;
  Next : Sched → Loc → Z → Z }.

(** time.Time{}, which Next returns when it finds no time. *)
Definition zero_time : Z := -62135596800 * Second.

Section schedule.
Context `{CronLib}.

Definition loadLocation (tz : string) : res string Loc :=
  if String.eqb tz "" then Ok UTC else
  match LoadLocation tz with Some l => Ok l | None => Err "invalid timezone" end.

(** [Some]: the error. *)
Definition Validate (cronExpr tz : string) : option string :=
  match Parse cronExpr with
  | Err x => Some x
  | Ok _ => match loadLocation tz with Ok _ => None | Err x => Some x end
  end.

Definition NextFire (cronExpr tz : string) (from : Z) : res string Z :=
  match loadLocation tz with
  | Err x => Err x
  | Ok l => match Parse cronExpr with Err x => Err x | Ok s => Ok (Next s l from) end
  end.
End schedule.

(** ** store/reminder.go *)

(** The sentinel errors; [Failed]: any other failure. *)
Inductive rerr :=
| ErrReminderNotFound | ErrReminderAlreadyExists | ErrReminderInvalidTransition | Failed (msg : string).

(** A row and its key. *)
Definition Row : Type := string * Reminder.

Section reminders.
Context `{CronLib} (w : World).
Notation d := (w_dir w).

Definition rcall {A} (name : string) (a : A) : res rerr A :=
  match call d name a with Ok a => Ok a | Err e => Err (Failed e) end.

(** now() of the database *)
Definition db_now (r : Room) : Z := w_now w (r_msgs r).

(** JOIN agent a ON a.id = r.assignee_agent_id *)
Definition joined (x : Reminder) : bool := match w_agents w (re_agent x) with Some _ => true | None => false end.

Definition GetReminder (msgID : string) : M Room rerr Row := reads (λ r,
  match r_rems r !! msgID with
  | Some x => if joined x then rcall "GetReminder" (msgID, x) else Err ErrReminderNotFound
  | None => Err ErrReminderNotFound
  end).

Definition ConvertMessageToReminder (msgID convID : string) (assigneeAgentID : Z) (taskContent : string) (fireAt : Z)
    (cronExpr tz : string) : M Room rerr Row :=
  ttx (λ r,
    match r_rems r !! msgID with
    | Some _ => Err ErrReminderAlreadyExists
    | None =>
        match room_conv r convID, w_agents w assigneeAgentID with
        | Some _, Some _ =>
            if bool_decide (msgID ∈ m_id <$> r_msgs r) then
              rcall "ConvertMessageToReminder" (set_rems <[msgID := MkRem convID assigneeAgentID taskContent fireAt cronExpr tz
                ReminderStatusPending 0 None None None None "" (db_now r) (db_now r)]> r, tt)
            else Err (Failed "violates foreign key constraint")
        | _, _ => Err (Failed "violates foreign key constraint")
        end
    end) ;;
  GetReminder msgID.

(** *** The lists *)

Definition fire_le (a b : Row) : Prop := re_fire a.2 ≤ re_fire b.2.
#[export] Instance fire_le_dec : RelDecision fire_le := λ a b, Z.le_dec (re_fire a.2) (re_fire b.2).

Definition retry_at (x : Reminder) : Z := default 0 (re_next x).
Definition next_le (a b : Row) : Prop := retry_at a.2 ≤ retry_at b.2.
#[export] Instance next_le_dec : RelDecision next_le := λ a b, Z.le_dec (retry_at a.2) (retry_at b.2).

(** Pending first, then the earliest fire, then the latest update. *)
Definition rank (x : Reminder) : Z := if re_status x =? ReminderStatusPending then 0 else 1.
Definition listed_le (a b : Row) : Prop :=
  rank a.2 < rank b.2 ∨
  (rank a.2 = rank b.2 ∧ (re_fire a.2 < re_fire b.2 ∨ (re_fire a.2 = re_fire b.2 ∧ re_updated b.2 ≤ re_updated a.2))).
#[export] Instance listed_le_dec : RelDecision listed_le.
Proof. intros a b. unfold listed_le. apply _. Defined.

Definition rows (p : Reminder → bool) (r : Room) : list Row :=
  filter (λ x, joined x.2 && p x.2 = true) (map_to_list (r_rems r)).

Definition has_status (s : Z) (x : Reminder) : bool := re_status x =? s.

Definition ListDueReminders (agentID : Z) : M Room rerr (list Row) :=
  reads (λ r, rcall "ListDueReminders"
    (merge_sort fire_le (rows (λ x, (re_agent x =? agentID) && has_status ReminderStatusDue x) r))).

Definition HasDueReminders (agentID : Z) : M Room rerr bool :=
  reads (λ r, rcall "HasDueReminders"
    (existsb (λ x : Row, (re_agent x.2 =? agentID) && has_status ReminderStatusDue x.2) (map_to_list (r_rems r)))).

Definition ListDuePending (now : Z) : M Room rerr (list Row) :=
  reads (λ r, rcall "ListDuePending"
    (merge_sort fire_le (rows (λ x, has_status ReminderStatusPending x && (re_fire x <=? now)) r))).

Definition retrying (now : Z) (x : Reminder) : bool :=
  has_status ReminderStatusDue x && match re_next x with Some t => t <=? now | None => false end.

Definition ListDueRetrying (now : Z) : M Room rerr (list Row) :=
  reads (λ r, rcall "ListDueRetrying" (merge_sort next_le (rows (retrying now) r))).

(** [agentID] 0 and [convID] None: no filter; [viewer]: only the conversations it is a
    member of; [offset]: the page token as a number, an invalid one is 0. *)
Definition wanted (agentID : Z) (convID : option string) (statusFilter : list Z) (viewer : option Member) (r : Room)
    (x : Reminder) : bool :=
  (if 0 <? agentID then re_agent x =? agentID else true) &&
  match convID with Some c => String.eqb (re_conv x) c | None => true end &&
  match statusFilter with [] => true | _ => bool_decide (re_status x ∈ statusFilter) end &&
  match viewer with Some m => listed r (re_conv x) m | None => true end.

Definition ListReminders (agentID : Z) (convID : option string) (statusFilter : list Z) (viewer : option Member)
    (pageSize offset : Z) : M Room rerr (list Row * option Z) :=
  let pageSize := if (pageSize <=? 0) || (200 <? pageSize) then 50 else pageSize in
  let offset := if offset <? 0 then 0 else offset in
  l ← reads (λ r, rcall "ListReminders" (take (Z.to_nat pageSize) (drop (Z.to_nat offset)
        (merge_sort listed_le (rows (wanted agentID convID statusFilter viewer r) r)))));
  mret (l, if Z.of_nat (length l) =? pageSize then Some (offset + pageSize) else None).

(** *** The updates *)

(** UPDATE reminder SET ... WHERE message_id = [msgID] AND [p]; whether it changed a row. *)
Definition update_reminder (name msgID : string) (p : Reminder → bool) (f : Room → Reminder → Reminder) : M Room rerr bool :=
  ttx (λ r,
    match r_rems r !! msgID with
    | Some x => if p x then rcall name (set_rems <[msgID := f r x]> r, true) else rcall name (r, false)
    | None => rcall name (r, false)
    end).

Definition due (firedAt : Z) (r : Room) (x : Reminder) : Reminder :=
  MkRem (re_conv x) (re_agent x) (re_content x) (re_fire x) (re_cron x) (re_tz x) ReminderStatusDue
    0 None None (Some firedAt) (re_completed x) (re_result x) (re_created x) (db_now r).

Definition MarkDue (msgID : string) (firedAt : Z) : M Room rerr unit :=
  update_reminder "MarkDue" msgID (has_status ReminderStatusPending) (due firedAt) ;; mret tt.

Definition retried (retryCount nextRetryAt attemptAt : Z) (r : Room) (x : Reminder) : Reminder :=
  MkRem (re_conv x) (re_agent x) (re_content x) (re_fire x) (re_cron x) (re_tz x) (re_status x)
    retryCount (Some nextRetryAt) (Some attemptAt) (re_fired x) (re_completed x) (re_result x) (re_created x) (db_now r).

Definition SetRetry (msgID : string) (retryCount nextRetryAt attemptAt : Z) : M Room rerr unit :=
  update_reminder "SetRetry" msgID (has_status ReminderStatusDue) (retried retryCount nextRetryAt attemptAt) ;; mret tt.

Definition cleared (r : Room) (x : Reminder) : Reminder :=
  MkRem (re_conv x) (re_agent x) (re_content x) (re_fire x) (re_cron x) (re_tz x) (re_status x)
    (re_retry x) None (re_attempt x) (re_fired x) (re_completed x) (re_result x) (re_created x) (db_now r).

Definition ClearRetry (msgID : string) : M Room rerr unit :=
  update_reminder "ClearRetry" msgID (has_status ReminderStatusDue) cleared ;; mret tt.

Definition edited (fireAt : Z) (cronExpr tz taskContent : string) (status : Z) (r : Room) (x : Reminder) : Reminder :=
  MkRem (re_conv x) (re_agent x) taskContent fireAt cronExpr tz status
    0 None None (re_fired x) (re_completed x) (re_result x) (re_created x) (db_now r).

Definition any_reminder (x : Reminder) : bool := true.

(** The status is read, and the row written by its id alone. *)
Definition UpdateReminderFields (msgID : string) (fireAt : Z) (cronExpr tz taskContent : string) : M Room rerr Row :=
  status ← reads (λ r, match r_rems r !! msgID with
                       | Some x => rcall "UpdateReminderFields" (re_status x)
                       | None => Err ErrReminderNotFound
                       end);
  if negb ((status =? ReminderStatusPending) || (status =? ReminderStatusDue) || (status =? ReminderStatusMissed))
  then throw ErrReminderInvalidTransition else
  let newStatus := if (status =? ReminderStatusDue) || (status =? ReminderStatusMissed) then ReminderStatusPending else status in
  gap w 2 ;;
  update_reminder "UpdateReminderFields" msgID any_reminder (edited fireAt cronExpr tz taskContent newStatus) ;;
  GetReminder msgID.

Definition cancellable (x : Reminder) : bool :=
  has_status ReminderStatusPending x || has_status ReminderStatusDue x || has_status ReminderStatusMissed x.

Definition cancelled (r : Room) (x : Reminder) : Reminder :=
  MkRem (re_conv x) (re_agent x) (re_content x) (re_fire x) (re_cron x) (re_tz x) ReminderStatusCancelled
    (re_retry x) None (re_attempt x) (re_fired x) (re_completed x) (re_result x) (re_created x) (db_now r).

Definition CancelReminder (msgID : string) : M Room rerr Row :=
  update_reminder "CancelReminder" msgID cancellable cancelled ;; GetReminder msgID.

(** *** The end of a reminder *)

(** A reply under the reminder, and the new version of the conversation. *)
Definition post_reply (convID rootID : string) (principal : Z) (agent : option Z) (role : Z) (content : string) (sender : Z)
    (r : Room) : res rerr (Room * Message) :=
  match bump_version w convID r with
  | Err x => Err (Failed x)
  | Ok (r, version) =>
      match createChatMessageInTx w (draft convID principal agent role content None sender [] [] (Some rootID)) version r with
      | Err x => Err (Failed x)
      | Ok x => Ok x
      end
  end.

Definition system_reply (convID rootID content : string) : Room → res rerr (Room * Message) :=
  post_reply convID rootID 1 None 1 content SenderTypeSystem.

Definition completed (result : string) (finalStatus : Z) (nextFireAt : option Z) (r : Room) (x : Reminder) : Reminder :=
  MkRem (re_conv x) (re_agent x) (re_content x) (default (re_fire x) nextFireAt) (re_cron x) (re_tz x)
    (match nextFireAt with Some _ => ReminderStatusPending | None => finalStatus end)
    0 None None (re_fired x) (Some (db_now r)) result (re_created x) (db_now r).

(** The two replies, the system's and the agent's; none when the reminder is not due. *)
Definition complete_tx (msgID result label : string) (finalStatus : Z) (nextFireAt : option Z) (r : Room)
    : res rerr (Room * list Message) :=
  match r_rems r !! msgID with
  | Some x =>
      if negb (has_status ReminderStatusDue x) then Ok (r, []) else
      let convID := re_conv x in
      let r1 := set_rems <[msgID := completed result finalStatus nextFireAt r x]> r in
      match room_conv r1 convID with
      | None => Err (Failed "failed to load conversation owner")
      | Some conv =>
          match system_reply convID msgID label r1 with
          | Err e => Err e
          | Ok (r2, pill) =>
              let agent := if 0 <? re_agent x then Some (re_agent x) else None in
              match post_reply convID msgID (cv_owner conv) agent 2 result SenderTypeAgent r2 with
              | Err e => Err e
              | Ok (r3, reply) => rcall "completeReminderTx" (emit [NotifyConversation convID] r3, [pill; reply])
              end
          end
      end
  | None => Ok (r, [])
  end.

Definition completeReminderTx (msgID result label : string) (finalStatus : Z) (nextFireAt : option Z)
    : M Room rerr (list Message * Row) :=
  posted ← ttx (complete_tx msgID result label finalStatus nextFireAt);
  x ← GetReminder msgID;
  mret (posted, x).

Definition CompleteReminderAndPostNotification (msgID result label : string) (nextFireAt : option Z) :=
  completeReminderTx msgID result label ReminderStatusCompleted nextFireAt.

Definition FailReminderAndPostNotification (msgID errMsg label : string) (nextFireAt : option Z) :=
  completeReminderTx msgID errMsg label ReminderStatusFailed nextFireAt.

Definition missed (nextFireAt : option Z) (r : Room) (x : Reminder) : Reminder :=
  MkRem (re_conv x) (re_agent x) (re_content x) (default (re_fire x) nextFireAt) (re_cron x) (re_tz x)
    (match nextFireAt with Some _ => ReminderStatusPending | None => ReminderStatusMissed end)
    0 None (Some (db_now r)) (re_fired x) (re_completed x) (re_result x) (re_created x) (db_now r).

Definition missed_text (retryCount : Z) : string :=
  "⏰ Reminder missed after " +:+ pretty retryCount +:+ " delivery retries (agent offline)".

(** RETURNING gives the row as it is written. *)
Definition miss_tx (msgID : string) (nextFireAt : option Z) (r : Room) : res rerr (Room * list Message) :=
  match r_rems r !! msgID with
  | Some x =>
      if negb (has_status ReminderStatusDue x) then Ok (r, []) else
      let x' := missed nextFireAt r x in
      match system_reply (re_conv x') msgID (missed_text (re_retry x')) (set_rems <[msgID := x']> r) with
      | Err e => Err e
      | Ok (r, m) => rcall "MarkMissedAndPostNotification" (emit [NotifyConversation (re_conv x')] r, [m])
      end
  | None => Ok (r, [])
  end.

Definition MarkMissedAndPostNotification (msgID : string) (nextFireAt : option Z) : M Room rerr (list Message * Row) :=
  posted ← ttx (miss_tx msgID nextFireAt);
  x ← GetReminder msgID;
  mret (posted, x).

(** ** component/scheduler/scheduler.go *)

Definition retryBackoff : list Z := [5 * Second; 10 * Second; 20 * Second; 30 * Second; 60 * Second].

(** s.now() *)
Definition clock {Er} : M Room Er Z := gets (λ r, dk_clock (r_desk r)).

Definition agent_online {Er} (agentID : Z) : M Room Er bool := gets (λ r, dk_online (r_desk r) agentID).

Definition next_fire (x : Reminder) (now : Z) : option Z :=
  if String.eqb (re_cron x) "" then None else
  match NextFire (re_cron x) (re_tz x) now with Ok t => Some t | Err _ => None end.

Definition miss (x : Row) : M Room rerr unit :=
  now ← clock;
  attempt (MarkMissedAndPostNotification x.1 (next_fire x.2 now)) ;;
  mret tt.

Definition deliver (x : Row) (retryCount : Z) : M Room rerr unit :=
  gap w 4 ;;
  online ← agent_online (re_agent x.2);
  gap w 5 ;;
  if (online : bool) then
    attempt (ClearRetry x.1) ;;
    modify (emit [NotifyWake (re_agent x.2)])
  else
    match retryBackoff !! Z.to_nat retryCount with
    | None => miss x
    | Some delay =>
        now ← clock;
        attempt (SetRetry x.1 (retryCount + 1) (now + delay) now) ;;
        mret tt
    end.

Fixpoint each (f : Row → M Room rerr unit) (l : list Row) : M Room rerr unit :=
  match l with [] => mret tt | x :: l => gap w 3 ;; f x ;; each f l end.

(** The list of a scan; a failure ends it. *)
Definition scan (list_ : M Room rerr (list Row)) (f : Row → M Room rerr unit) : M Room rerr unit :=
  l ← attempt list_; match l with Ok l => each f l | Err _ => mret tt end.

Definition fire (now : Z) (x : Row) : M Room rerr unit :=
  e ← attempt (MarkDue x.1 now);
  match e with Ok _ => deliver x 0 | Err _ => mret tt end.

Definition scanDue : M Room rerr unit := now ← clock; scan (ListDuePending now) (fire now).

Definition scanRetry : M Room rerr unit := now ← clock; scan (ListDueRetrying now) (λ x, deliver x (re_retry x.2)).

(** ** api/v1/reminder.go *)

(** The label of a request's error. *)
Definition get_failure (e : rerr) : failure :=
  match e with ErrReminderNotFound => (NotFound, "reminder not found") | _ => (Internal, "failed to get reminder") end.

Definition parseReminderName (name : string) : res failure string :=
  match split name with
  | [p; id] =>
      if String.eqb p "reminders" then
        match e_uuid (d_env d) id with
        | Some id => Ok id
        | None => Err (InvalidArgument, "invalid reminder id in name")
        end
      else Err (InvalidArgument, "invalid reminder name, expected reminders/{message_id}")
  | _ => Err (InvalidArgument, "invalid reminder name, expected reminders/{message_id}")
  end.

(** The request's names and fields. *)
Record V1Reminder := MkV1Rem {
  v1_name : string; v1_conversation : string; v1_message : string; v1_assignee : string; v1_assignee_name : string;
  v1_row : Reminder }.

Definition storeToV1Reminder (x : Row) : V1Reminder :=
  let agent := w_agents w (re_agent x.2) in
  MkV1Rem ("reminders/" +:+ x.1) ("conversations/" +:+ re_conv x.2)
    ("conversations/" +:+ re_conv x.2 +:+ "/messages/" +:+ x.1)
    (FormatAgentUID (default "" (ar_resource <$> agent))) (default "" (ar_name <$> agent)) x.2.

Definition requireReminderOwner (caller : Caller) (x : Row) : M Room failure unit :=
  match by_agent caller with
  | Some agent => guard_ (ag_id agent =? re_agent x.2) PermissionDenied "only the owning agent may modify the reminder"
  | None => fail PermissionDenied "only the owning agent may modify the reminder"
  end.

(** An explicit time: a valid timestamp after 1970. *)
Definition explicit (ts : option Z) : option Z :=
  match ts with Some t => if 0 <? t / Second then Some t else None | None => None end.

Definition resolveFireAt (ts : option Z) (cronExpr tz : string) : M Room failure Z :=
  match explicit ts with
  | Some fireAt =>
      now ← clock;
      guard_ (now <? fireAt) InvalidArgument "fire_at must be in the future" ;;
      mret fireAt
  | None =>
      if String.eqb cronExpr "" then fail InvalidArgument "fire_at is required for a one-shot reminder" else
      now ← clock;
      match NextFire cronExpr tz now with Ok t => mret t | Err x => fail Internal x end
  end.

(** The same for an edit, which takes a time that has passed. *)
Definition new_fire (ts : option Z) (cronExpr tz : string) : M Room failure Z :=
  match explicit ts with
  | Some fireAt => mret fireAt
  | None =>
      if String.eqb cronExpr "" then fail InvalidArgument "fire_at is required for a one-shot reminder" else
      now ← clock;
      match NextFire cronExpr tz now with Ok t => mret t | Err x => fail Internal x end
  end.

Definition postReminderSystemMessage (convID rootMsgID content : string) : M Room failure unit :=
  if String.eqb content "" then mret tt else
  logged (CreateChatMessageBumpVersion w (draft convID 1 None 1 content None SenderTypeSystem [] [] (Some rootMsgID))).

(** *** task.go: the excerpt of a text *)

Definition maxTaskTitleLen : Z := 60.

Definition spaces (s : string) : string :=
  String.string_of_list_ascii ((λ c, if bool_decide (c = Ascii.ascii_of_nat 10) then Ascii.ascii_of_nat 32 else c) <$> String.list_ascii_of_string s).

Definition singleLinePreview (s : string) (maxRunes : Z) : string :=
  let s := Strings.TrimSpace (spaces s) in
  let rs := runes_of s in
  if Z.of_nat (length rs) <=? maxRunes then s else string_of (take (Z.to_nat maxRunes) rs) +:+ "…".

Definition truncateContent (s : string) : string := singleLinePreview s maxTaskTitleLen.

(** *** The handlers *)

Record ReminderRequest := MkRemReq { rq_content : string; rq_fire : option Z; rq_cron : string; rq_tz : string }.

Definition cron_of (req : ReminderRequest) : string := Strings.TrimSpace (rq_cron req).
Definition tz_of (req : ReminderRequest) : string :=
  let tz := Strings.TrimSpace (rq_tz req) in if String.eqb tz "" then "UTC" else tz.

Definition check_schedule (req : ReminderRequest) : M Room failure unit :=
  guard_ (negb (String.eqb (Strings.TrimSpace (rq_content req)) "")) InvalidArgument "task_content must not be empty" ;;
  if String.eqb (cron_of req) "" then mret tt else
  match Validate (cron_of req) (tz_of req) with Some x => fail InvalidArgument x | None => mret tt end.

Definition scheduled_text (name : string) (fireAt : Z) (content : string) : string :=
  "⏰ " +:+ name +:+ " scheduled a reminder for " +:+ d_rfc3339 d fireAt +:+ ": " +:+ truncateContent content.

Definition schedule_failure (e : rerr) : failure :=
  match e with
  | ErrReminderAlreadyExists => (FailedPrecondition, "message is already a reminder")
  | _ => (Internal, "failed to convert message to reminder")
  end.

Definition handle_schedule (caller : Caller) (message : string) (req : ReminderRequest) : M Room failure V1Reminder :=
  ids ← lift_res (parseMessageName w message);
  agent ← requireAgentMemberByConvID w caller ids.1;
  check_schedule req ;;
  fireAt ← resolveFireAt (rq_fire req) (cron_of req) (tz_of req);
  isRoot ← as_error Internal (IsThreadRoot w ids.1 ids.2);
  guard_ isRoot InvalidArgument "only a top-level message can be converted to a reminder" ;;
  gap w 1 ;;
  x ← mapped schedule_failure
        (ConvertMessageToReminder ids.2 ids.1 (ag_id agent) (rq_content req) fireAt (cron_of req) (tz_of req));
  logged (AddThreadParticipants w ids.2 [ag_id agent]) ;;
  postReminderSystemMessage ids.1 ids.2 (scheduled_text (agent_name w (ag_id agent)) fireAt (rq_content req)) ;;
  mret (storeToV1Reminder x).

Definition handle_get_reminder (name : string) : M Room failure V1Reminder :=
  msgID ← lift_res (parseReminderName name);
  x ← mapped get_failure (GetReminder msgID);
  mret (storeToV1Reminder x).

Definition edit_failure (e : rerr) : failure :=
  match e with
  | ErrReminderInvalidTransition => (FailedPrecondition, "reminder is in a terminal status; cancel and recreate instead")
  | ErrReminderNotFound => (NotFound, "reminder not found")
  | _ => (Internal, "failed to update reminder")
  end.

Definition updated_text (actor : string) (fireAt : Z) : string :=
  "📝 " +:+ actor +:+ " updated the reminder schedule: " +:+ d_rfc3339 d fireAt.

Definition handle_edit_reminder (caller : Caller) (name : string) (req : ReminderRequest) : M Room failure V1Reminder :=
  msgID ← lift_res (parseReminderName name);
  mapped get_failure (GetReminder msgID) ;;
  check_schedule req ;;
  fireAt ← new_fire (rq_fire req) (cron_of req) (tz_of req);
  gap w 1 ;;
  x ← mapped edit_failure (UpdateReminderFields msgID fireAt (cron_of req) (tz_of req) (rq_content req));
  postReminderSystemMessage (re_conv x.2) msgID (updated_text (resolveActorName w caller) fireAt) ;;
  mret (storeToV1Reminder x).

Definition cancelled_text (actor : string) : string := "🚫 " +:+ actor +:+ " cancelled the reminder".

Definition handle_cancel_reminder (caller : Caller) (name : string) : M Room failure V1Reminder :=
  msgID ← lift_res (parseReminderName name);
  mapped get_failure (GetReminder msgID) ;;
  gap w 1 ;;
  x ← mapped (λ _, (Internal, "failed to cancel reminder")) (CancelReminder msgID);
  (if re_status x.2 =? ReminderStatusCancelled
   then postReminderSystemMessage (re_conv x.2) msgID (cancelled_text (resolveActorName w caller)) else mret tt) ;;
  mret (storeToV1Reminder x).

(** nextFireOrNil *)
Definition nextFireOrNil (x : Row) : M Room failure (option Z) := now ← clock; mret (next_fire x.2 now).

Definition assignee (x : Row) : string := agent_name w (re_agent x.2).

Definition handle_complete_reminder (caller : Caller) (name result : string) : M Room failure V1Reminder :=
  msgID ← lift_res (parseReminderName name);
  x ← mapped get_failure (GetReminder msgID);
  requireReminderOwner caller x ;;
  nextFireAt ← nextFireOrNil x;
  gap w 1 ;;
  y ← mapped (λ _, (Internal, "failed to complete reminder"))
        (CompleteReminderAndPostNotification msgID result ("✅ " +:+ assignee x +:+ " completed the reminder") nextFireAt);
  mret (storeToV1Reminder y.2).

Definition handle_fail_reminder (caller : Caller) (name error : string) : M Room failure V1Reminder :=
  msgID ← lift_res (parseReminderName name);
  x ← mapped get_failure (GetReminder msgID);
  requireReminderOwner caller x ;;
  nextFireAt ← nextFireOrNil x;
  gap w 1 ;;
  y ← mapped (λ _, (Internal, "failed to fail reminder"))
        (FailReminderAndPostNotification msgID error ("❌ " +:+ assignee x +:+ " failed the reminder") nextFireAt);
  mret (storeToV1Reminder y.2).

Definition handle_due_reminders (caller : Caller) : M Room failure (list V1Reminder) :=
  match by_agent caller with
  | None => fail Unauthenticated "agent authentication required"
  | Some agent =>
      l ← mapped (λ _, (Internal, "failed to list due reminders")) (ListDueReminders (ag_id agent));
      mret (storeToV1Reminder <$> l)
  end.

(** *** ListReminders *)

Definition parseAgentResourceID (agent : string) : string :=
  match split agent with
  | p :: id :: rest =>
      if String.eqb p "agents" && (match rest with [] | _ :: _ :: _ => true | [_] => false end) then id else agent
  | _ => agent
  end.

Definition uuid_nil : string := "00000000-0000-0000-0000-000000000000".

Record ListRequest := MkListReq { lr_agent : string; lr_conv : string; lr_status : list Z; lr_size : Z; lr_offset : Z }.

Definition agent_filter (agent : string) : res failure Z :=
  if String.eqb agent "" then Ok 0 else
  match GetAgentByResourceID (w_names w) (parseAgentResourceID agent) with
  | Ok (Some a) => Ok (ar_id a)
  | _ => Err (InvalidArgument, "unknown agent in filter")
  end.

(** The nil id is the absence of a filter. *)
Definition conversation_filter (conversation : string) : res failure (option string) :=
  if String.eqb conversation "" then Ok None else
  match parseConversationID d conversation with
  | None => Err (InvalidArgument, "invalid conversation name")
  | Some id => Ok (if String.eqb id uuid_nil then None else Some id)
  end.

Definition viewer_of (caller : Caller) : res failure (option Member) :=
  match by_user caller with
  | None => Ok None
  | Some user =>
      match CheckPermission (d_env d) ConversationsReviewAll (Some user) None None with
      | Err x => Err (Internal, x)
      | Ok reviewAll => Ok (if (reviewAll : bool) then None else Some (MemberTypeUser, u_handle user))
      end
  end.

Definition handle_list_reminders (caller : Caller) (req : ListRequest) : M Room failure (list V1Reminder * option Z) :=
  agentID ← lift_res (agent_filter (lr_agent req));
  convID ← lift_res (conversation_filter (lr_conv req));
  viewer ← lift_res (viewer_of caller);
  x ← mapped (λ _, (Internal, "failed to list reminders"))
        (ListReminders agentID convID (wrap_signed 16 <$> filter (λ s, s ≠ 0) (lr_status req)) viewer (lr_size req) (lr_offset req));
  mret (storeToV1Reminder <$> x.1, x.2).
End reminders.
