(* ===== verification/RemindersSpec.v ===== *)
(** What holds of reminders: every operation keeps them well-formed, a scan fires what is
    due, an agent that stays away is tried five more times and no more, a reminder ends
    once, and where an edit or a failed write breaks this. *)

From stdpp Require Import base list strings numbers gmap sets sorting pretty.
From S2P Require Import Prelude Strings Names Iam Policies Mentions Membership Messages Inbox Posting MessagesSpec Tasks TasksSpec Reminders.
Local Open Scope Z_scope.

Lemma keeps_attempt_any (P : Room → Room → Prop) `{!PreOrder P} {Er A} (m : M Room Er A) : keeps P m → keeps P (attempt m).
Proof. intros H r. unfold attempt. specialize (H r). by destruct (m r). Qed.

Ltac walk :=
  repeat (wrapped; match goal with |- keeps _ (attempt _) => apply keeps_attempt_any; [apply _|] end); wrapped.

(** ** The writes keep the invariant *)

(** What an update may do to a row. *)
Definition rem_update (p : Reminder → bool) (f : Room → Reminder → Reminder) : Prop :=
  ∀ r x, rem_wf x → p x = true → re_conv (f r x) = re_conv x ∧ rem_wf (f r x).

Lemma rems_ok_update r id x x' : rems_ok r → r_rems r !! id = Some x → re_conv x' = re_conv x → rem_wf x' →
  rems_ok (set_rems <[id := x']> r).
Proof.
  intros H Hx Hc Hw i y. unfold r_rems. simpl. intros [[<- <-]|[_ Hy]]%lookup_insert_Some; [|by apply H].
  apply H in Hx as [(m & ? & ? & ? & ?) _]. split; [|done]. exists m. by rewrite Hc.
Qed.

Lemma set_rems_evolves f r : (room_ok r → rems_ok (set_rems f r)) → evolves r (set_rems f r).
Proof.
  intros H Hr. specialize (H Hr). destruct Hr as (A & B & C & _). split; [by split_and!|].
  split; [done|]. split; [by eauto using Z.le_refl|]. split; [apply cursors_refl|done].
Qed.

Section writes.
Context `{CronLib} (w : World).

Lemma rcall_ok_inv {A} name (a b : A) : rcall w name a = Ok b → b = a.
Proof. unfold rcall. destruct (call _ _ _) eqn:E; [|done]. apply call_ok_inv in E. congruence. Qed.

Lemma update_reminder_inv name id p f r r' b : update_reminder w name id p f r = (r', Ok b) →
  (∃ x, r_rems r !! id = Some x ∧ p x = true ∧ b = true ∧ r' = set_rems <[id := f r x]> r) ∨
  ((∀ x, r_rems r !! id = Some x → p x = false) ∧ b = false ∧ r' = r).
Proof.
  unfold update_reminder, ttx. intros E. destruct (r_rems r !! id) as [x|].
  - destruct (p x) eqn:Ep; (destruct (rcall _ _ _) as [[r1 u]|] eqn:Er; [|done]); apply rcall_ok_inv in Er; simplify_eq.
    + left. by exists x.
    + right. split; [by intros ? [= <-]|done].
  - destruct (rcall _ _ _) as [[r1 u]|] eqn:Er; [|done]. apply rcall_ok_inv in Er. simplify_eq. by right.
Qed.

Lemma update_reminder_keeps (P : Room → Room → Prop) `{!PreOrder P} name id p f :
  (∀ r x, r_rems r !! id = Some x → p x = true → P r (set_rems <[id := f r x]> r)) → keeps P (update_reminder w name id p f).
Proof.
  intros H1 r. destruct (update_reminder w name id p f r) as [r' [b|e]] eqn:E; simpl.
  - apply update_reminder_inv in E as [(x & Hx & Hp & _ & ->)|(_ & _ & ->)]; [by apply H1|reflexivity].
  - unfold update_reminder, ttx in E. case_all E. all: reflexivity.
Qed.

Lemma update_reminder_evolves name id p f : rem_update p f → keeps evolves (update_reminder w name id p f).
Proof.
  intros Hf. apply update_reminder_keeps; [apply _|]. intros r x Hx Hp. apply set_rems_evolves. intros (_ & _ & _ & D).
  pose proof (D _ _ Hx) as [_ Hw]. destruct (Hf r x Hw Hp). by eapply rems_ok_update.
Qed.

Ltac row := intros r x (H1 & H2 & H3 & H4) Hp; split; [done|split; [|split; [|split]]]; simpl.

Lemma due_update firedAt p : rem_update p (due w firedAt).
Proof. row; [done|done|by intros []|done]. Qed.

Lemma retried_update n t now : 1 ≤ n ≤ 5 → rem_update (has_status ReminderStatusDue) (retried w n t now).
Proof. intros Hn. row; [done|lia|apply Z.eqb_eq in Hp; split; [done|lia]|done]. Qed.

Lemma cleared_update p : rem_update p (cleared w).
Proof. row; [done|done|by intros []|done]. Qed.

Lemma edited_update p t c tz s : rem_update p (edited w t c tz s ReminderStatusPending).
Proof. row; [done|done|by intros []|done]. Qed.

Lemma cancelled_update p : rem_update p (cancelled w).
Proof. row; [done|done|by intros []|done]. Qed.

Lemma completed_update p result s next : ReminderStatusPending ≤ s ≤ ReminderStatusFailed → s ≠ ReminderStatusDue →
  rem_update p (completed w result s next).
Proof. intros Hs Hd. row; [by destruct next|done|by intros []|by destruct next]. Qed.

Lemma missed_update p next : rem_update p (missed w next).
Proof. row; [by destruct next|done|by intros []|by destruct next]. Qed.

Lemma GetReminder_keeps (P : Room → Room → Prop) `{!PreOrder P} id : keeps P (GetReminder w id).
Proof. unfold GetReminder. wrapped. Qed.

Lemma clock_keeps (P : Room → Room → Prop) `{!PreOrder P} {Er} : keeps P (clock : M Room Er Z).
Proof. unfold clock. wrapped. Qed.

Lemma online_keeps (P : Room → Room → Prop) `{!PreOrder P} {Er} a : keeps P (agent_online a : M Room Er bool).
Proof. unfold agent_online. wrapped. Qed.

(** *** Replies under a reminder *)

Lemma post_reply_inserted convID root principal agent role content sender r r' m :
  post_reply w convID root principal agent role content sender r = Ok (r', m) →
  (∃ c, inserted r r' convID c m) ∧ r_desk r' = r_desk r ∧ r_tasks r' = r_tasks r ∧ r_number r' = r_number r ∧
  r_events r' = r_events r ∧ m_root m = Some root ∧ m_sender m = sender ∧ m_agent m = agent ∧ m_content m = content.
Proof.
  unfold post_reply. intros E. destruct (bump_version _ _ _) as [[r1 v]|] eqn:E1; [|done].
  destruct (createChatMessageInTx _ _ _ _) as [[r2 m']|] eqn:E2; [|done]. simplify_eq.
  destruct (bump_create_inserted w (draft convID principal agent role content None sender [] [] (Some root)) _ _ _ _ _ _ E1 E2
    eq_refl eq_refl eq_refl) as [c Hc]. simpl in Hc.
  pose proof (createChatMessageInTx_desk _ _ _ _ _ _ E2) as D2. pose proof (bump_version_desk _ _ _ _ _ E1) as D1.
  assert (m_content m = content) as Hcont. { unfold createChatMessageInTx in E2. by repeat case_match; simplify_eq. }
  apply createChatMessageInTx_ok in E2 as (_ & _ & _ & _ & E5 & E6 & _ & E8 & _ & _ & E9 & E10 & E11).
  apply bump_version_ok in E1 as (c' & _ & _ & ->). split_and!; try done; by exists c.
Qed.

Lemma post_reply_evolves convID root principal agent role content sender r r' m :
  post_reply w convID root principal agent role content sender r = Ok (r', m) → evolves r r'.
Proof.
  intros ([c Hi] & Hd & Ht & Hn & _)%post_reply_inserted. pose proof (inserted_prefix _ _ _ _ _ Hi).
  eapply inserted_evolves; [done|intros ? _; by eapply tasks_ok_more|apply rems_ok_more; [unfold r_rems; by rewrite Hd|done]].
Qed.

(** *** The two ends *)

Lemma complete_tx_inv id result label s next r r' ms : complete_tx w id result label s next r = Ok (r', ms) →
  (r' = r ∧ ms = []) ∨
  ∃ x conv r2 r3 pill m, r_rems r !! id = Some x ∧ has_status ReminderStatusDue x = true ∧ room_conv r (re_conv x) = Some conv ∧
    system_reply w (re_conv x) id label (set_rems <[id := completed w result s next r x]> r) = Ok (r2, pill) ∧
    post_reply w (re_conv x) id (cv_owner conv) (if 0 <? re_agent x then Some (re_agent x) else None) 2 result SenderTypeAgent r2 = Ok (r3, m) ∧
    r' = emit [NotifyConversation (re_conv x)] r3 ∧ ms = [pill; m].
Proof.
  unfold complete_tx. intros E. destruct (r_rems r !! id) as [x|]; [|left; by simplify_eq].
  destruct (has_status ReminderStatusDue x) eqn:Ed; simpl in E; [|left; by simplify_eq].
  unfold room_conv in E. simpl in E. destruct (ch_convs (r_chat r) !! re_conv x) as [conv|] eqn:Ec; [|done].
  destruct (system_reply _ _ _ _ _) as [[r2 pill]|] eqn:E1; [|done].
  destruct (post_reply _ _ _ _ _ _ _ _ r2) as [[r3 m]|] eqn:E2; [|done]. apply rcall_ok_inv in E. simplify_eq.
  right. by exists x, conv, r2, r3, pill, m.
Qed.

Lemma miss_tx_inv id next r r' ms : miss_tx w id next r = Ok (r', ms) →
  (r' = r ∧ ms = []) ∨
  ∃ x r2 m, r_rems r !! id = Some x ∧ has_status ReminderStatusDue x = true ∧
    system_reply w (re_conv x) id (missed_text 0) (set_rems <[id := missed w next r x]> r) = Ok (r2, m) ∧
    r' = emit [NotifyConversation (re_conv x)] r2 ∧ ms = [m].
Proof.
  unfold miss_tx. intros E. destruct (r_rems r !! id) as [x|]; [|left; by simplify_eq].
  destruct (has_status ReminderStatusDue x) eqn:Ed; simpl in E; [|left; by simplify_eq].
  destruct (system_reply _ _ _ _ _) as [[r2 m]|] eqn:E1; [|done]. apply rcall_ok_inv in E. simplify_eq.
  right. by exists x, r2, m.
Qed.

(** Both end a due reminder and post under it. *)
Lemma complete_keeps (P : Room → Room → Prop) `{!PreOrder P} id result label s next :
  (∀ r x, r_rems r !! id = Some x → has_status ReminderStatusDue x = true → P r (set_rems <[id := completed w result s next r x]> r)) →
  (∀ r r' c o a ro t se m, post_reply w c id o a ro t se r = Ok (r', m) → P r r') → (∀ es r, P r (emit es r)) →
  keeps P (completeReminderTx w id result label s next).
Proof.
  intros H1 H2 H3. unfold completeReminderTx. apply keeps_mbind; [apply _| |intros; apply keeps_mbind; [apply _|apply GetReminder_keeps; apply _|keep]].
  apply keeps_ttx; [apply _|]. intros r r' ms [[-> _]|(x & conv & r2 & r3 & pill & m & Hx & Hd & _ & E1 & E2 & -> & _)]%complete_tx_inv; [reflexivity|].
  etrans; [by apply H1|]. etrans; [eapply H2, E1|]. etrans; [eapply H2, E2|apply H3].
Qed.

Lemma miss_keeps (P : Room → Room → Prop) `{!PreOrder P} id next :
  (∀ r x, r_rems r !! id = Some x → has_status ReminderStatusDue x = true → P r (set_rems <[id := missed w next r x]> r)) →
  (∀ r r' c o a ro t se m, post_reply w c id o a ro t se r = Ok (r', m) → P r r') → (∀ es r, P r (emit es r)) →
  keeps P (MarkMissedAndPostNotification w id next).
Proof.
  intros H1 H2 H3. unfold MarkMissedAndPostNotification. apply keeps_mbind; [apply _| |intros; apply keeps_mbind; [apply _|apply GetReminder_keeps; apply _|keep]].
  apply keeps_ttx; [apply _|]. intros r r' ms [[-> _]|(x & r2 & m & Hx & Hd & E1 & -> & _)]%miss_tx_inv; [reflexivity|].
  etrans; [by apply H1|]. etrans; [eapply H2, E1|apply H3].
Qed.
End writes.

#[export] Hint Resolve GetReminder_keeps clock_keeps online_keeps : keeps.

(** ** The operations and the handlers *)

Section operations.
Context `{CronLib} (w : World).
Hypothesis others_evolve : ∀ n r, evolves r (w_others w n r).

Lemma gap_any_ {Er} n : keeps evolves (gap w n : M Room Er unit).
Proof. by apply gap_kept. Qed.
#[local] Hint Resolve gap_any_ : keeps.

Lemma MarkDue_evolves id t : keeps evolves (MarkDue w id t).
Proof. unfold MarkDue. walk. apply update_reminder_evolves, due_update. Qed.

Lemma SetRetry_evolves id n t now : 1 ≤ n ≤ 5 → keeps evolves (SetRetry w id n t now).
Proof. intros Hn. unfold SetRetry. walk. by apply update_reminder_evolves, retried_update. Qed.

Lemma ClearRetry_evolves id : keeps evolves (ClearRetry w id).
Proof. unfold ClearRetry. walk. apply update_reminder_evolves, cleared_update. Qed.

Lemma CancelReminder_evolves id : keeps evolves (CancelReminder w id).
Proof. unfold CancelReminder. walk. apply update_reminder_evolves, cancelled_update. Qed.

Lemma edit_status s :
  negb ((s =? ReminderStatusPending) || (s =? ReminderStatusDue) || (s =? ReminderStatusMissed)) = false →
  (if (s =? ReminderStatusDue) || (s =? ReminderStatusMissed) then ReminderStatusPending else s) = ReminderStatusPending.
Proof.
  intros Hs. destruct ((s =? ReminderStatusDue) || (s =? ReminderStatusMissed)) eqn:E; [done|].
  apply orb_false_iff in E as [E1 E2]. rewrite E1, E2 in Hs. rewrite !orb_false_r in Hs. by apply negb_false_iff, Z.eqb_eq in Hs.
Qed.

Lemma Update_evolves id t c tz s : keeps evolves (UpdateReminderFields w id t c tz s).
Proof.
  unfold UpdateReminderFields. apply keeps_mbind; [apply _|wrapped|]. intros status. destruct (negb _) eqn:E; [wrapped|].
  rewrite (edit_status _ E). wrapped. apply update_reminder_evolves, edited_update.
Qed.

Lemma end_evolves id f : (∀ p, rem_update p f) →
  ∀ r x, r_rems r !! id = Some x → has_status ReminderStatusDue x = true → evolves r (set_rems <[id := f r x]> r).
Proof.
  intros Hf r x Hx _. apply set_rems_evolves. intros (_ & _ & _ & D). pose proof (D _ _ Hx) as [_ Hw].
  destruct (Hf any_reminder r x Hw eq_refl). by eapply rems_ok_update.
Qed.

Lemma complete_evolves id result label s next : ReminderStatusPending ≤ s ≤ ReminderStatusFailed → s ≠ ReminderStatusDue →
  keeps evolves (completeReminderTx w id result label s next).
Proof.
  intros Hs Hd. apply complete_keeps; [apply _| |intros *; by apply post_reply_evolves|intros; apply emit_evolves].
  apply end_evolves. intros p. by apply completed_update.
Qed.

Lemma MarkMissed_evolves id next : keeps evolves (MarkMissedAndPostNotification w id next).
Proof.
  apply miss_keeps; [apply _| |intros *; by apply post_reply_evolves|intros; apply emit_evolves].
  apply end_evolves. intros p. apply missed_update.
Qed.

#[local] Hint Resolve MarkDue_evolves ClearRetry_evolves CancelReminder_evolves Update_evolves MarkMissed_evolves : keeps.

(** *** The scheduler *)

Lemma miss_evolves x : keeps evolves (miss w x).
Proof. unfold miss. walk. Qed.

Lemma wake_evolves a : keeps evolves (modify (emit [NotifyWake a]) : M Room rerr unit).
Proof. apply keeps_modify. intros r. apply emit_evolves. Qed.
#[local] Hint Resolve miss_evolves wake_evolves : keeps.

Lemma backoff_index n delay : 0 ≤ n → retryBackoff !! Z.to_nat n = Some delay → 1 ≤ n + 1 ≤ 5.
Proof. intros Hn Hl%lookup_lt_Some. change (length retryBackoff) with 5%nat in Hl. lia. Qed.

Lemma deliver_evolves x n : 0 ≤ n → keeps evolves (deliver w x n).
Proof.
  intros Hn. unfold deliver. destruct (retryBackoff !! _) as [delay|] eqn:E; walk. apply SetRetry_evolves. by eapply backoff_index.
Qed.

Lemma each_evolves f l : (∀ x, x ∈ l → keeps evolves (f x)) → keeps evolves (each w f l).
Proof.
  induction l as [|x l IH]; intros Hf; simpl; [wrapped|]. apply keeps_mbind; [apply _|wrapped|]. intros _.
  apply keeps_mbind; [apply _|apply Hf, list_elem_of_here|]. intros _. apply IH. intros y Hy. by apply Hf, list_elem_of_further.
Qed.

Lemma fire_evolves now x : keeps evolves (fire w now x).
Proof. unfold fire. pose proof (deliver_evolves x 0 ltac:(lia)). walk. Qed.

Lemma scanDue_evolves : keeps evolves (scanDue w).
Proof. unfold scanDue, scan, ListDuePending. walk. apply each_evolves. intros y _. apply fire_evolves. Qed.

Lemma elem_of_rows p r x : x ∈ rows w p r ↔ r_rems r !! x.1 = Some x.2 ∧ joined w x.2 = true ∧ p x.2 = true.
Proof. unfold rows. destruct x as [id x]. rewrite list_elem_of_filter, andb_true_iff, elem_of_map_to_list. simpl. tauto. Qed.

Lemma rcall_list name (l l' : list Row) : rcall w name l = Ok l' → l' = l.
Proof. apply rcall_ok_inv. Qed.

Lemma scanRetry_evolves : keeps evolves (scanRetry w).
Proof.
  intros r Hr. unfold scanRetry, clock, scan, ListDueRetrying, reads, attempt, gets, mbind, M_bind. simpl.
  destruct (rcall _ _ _) as [l|] eqn:E; [|split; [done|reflexivity]]. apply rcall_list in E as ->.
  revert r Hr. assert (∀ l, (∀ x, x ∈ l → 0 ≤ re_retry x.2) → keeps evolves (each w (λ x, deliver w x (re_retry x.2)) l)) as Hall.
  { intros l Hl. apply each_evolves. intros x Hx. by apply deliver_evolves, Hl. }
  intros r Hr. apply Hall; [|done]. intros x Hx. rewrite merge_sort_Permutation in Hx. apply elem_of_rows in Hx as (Hx & _).
  destruct Hr as (_ & _ & _ & D). apply D in Hx as [_ Hw]. apply Hw.
Qed.

(** *** The handlers *)

Lemma system_message_evolves convID root text : keeps evolves (postReminderSystemMessage w convID root text).
Proof. unfold postReminderSystemMessage. walk. Qed.

Lemma check_schedule_keeps (P : Room → Room → Prop) `{!PreOrder P} req : keeps P (check_schedule req).
Proof. unfold check_schedule, fail. wrapped. Qed.

Lemma owner_keeps (P : Room → Room → Prop) `{!PreOrder P} caller x : keeps P (requireReminderOwner caller x).
Proof. unfold requireReminderOwner, fail. wrapped. Qed.

Lemma fire_at_keeps (P : Room → Room → Prop) `{!PreOrder P} ts c tz : keeps P (resolveFireAt ts c tz).
Proof. unfold resolveFireAt, fail. wrapped. Qed.

Lemma new_fire_keeps (P : Room → Room → Prop) `{!PreOrder P} ts c tz : keeps P (new_fire ts c tz).
Proof. unfold new_fire, fail. wrapped. Qed.
#[local] Hint Resolve system_message_evolves check_schedule_keeps owner_keeps fire_at_keeps new_fire_keeps : keeps.

Lemma handle_edit_evolves caller name req : keeps evolves (handle_edit_reminder w caller name req).
Proof. unfold handle_edit_reminder. walk. Qed.

Lemma handle_cancel_evolves caller name : keeps evolves (handle_cancel_reminder w caller name).
Proof. unfold handle_cancel_reminder. walk. Qed.

Lemma handle_complete_evolves caller name result : keeps evolves (handle_complete_reminder w caller name result).
Proof.
  unfold handle_complete_reminder, CompleteReminderAndPostNotification, nextFireOrNil. walk. by apply complete_evolves.
Qed.

Lemma handle_fail_evolves caller name error : keeps evolves (handle_fail_reminder w caller name error).
Proof.
  unfold handle_fail_reminder, FailReminderAndPostNotification, nextFireOrNil. walk. by apply complete_evolves.
Qed.

(** A message becomes a reminder of its own conversation: the handler looks at the
    message before it writes, and messages stay. *)
Definition top_level (id convID : string) (r : Room) : Prop :=
  ∃ m, m ∈ r_msgs r ∧ m_id m = id ∧ m_conv m = convID ∧ is_root m = true.

Lemma find_root_top id convID r m : find_root convID id r = Some m → top_level id convID r.
Proof.
  unfold find_root. intros E%head_Some_elem_of. apply list_elem_of_filter in E as ((? & ? & ?) & ?). by exists m.
Qed.

Lemma top_level_grows id convID r r' : top_level id convID r → grows r r' → top_level id convID r'.
Proof. intros (m & Hm & ?) ([k Hk] & _). exists m. split; [|done]. rewrite Hk. apply elem_of_app. by left. Qed.

Lemma schedule_evolves id convID agent content t c tz r : top_level id convID r →
  evolves r (ConvertMessageToReminder w id convID agent content t c tz r).1.
Proof.
  intros Ht. assert (∀ r', evolves r r' → evolves r (GetReminder w id r').1) as Hget.
  { intros r' He. etrans; [exact He|]. apply GetReminder_keeps. apply _. }
  unfold ConvertMessageToReminder, mbind, M_bind. destruct (ttx _ r) as [r' [[]|e]] eqn:E; unfold ttx in E; case_all E.
  all: try reflexivity. all: try (apply rcall_ok_inv in Heqr0; simplify_eq).
  apply Hget. apply set_rems_evolves. intros (_ & _ & _ & D) i y. unfold r_rems. simpl.
  intros [[<- <-]|[_ Hy]]%lookup_insert_Some; [|by apply D]. split; [exact Ht|]. split; [done|]. split; [done|]. by split; [intros []|].
Qed.

Lemma step_bind (P : Room → Room → Prop) {Er A B} (m : M Room Er A) (k : A → M Room Er B) r :
  (∀ r1 a, m r = (r1, Ok a) → P r (k a r1).1) → (∀ r1 e, m r = (r1, Err e) → P r r1) → P r (mbind k m r).1.
Proof. intros Hk He. unfold mbind, M_bind. destruct (m r) as [r1 [a|e]]; [by apply Hk|by eapply He]. Qed.

Lemma is_root_inv id convID r r1 b : as_error Internal (IsThreadRoot w convID id) r = (r1, Ok b) →
  r1 = r ∧ (b = true → top_level id convID r).
Proof.
  unfold as_error, IsThreadRoot, query. intros E. destruct (call _ _ _) eqn:E1; [|done]. apply call_ok_inv in E1. simplify_eq.
  split; [done|]. destruct (find_root _ _ _) eqn:E2; [|done]. intros _. by eapply find_root_top.
Qed.

Lemma handle_schedule_evolves caller message req : keeps evolves (handle_schedule w caller message req).
Proof.
  unfold handle_schedule. do 4 (apply keeps_mbind; [apply _|wrapped; fail|intros ?]). intros r.
  apply step_bind; [|intros ? ? E; unfold as_error, IsThreadRoot, query in E; simpl in E; by destruct (call _ _ _); simplify_eq].
  intros r1 isRoot [-> Ht]%is_root_inv. destruct isRoot; [|reflexivity]. specialize (Ht eq_refl).
  unfold guard_. rewrite bind_ret. assert (∀ k : unit → M Room failure V1Reminder, mbind k (gap w 1) r = k tt (w_others w 1 r)) as Hg by done.
  rewrite Hg.
  intros Hr. destruct (others_evolve 1 r Hr) as [Hr1 G1]. pose proof (top_level_grows _ _ _ _ Ht G1) as Ht1.
  match goal with |- room_ok ?x ∧ _ => enough (evolves (w_others w 1 r) x) as He by (destruct (He Hr1); split; [done|by etrans]) end.
  apply step_bind; unfold mapped; intros r3 x E; pose proof (schedule_evolves _ _ (ag_id a0) (rq_content req) a2 (cron_of req) (tz_of req) _ Ht1) as Hs;
    destruct (ConvertMessageToReminder _ _ _ _ _ _ _ _ _) as [r4 [y|e]]; simplify_eq; [|done]. etrans; [exact Hs|].
  match goal with |- evolves _ (?m _).1 => assert (keeps evolves m) as K by walk; apply K end.
Qed.
End operations.

(** ** Scans *)

(** One reminder is left alone, and so are the clock and the agents. *)
Definition untouched (id : string) (r r' : Room) : Prop :=
  r_rems r' !! id = r_rems r !! id ∧ dk_clock (r_desk r') = dk_clock (r_desk r) ∧
  dk_online (r_desk r') = dk_online (r_desk r) ∧ r_events r `prefix_of` r_events r' ∧ r_msgs r `prefix_of` r_msgs r'.

#[export] Instance untouched_preorder id : PreOrder (untouched id).
Proof.
  split; [by intros r|]. intros r1 r2 r3 (A1 & B1 & C1 & D1 & E1) (A2 & B2 & C2 & D2 & E2).
  split_and!; [congruence..|by etrans|by etrans].
Qed.

(** A delivery by itself: a wake, the next retry, or the end. *)
Lemma deliver_quiet `{CronLib} w x n r : (∀ r, w_others w 4 r = r) → (∀ r, w_others w 5 r = r) → deliver w x n r =
  (if dk_online (r_desk r) (re_agent x.2) then emit [NotifyWake (re_agent x.2)] (ClearRetry w x.1 r).1
   else match retryBackoff !! Z.to_nat n with
        | Some delay => (SetRetry w x.1 (n + 1) (dk_clock (r_desk r) + delay) (dk_clock (r_desk r)) r).1
        | None => (MarkMissedAndPostNotification w x.1 (next_fire x.2 (dk_clock (r_desk r))) r).1
        end, Ok tt).
Proof.
  intros H4 H5. unfold deliver, gap, mbind, M_bind. simpl. rewrite H4, H5. destruct (dk_online _ _).
  - unfold attempt. by destruct (ClearRetry _ _ _).
  - destruct (retryBackoff !! _); unfold miss, attempt; simpl; unfold mbind, M_bind; simpl.
    + by destruct (SetRetry _ _ _ _ _).
    + by destruct (MarkMissedAndPostNotification _ _ _ _).
Qed.

Section scans.
Context `{CronLib} (w : World).
Hypothesis on_its_own : alone w.

Lemma gap_alone {Er} n r : (gap w n : M Room Er unit) r = (r, Ok tt).
Proof. unfold gap, modify. by rewrite on_its_own. Qed.

Lemma gap_keeps_alone (P : Room → Room → Prop) `{!PreOrder P} {Er} n : keeps P (gap w n : M Room Er unit).
Proof. intros r. rewrite gap_alone. reflexivity. Qed.
#[local] Hint Resolve gap_keeps_alone : keeps.

Lemma alone_evolves n r : evolves r (w_others w n r).
Proof. rewrite on_its_own. reflexivity. Qed.

Lemma update_untouched name id id' p f : id' ≠ id → keeps (untouched id) (update_reminder w name id' p f).
Proof.
  intros Hne. apply update_reminder_keeps; [apply _|]. intros r x _ _. split_and!; try done.
  unfold r_rems. simpl. by rewrite lookup_insert_ne.
Qed.

Lemma post_reply_same convID root principal agent role content sender r r' m :
  post_reply w convID root principal agent role content sender r = Ok (r', m) →
  r_desk r' = r_desk r ∧ r_events r' = r_events r ∧ r_msgs r `prefix_of` r_msgs r'.
Proof. intros ([c Hi] & Hd & _ & _ & He & _)%post_reply_inserted. by split_and!; [..|eapply inserted_prefix]. Qed.

Lemma missed_untouched id id' next : id' ≠ id → keeps (untouched id) (MarkMissedAndPostNotification w id' next).
Proof.
  intros Hne. apply miss_keeps; [apply _|..].
  - intros r x _ _. split_and!; try done. unfold r_rems. simpl. by rewrite lookup_insert_ne.
  - intros r r' c o a ro t se m (Hd & He & Hm)%post_reply_same. unfold untouched, r_rems. by rewrite Hd, He.
  - intros es r. split_and!; try done. by apply prefix_app_r.
Qed.

Lemma deliver_untouched x n id : x.1 ≠ id → keeps (untouched id) (deliver w x n).
Proof.
  intros Hne. assert (keeps (untouched id) (modify (emit [NotifyWake (re_agent x.2)]) : M Room rerr unit)) as Hwake.
  { apply keeps_modify. intros r. split_and!; try done. by apply prefix_app_r. }
  unfold deliver, miss, ClearRetry, SetRetry. walk. all: by first [apply update_untouched|apply missed_untouched].
Qed.

Lemma fire_untouched now x id : x.1 ≠ id → keeps (untouched id) (fire w now x).
Proof. intros Hne. unfold fire, MarkDue. pose proof (deliver_untouched x 0 id Hne). pose proof update_untouched. walk. Qed.

Lemma deliver_alone x n r : deliver w x n r =
  (if dk_online (r_desk r) (re_agent x.2) then emit [NotifyWake (re_agent x.2)] (ClearRetry w x.1 r).1
   else match retryBackoff !! Z.to_nat n with
        | Some delay => (SetRetry w x.1 (n + 1) (dk_clock (r_desk r) + delay) (dk_clock (r_desk r)) r).1
        | None => (MarkMissedAndPostNotification w x.1 (next_fire x.2 (dk_clock (r_desk r))) r).1
        end, Ok tt).
Proof. by apply deliver_quiet. Qed.

Lemma deliver_runs x n r : ∃ r', deliver w x n r = (r', Ok tt).
Proof. rewrite deliver_alone. eauto. Qed.

Lemma fire_runs now x r : ∃ r', fire w now x r = (r', Ok tt).
Proof.
  unfold fire, attempt, mbind, M_bind. destruct (MarkDue _ _ _ _) as [r1 [u|e]]; [apply deliver_runs|by eexists].
Qed.

(** A scan treats each row of its list once, and the others do not touch it. *)
Lemma each_at (f : Row → M Room rerr unit) l r id x : NoDup l.*1 → (id, x) ∈ l →
  (∀ y r, ∃ r', f y r = (r', Ok tt)) → (∀ y, y.1 ≠ id → keeps (untouched id) (f y)) →
  (∀ y, y ∈ l → keeps evolves (f y)) →
  ∃ r1, untouched id r r1 ∧ evolves r r1 ∧
    untouched id (f (id, x) r1).1 (each w f l r).1 ∧ evolves (f (id, x) r1).1 (each w f l r).1.
Proof.
  intros Hnd Hin Hok Hun Hev. revert r. induction l as [|y l IH]; [by apply not_elem_of_nil in Hin|]. intros r.
  apply NoDup_cons in Hnd as [Hy Hnd]. simpl. unfold mbind, M_bind. rewrite gap_alone. destruct (Hok y r) as [r1 E]. rewrite E.
  apply elem_of_cons in Hin as [<-|Hin].
  - exists r. split; [done|]. split; [reflexivity|]. rewrite E. simpl in *. split; cycle 1.
    { apply each_evolves; [apply alone_evolves|]. intros y Hy'. by apply Hev, list_elem_of_further. }
    clear E Hok IH Hev. revert r1. assert (keeps (untouched id) (each w f l)) as K; [|apply K].
    induction l as [|z l IHl]; simpl; [wrapped|]. simpl in Hy. rewrite not_elem_of_cons in Hy. apply NoDup_cons in Hnd as [_ Hnd].
    destruct Hy as [Hz Hy]. specialize (Hun z (not_eq_sym Hz)). apply keeps_mbind; [apply _|wrapped|]. intros _.
    apply keeps_mbind; [apply _|done|]. intros _. by apply IHl.
  - assert (y.1 ≠ id) as Hne. { intros <-. apply Hy. apply (list_elem_of_fmap_2 fst _ (y.1, x)), Hin. }
    destruct (IH Hnd Hin (λ z Hz, Hev z (list_elem_of_further _ _ _ Hz)) r1) as (r2 & H1 & H2 & H3). exists r2.
    pose proof (Hun y Hne r) as U. pose proof (Hev y (list_elem_of_here _ _) r) as V. rewrite E in U, V. simpl in U, V.
    split; [by etrans|]. split; [by etrans|done].
Qed.

Lemma rows_nodup p (R : relation Row) `{!RelDecision R} r : NoDup (merge_sort R (rows w p r)).*1.
Proof.
  rewrite merge_sort_Permutation. apply NoDup_fmap_2_strong; [|apply NoDup_filter, NoDup_map_to_list].
  intros [i x] [j y] [Hx _]%elem_of_rows [Hy _]%elem_of_rows E. simpl in *. simplify_eq. congruence.
Qed.

(** *** The scan of what is due *)

Definition works (name : string) : Prop := d_fails (w_dir w) name = None.

Lemma rcall_works {A} name (a : A) : works name → rcall w name a = Ok a.
Proof. unfold works, rcall, call. by intros ->. Qed.

Lemma update_reminder_runs name id p f r x : works name → r_rems r !! id = Some x → p x = true →
  update_reminder w name id p f r = (set_rems <[id := f r x]> r, Ok true).
Proof. intros Hw Hx Hp. unfold update_reminder, ttx. by rewrite Hx, Hp, (rcall_works _ _ Hw). Qed.

Lemma bind_unit {Er A} (m : M Room Er A) r : (m ;; mret tt) r = ((m r).1, match (m r).2 with Ok _ => Ok tt | Err e => Err e end).
Proof. unfold mbind, M_bind. by destruct (m r) as [r' []]. Qed.

Lemma MarkDue_runs id r x t : works "MarkDue" → r_rems r !! id = Some x → re_status x = ReminderStatusPending →
  MarkDue w id t r = (set_rems <[id := due w t r x]> r, Ok tt).
Proof.
  intros Hw Hx Hs. unfold MarkDue. rewrite bind_unit, (update_reminder_runs _ _ _ _ _ x); [done..|]. by apply Z.eqb_eq.
Qed.

Lemma ClearRetry_runs id r x : works "ClearRetry" → r_rems r !! id = Some x → re_status x = ReminderStatusDue →
  ClearRetry w id r = (set_rems <[id := cleared w r x]> r, Ok tt).
Proof.
  intros Hw Hx Hs. unfold ClearRetry. rewrite bind_unit, (update_reminder_runs _ _ _ _ _ x); [done..|]. by apply Z.eqb_eq.
Qed.

Lemma SetRetry_runs id r x n t now : works "SetRetry" → r_rems r !! id = Some x → re_status x = ReminderStatusDue →
  SetRetry w id n t now r = (set_rems <[id := retried w n t now r x]> r, Ok tt).
Proof.
  intros Hw Hx Hs. unfold SetRetry. rewrite bind_unit, (update_reminder_runs _ _ _ _ _ x); [done..|]. by apply Z.eqb_eq.
Qed.

Lemma lookup_set_rems id x r : r_rems (set_rems <[id := x]> r) !! id = Some x.
Proof. unfold r_rems. simpl. by rewrite lookup_insert_eq. Qed.

(** A row that a scan does not list. *)
Lemma each_off (f : Row → M Room rerr unit) l id : (∀ y, y ∈ l → y.1 ≠ id) → (∀ y, y.1 ≠ id → keeps (untouched id) (f y)) →
  keeps (untouched id) (each w f l).
Proof.
  intros Hl Hf. induction l as [|y l IH]; simpl; [wrapped|]. apply keeps_mbind; [apply _|wrapped|]. intros _.
  apply keeps_mbind; [apply _|apply Hf, Hl, list_elem_of_here|]. intros _. apply IH. intros z Hz. by apply Hl, list_elem_of_further.
Qed.

Lemma scanDue_each r : works "ListDuePending" → scanDue w r =
  each w (fire w (dk_clock (r_desk r)))
    (merge_sort fire_le (rows w (λ x, has_status ReminderStatusPending x && (re_fire x <=? dk_clock (r_desk r))) r)) r.
Proof.
  intros Hw. unfold scanDue, clock, scan, ListDuePending, reads, attempt, gets, mbind, M_bind. by rewrite (rcall_works _ _ Hw).
Qed.

(** The row a fired reminder becomes. *)
Definition fired (online : bool) (now updated : Z) (x : Reminder) : Reminder :=
  MkRem (re_conv x) (re_agent x) (re_content x) (re_fire x) (re_cron x) (re_tz x) ReminderStatusDue (if online then 0 else 1)
    (if online then None else Some (now + 5 * Second)) (if online then None else Some now) (Some now) (re_completed x) (re_result x)
    (re_created x) updated.

(** [x0]: the row as it was listed. *)
Lemma fire_effect now r id x0 x : (∀ r, w_others w 4 r = r) → (∀ r, w_others w 5 r = r) → works "MarkDue" → works "ClearRetry" → works "SetRetry" →
  r_rems r !! id = Some x → re_status x = ReminderStatusPending → dk_clock (r_desk r) = now →
  let r' := (fire w now (id, x0) r).1 in let online := dk_online (r_desk r) (re_agent x0) in
  ∃ t, r_rems r' !! id = Some (fired online now t x) ∧ (online = true → NotifyWake (re_agent x0) ∈ r_events r').
Proof.
  intros H4 H5 W1 W2 W3 Hx Hs Hn. simpl. unfold fire, attempt, mbind, M_bind. simpl.
  rewrite (MarkDue_runs _ _ _ _ W1 Hx Hs), deliver_quiet by done. simpl. rewrite Hn.
  pose proof (lookup_set_rems id (due w now r x) r) as Hd. destruct (dk_online _ _).
  - rewrite (ClearRetry_runs _ _ _ W2 Hd eq_refl). exists (db_now w r). split.
    + apply lookup_set_rems.
    + intros _. apply elem_of_app. right. apply list_elem_of_here.
  - rewrite (SetRetry_runs _ _ _ _ _ _ W3 Hd eq_refl). exists (db_now w r). split; [apply lookup_set_rems|done].
Qed.

(** C26: The scan fires what is due.  When nothing else runs and the writes succeed, a
    pending reminder whose time has come is due after one scan, fired at that time:
    with its agent connected the agent has been woken and no retry is planned, and
    otherwise the first retry is planned five seconds later.  Every other reminder is
    as it was. *)
Theorem due_scan_fires r id x : works "ListDuePending" → works "MarkDue" → works "ClearRetry" → works "SetRetry" →
  r_rems r !! id = Some x → joined w x = true →
  let now := dk_clock (r_desk r) in let online := dk_online (r_desk r) (re_agent x) in let r' := (scanDue w r).1 in
  if has_status ReminderStatusPending x && (re_fire x <=? now)
  then ∃ t, r_rems r' !! id = Some (fired online now t x) ∧ (online = true → NotifyWake (re_agent x) ∈ r_events r')
  else r_rems r' !! id = Some x.
Proof.
  intros W1 W2 W3 W4 Hx Hj. simpl. rewrite scanDue_each by done. set (p := λ x, has_status _ x && _). set (now := dk_clock _).
  destruct (has_status ReminderStatusPending x && (re_fire x <=? now)) eqn:Ep.
  - destruct (each_at (fire w now) (merge_sort fire_le (rows w p r)) r id x) as (r1 & (U1 & U2 & U3 & _) & _ & (V1 & _ & _ & V4 & _) & _).
    + apply rows_nodup.
    + rewrite merge_sort_Permutation. by apply elem_of_rows.
    + intros. apply fire_runs.
    + intros. by apply fire_untouched.
    + intros y _. apply fire_evolves. apply alone_evolves.
    + rewrite Hx in U1. apply andb_true_iff in Ep as [Es%Z.eqb_eq _]. rewrite <- U3.
      destruct (fire_effect now r1 id x x) as (t & F1 & F2); [done..|]. exists t. rewrite V1. split; [done|].
      intros Ho. destruct V4 as [k ->]. apply elem_of_app. left. by apply F2.
  - rewrite <- Hx. assert (keeps (untouched id) (each w (fire w now) (merge_sort fire_le (rows w p r)))) as K; [|apply K].
    apply each_off; [|intros; by apply fire_untouched]. intros y Hy. rewrite merge_sort_Permutation in Hy.
    apply elem_of_rows in Hy as (Hy & _ & Hp). intros <-. rewrite Hx in Hy. unfold p, now in *. congruence.
Qed.
End scans.

(** ** An agent that stays away *)

Definition at_clock (t : Z) (r : Room) : Room := set_desk (λ k, MkDesk (dk_rems k) (dk_online k) t) r.

Lemma at_clock_evolves t r : evolves r (at_clock t r).
Proof. apply evolves_same; try done. apply cursors_refl. Qed.

(** A second passes, and both scans run. *)
Definition tick `{CronLib} (w : World) (r : Room) : Room :=
  (scanRetry w (scanDue w (at_clock (dk_clock (r_desk r) + Second) r)).1).1.

(** The reminder is due and its [n]-th retry is planned for [t]. *)
Record trying (w : World) (id : string) (n t : Z) (r : Room) : Prop := {
  try_ok : room_ok r;
  try_row : ∃ x, r_rems r !! id = Some x ∧ re_status x = ReminderStatusDue ∧ re_retry x = n ∧ re_next x = Some t ∧
              re_cron x = "" ∧ joined w x = true ∧ dk_online (r_desk r) (re_agent x) = false }.

Section retries.
Context `{CronLib} (w : World) (id : string).
Hypothesis on_its_own : alone w.
Hypothesis lists_work : works w "ListDueRetrying".
Hypothesis retry_works : works w "SetRetry".
Hypothesis miss_works : works w "MarkMissedAndPostNotification".
Hypothesis fresh_ids : ∀ l, w_uuid w l ∉ m_id <$> l.

Lemma scanRetry_each r : scanRetry w r =
  each w (λ x, deliver w x (re_retry x.2)) (merge_sort next_le (rows w (retrying (dk_clock (r_desk r))) r)) r.
Proof.
  unfold scanRetry, clock, scan, ListDueRetrying, reads, attempt, gets, mbind, M_bind. by rewrite (rcall_works _ _ _ lists_work).
Qed.

(** A scan does not touch the clock and the agents. *)
Lemma scanDue_outside r : dk_clock (r_desk (scanDue w r).1) = dk_clock (r_desk r) ∧ dk_online (r_desk (scanDue w r).1) = dk_online (r_desk r).
Proof.
  unfold scanDue, clock, scan, ListDuePending, reads, attempt, gets, mbind, M_bind. simpl.
  destruct (rcall _ _ _) as [l|] eqn:E; [|done]. apply rcall_ok_inv in E as ->. set (i := fresh (dom (r_rems r))).
  match goal with |- dk_clock (r_desk (each _ ?f ?l _).1) = _ ∧ _ => assert (keeps (untouched i) (each w f l)) as K end.
  { apply each_off; [done| |intros; by apply fire_untouched]. intros y Hy. rewrite merge_sort_Permutation in Hy.
    apply elem_of_rows in Hy as (Hy & _). intros E. apply (is_fresh (dom (r_rems r))). fold i. rewrite <- E. by eapply elem_of_dom_2. }
  destruct (K r) as (_ & ? & ? & _). done.
Qed.

(** The scan of pending reminders has no business with a due one. *)
Lemma scanDue_off r x : r_rems r !! id = Some x → re_status x = ReminderStatusDue → untouched id r (scanDue w r).1.
Proof.
  intros Hx Hs. unfold scanDue, clock, scan, ListDuePending, reads, attempt, gets, mbind, M_bind. simpl.
  destruct (rcall _ _ _) as [l|] eqn:E; [|reflexivity]. apply rcall_ok_inv in E as ->. revert r Hx.
  intros r Hx. match goal with |- untouched _ _ (each _ ?f ?l _).1 => assert (keeps (untouched id) (each w f l)) as K; [|apply K] end.
  apply each_off; [done| |intros; by apply fire_untouched]. intros y Hy. rewrite merge_sort_Permutation in Hy.
  apply elem_of_rows in Hy as (Hy & _ & Hp). intros <-.
  assert (y.2 = x) as Ey by congruence. rewrite Ey in Hp. unfold has_status in Hp. by rewrite Hs in Hp.
Qed.

Lemma scanRetry_off r x : r_rems r !! id = Some x → retrying (dk_clock (r_desk r)) x = false → untouched id r (scanRetry w r).1.
Proof.
  intros Hx Hs. rewrite scanRetry_each.
  match goal with |- untouched _ _ (each _ ?f ?l _).1 => assert (keeps (untouched id) (each w f l)) as K; [|apply K] end.
  apply each_off; [done| |intros; by apply deliver_untouched]. intros y Hy. rewrite merge_sort_Permutation in Hy.
  apply elem_of_rows in Hy as (Hy & _ & Hp). intros <-.
  assert (y.2 = x) as Ey by congruence. rewrite Ey in Hp. congruence.
Qed.

(** The row of a scan: its delivery, at tables that have it as it was. *)
Lemma scanRetry_at r x : room_ok r → r_rems r !! id = Some x → joined w x = true → retrying (dk_clock (r_desk r)) x = true →
  ∃ r1, untouched id r r1 ∧ room_ok r1 ∧
    untouched id (deliver w (id, x) (re_retry x) r1).1 (scanRetry w r).1 ∧ evolves (deliver w (id, x) (re_retry x) r1).1 (scanRetry w r).1.
Proof.
  intros Hok Hx Hj Hr. rewrite scanRetry_each.
  destruct (each_at w on_its_own (λ x, deliver w x (re_retry x.2)) (merge_sort next_le (rows w (retrying (dk_clock (r_desk r))) r)) r id x)
    as (r1 & U & V & X & Y).
  - apply rows_nodup.
  - rewrite merge_sort_Permutation. by apply elem_of_rows.
  - intros. by apply deliver_runs.
  - intros. by apply deliver_untouched.
  - intros y Hy. rewrite merge_sort_Permutation in Hy. apply elem_of_rows in Hy as (Hy & _). apply deliver_evolves.
    + by apply alone_evolves.
    + destruct Hok as (_ & _ & _ & D). apply D in Hy as [_ Hw]. apply Hw.
  - exists r1. split; [done|]. split; [by apply V|]. by split.
Qed.

Lemma tick_room r : room_ok r → room_ok (tick w r).
Proof.
  intros Hr. unfold tick. apply scanRetry_evolves; [by apply alone_evolves|]. apply scanDue_evolves; [by apply alone_evolves|].
  by apply at_clock_evolves.
Qed.

(** The tables the scan of retries starts from. *)
Lemma tick_mid n t r : trying w id n t r →
  let r1 := (scanDue w (at_clock (dk_clock (r_desk r) + Second) r)).1 in
  trying w id n t r1 ∧ dk_clock (r_desk r1) = dk_clock (r_desk r) + Second.
Proof.
  intros [Hok (x & Hx & Hs & Hrow)]. simpl. set (r0 := at_clock _ r).
  destruct (scanDue_off r0 x Hx Hs) as (U1 & U2 & U3 & _). rewrite U2. split; [|done].
  split; [apply scanDue_evolves; [by apply alone_evolves|by apply at_clock_evolves]|]. exists x. rewrite U1, U3. done.
Qed.

Lemma tick_early n t r : trying w id n t r → dk_clock (r_desk r) + Second < t →
  trying w id n t (tick w r) ∧ dk_clock (r_desk (tick w r)) = dk_clock (r_desk r) + Second.
Proof.
  intros Ht Hlt. pose proof (tick_room r (try_ok _ _ _ _ _ Ht)) as Hok. apply tick_mid in Ht as [Ht Hc]. unfold tick in *.
  set (r1 := (scanDue _ _).1) in *. destruct Ht as [_ (x & Hx & Hs & Hn & Hnext & Hrow)].
  destruct (scanRetry_off r1 x Hx) as (U1 & U2 & U3 & _).
  { unfold retrying. rewrite Hnext, Hc. apply andb_false_iff. right. apply Z.leb_gt. lia. }
  rewrite U2, Hc. split; [|done]. split; [done|]. exists x. rewrite U1, U3. done.
Qed.

Lemma tick_late n t d r : trying w id n t r → t ≤ dk_clock (r_desk r) + Second → retryBackoff !! Z.to_nat n = Some d →
  trying w id (n + 1) (dk_clock (r_desk r) + Second + d) (tick w r) ∧ dk_clock (r_desk (tick w r)) = dk_clock (r_desk r) + Second.
Proof.
  intros Ht Hle Hd. pose proof (tick_room r (try_ok _ _ _ _ _ Ht)) as Hok. apply tick_mid in Ht as [[Hok1 Ht] Hc]. unfold tick in *.
  set (r1 := (scanDue _ _).1) in *. destruct Ht as (x & Hx & Hs & Hn & Hnext & Hcron & Hj & Hoff).
  destruct (scanRetry_at r1 x Hok1 Hx Hj) as (r2 & (U1 & U2 & U3 & _) & _ & (V1 & V2 & V3 & _) & _).
  { unfold retrying, has_status. rewrite Hnext, Hc, Hs. apply Z.leb_le. lia. }
  rewrite Hx in U1. rewrite deliver_alone, Hn in V1, V2, V3 by done. simpl in V1, V2, V3. rewrite U3, Hoff, Hd in V1, V2, V3.
  rewrite (SetRetry_runs _ _ _ _ _ _ _ retry_works U1 Hs) in V1, V2, V3. simpl in V2, V3. rewrite V2, U2, Hc. split; [|done].
  split; [done|]. eexists. rewrite V1. split; [apply lookup_set_rems|]. simpl. rewrite V3, U3, U2, Hc. done.
Qed.

(** A reply under a message of a conversation goes through unless the conversation
    has no version left. *)
Lemma numbered_conv r m : numbered r → m ∈ r_msgs r → ∃ c, room_conv r (m_conv m) = Some c.
Proof.
  intros Hn Hm. specialize (Hn (m_conv m)). destruct (room_conv r (m_conv m)) as [c|]; [by exists c|].
  assert (m_version m ∈ versions r (m_conv m)) as Hv by by apply list_elem_of_fmap_2, list_elem_of_filter.
  rewrite Hn in Hv. by apply not_elem_of_nil in Hv.
Qed.

Lemma post_reply_runs convID principal agent role content sender r c : room_conv r convID = Some c → cv_version c ≠ MaxInt64 →
  id ∈ m_id <$> r_msgs r → ∃ r' m, post_reply w convID id principal agent role content sender r = Ok (r', m).
Proof.
  intros Hc Hv Hid. unfold post_reply, bump_version. rewrite Hc, (proj2 (Z.eqb_neq _ _) Hv).
  unfold createChatMessageInTx. simpl. rewrite bool_decide_eq_false_2 by apply fresh_ids. rewrite bool_decide_eq_true_2 by done. simpl. eauto.
Qed.

Lemma miss_full r x c : r_rems r !! id = Some x → re_status x = ReminderStatusDue → room_conv r (re_conv x) = Some c →
  cv_version c = MaxInt64 → (MarkMissedAndPostNotification w id None r).1 = r.
Proof.
  intros Hx Hs Hc Hv. unfold MarkMissedAndPostNotification, mbind, M_bind, ttx, miss_tx. rewrite Hx. unfold has_status. rewrite Hs. simpl.
  unfold system_reply, post_reply, bump_version. unfold room_conv in *. simpl. by rewrite Hc, Hv.
Qed.

(** What a miss leaves: the status and a notice that speaks of 0 retries. *)
Definition missed_for_good (r : Room) : Prop :=
  ∃ x m, r_rems r !! id = Some x ∧ re_status x = ReminderStatusMissed ∧ m ∈ r_msgs r ∧ m_root m = Some id ∧
    m_conv m = re_conv x ∧ m_sender m = SenderTypeSystem ∧ m_content m = missed_text 0.

Definition no_version_left (r : Room) : Prop :=
  ∃ x c, r_rems r !! id = Some x ∧ room_conv r (re_conv x) = Some c ∧ MaxInt64 ≤ cv_version c.

Lemma miss_effect r x c : r_rems r !! id = Some x → re_status x = ReminderStatusDue → room_conv r (re_conv x) = Some c →
  cv_version c ≠ MaxInt64 → id ∈ m_id <$> r_msgs r → missed_for_good (MarkMissedAndPostNotification w id None r).1.
Proof.
  intros Hx Hs Hc Hv Hid. unfold MarkMissedAndPostNotification, mbind, M_bind, ttx, miss_tx. rewrite Hx. unfold has_status. rewrite Hs. simpl.
  set (r1 := set_rems _ r). destruct (post_reply_runs (re_conv x) 1 None 1 (missed_text 0) SenderTypeSystem r1 c) as (r2 & m & E); [done..|].
  unfold system_reply. rewrite E, (rcall_works _ _ _ miss_works). apply post_reply_inserted in E as ([c' Hi] & Hd & _ & _ & _ & F1 & F2 & _ & F3).
  match goal with |- missed_for_good ?r' => assert (r' = emit [NotifyConversation (re_conv x)] r2) as -> end.
  { unfold GetReminder, reads. by destruct (match _ with Some _ => _ | None => _ end). }
  destruct Hi as (_ & Hconv & _ & _ & _ & Hm & _). exists (missed w None r x), m. unfold r_rems. simpl. rewrite Hd, Hm. split; [apply lookup_set_rems|].
  split_and!; try done. apply elem_of_app. right. apply list_elem_of_here.
Qed.

Lemma tick_last t r : trying w id 5 t r → t ≤ dk_clock (r_desk r) + Second → missed_for_good (tick w r) ∨ no_version_left (tick w r).
Proof.
  intros Ht Hle. apply tick_mid in Ht as [[Hok1 Ht] Hc]. unfold tick in *.
  set (r1 := (scanDue _ _).1) in *. destruct Ht as (x & Hx & Hs & Hn & Hnext & Hcron & Hj & Hoff).
  destruct (scanRetry_at r1 x Hok1 Hx Hj) as (r2 & (U1 & U2 & U3 & _) & Hok2 & (V1 & _ & _ & _ & V5) & V).
  { unfold retrying, has_status. rewrite Hnext, Hc, Hs. apply Z.leb_le. lia. }
  rewrite Hx in U1. pose proof Hok2 as (_ & Hnum & _ & D). destruct (D _ _ U1) as [(m & Hm & Hid & Hconv & _) _].
  destruct (numbered_conv _ _ Hnum Hm) as [c Hcv]. rewrite Hconv in Hcv.
  rewrite deliver_alone, Hn in V1, V5, V by done. simpl in V1, V5, V. rewrite U3, Hoff in V1, V5, V.
  unfold next_fire in V1, V5, V. simpl in V1, V5, V. rewrite Hcron in V1, V5, V. simpl in V1, V5, V.
  destruct (decide (cv_version c = MaxInt64)) as [Hmax|Hmax].
  - right. rewrite (miss_full _ _ _ U1 Hs Hcv Hmax) in V1, V. destruct (V Hok2) as [_ (_ & G & _)].
    destruct (G _ _ Hcv) as (c' & Hc' & Hge). exists x, c'. rewrite V1. split_and!; [done..|lia].
  - left. assert (id ∈ m_id <$> r_msgs r2) as Hin by (rewrite <- Hid; by apply list_elem_of_fmap_2).
    destruct (miss_effect r2 x c U1 Hs Hcv Hmax Hin) as (y & m' & W1 & W2 & W3 & W4).
    exists y, m'. rewrite V1. split; [done|]. split; [done|]. split; [|done]. destruct V5 as [k ->]. apply elem_of_app. by left.
Qed.

(** The retry that is planned [k] seconds after the fire, and its second. *)
Definition plan (k : Z) : Z * Z :=
  if k <? 5 then (1, 5) else if k <? 15 then (2, 15) else if k <? 35 then (3, 35) else if k <? 65 then (4, 65) else (5, 125).

Definition after (k : nat) (r : Room) : Room := Nat.iter k (tick w) r.

Lemma after_S k r : after (S k) r = tick w (after k r).
Proof. done. Qed.

Lemma plan_step k : 0 ≤ k < 124 →
  (k + 1 < (plan k).2 ∧ plan (k + 1) = plan k) ∨
  ((plan k).2 = k + 1 ∧ ∃ d, retryBackoff !! Z.to_nat (plan k).1 = Some (d * Second) ∧ plan (k + 1) = ((plan k).1 + 1, k + 1 + d)).
Proof.
  intros Hk. unfold plan. repeat case_match; rewrite ?Z.ltb_lt, ?Z.ltb_ge in *; simplify_eq/=; try lia; try (left; split; [lia|done]).
  - right. assert (k = 4) as -> by lia. split; [done|]. exists 10. split; reflexivity.
  - right. assert (k = 14) as -> by lia. split; [done|]. exists 20. split; reflexivity.
  - right. assert (k = 34) as -> by lia. split; [done|]. exists 30. split; reflexivity.
  - right. assert (k = 64) as -> by lia. split; [done|]. exists 60. split; reflexivity.
Qed.

Lemma after_trying r k : trying w id 1 (dk_clock (r_desk r) + 5 * Second) r → (k ≤ 124)%nat →
  trying w id (plan (Z.of_nat k)).1 (dk_clock (r_desk r) + (plan (Z.of_nat k)).2 * Second) (after k r) ∧
  dk_clock (r_desk (after k r)) = dk_clock (r_desk r) + Z.of_nat k * Second.
Proof.
  intros Hr Hk. induction k as [|k IH]; [split; [done|simpl; lia]|]. destruct IH as [Ht Hc]; [lia|].
  set (t0 := dk_clock (r_desk r)) in *. rewrite after_S, Nat2Z.inj_succ. unfold Z.succ.
  destruct (plan_step (Z.of_nat k)) as [[Hlt ->]|(He & d & Hd & ->)]; [lia| |].
  - destruct (tick_early _ _ _ Ht) as [T C]; [rewrite Hc; unfold Second in *; lia|]. split; [done|]. rewrite C, Hc. unfold Second. lia.
  - destruct (tick_late _ _ (d * Second) _ Ht) as [T C]; [rewrite Hc, He; unfold Second; lia|done|]. rewrite Hc in T, C. split.
    + simpl. replace (t0 + (Z.of_nat k + 1 + d) * Second) with (t0 + Z.of_nat k * Second + Second + d * Second) by (unfold Second; lia). done.
    + rewrite C. unfold Second. lia.
Qed.

(** C13: An agent that stays away is tried five times more.  A one-shot reminder fires
    while its agent's machine is not connected, nothing else runs and the writes
    succeed: for 124 seconds of scans it stays due, its retries planned for 5, 15, 35,
    65 and 125 seconds after the fire, and with the scan of second 125 it is missed,
    with a notice in its thread - unless its conversation has run out of versions.  The
    notice always says that there were 0 retries: MarkMissedAndPostNotification reads
    the counter it has just cleared. *)
Theorem offline_reminder_is_missed r x : works w "ListDuePending" → works w "MarkDue" → works w "ClearRetry" → room_ok r →
  r_rems r !! id = Some x → re_status x = ReminderStatusPending → re_fire x ≤ dk_clock (r_desk r) → re_cron x = "" →
  joined w x = true → dk_online (r_desk r) (re_agent x) = false →
  let r1 := (scanDue w r).1 in
  (∀ k, (k ≤ 124)%nat → ∃ y, r_rems (after k r1) !! id = Some y ∧ re_status y = ReminderStatusDue ∧
     re_retry y = (plan (Z.of_nat k)).1 ∧ re_next y = Some (dk_clock (r_desk r) + (plan (Z.of_nat k)).2 * Second)) ∧
  (missed_for_good (after 125 r1) ∨ no_version_left (after 125 r1)).
Proof.
  intros W1 W2 W3 Hok Hx Hs Hf Hcron Hj Hoff r1. pose proof (due_scan_fires w on_its_own r id x W1 W2 W3 retry_works Hx Hj) as Hfire.
  cbv zeta in Hfire. unfold has_status in Hfire. rewrite Hs, (proj2 (Z.leb_le _ _) Hf), Hoff in Hfire. destruct Hfire as (t & Hrow & _).
  destruct (scanDue_outside r) as [Hc Ho].
  assert (trying w id 1 (dk_clock (r_desk r1) + 5 * Second) r1) as Ht.
  { split; [by apply scanDue_evolves; [apply alone_evolves|]|]. eexists. split; [exact Hrow|]. unfold r1. rewrite Hc, Ho. done. }
  rewrite <- Hc. fold r1. split.
  - intros k Hk. destruct (after_trying r1 k Ht Hk) as [[_ (y & Hy)] _]. exists y. tauto.
  - rewrite (after_S 124). destruct (after_trying r1 124 Ht) as [T C]; [lia|]. generalize dependent (after 124 r1). intros r2 T C.
    apply (tick_last _ _ T). rewrite C. unfold plan, Second. simpl. lia.
Qed.
End retries.

(** ** A reminder that ended stays so *)

Definition closed (x : Reminder) : bool :=
  has_status ReminderStatusCompleted x || has_status ReminderStatusCancelled x || has_status ReminderStatusFailed x.

Definition closed_stays (r r' : Room) : Prop := ∀ id x, r_rems r !! id = Some x → closed x = true → r_rems r' !! id = Some x.

#[export] Instance closed_stays_preorder : PreOrder closed_stays.
Proof. split; [by intros r id x|]. intros r1 r2 r3 H12 H23 id x Hx Hc. by apply H23; [apply H12|]. Qed.

Lemma desk_closed r r' : desk_same r r' → closed_stays r r'.
Proof. intros Hd id x Hx _. unfold r_rems. by rewrite Hd. Qed.

(** No request about messages or tasks touches the reminders. *)
#[export] Instance desk_kept w : Kept w desk_same.
Proof.
  split; [apply _|done|intros; apply keeps_tx; [apply _|]; intros r r' a E..|intros; apply CreateChat_desk|intros; apply CreateTask_desk].
  - destruct (room_conv r convID); [|done]. apply call_ok_inv in E. by simplify_eq.
  - destruct ids; [by simplify_eq|]. apply call_ok_inv in E. by simplify_eq.
  - destruct ids; [by simplify_eq|]. apply call_ok_inv in E. by simplify_eq.
  - apply call_ok_inv in E. by simplify_eq.
Qed.

#[export] Instance desk_kept_tasks w : KeptTasks w desk_same.
Proof.
  split; [apply _| | |done].
  - intros name id p f none _ r. destruct (update_task w name id p f none r) as [r' [[]|e]] eqn:E.
    + by apply update_task_inv in E as (t & _ & _ & _ & ->).
    + unfold update_task, ttx in E. case_all E. all: reflexivity.
  - intros msgID convID. unfold ConvertMessageToTask. apply keeps_mbind; [apply _| |intros; apply GetTaskMessage_keeps; apply _].
    apply keeps_ttx; [apply _|]. intros r r' a E. unfold bump_number, createTaskRowInTx, tcall in E. case_all E.
    all: match goal with H : call _ _ _ = Ok _ |- _ => apply call_ok_inv in H end; by simplify_eq/=.
Qed.

Lemma desk_keeps_closed {Er A} (m : M Room Er A) : keeps desk_same m → keeps closed_stays m.
Proof. intros Hm r. apply desk_closed, Hm. Qed.

#[export] Instance closed_kept_tasks w : KeptTasks w closed_stays.
Proof.
  pose proof desk_kept_tasks w as [[K1 K2 K3 K4 K5 K6 K7 K8] K9 K10 K11].
  split; [split; [apply _|..]|..]; intros; try (by apply desk_closed); by apply desk_keeps_closed; auto.
Qed.

Lemma set_closed_stays id x r : (∀ y, r_rems r !! id = Some y → closed y = false) → closed_stays r (set_rems <[id := x]> r).
Proof.
  intros Ho i y Hy Hc. unfold r_rems. simpl. rewrite lookup_insert_ne; [done|]. intros <-. apply Ho in Hy. congruence.
Qed.

Lemma open_due x : has_status ReminderStatusDue x = true → closed x = false.
Proof. unfold closed, has_status. intros ->%Z.eqb_eq. done. Qed.

Lemma open_pending x : has_status ReminderStatusPending x = true → closed x = false.
Proof. unfold closed, has_status. intros ->%Z.eqb_eq. done. Qed.

Section closing.
Context `{CronLib} (w : World).
Hypothesis others_keep : ∀ n r, closed_stays r (w_others w n r).
(** Nothing between the two statements of UpdateReminderFields. *)
Hypothesis edits_alone : ∀ r, w_others w 2 r = r.

Lemma gap_closed {Er} n : keeps closed_stays (gap w n : M Room Er unit).
Proof. apply keeps_modify. apply others_keep. Qed.
#[local] Hint Resolve gap_closed : keeps.

Lemma update_closed name id p f : (∀ x, p x = true → closed x = false) → keeps closed_stays (update_reminder w name id p f).
Proof.
  intros Hp. apply update_reminder_keeps; [apply _|]. intros r x Hx Hpx. apply set_closed_stays. intros y Hy.
  assert (y = x) as -> by congruence. by apply Hp.
Qed.

Lemma cancellable_open x : cancellable x = true → closed x = false.
Proof. unfold cancellable, closed, has_status. intros [[->%Z.eqb_eq| ->%Z.eqb_eq]%orb_true_iff| ->%Z.eqb_eq]%orb_true_iff; done. Qed.

Lemma due_update_closed name id f : keeps closed_stays (update_reminder w name id (has_status ReminderStatusDue) f).
Proof. apply update_closed, open_due. Qed.
Lemma pending_update_closed name id f : keeps closed_stays (update_reminder w name id (has_status ReminderStatusPending) f).
Proof. apply update_closed, open_pending. Qed.
Lemma cancel_closed name id f : keeps closed_stays (update_reminder w name id cancellable f).
Proof. apply update_closed, cancellable_open. Qed.
#[local] Hint Resolve due_update_closed pending_update_closed cancel_closed : keeps.

Lemma reply_closed convID root principal agent role content sender r r' m :
  post_reply w convID root principal agent role content sender r = Ok (r', m) → closed_stays r r'.
Proof. intros (_ & Hd & _)%post_reply_inserted. by apply desk_closed. Qed.

Lemma end_closed id f r x : r_rems r !! id = Some x → has_status ReminderStatusDue x = true →
  closed_stays r (set_rems <[id := f r x]> r).
Proof. intros Hx Hd. apply set_closed_stays. intros y Hy. assert (y = x) as -> by congruence. by apply open_due. Qed.

Lemma complete_closed id result label s next : keeps closed_stays (completeReminderTx w id result label s next).
Proof.
  apply complete_keeps; [apply _|apply (end_closed id (completed w result s next))|intros *; by apply reply_closed|by intros; apply desk_closed].
Qed.

Lemma missed_closed id next : keeps closed_stays (MarkMissedAndPostNotification w id next).
Proof. apply miss_keeps; [apply _|apply (end_closed id (missed w next))|intros *; by apply reply_closed|by intros; apply desk_closed]. Qed.

Lemma convert_closed id convID agent content t c tz :
  keeps closed_stays (ConvertMessageToReminder w id convID agent content t c tz).
Proof.
  unfold ConvertMessageToReminder. apply keeps_mbind; [apply _| |wrapped].
  apply keeps_ttx; [apply _|]. intros r r' a E. destruct (r_rems r !! id) eqn:Ex; [done|].
  destruct (room_conv r convID); [|done]. destruct (w_agents w agent); [|done]. destruct (bool_decide _); [|done].
  apply rcall_ok_inv in E. simplify_eq. apply set_closed_stays. intros y Hy. congruence.
Qed.

(** The edit: the row has the status that was read. *)
Lemma edit_closed id t c tz s : keeps closed_stays (UpdateReminderFields w id t c tz s).
Proof.
  intros r. unfold UpdateReminderFields, reads. unfold mbind at 1, M_bind at 1. destruct (r_rems r !! id) as [x|] eqn:Ex; [|reflexivity].
  destruct (rcall _ _ _) as [st|] eqn:E; [|reflexivity]. apply rcall_ok_inv in E as ->. destruct (negb _) eqn:Es; [reflexivity|].
  unfold mbind at 1, M_bind at 1, gap, modify. rewrite edits_alone. unfold mbind at 1, M_bind at 1.
  assert (closed x = false) as Hc.
  { apply negb_false_iff in Es. apply cancellable_open. exact Es. }
  assert (∀ f, closed_stays r (update_reminder w "UpdateReminderFields" id any_reminder f r).1) as Hu.
  { intros f. destruct (update_reminder _ _ _ _ _ r) as [r1 [b|e]] eqn:E1; simpl.
    - apply update_reminder_inv in E1 as [(y & Hy & _ & _ & ->)|(_ & _ & ->)]; [|reflexivity].
      apply set_closed_stays. intros z Hz. congruence.
    - unfold update_reminder, ttx in E1. case_all E1. all: reflexivity. }
  specialize (Hu (edited w t c tz s (if (re_status x =? ReminderStatusDue) || (re_status x =? ReminderStatusMissed) then ReminderStatusPending else re_status x))).
  destruct (update_reminder _ _ _ _ _ r) as [r1 [b|e]]; [|exact Hu]. etrans; [exact Hu|]. apply GetReminder_keeps. apply _.
Qed.
#[local] Hint Resolve complete_closed missed_closed convert_closed edit_closed : keeps.

Lemma text_closed convID root text : keeps closed_stays (postReminderSystemMessage w convID root text).
Proof. unfold postReminderSystemMessage. walk. Qed.
#[local] Hint Resolve text_closed check_schedule_keeps owner_keeps fire_at_keeps new_fire_keeps : keeps.

Lemma wake_closed a : keeps closed_stays (modify (emit [NotifyWake a]) : M Room rerr unit).
Proof. apply keeps_modify. intros r. by apply desk_closed. Qed.
#[local] Hint Resolve wake_closed : keeps.

Lemma deliver_closed x n : keeps closed_stays (deliver w x n).
Proof. unfold deliver, miss, ClearRetry, SetRetry. walk. Qed.
#[local] Hint Resolve deliver_closed : keeps.

Lemma each_closed f l : (∀ x, keeps closed_stays (f x)) → keeps closed_stays (each w f l).
Proof. intros Hf. induction l as [|x l IH]; simpl; walk. Qed.

Lemma scans_closed : keeps closed_stays (scanDue w) ∧ keeps closed_stays (scanRetry w).
Proof.
  split; unfold scanDue, scanRetry, scan, ListDuePending, ListDueRetrying; walk; apply each_closed; intros y; unfold fire, MarkDue; walk.
Qed.

Lemma schedule_closed caller m req : keeps closed_stays (handle_schedule w caller m req).
Proof. unfold handle_schedule, IsThreadRoot, query. walk. Qed.
Lemma edits_closed caller name req : keeps closed_stays (handle_edit_reminder w caller name req).
Proof. unfold handle_edit_reminder. walk. Qed.
Lemma cancels_closed caller name : keeps closed_stays (handle_cancel_reminder w caller name).
Proof. unfold handle_cancel_reminder, CancelReminder. walk. Qed.
Lemma completes_closed caller name result : keeps closed_stays (handle_complete_reminder w caller name result).
Proof. unfold handle_complete_reminder, CompleteReminderAndPostNotification, nextFireOrNil. walk. Qed.
Lemma fails_closed caller name error : keeps closed_stays (handle_fail_reminder w caller name error).
Proof. unfold handle_fail_reminder, FailReminderAndPostNotification, nextFireOrNil. walk. Qed.
End closing.

(** ** Where a reminder goes astray *)

Section astray.
Context `{CronLib} (w : World).

(** C32: A raced edit brings a reminder back.  UpdateReminderFields reads the status and
    then writes the row by its id alone: whatever happened to the reminder in between,
    it is pending again, with the edit's time - a reminder its agent has just completed
    or a user has just cancelled fires once more. *)
Theorem raced_edit_revives id t c tz s r x y : works w "UpdateReminderFields" →
  r_rems r !! id = Some x → cancellable x = true → r_rems (w_others w 2 r) !! id = Some y → closed y = true →
  let r' := (UpdateReminderFields w id t c tz s r).1 in
  ∃ z, r_rems r' !! id = Some z ∧ re_status z = ReminderStatusPending ∧ re_fire z = t ∧ r_msgs r' = r_msgs (w_others w 2 r).
Proof.
  intros Hw Hx Hc Hy _. unfold UpdateReminderFields, reads, gap, modify, mbind, M_bind. rewrite Hx, (rcall_works _ _ _ Hw).
  change (negb _) with (negb (cancellable x)). rewrite Hc. simpl.
  rewrite (update_reminder_runs _ _ _ _ _ _ y Hw Hy eq_refl). simpl. rewrite (edit_status (re_status x)).
  - eexists. unfold GetReminder, reads. simpl. split; [apply lookup_set_rems|done].
  - apply negb_false_iff. exact Hc.
Qed.

(** A postponed reminder fires all the same.  An edit that moves a reminder to a
    later time after the scan has listed it, and before the scan marks it, does not
    stop it: MarkDue asks only for a pending row, and the reminder is due before its
    time. *)
Theorem postponed_reminder_fires id x y r : works w "ListDuePending" → works w "MarkDue" → works w "ClearRetry" → works w "SetRetry" →
  (∀ r, w_others w 4 r = r) → (∀ r, w_others w 5 r = r) →
  r_rems r = {[id := x]} → joined w x = true → re_status x = ReminderStatusPending → re_fire x ≤ dk_clock (r_desk r) →
  r_rems (w_others w 3 r) !! id = Some y → re_status y = ReminderStatusPending →
  dk_clock (r_desk (w_others w 3 r)) = dk_clock (r_desk r) → dk_clock (r_desk r) < re_fire y →
  ∃ z, r_rems (scanDue w r).1 !! id = Some z ∧ re_status z = ReminderStatusDue ∧ re_fire z = re_fire y ∧
    re_fired z = Some (dk_clock (r_desk r)) ∧ dk_clock (r_desk r) < re_fire z.
Proof.
  intros W1 W2 W3 W4 H4 H5 Hr Hj Hs Hf Hy Hys Hclock Hlt. rewrite scanDue_each by done. unfold rows. rewrite Hr, map_to_list_singleton.
  rewrite filter_cons_True, filter_nil by (simpl; unfold has_status; rewrite Hj, Hs; simpl; by apply Z.leb_le).
  change (merge_sort fire_le [(id, x)]) with [(id, x)]. simpl. unfold gap, modify, mbind, M_bind. simpl.
  destruct (fire_effect w (dk_clock (r_desk r)) (w_others w 3 r) id x y) as (u & F & _); [done..|].
  destruct (fire w _ (id, x) (w_others w 3 r)) as [r2 [[]|e]] eqn:E; simpl; eauto 10.
Qed.

(** C33: A retry that was not written is never made up for.  When the scan has marked a
    reminder due and the write of its first retry fails (or the server stops there), the
    row is due with no retry planned, and no later scan, however long, tries its agent
    again or gives it up: only a session of the agent finds it. *)
Theorem unplanned_retry_is_forgotten (later : World) id x r k : alone w → works w "ListDuePending" → works w "MarkDue" → ¬ works w "SetRetry" →
  alone later → works later "ListDueRetrying" →
  r_rems r !! id = Some x → joined w x = true → re_status x = ReminderStatusPending → re_fire x ≤ dk_clock (r_desk r) →
  dk_online (r_desk r) (re_agent x) = false →
  ∃ z, r_rems (after later k (scanDue w r).1) !! id = Some z ∧ re_status z = ReminderStatusDue ∧ re_retry z = 0 ∧ re_next z = None.
Proof.
  intros Hw W1 W2 W3 Hl L1 Hx Hj Hs Hf Hoff.
  assert (∃ z, r_rems (scanDue w r).1 !! id = Some z ∧ re_status z = ReminderStatusDue ∧ re_retry z = 0 ∧ re_next z = None) as (z & Hz & Hrow).
  { rewrite scanDue_each by done. set (now := dk_clock (r_desk r)).
    destruct (each_at w Hw (fire w now) (merge_sort fire_le (rows w (λ x, has_status ReminderStatusPending x && (re_fire x <=? now)) r)) r id x)
      as (r1 & (U1 & U2 & U3 & _) & _ & (V1 & _) & _).
    - apply rows_nodup.
    - rewrite merge_sort_Permutation. apply elem_of_rows. simpl. unfold has_status. rewrite Hs. split_and!; [done..|simpl; by apply Z.leb_le].
    - intros. by apply fire_runs.
    - intros. by apply fire_untouched.
    - intros y _. apply fire_evolves. by apply alone_evolves.
    - rewrite V1. rewrite Hx in U1. unfold fire, attempt, mbind, M_bind. simpl. rewrite (MarkDue_runs _ _ _ _ _ W2 U1 Hs), deliver_alone by done.
      simpl. rewrite U3, Hoff. change (retryBackoff !! _) with (Some (5 * Second)). unfold SetRetry. rewrite bind_unit. simpl.
      assert (∀ n t u rr, (update_reminder w "SetRetry" id (has_status ReminderStatusDue) (retried w n t u) rr).1 = rr) as Hfail.
      { intros n t u rr. unfold works in W3. unfold update_reminder, ttx, rcall, call.
        destruct (d_fails (w_dir w) "SetRetry"); [|done]. repeat case_match; done. }
      rewrite Hfail. eexists. split; [apply lookup_set_rems|done]. }
  induction k as [|k (y & Hy & Hd & Hn & Hne)]; [by exists z|]. rewrite after_S. unfold tick. set (r0 := at_clock _ _).
  destruct (scanDue_off later id Hl r0 y Hy Hd) as (U0 & _).
  assert (r_rems (scanDue later r0).1 !! id = Some y) as U1 by (etrans; [exact U0|exact Hy]).
  set (r1 := (scanDue later r0).1) in *. destruct (scanRetry_off later id Hl L1 r1 y U1) as (U & _).
  - unfold retrying. rewrite Hne. apply andb_false_r.
  - exists y. by rewrite U.
Qed.

(** *** Completions *)

Lemma complete_idle id result label s next r : (∀ x, r_rems r !! id = Some x → re_status x ≠ ReminderStatusDue) →
  (completeReminderTx w id result label s next r).1 = r.
Proof.
  intros Hr. unfold completeReminderTx, ttx, mbind, M_bind. assert (complete_tx w id result label s next r = Ok (r, [])) as ->.
  { unfold complete_tx. destruct (r_rems r !! id) as [x|]; [|done]. unfold has_status. by rewrite (proj2 (Z.eqb_neq _ _) (Hr x eq_refl)). }
  unfold GetReminder, reads. simpl. by destruct (match _ with Some _ => _ | None => _ end).
Qed.

(** What a request to complete or to fail does at the tables. *)
Definition ends (caller : Caller) (name result : string) (s : Z) (r r' : Room) (v : V1Reminder) : Prop :=
  ∃ id x a label y, parseReminderName w name = Ok id ∧ r_rems r !! id = Some x ∧ by_agent caller = Some a ∧ ag_id a = re_agent x ∧
    completeReminderTx w id result label s (next_fire x (dk_clock (r_desk r))) r = (r', Ok y).

Lemma GetReminder_inv id r r' x : GetReminder w id r = (r', Ok x) → r' = r ∧ x.1 = id ∧ r_rems r !! id = Some x.2.
Proof.
  unfold GetReminder, reads. intros E. injection E as <- E. destruct (r_rems r !! id) as [z|]; [|done].
  destruct (joined w z); [|done]. apply rcall_ok_inv in E. by subst.
Qed.

Lemma requireReminderOwner_inv caller x r r' : requireReminderOwner caller x r = (r', Ok tt) →
  r' = r ∧ ∃ a, by_agent caller = Some a ∧ ag_id a = re_agent x.2.
Proof.
  unfold requireReminderOwner, guard_. intros E. destruct (by_agent caller) as [a|]; [|done].
  destruct (ag_id a =? re_agent x.2) eqn:Ea; [|done]. apply Z.eqb_eq in Ea. injection E as <-. split; [done|]. by exists a.
Qed.

Lemma handle_complete_ends caller name result r r' v : alone w → handle_complete_reminder w caller name result r = (r', Ok v) →
  ends caller name result ReminderStatusCompleted r r' v.
Proof.
  intros Hw. unfold handle_complete_reminder. intros (r1 & id & E1 & E)%bind_ok_inv. injection E1 as -> E1.
  apply bind_ok_inv in E as (r2 & x & (-> & <- & Hx)%mapped_ok%GetReminder_inv & E).
  apply bind_ok_inv in E as (r3 & [] & (-> & a & Ha & Ho)%requireReminderOwner_inv & E).
  unfold nextFireOrNil, clock in E. apply bind_ok_inv in E as (r4 & next & En & E). injection En as <- <-.
  apply bind_ok_inv in E as (r5 & [] & Eg & E). rewrite gap_alone in Eg by done. injection Eg as <-.
  apply bind_ok_inv in E as (r6 & y & Ey%mapped_ok & E). injection E as <- <-. unfold ends. eauto 10.
Qed.

Lemma handle_fail_ends caller name error r r' v : alone w → handle_fail_reminder w caller name error r = (r', Ok v) →
  ends caller name error ReminderStatusFailed r r' v.
Proof.
  intros Hw. unfold handle_fail_reminder. intros (r1 & id & E1 & E)%bind_ok_inv. injection E1 as -> E1.
  apply bind_ok_inv in E as (r2 & x & (-> & <- & Hx)%mapped_ok%GetReminder_inv & E).
  apply bind_ok_inv in E as (r3 & [] & (-> & a & Ha & Ho)%requireReminderOwner_inv & E).
  unfold nextFireOrNil, clock in E. apply bind_ok_inv in E as (r4 & next & En & E). injection En as <- <-.
  apply bind_ok_inv in E as (r5 & [] & Eg & E). rewrite gap_alone in Eg by done. injection Eg as <-.
  apply bind_ok_inv in E as (r6 & y & Ey%mapped_ok & E). injection E as <- <-. unfold ends. eauto 10.
Qed.

(** A due reminder that ended: its row, and its two replies. *)
Lemma ends_due caller name result s r r' v id x : ends caller name result s r r' v → parseReminderName w name = Ok id →
  r_rems r !! id = Some x → re_status x = ReminderStatusDue →
  r_rems r' !! id = Some (completed w result s (next_fire x (dk_clock (r_desk r))) r x) ∧ r_desk r' = r_desk (set_rems <[id := completed w result s (next_fire x (dk_clock (r_desk r))) r x]> r) ∧
  ∃ pill answer, r_msgs r' = r_msgs r ++ [pill; answer] ∧ m_root pill = Some id ∧ m_root answer = Some id ∧
    m_sender pill = SenderTypeSystem ∧ m_sender answer = SenderTypeAgent ∧ m_content answer = result ∧
    m_agent answer = (if 0 <? re_agent x then Some (re_agent x) else None) ∧ m_conv pill = re_conv x ∧ m_conv answer = re_conv x.
Proof.
  intros (id' & x' & a & label & y & Hid & Hx & _ & _ & E) Hid' Hx' Hs. rewrite Hid in Hid'. injection Hid' as ->. rewrite Hx in Hx'. injection Hx' as ->.
  unfold completeReminderTx in E. apply bind_ok_inv in E as (r1 & ms & E1 & E). apply bind_ok_inv in E as (r2 & z & (-> & _)%GetReminder_inv & E).
  injection E as <- _. unfold ttx in E1. destruct (complete_tx _ _ _ _ _ _ _) as [[r3 ms']|] eqn:E2; [|done]. simplify_eq.
  pose proof E2 as [[_ Ems]|(x' & conv & r2 & r3 & pill & m & Hx2 & _ & _ & F1 & F2 & -> & _)]%complete_tx_inv.
  { exfalso. unfold complete_tx, has_status in E2. rewrite Hx, Hs in E2. simpl in E2. repeat case_match; try done.
    all: apply rcall_ok_inv in E2; by simplify_eq. }
  rewrite Hx in Hx2. injection Hx2 as <-.
  apply post_reply_inserted in F1 as ([c1 I1] & D1 & _ & _ & _ & A1 & A2 & _ & A3), F2 as ([c2 I2] & D2 & _ & _ & _ & B1 & B2 & B3 & B4).
  destruct I1 as (_ & C1 & _ & _ & _ & M1 & _), I2 as (_ & C2 & _ & _ & _ & M2 & _). split; [|split].
  - unfold r_rems. simpl. rewrite D2, D1. apply lookup_set_rems.
  - simpl. by rewrite D2, D1.
  - exists pill, m. simpl. rewrite M2, M1, <- app_assoc. by split_and!.
Qed.

(** Nothing to end. *)
Definition idle (id : string) (r r' : Room) : Prop := (∀ x, r_rems r !! id = Some x → re_status x ≠ ReminderStatusDue) → r' = r.
#[export] Instance idle_preorder id : PreOrder (idle id).
Proof. split; [done|]. intros r1 r2 r3 H12 H23 Hr. rewrite (H12 Hr) in H23. by apply H23. Qed.

Lemma complete_keeps_idle id result label s next : keeps (idle id) (completeReminderTx w id result label s next).
Proof. intros r Hr. by apply complete_idle. Qed.

Lemma ends_idle caller name result r id : alone w → parseReminderName w name = Ok id →
  (∀ x, r_rems r !! id = Some x → re_status x ≠ ReminderStatusDue) →
  (handle_complete_reminder w caller name result r).1 = r ∧ (handle_fail_reminder w caller name result r).1 = r.
Proof.
  intros Hw Hid Hr. pose proof (@gap_keeps_alone w Hw (idle id) _). pose proof (complete_keeps_idle id). pose proof owner_keeps.
  split; [unfold handle_complete_reminder|unfold handle_fail_reminder]; rewrite Hid;
    (match goal with |- (mbind ?k _ _).1 = _ => change ((k id r).1 = r); assert (keeps (idle id) (k id)) as K; [|by apply K] end);
    unfold nextFireOrNil, CompleteReminderAndPostNotification, FailReminderAndPostNotification; walk.
Qed.

(** C28: A due reminder is answered once.  A completion that succeeds on a due reminder
    writes exactly two replies under it, the system's note and the agent's result, and
    completes it, or plans its next fire when it recurs; the same request again, or a
    failure reported later, changes nothing at all. *)
Theorem completion_answers_once caller name result r r' v id x : alone w →
  handle_complete_reminder w caller name result r = (r', Ok v) → parseReminderName w name = Ok id →
  r_rems r !! id = Some x → re_status x = ReminderStatusDue →
  (∃ pill answer, r_msgs r' = r_msgs r ++ [pill; answer] ∧ m_root pill = Some id ∧ m_root answer = Some id ∧
     m_sender pill = SenderTypeSystem ∧ m_sender answer = SenderTypeAgent ∧ m_content answer = result) ∧
  (∃ y, r_rems r' !! id = Some y ∧ re_result y = result ∧
     match next_fire x (dk_clock (r_desk r)) with
     | None => re_status y = ReminderStatusCompleted ∧ re_fire y = re_fire x
     | Some t => re_status y = ReminderStatusPending ∧ re_fire y = t
     end) ∧
  ∀ caller' result', (handle_complete_reminder w caller' name result' r').1 = r' ∧ (handle_fail_reminder w caller' name result' r').1 = r'.
Proof.
  intros Hw E%handle_complete_ends Hid Hx Hs; [|done]. destruct (ends_due _ _ _ _ _ _ _ _ _ E Hid Hx Hs) as (Hrow & _ & pill & m & Hm & H1 & H2 & H3 & H4 & H5 & _).
  split; [by exists pill, m|]. split; [eexists; split; [exact Hrow|]; by destruct (next_fire x _)|].
  intros caller' result'. apply (ends_idle _ _ _ _ id); [done|done|]. intros y Hy. rewrite Hrow in Hy. injection Hy as <-.
  by destruct (next_fire x _).
Qed.

(** A day that never comes fires for ever.  When the schedule of a recurring
    reminder never matches, the parser answers with the zero time, which lies in the
    past: the reminder that its agent completes is due again, and its agent called,
    with the next scan, and so on. *)
Theorem impossible_date_fires_again caller name result r r' v id x : alone w →
  works w "ListDuePending" → works w "MarkDue" → works w "ClearRetry" → works w "SetRetry" →
  handle_complete_reminder w caller name result r = (r', Ok v) → parseReminderName w name = Ok id →
  r_rems r !! id = Some x → joined w x = true → re_status x = ReminderStatusDue →
  next_fire x (dk_clock (r_desk r)) = Some zero_time → 0 ≤ dk_clock (r_desk r) →
  ∃ y, r_rems (scanDue w r').1 !! id = Some y ∧ re_status y = ReminderStatusDue ∧ re_fired y = Some (dk_clock (r_desk r)) ∧
    re_cron y = re_cron x ∧ length (r_msgs r') = (length (r_msgs r) + 2)%nat.
Proof.
  intros Hw W1 W2 W3 W4 E%handle_complete_ends Hid Hx Hj Hs Hn Hc; [|done].
  destruct (ends_due _ _ _ _ _ _ _ _ _ E Hid Hx Hs) as (Hrow & Hd & pill & m & Hm & _). rewrite Hn in Hrow.
  pose proof (due_scan_fires w Hw r' id _ W1 W2 W3 W4 Hrow Hj) as Hfire. cbv zeta in Hfire.
  assert (dk_clock (r_desk r') = dk_clock (r_desk r)) as Hc' by by rewrite Hd. rewrite Hc' in Hfire.
  rewrite (proj2 (Z.leb_le _ _)) in Hfire by (simpl; unfold zero_time, Second; lia). destruct Hfire as (t & Hrow' & _).
  eexists. split; [exact Hrow'|]. rewrite Hm, length_app. by split_and!.
Qed.
End astray.
