(* ===== verification/Requests.v ===== *)
(** The requests of a conversation, its tasks and its reminders, served one after the
    other, with the ticks of the scheduler among them. *)

From stdpp Require Import base list strings numbers gmap sets.
From S2P Require Import Prelude Strings Iam Policies Mentions Membership Messages Inbox Posting MessagesSpec Tasks TasksSpec Reminders RemindersSpec.
Local Open Scope Z_scope.

Inductive Request :=
| Send (caller : Caller) (req : SendRequest)
| Post (caller : Caller) (req : PostRequest)
| Ack (caller : Caller) (conversation : string) (version : Z) (command : string)
| Read_ (caller : Caller) (req : ReadRequest) (wakes : list Wake)
| ReadThread_ (caller : Caller) (req : ReadRequest) (wakes : list Wake)
| Convert (caller : Caller) (message : string)
| Create (caller : Caller) (conversation content : string) (attachments : list string) (mentions : list Mention)
| Claim (caller : Caller) (message : string)
| Unclaim (caller : Caller) (message : string)
| Update (caller : Caller) (message : string) (status : Z)
| Assign (caller : Caller) (message : string) (memberType : Z) (memberID : string)
| Close (caller : Caller) (message : string)
| Schedule (caller : Caller) (message : string) (req : ReminderRequest)
| Edit (caller : Caller) (name : string) (req : ReminderRequest)
| Cancel_ (caller : Caller) (name : string)
| Complete (caller : Caller) (name result : string)
| Fail_ (caller : Caller) (name error : string)
| DueScan
| RetryScan.

Section requests.
Context `{CronLib}.

Definition serve (r : Room) (q : World * Request) : Room :=
  let w := q.1 in
  match q.2 with
  | Send c req => (SendMessage w c req r).1
  | Post c req => (PostMessage w c req r).1
  | Ack c conv v cmd => (AckProcessedVersion w c conv v cmd r).1
  | Read_ c req wakes => (ReadConversation w c req wakes r).1
  | ReadThread_ c req wakes => (ReadThread w c req wakes r).1
  | Convert c m => (handle_convert w c m r).1
  | Create c conv content atts ms => (handle_create w c conv content atts ms r).1
  | Claim c m => (handle_claim w c m r).1
  | Unclaim c m => (handle_unclaim w c m r).1
  | Update c m s => (handle_update w c m s r).1
  | Assign c m ty id => (handle_assign w c m ty id r).1
  | Close c m => (handle_close w c m r).1
  | Schedule c m req => (handle_schedule w c m req r).1
  | Edit c name req => (handle_edit_reminder w c name req r).1
  | Cancel_ c name => (handle_cancel_reminder w c name r).1
  | Complete c name result => (handle_complete_reminder w c name result r).1
  | Fail_ c name error => (handle_fail_reminder w c name error r).1
  | DueScan => (scanDue w r).1
  | RetryScan => (scanRetry w r).1
  end.

(** What runs between the statements of a request is the work of other requests. *)
Definition fair (P : Room → Room → Prop) (q : World * Request) : Prop :=
  (∀ n r, P r (w_others q.1 n r)) ∧
  match q.2 with Read_ _ _ wakes | ReadThread_ _ _ wakes => Forall (fair_wake P) wakes | _ => True end.

Definition about_reminders (q : Request) : bool :=
  match q with Schedule _ _ _ | Edit _ _ _ | Cancel_ _ _ | Complete _ _ _ | Fail_ _ _ _ | DueScan | RetryScan => true | _ => false end.

(** The requests about messages and tasks, for whatever relation their writes keep. *)
Lemma serve_kept P q r : (∀ w, KeptTasks w P) → fair P q → about_reminders q.2 = false → P r (serve r q).
Proof.
  intros HP [Ho Hw] Hq. destruct q as [w q]. unfold serve. simpl in *. specialize (HP w).
  destruct q; try done; [apply SendMessage_kept|apply PostMessage_kept|apply Ack_kept|apply ReadConversation_kept
    |apply ReadThread_kept|apply handle_convert_kept|apply handle_create_kept|apply handle_claim_kept
    |apply handle_unclaim_kept|apply handle_update_kept|apply handle_assign_kept|apply handle_close_kept]; done || apply _.
Qed.

Lemma serve_evolves q r : fair evolves q → evolves r (serve r q).
Proof.
  intros Hf. destruct (about_reminders q.2) eqn:Hq; [|by apply serve_kept; [apply _|..]].
  destruct Hf as [Ho _], q as [w q]. unfold serve. simpl in *. destruct q; try done;
    [apply handle_schedule_evolves|apply handle_edit_evolves|apply handle_cancel_evolves|apply handle_complete_evolves
    |apply handle_fail_evolves|apply scanDue_evolves|apply scanRetry_evolves]; done.
Qed.

Lemma serve_closed q r : fair closed_stays q → (∀ r, w_others q.1 2 r = r) → closed_stays r (serve r q).
Proof.
  intros Hf H2. destruct (about_reminders q.2) eqn:Hq; [|by apply serve_kept; [apply _|..]].
  destruct Hf as [Ho _], q as [w q]. unfold serve. simpl in *. destruct q; try done;
    [apply schedule_closed|apply edits_closed|apply cancels_closed|apply completes_closed
    |apply fails_closed|apply scans_closed|apply scans_closed]; done.
Qed.

(** C6: Rooms stay numbered.  Whatever requests are served, failed ones and those
    interleaved with others included, from tables where it holds: message ids are
    unique, a reply's root is a message, the versions of a conversation's messages
    are 2, 3, ... up to its own in the order they were written, every task is a
    message, has a number of its own below the conversation's next, one of the four
    statuses and a completion time exactly when it is done, no team has two active
    tasks, and every reminder is a top-level message of its conversation, has been
    tried at most five times again and is to be tried only while it is due.  And no message, version, cursor or subscription is ever lost. *)
Theorem rooms_stay_numbered qs r : Forall (fair evolves) qs → room_ok r →
  room_ok (foldl serve r qs) ∧ grows r (foldl serve r qs).
Proof.
  intros Hq Hr. revert r Hr. induction Hq as [|q qs Hq _ IH]; intros r Hr; simpl; [split; [done|reflexivity]|].
  destruct (serve_evolves q r Hq Hr) as [H1 G1]. destruct (IH _ H1) as [H2 G2]. split; [done|by etrans].
Qed.

(** C19: A reminder that ended stays so.  Once a reminder is completed, cancelled or
    failed, its row is never written again by any request, by the scans or by what
    runs between their statements - provided that nothing runs between the two
    statements of an edit. *)
Theorem closed_reminders_stay qs r id x : Forall (λ q, fair closed_stays q ∧ ∀ r, w_others q.1 2 r = r) qs →
  r_rems r !! id = Some x → closed x = true → r_rems (foldl serve r qs) !! id = Some x.
Proof.
  intros Hq. revert r. induction Hq as [|q qs [Hq H2] _ IH]; intros r Hx Hc; simpl; [done|]. apply IH; [|done].
  by apply serve_closed.
Qed.
End requests.
