(* ===== verification/RoomDemo.v ===== *)
(** A channel of a user and an agent, run: what its messages, inbox and tasks become,
    and the theorems of [MessagesSpec] and [TasksSpec] at those tables. *)

From stdpp Require Import base list strings numbers gmap sets sorting pretty.
From S2P Require Import Prelude Strings Names Runes Iam Policies Mentions MentionsSpec Membership MembershipSpec.
From S2P Require Import Messages Inbox Posting MessagesSpec Tasks TasksSpec Reminders RemindersSpec Requests.
Local Open Scope Z_scope.

Module RoomDemo.

Definition d : Dir := MembershipDemo.d.
Definition by_ann : Caller := MembershipDemo.by_ann.
Definition by_bot : Caller := MkCaller None (Some MembershipDemo.bot).

Definition bot_row : AgentRow := MkAgentRow 7 "bot" "Bot" false.
Definition ann_row : UserRow := MkUserRow 1 "ann" "Ann" false.
Definition names : Directory :=
  MkDirectory (λ k, Ok (if String.eqb k "bot" then Some bot_row else None))
    (λ k, Ok (if String.eqb k "ann" then Some ann_row else None)) (Ok [bot_row]) (Ok [ann_row]).
Definition team : Team := MkTeam "t" "crew" "Crew" "" (Some 7) [MkTeamMember 7 "bot" AgentTeamRoleLeader "all of it"].

(** Every full hour, and a day that never comes. *)
Definition Hour : Z := 60 * Minute.
#[export] Instance crons : CronLib := {|
  Sched := bool; Loc := unit; UTC := tt;
  Parse := λ s, if String.eqb s "0 * * * *" then Ok true else if String.eqb s "0 0 30 2 *" then Ok false else Err "invalid";
  LoadLocation := λ tz, if String.eqb tz "UTC" then Some tt else None;
  Next := λ s _ t, if (s : bool) then (t / Hour + 1) * Hour else zero_time |}.

(** A short id that is free, or one longer than all of them. *)
Definition long (ids : list string) : string := "m" +:+ foldr (λ a s, a +:+ s) "" ids.
Definition next_id (ms : list Message) : string :=
  let id := "m" +:+ pretty (Z.of_nat (length ms)) in if bool_decide (id ∈ m_id <$> ms) then long (m_id <$> ms) else id.

Lemma long_fresh ids : long ids ∉ ids.
Proof.
  assert (∀ x, x ∈ ids → (String.length x < String.length (long ids))%nat) as H; [|intros Hin%H; lia].
  assert (∀ a b, String.length (a +:+ b) = (String.length a + String.length b)%nat) as Happ.
  { induction a as [|c a IH]; intros b; simpl; [done|]. f_equal. apply IH. }
  intros x Hx. unfold long. rewrite Happ. simpl. induction ids as [|y ids IH]; [by apply not_elem_of_nil in Hx|].
  simpl. rewrite Happ. apply elem_of_cons in Hx as [->|Hx]; [lia|]. specialize (IH Hx). lia.
Qed.

Lemma next_id_fresh ms : next_id ms ∉ m_id <$> ms.
Proof. unfold next_id. case_bool_decide; [apply long_fresh|done]. Qed.

Definition world (others : nat → Room → Room) : World := {|
  w_dir := d; w_names := names;
  w_agents := λ id, if id =? 7 then Some bot_row else None;
  w_users := λ id, if id =? 1 then Some ann_row else None;
  w_team := λ id, Ok (if String.eqb id "t" then Some team else None);
  w_team_name := λ id, Ok (if String.eqb id "crew" then Some team else None);
  w_file := λ _, Ok None; w_unicode := ascii_unicode;
  w_sprintf := λ _, "a notice";
  w_uuid := next_id;
  w_now := λ ms, 100 + Z.of_nat (length ms);
  w_current := λ _, ""; w_others := others |}.

Definition w : World := world (λ _ r, r).
Lemma w_alone : alone w.
Proof. done. Qed.
Lemma w_fair n r : evolves r (w_others w n r).
Proof. reflexivity. Qed.

(** Two channels, ann's and the agent's in both. *)
Definition chat : Chat := MembershipDemo.tables (CreateChannel d by_ann "d" "ops" MembershipDemo.ch2).
Definition r0 : Room := MkRoom chat [] ∅ ∅ ∅ ∅ ∅ ∅ ∅ (MkDesk ∅ (λ _, false) 100) [].


Definition say (conv content : string) (task : bool) : World * Request :=
  (w, Send by_ann (MkSend ("conversations/" +:+ conv) content [] "" task [])).
Definition reply_to (conv root content : string) : World * Request :=
  (w, Send by_ann (MkSend ("conversations/" +:+ conv) content [] root false [])).

(** Ann greets the agent, asks for work, and writes twice under her greeting. *)
Definition asked : list (World * Request) := [say "c" "hello @bot" false; say "c" "please fix it" true;
  reply_to "c" "m0" "one"; reply_to "c" "m0" "two"].
Definition r1 : Room := foldl serve r0 asked.

Lemma fair_alone q : q.1 = w → match q.2 with Read_ _ _ _ | ReadThread_ _ _ _ => False | _ => True end → fair evolves q.
Proof. destruct q as [w' q]. simpl. intros -> H. split; [apply w_fair|]. by destruct q. Qed.

Lemma asked_fair : Forall (fair evolves) asked.
Proof. unfold asked. repeat (apply Forall_cons; split; [by apply fair_alone|]). apply Forall_nil_2. Qed.

Lemma convs_r0 : ch_convs chat = {[ "c" := MkConv 2 1 "general" false 1 (default [] (cv_meta <$> room_conv r0 "c"));
  "d" := MkConv 2 1 "ops" false 1 [(1, "ann")] ]}.
Proof. vm_compute. reflexivity. Qed.

Lemma r0_ok : room_ok r0.
Proof.
  split_and!.
  - split; [constructor|]. intros m root H. by apply not_elem_of_nil in H.
  - intros id. unfold room_conv. simpl r_chat. rewrite convs_r0. destruct (decide (id = "c")) as [->|Hc]; [by rewrite lookup_insert_eq|].
    rewrite lookup_insert_ne by done. destruct (decide (id = "d")) as [->|Hd]; [by rewrite lookup_singleton_eq|].
    by rewrite lookup_singleton_ne.
  - unfold tasks_ok, next_number. split_and!; intros *; simpl; rewrite ?lookup_empty; done.
  - intros id x. unfold r_rems. simpl. by rewrite lookup_empty.
Qed.

Lemma serves_ok qs r : Forall (fair evolves) qs → room_ok r → room_ok (foldl serve r qs).
Proof.
  intros Hq. revert r. induction Hq as [|q qs Hq _ IH]; intros r Hr; simpl; [done|]. apply IH. by destruct (serve_evolves q r Hq Hr).
Qed.

Lemma r1_ok : room_ok r1.
Proof. apply serves_ok; [apply asked_fair|apply r0_ok]. Qed.

Lemma rooms_stay_numbered_witness : room_ok r1 ∧ grows r0 r1 ∧ versions r1 "c" = [2; 3; 4; 5; 6].
Proof.
  destruct (rooms_stay_numbered asked r0 asked_fair r0_ok) as [H1 H2]. split; [exact H1|]. split; [exact H2|].
  vm_compute. reflexivity.
Defined.

Lemma woken_exactly_for_unread_witness : has_updates w 7 r1 = true ∧ channel_updates w 7 r1 ≠ [].
Proof.
  destruct (woken_exactly_for_unread w r1 7 r1_ok) as [_ [H _]]. assert (has_updates w 7 r1 = true) as Hu by (vm_compute; reflexivity).
  split; [exact Hu|exact (H Hu)].
Defined.

(** Another of ann's messages, between the statements of a request. *)
Definition late : Message := draft "c" 1 None 1 "wait" None SenderTypeUser [] [] None.
Definition raced (k : nat) : World := world (λ n r, if Nat.eqb n k then (CreateChatMessageBumpVersion w late r).1 else r).

Definition post : PostRequest := MkPost "conversations/c" "done" [] "" "" 6.
Definition answer {A} (x : Room * res failure A) (default : A) : A := match x.2 with Ok a => a | Err _ => default end.

Definition late_row : Message := match (CreateChatMessageBumpVersion w late r1).2 with Ok m => m | Err _ => late end.
Lemma late_runs n : n = 1%nat ∨ n = 3%nat → CreateChatMessageBumpVersion (raced n) late r1 = (w_others (raced n) n r1, Ok late_row).
Proof. intros [-> | ->]; vm_compute; reflexivity. Qed.

Definition raced_post : Room * res failure Posted := PostMessage (raced 1) by_bot post r1.
Definition raced_row : Message := match raced_post.2 with Ok (Committed m _) => m | _ => late end.
Lemma raced_post_runs : PostMessage (raced 1) by_bot post r1 = (raced_post.1, Ok (Committed raced_row 8)).
Proof. vm_compute. reflexivity. Qed.

Lemma raced_post_hides_a_message_witness : m_version late_row = 7 ∧ late_row ∈ r_msgs raced_post.1 ∧
  ∃ c, room_conv raced_post.1 "c" = Some c ∧ has_update (raced 1) raced_post.1 7 ("c", c) = false.
Proof.
  destruct (raced_post_hides_a_message (raced 1) by_bot post r1 raced_post.1 raced_row 8 MembershipDemo.bot "c" late late_row)
    as (H1 & _ & H2 & H3); [reflexivity|vm_compute; reflexivity|reflexivity|apply late_runs; by left|reflexivity|reflexivity|apply raced_post_runs|].
  split; [exact H1|]. split; [exact H2|exact H3].
Defined.

Definition delta : Room * res string (list View * Z) := Messages.ListConversationMessages (raced 3) "c" 4 0 10 0 r1.
Definition delta_rows : list View := match delta.2 with Ok x => x.1 | Err _ => [] end.
Lemma delta_runs : Messages.ListConversationMessages (raced 3) "c" 4 0 10 0 r1 = (delta.1, Ok (delta_rows, 7)).
Proof. vm_compute. reflexivity. Qed.

Lemma delta_version_overtakes_witness : late_row ∈ r_msgs delta.1 ∧ late_row ∉ v_msg <$> delta_rows ∧ m_version late_row = 7.
Proof.
  destruct (delta_version_overtakes (raced 3) "c" 4 10 0 r1 delta.1 delta_rows 7 late late_row) as (H1 & H2 & H3 & _);
    [reflexivity|reflexivity|apply late_runs; by right|exact delta_runs|]. split; [exact H1|]. split; [exact H2|exact H3].
Defined.

(** Two replies under the greeting, asked for two at a time. *)
Definition pages : ReadRequest := MkRead "conversations/c" "m0" 4 0 2 0 0.
Definition thread : Room * res failure ReadReply := ReadThread w by_ann pages [] r1.
Definition page1 : ReadReply := answer thread (MkReply [] None 0).
Lemma thread_runs : ReadThread w by_ann pages [] r1 = (thread.1, Ok page1).
Proof. vm_compute. reflexivity. Qed.

Lemma thread_pages_lose_replies_witness :
  (m_content <$> (v_msg <$> (rp_messages page1).*1)) = ["hello @bot"; "one"] ∧ rp_next page1 = Some 2 ∧
  select_replies "m0" 4 0 3 2 r1 = [].
Proof.
  destruct (thread_pages_lose_replies w by_ann pages [] r1 thread.1 page1 "m0" w_alone eq_refl eq_refl ltac:(done) eq_refl thread_runs) as [H _].
  destruct H as (_ & H2 & H3); [vm_compute; reflexivity|]. split; [vm_compute; reflexivity|]. split; [exact H2|exact H3].
Defined.

(** *** Tasks *)

Definition task1 : string := "conversations/c/messages/m1".
Definition shown : View := view late.

Definition claim : Room * res failure View := handle_claim w by_bot task1 r1.
Lemma claim_runs : handle_claim w by_bot task1 r1 = (claim.1, Ok (answer claim shown)).
Proof. vm_compute. reflexivity. Qed.

Lemma claim_is_exclusive_witness : claimed_by "m1" "c" 7 claim.1 ∧ ∃ r2 e, handle_claim w by_bot task1 claim.1 = (r2, Err e).
Proof.
  destruct (claim_is_exclusive w by_bot task1 r1 claim.1 (answer claim shown) claim_runs) as (ag & ids & Ha & Hids & Hc & Hx).
  injection Ha as <-. vm_compute in Hids. injection Hids as <-.
  split; [exact Hc|]. apply (Hx w by_bot eq_refl). reflexivity.
Defined.

(** The task is named in the other channel. *)
Definition named_there : string := "conversations/d/messages/m1".
Definition row1 : Task := MkTask "c" 1 TaskStatusTodo None None None None None.

Lemma status_changes_from_any_conversation_witness :
  r_tasks (handle_update w by_ann named_there TaskStatusDone r1).1 !! "m1" = Some (moved TaskStatusDone 105 row1) ∧
  r_tasks (handle_close w by_ann named_there r1).1 !! "m1" = Some row1.
Proof.
  destruct (status_changes_from_any_conversation w by_ann named_there TaskStatusDone r1 "d" "m1" row1) as [H1 H2];
    [vm_compute; reflexivity|vm_compute; reflexivity|discriminate|split; discriminate|].
  split; [apply H1; vm_compute; reflexivity|]. destruct (H2 ltac:(reflexivity)) as (_ & _ & H3). exact (H3 by_ann).
Defined.

Lemma lists_run offset : ∃ p, (ListTasks w "c" [] 1 offset r1).2 = Ok p.
Proof.
  destruct (Z.ltb_spec offset 1) as [H|H].
  - assert (ListTasks w "c" [] 1 offset r1 = ListTasks w "c" [] 1 0 r1) as ->.
    { unfold ListTasks. assert ((if offset <? 0 then 0 else offset) = 0) as -> by (destruct (Z.ltb_spec offset 0); lia). reflexivity. }
    vm_compute. by eexists.
  - unfold ListTasks, mbind, M_bind, query, fill. rewrite (proj2 (Z.ltb_ge offset 0)) by lia.
    rewrite (drop_ge (board "c" [] r1)); [by eexists|].
    assert (length (board "c" [] r1) = 1%nat) as -> by (vm_compute; reflexivity). lia.
Qed.

Lemma board_pages_are_the_tasks_witness :
  ∃ vs, board_pages w 5 "c" [] 1 0 r1 = Some vs ∧ m_id <$> (v_msg <$> vs) = ["m1"].
Proof.
  destruct (board_pages_are_the_tasks w "c" [] 1 r1 5 r1_ok lists_run) as (vs & H1 & H2 & _); [vm_compute; lia|].
  exists vs. split; [exact H1|]. rewrite H2. vm_compute. reflexivity.
Defined.

Definition close : Room * res failure View := handle_close w by_ann task1 r1.
Lemma close_runs : handle_close w by_ann task1 r1 = (close.1, Ok (answer close shown)).
Proof. vm_compute. reflexivity. Qed.

Lemma closing_twice_is_closing_once_witness : (handle_close w by_bot task1 close.1).1 = close.1.
Proof. apply (closing_twice_is_closing_once w by_ann task1 r1 close.1 (answer close shown) close_runs). reflexivity. Defined.

(** The task goes to the agent's team: the agent has four unread messages and is
    left with the team's instruction. *)
Definition to_crew : Room * res terr (View * TaskInfo) := AssignTask w "m1" "c" 3 "crew" r1.
Definition crew_info : TaskInfo := match to_crew.2 with Ok x => x.2 | Err _ => MkInfo 0 0 None None 0 "" "" "" end.
Definition crewed : Room * res failure unit := afterTeamAssign w "c" "m1" crew_info "please fix it" to_crew.1.

Lemma to_crew_ok : room_ok to_crew.1.
Proof. destruct (AssignTask_kept w evolves "m1" "c" 3 "crew" r1 r1_ok) as [H _]. exact H. Qed.

Lemma crewed_runs : afterTeamAssign w "c" "m1" crew_info "please fix it" to_crew.1 = (crewed.1, Ok tt).
Proof. vm_compute. reflexivity. Qed.

Definition hello : Message := match r_msgs r1 with m :: _ => m | [] => late end.
Definition conv_c (r : Room) : Conversation := default (MkConv 0 0 "" false 0 []) (room_conv r "c").

Lemma team_assignment_drops_unread_witness :
  hello ∈ new_messages to_crew.1 7 "c" (conv_c to_crew.1) ∧
  hello ∉ new_messages crewed.1 7 "c" (conv_c crewed.1) ∧
  m_id <$> new_messages crewed.1 7 "c" (conv_c crewed.1) = ["m5"].
Proof.
  split; [vm_compute; apply list_elem_of_here|]. split; [|vm_compute; reflexivity].
  apply (team_assignment_drops_unread w eq_refl eq_refl "c" "m1" crew_info "please fix it" to_crew.1 crewed.1 team
    (MkTeamMember 7 "bot" AgentTeamRoleLeader "all of it") 2 2 7 to_crew_ok crewed_runs);
    [vm_compute; discriminate|vm_compute; reflexivity|apply list_elem_of_here|vm_compute; reflexivity|discriminate
    |vm_compute; reflexivity|vm_compute; apply list_elem_of_here|vm_compute; reflexivity].
Defined.
End RoomDemo.
