(* ===== verification/ReminderDemo.v ===== *)
(** A reminder of the channel of [RoomDemo], run: the agent schedules it under a
    greeting, stays away or completes it, and the theorems of [RemindersSpec] and
    [Requests] at those tables. *)

From stdpp Require Import base list strings numbers gmap sets sorting pretty.
From S2P Require Import Prelude Strings Names Runes Iam Policies Mentions Membership MembershipSpec Messages Inbox Posting MessagesSpec.
From S2P Require Import Tasks TasksSpec Reminders RemindersSpec Requests RoomDemo.
Local Open Scope Z_scope.

Module ReminderDemo.
Import RoomDemo.

Definition greeting : string := "conversations/c/messages/m0".
Definition reminder : string := "reminders/m0".

(** At 200 seconds, once. *)
Definition once : ReminderRequest := MkRemReq "look at the build" (Some (200 * Second)) "" "".
Definition planned : Room := serve r1 (w, Schedule by_bot greeting once).

Definition clocked (t : Z) (r : Room) : Room := at_clock t r.
Definition early : Room := clocked (150 * Second) planned.
Definition late_ : Room := clocked (200 * Second) planned.
Definition row_of (r : Room) : Reminder := default (MkRem "" 0 "" 0 "" "" 0 0 None None None None "" 0 0) (r_rems r !! "m0").

Lemma late_ok : room_ok late_.
Proof.
  assert (room_ok planned) as H.
  { apply (serves_ok [(w, Schedule by_bot greeting once)] r1); [|apply r1_ok]. apply Forall_singleton. by apply fair_alone. }
  by apply at_clock_evolves.
Qed.

(** The row as the agent wrote it. *)
Definition x0 : Reminder := Eval vm_compute in row_of late_.
Lemma late_row : r_rems late_ !! "m0" = Some x0.
Proof. vm_compute. reflexivity. Qed.
Lemma early_row : r_rems early !! "m0" = Some x0.
Proof. vm_compute. reflexivity. Qed.
Lemma late_clock : dk_clock (r_desk late_) = 200 * Second.
Proof. vm_compute. reflexivity. Qed.
Lemma early_clock : dk_clock (r_desk early) = 150 * Second.
Proof. vm_compute. reflexivity. Qed.
Lemma late_offline : dk_online (r_desk late_) 7 = false.
Proof. vm_compute. reflexivity. Qed.

Lemma w_works name : works w name.
Proof. reflexivity. Qed.

Lemma due_scan_fires_witness : (∃ t, r_rems (scanDue w late_).1 !! "m0" = Some (fired false (200 * Second) t x0)) ∧
  r_rems (scanDue w early).1 !! "m0" = Some x0.
Proof.
  split.
  - pose proof (due_scan_fires w w_alone late_ "m0" x0 (w_works _) (w_works _) (w_works _) (w_works _) late_row eq_refl) as H.
    cbv zeta in H. rewrite late_clock in H. change (re_agent x0) with 7 in H. rewrite late_offline in H.
    change (has_status ReminderStatusPending x0 && (re_fire x0 <=? 200 * Second)) with true in H. destruct H as (t & H & _). exists t. exact H.
  - pose proof (due_scan_fires w w_alone early "m0" x0 (w_works _) (w_works _) (w_works _) (w_works _) early_row eq_refl) as H.
    cbv zeta in H. rewrite early_clock in H.
    change (has_status ReminderStatusPending x0 && (re_fire x0 <=? 150 * Second)) with false in H. exact H.
Defined.

(** The agent stays away for 125 seconds. *)
Lemma offline_reminder_is_missed_witness :
  missed_for_good "m0" (after w 125 (scanDue w late_).1) ∨ no_version_left "m0" (after w 125 (scanDue w late_).1).
Proof.
  refine (proj2 (offline_reminder_is_missed w "m0" w_alone (w_works _) (w_works _) (w_works _) next_id_fresh late_ x0
    (w_works _) (w_works _) (w_works _) late_ok late_row eq_refl _ eq_refl eq_refl late_offline)).
  rewrite late_clock. done.
Defined.

Definition fired_ : Room := (scanDue w late_).1.
Definition x1 : Reminder := Eval vm_compute in row_of fired_.
Lemma fired_row : r_rems fired_ !! "m0" = Some x1.
Proof. vm_compute. reflexivity. Qed.

Example missed_at_125 : (re_status (row_of (after w 124 fired_)), re_status (row_of (after w 125 fired_)),
    m_content <$> last (r_msgs (after w 125 fired_))) =
  (ReminderStatusDue, ReminderStatusMissed, Some "⏰ Reminder missed after 0 delivery retries (agent offline)").
Proof. vm_compute. reflexivity. Qed.

(** The write of the first retry fails. *)
Definition broken_dir : Dir := MkDir (d_env d) (d_handle d) (d_agent d) (d_rfc3339 d)
  (λ name, if String.eqb name "SetRetry" then Some "connection reset" else None).
Definition broken : World := MkWorld broken_dir (w_names w) (w_agents w) (w_users w) (w_team w) (w_team_name w) (w_file w)
  (w_unicode w) (w_sprintf w) (w_uuid w) (w_now w) (w_current w) (w_others w).

Lemma unplanned_retry_is_forgotten_witness : ∃ z, r_rems (after w 1000 (scanDue broken late_).1) !! "m0" = Some z ∧
  re_status z = ReminderStatusDue ∧ re_retry z = 0 ∧ re_next z = None.
Proof.
  apply (unplanned_retry_is_forgotten broken w "m0" x0 late_ 1000 w_alone eq_refl eq_refl);
    [discriminate|exact w_alone|apply w_works|exact late_row|reflexivity|reflexivity|rewrite late_clock; done|exact late_offline].
Defined.

(** *** The agent is there after all, and completes the reminder *)

Definition completion : Room * res failure V1Reminder := handle_complete_reminder w by_bot reminder "all green" fired_.
Definition shown_ : V1Reminder := answer completion (MkV1Rem "" "" "" "" "" x1).
Lemma completion_runs : handle_complete_reminder w by_bot reminder "all green" fired_ = (completion.1, Ok shown_).
Proof. vm_compute. reflexivity. Qed.

Lemma completion_answers_once_witness :
  (∃ pill answer, r_msgs completion.1 = r_msgs fired_ ++ [pill; answer] ∧ m_content answer = "all green") ∧
  (handle_fail_reminder w by_bot reminder "too late" completion.1).1 = completion.1.
Proof.
  destruct (completion_answers_once w by_bot reminder "all green" fired_ completion.1 shown_ "m0" x1 w_alone completion_runs eq_refl
    fired_row eq_refl) as ((pill & m & Hm & _ & _ & _ & _ & Hc) & _ & Hidle).
  split; [exists pill, m; split; [exact Hm|exact Hc]|]. exact (proj2 (Hidle by_bot "too late")).
Defined.

Definition x2 : Reminder := Eval vm_compute in row_of completion.1.
Lemma completed_row : r_rems completion.1 !! "m0" = Some x2.
Proof. vm_compute. reflexivity. Qed.

(** Later requests and scans do not reopen it. *)
Definition later : list (World * Request) := [(w, Edit by_bot reminder once); (w, Cancel_ by_ann reminder); (w, DueScan); (w, RetryScan)].

Lemma closed_reminders_stay_witness : r_rems (foldl serve completion.1 later) !! "m0" = Some x2.
Proof.
  apply (closed_reminders_stay later completion.1 "m0" x2); [|exact completed_row|reflexivity].
  assert (∀ q, fair closed_stays (w, q) ↔ match q with Read_ _ _ wakes | ReadThread_ _ _ wakes => Forall (fair_wake closed_stays) wakes | _ => True end) as Hf.
  { intros q. unfold fair. simpl. split; [by intros [_ ?]|]. intros ?. by split; [intros n r; reflexivity|]. }
  unfold later. repeat (apply Forall_cons; split; [split; [by apply Hf|done]|]). apply Forall_nil_2.
Defined.

(** Ann's edit meets the completion. *)
Definition meets : World := world (λ n r, if Nat.eqb n 2 then (handle_complete_reminder w by_bot reminder "all green" r).1 else r).

Lemma raced_edit_revives_witness : ∃ z, r_rems (UpdateReminderFields meets "m0" (900 * Second) "" "UTC" "again" fired_).1 !! "m0" = Some z ∧
  re_status z = ReminderStatusPending ∧ re_fire z = 900 * Second ∧ re_status x2 = ReminderStatusCompleted.
Proof.
  destruct (raced_edit_revives meets "m0" (900 * Second) "" "UTC" "again" fired_ x1 x2 eq_refl fired_row eq_refl completed_row eq_refl)
    as (z & H1 & H2 & H3 & _).
  exists z. split; [exact H1|]. split; [exact H2|]. split; [exact H3|reflexivity].
Defined.

(** Ann postpones it while the scan runs. *)
Definition moves : World := world (λ n r, if Nat.eqb n 3 then (UpdateReminderFields w "m0" (900 * Second) "" "UTC" "later" r).1 else r).
Definition x3 : Reminder := Eval vm_compute in row_of (w_others moves 3 late_).
Lemma moved_row : r_rems (w_others moves 3 late_) !! "m0" = Some x3.
Proof. vm_compute. reflexivity. Qed.
Lemma late_only : r_rems late_ = {[ "m0" := x0 ]}.
Proof. vm_compute. reflexivity. Qed.
Lemma moved_clock : dk_clock (r_desk (w_others moves 3 late_)) = dk_clock (r_desk late_).
Proof. vm_compute. reflexivity. Qed.

Lemma postponed_reminder_fires_witness : ∃ z, r_rems (scanDue moves late_).1 !! "m0" = Some z ∧ re_status z = ReminderStatusDue ∧
  re_fire z = 900 * Second.
Proof.
  destruct (postponed_reminder_fires moves "m0" x0 x3 late_ eq_refl eq_refl eq_refl eq_refl) as (z & H1 & H2 & H3 & _);
    [reflexivity|reflexivity|exact late_only|reflexivity|reflexivity|rewrite late_clock; done|exact moved_row|reflexivity
    |exact moved_clock|rewrite late_clock; done|].
  exists z. split; [exact H1|]. split; [exact H2|exact H3].
Defined.

(** Every 30th of February. *)
Definition never : Room := (scanDue w (serve r1 (w, Schedule by_bot greeting (MkRemReq "shovel snow" None "0 0 30 2 *" "UTC")))).1.
Definition x4 : Reminder := Eval vm_compute in row_of never.
Definition done_ : Room * res failure V1Reminder := handle_complete_reminder w by_bot reminder "done" never.
Definition shown4 : V1Reminder := answer done_ (MkV1Rem "" "" "" "" "" x4).

Lemma never_row : r_rems never !! "m0" = Some x4.
Proof. vm_compute. reflexivity. Qed.
Lemma never_clock : dk_clock (r_desk never) = 100.
Proof. vm_compute. reflexivity. Qed.
Lemma done_runs : handle_complete_reminder w by_bot reminder "done" never = (done_.1, Ok shown4).
Proof. vm_compute. reflexivity. Qed.

Lemma impossible_date_fires_again_witness : ∃ y, r_rems (scanDue w done_.1).1 !! "m0" = Some y ∧ re_status y = ReminderStatusDue.
Proof.
  destruct (impossible_date_fires_again w by_bot reminder "done" never done_.1 shown4 "m0" x4 w_alone (w_works _) (w_works _) (w_works _)
    (w_works _) done_runs eq_refl never_row eq_refl eq_refl) as (y & H1 & H2 & _); [rewrite never_clock; reflexivity|rewrite never_clock; done|].
  exists y. split; [exact H1|exact H2].
Defined.
End ReminderDemo.
