(* ===== verification/Jwt.v ===== *)
(** The credentials of the manager: the claims of its tokens, their minting and
    parsing, and what is read off the headers of a request
    ([manager/api/auth/auth.go], [config.go], [iplist.go]; hashToken of
    [api/v1/agent_token.go]).

    The JWT package is an interface, [Jwt], with the laws [JwtLaws]; SHA-256 is
    [Digest].  The four claim structs of the source are one record: a struct
    leaves the fields it does not declare at their zero value.  Times of claims are
    in seconds, all others in nanoseconds. *)

From Stdlib Require Import Ascii.
From stdpp Require Import base list strings numbers countable.
From S2P Require Import Prelude Strings Names Nonce Runes.
Import Strings.
Local Open Scope Z_scope.

(** ** Codes *)

(** A connect code; an error that carries none is [CodeUnknown], and [Panic] is a
    nil dereference. *)
Inductive Code :=
| CodeInvalidArgument | CodeUnauthenticated | CodeNotFound | CodePermissionDenied | CodeFailedPrecondition
| CodeResourceExhausted | CodeInternal | CodeUnknown | Panic.

#[export] Instance Code_eq_dec : EqDecision Code.
Proof. solve_decision. Defined.

(** ** Claims *)

Record Claims := MkClaims {
  c_Name : string; c_TokenVersion : Z; c_TokenType : string; c_SessionID : string; c_TokenFamily : string;
  c_ID : string; c_Audience : list string; c_ExpiresAt : option Z; c_IssuedAt : Z; c_Issuer : string;
  c_Subject : string }.

#[export] Instance Claims_eq_dec : EqDecision Claims.
Proof. solve_decision. Defined.

Definition issuer : string := "laelia".
Definition keyID : string := "v1".
Definition HS256 : string := "HS256".

Definition TokenTypeBootstrap : string := "BOOTSTRAP".
Definition TokenTypeAccess : string := "ACCESS".
Definition TokenTypeRefresh : string := "REFRESH".

Definition AccessTokenAudienceFmt (mode : string) : string := "ll.user.access." +:+ mode.
Definition AgentAccessTokenAudienceFmt (mode : string) : string := "ll.agent.access." +:+ mode.
Definition MachineAccessTokenAudienceFmt (mode : string) : string := "ll.machine.access." +:+ mode.
Definition ProvisionerAccessTokenAudienceFmt (mode : string) : string := "ll.provisioner.access." +:+ mode.

Definition Hour : Z := 60 * Minute.
Definition apiTokenDuration : Z := Hour.
Definition DefaultTokenDuration : Z := 7 * 24 * Hour.

(** ** base64.RawURLEncoding.DecodeString *)

Definition from_base64 (c : ascii) : option N :=
  let n := N_of_ascii c in
  if (65 <=? n)%N && (n <=? 90)%N then Some (n - 65)%N
  else if (97 <=? n)%N && (n <=? 122)%N then Some (n - 71)%N
  else if (48 <=? n)%N && (n <=? 57)%N then Some (n + 4)%N
  else if (n =? 45)%N then Some 62%N
  else if (n =? 95)%N then Some 63%N
  else None.

(** Four digits are three bytes; the spare bits of the last group are not looked
    at. *)
Fixpoint join64 (l : list N) : option string :=
  match l with
  | [] => Some EmptyString
  | [_] => None
  | [a; b] => Some (String (ascii_of_N (a * 4 + b / 16)) EmptyString)
  | [a; b; c] =>
      Some (String (ascii_of_N (a * 4 + b / 16)) (String (ascii_of_N (b mod 16 * 16 + c / 4)) EmptyString))
  | a :: b :: c :: d :: l' =>
      s ← join64 l';
      Some (String (ascii_of_N (a * 4 + b / 16)) (String (ascii_of_N (b mod 16 * 16 + c / 4))
              (String (ascii_of_N (c mod 4 * 64 + d)) s)))
  end%N.

(** The decoder skips line ends. *)
Definition line_end (c : ascii) : bool := (code c =? 10) || (code c =? 13).

Fixpoint sextets (s : string) : option (list N) :=
  match s with
  | EmptyString => Some []
  | String c s' =>
      if line_end c then sextets s' else n ← from_base64 c; l ← sextets s'; Some (n :: l)
  end.

Definition RawURLDecode (s : string) : option string := l ← sextets s; join64 l.

(** [strings.Split] at the dots. *)
Fixpoint split_dots (s : string) : list string :=
  match s with
  | EmptyString => [EmptyString]
  | String c s' =>
      if Ascii.eqb c dot then EmptyString :: split_dots s'
      else match split_dots s' with
           | h :: t => String c h :: t
           | [] => [String c EmptyString]
           end
  end.

(** ** The interfaces *)

(** [ParseWithClaims now keyFunc]: [keyFunc] gets the header's algorithm and its
    kid when that is a string; the error says whether the token expired.
    [signed alg key t c] says that [t] holds the claims [c] under a signature that
    [key] verifies with [alg].  [UnmarshalAud] reads the audience of a payload. *)
Class Jwt := {
  SignedString : string → string → Claims → string;
  ParseWithClaims : Z → (string → option string → option string) → string → res bool Claims;
  UnmarshalAud : string → option (list string);
  signed : string → string → string → Claims → Prop }.

Class Digest := { sha256 : string → string }.

Section jwt.
Context `{!Jwt, !Digest}.

(** The audience in the payload, unverified. *)
Definition peekTokenAudience (tokenStr : string) : list string :=
  match split_dots tokenStr with
  | [_; payload; _] =>
      match RawURLDecode payload with
      | None => []
      | Some b => default [] (UnmarshalAud b)
      end
  | _ => []
  end.

Definition fresh (now : Z) (c : Claims) : bool :=
  match c_ExpiresAt c with None => true | Some e => now <? e * Second end.

Definition hashToken (token : string) : string := hex_encode (sha256 token).
End jwt.

(** What the package documents of signing and parsing. *)
Class JwtLaws `{!Jwt} : Prop := {
  parse_signed now kf t c :
    ParseWithClaims now kf t = Ok c →
    fresh now c = true ∧ ∃ alg kid key, kf alg kid = Some key ∧ signed alg key t c;
  signs kid key c : signed HS256 key (SignedString kid key c) c;
  signed_claims alg key alg' key' t c c' : signed alg key t c → signed alg' key' t c' → c' = c;
  parse_own now kf kid key c :
    kf HS256 (Some kid) = Some key → fresh now c = true → ParseWithClaims now kf (SignedString kid key c) = Ok c;
  parse_expired now kf kid key c :
    kf HS256 (Some kid) = Some key → fresh now c = false → ParseWithClaims now kf (SignedString kid key c) = Err true;
  peek_own kid key c : peekTokenAudience (SignedString kid key c) = c_Audience c;
  signed_nonempty kid key c : SignedString kid key c ≠ "" }.

(** ** Minting and parsing *)

Section tokens.
Context `{!Jwt}.

(** jwt.NewNumericDate truncates to seconds. *)
Definition NumericDate (t : Z) : Z := t / Second.

(** The key of the manager, for a header it accepts. *)
Definition keyFunc (secret : string) (alg : string) (kid : option string) : option string :=
  if negb (String.eqb alg HS256) then None
  else match kid with
       | Some k => if String.eqb k keyID then Some secret else None
       | None => None
       end.

(** [jti] is the uuid drawn, [now] the clock. *)
Definition signAgentToken (jti : string) (now : Z) (agentName resourceID : string) (tokenVersion : Z)
    (tokenType sessionID tokenFamily aud : string) (expirationTime : Z) (secret : string) : string :=
  SignedString keyID secret
    (MkClaims agentName tokenVersion tokenType sessionID tokenFamily jti [aud] (Some (NumericDate expirationTime))
       (NumericDate now) issuer resourceID).

Definition signMachineToken (jti : string) (now : Z) (machineName resourceID : string) (tokenVersion : Z)
    (tokenType sessionID tokenFamily aud : string) (expirationTime : Z) (secret : string) : string :=
  SignedString keyID secret
    (MkClaims machineName tokenVersion tokenType sessionID tokenFamily jti [aud] (Some (NumericDate expirationTime))
       (NumericDate now) issuer resourceID).

Definition signProvisionerToken (jti : string) (now : Z) (provisionerName resourceID : string) (tokenVersion : Z)
    (aud secret : string) : string :=
  SignedString keyID secret
    (MkClaims provisionerName tokenVersion "" "" "" jti [aud] None (NumericDate now) issuer resourceID).

(** [subject] is strconv.Itoa of the user's id. *)
Definition generateToken (now : Z) (userName subject aud : string) (expirationTime : Z) (secret : string) : string :=
  SignedString keyID secret
    (MkClaims userName 0 "" "" "" "" [aud] (Some (NumericDate expirationTime)) (NumericDate now) issuer subject).

Definition GenerateAPIToken (now : Z) (userName subject mode secret : string) : string :=
  generateToken now userName subject (AccessTokenAudienceFmt mode) (now + apiTokenDuration) secret.

Definition GenerateAccessToken (now : Z) (userName subject mode secret : string) (tokenDuration : Z) : string :=
  generateToken now userName subject (AccessTokenAudienceFmt mode) (now + tokenDuration) secret.

Definition GenerateAgentTokenWithFamily (jti : string) (now : Z) (agentName resourceID : string) (tokenVersion : Z)
    (tokenType tokenFamily mode secret : string) (duration : Z) : string :=
  signAgentToken jti now agentName resourceID tokenVersion tokenType "" tokenFamily (AgentAccessTokenAudienceFmt mode)
    (now + duration) secret.

Definition GenerateAgentToken (jti : string) (now : Z) (agentName resourceID : string) (tokenVersion : Z)
    (tokenType mode secret : string) (duration : Z) : string :=
  signAgentToken jti now agentName resourceID tokenVersion tokenType "" resourceID (AgentAccessTokenAudienceFmt mode)
    (now + duration) secret.

Definition GenerateAgentTokenWithSession (jti : string) (now : Z) (agentName resourceID : string) (tokenVersion : Z)
    (tokenType sessionID mode secret : string) (duration : Z) : string :=
  signAgentToken jti now agentName resourceID tokenVersion tokenType sessionID resourceID
    (AgentAccessTokenAudienceFmt mode) (now + duration) secret.

Definition GenerateMachineTokenWithFamily (jti : string) (now : Z) (machineName resourceID : string) (tokenVersion : Z)
    (tokenType tokenFamily mode secret : string) (duration : Z) : string :=
  signMachineToken jti now machineName resourceID tokenVersion tokenType "" tokenFamily
    (MachineAccessTokenAudienceFmt mode) (now + duration) secret.

Definition GenerateMachineTokenWithSession (jti : string) (now : Z) (machineName resourceID : string) (tokenVersion : Z)
    (tokenType sessionID mode secret : string) (duration : Z) : string :=
  signMachineToken jti now machineName resourceID tokenVersion tokenType sessionID resourceID
    (MachineAccessTokenAudienceFmt mode) (now + duration) secret.

Definition GenerateProvisionerToken (jti : string) (now : Z) (provisionerName resourceID : string) (tokenVersion : Z)
    (mode secret : string) : string :=
  signProvisionerToken jti now provisionerName resourceID tokenVersion (ProvisionerAccessTokenAudienceFmt mode) secret.

(** Neither the audience nor the type nor the version is looked at. *)
Definition ParseAgentToken (now : Z) (tokenStr secret : string) : option Claims :=
  match ParseWithClaims now (keyFunc secret) tokenStr with Ok c => Some c | Err _ => None end.

Definition ParseMachineToken (now : Z) (tokenStr secret : string) : option Claims :=
  match ParseWithClaims now (keyFunc secret) tokenStr with Ok c => Some c | Err _ => None end.
End tokens.

Definition audienceContains (audience : list string) (token : string) : bool :=
  existsb (λ v, String.eqb v token) audience.

(** The index of the first expected audience the token names. *)
Fixpoint audience_from (i : nat) (audience expected : list string) : option nat :=
  match expected with
  | [] => None
  | aud :: expected => if audienceContains audience aud then Some i else audience_from (S i) audience expected
  end.
Definition audienceKind (audience expected : list string) : option nat := audience_from 0 audience expected.

(** ** The headers of a request *)

(** [h_Cookies]: per Cookie header, the value of the access-token cookie that
    net/http reads in it. *)
Record Header := MkHeader {
  h_Authorization : string; h_Cookies : list (option string); h_DeclaredAgent : string;
  h_XForwardedFor : string; h_XRealIP : string }.

(** strings.Fields; one step takes at least a byte. *)
Definition field (cur : list ascii) : list string :=
  match cur with [] => [] | _ => [String.string_of_list_ascii (rev cur)] end.
Fixpoint fields_loop (fuel : nat) (cur l : list ascii) : list string :=
  match fuel, l with
  | S fuel', c :: l' =>
      match strip_any space_encodings l with
      | Some r => field cur ++ fields_loop fuel' [] r
      | None => fields_loop fuel' (c :: cur) l'
      end
  | _, _ => field cur
  end.
Definition Fields (s : string) : list string :=
  fields_loop (String.length s) [] (String.list_ascii_of_string s).

Definition GetTokenFromHeaders (u : Unicode) (h : Header) : option string :=
  if negb (String.eqb (h_Authorization h) "") then
    match Fields (h_Authorization h) with
    | [scheme; token] => if String.eqb (ToLower u scheme) "bearer" then Some token else None
    | _ => None
    end
  else Some (default "" (list_find is_Some (h_Cookies h) ≫= snd)).

Definition has (c : ascii) (s : string) : bool := existsb (Ascii.eqb c) (String.list_ascii_of_string s).

(** Around the last [c]. *)
Fixpoint cut_last (c : ascii) (s : string) : option (string * string) :=
  match s with
  | EmptyString => None
  | String a s' =>
      match cut_last c s' with
      | Some (x, y) => Some (String a x, y)
      | None => if Ascii.eqb a c then Some (EmptyString, s') else None
      end
  end.

Definition colon : ascii := ":"%char.
Definition lbracket : ascii := "["%char.
Definition rbracket : ascii := "]"%char.

(** The host of net.SplitHostPort. *)
Definition SplitHostPort (hostport : string) : option string :=
  match cut_last colon hostport with
  | None => None
  | Some (before, _) =>
      match hostport with
      | String "["%char inner =>
          let '(host, rest, found) := Cut inner rbracket in
          if negb found then None
          else match rest with
               | String ":"%char port =>
                   if has colon port || has lbracket inner || has rbracket rest then None else Some host
               | _ => None
               end
      | _ => if has colon before || has lbracket hostport || has rbracket hostport then None else Some before
      end
  end.

Definition stripPort (addr : string) : string :=
  if String.eqb addr "" then "" else default addr (SplitHostPort addr).

Definition comma : ascii := ","%char.

Definition extractSourceIP (h : Header) (remoteAddr : string) (trustProxy : bool) : string :=
  if trustProxy && negb (String.eqb (h_XForwardedFor h) "") then TrimSpace (Cut (h_XForwardedFor h) comma).1.1
  else if trustProxy && negb (String.eqb (h_XRealIP h) "") then TrimSpace (h_XRealIP h)
  else stripPort remoteAddr.

(** ** What a procedure asks of its caller *)

Inductive AuthMethod := AuthMethodUnspecified | AuthMethodIAM | AuthMethodCustom.
Record AuthContext := MkAuthContext {
  AllowWithoutCredential : bool; Permission : string; ac_method : AuthMethod; Audit : bool }.

(** The options of a method in its descriptor; [None] is a value of another type. *)
Record MethodOptions := MkOptions {
  mo_allow : option bool; mo_permission : option string; mo_method : option Z; mo_audit : option bool }.

(** The registry of descriptors: the service of a name, if it is one, and the
    method of a name. *)
Definition Registry : Type := string → option (option (string → option MethodOptions)).

Definition resolveAuthContext (reg : Registry) (fullMethod : string) : res Code AuthContext :=
  match split fullMethod with
  | [_; service; method] =>
      match reg service with
      | Some (Some methods) =>
          match methods method with
          | None => Err Panic
          | Some o =>
              match mo_allow o, mo_permission o, mo_method o, mo_audit o with
              | Some allow, Some permission, Some am, Some audit =>
                  if am =? 0 then Ok (MkAuthContext allow permission AuthMethodUnspecified audit)
                  else if am =? 1 then Ok (MkAuthContext allow permission AuthMethodIAM audit)
                  else if am =? 2 then Ok (MkAuthContext allow permission AuthMethodCustom audit)
                  else Err CodeUnknown
              | _, _, _, _ => Err CodeUnknown
              end
          end
      | _ => Err CodeUnknown
      end
  | _ => Err CodeUnknown
  end.

Definition IsAuthenticationAllowed (fullMethodName : string) (authContext : AuthContext) (devMode : bool) : bool :=
  if devMode && String.prefix "/grpc.reflection" fullMethodName then true
  else if AllowWithoutCredential authContext then true
  else match ac_method authContext with AuthMethodCustom => true | _ => false end.

(** ** iplist.go *)

Inductive IPValidationPolicy := IPValidationOff | IPValidationWarn | IPValidationStrict.

Definition ValidateAgentIP (reportedIP sourceIP : string) (policy : IPValidationPolicy) : res Code unit :=
  match policy with
  | IPValidationOff => Ok tt
  | _ =>
      if String.eqb sourceIP "" then
        match policy with IPValidationStrict => Err CodePermissionDenied | _ => Ok tt end
      else if String.eqb reportedIP "" then Ok tt
      else if negb (String.eqb reportedIP sourceIP) then
        match policy with IPValidationStrict => Err CodePermissionDenied | _ => Ok tt end
      else Ok tt
  end.

(** ** base64: what is encoded is decoded *)

Lemma sextet n : (n < 64)%N → line_end (base64_char n) = false ∧ from_base64 (base64_char n) = Some n.
Proof.
  intros Hn.
  assert (forallb (λ i, negb (line_end (base64_char i)) && bool_decide (from_base64 (base64_char i) = Some i))
            (N.of_nat <$> seq 0 64) = true) as H by (vm_compute; reflexivity).
  rewrite forallb_forall in H. specialize (H n). rewrite andb_true_iff, negb_true_iff, bool_decide_eq_true in H.
  apply H, list_elem_of_In, list_elem_of_fmap. exists (N.to_nat n). split; [lia|].
  apply elem_of_seq. lia.
Qed.

Lemma sextets_char n s : (n < 64)%N → sextets (String (base64_char n) s) = (λ l, n :: l) <$> sextets s.
Proof. intros Hn. simpl. destruct (sextet n Hn) as [-> ->]. simpl. by destruct (sextets s). Qed.

Lemma byte_bound a : (N_of_ascii a < 256)%N.
Proof. apply N_ascii_bounded. Qed.

Local Ltac Zify.zify_post_hook ::= Z.to_euclidean_division_equations.

Lemma byte_is a n : n = N_of_ascii a → ascii_of_N n = a.
Proof. intros ->. apply ascii_N_embedding. Qed.

(** The digits of [base64urlEncode] decode to the bytes they came from. *)
Theorem RawURLDecode_encode s : RawURLDecode (base64urlEncode s) = Some s.
Proof.
  unfold RawURLDecode.
  assert (∀ n, (String.length s < n)%nat → ∃ l, sextets (base64urlEncode s) = Some l ∧ join64 l = Some s) as H.
  { intros n. revert s. induction n as [|n IH]; [lia|]. intros s Hs.
    destruct s as [|a [|b [|c s]]]; [by eexists| | |]; cbn [base64urlEncode];
      pose proof (byte_bound a) as Ha; [|pose proof (byte_bound b) as Hb..].
    - rewrite !sextets_char by lia. eexists. split; [done|]. simpl. do 2 f_equal. apply byte_is. lia.
    - rewrite !sextets_char by lia. eexists. split; [done|]. simpl.
      do 2 f_equal; [|f_equal]; apply byte_is; lia.
    - pose proof (byte_bound c) as Hc. destruct (IH s) as (l & Hl & Hj); [simpl in Hs; lia|].
      rewrite !sextets_char by lia. rewrite Hl. eexists. split; [done|]. simpl. rewrite Hj. simpl.
      do 2 f_equal; [|f_equal; [|f_equal]]; apply byte_is; lia. }
  destruct (H _ (Nat.lt_succ_diag_r _)) as (l & -> & Hl). exact Hl.
Qed.
