(* ===== verification/Provision.v ===== *)
(** The images a provisioned machine may run, and the phases of its provisioning
    ([manager/api/v1/provisioner.go]). *)

From Stdlib Require Import Ascii.
From stdpp Require Import base list strings numbers gmap.
From S2P Require Import Prelude Strings Jwt.
Import Strings.
Local Open Scope Z_scope.

(** ** Image references *)

Definition maxCustomImageLength : nat := 512.

(** [customImageRefPattern]: a letter or digit, then the characters below, then
    perhaps a star. *)
Definition ref_char (c : ascii) : bool :=
  is_alnum c || existsb (Ascii.eqb c) ["."; "_"; ":"; "@"; "/"; "-"]%char.
Definition star : ascii := "*"%char.
Fixpoint ref_rest (s : string) : bool :=
  match s with
  | EmptyString => true
  | String c s' => (ref_char c && ref_rest s') || (Ascii.eqb c star && String.eqb s' "")
  end.
Definition customImageRefPattern (s : string) : bool :=
  match s with String c s' => is_alnum c && ref_rest s' | EmptyString => false end.

Definition validateCustomImageRef (image : string) : bool :=
  negb (String.eqb image "") && Nat.leb (String.length image) maxCustomImageLength && customImageRefPattern image.

Definition canonicalDockerRegistry : string := "docker.io".

Definition is_slash : ascii := "/"%char.
Definition at_sign : ascii := "@"%char.

Definition splitImageRef (ref : string) : string * string :=
  let '(first, rest, found) := Cut ref is_slash in
  if negb found then (canonicalDockerRegistry, "library/" +:+ ref)
  else if has "."%char first || has colon first || String.eqb first "localhost" then (first, rest)
  else (canonicalDockerRegistry, ref).

(** [strings.CutSuffix(s, "*")]. *)
Fixpoint cut_star (s : string) : option string :=
  match s with
  | EmptyString => None
  | String c EmptyString => if Ascii.eqb c star then Some EmptyString else None
  | String c s' => String c <$> cut_star s'
  end.

(** The name of a repository path, and what is written after it: a digest, a tag,
    or the default tag. *)
Definition split_tag (repo : string) : string * string :=
  let '(name, digest, found) := Cut repo at_sign in
  if found then (name, if String.eqb digest "" then ":latest" else "@" +:+ digest)
  else match cut_last colon repo with
       | Some (name, tag) => (name, if String.eqb tag "" then ":latest" else ":" +:+ tag)
       | None => (repo, ":latest")
       end.

Definition normalizeImageRef (image : string) : string :=
  match cut_star image with
  | Some head =>
      if String.eqb head "" then "*"
      else let '(registry, repo) := splitImageRef head in registry +:+ "/" +:+ repo +:+ "*"
  | None =>
      if String.eqb image "" then ""
      else let '(registry, repo) := splitImageRef image in
           let '(name, suffix) := split_tag repo in registry +:+ "/" +:+ name +:+ suffix
  end.

Definition entry_allows (canonical entry : string) : bool :=
  let entry := TrimSpace entry in
  if String.eqb entry "" then false
  else let canonicalEntry := normalizeImageRef entry in
       match cut_star canonicalEntry with
       | Some pattern => String.prefix pattern canonical
       | None => String.eqb canonicalEntry canonical
       end.

Definition customImageAllowed (image : string) (allowlist : list string) : bool :=
  existsb (entry_allows (normalizeImageRef image)) allowlist.

Fixpoint normalize_entries (seen : list string) (entries : list string) : list string :=
  match entries with
  | [] => []
  | entry :: entries =>
      let entry := TrimSpace entry in
      if String.eqb entry "" then normalize_entries seen entries
      else let entry := normalizeImageRef entry in
           if bool_decide (entry ∈ seen) then normalize_entries seen entries
           else entry :: normalize_entries (entry :: seen) entries
  end.
Definition normalizeCustomImageAllowlist (entries : list string) : list string := normalize_entries [] entries.

Definition resolveProvisionRuntimeImage (machineImage workspaceImage : string) : string :=
  let image := TrimSpace machineImage in
  if negb (String.eqb image "") then image else TrimSpace workspaceImage.

(** ** Phases *)

Definition PHASE_UNSPECIFIED : Z := 0.
Definition PHASE_PENDING : Z := 1.
Definition PHASE_PROVISIONING : Z := 2.
Definition PHASE_PROVISIONED : Z := 3.
Definition PHASE_FAILED : Z := 4.
Definition PHASE_DEPROVISIONING : Z := 5.
Definition PHASE_DELETED : Z := 6.

Record ProvisioningStatus := MkProvisioning {
  pv_Phase : Z; pv_Error : string; pv_WorkloadName : string; pv_RuntimeImage : string;
  pv_MachineParams : gmap string string; pv_WorkloadLabels : gmap string string;
  pv_PendingAt : Z; pv_ProvisionedAt : Z; pv_FailedAt : Z }.

#[export] Instance ProvisioningStatus_eq_dec : EqDecision ProvisioningStatus.
Proof. solve_decision. Defined.

Definition provisioningPhaseTransitions (phase : Z) : list Z :=
  if phase =? PHASE_PENDING then [PHASE_PROVISIONING; PHASE_PROVISIONED; PHASE_FAILED]
  else if phase =? PHASE_PROVISIONING then [PHASE_PROVISIONED; PHASE_FAILED]
  else if phase =? PHASE_FAILED then [PHASE_DEPROVISIONING]
  else if phase =? PHASE_PROVISIONED then [PHASE_DEPROVISIONING]
  else if phase =? PHASE_DEPROVISIONING then [PHASE_DELETED]
  else [].

(** The copy with another phase; Go copies so that a cached row is not changed. *)
Definition with_phase (phase : Z) (p : ProvisioningStatus) : ProvisioningStatus :=
  MkProvisioning phase (pv_Error p) (pv_WorkloadName p) (pv_RuntimeImage p) (pv_MachineParams p) (pv_WorkloadLabels p)
    (pv_PendingAt p) (pv_ProvisionedAt p) (pv_FailedAt p).

(** [None] is the frame that is ignored: the code returns the pointer it got.
    [nowSec]: the clock. *)
Definition applyProvisionProgress (nowSec : Z) (current : option ProvisioningStatus) (phase : Z)
    (progressErr workloadName : string) : option ProvisioningStatus :=
  match current with
  | None => None
  | Some c =>
      if phase =? PHASE_UNSPECIFIED then None
      else if negb (existsb (Z.eqb phase) (provisioningPhaseTransitions (pv_Phase c))) then None
      else Some (MkProvisioning phase progressErr
             (if String.eqb workloadName "" then pv_WorkloadName c else workloadName)
             (pv_RuntimeImage c) (pv_MachineParams c) (pv_WorkloadLabels c) (pv_PendingAt c)
             (if phase =? PHASE_PROVISIONED then nowSec else pv_ProvisionedAt c)
             (if phase =? PHASE_FAILED then nowSec else pv_FailedAt c))
  end.

Definition replayableProvisioningPhases (phase : Z) : bool :=
  (phase =? PHASE_PENDING) || (phase =? PHASE_PROVISIONING) || (phase =? PHASE_DEPROVISIONING).

(** ** The canonical form *)

Lemma has_cons c x s : has c (String x s) = Ascii.eqb c x || has c s.
Proof. done. Qed.

Lemma has_app c a b : has c (a +:+ b) = has c a || has c b.
Proof. induction a as [|x a IH]; [done|]. rewrite str_cons_app, !has_cons, IH. apply orb_assoc. Qed.

(** Cut at the first separator, and when there is none. *)
Lemma Cut_spec s c :
  match Cut s c with
  | (a, b, true) => s = a +:+ String c b ∧ has c a = false
  | (a, b, false) => a = s ∧ has c s = false
  end.
Proof.
  induction s as [|x s IH]; [done|]. simpl. destruct (Ascii.eqb_spec x c) as [->|Hx]; [done|].
  assert (Ascii.eqb c x = false) as Hc by (by apply Ascii.eqb_neq).
  destruct (Cut s c) as [[a b] []]; destruct IH as [-> Hn]; simpl; rewrite !has_cons, Hc; done.
Qed.

Lemma Cut_before a b c : has c a = false → Cut (a +:+ String c b) c = (a, b, true).
Proof.
  induction a as [|x a IH]; simpl; [by rewrite Ascii.eqb_refl|].
  rewrite has_cons. intros [Hx Ha]%orb_false_iff. rewrite Ascii.eqb_sym, Hx. by rewrite IH.
Qed.

Lemma Cut_whole s c : has c s = false → Cut s c = (s, "", false).
Proof.
  induction s as [|x s IH]; [done|]. rewrite has_cons. intros [Hx Hs]%orb_false_iff.
  simpl. by rewrite Ascii.eqb_sym, Hx, IH.
Qed.

Lemma cut_last_none s c : cut_last c s = None ↔ has c s = false.
Proof.
  induction s as [|x s IH]; [done|]. simpl. rewrite has_cons, orb_false_iff, (Ascii.eqb_sym c x).
  destruct (cut_last c s) as [[]|]; [by destruct IH; naive_solver|].
  destruct (Ascii.eqb x c); naive_solver.
Qed.

Lemma cut_last_app a b c : has c b = false → cut_last c (a +:+ String c b) = Some (a, b).
Proof.
  intros Hb. induction a as [|x a IH]; simpl.
  - apply cut_last_none in Hb as ->. by rewrite Ascii.eqb_refl.
  - by rewrite IH.
Qed.

Lemma cut_last_spec s c a b : cut_last c s = Some (a, b) → s = a +:+ String c b ∧ has c b = false.
Proof.
  revert a b. induction s as [|x s IH]; [done|]. intros a b. simpl.
  destruct (cut_last c s) as [[a' b']|] eqn:E.
  - intros [= <- <-]. destruct (IH _ _ eq_refl) as [-> ?]. done.
  - destruct (Ascii.eqb_spec x c) as [->|]; [|done]. intros [= <- <-].
    split; [done|]. by apply cut_last_none.
Qed.

Lemma cut_star_app a b : b ≠ "" → cut_star (a +:+ b) = String.append a <$> cut_star b.
Proof.
  intros Hb. induction a as [|x a IH]; [by rewrite option_fmap_id; reflexivity|].
  rewrite str_cons_app. destruct (a +:+ b) as [|y t] eqn:E; [destruct a, b; done|].
  change (cut_star (String x (String y t))) with (String x <$> cut_star (String y t)). rewrite IH.
  by destruct (cut_star b).
Qed.

Lemma cut_star_spec s h : cut_star s = Some h → s = h +:+ "*".
Proof.
  revert h. induction s as [|c s IH]; [done|]. intros h. destruct s as [|d s].
  - simpl. destruct (Ascii.eqb_spec c star) as [->|]; [|done]. by intros [= <-].
  - change (String c <$> cut_star (String d s) = Some h → String c (String d s) = h +:+ "*").
    intros (h' & Hh & ->)%fmap_Some. by rewrite (IH _ Hh).
Qed.

Lemma Cut_slash r p : has is_slash r = false → Cut (r +:+ "/" +:+ p) is_slash = (r, p, true).
Proof. exact (Cut_before r p is_slash). Qed.

Lemma Cut_at n d : has at_sign n = false → Cut (n +:+ "@" +:+ d) at_sign = (n, d, true).
Proof. exact (Cut_before n d at_sign). Qed.

Lemma cut_last_colon n t : has colon t = false → cut_last colon (n +:+ ":" +:+ t) = Some (n, t).
Proof. exact (cut_last_app n t colon). Qed.

Lemma cut_last_latest n : cut_last colon (n +:+ ":latest") = Some (n, "latest").
Proof. exact (cut_last_app n "latest" colon eq_refl). Qed.

(** What [splitImageRef] answers stays, and the repository ends like the text. *)
Lemma splitImageRef_spec ref r p : splitImageRef ref = (r, p) →
  splitImageRef (r +:+ "/" +:+ p) = (r, p) ∧ (cut_star ref = None → cut_star p = None).
Proof.
  assert (∀ r p, has is_slash r = false →
            has "."%char r || has colon r || String.eqb r "localhost" = true →
            splitImageRef (r +:+ "/" +:+ p) = (r, p)) as Hs.
  { intros r' p' Hn Hd. unfold splitImageRef. by rewrite (Cut_slash r' p' Hn), Hd. }
  unfold splitImageRef at 1. pose proof (Cut_spec ref is_slash) as Hc.
  destruct (Cut ref is_slash) as [[first rest] found]. destruct found; simpl negb; cbn iota.
  - destruct Hc as [-> Hn]. destruct (_ || _) eqn:Hd; intros [= <- <-].
    + split; [by apply Hs|]. intros Hstar. destruct rest as [|x rest]; [done|].
      change (String is_slash (String x rest)) with ("/" +:+ String x rest) in Hstar.
      rewrite <- str_append_assoc, cut_star_app in Hstar by done. by destruct (cut_star (String x rest)).
    + split; [by apply Hs|done].
  - destruct Hc as [-> Hn]. intros [= <- <-]. split; [by apply Hs|].
    intros Hstar. destruct ref as [|x ref]; [done|]. rewrite cut_star_app by done. by rewrite Hstar.
Qed.

Lemma split_tag_spec repo name suffix : split_tag repo = (name, suffix) →
  split_tag (name +:+ suffix) = (name, suffix) ∧ suffix ≠ "" ∧ (cut_star repo = None → cut_star suffix = None).
Proof.
  assert (∀ n, has at_sign n = false → split_tag (n +:+ ":latest") = (n, ":latest")) as Hl.
  { intros n Hn. unfold split_tag. rewrite Cut_whole by (by rewrite has_app, Hn). simpl.
    by rewrite cut_last_latest. }
  unfold split_tag at 1. pose proof (Cut_spec repo at_sign) as Hc.
  destruct (Cut repo at_sign) as [[n d] found]. destruct found.
  - destruct Hc as [-> Hn]. destruct (String.eqb_spec d "") as [->|Hd]; intros [= <- <-]; [by auto|].
    split_and!; [|done|].
    + unfold split_tag. rewrite (Cut_at n d Hn). by apply String.eqb_neq in Hd as ->.
    + change (String at_sign d) with ("@" +:+ d). rewrite !cut_star_app by done. by destruct (cut_star d).
  - destruct Hc as [-> Hn]. destruct (cut_last colon repo) as [[a b]|] eqn:E.
    + apply cut_last_spec in E as [-> Hb]. rewrite has_app, has_cons in Hn.
      apply orb_false_iff in Hn as [Ha [_ Hb']%orb_false_iff].
      destruct (String.eqb_spec b "") as [->|Hd]; intros [= <- <-]; [by auto|]. split_and!; [|done|].
      * unfold split_tag. rewrite Cut_whole by (rewrite !has_app, Ha; exact Hb').
        simpl negb. cbn iota. rewrite (cut_last_colon a b Hb). by apply String.eqb_neq in Hd as ->.
      * change (String colon b) with (":" +:+ b). rewrite !cut_star_app by done. by destruct (cut_star b).
    + intros [= <- <-]. by auto.
Qed.

(** The canonical form of a reference, or of a pattern, is its own. *)
Theorem normalizeImageRef_idem image : normalizeImageRef (normalizeImageRef image) = normalizeImageRef image.
Proof.
  unfold normalizeImageRef at 2 3. destruct (cut_star image) as [head|] eqn:Es.
  - destruct (String.eqb_spec head "") as [->|Hh]; [done|].
    destruct (splitImageRef head) as [r p] eqn:Er. destruct (splitImageRef_spec _ _ _ Er) as [Hi _].
    unfold normalizeImageRef.
    replace (cut_star (r +:+ "/" +:+ p +:+ "*")) with (Some (r +:+ "/" +:+ p)).
    2:{ rewrite <- !str_append_assoc, cut_star_app by done. simpl. by rewrite str_app_nil. }
    rewrite Hi. replace (String.eqb (r +:+ "/" +:+ p) "") with false by (by destruct r). done.
  - destruct (String.eqb_spec image "") as [->|Hh]; [done|].
    destruct (splitImageRef image) as [r p] eqn:Er. destruct (splitImageRef_spec _ _ _ Er) as [_ Hp].
    destruct (split_tag p) as [n s] eqn:Et. destruct (split_tag_spec _ _ _ Et) as (Hi & Hs & Hn).
    assert (splitImageRef (r +:+ "/" +:+ n +:+ s) = (r, n +:+ s)) as Hr.
    { revert Er. unfold splitImageRef. pose proof (Cut_spec image is_slash) as Hc.
      destruct (Cut image is_slash) as [[f t] found]. destruct found; simpl negb; cbn iota.
      - destruct Hc as [-> Hf]. destruct (_ || _) eqn:Hd; intros [= <- <-].
        + by rewrite (Cut_slash f (n +:+ s) Hf), Hd.
        + done.
      - intros [= <- <-]. done. }
    unfold normalizeImageRef. rewrite <- str_append_assoc, cut_star_app by (by destruct n).
    rewrite cut_star_app, (Hn (Hp Es)) by done. simpl fmap. cbn iota.
    rewrite str_append_assoc, Hr, Hi. by destruct r.
Qed.

(** An image is judged by its canonical form: the one that is stored passes as the
    one that was asked for. *)
Theorem customImageAllowed_canonical image allowlist :
  customImageAllowed (normalizeImageRef image) allowlist = customImageAllowed image allowlist.
Proof. unfold customImageAllowed. by rewrite normalizeImageRef_idem. Qed.

(** ** An allowlist and its normal form *)

Definition plain (s : string) : bool := str_forallb graphic s.

Lemma plain_app a b : plain (a +:+ b) = plain a && plain b.
Proof. apply str_forallb_app. Qed.

Lemma plain_Cut s c a b : plain s = true → Cut s c = (a, b, true) → plain a = true ∧ plain b = true.
Proof.
  intros Hs Hc. pose proof (Cut_spec s c) as H. rewrite Hc in H. destruct H as [-> _].
  rewrite plain_app in Hs. change (plain (String c b)) with (graphic c && plain b) in Hs.
  apply andb_true_iff in Hs as [? [??]%andb_true_iff]. done.
Qed.

Lemma plain_splitImageRef s r p : plain s = true → splitImageRef s = (r, p) → plain r = true ∧ plain p = true.
Proof.
  intros Hs. unfold splitImageRef. destruct (Cut s is_slash) as [[a b] []] eqn:E; simpl negb; cbn iota.
  - destruct (plain_Cut _ _ _ _ Hs E). destruct (_ || _); by intros [= <- <-].
  - intros [= <- <-]. by rewrite plain_app.
Qed.

Lemma plain_split_tag s n t : plain s = true → split_tag s = (n, t) → plain n = true ∧ plain t = true.
Proof.
  intros Hs. unfold split_tag. destruct (Cut s at_sign) as [[a b] []] eqn:E.
  - destruct (plain_Cut _ _ _ _ Hs E). destruct (String.eqb b ""); intros [= <- <-]; by rewrite ?plain_app.
  - destruct (cut_last colon s) as [[x y]|] eqn:El; [|by intros [= <- <-]].
    apply cut_last_spec in El as [-> _]. rewrite plain_app in Hs.
    change (plain (String colon y)) with (plain y) in Hs. apply andb_true_iff in Hs as [? ?].
    destruct (String.eqb y ""); intros [= <- <-]; by rewrite ?plain_app.
Qed.

Lemma plain_normalize s : plain s = true → plain (normalizeImageRef s) = true.
Proof.
  intros Hs. unfold normalizeImageRef. destruct (cut_star s) as [h|] eqn:E.
  - apply cut_star_spec in E as ->. rewrite plain_app, andb_true_iff in Hs. destruct Hs as [Hh _].
    destruct (String.eqb h ""); [done|]. destruct (splitImageRef h) as [r p] eqn:Er.
    destruct (plain_splitImageRef _ _ _ Hh Er) as [Hr Hp]. by rewrite !plain_app, Hr, Hp.
  - destruct (String.eqb s ""); [done|]. destruct (splitImageRef s) as [r p] eqn:Er.
    destruct (plain_splitImageRef _ _ _ Hs Er) as [Hr Hp]. destruct (split_tag p) as [n t] eqn:Et.
    destruct (plain_split_tag _ _ _ Hp Et) as [Hn Ht]. by rewrite !plain_app, Hr, Hn, Ht.
Qed.

Lemma ref_rest_plain s : ref_rest s = true → plain s = true.
Proof.
  induction s as [|c s IH]; [done|]. simpl. intros [[Hc Hs]%andb_true_iff|[Hc Hs]%andb_true_iff]%orb_true_iff.
  - change (graphic c && plain s = true). rewrite (IH Hs), andb_true_r.
    unfold ref_char in Hc. apply orb_true_iff in Hc as [Hc|Hc]; [by apply is_alnum_graphic|].
    apply existsb_exists in Hc as (x & Hx & <-%Ascii.eqb_eq). apply list_elem_of_In in Hx.
    by repeat (apply elem_of_cons in Hx as [->|Hx]; [vm_compute; reflexivity|]); apply elem_of_nil in Hx.
  - apply Ascii.eqb_eq in Hc as ->. by apply String.eqb_eq in Hs as ->.
Qed.

Lemma valid_ref_plain s : validateCustomImageRef s = true → plain s = true.
Proof.
  unfold validateCustomImageRef. intros [_ H]%andb_true_iff. destruct s as [|c s]; [done|]. simpl in H.
  apply andb_true_iff in H as [Hc Hs]. change (graphic c && plain s = true).
  by rewrite (ref_rest_plain s Hs), (is_alnum_graphic c Hc).
Qed.

Lemma normalize_nonempty s : s ≠ "" → normalizeImageRef s ≠ "".
Proof.
  intros Hs. unfold normalizeImageRef. destruct (cut_star s) as [h|]; [destruct (String.eqb h ""); [done|]|].
  - destruct (splitImageRef h) as [r p]. by destruct r.
  - apply String.eqb_neq in Hs as ->. destruct (splitImageRef s) as [r p], (split_tag p) as [n t]. by destruct r.
Qed.

Lemma plain_forall s : plain s = true → Forall (λ c, graphic c = true) (String.list_ascii_of_string s).
Proof.
  induction s as [|c s IH]; [constructor|]. intros [Hc Hs]%andb_true_iff. constructor; [done|by apply IH].
Qed.

Lemma plain_trimmed s : plain s = true → s ≠ "" → TrimSpace s = s.
Proof.
  intros Hs Hn. apply TrimSpace_printable. unfold printable. apply plain_forall in Hs.
  destruct (String.list_ascii_of_string s) as [|a l] eqn:E; [by destruct s|].
  destruct (list.last (a :: l)) as [b|] eqn:El; [|by apply last_None in El].
  apply last_Some in El as [m Hm]. rewrite Hm in Hs. rewrite Forall_app, Forall_singleton in Hs.
  destruct Hs as [Hm' Hb]. rewrite Hb, andb_true_r. destruct m as [|x m]; simplify_eq/=; [done|].
  by inversion Hm'.
Qed.

(** An entry as the settings accept it. *)
Definition entry_ok (e : string) : Prop := TrimSpace e = "" ∨ validateCustomImageRef (TrimSpace e) = true.

Lemma entry_allows_normal c e : validateCustomImageRef (TrimSpace e) = true →
  entry_allows c (normalizeImageRef (TrimSpace e)) = entry_allows c e.
Proof.
  intros Hv. assert (TrimSpace e ≠ "") as He by by intros E; rewrite E in Hv.
  apply valid_ref_plain in Hv. unfold entry_allows.
  rewrite (plain_trimmed (normalizeImageRef _) (plain_normalize _ Hv) (normalize_nonempty _ He)).
  rewrite normalizeImageRef_idem.
  rewrite (proj2 (String.eqb_neq _ _) He), (proj2 (String.eqb_neq _ _) (normalize_nonempty _ He)). done.
Qed.

(** Storing an allowlist in its normal form (trimmed, canonical, without
    doubles) does not change which images it allows. *)
Theorem stored_allowlist_allows_the_same image allowlist : Forall entry_ok allowlist →
  customImageAllowed image (normalizeCustomImageAllowlist allowlist) = customImageAllowed image allowlist.
Proof.
  intros Hok. unfold customImageAllowed, normalizeCustomImageAllowlist. set (c := normalizeImageRef image).
  assert (∀ seen, (∀ s, s ∈ seen → ∃ e, entry_ok e ∧ TrimSpace e ≠ "" ∧ s = normalizeImageRef (TrimSpace e)) →
    existsb (entry_allows c) (normalize_entries seen allowlist) || existsb (entry_allows c) seen =
    existsb (entry_allows c) allowlist || existsb (entry_allows c) seen) as H.
  { induction Hok as [|e l He Hl IH]; intros seen Hseen; [done|]. cbn [normalize_entries existsb].
    destruct (String.eqb_spec (TrimSpace e) "") as [Et|Et].
    - rewrite IH by done. assert (entry_allows c e = false) as -> by (unfold entry_allows; by rewrite Et). done.
    - destruct He as [|Hv]; [done|]. pose proof (entry_allows_normal c e Hv) as Hn.
      case_bool_decide as Hin.
      + rewrite IH by done. destruct (entry_allows c e) eqn:Ea; [|done].
        simpl. rewrite (proj2 (existsb_exists _ seen)); [by rewrite orb_true_r|].
        eexists. split; [by apply list_elem_of_In|done].
      + simpl. rewrite Hn. specialize (IH (normalizeImageRef (TrimSpace e) :: seen)). simpl in IH. rewrite Hn in IH.
        assert (∀ x a b c' : bool, a || (x || b) = c' || (x || b) → x || a || b = x || c' || b) as Hb
          by (intros [] [] [] []; done).
        apply Hb, IH. intros s [->|Hs]%elem_of_cons; [|by apply Hseen]. exists e. split_and!; [by right|done..]. }
  specialize (H [] ltac:(by intros ? ?%elem_of_nil)). by rewrite !orb_false_r in H.
Qed.

(** ** Progress *)

(** A progress frame that is taken moves the phase to a later one, records the
    error and the time, and keeps what the job is rebuilt from; any other frame
    changes nothing. *)
Theorem progress_moves_forward now c phase err workload :
  match applyProvisionProgress now (Some c) phase err workload with
  | None => phase = PHASE_UNSPECIFIED ∨ phase ∉ provisioningPhaseTransitions (pv_Phase c)
  | Some c' =>
      phase ∈ provisioningPhaseTransitions (pv_Phase c) ∧ pv_Phase c' = phase ∧ pv_Phase c < phase ≤ PHASE_DELETED ∧
      pv_Error c' = err ∧ pv_RuntimeImage c' = pv_RuntimeImage c ∧ pv_MachineParams c' = pv_MachineParams c ∧
      pv_PendingAt c' = pv_PendingAt c ∧ (phase = PHASE_PROVISIONED → pv_ProvisionedAt c' = now) ∧
      (phase = PHASE_FAILED → pv_FailedAt c' = now)
  end.
Proof.
  unfold applyProvisionProgress. destruct (Z.eqb_spec phase PHASE_UNSPECIFIED) as [->|Hu]; [by left|].
  destruct (existsb _ _) eqn:E; simpl.
  - apply existsb_exists in E as (x & Hx%list_elem_of_In & <-%Z.eqb_eq).
    assert (pv_Phase c < phase ≤ PHASE_DELETED).
    { revert Hx. unfold provisioningPhaseTransitions.
      repeat case_match; rewrite ?elem_of_cons, ?elem_of_nil;
        repeat match goal with H : (_ =? _) = true |- _ => apply Z.eqb_eq in H end;
        unfold PHASE_PENDING, PHASE_PROVISIONING, PHASE_PROVISIONED, PHASE_FAILED, PHASE_DEPROVISIONING, PHASE_DELETED in *;
        lia. }
    split_and!; try done; [lia..| |]; intros ->; done.
  - right. intros Hx. assert (existsb (Z.eqb phase) (provisioningPhaseTransitions (pv_Phase c)) = true) as Ht; [|congruence].
    apply existsb_exists. exists phase. split; [by apply list_elem_of_In|apply Z.eqb_refl].
Qed.

(** What the frames of a job leave, and how many of them were taken. *)
Fixpoint take_frames (frames : list (Z * Z * string * string)) (c : ProvisioningStatus) : nat * ProvisioningStatus :=
  match frames with
  | [] => (O, c)
  | (now, phase, err, workload) :: frames =>
      match applyProvisionProgress now (Some c) phase err workload with
      | None => take_frames frames c
      | Some c' => let '(n, c'') := take_frames frames c' in (S n, c'')
      end
  end.

(** However many frames arrive, at most the phases between the first one and
    the last are taken, and a deleted machine stays deleted. *)
Theorem progress_is_bounded frames c : pv_Phase c ≤ PHASE_DELETED →
  let '(n, c') := take_frames frames c in
  Z.of_nat n ≤ pv_Phase c' - pv_Phase c ∧ pv_Phase c ≤ pv_Phase c' ≤ PHASE_DELETED ∧
  (pv_Phase c = PHASE_DELETED → c' = c).
Proof.
  revert c. induction frames as [|[[[now phase] err] wl] frames IH]; intros c Hc; cbn [take_frames]; [by split_and!; try lia|].
  pose proof (progress_moves_forward now c phase err wl) as Hm.
  destruct (applyProvisionProgress now (Some c) phase err wl) as [d|]; [|by apply IH].
  destruct Hm as (_ & <- & Hlt & _). specialize (IH d).
  destruct (take_frames frames d) as [n c']. destruct IH as (IH1 & IH2 & _); [lia|]. split_and!; [lia..|].
  intros E. lia.
Qed.
