(* ===== verification/Tokens.v ===== *)
(** The principals of the manager and their credentials: the tables and the
    statements on them ([store/machine.go], [machine_token.go],
    [machine_session.go], [agent_token.go], [agent_session.go], [provisioner.go]),
    the interceptor that authenticates a request ([api/auth/auth.go]) and the
    checks a refresh makes ([api/v1/token_refresh.go]).

    [Db] is the tables and what the manager holds in memory about credentials.
    [TokenWorld] is the rest: keys, random values, the statements that fail, and
    what other requests do at the gaps of a handler ([tw_others n], at gap [n]).
    server.go opens the store without caches, so a lookup reads the row. *)

From Stdlib Require Import Ascii.
From stdpp Require Import base list strings numbers gmap sets.
From S2P Require Import Prelude Strings Names Quantity Nonce Runes Iam Jwt Provision.
Import Strings.
Local Open Scope Z_scope.

(** ** The tables *)

Record Status := MkStatus {
  st_Online : bool; st_ConnectedAt : Z; st_LastHeartbeatAt : Z; st_ActiveSessionId : string }.
Definition OFFLINE : Status := MkStatus false 0 0 "".

Record Info := MkInfo {
  in_Hostname : string; in_Os : string; in_Arch : string; in_Ip : string; in_Version : string;
  in_PromptBundleVersion : string; in_Providers : list string }.
Definition no_info : Info := MkInfo "" "" "" "" "" "" [].

(** The avatars, the creation and rotation times are left out. *)
Record MachineMessage := MkMachine {
  mc_ID : Z; mc_ResourceID : string; mc_Name : string; mc_TokenVersion : Z; mc_Deleted : bool; mc_Info : Info;
  mc_Status : Status; mc_CreatedBy : Z; mc_ProvisionerID : Z; mc_Provisioning : option ProvisioningStatus }.

(** The ACP configuration is opaque here ([Config] models it), and so is the
    capability derived from it. *)
Record AgentMessage := MkAgentMessage {
  an_ID : Z; an_ResourceID : string; an_Name : string; an_TokenVersion : Z; an_Deleted : bool; an_MachineID : Z;
  an_OwnerID : Z; an_Enabled : bool; an_Info : Info; an_AcpConfig : string; an_Capability : string;
  an_Status : Status }.

Record ProvisionerStatus := MkProvisionerStatus {
  ps_Connected : bool; ps_LastSeen : Z; ps_Version : string; ps_Backend : string; ps_AutoUpgrade : bool;
  ps_RetainData : bool; ps_ConfigDigest : string; ps_MachineParams : list ParamSpec }.
Definition no_status : ProvisionerStatus := MkProvisionerStatus false 0 "" "" false false "" [].

Record ProvisionerMessage := MkProvisionerMessage {
  pr_ID : Z; pr_ResourceID : string; pr_Name : string; pr_Backend : string; pr_Description : string;
  pr_TokenVersion : Z; pr_CreatedBy : Z; pr_Deleted : bool; pr_Status : ProvisionerStatus }.

(** A row of machine_token or agent_token. *)
Record TokenRow := MkToken {
  tk_ID : Z; tk_Principal : Z; tk_Hash : string; tk_Type : string; tk_Family : string; tk_State : string;
  tk_Fingerprint : string; tk_ExpiresAt : Z; tk_ConsumedAt : option Z; tk_RevokedAt : option Z; tk_CreatedBy : string }.

(** A row of machine_session or agent_session. *)
Record SessionRow := MkSession {
  ss_ID : string; ss_Principal : Z; ss_Family : string; ss_State : string; ss_SourceIP : string;
  ss_Fingerprint : string; ss_Version : string; ss_ConnectedAt : Z; ss_DisconnectedAt : option Z;
  ss_LastHeartbeatAt : Z; ss_Reason : option string }.

(** What a handler asks of the dispatcher, of the command store and of the policy
    store. *)
Inductive Event :=
| UnregisterMachine (machineID : Z)
| CancelRunningCommands (machineID : Z)
| PushPromptNotice (machineID : Z) (key : string)
| DeletePolicy (resource : string)
| SendProvisionJob (provisionerID : Z) (machine refreshToken image : string) (params : gmap string string)
| SendDeprovisionJob (provisionerID : Z) (machine : string) (keepData : bool)
| DisconnectNotice (provisionerID : Z) (reason : string) (deleted : bool)
| UnregisterProvisioner (provisionerID : Z).

Record Db := MkDb {
  d_Machines : list MachineMessage;
  d_Agents : list AgentMessage;
  d_Provisioners : list ProvisionerMessage;
  d_Users : list User;
  d_MachineTokens : list TokenRow;
  d_AgentTokens : list TokenRow;
  d_MachineSessions : list SessionRow;
  d_AgentSessions : list SessionRow;
  d_Nonces : NonceManager;
  d_Timers : list (Z * Z); (* token id, due *)
  d_Expired : gset string; (* tokens signed out *)
  d_Heartbeats : list (Z * Z * string); (* what the heartbeat buffer got *)
  d_LastActive : Z;
  d_Seq : Z; (* the next row id *)
  d_Draws : nat; (* random values drawn *)
  d_Clock : Z;
  d_Events : list Event }.

Definition set_Machines (f : list MachineMessage → list MachineMessage) (d : Db) : Db :=
  MkDb (f (d_Machines d)) (d_Agents d) (d_Provisioners d) (d_Users d) (d_MachineTokens d) (d_AgentTokens d)
    (d_MachineSessions d) (d_AgentSessions d) (d_Nonces d) (d_Timers d) (d_Expired d)
    (d_Heartbeats d) (d_LastActive d) (d_Seq d) (d_Draws d) (d_Clock d) (d_Events d).
Definition set_Agents (f : list AgentMessage → list AgentMessage) (d : Db) : Db :=
  MkDb (d_Machines d) (f (d_Agents d)) (d_Provisioners d) (d_Users d) (d_MachineTokens d) (d_AgentTokens d)
    (d_MachineSessions d) (d_AgentSessions d) (d_Nonces d) (d_Timers d) (d_Expired d)
    (d_Heartbeats d) (d_LastActive d) (d_Seq d) (d_Draws d) (d_Clock d) (d_Events d).
Definition set_Provisioners (f : list ProvisionerMessage → list ProvisionerMessage) (d : Db) : Db :=
  MkDb (d_Machines d) (d_Agents d) (f (d_Provisioners d)) (d_Users d) (d_MachineTokens d) (d_AgentTokens d)
    (d_MachineSessions d) (d_AgentSessions d) (d_Nonces d) (d_Timers d) (d_Expired d)
    (d_Heartbeats d) (d_LastActive d) (d_Seq d) (d_Draws d) (d_Clock d) (d_Events d).
Definition set_Users (f : list User → list User) (d : Db) : Db :=
  MkDb (d_Machines d) (d_Agents d) (d_Provisioners d) (f (d_Users d)) (d_MachineTokens d) (d_AgentTokens d)
    (d_MachineSessions d) (d_AgentSessions d) (d_Nonces d) (d_Timers d) (d_Expired d)
    (d_Heartbeats d) (d_LastActive d) (d_Seq d) (d_Draws d) (d_Clock d) (d_Events d).
Definition set_MachineTokens (f : list TokenRow → list TokenRow) (d : Db) : Db :=
  MkDb (d_Machines d) (d_Agents d) (d_Provisioners d) (d_Users d) (f (d_MachineTokens d)) (d_AgentTokens d)
    (d_MachineSessions d) (d_AgentSessions d) (d_Nonces d) (d_Timers d) (d_Expired d)
    (d_Heartbeats d) (d_LastActive d) (d_Seq d) (d_Draws d) (d_Clock d) (d_Events d).
Definition set_AgentTokens (f : list TokenRow → list TokenRow) (d : Db) : Db :=
  MkDb (d_Machines d) (d_Agents d) (d_Provisioners d) (d_Users d) (d_MachineTokens d) (f (d_AgentTokens d))
    (d_MachineSessions d) (d_AgentSessions d) (d_Nonces d) (d_Timers d) (d_Expired d)
    (d_Heartbeats d) (d_LastActive d) (d_Seq d) (d_Draws d) (d_Clock d) (d_Events d).
Definition set_MachineSessions (f : list SessionRow → list SessionRow) (d : Db) : Db :=
  MkDb (d_Machines d) (d_Agents d) (d_Provisioners d) (d_Users d) (d_MachineTokens d) (d_AgentTokens d)
    (f (d_MachineSessions d)) (d_AgentSessions d) (d_Nonces d) (d_Timers d) (d_Expired d)
    (d_Heartbeats d) (d_LastActive d) (d_Seq d) (d_Draws d) (d_Clock d) (d_Events d).
Definition set_AgentSessions (f : list SessionRow → list SessionRow) (d : Db) : Db :=
  MkDb (d_Machines d) (d_Agents d) (d_Provisioners d) (d_Users d) (d_MachineTokens d) (d_AgentTokens d)
    (d_MachineSessions d) (f (d_AgentSessions d)) (d_Nonces d) (d_Timers d) (d_Expired d)
    (d_Heartbeats d) (d_LastActive d) (d_Seq d) (d_Draws d) (d_Clock d) (d_Events d).
Definition set_Nonces (f : NonceManager → NonceManager) (d : Db) : Db :=
  MkDb (d_Machines d) (d_Agents d) (d_Provisioners d) (d_Users d) (d_MachineTokens d) (d_AgentTokens d)
    (d_MachineSessions d) (d_AgentSessions d) (f (d_Nonces d)) (d_Timers d) (d_Expired d)
    (d_Heartbeats d) (d_LastActive d) (d_Seq d) (d_Draws d) (d_Clock d) (d_Events d).
Definition set_Timers (f : list (Z * Z) → list (Z * Z)) (d : Db) : Db :=
  MkDb (d_Machines d) (d_Agents d) (d_Provisioners d) (d_Users d) (d_MachineTokens d) (d_AgentTokens d)
    (d_MachineSessions d) (d_AgentSessions d) (d_Nonces d) (f (d_Timers d)) (d_Expired d)
    (d_Heartbeats d) (d_LastActive d) (d_Seq d) (d_Draws d) (d_Clock d) (d_Events d).
Definition set_Expired (f : gset string → gset string) (d : Db) : Db :=
  MkDb (d_Machines d) (d_Agents d) (d_Provisioners d) (d_Users d) (d_MachineTokens d) (d_AgentTokens d)
    (d_MachineSessions d) (d_AgentSessions d) (d_Nonces d) (d_Timers d) (f (d_Expired d))
    (d_Heartbeats d) (d_LastActive d) (d_Seq d) (d_Draws d) (d_Clock d) (d_Events d).
Definition set_Heartbeats (f : list (Z * Z * string) → list (Z * Z * string)) (d : Db) : Db :=
  MkDb (d_Machines d) (d_Agents d) (d_Provisioners d) (d_Users d) (d_MachineTokens d) (d_AgentTokens d)
    (d_MachineSessions d) (d_AgentSessions d) (d_Nonces d) (d_Timers d) (d_Expired d)
    (f (d_Heartbeats d)) (d_LastActive d) (d_Seq d) (d_Draws d) (d_Clock d) (d_Events d).
Definition set_LastActive (f : Z → Z) (d : Db) : Db :=
  MkDb (d_Machines d) (d_Agents d) (d_Provisioners d) (d_Users d) (d_MachineTokens d) (d_AgentTokens d)
    (d_MachineSessions d) (d_AgentSessions d) (d_Nonces d) (d_Timers d) (d_Expired d)
    (d_Heartbeats d) (f (d_LastActive d)) (d_Seq d) (d_Draws d) (d_Clock d) (d_Events d).
Definition set_Seq (f : Z → Z) (d : Db) : Db :=
  MkDb (d_Machines d) (d_Agents d) (d_Provisioners d) (d_Users d) (d_MachineTokens d) (d_AgentTokens d)
    (d_MachineSessions d) (d_AgentSessions d) (d_Nonces d) (d_Timers d) (d_Expired d)
    (d_Heartbeats d) (d_LastActive d) (f (d_Seq d)) (d_Draws d) (d_Clock d) (d_Events d).
Definition set_Draws (f : nat → nat) (d : Db) : Db :=
  MkDb (d_Machines d) (d_Agents d) (d_Provisioners d) (d_Users d) (d_MachineTokens d) (d_AgentTokens d)
    (d_MachineSessions d) (d_AgentSessions d) (d_Nonces d) (d_Timers d) (d_Expired d)
    (d_Heartbeats d) (d_LastActive d) (d_Seq d) (f (d_Draws d)) (d_Clock d) (d_Events d).
Definition set_Clock (f : Z → Z) (d : Db) : Db :=
  MkDb (d_Machines d) (d_Agents d) (d_Provisioners d) (d_Users d) (d_MachineTokens d) (d_AgentTokens d)
    (d_MachineSessions d) (d_AgentSessions d) (d_Nonces d) (d_Timers d) (d_Expired d)
    (d_Heartbeats d) (d_LastActive d) (d_Seq d) (d_Draws d) (f (d_Clock d)) (d_Events d).
Definition set_Events (f : list Event → list Event) (d : Db) : Db :=
  MkDb (d_Machines d) (d_Agents d) (d_Provisioners d) (d_Users d) (d_MachineTokens d) (d_AgentTokens d)
    (d_MachineSessions d) (d_AgentSessions d) (d_Nonces d) (d_Timers d) (d_Expired d)
    (d_Heartbeats d) (d_LastActive d) (d_Seq d) (d_Draws d) (d_Clock d) (f (d_Events d)).

(** [UPDATE ... WHERE p]. *)
Definition update {A} (p : A → bool) (f : A → A) (l : list A) : list A := (λ x, if p x then f x else x) <$> l.

Record TokenWorld := MkTokenWorld {
  tw_env : Env; tw_secret : string; tw_mode : string; tw_trustProxy : bool; tw_registry : Registry;
  tw_unicode : Unicode; tw_fails : string → bool;
  tw_random : nat → string; (* uuids, session ids, nonce keys and randoms *)
  tw_others : nat → Db → Db;
  tw_connected : Z → bool; (* IsProvisionerConnected *)
  tw_capability : string → string (* of an ACP configuration *) }.

Section tokens.
Context `{!Jwt, !Digest} (w : TokenWorld).

Definition stmt {A} (name : string) (f : Db → Db * A) : M Db Code A := λ d,
  if tw_fails w name then (d, Err CodeUnknown) else let '(d', a) := f d in (d', Ok a).
Definition query {A} (name : string) (f : Db → A) : M Db Code A := stmt name (λ d, (d, f d)).
Definition exec (name : string) (f : Db → Db) : M Db Code unit := stmt name (λ d, (f d, tt)).

(** [connect.NewError(c, err)]; a panic is not an error. *)
Definition wrap (c : Code) {A} (m : M Db Code A) : M Db Code A := λ d,
  match m d with
  | (d', Err Panic) => (d', Err Panic)
  | (d', Err _) => (d', Err c)
  | (d', Ok a) => (d', Ok a)
  end.

Definition gap (n : nat) : M Db Code unit := modify (tw_others w n).

(** The next random value. *)
Definition draw : M Db Code string := λ d, (set_Draws S d, Ok (tw_random w (d_Draws d))).

Definition nowSec : M Db Code Z := now ← gets d_Clock; mret (now / Second).

(** ** machine.go, agent.go, provisioner.go *)

Definition GetMachine (id : Z) : M Db Code (option MachineMessage) :=
  query "GetMachine" (λ d, List.find (λ m, mc_ID m =? id) (d_Machines d)).
Definition GetMachineByResourceID (resourceID : string) : M Db Code (option MachineMessage) :=
  query "GetMachineByResourceID" (λ d, List.find (λ m, String.eqb (mc_ResourceID m) resourceID) (d_Machines d)).
Definition GetAgent (id : Z) : M Db Code (option AgentMessage) :=
  query "GetAgent" (λ d, List.find (λ a, an_ID a =? id) (d_Agents d)).
Definition GetAgentByResourceID (resourceID : string) : M Db Code (option AgentMessage) :=
  query "GetAgentByResourceID" (λ d, List.find (λ a, String.eqb (an_ResourceID a) resourceID) (d_Agents d)).
Definition GetProvisioner (id : Z) : M Db Code (option ProvisionerMessage) :=
  query "GetProvisioner" (λ d, List.find (λ p, pr_ID p =? id) (d_Provisioners d)).
Definition GetProvisionerByResourceID (resourceID : string) : M Db Code (option ProvisionerMessage) :=
  query "GetProvisionerByResourceID"
    (λ d, List.find (λ p, String.eqb (pr_ResourceID p) resourceID) (d_Provisioners d)).
Definition GetUserByID (id : Z) : M Db Code (option User) :=
  query "GetUserByID" (λ d, List.find (λ u, u_id u =? id) (d_Users d)).

(** An UPDATE of the row, whose patch is [f], and the row read again. *)
Definition UpdateMachine (current : MachineMessage) (f : MachineMessage → MachineMessage) : M Db Code MachineMessage :=
  exec "UpdateMachine" (set_Machines (update (λ m, mc_ID m =? mc_ID current) f)) ;;
  m ← GetMachine (mc_ID current);
  match m with Some m => mret m | None => throw Panic end.
Definition UpdateAgent (current : AgentMessage) (f : AgentMessage → AgentMessage) : M Db Code AgentMessage :=
  exec "UpdateAgent" (set_Agents (update (λ a, an_ID a =? an_ID current) f)) ;;
  a ← GetAgent (an_ID current);
  match a with Some a => mret a | None => throw Panic end.
Definition UpdateProvisioner (current : ProvisionerMessage) (f : ProvisionerMessage → ProvisionerMessage)
    : M Db Code (option ProvisionerMessage) :=
  exec "UpdateProvisioner" (set_Provisioners (update (λ p, pr_ID p =? pr_ID current) f)) ;;
  GetProvisioner (pr_ID current).

Definition machine_status (s : Status) (m : MachineMessage) : MachineMessage :=
  MkMachine (mc_ID m) (mc_ResourceID m) (mc_Name m) (mc_TokenVersion m) (mc_Deleted m) (mc_Info m) s (mc_CreatedBy m)
    (mc_ProvisionerID m) (mc_Provisioning m).
Definition machine_info (i : Info) (m : MachineMessage) : MachineMessage :=
  MkMachine (mc_ID m) (mc_ResourceID m) (mc_Name m) (mc_TokenVersion m) (mc_Deleted m) i (mc_Status m) (mc_CreatedBy m)
    (mc_ProvisionerID m) (mc_Provisioning m).
Definition machine_version (v : Z) (m : MachineMessage) : MachineMessage :=
  MkMachine (mc_ID m) (mc_ResourceID m) (mc_Name m) v (mc_Deleted m) (mc_Info m) (mc_Status m) (mc_CreatedBy m)
    (mc_ProvisionerID m) (mc_Provisioning m).
Definition machine_deleted (m : MachineMessage) : MachineMessage :=
  MkMachine (mc_ID m) (mc_ResourceID m) (mc_Name m) (mc_TokenVersion m) true (mc_Info m) (mc_Status m) (mc_CreatedBy m)
    (mc_ProvisionerID m) (mc_Provisioning m).
Definition machine_provisioning (p : ProvisioningStatus) (m : MachineMessage) : MachineMessage :=
  MkMachine (mc_ID m) (mc_ResourceID m) (mc_Name m) (mc_TokenVersion m) (mc_Deleted m) (mc_Info m) (mc_Status m)
    (mc_CreatedBy m) (mc_ProvisionerID m) (Some p).
Definition agent_status (s : Status) (a : AgentMessage) : AgentMessage :=
  MkAgentMessage (an_ID a) (an_ResourceID a) (an_Name a) (an_TokenVersion a) (an_Deleted a) (an_MachineID a) (an_OwnerID a)
    (an_Enabled a) (an_Info a) (an_AcpConfig a) (an_Capability a) s.
Definition agent_info (i : Info) (acp capability : string) (a : AgentMessage) : AgentMessage :=
  MkAgentMessage (an_ID a) (an_ResourceID a) (an_Name a) (an_TokenVersion a) (an_Deleted a) (an_MachineID a) (an_OwnerID a)
    (an_Enabled a) i acp capability (an_Status a).
Definition agent_version (v : Z) (a : AgentMessage) : AgentMessage :=
  MkAgentMessage (an_ID a) (an_ResourceID a) (an_Name a) v (an_Deleted a) (an_MachineID a) (an_OwnerID a)
    (an_Enabled a) (an_Info a) (an_AcpConfig a) (an_Capability a) (an_Status a).
Definition provisioner_status (s : ProvisionerStatus) (p : ProvisionerMessage) : ProvisionerMessage :=
  MkProvisionerMessage (pr_ID p) (pr_ResourceID p) (pr_Name p) (pr_Backend p) (pr_Description p) (pr_TokenVersion p)
    (pr_CreatedBy p) (pr_Deleted p) s.
Definition provisioner_version (v : Z) (deleted : bool) (p : ProvisionerMessage) : ProvisionerMessage :=
  MkProvisionerMessage (pr_ID p) (pr_ResourceID p) (pr_Name p) (pr_Backend p) (pr_Description p) v
    (pr_CreatedBy p) deleted (pr_Status p).

(** ** machine_token.go, agent_token.go *)

Inductive TokenType := TYPE_UNSPECIFIED | TYPE_BOOTSTRAP | TYPE_REFRESH | TYPE_ACCESS.
Inductive TokenState := STATE_UNSPECIFIED | STATE_ACTIVE | STATE_CONSUMED | STATE_REVOKED.

Definition tokenTokenTypeToString (t : TokenType) : string :=
  match t with
  | TYPE_BOOTSTRAP => "BOOTSTRAP" | TYPE_REFRESH => "REFRESH" | TYPE_ACCESS => "ACCESS" | TYPE_UNSPECIFIED => "UNKNOWN"
  end.
Definition machineTokenTypeToString : TokenType → string := tokenTokenTypeToString.

Definition tokenStateToString (s : TokenState) : string :=
  match s with
  | STATE_ACTIVE => "ACTIVE" | STATE_CONSUMED => "CONSUMED" | STATE_REVOKED => "REVOKED" | STATE_UNSPECIFIED => "UNKNOWN"
  end.
Definition machineTokenStateToString : TokenState → string := tokenStateToString.

Definition stringToAgentTokenState (s : string) : TokenState :=
  if String.eqb s "ACTIVE" then STATE_ACTIVE
  else if String.eqb s "CONSUMED" then STATE_CONSUMED
  else if String.eqb s "REVOKED" then STATE_REVOKED
  else STATE_UNSPECIFIED.
Definition stringToMachineTokenState : string → TokenState := stringToAgentTokenState.

(** The unique index on the hash. *)
Definition hash_taken (h : string) (l : list TokenRow) : bool := existsb (λ t, String.eqb (tk_Hash t) h) l.

Definition token_row (id principal : Z) (hash : string) (ty : TokenType) (family : string) (state : TokenState)
    (fingerprint : string) (expiresAt : Z) (createdBy : string) : TokenRow :=
  MkToken id principal hash (tokenTokenTypeToString ty) family (tokenStateToString state) fingerprint expiresAt None None
    createdBy.

Definition CreateMachineToken (machineID : Z) (hash : string) (ty : TokenType) (family : string) (state : TokenState)
    (fingerprint : string) (expiresAt : Z) (createdBy : string) : M Db Code unit := λ d,
  if tw_fails w "CreateMachineToken" || hash_taken hash (d_MachineTokens d) then (d, Err CodeUnknown)
  else (set_Seq Z.succ (set_MachineTokens
          (λ l, l ++ [token_row (d_Seq d) machineID hash ty family state fingerprint expiresAt createdBy]) d), Ok tt).
Definition CreateAgentToken (agentID : Z) (hash : string) (ty : TokenType) (family : string) (state : TokenState)
    (fingerprint : string) (expiresAt : Z) (createdBy : string) : M Db Code unit := λ d,
  if tw_fails w "CreateAgentToken" || hash_taken hash (d_AgentTokens d) then (d, Err CodeUnknown)
  else (set_Seq Z.succ (set_AgentTokens
          (λ l, l ++ [token_row (d_Seq d) agentID hash ty family state fingerprint expiresAt createdBy]) d), Ok tt).

Definition find_token (hash : string) (l : list TokenRow) : option TokenRow :=
  List.find (λ t, String.eqb (tk_Hash t) hash) l.
Definition GetMachineTokenByHash (hash : string) : M Db Code (option TokenRow) :=
  query "GetMachineTokenByHash" (λ d, find_token hash (d_MachineTokens d)).
Definition GetAgentTokenByHash (hash : string) : M Db Code (option TokenRow) :=
  query "GetAgentTokenByHash" (λ d, find_token hash (d_AgentTokens d)).

Definition token_state (state : string) (consumed revoked : option Z) (t : TokenRow) : TokenRow :=
  MkToken (tk_ID t) (tk_Principal t) (tk_Hash t) (tk_Type t) (tk_Family t) state (tk_Fingerprint t) (tk_ExpiresAt t)
    consumed revoked (tk_CreatedBy t).

(** The three updates: a consumption with its time, a revocation, any other. *)
Definition set_state (now : Z) (state : TokenState) (consumedAt : option Z) (t : TokenRow) : TokenRow :=
  let s := tokenStateToString state in
  match state, consumedAt with
  | STATE_CONSUMED, Some _ => token_state s consumedAt (tk_RevokedAt t) t
  | STATE_REVOKED, _ => token_state s (tk_ConsumedAt t) (Some now) t
  | _, _ => token_state s (tk_ConsumedAt t) (tk_RevokedAt t) t
  end.
Definition UpdateAgentTokenState (tokenID : Z) (state : TokenState) (consumedAt : option Z) : M Db Code unit :=
  exec "UpdateAgentTokenState"
    (λ d, set_AgentTokens (update (λ t, tk_ID t =? tokenID) (set_state (d_Clock d) state consumedAt)) d).
Definition UpdateMachineTokenState (tokenID : Z) (state : TokenState) (consumedAt : option Z) : M Db Code unit :=
  exec "UpdateMachineTokenState"
    (λ d, set_MachineTokens (update (λ t, tk_ID t =? tokenID) (set_state (d_Clock d) state consumedAt)) d).

Definition usable (t : TokenRow) : bool := String.eqb (tk_State t) "ACTIVE" || String.eqb (tk_State t) "CONSUMED".
Definition revoke (now : Z) (t : TokenRow) : TokenRow := token_state "REVOKED" (tk_ConsumedAt t) (Some now) t.

Definition RevokeAllAgentTokens (agentID : Z) : M Db Code unit :=
  exec "RevokeAllAgentTokens"
    (λ d, set_AgentTokens (update (λ t, (tk_Principal t =? agentID) && usable t) (revoke (d_Clock d))) d).
Definition RevokeTokenFamily (tokenFamily : string) : M Db Code unit :=
  exec "RevokeTokenFamily"
    (λ d, set_AgentTokens (update (λ t, String.eqb (tk_Family t) tokenFamily && usable t) (revoke (d_Clock d))) d).
Definition RevokeAllMachineTokens (machineID : Z) : M Db Code unit :=
  exec "RevokeAllMachineTokens"
    (λ d, set_MachineTokens (update (λ t, (tk_Principal t =? machineID) && usable t) (revoke (d_Clock d))) d).
Definition RevokeMachineTokenFamily (tokenFamily : string) : M Db Code unit :=
  exec "RevokeMachineTokenFamily"
    (λ d, set_MachineTokens (update (λ t, String.eqb (tk_Family t) tokenFamily && usable t) (revoke (d_Clock d))) d).

(** Whether a row was consumed. *)
Definition ConsumeMachineToken (tokenID : Z) : M Db Code bool :=
  consumedAt ← gets d_Clock;
  stmt "ConsumeMachineToken" (λ d,
    let p t := (tk_ID t =? tokenID) && String.eqb (tk_State t) "ACTIVE" in
    (set_MachineTokens (update p (λ t, token_state "CONSUMED" (Some consumedAt) (tk_RevokedAt t) t)) d,
     Nat.eqb (length (List.filter p (d_MachineTokens d))) 1)).

(** One transaction: the version, the revocations, the new token. *)
Definition RotateMachineTokens (current : MachineMessage) (newVersion : Z) (hash : string) (fingerprint : string)
    (expiresAt : Z) (createdBy : string) : M Db Code MachineMessage :=
  (λ d,
    let d1 := set_Machines (update (λ m, mc_ID m =? mc_ID current) (machine_version newVersion)) d in
    let d2 := set_MachineTokens (update (λ t, (tk_Principal t =? mc_ID current) && usable t) (revoke (d_Clock d))) d1 in
    if tw_fails w "RotateMachineTokens" || hash_taken hash (d_MachineTokens d2) then (d, Err CodeUnknown)
    else (set_Seq Z.succ (set_MachineTokens (λ l, l ++ [token_row (d_Seq d) (mc_ID current) hash TYPE_REFRESH
            (mc_ResourceID current) STATE_ACTIVE fingerprint expiresAt createdBy]) d2), Ok tt)) ;;
  m ← GetMachine (mc_ID current);
  match m with Some m => mret m | None => throw Panic end.

(** The machine and its first token; the family is the machine's resource id. *)
Definition CreateMachineWithToken (resourceID name : string) (info : Info) (createdBy provisionerID : Z)
    (provisioning : option ProvisioningStatus) (hash fingerprint : string) (expiresAt : Z) (tokenCreatedBy : string)
    : M Db Code MachineMessage := λ d,
  let id := d_Seq d in
  let m := MkMachine id resourceID name 1 false info (MkStatus false 0 0 "") createdBy provisionerID provisioning in
  if tw_fails w "CreateMachineWithToken" || existsb (λ m, String.eqb (mc_ResourceID m) resourceID) (d_Machines d)
     || hash_taken hash (d_MachineTokens d) then (d, Err CodeUnknown)
  else (set_Seq (λ n, Z.succ (Z.succ n)) (set_MachineTokens (λ l, l ++ [token_row (Z.succ id) id hash TYPE_REFRESH resourceID STATE_ACTIVE
          fingerprint expiresAt tokenCreatedBy]) (set_Machines (λ l, l ++ [m]) d)), Ok m).

(** ** machine_session.go, agent_session.go *)

Definition session_end (state reason : string) (now : Z) (s : SessionRow) : SessionRow :=
  MkSession (ss_ID s) (ss_Principal s) (ss_Family s) state (ss_SourceIP s) (ss_Fingerprint s) (ss_Version s)
    (ss_ConnectedAt s) (Some now) (ss_LastHeartbeatAt s) (Some reason).
Definition session_touch (now : Z) (s : SessionRow) : SessionRow :=
  MkSession (ss_ID s) (ss_Principal s) (ss_Family s) (ss_State s) (ss_SourceIP s) (ss_Fingerprint s) (ss_Version s)
    (ss_ConnectedAt s) (ss_DisconnectedAt s) now (ss_Reason s).
Definition live (s : SessionRow) : bool := String.eqb (ss_State s) "ACTIVE".

(** The id is unique. *)
Definition CreateMachineSession (s : SessionRow) : M Db Code unit := λ d,
  if tw_fails w "CreateMachineSession" || existsb (λ x, String.eqb (ss_ID x) (ss_ID s)) (d_MachineSessions d)
  then (d, Err CodeUnknown) else (set_MachineSessions (λ l, l ++ [s]) d, Ok tt).
Definition CreateAgentSession (s : SessionRow) : M Db Code unit := λ d,
  if tw_fails w "CreateAgentSession" || existsb (λ x, String.eqb (ss_ID x) (ss_ID s)) (d_AgentSessions d)
  then (d, Err CodeUnknown) else (set_AgentSessions (λ l, l ++ [s]) d, Ok tt).

Definition find_session (id : string) (l : list SessionRow) : option SessionRow :=
  List.find (λ s, String.eqb (ss_ID s) id) l.
(** The join drops a session whose principal has no row. *)
Definition GetMachineSession (sessionID : string) : M Db Code (option SessionRow) :=
  query "GetMachineSession" (λ d,
    s ← find_session sessionID (d_MachineSessions d);
    if existsb (λ m, mc_ID m =? ss_Principal s) (d_Machines d) then Some s else None).
Definition GetAgentSession (sessionID : string) : M Db Code (option SessionRow) :=
  query "GetAgentSession" (λ d,
    s ← find_session sessionID (d_AgentSessions d);
    if existsb (λ a, an_ID a =? ss_Principal s) (d_Agents d) then Some s else None).

Definition TouchMachineSession (sessionID : string) : M Db Code unit :=
  exec "TouchMachineSession"
    (λ d, set_MachineSessions (update (λ s, String.eqb (ss_ID s) sessionID) (session_touch (d_Clock d))) d).
Definition TouchAgentSession (sessionID : string) : M Db Code unit :=
  exec "TouchAgentSession"
    (λ d, set_AgentSessions (update (λ s, String.eqb (ss_ID s) sessionID) (session_touch (d_Clock d))) d).

Definition TerminateMachineSession (sessionID reason : string) : M Db Code unit :=
  exec "TerminateMachineSession" (λ d, set_MachineSessions
    (update (λ s, String.eqb (ss_ID s) sessionID && live s) (session_end "TERMINATED" reason (d_Clock d))) d).
Definition TerminateAgentSession (sessionID reason : string) : M Db Code unit :=
  exec "TerminateAgentSession" (λ d, set_AgentSessions
    (update (λ s, String.eqb (ss_ID s) sessionID && live s) (session_end "TERMINATED" reason (d_Clock d))) d).

Definition TerminateAllMachineSessions (machineID : Z) (reason : string) : M Db Code unit :=
  exec "TerminateAllMachineSessions" (λ d, set_MachineSessions
    (update (λ s, (ss_Principal s =? machineID) && live s) (session_end "KICKED" reason (d_Clock d))) d).
Definition TerminateAllAgentSessions (agentID : Z) (reason : string) : M Db Code unit :=
  exec "TerminateAllAgentSessions" (λ d, set_AgentSessions
    (update (λ s, (ss_Principal s =? agentID) && live s) (session_end "KICKED" reason (d_Clock d))) d).

(** ** The interceptor *)

Inductive Caller :=
| CUser (u : User) | CAgent (a : AgentMessage) | CMachine (m : MachineMessage) | CProvisioner (p : ProvisionerMessage).

(** strconv.Atoi: a sign and decimal digits, within 64 bits. *)
Definition Atoi (s : string) : option Z :=
  let '(neg, body) := match s with
                      | String "-"%char b => (true, b)
                      | String "+"%char b => (false, b)
                      | _ => (false, s)
                      end in
  if String.eqb body "" || negb (str_forallb is_digit body) then None
  else let n := if neg : bool then - dec body else dec body in
       if (- 2^63 <=? n) && (n <? 2^63) then Some n else None.

(** profile.LastActiveTS *)
Definition mark_active : M Db Code unit := now ← nowSec; modify (set_LastActive (λ _, now)).

Definition authenticateUserByClaims (claims : Claims) : M Db Code User :=
  match Atoi (c_Subject claims) with
  | None => throw CodeUnauthenticated
  | Some principalID =>
      user ← wrap CodeUnauthenticated (GetUserByID principalID);
      match user with
      | None => throw CodeUnauthenticated
      | Some u => if u_deleted u then throw CodeUnauthenticated else mark_active ;; mret u
      end
  end.

Definition authenticateAgentByClaims (claims : Claims) : M Db Code AgentMessage :=
  agent ← wrap CodeUnauthenticated (GetAgentByResourceID (c_Subject claims));
  match agent with
  | None => throw CodeUnauthenticated
  | Some a =>
      if an_Deleted a then throw CodeUnauthenticated
      else if negb (an_TokenVersion a =? c_TokenVersion claims) then throw CodeUnauthenticated
      else mark_active ;; mret a
  end.

Definition authenticateMachineByClaims (claims : Claims) : M Db Code MachineMessage :=
  machine ← wrap CodeUnauthenticated (GetMachineByResourceID (c_Subject claims));
  match machine with
  | None => throw CodeUnauthenticated
  | Some m =>
      if mc_Deleted m then throw CodeUnauthenticated
      else if negb (String.eqb (c_TokenType claims) TokenTypeAccess) then throw CodeUnauthenticated
      else if negb (mc_TokenVersion m =? c_TokenVersion claims) then throw CodeUnauthenticated
      else mark_active ;; mret m
  end.

Definition authenticateProvisionerByClaims (claims : Claims) : M Db Code ProvisionerMessage :=
  provisioner ← wrap CodeUnauthenticated (GetProvisionerByResourceID (c_Subject claims));
  match provisioner with
  | None => throw CodeUnauthenticated
  | Some p =>
      if pr_Deleted p then throw CodeUnauthenticated
      else if negb (pr_TokenVersion p =? c_TokenVersion claims) then throw CodeUnauthenticated
      else mark_active ;; mret p
  end.

(** The audiences, in the order the branches try them. *)
Definition expected_audiences : list string :=
  [AgentAccessTokenAudienceFmt (tw_mode w); MachineAccessTokenAudienceFmt (tw_mode w);
   AccessTokenAudienceFmt (tw_mode w); ProvisionerAccessTokenAudienceFmt (tw_mode w)].

(** The claims of a token that is signed, not expired and for [aud]. *)
Definition parse_for (aud token : string) : M Db Code Claims :=
  now ← gets d_Clock;
  match ParseWithClaims now (keyFunc (tw_secret w)) token with
  | Err _ => throw CodeUnauthenticated
  | Ok c => if audienceContains (c_Audience c) aud then mret c else throw CodeUnauthenticated
  end.

(** [claims.ExpiresAt.Unix()], of a pointer. *)
Definition expires_at (c : Claims) : M Db Code Z :=
  match c_ExpiresAt c with Some e => mret e | None => throw Panic end.

(** The caller, and when its token expires (0 for a provisioner's). *)
Definition getUserOrAgentConnect (accessTokenStr : string) : M Db Code (Caller * Z) :=
  if String.eqb accessTokenStr "" then throw CodeUnauthenticated else
  expired ← gets d_Expired;
  if bool_decide (accessTokenStr ∈ expired) then throw CodeUnauthenticated else
  match audienceKind (peekTokenAudience accessTokenStr) expected_audiences with
  | Some 0%nat =>
      claims ← parse_for (AgentAccessTokenAudienceFmt (tw_mode w)) accessTokenStr;
      a ← authenticateAgentByClaims claims; e ← expires_at claims; mret (CAgent a, e)
  | Some 1%nat =>
      claims ← parse_for (MachineAccessTokenAudienceFmt (tw_mode w)) accessTokenStr;
      m ← authenticateMachineByClaims claims; e ← expires_at claims; mret (CMachine m, e)
  | Some 2%nat =>
      claims ← parse_for (AccessTokenAudienceFmt (tw_mode w)) accessTokenStr;
      u ← authenticateUserByClaims claims; e ← expires_at claims; mret (CUser u, e)
  | Some _ =>
      claims ← parse_for (ProvisionerAccessTokenAudienceFmt (tw_mode w)) accessTokenStr;
      p ← authenticateProvisionerByClaims claims; mret (CProvisioner p, 0)
  | None => throw CodeUnauthenticated
  end.

(** What a handler finds in its context. *)
Record ReqContext := MkReqContext {
  rc_User : option User; rc_Agent : option AgentMessage; rc_Machine : option MachineMessage;
  rc_Provisioner : option ProvisionerMessage; rc_ExpiresAt : option Z; rc_SourceIP : string }.
Definition anonymous (sourceIP : string) : ReqContext := MkReqContext None None None None None sourceIP.

Definition resolveDeclaredAgent (machine : MachineMessage) (h : Header) : M Db Code (option AgentMessage) :=
  if String.eqb (h_DeclaredAgent h) "" then mret None else
  match GetAgentResourceID (h_DeclaredAgent h) with
  | Err _ => throw CodeInvalidArgument
  | Ok resourceID =>
      agent ← wrap CodeInternal (GetAgentByResourceID resourceID);
      match agent with
      | None => throw CodePermissionDenied
      | Some a =>
          if an_Deleted a then throw CodePermissionDenied
          else if negb (an_MachineID a =? mc_ID machine) then throw CodePermissionDenied
          else mret (Some a)
      end
  end.

Definition injectAuthResult (sourceIP : string) (result : Caller * Z) (h : Header) : M Db Code ReqContext :=
  let expires := if 0 <? result.2 then Some result.2 else None in
  match result.1 with
  | CUser u => mret (MkReqContext (Some u) None None None expires sourceIP)
  | CAgent a => mret (MkReqContext None (Some a) None None expires sourceIP)
  | CMachine m =>
      declared ← resolveDeclaredAgent m h;
      mret (MkReqContext None declared (Some m) None expires sourceIP)
  | CProvisioner p => mret (MkReqContext None None None (Some p) expires sourceIP)
  end.

Definition authenticate (h : Header) (peer procedure : string) : M Db Code ReqContext :=
  let sourceIP := extractSourceIP h peer (tw_trustProxy w) in
  match GetTokenFromHeaders (tw_unicode w) h with
  | None => throw CodeUnauthenticated
  | Some token =>
      match resolveAuthContext (tw_registry w) procedure with
      | Err c => throw c
      | Ok authContext =>
          r ← attempt (getUserOrAgentConnect token);
          match r with
          | Err Panic => throw Panic
          | Err c =>
              if IsAuthenticationAllowed procedure authContext (String.eqb (tw_mode w) "dev")
              then mret (anonymous sourceIP) else throw c
          | Ok result => injectAuthResult sourceIP result h
          end
      end
  end.

Definition AuthenticateHTTP (h : Header) (remoteAddr : string) : M Db Code ReqContext :=
  let sourceIP := extractSourceIP h remoteAddr (tw_trustProxy w) in
  match GetTokenFromHeaders (tw_unicode w) h with
  | None => throw CodeUnknown
  | Some token => result ← getUserOrAgentConnect token; injectAuthResult sourceIP result h
  end.

(** ** token_refresh.go *)

Record refreshPrincipal := MkRefreshPrincipal {
  rp_ID : Z; rp_Name : string; rp_ResourceID : string; rp_TokenVersion : Z; rp_Deleted : bool }.
Definition no_principal : refreshPrincipal := MkRefreshPrincipal 0 "" "" 0 true.

Record refreshStoredToken := MkRefreshStored {
  rt_ID : Z; rt_PrincipalID : Z; rt_Family : string; rt_State : TokenState; rt_ExpiresAt : Z; rt_Fingerprint : string }.
Definition no_stored : refreshStoredToken := MkRefreshStored 0 0 "" STATE_UNSPECIFIED 0 "".
Definition stored_token (t : option TokenRow) : refreshStoredToken :=
  match t with
  | None => no_stored
  | Some t => MkRefreshStored (tk_ID t) (tk_Principal t) (tk_Family t) (stringToAgentTokenState (tk_State t))
                (tk_ExpiresAt t) (tk_Fingerprint t)
  end.

Inductive refreshAction := refreshActionProceed | refreshActionRevokeFamily | refreshActionInvalid.

Definition refreshReuseAction (state : TokenState) : refreshAction :=
  match state with
  | STATE_ACTIVE => refreshActionProceed
  | STATE_CONSUMED | STATE_REVOKED => refreshActionRevokeFamily
  | STATE_UNSPECIFIED => refreshActionInvalid
  end.
Definition machineRefreshReuseAction (state : TokenState) : refreshAction :=
  match state with
  | STATE_ACTIVE => refreshActionProceed
  | STATE_CONSUMED | STATE_REVOKED => refreshActionRevokeFamily
  | STATE_UNSPECIFIED => refreshActionInvalid
  end.

(** Other requests run at gap 0, after the token is looked up, and at gap 1, after
    the principal is. *)
Definition validateRefreshToken (tokenStr fingerprint : string) (parse : Z → string → option (Z * string))
    (lookup : string → M Db Code refreshStoredToken) (reuseAction : TokenState → refreshAction)
    (revokeFamily : string → M Db Code unit) (loadPrincipal : Z → M Db Code refreshPrincipal)
    : M Db Code (refreshPrincipal * refreshStoredToken) :=
  if String.eqb tokenStr "" then throw CodeInvalidArgument else
  now ← gets d_Clock;
  match parse now tokenStr with
  | None => throw CodeUnauthenticated
  | Some (tokenVersion, tokenType) =>
      if negb (String.eqb tokenType TokenTypeRefresh) then throw CodeUnauthenticated else
      stored ← wrap CodeInternal (lookup (hashToken tokenStr));
      if rt_ID stored =? 0 then throw CodeUnauthenticated else
      match reuseAction (rt_State stored) with
      | refreshActionRevokeFamily =>
          wrap CodeInternal (revokeFamily (rt_Family stored)) ;; throw CodePermissionDenied
      | refreshActionInvalid => throw CodeUnauthenticated
      | refreshActionProceed =>
          gap 0 ;;
          now ← gets d_Clock;
          if rt_ExpiresAt stored <? now then throw CodeUnauthenticated
          else if negb (String.eqb fingerprint "") && negb (String.eqb (rt_Fingerprint stored) "")
                  && negb (String.eqb fingerprint (rt_Fingerprint stored)) then throw CodePermissionDenied
          else
            principal ← wrap CodeInternal (loadPrincipal (rt_PrincipalID stored));
            gap 1 ;;
            if rp_Deleted principal then throw CodeUnauthenticated
            else if negb (tokenVersion =? rp_TokenVersion principal) then
              wrap CodeInternal (revokeFamily (rt_Family stored)) ;; throw CodeUnauthenticated
            else mret (principal, stored)
      end
  end.

Definition claims_of (c : Claims) : Z * string := (c_TokenVersion c, c_TokenType c).

Definition parseAgent (now : Z) (token : string) : option (Z * string) :=
  claims_of <$> ParseAgentToken now token (tw_secret w).
Definition lookupAgentToken (hash : string) : M Db Code refreshStoredToken :=
  t ← GetAgentTokenByHash hash; mret (stored_token t).
Definition loadAgent (id : Z) : M Db Code refreshPrincipal :=
  a ← GetAgent id;
  mret (match a with
        | None => no_principal
        | Some a => MkRefreshPrincipal (an_ID a) (an_Name a) (an_ResourceID a) (an_TokenVersion a) (an_Deleted a)
        end).

Definition parseMachine (now : Z) (token : string) : option (Z * string) :=
  claims_of <$> ParseMachineToken now token (tw_secret w).
Definition lookupMachineToken (hash : string) : M Db Code refreshStoredToken :=
  t ← GetMachineTokenByHash hash; mret (stored_token t).
Definition loadMachine (id : Z) : M Db Code refreshPrincipal :=
  m ← GetMachine id;
  mret (match m with
        | None => no_principal
        | Some m => MkRefreshPrincipal (mc_ID m) (mc_Name m) (mc_ResourceID m) (mc_TokenVersion m) (mc_Deleted m)
        end).

(** ** Who may *)

Definition isMachineCreator (user : option User) (m : MachineMessage) : bool :=
  match user with Some u => negb (mc_CreatedBy m =? 0) && (mc_CreatedBy m =? u_id u) | None => false end.

(** CheckPermission of a signed-in user; an error denies. *)
Definition permitted (perm : string) (user : option User) (ref : option ResourceRef) : bool :=
  match user with
  | None => false
  | Some _ => match CheckPermission (tw_env w) perm user None ref with Ok ok => ok | Err _ => false end
  end.

Definition isMachineAdmin (user : option User) (m : MachineMessage) : bool :=
  isMachineCreator user m || permitted "laelia.machines.edit" user None.
Definition canDeleteMachine (user : option User) (m : MachineMessage) : bool :=
  isMachineCreator user m || permitted "laelia.machines.delete" user None.
Definition isAgentOwner (user : option User) (a : AgentMessage) : bool :=
  match user with Some u => negb (an_OwnerID a =? 0) && (an_OwnerID a =? u_id u) | None => false end.
Definition canEditAgent (user : option User) (a : AgentMessage) : bool :=
  isAgentOwner user a ||
  permitted "laelia.agents.edit" user (Some (MkRef AGENT (FormatAgentUID (an_ResourceID a)))).

Definition check (b : bool) (c : Code) : M Db Code unit := if b then mret tt else throw c.
Definition parsed {A} (r : res nameerr A) : M Db Code A :=
  match r with Ok a => mret a | Err _ => throw CodeInvalidArgument end.
Definition found {A} (c : Code) (o : option A) : M Db Code A := match o with Some a => mret a | None => throw c end.
Definition emit (e : Event) : M Db Code unit := modify (set_Events (λ l, l ++ [e])).
Definition or_default (d s : string) : string := if String.eqb s "" then d else s.
End tokens.
