(* ===== verification/AgentTokens.v ===== *)
(** The tokens and the sessions of agents ([api/v1/agent_token.go],
    [agent_connection.go]).

    Other requests run at the gaps: 0 and 1 in the checks of a refresh
    ([validateRefreshToken]), 2 before the refreshed token is consumed, 3 between
    the read and the write of a rotation or revocation, 4 in ConnectAgent after the
    bootstrap token is checked. *)

From stdpp Require Import base list strings numbers gmap sets.
From S2P Require Import Prelude Strings Names Nonce Iam Jwt Tokens.
Local Open Scope Z_scope.

Definition accessTokenDuration : Z := 15 * Minute.
Definition refreshTokenDuration : Z := 24 * Hour.
Definition bootstrapTokenDuration : Z := 7 * 24 * Hour.
Definition refreshTokenReuseWindow : Z := 30 * Second.

Section agents.
Context `{!Jwt, !Digest, !Hmac} (w : TokenWorld).

(** [agents/{agent}] and the permission to edit it. *)
Definition editable_agent (user : option User) (name : string) : M Db Code AgentMessage :=
  resourceID ← parsed (GetAgentResourceID name);
  agent ← wrap CodeInternal (GetAgentByResourceID w resourceID);
  a ← found CodeNotFound agent;
  check (canEditAgent w user a) CodePermissionDenied ;; mret a.

(** The version moves from what was read. *)
Definition bump_agent (a : AgentMessage) : M Db Code AgentMessage :=
  wrap CodeInternal (UpdateAgent w a (agent_version (an_TokenVersion a + 1))).

Definition RotateAgentToken (user : option User) (name reason : string) : M Db Code string :=
  a ← editable_agent user name;
  gap w 3 ;;
  let newTokenVersion := an_TokenVersion a + 1 in
  let newTokenFamily := an_ResourceID a +:+ ":v" +:+ pretty.pretty newTokenVersion in
  jti ← draw w; now ← gets d_Clock;
  let bootstrapToken := GenerateAgentTokenWithFamily jti now (an_Name a) (an_ResourceID a) newTokenVersion
                          TokenTypeBootstrap newTokenFamily (tw_mode w) (tw_secret w) bootstrapTokenDuration in
  bump_agent a ;;
  wrap CodeInternal (RevokeAllAgentTokens w (an_ID a)) ;;
  now ← gets d_Clock;
  wrap CodeInternal (CreateAgentToken w (an_ID a) (hashToken bootstrapToken) TYPE_BOOTSTRAP newTokenFamily STATE_ACTIVE ""
    (now + bootstrapTokenDuration) "system") ;;
  attempt (TerminateAllAgentSessions w (an_ID a) (or_default "token_rotated" reason)) ;;
  mret bootstrapToken.

Definition RevokeAgentToken (user : option User) (name reason : string) : M Db Code unit :=
  a ← editable_agent user name;
  gap w 3 ;;
  bump_agent a ;;
  wrap CodeInternal (RevokeAllAgentTokens w (an_ID a)) ;;
  wrap CodeInternal (TerminateAllAgentSessions w (an_ID a) (or_default "token_revoked" reason)).

(** time.AfterFunc: the token is revoked when its timer fires. *)
Definition scheduleTokenRevoke (tokenID : Z) : M Db Code unit :=
  now ← gets d_Clock; modify (set_Timers (λ l, l ++ [(tokenID, now + refreshTokenReuseWindow)])).

(** A timer that fires; its errors are logged. *)
Definition fireTokenRevoke (tokenID : Z) : M Db Code unit :=
  attempt (UpdateAgentTokenState w tokenID STATE_REVOKED None) ;;
  modify (set_Timers (List.filter (λ t, negb (t.1 =? tokenID)))).

Definition RefreshAgentToken (refreshToken fingerprint : string) : M Db Code (string * string * Z) :=
  '(principal, stored) ← validateRefreshToken w refreshToken fingerprint (parseAgent w) (lookupAgentToken w)
                           refreshReuseAction (RevokeTokenFamily w) (loadAgent w);
  gap w 2 ;;
  (match rt_State stored with
   | STATE_ACTIVE =>
       consumedAt ← gets d_Clock;
       wrap CodeInternal (UpdateAgentTokenState w (rt_ID stored) STATE_CONSUMED (Some consumedAt)) ;;
       scheduleTokenRevoke (rt_ID stored)
   | _ => mret tt
   end) ;;
  jti ← draw w; now ← gets d_Clock;
  let accessToken := GenerateAgentTokenWithSession jti now (rp_Name principal) (rp_ResourceID principal)
                       (rp_TokenVersion principal) TokenTypeAccess "" (tw_mode w) (tw_secret w) accessTokenDuration in
  jti' ← draw w;
  let newRefreshToken := GenerateAgentTokenWithSession jti' now (rp_Name principal) (rp_ResourceID principal)
                           (rp_TokenVersion principal) TokenTypeRefresh "" (tw_mode w) (tw_secret w)
                           refreshTokenDuration in
  wrap CodeInternal (CreateAgentToken w (rp_ID principal) (hashToken newRefreshToken) TYPE_REFRESH (rt_Family stored)
    STATE_ACTIVE fingerprint (now + refreshTokenDuration) "") ;;
  mret (accessToken, newRefreshToken, now + accessTokenDuration).

(** ** Connections *)

Definition ForceDisconnectAgent (user : option User) (name reason : string) : M Db Code unit :=
  a ← editable_agent user name;
  wrap CodeInternal (TerminateAllAgentSessions w (an_ID a) (or_default "admin_forced" reason)) ;;
  wrap CodeInternal (UpdateAgent w a (agent_status OFFLINE)) ;; mret tt.

(** The agent, the token's family and its row. *)
Definition authenticateBootstrapToken (tokenStr : string) : M Db Code (AgentMessage * string * Z) :=
  now ← gets d_Clock;
  match ParseAgentToken now tokenStr (tw_secret w) with
  | None => throw CodeUnauthenticated
  | Some claims =>
      if negb (String.eqb (c_TokenType claims) TokenTypeBootstrap) then throw CodeUnauthenticated else
      agent ← wrap CodeInternal (GetAgentByResourceID w (c_Subject claims));
      a ← found CodeUnauthenticated agent;
      if an_Deleted a then throw CodeUnauthenticated
      else if negb (an_TokenVersion a =? c_TokenVersion claims) then throw CodeUnauthenticated
      else
        storedToken ← wrap CodeInternal (GetAgentTokenByHash w (hashToken tokenStr));
        match storedToken with
        | None => throw CodeUnauthenticated
        | Some t =>
            match stringToAgentTokenState (tk_State t) with
            | STATE_ACTIVE =>
                if tk_ExpiresAt t <? now then throw CodeUnauthenticated
                else mret (a, or_default (c_Subject claims) (c_TokenFamily claims), tk_ID t)
            | _ => throw CodeUnauthenticated
            end
        end
  end.

Record ConnectAgentRequest := MkConnectAgent {
  ca_BootstrapToken : string; ca_Info : option Info; ca_Fingerprint : string }.

Record ConnectAgentResponse := MkConnectedAgent {
  cr_SessionId : string; cr_NextNonce : string; cr_AcpConfig : string; cr_AccessToken : string;
  cr_RefreshToken : string; cr_AccessTokenExpiresAt : option Z }.

Definition on_nonces {A} (f : NonceManager → NonceManager * A) : M Db Code A := λ d,
  let '(nm, a) := f (d_Nonces d) in (set_Nonces (λ _, nm) d, Ok a).
Definition generateNonce (agentResourceID sessionID : string) : M Db Code string :=
  key ← draw w; random ← draw w; now ← gets d_Clock;
  on_nonces (GenerateNonce key random agentResourceID sessionID now).
Definition verifyNonce (nonce agentResourceID sessionID : string) : M Db Code bool :=
  now ← gets d_Clock; on_nonces (VerifyNonce nonce agentResourceID sessionID now now).

Definition ConnectAgent (rc : ReqContext) (req : ConnectAgentRequest) : M Db Code ConnectAgentResponse :=
  '(agent, tokenFamily, bootstrapTokenID) ←
    (match rc_Agent rc with
     | Some a => mret (a, "", 0)
     | None =>
         if String.eqb (ca_BootstrapToken req) "" then throw CodeUnauthenticated
         else authenticateBootstrapToken (ca_BootstrapToken req)
     end);
  gap w 4 ;;
  let tokenFamily := or_default (an_ResourceID agent) tokenFamily in
  sessionID ← draw w;
  nonce ← generateNonce (an_ResourceID agent) sessionID;
  now ← gets d_Clock;
  let sec := now / Second in
  let acp := an_AcpConfig agent in
  updated ← wrap CodeInternal (UpdateAgent w agent (λ a,
    agent_status (MkStatus true sec sec sessionID)
      (agent_info (default no_info (ca_Info req)) acp (tw_capability w acp) a)));
  wrap CodeInternal (TerminateAllAgentSessions w (an_ID agent) "replaced") ;;
  let reportedIP := match ca_Info req with Some i => in_Ip i | None => "" end in
  lift_res (ValidateAgentIP reportedIP (rc_SourceIP rc) IPValidationWarn) ;;
  wrap CodeInternal (CreateAgentSession w (MkSession sessionID (an_ID agent) tokenFamily "ACTIVE" (rc_SourceIP rc)
    (ca_Fingerprint req) "" now None now None)) ;;
  if bootstrapTokenID =? 0 then mret (MkConnectedAgent sessionID nonce acp "" "" None) else
  jti ← draw w;
  let accessToken := GenerateAgentTokenWithSession jti now (an_Name updated) (an_ResourceID updated)
                       (an_TokenVersion updated) TokenTypeAccess sessionID (tw_mode w) (tw_secret w)
                       accessTokenDuration in
  jti' ← draw w;
  let refreshToken := GenerateAgentTokenWithSession jti' now (an_Name updated) (an_ResourceID updated)
                        (an_TokenVersion updated) TokenTypeRefresh "" (tw_mode w) (tw_secret w)
                        refreshTokenDuration in
  wrap CodeInternal (CreateAgentToken w (an_ID agent) (hashToken refreshToken) TYPE_REFRESH tokenFamily STATE_ACTIVE
    (ca_Fingerprint req) (now + refreshTokenDuration) "") ;;
  attempt (UpdateAgentTokenState w bootstrapTokenID STATE_CONSUMED (Some now)) ;;
  mret (MkConnectedAgent sessionID nonce acp accessToken refreshToken (Some (now + accessTokenDuration))).

(** Whether an access token is in the last third of its life. *)
Definition near_expiry (now : Z) (expiresAt : option Z) : bool :=
  match expiresAt with
  | None => false
  | Some e => (0 <? e) && (e - accessTokenDuration / Second / 3 <=? now / Second)
  end.

(** The nonce to send next, and a new access token when one is due. *)
Definition AgentHeartbeat (rc : ReqContext) (sessionID previousNonce : string) : M Db Code (string * option (string * Z)) :=
  agent ← found CodeUnauthenticated (rc_Agent rc);
  (if String.eqb sessionID "" then mret tt else
   session ← wrap CodeInternal (GetAgentSession w sessionID);
   s ← found CodeUnauthenticated session;
   check (negb (String.eqb (ss_State s) "KICKED")) CodePermissionDenied ;;
   check (ss_Principal s =? an_ID agent) CodePermissionDenied ;;
   ok ← verifyNonce previousNonce (an_ResourceID agent) sessionID;
   check (ok || String.eqb previousNonce "") CodeUnauthenticated ;;
   wrap CodeInternal (TouchAgentSession w sessionID)) ;;
  nonce ← generateNonce (an_ResourceID agent) sessionID;
  sec ← nowSec;
  modify (set_Heartbeats (λ l, l ++ [(an_ID agent, sec, sessionID)])) ;;
  now ← gets d_Clock;
  if near_expiry now (rc_ExpiresAt rc) then
    jti ← draw w;
    let t := GenerateAgentTokenWithSession jti now (an_Name agent) (an_ResourceID agent) (an_TokenVersion agent)
               TokenTypeAccess sessionID (tw_mode w) (tw_secret w) accessTokenDuration in
    mret (nonce, Some (t, now + accessTokenDuration))
  else mret (nonce, None).

Definition AgentDisconnect (rc : ReqContext) (sessionID reason : string) : M Db Code unit :=
  agent ← found CodeUnauthenticated (rc_Agent rc);
  (if String.eqb sessionID "" then mret tt
   else wrap CodeInternal (TerminateAgentSession w sessionID (or_default "agent_shutdown" reason))) ;;
  modify (set_Nonces (DeleteKey (an_ResourceID agent))) ;;
  wrap CodeInternal (UpdateAgent w agent (agent_status OFFLINE)) ;; mret tt.

End agents.
