(* ===== verification/Machines.v ===== *)
(** Machines and the provisioners that make them: their tokens, sessions, jobs
    ([api/v1/machine_token.go], [machine_connection.go], [machine.go],
    [provisioner.go], [provisioner_stream.go]).

    Other requests run at the gaps: 0 and 1 in the checks of a refresh, 3 between
    the read and the write of a revocation, 5 between the read of a machine and its
    deletion, 6 between the read and the write of a progress frame. *)

From Stdlib Require Import Ascii.
From stdpp Require Import base list strings numbers gmap sets.
From S2P Require Import Prelude Strings Names Quantity Iam Nonce Jwt Provision Tokens AgentTokens.
Import Strings.
Local Open Scope Z_scope.

Definition machineRefreshTokenDuration : Z := 90 * 24 * Hour.
Definition machineRefreshRotateWindow : Z := 10 * 24 * Hour.

(** The settings and the embedded binaries. *)
Record ProvisioningSetting := MkSetting {
  se_RuntimeImage : string; se_BinaryTarget : string; se_AllowCustomImages : bool;
  se_CustomImageAllowlistEnabled : bool; se_CustomImageAllowlist : list string; se_ExternalUrl : string }.
Record Build := MkBuild { bu_LatestVersion : string; bu_GetTarget : string → bool; bu_LatestPrompt : string }.

Definition defaultBinaryTarget : string := "linux-x64".
Definition knownProvisionerBackends (backend : string) : bool :=
  String.eqb backend "kubernetes" || String.eqb backend "docker".

Section machines.
Context `{!Jwt, !Digest} (w : TokenWorld) (build : Build) (setting : ProvisioningSetting).

(** [machines/{machine}] *)
Definition machine_by_name (name : string) : M Db Code MachineMessage :=
  resourceID ← parsed (GetMachineResourceID name);
  machine ← wrap CodeInternal (GetMachineByResourceID w resourceID);
  found CodeNotFound machine.

(** ** machine_token.go *)

Definition RevokeMachineToken (user : option User) (name reason : string) : M Db Code unit :=
  m ← machine_by_name name;
  check (mc_ProvisionerID m =? 0) CodeFailedPrecondition ;;
  check (isMachineAdmin w user m) CodePermissionDenied ;;
  gap w 3 ;;
  wrap CodeInternal (UpdateMachine w m (machine_version (mc_TokenVersion m + 1))) ;;
  wrap CodeInternal (RevokeAllMachineTokens w (mc_ID m)) ;;
  wrap CodeInternal (TerminateAllMachineSessions w (mc_ID m) (or_default "token_revoked" reason)) ;;
  emit (UnregisterMachine (mc_ID m)).

(** An access token; and a refresh token, when the one used is near its end. *)
Definition RefreshMachineToken (refreshToken fingerprint : string) : M Db Code (string * string * Z) :=
  '(principal, stored) ← validateRefreshToken w refreshToken fingerprint (parseMachine w) (lookupMachineToken w)
                           machineRefreshReuseAction (RevokeMachineTokenFamily w) (loadMachine w);
  jti ← draw w; now ← gets d_Clock;
  let accessToken := GenerateMachineTokenWithSession jti now (rp_Name principal) (rp_ResourceID principal)
                       (rp_TokenVersion principal) TokenTypeAccess "" (tw_mode w) (tw_secret w) accessTokenDuration in
  newRefreshToken ←
    (if rt_ExpiresAt stored - now <? machineRefreshRotateWindow then
       jti' ← draw w;
       let t := GenerateMachineTokenWithSession jti' now (rp_Name principal) (rp_ResourceID principal)
                  (rp_TokenVersion principal) TokenTypeRefresh "" (tw_mode w) (tw_secret w)
                  machineRefreshTokenDuration in
       wrap CodeInternal (CreateMachineToken w (rp_ID principal) (hashToken t) TYPE_REFRESH (rt_Family stored)
         STATE_ACTIVE fingerprint (now + machineRefreshTokenDuration) "") ;;
       mret t
     else mret "");
  mret (accessToken, newRefreshToken, now + accessTokenDuration).

(** ** machine_connection.go *)

(** The providers stay until the background probe sends its own. *)
Definition merged_info (old : Info) (reported : option Info) : Info :=
  match reported with
  | None => no_info
  | Some i =>
      match in_Providers i, in_Providers old with
      | [], _ :: _ => MkInfo (in_Hostname i) (in_Os i) (in_Arch i) (in_Ip i) (in_Version i) (in_PromptBundleVersion i)
                        (in_Providers old)
      | _, _ => i
      end
  end.

(** Name, title and ACP configuration of the agents a machine hosts. *)
Definition buildAssignedAgents (machineID : Z) : M Db Code (list (string * string * string)) :=
  agents ← query w "ListAgents" (λ d, List.filter (λ a, (an_MachineID a =? machineID) && negb (an_Deleted a)) (d_Agents d));
  mret ((λ a, (FormatAgentUID (an_ResourceID a), an_Name a, an_AcpConfig a)) <$> List.filter an_Enabled agents).

Definition prompt_notice (machineID : Z) (reported : option Info) : M Db Code unit :=
  match reported with
  | None => mret tt
  | Some i =>
      let reported := in_PromptBundleVersion i in let expected := bu_LatestPrompt build in
      if negb (String.eqb reported "") && negb (String.eqb expected "") && negb (String.eqb reported expected)
      then emit (PushPromptNotice machineID ("prompt-bundle-" +:+ expected)) else mret tt
  end.

Definition ConnectMachine (rc : ReqContext) (info : option Info) (fingerprint : string)
    : M Db Code (string * Status * list (string * string * string)) :=
  m ← found CodeUnauthenticated (rc_Machine rc);
  sessionID ← draw w;
  now ← gets d_Clock;
  let sec := now / Second in
  updated ← wrap CodeInternal (UpdateMachine w m (λ x,
    machine_status (MkStatus true sec sec sessionID) (machine_info (merged_info (mc_Info m) info) x)));
  wrap CodeInternal (TerminateAllMachineSessions w (mc_ID m) "replaced") ;;
  let reportedIP := match info with Some i => in_Ip i | None => "" end in
  lift_res (ValidateAgentIP reportedIP (rc_SourceIP rc) IPValidationWarn) ;;
  wrap CodeInternal (CreateMachineSession w (MkSession sessionID (mc_ID m) (mc_ResourceID m) "ACTIVE" (rc_SourceIP rc)
    fingerprint (match info with Some i => in_Version i | None => "" end) now None now None)) ;;
  assigned ← wrap CodeInternal (buildAssignedAgents (mc_ID m));
  prompt_notice (mc_ID m) info ;;
  mret (sessionID, mc_Status updated, assigned).

(** A new access token when one is due. *)
Definition MachineHeartbeat (rc : ReqContext) (sessionID : string) : M Db Code (option (string * Z)) :=
  m ← found CodeUnauthenticated (rc_Machine rc);
  check (negb (String.eqb sessionID "")) CodeInvalidArgument ;;
  session ← wrap CodeInternal (GetMachineSession w sessionID);
  s ← found CodeUnauthenticated session;
  check (live s) CodePermissionDenied ;;
  check (ss_Principal s =? mc_ID m) CodePermissionDenied ;;
  wrap CodeInternal (TouchMachineSession w sessionID) ;;
  sec ← nowSec;
  wrap CodeInternal (UpdateMachine w m (machine_status
    (MkStatus true (st_ConnectedAt (mc_Status m)) sec (st_ActiveSessionId (mc_Status m))))) ;;
  now ← gets d_Clock;
  if near_expiry now (rc_ExpiresAt rc) then
    jti ← draw w;
    let t := GenerateMachineTokenWithSession jti now (mc_Name m) (mc_ResourceID m) (mc_TokenVersion m)
               TokenTypeAccess sessionID (tw_mode w) (tw_secret w) accessTokenDuration in
    mret (Some (t, now + accessTokenDuration))
  else mret None.

Definition MachineDisconnect (rc : ReqContext) (sessionID reason : string) : M Db Code unit :=
  m ← found CodeUnauthenticated (rc_Machine rc);
  (if String.eqb sessionID "" then mret tt
   else wrap CodeInternal (TerminateMachineSession w sessionID (or_default "machine_shutdown" reason))) ;;
  wrap CodeInternal (UpdateMachine w m (machine_status OFFLINE)) ;;
  emit (UnregisterMachine (mc_ID m)).

(** ** machine.go *)

(** The commands in flight and the queue of cancels are [CommandOps] and [Control]. *)
Definition ForceDisconnectMachine (user : option User) (name reason : string) : M Db Code unit :=
  m ← machine_by_name name;
  check (mc_ProvisionerID m =? 0) CodeFailedPrecondition ;;
  check (isMachineAdmin w user m) CodePermissionDenied ;;
  wrap CodeInternal (TerminateAllMachineSessions w (mc_ID m) (or_default "admin_forced" reason)) ;;
  wrap CodeInternal (UpdateMachine w m (machine_status OFFLINE)) ;;
  emit (CancelRunningCommands (mc_ID m)) ;;
  emit (UnregisterMachine (mc_ID m)).

(** One statement: the row of a live machine that hosts no live agent. *)
Definition DeleteMachineIfNoAgents (resourceID : string) : M Db Code bool :=
  stmt w "DeleteMachineIfNoAgents" (λ d,
    let p m := String.eqb (mc_ResourceID m) resourceID && negb (mc_Deleted m) &&
               negb (existsb (λ a, (an_MachineID a =? mc_ID m) && negb (an_Deleted a)) (d_Agents d)) in
    (set_Machines (update p machine_deleted) d, existsb p (d_Machines d))).

(** An error when no row has the id. *)
Definition UpdateMachineProvisioning (machineID : Z) (p : ProvisioningStatus) : M Db Code unit :=
  n ← stmt w "UpdateMachineProvisioning" (λ d,
    (set_Machines (update (λ m, mc_ID m =? machineID) (machine_provisioning p)) d,
     existsb (λ m, mc_ID m =? machineID) (d_Machines d)));
  if n : bool then mret tt else throw CodeUnknown.

(** The provisioner to tell of the deletion: the phase is recorded first. *)
Definition begin_teardown (m : MachineMessage) : M Db Code (option ProvisionerMessage) :=
  if mc_ProvisionerID m =? 0 then mret None else
  provisioner ← wrap CodeInternal (GetProvisioner w (mc_ProvisionerID m));
  match provisioner, mc_Provisioning m with
  | Some p, Some pv =>
      if pr_Deleted p then mret None
      else wrap CodeInternal (UpdateMachineProvisioning (mc_ID m) (with_phase PHASE_DEPROVISIONING pv)) ;;
           mret (Some p)
  | _, _ => mret None
  end.

Definition DeleteMachine (user : option User) (name : string) : M Db Code unit :=
  resourceID ← parsed (GetMachineResourceID name);
  machine ← wrap CodeInternal (GetMachineByResourceID w resourceID);
  m ← found CodeNotFound machine;
  check (canDeleteMachine w user m) CodePermissionDenied ;;
  gap w 5 ;;
  provisioner ← begin_teardown m;
  ok ← wrap CodeInternal (DeleteMachineIfNoAgents resourceID);
  if negb ok then
    current ← wrap CodeInternal (GetMachineByResourceID w resourceID);
    found CodeNotFound current ;; throw CodeFailedPrecondition
  else
    emit (DeletePolicy (FormatMachineUID resourceID)) ;;
    match provisioner with
    | None => mret tt
    | Some p =>
        if tw_connected w (pr_ID p)
        then emit (SendDeprovisionJob (pr_ID p) (FormatMachineUID resourceID) (ps_RetainData (pr_Status p)))
        else mret tt
    end.

(** ** provisioner.go *)

Definition getProvisionerByName (name : string) : M Db Code ProvisionerMessage :=
  resourceID ← parsed (GetProvisionerResourceID name);
  provisioner ← wrap CodeInternal (GetProvisionerByResourceID w resourceID);
  p ← found CodeNotFound provisioner;
  check (negb (pr_Deleted p)) CodeNotFound ;; mret p.

Definition closeProvisionerStream (provisionerID : Z) (deleted : bool) : M Db Code unit :=
  let reason := if deleted then "provisioner_deleted" else "token_rotated" in
  (if tw_connected w provisionerID then emit (DisconnectNotice provisionerID reason deleted) else mret tt) ;;
  emit (UnregisterProvisioner provisionerID).

Definition store_CreateProvisioner (resourceID name backend description : string) (createdBy : Z)
    : M Db Code ProvisionerMessage := λ d,
  let p := MkProvisionerMessage (d_Seq d) resourceID name backend description 1 createdBy false no_status in
  if tw_fails w "CreateProvisioner" || existsb (λ x, String.eqb (pr_ResourceID x) resourceID) (d_Provisioners d)
  then (d, Err CodeUnknown) else (set_Seq Z.succ (set_Provisioners (λ l, l ++ [p]) d), Ok p).

Definition mint_provisioner (p : ProvisionerMessage) : M Db Code string :=
  jti ← draw w; now ← gets d_Clock;
  mret (GenerateProvisionerToken jti now (pr_Name p) (pr_ResourceID p) (pr_TokenVersion p) (tw_mode w) (tw_secret w)).

Definition CreateProvisioner (user : option User) (title backend description : string)
    : M Db Code (ProvisionerMessage * string) :=
  let title := TrimSpace title in let backend := TrimSpace backend in
  check (negb (String.eqb title "")) CodeInvalidArgument ;;
  check (negb (String.eqb backend "")) CodeInvalidArgument ;;
  resourceID ← draw w;
  created ← wrap CodeInternal (store_CreateProvisioner resourceID title backend description
              (match user with Some u => u_id u | None => 0 end));
  token ← mint_provisioner created;
  mret (created, token).

Definition RotateProvisionerToken (name : string) : M Db Code (ProvisionerMessage * string) :=
  p ← getProvisionerByName name;
  updated ← wrap CodeInternal (UpdateProvisioner w p (λ x, provisioner_version (pr_TokenVersion p + 1) (pr_Deleted x) x));
  u ← found Panic updated;
  token ← mint_provisioner u;
  closeProvisionerStream (pr_ID u) false ;;
  mret (u, token).

Definition CountMachinesByProvisioner (provisionerID : Z) : M Db Code nat :=
  query w "CountMachinesByProvisioner" (λ d,
    length (List.filter (λ m, (mc_ProvisionerID m =? provisionerID) && negb (mc_Deleted m)) (d_Machines d))).

Definition DeleteProvisioner (name : string) : M Db Code unit :=
  p ← getProvisionerByName name;
  n ← wrap CodeInternal (CountMachinesByProvisioner (pr_ID p));
  check (Nat.eqb n 0) CodeFailedPrecondition ;;
  closeProvisionerStream (pr_ID p) true ;;
  wrap CodeInternal (UpdateProvisioner w p (provisioner_version (pr_TokenVersion p + 1) true)) ;; mret tt.

(** The owner a machine is provisioned for. *)
Definition resolveProvisionedMachineOwner (caller : option User) (ownerName : string) : M Db Code User :=
  u ← found CodeUnauthenticated caller;
  if String.eqb (TrimSpace ownerName) "" then mret u else
  match CheckPermission (tw_env w) "laelia.machines.edit" caller None None with
  | Err _ => throw CodeInternal
  | Ok ok =>
      check ok CodePermissionDenied ;;
      handle ← parsed (GetUserHandle ownerName);
      target ← wrap CodeInternal (query w "GetUserByHandle"
                 (λ d, List.find (λ x, String.eqb (u_handle x) handle) (d_Users d)));
      t ← found CodeNotFound target;
      check (negb (u_deleted t)) CodeNotFound ;; mret t
  end.

Definition MachineFingerprint (provisionerResourceID machineResourceID : string) : string :=
  String.substring 0 16 (hex_encode (sha256 ("provisioner:" +:+ provisionerResourceID +:+ ":" +:+ machineResourceID))).

(** The id up to its first dash, unless that is its first character. *)
Definition MachineWorkloadName (machineResourceID : string) : string :=
  let '(a, _, found) := Cut machineResourceID "-"%char in
  "laelia-machine-" +:+ (if found && negb (String.eqb a "") then a else machineResourceID).

Definition binary_target : string :=
  let t := TrimSpace (se_BinaryTarget setting) in if String.eqb t "" then defaultBinaryTarget else t.

(** strings.TrimRight(url, "/") *)
Fixpoint trim_slashes (s : string) : string :=
  match s with
  | EmptyString => EmptyString
  | String c s' =>
      match trim_slashes s' with
      | EmptyString => if Ascii.eqb c slash then EmptyString else String c EmptyString
      | t => String c t
      end
  end.

(** The image of the job, when it can be composed; the bootstrap script and the
    owner's handle are left out. *)
Definition composeProvisionMachineJob (m : MachineMessage) : M Db Code string :=
  query w "GetProvisioningSetting" (λ _, tt) ;;
  let image := resolveProvisionRuntimeImage (match mc_Provisioning m with Some p => pv_RuntimeImage p | None => "" end)
                 (se_RuntimeImage setting) in
  check (negb (String.eqb image "")) CodeUnknown ;;
  check (bu_GetTarget build binary_target) CodeUnknown ;;
  query w "GetWorkspaceGeneralSetting" (λ _, tt) ;;
  check (negb (String.eqb (trim_slashes (se_ExternalUrl setting)) "")) CodeUnknown ;;
  mret image.

Definition job_params (m : MachineMessage) : gmap string string :=
  match mc_Provisioning m with Some p => pv_MachineParams p | None => ∅ end.

Definition deliverProvisionJob (p : ProvisionerMessage) (m : MachineMessage) (refreshToken : string) : M Db Code unit :=
  image ← composeProvisionMachineJob m;
  if tw_connected w (pr_ID p)
  then emit (SendProvisionJob (pr_ID p) (FormatMachineUID (mc_ResourceID m)) refreshToken image (job_params m))
  else mret tt.

(** The custom image in canonical form; "" is the workspace's. *)
Definition custom_image (runtimeImage : string) : res Code string :=
  let customImage := TrimSpace runtimeImage in
  if String.eqb customImage "" then Ok ""
  else if negb (se_AllowCustomImages setting) then Err CodeFailedPrecondition
  else if negb (validateCustomImageRef customImage) then Err CodeInvalidArgument
  else if se_CustomImageAllowlistEnabled setting &&
          negb (customImageAllowed customImage (se_CustomImageAllowlist setting)) then Err CodeFailedPrecondition
  else Ok (normalizeImageRef customImage).

Record ProvisionRequest := MkProvisionRequest {
  pq_Title : string; pq_Provisioner : string; pq_Owner : string; pq_Params : gmap string string; pq_Image : string }.

Definition ProvisionMachine (user : option User) (req : ProvisionRequest) : M Db Code MachineMessage :=
  let title := TrimSpace (pq_Title req) in
  check (negb (String.eqb title "")) CodeInvalidArgument ;;
  p ← getProvisionerByName (pq_Provisioner req);
  check (knownProvisionerBackends (pr_Backend p)) CodeFailedPrecondition ;;
  check (tw_connected w (pr_ID p)) CodeFailedPrecondition ;;
  owner ← resolveProvisionedMachineOwner user (pq_Owner req);
  machineParams ← (match ValidateMachineParams (ps_MachineParams (pr_Status p)) (pq_Params req) with
                   | Ok ps => mret ps
                   | Err _ => throw CodeInvalidArgument
                   end);
  wrap CodeInternal (query w "GetProvisioningSetting" (λ _, tt)) ;;
  customImage ← lift_res (custom_image (pq_Image req));
  check (negb (String.eqb customImage "" && String.eqb (TrimSpace (se_RuntimeImage setting)) "")) CodeFailedPrecondition ;;
  check (negb (String.eqb (bu_LatestVersion build) "")) CodeFailedPrecondition ;;
  check (bu_GetTarget build binary_target) CodeFailedPrecondition ;;
  resourceID ← draw w;
  let fingerprint := MachineFingerprint (pr_ResourceID p) resourceID in
  jti ← draw w; now ← gets d_Clock;
  let refreshToken := GenerateMachineTokenWithFamily jti now title resourceID 1 TokenTypeRefresh resourceID (tw_mode w)
                        (tw_secret w) machineRefreshTokenDuration in
  let provisioning := MkProvisioning PHASE_PENDING "" "" customImage machineParams ∅ (now / Second) 0 0 in
  created ← wrap CodeInternal (CreateMachineWithToken w resourceID title
    (MkInfo (MachineWorkloadName resourceID) "linux" "amd64" "" "" "" []) (u_id owner) (pr_ID p) (Some provisioning)
    (hashToken refreshToken) fingerprint (now + machineRefreshTokenDuration) (u_handle owner));
  attempt (deliverProvisionJob p created refreshToken) ;; (* replayed later if it failed *)
  mret created.

Definition mintProvisionedMachineRefreshToken (m : MachineMessage) (fingerprint : string) : M Db Code string :=
  jti ← draw w; now ← gets d_Clock;
  let t := GenerateMachineTokenWithFamily jti now (mc_Name m) (mc_ResourceID m) (mc_TokenVersion m) TokenTypeRefresh
             (mc_ResourceID m) (tw_mode w) (tw_secret w) machineRefreshTokenDuration in
  CreateMachineToken w (mc_ID m) (hashToken t) TYPE_REFRESH (mc_ResourceID m) STATE_ACTIVE fingerprint
    (now + machineRefreshTokenDuration) "" ;;
  mret t.

(** ** provisioner_stream.go *)

Record ProvisionerReady := MkReady {
  ry_Version : string; ry_Backend : string; ry_AutoUpgrade : bool; ry_RetainData : bool; ry_ConfigDigest : string;
  ry_MachineParams : list ParamSpec }.

Definition machineParamsFromReady (ready : ProvisionerReady) : list ParamSpec :=
  match ry_MachineParams ready with [] => [] | specs => ValidateMachineSchema specs end.

(** The error of the update is logged. *)
Definition handleReady (p : ProvisionerMessage) (ready : ProvisionerReady) : M Db Code unit :=
  sec ← nowSec;
  attempt (UpdateProvisioner w p (provisioner_status (MkProvisionerStatus true sec (ry_Version ready) (ry_Backend ready)
    (ry_AutoUpgrade ready) (ry_RetainData ready) (ry_ConfigDigest ready) (machineParamsFromReady ready)))) ;;
  mret tt.

Definition stampProvisionerConnected (provisionerID : Z) (connected : bool) : M Db Code unit :=
  r ← attempt (GetProvisioner w provisionerID);
  match r with
  | Ok (Some p) =>
      let s := pr_Status p in
      sec ← nowSec;
      attempt (UpdateProvisioner w p (provisioner_status (MkProvisionerStatus connected
        (if connected then sec else ps_LastSeen s) (ps_Version s) (ps_Backend s) (ps_AutoUpgrade s) (ps_RetainData s)
        (ps_ConfigDigest s) (ps_MachineParams s)))) ;;
      mret tt
  | _ => mret tt
  end.

Definition handleJobProgress (p : ProvisionerMessage) (machine : string) (phase : Z) (err workload : string)
    : M Db Code unit :=
  match GetMachineResourceID machine with
  | Err _ => mret tt
  | Ok resourceID =>
      r ← attempt (GetMachineByResourceID w resourceID);
      gap w 6 ;;
      match r with
      | Ok (Some m) =>
          if negb (mc_ProvisionerID m =? pr_ID p) then mret tt else
          sec ← nowSec;
          match applyProvisionProgress sec (mc_Provisioning m) phase err workload with
          | None => mret tt
          | Some next => attempt (UpdateMachineProvisioning (mc_ID m) next) ;; mret tt
          end
      | _ => mret tt
      end
  end.

Definition replay_job (p : ProvisionerMessage) (m : MachineMessage) : M Db Code unit :=
  if match mc_Provisioning m with Some pv => pv_Phase pv | None => PHASE_UNSPECIFIED end =? PHASE_DEPROVISIONING then
    emit (SendDeprovisionJob (pr_ID p) (FormatMachineUID (mc_ResourceID m)) false)
  else
    attempt (
      t ← mintProvisionedMachineRefreshToken m (MachineFingerprint (pr_ResourceID p) (mc_ResourceID m));
      image ← composeProvisionMachineJob m;
      emit (SendProvisionJob (pr_ID p) (FormatMachineUID (mc_ResourceID m)) t image (job_params m))) ;;
    mret tt.

Definition replayable (provisionerID : Z) (m : MachineMessage) : bool :=
  (mc_ProvisionerID m =? provisionerID) &&
  match mc_Provisioning m with Some pv => replayableProvisioningPhases (pv_Phase pv) | None => false end.

(** The machines bound to the provisioner in a phase to replay, deleted ones
    included. *)
Definition ListReplayableProvisioningMachines (provisionerID : Z) : M Db Code (list MachineMessage) :=
  query w "ListReplayableProvisioningMachines" (λ d, List.filter (replayable provisionerID) (d_Machines d)).

Fixpoint each {A} (f : A → M Db Code unit) (l : list A) : M Db Code unit :=
  match l with [] => mret tt | x :: l => f x ;; each f l end.

Definition replayProvisionJobs (p : ProvisionerMessage) : M Db Code unit :=
  r ← attempt (ListReplayableProvisioningMachines (pr_ID p));
  match r with Ok ms => each (replay_job p) ms | Err _ => mret tt end.
End machines.
