(* ===== verification/TokensSpec.v ===== *)
(** How the credentials of the manager age: what every handler does to the rows of
    the tables ([ages]), and the rules by which a program keeps such a relation
    ([keeps]); used by the theorems of [Credentials] and [LoginRequests]. *)

From Stdlib Require Import Ascii.
From stdpp Require Import base list strings numbers gmap sets.
From S2P Require Import Prelude Strings Names Quantity Nonce Iam Jwt Provision Tokens AgentTokens Machines.
Local Open Scope Z_scope.

Create HintDb ages.

(** ** Tables that only age *)

(** The rows of [l] are the first rows of [l'], each related by [R] to what it was. *)
Definition aged {A} (R : A → A → Prop) (l l' : list A) : Prop := ∃ l1 l2, l' = l1 ++ l2 ∧ Forall2 R l l1.

Section aged.
Context {A : Type} (R : A → A → Prop) `{!PreOrder R}.

#[export] Instance aged_preorder : PreOrder (aged R).
Proof.
  split.
  - intros l. exists l, []. rewrite app_nil_r. split; [done|]. by apply Forall2_same_length_lookup_2; [|intros; simplify_eq].
  - intros l1 l2 l3 (a & b & -> & H1) (c & d & -> & H2).
    apply Forall2_app_inv_l in H2 as (c1 & c2 & Hc1 & Hc2 & ->). exists c1, (c2 ++ d). split; [by rewrite app_assoc|].
    clear Hc2. revert c1 Hc1. induction H1 as [|x y l a Hxy H1 IH]; intros c1 Hc; inversion Hc; subst; constructor; [by etrans|by apply IH].
Qed.

Lemma aged_update p f l : (∀ x, p x = true → R x (f x)) → aged R l (update p f l).
Proof.
  intros Hf. exists (update p f l), []. rewrite app_nil_r. split; [done|]. unfold update.
  induction l as [|x l IH]; constructor; [|done]. destruct (p x) eqn:E; [by apply Hf|reflexivity].
Qed.

Lemma aged_snoc x l : aged R l (l ++ [x]).
Proof. exists l, [x]. split; [done|]. induction l; constructor; done. Qed.

Lemma aged_elem x l l' : aged R l l' → x ∈ l → ∃ x', x' ∈ l' ∧ R x x'.
Proof.
  intros (l1 & l2 & -> & Hf) Hx. apply list_elem_of_lookup in Hx as [i Hi].
  destruct (Forall2_lookup_l _ _ _ _ _ Hf Hi) as (x' & Hx' & HR). exists x'. split; [|done].
  apply elem_of_app. left. by apply list_elem_of_lookup_2 in Hx'.
Qed.

(** The first row of a key is still the first, when the key is kept. *)
Lemma aged_find (p : A → bool) l l' x : (∀ a b, R a b → p a = p b) →
  aged R l l' → List.find p l = Some x → ∃ x', List.find p l' = Some x' ∧ R x x'.
Proof.
  intros Hp (l1 & l2 & -> & Hf). induction Hf as [|a b l l1 HR Hf IH]; [done|]. simpl.
  rewrite (Hp _ _ HR). destruct (p b); [|done]. intros [= <-]. eauto.
Qed.
End aged.

Lemma update_keys {A K} (key : A → K) p f (l : list A) : (∀ x, key (f x) = key x) → key <$> update p f l = key <$> l.
Proof.
  intros Hf. unfold update. rewrite <- list_fmap_compose. apply list_fmap_ext. intros i x _. simpl. by destruct (p x).
Qed.

Lemma find_update {A} (p q : A → bool) f l : (∀ x, p (f x) = p x) →
  List.find p (update q f l) = (λ x, if q x then f x else x) <$> List.find p l.
Proof.
  intros Hp. unfold update. induction l as [|x l IH]; [done|]. simpl.
  assert (p (if q x then f x else x) = p x) as -> by (destruct (q x); [apply Hp|done]). by destruct (p x).
Qed.
Lemma elem_update {A} (q : A → bool) f l x : x ∈ l → (if q x then f x else x) ∈ update q f l.
Proof. intros Hx. unfold update. by apply (list_elem_of_fmap_2 (λ x, if q x then f x else x)). Qed.

(** Ids drawn from a sequence whose next value is [n]. *)
Definition keyed {A} (key : A → Z) (n : Z) (l : list A) : Prop := NoDup (key <$> l) ∧ Forall (λ k, 0 < k < n) (key <$> l).

Lemma keyed_update {A} (key : A → Z) n p f (l : list A) : (∀ x, key (f x) = key x) → keyed key n l → keyed key n (update p f l).
Proof. intros Hf. unfold keyed. by rewrite (update_keys key p f l Hf). Qed.

Lemma keyed_snoc {A} (key : A → Z) n k n' (l : list A) x : keyed key n l → 0 < n → key x = k → n ≤ k < n' → keyed key n' (l ++ [x]).
Proof.
  intros [Hd Hb] H0 Hk Hn. unfold keyed. rewrite fmap_app. simpl. split.
  - apply NoDup_app. split_and!; [done| |apply NoDup_singleton].
    intros y Hy Hy'%list_elem_of_singleton. rewrite Forall_forall in Hb. specialize (Hb y Hy). subst. lia.
  - apply Forall_app. split; [|constructor; [lia|constructor]]. eapply Forall_impl; [exact Hb|]. simpl. lia.
Qed.

Lemma keyed_below {A} (key : A → Z) n n' (l : list A) : n ≤ n' → keyed key n l → keyed key n' l.
Proof. intros Hn [Hd Hb]. split; [done|]. eapply Forall_impl; [exact Hb|]. simpl. lia. Qed.

Lemma keyed_succ {A} (key : A → Z) n (l : list A) : keyed key n l → keyed key (Z.succ n) l.
Proof. apply keyed_below. lia. Qed.

Lemma keyed_new {A} (key : A → Z) n (l : list A) x : 0 < n → keyed key n l → key x = n → keyed key (Z.succ n) (l ++ [x]).
Proof. intros H0 Hl Hk. eapply keyed_snoc; try done. lia. Qed.

(** The sequences and the unique indexes. *)
Record rows_ok (d : Db) : Prop := MkRowsOk {
  rows_seq : 0 < d_Seq d;
  rows_machines : keyed mc_ID (d_Seq d) (d_Machines d);
  rows_agents : keyed an_ID (d_Seq d) (d_Agents d);
  rows_provisioners : keyed pr_ID (d_Seq d) (d_Provisioners d);
  rows_machine_tokens : keyed tk_ID (d_Seq d) (d_MachineTokens d);
  rows_agent_tokens : keyed tk_ID (d_Seq d) (d_AgentTokens d);
  rows_machine_hashes : NoDup (tk_Hash <$> d_MachineTokens d);
  rows_agent_hashes : NoDup (tk_Hash <$> d_AgentTokens d);
  rows_machine_names : NoDup (mc_ResourceID <$> d_Machines d) }.

Section ages.
(** How the version of a principal may change. *)
Context (V : Z → Z → Prop) `{!PreOrder V}.

(** A token keeps what it is, and is not made active again. *)
Definition token_ages (t t' : TokenRow) : Prop :=
  tk_ID t' = tk_ID t ∧ tk_Principal t' = tk_Principal t ∧ tk_Hash t' = tk_Hash t ∧ tk_Family t' = tk_Family t ∧
  tk_Fingerprint t' = tk_Fingerprint t ∧ tk_ExpiresAt t' = tk_ExpiresAt t ∧
  (tk_State t' = "ACTIVE" → tk_State t = "ACTIVE").
(** A session that ended has ended. *)
Definition session_ages (s s' : SessionRow) : Prop :=
  ss_ID s' = ss_ID s ∧ ss_Principal s' = ss_Principal s ∧ (ss_State s' = "ACTIVE" → ss_State s = "ACTIVE").
(** A deleted principal stays deleted. *)
Definition machine_ages (m m' : MachineMessage) : Prop :=
  mc_ID m' = mc_ID m ∧ mc_ResourceID m' = mc_ResourceID m ∧ mc_ProvisionerID m' = mc_ProvisionerID m ∧
  (mc_Deleted m = true → mc_Deleted m' = true) ∧ V (mc_TokenVersion m) (mc_TokenVersion m').
Definition agent_ages (a a' : AgentMessage) : Prop :=
  an_ID a' = an_ID a ∧ an_ResourceID a' = an_ResourceID a ∧ an_MachineID a' = an_MachineID a ∧
  an_OwnerID a' = an_OwnerID a ∧ (an_Deleted a = true → an_Deleted a' = true) ∧
  V (an_TokenVersion a) (an_TokenVersion a').
Definition provisioner_ages (p p' : ProvisionerMessage) : Prop :=
  pr_ID p' = pr_ID p ∧ pr_ResourceID p' = pr_ResourceID p ∧ (pr_Deleted p = true → pr_Deleted p' = true) ∧
  V (pr_TokenVersion p) (pr_TokenVersion p').

#[export] Instance token_ages_preorder : PreOrder token_ages.
Proof. split; [by intros t; split_and!|]. unfold token_ages. intros a b c; intros; destruct_and!; split_and!; try congruence; by eauto. Qed.
#[export] Instance session_ages_preorder : PreOrder session_ages.
Proof. split; [by intros t; split_and!|]. unfold session_ages. intros a b c; intros; destruct_and!; split_and!; try congruence; by eauto. Qed.
#[export] Instance machine_ages_preorder : PreOrder machine_ages.
Proof. split; [by intros t; split_and!|]. unfold machine_ages. intros a b c; intros; destruct_and!; split_and!; try congruence; [by eauto|by etrans]. Qed.
#[export] Instance agent_ages_preorder : PreOrder agent_ages.
Proof. split; [by intros t; split_and!|]. unfold agent_ages. intros a b c; intros; destruct_and!; split_and!; try congruence; [by eauto|by etrans]. Qed.
#[export] Instance provisioner_ages_preorder : PreOrder provisioner_ages.
Proof. split; [by intros t; split_and!|]. unfold provisioner_ages. intros a b c; intros; destruct_and!; split_and!; try congruence; [by eauto|by etrans]. Qed.

(** What a request leaves of what was there. *)
Record ages (d d' : Db) : Prop := MkAges {
  ages_machines : aged machine_ages (d_Machines d) (d_Machines d');
  ages_agents : aged agent_ages (d_Agents d) (d_Agents d');
  ages_provisioners : aged provisioner_ages (d_Provisioners d) (d_Provisioners d');
  ages_machine_tokens : aged token_ages (d_MachineTokens d) (d_MachineTokens d');
  ages_agent_tokens : aged token_ages (d_AgentTokens d) (d_AgentTokens d');
  ages_machine_sessions : aged session_ages (d_MachineSessions d) (d_MachineSessions d');
  ages_agent_sessions : aged session_ages (d_AgentSessions d) (d_AgentSessions d');
  ages_users : d_Users d' = d_Users d;
  ages_expired : d_Expired d ⊆ d_Expired d';
  ages_clock : d_Clock d ≤ d_Clock d';
  ages_rows : rows_ok d → rows_ok d' }.

#[export] Instance ages_preorder : PreOrder ages.
Proof.
  split.
  - intros d. by split; try reflexivity.
  - intros a b c [] []. split; (try by etrans); try congruence; try set_solver; tauto.
Qed.

(** The writes. *)

Lemma machines_age p f d : (∀ x, p x = true → machine_ages x (f x)) → (∀ x, mc_ID (f x) = mc_ID x) →
  (∀ x, mc_ResourceID (f x) = mc_ResourceID x) → ages d (set_Machines (update p f) d).
Proof.
  intros Hf Hid Hr. split; try reflexivity; [by apply aged_update; [apply _|]|].
  intros []. split; try done; simpl; [by apply keyed_update|by rewrite update_keys].
Qed.

Lemma agents_age p f d : (∀ x, p x = true → agent_ages x (f x)) → (∀ x, an_ID (f x) = an_ID x) →
  ages d (set_Agents (update p f) d).
Proof.
  intros Hf Hid. split; try reflexivity; [by apply aged_update; [apply _|]|].
  intros []. split; try done; simpl; by apply keyed_update.
Qed.

Lemma provisioners_age p f d : (∀ x, p x = true → provisioner_ages x (f x)) → (∀ x, pr_ID (f x) = pr_ID x) →
  ages d (set_Provisioners (update p f) d).
Proof.
  intros Hf Hid. split; try reflexivity; [by apply aged_update; [apply _|]|].
  intros []. split; try done; simpl; by apply keyed_update.
Qed.

Lemma machine_tokens_age p f d : (∀ x, p x = true → token_ages x (f x)) → (∀ x, tk_ID (f x) = tk_ID x) →
  (∀ x, tk_Hash (f x) = tk_Hash x) → ages d (set_MachineTokens (update p f) d).
Proof.
  intros Hf Hid Hh. split; try reflexivity; [by apply aged_update; [apply _|]|].
  intros []. split; try done; simpl; [by apply keyed_update|by rewrite update_keys].
Qed.

Lemma agent_tokens_age p f d : (∀ x, p x = true → token_ages x (f x)) → (∀ x, tk_ID (f x) = tk_ID x) →
  (∀ x, tk_Hash (f x) = tk_Hash x) → ages d (set_AgentTokens (update p f) d).
Proof.
  intros Hf Hid Hh. split; try reflexivity; [by apply aged_update; [apply _|]|].
  intros []. split; try done; simpl; [by apply keyed_update|by rewrite update_keys].
Qed.

Lemma machine_sessions_age p f d : (∀ x, p x = true → session_ages x (f x)) → ages d (set_MachineSessions (update p f) d).
Proof.
  intros Hf. split; try reflexivity; [by apply aged_update; [apply _|]|]. by intros []; split.
Qed.

Lemma agent_sessions_age p f d : (∀ x, p x = true → session_ages x (f x)) → ages d (set_AgentSessions (update p f) d).
Proof.
  intros Hf. split; try reflexivity; [by apply aged_update; [apply _|]|]. by intros []; split.
Qed.
End ages.

(** ** Programs that keep a relation *)

Definition keeps {St} (P : St → St → Prop) {A} (m : M St Code A) : Prop := ∀ s, P s (m s).1.

Section programs.
Context {St : Type} (P : St → St → Prop) `{!PreOrder P}.

Lemma k_ret {A} (a : A) : keeps P (mret a).
Proof. intros d. simpl. reflexivity. Qed.
Lemma k_throw {A} c : keeps P (throw c : M St Code A).
Proof. intros d. simpl. reflexivity. Qed.
Lemma k_gets {A} (f : St → A) : keeps P (gets f).
Proof. intros d. simpl. reflexivity. Qed.
Lemma k_lift {A} (r : res Code A) : keeps P (lift_res r).
Proof. intros d. simpl. reflexivity. Qed.
Lemma k_bind {A B} (m : M St Code A) (k : A → M St Code B) : keeps P m → (∀ a, keeps P (k a)) → keeps P (mbind k m).
Proof.
  intros Hm Hk d. specialize (Hm d). unfold mbind, M_bind. destruct (m d) as [d' [a|e]]; [|done].
  etrans; [exact Hm|apply Hk].
Qed.
Lemma k_attempt {A} (m : M St Code A) : keeps P m → keeps P (attempt m).
Proof. intros Hm d. specialize (Hm d). unfold attempt. by destruct (m d). Qed.
Lemma k_modify f : (∀ d, P d (f d)) → keeps P (modify f).
Proof. intros Hf d. apply Hf. Qed.
Lemma k_if {A} (b : bool) (m m' : M St Code A) : keeps P m → keeps P m' → keeps P (if b then m else m').
Proof. by destruct b. Qed.
Lemma k_option {A B} (o : option B) (k : B → M St Code A) (m : M St Code A) :
  (∀ b, keeps P (k b)) → keeps P m → keeps P (match o with Some b => k b | None => m end).
Proof. destruct o; auto. Qed.
End programs.

Section keeps.
Context (w : TokenWorld) (P : Db → Db → Prop) `{!PreOrder P}.

Lemma k_wrap {A} c (m : M Db Code A) : keeps P m → keeps P (wrap c m).
Proof. intros Hm d. specialize (Hm d). unfold wrap. by destruct (m d) as [d' [a|[]]]. Qed.
Lemma k_query {A} name (f : Db → A) : keeps P (query w name f).
Proof. intros d. unfold query, stmt. by destruct (tw_fails w name). Qed.
Lemma k_exec name f : (∀ d, P d (f d)) → keeps P (exec w name f).
Proof. intros Hf d. unfold exec, stmt. by destruct (tw_fails w name). Qed.
Lemma k_stmt {A} name (f : Db → Db * A) : (∀ d, P d (f d).1) → keeps P (stmt w name f).
Proof. intros Hf d. unfold stmt. destruct (tw_fails w name); [done|]. specialize (Hf d). by destruct (f d). Qed.
Lemma k_check b c : keeps P (check b c).
Proof. destruct b; [apply k_ret|apply k_throw]; apply _. Qed.
Lemma k_found {A} c (o : option A) : keeps P (found c o).
Proof. destruct o; [apply k_ret|apply k_throw]; apply _. Qed.
Lemma k_parsed {A} (r : res nameerr A) : keeps P (parsed r).
Proof. destruct r; [apply k_ret|apply k_throw]; apply _. Qed.
End keeps.

(** ** Every request ages the tables *)

(** Solve [keeps P m] for a program made of the writes in the database [ages]. *)
Ltac keep :=
  repeat match goal with
  | |- ∀ _, _ => intros ?
  | |- keeps _ (mbind _ _) => apply k_bind; [apply _| |]
  | |- keeps _ (mret _) => apply k_ret; apply _
  | |- keeps _ (throw _) => apply k_throw; apply _
  | |- keeps _ (gets _) => apply k_gets; apply _
  | |- keeps _ (lift_res _) => apply k_lift; apply _
  | |- keeps _ (query _ _ _) => apply k_query; apply _
  | |- keeps _ (check _ _) => apply k_check; apply _
  | |- keeps _ (found _ _) => apply k_found; apply _
  | |- keeps _ (parsed _) => apply k_parsed; apply _
  | |- keeps _ (wrap _ _) => apply k_wrap
  | |- keeps _ (attempt _) => apply k_attempt
  | |- keeps _ (let '(_, _) := ?x in _) => destruct x
  | |- keeps _ (if ?b then _ else _) => destruct b
  | |- keeps _ (match ?x with _ => _ end) => destruct x
  | _ => solve [eauto with ages]
  end.

Section requests.
Context {J : Jwt} {D : Digest} {N : Hmac} (w : TokenWorld) (build : Build) (setting : ProvisioningSetting).
Context (V : Z → Z → Prop) `{!PreOrder V}.
Hypothesis others_age : ∀ n d, ages V d (tw_others w n d).

Lemma memory_ages (f : Db → Db) (d : Db) :
  d_Machines (f d) = d_Machines d → d_Agents (f d) = d_Agents d → d_Provisioners (f d) = d_Provisioners d →
  d_MachineTokens (f d) = d_MachineTokens d → d_AgentTokens (f d) = d_AgentTokens d →
  d_MachineSessions (f d) = d_MachineSessions d → d_AgentSessions (f d) = d_AgentSessions d →
  d_Users (f d) = d_Users d → d_Expired (f d) = d_Expired d → d_Clock (f d) = d_Clock d → d_Seq (f d) = d_Seq d →
  ages V d (f d).
Proof.
  intros E1 E2 E3 E4 E5 E6 E7 E8 E9 E10 E11. split; rewrite ?E1, ?E2, ?E3, ?E4, ?E5, ?E6, ?E7, ?E9, ?E10; try reflexivity; [done|].
  intros []. split; by rewrite ?E11, ?E1, ?E2, ?E3, ?E4, ?E5.
Qed.

Lemma draw_ages : keeps (ages V) (draw w).
Proof. intros d. by apply (memory_ages (set_Draws S)). Qed.
Lemma gap_ages n : keeps (ages V) (gap w n).
Proof. apply k_modify. apply others_age. Qed.
Lemma emit_ages e : keeps (ages V) (emit e).
Proof. apply k_modify. intros d. by apply memory_ages. Qed.
Lemma active_ages f : keeps (ages V) (modify (set_LastActive f)).
Proof. apply k_modify. intros d. by apply memory_ages. Qed.
Lemma timers_ages f : keeps (ages V) (modify (set_Timers f)).
Proof. apply k_modify. intros d. by apply memory_ages. Qed.
Lemma heartbeats_ages f : keeps (ages V) (modify (set_Heartbeats f)).
Proof. apply k_modify. intros d. by apply memory_ages. Qed.
Lemma modify_nonces_ages f : keeps (ages V) (modify (set_Nonces f)).
Proof. apply k_modify. intros d. by apply memory_ages. Qed.
Lemma nonces_ages {A} (f : NonceManager → NonceManager * A) : keeps (ages V) (on_nonces f).
Proof. intros d. unfold on_nonces. destruct (f (d_Nonces d)) as [nm a]. by apply (memory_ages (set_Nonces (λ _, nm))). Qed.
#[local] Hint Resolve draw_ages gap_ages emit_ages active_ages timers_ages heartbeats_ages nonces_ages modify_nonces_ages : ages.

Lemma nowSec_ages : keeps (ages V) nowSec.
Proof. unfold nowSec. keep. Qed.
#[local] Hint Resolve nowSec_ages : ages.
Lemma mark_active_ages : keeps (ages V) mark_active.
Proof. unfold mark_active. keep. Qed.
#[local] Hint Resolve mark_active_ages : ages.

(** The statements. *)

Definition machine_patch (f : MachineMessage → MachineMessage) : Prop := ∀ m, machine_ages V m (f m).
Definition agent_patch (f : AgentMessage → AgentMessage) : Prop := ∀ a, agent_ages V a (f a).
Definition provisioner_patch (f : ProvisionerMessage → ProvisionerMessage) : Prop := ∀ p, provisioner_ages V p (f p).

Lemma UpdateMachine_ages m f : machine_patch f → keeps (ages V) (UpdateMachine w m f).
Proof.
  intros Hf. unfold UpdateMachine, GetMachine. keep. apply k_exec; [apply _|]. intros d.
  apply machines_age; try apply _; intros; apply Hf.
Qed.
Lemma UpdateAgent_ages a f : agent_patch f → keeps (ages V) (UpdateAgent w a f).
Proof.
  intros Hf. unfold UpdateAgent, GetAgent. keep. apply k_exec; [apply _|]. intros d.
  apply agents_age; try apply _; intros; apply Hf.
Qed.
Lemma UpdateProvisioner_ages p f : provisioner_patch f → keeps (ages V) (UpdateProvisioner w p f).
Proof.
  intros Hf. unfold UpdateProvisioner, GetProvisioner. keep. apply k_exec; [apply _|]. intros d.
  apply provisioners_age; try apply _; intros; apply Hf.
Qed.

Lemma machine_patch_status s : machine_patch (machine_status s).
Proof. by intros m; split_and!. Qed.
Lemma machine_patch_connect s i : machine_patch (λ m, machine_status s (machine_info i m)).
Proof. by intros m; split_and!. Qed.
Lemma agent_patch_status s : agent_patch (agent_status s).
Proof. by intros m; split_and!. Qed.
Lemma agent_patch_connect s i acp cap : agent_patch (λ m, agent_status s (agent_info i acp cap m)).
Proof. by intros m; split_and!. Qed.
Lemma provisioner_patch_status s : provisioner_patch (provisioner_status s).
Proof. by intros m; split_and!. Qed.
#[local] Hint Resolve UpdateMachine_ages UpdateAgent_ages UpdateProvisioner_ages machine_patch_status machine_patch_connect
  agent_patch_status agent_patch_connect provisioner_patch_status : ages.

Lemma token_state_ages s c r t : (s = "ACTIVE" → tk_State t = "ACTIVE") → token_ages t (token_state s c r t).
Proof. by intros H; split_and!. Qed.

Lemma set_state_ages now s c t : s ≠ STATE_ACTIVE → token_ages t (set_state now s c t).
Proof. intros Hs. unfold set_state. destruct s, c; try done; by apply token_state_ages. Qed.

Lemma revoke_ages now t : token_ages t (revoke now t).
Proof. by apply token_state_ages. Qed.

Lemma UpdateAgentTokenState_ages id s c : s ≠ STATE_ACTIVE → keeps (ages V) (UpdateAgentTokenState w id s c).
Proof.
  intros Hs. apply k_exec; [apply _|]. intros d.
  apply agent_tokens_age; try apply _; intros; by apply set_state_ages.
Qed.
Lemma RevokeAllAgentTokens_ages id : keeps (ages V) (RevokeAllAgentTokens w id).
Proof. apply k_exec; [apply _|]. intros d. apply agent_tokens_age; try apply _; intros; by apply revoke_ages. Qed.
Lemma RevokeTokenFamily_ages f : keeps (ages V) (RevokeTokenFamily w f).
Proof. apply k_exec; [apply _|]. intros d. apply agent_tokens_age; try apply _; intros; by apply revoke_ages. Qed.
Lemma RevokeAllMachineTokens_ages id : keeps (ages V) (RevokeAllMachineTokens w id).
Proof. apply k_exec; [apply _|]. intros d. apply machine_tokens_age; try apply _; intros; by apply revoke_ages. Qed.
Lemma RevokeMachineTokenFamily_ages f : keeps (ages V) (RevokeMachineTokenFamily w f).
Proof. apply k_exec; [apply _|]. intros d. apply machine_tokens_age; try apply _; intros; by apply revoke_ages. Qed.

Lemma hash_fresh h l : hash_taken h l = false → h ∉ tk_Hash <$> l.
Proof.
  intros H (t & -> & Ht)%list_elem_of_fmap. apply not_true_iff_false in H. apply H, existsb_exists.
  exists t. split; [by apply list_elem_of_In|apply String.eqb_refl].
Qed.

Lemma nodup_snoc {A} (l : list A) x : NoDup l → x ∉ l → NoDup (l ++ [x]).
Proof.
  intros Hl Hx. apply NoDup_app. split_and!; [done| |apply NoDup_singleton]. by intros y Hy ->%list_elem_of_singleton.
Qed.

Lemma machine_token_new t d : tk_ID t = d_Seq d → hash_taken (tk_Hash t) (d_MachineTokens d) = false →
  ages V d (set_Seq Z.succ (set_MachineTokens (λ l, l ++ [t]) d)).
Proof.
  intros Hid Hh%hash_fresh. split; try reflexivity; [by apply aged_snoc; apply _|].
  intros [Hs ? ? ? ? ? ? ? ?]. split; simpl; try done; try (by apply keyed_succ); [lia|by apply keyed_new|].
  rewrite fmap_app. by apply nodup_snoc.
Qed.
Lemma agent_token_new t d : tk_ID t = d_Seq d → hash_taken (tk_Hash t) (d_AgentTokens d) = false →
  ages V d (set_Seq Z.succ (set_AgentTokens (λ l, l ++ [t]) d)).
Proof.
  intros Hid Hh%hash_fresh. split; try reflexivity; [by apply aged_snoc; apply _|].
  intros [Hs ? ? ? ? ? ? ? ?]. split; simpl; try done; try (by apply keyed_succ); [lia|by apply keyed_new|].
  rewrite fmap_app. by apply nodup_snoc.
Qed.
Lemma machine_new m d : mc_ID m = d_Seq d → existsb (λ x, String.eqb (mc_ResourceID x) (mc_ResourceID m)) (d_Machines d) = false →
  ages V d (set_Seq Z.succ (set_Machines (λ l, l ++ [m]) d)).
Proof.
  intros Hid Hr. split; try reflexivity; [by apply aged_snoc; apply _|].
  intros [Hs ? ? ? ? ? ? ? ?]. split; simpl; try done; try (by apply keyed_succ); [lia|by apply keyed_new|].
  rewrite fmap_app. apply nodup_snoc; [done|]. intros (x & Hx & Hin)%list_elem_of_fmap.
  apply not_true_iff_false in Hr. apply Hr, existsb_exists. exists x. split; [by apply list_elem_of_In|].
  by apply String.eqb_eq.
Qed.
Lemma provisioner_new p d : pr_ID p = d_Seq d → ages V d (set_Seq Z.succ (set_Provisioners (λ l, l ++ [p]) d)).
Proof.
  intros Hid. split; try reflexivity; [by apply aged_snoc; apply _|].
  intros [Hs ? ? ? ? ? ? ? ?]. split; simpl; try done; try (by apply keyed_succ); [lia|by apply keyed_new].
Qed.

Lemma CreateMachineToken_ages id h ty f s fp e c : keeps (ages V) (CreateMachineToken w id h ty f s fp e c).
Proof.
  intros d. unfold CreateMachineToken. destruct (_ || _) eqn:E; [reflexivity|]. apply orb_false_iff in E as [_ E].
  by apply machine_token_new.
Qed.
Lemma CreateAgentToken_ages id h ty f s fp e c : keeps (ages V) (CreateAgentToken w id h ty f s fp e c).
Proof.
  intros d. unfold CreateAgentToken. destruct (_ || _) eqn:E; [reflexivity|]. apply orb_false_iff in E as [_ E].
  by apply agent_token_new.
Qed.
Lemma CreateMachineWithToken_ages r n i c p pv h fp e tc : keeps (ages V) (CreateMachineWithToken w r n i c p pv h fp e tc).
Proof.
  intros d. unfold CreateMachineWithToken. destruct (_ || _) eqn:E; [reflexivity|].
  apply orb_false_iff in E as [[_ Hr]%orb_false_iff Hh]. simpl.
  set (m := MkMachine _ _ _ _ _ _ _ _ _ _).
  etrans; [apply (machine_new m); [done|exact Hr]|].
  by apply (machine_token_new (token_row (Z.succ (d_Seq d)) (d_Seq d) h TYPE_REFRESH r STATE_ACTIVE fp e tc)
              (set_Seq Z.succ (set_Machines (λ l, l ++ [m]) d))).
Qed.
Lemma store_CreateProvisioner_ages r n b ds c : keeps (ages V) (store_CreateProvisioner w r n b ds c).
Proof.
  intros d. unfold store_CreateProvisioner. destruct (_ || _) eqn:E; [reflexivity|]. by apply provisioner_new.
Qed.

Lemma CreateMachineSession_ages s : keeps (ages V) (CreateMachineSession w s).
Proof.
  intros d. unfold CreateMachineSession. destruct (_ || _); [reflexivity|].
  split; try reflexivity; [by apply aged_snoc; apply _|]. by intros []; split.
Qed.
Lemma CreateAgentSession_ages s : keeps (ages V) (CreateAgentSession w s).
Proof.
  intros d. unfold CreateAgentSession. destruct (_ || _); [reflexivity|].
  split; try reflexivity; [by apply aged_snoc; apply _|]. by intros []; split.
Qed.

Lemma session_touch_ages now s : session_ages s (session_touch now s).
Proof. by split_and!. Qed.
Lemma session_end_ages st r now s : st ≠ "ACTIVE" → session_ages s (session_end st r now s).
Proof. by intros H; split_and!. Qed.

Lemma TouchMachineSession_ages id : keeps (ages V) (TouchMachineSession w id).
Proof. apply k_exec; [apply _|]. intros d. apply machine_sessions_age; [apply _|]. intros. apply session_touch_ages. Qed.
Lemma TouchAgentSession_ages id : keeps (ages V) (TouchAgentSession w id).
Proof. apply k_exec; [apply _|]. intros d. apply agent_sessions_age; [apply _|]. intros. apply session_touch_ages. Qed.
Lemma TerminateMachineSession_ages id r : keeps (ages V) (TerminateMachineSession w id r).
Proof. apply k_exec; [apply _|]. intros d. apply machine_sessions_age; [apply _|]. intros. by apply session_end_ages. Qed.
Lemma TerminateAgentSession_ages id r : keeps (ages V) (TerminateAgentSession w id r).
Proof. apply k_exec; [apply _|]. intros d. apply agent_sessions_age; [apply _|]. intros. by apply session_end_ages. Qed.
Lemma TerminateAllMachineSessions_ages id r : keeps (ages V) (TerminateAllMachineSessions w id r).
Proof. apply k_exec; [apply _|]. intros d. apply machine_sessions_age; [apply _|]. intros. by apply session_end_ages. Qed.
Lemma TerminateAllAgentSessions_ages id r : keeps (ages V) (TerminateAllAgentSessions w id r).
Proof. apply k_exec; [apply _|]. intros d. apply agent_sessions_age; [apply _|]. intros. by apply session_end_ages. Qed.
#[local] Hint Resolve UpdateAgentTokenState_ages RevokeAllAgentTokens_ages RevokeTokenFamily_ages RevokeAllMachineTokens_ages
  RevokeMachineTokenFamily_ages CreateMachineToken_ages CreateAgentToken_ages CreateMachineSession_ages
  CreateAgentSession_ages TouchMachineSession_ages TouchAgentSession_ages TerminateMachineSession_ages
  TerminateAgentSession_ages TerminateAllMachineSessions_ages TerminateAllAgentSessions_ages : ages.
#[local] Hint Extern 1 (_ ≠ STATE_ACTIVE) => discriminate : ages.

(** *** The interceptor *)

Lemma authenticateAgent_ages c : keeps (ages V) (authenticateAgentByClaims w c).
Proof. unfold authenticateAgentByClaims, GetAgentByResourceID. keep. Qed.
Lemma authenticateMachine_ages c : keeps (ages V) (authenticateMachineByClaims w c).
Proof. unfold authenticateMachineByClaims, GetMachineByResourceID. keep. Qed.
Lemma authenticateUser_ages c : keeps (ages V) (authenticateUserByClaims w c).
Proof. unfold authenticateUserByClaims, GetUserByID. keep. Qed.
Lemma authenticateProvisioner_ages c : keeps (ages V) (authenticateProvisionerByClaims w c).
Proof. unfold authenticateProvisionerByClaims, GetProvisionerByResourceID. keep. Qed.
Lemma parse_for_ages aud t : keeps (ages V) (parse_for w aud t).
Proof. unfold parse_for. keep. Qed.
Lemma expires_at_ages c : keeps (ages V) (expires_at c).
Proof. unfold expires_at. keep. Qed.
#[local] Hint Resolve authenticateAgent_ages authenticateMachine_ages authenticateUser_ages authenticateProvisioner_ages
  parse_for_ages expires_at_ages : ages.

Lemma getUserOrAgentConnect_ages t : keeps (ages V) (getUserOrAgentConnect w t).
Proof. unfold getUserOrAgentConnect. keep. Qed.
Lemma resolveDeclaredAgent_ages m h : keeps (ages V) (resolveDeclaredAgent w m h).
Proof. unfold resolveDeclaredAgent, GetAgentByResourceID. keep. Qed.
#[local] Hint Resolve getUserOrAgentConnect_ages resolveDeclaredAgent_ages : ages.
Lemma injectAuthResult_ages ip r h : keeps (ages V) (injectAuthResult w ip r h).
Proof. unfold injectAuthResult. keep. Qed.
#[local] Hint Resolve injectAuthResult_ages : ages.
Lemma authenticate_ages h peer proc : keeps (ages V) (authenticate w h peer proc).
Proof. unfold authenticate. keep. Qed.
Lemma AuthenticateHTTP_ages h addr : keeps (ages V) (AuthenticateHTTP w h addr).
Proof. unfold AuthenticateHTTP. keep. Qed.

(** *** Agents *)

Lemma validate_ages t fp parse lookup act revoke load :
  (∀ h, keeps (ages V) (lookup h)) → (∀ f, keeps (ages V) (revoke f)) → (∀ i, keeps (ages V) (load i)) →
  keeps (ages V) (validateRefreshToken w t fp parse lookup act revoke load).
Proof. intros. unfold validateRefreshToken. keep. Qed.
Lemma lookupAgentToken_ages h : keeps (ages V) (lookupAgentToken w h).
Proof. unfold lookupAgentToken, GetAgentTokenByHash. keep. Qed.
Lemma lookupMachineToken_ages h : keeps (ages V) (lookupMachineToken w h).
Proof. unfold lookupMachineToken, GetMachineTokenByHash. keep. Qed.
Lemma loadAgent_ages i : keeps (ages V) (loadAgent w i).
Proof. unfold loadAgent, GetAgent. keep. Qed.
Lemma loadMachine_ages i : keeps (ages V) (loadMachine w i).
Proof. unfold loadMachine, GetMachine. keep. Qed.
#[local] Hint Resolve validate_ages lookupAgentToken_ages lookupMachineToken_ages loadAgent_ages loadMachine_ages : ages.

Lemma scheduleTokenRevoke_ages i : keeps (ages V) (scheduleTokenRevoke i).
Proof. unfold scheduleTokenRevoke. keep. Qed.
#[local] Hint Resolve scheduleTokenRevoke_ages : ages.
Lemma fireTokenRevoke_ages i : keeps (ages V) (fireTokenRevoke w i).
Proof. unfold fireTokenRevoke. keep. Qed.
Lemma RefreshAgentToken_ages t fp : keeps (ages V) (RefreshAgentToken w t fp).
Proof. unfold RefreshAgentToken. keep. Qed.
Lemma editable_agent_ages user name : keeps (ages V) (editable_agent w user name).
Proof. unfold editable_agent, GetAgentByResourceID. keep. Qed.
#[local] Hint Resolve editable_agent_ages : ages.
Lemma ForceDisconnectAgent_ages user name reason : keeps (ages V) (ForceDisconnectAgent w user name reason).
Proof. unfold ForceDisconnectAgent. keep. Qed.
Lemma bootstrap_ages t : keeps (ages V) (authenticateBootstrapToken w t).
Proof. unfold authenticateBootstrapToken, GetAgentByResourceID, GetAgentTokenByHash. keep. Qed.
Lemma generateNonce_ages r s : keeps (ages V) (generateNonce w r s).
Proof. unfold generateNonce. keep. Qed.
Lemma verifyNonce_ages n r s : keeps (ages V) (verifyNonce n r s).
Proof. unfold verifyNonce. keep. Qed.
#[local] Hint Resolve bootstrap_ages generateNonce_ages verifyNonce_ages : ages.
Lemma ConnectAgent_ages rc req : keeps (ages V) (ConnectAgent w rc req).
Proof. unfold ConnectAgent. keep. Qed.
Lemma AgentHeartbeat_ages rc s n : keeps (ages V) (AgentHeartbeat w rc s n).
Proof. unfold AgentHeartbeat, GetAgentSession. keep. Qed.
Lemma AgentDisconnect_ages rc s r : keeps (ages V) (AgentDisconnect w rc s r).
Proof. unfold AgentDisconnect. keep. Qed.

(** *** Machines and provisioners *)

Lemma machine_by_name_ages name : keeps (ages V) (machine_by_name w name).
Proof. unfold machine_by_name, GetMachineByResourceID. keep. Qed.
#[local] Hint Resolve machine_by_name_ages : ages.
Lemma RefreshMachineToken_ages t fp : keeps (ages V) (RefreshMachineToken w t fp).
Proof. unfold RefreshMachineToken. keep. Qed.
Lemma buildAssignedAgents_ages id : keeps (ages V) (buildAssignedAgents w id).
Proof. unfold buildAssignedAgents. keep. Qed.
Lemma prompt_notice_ages id i : keeps (ages V) (prompt_notice build id i).
Proof. unfold prompt_notice. keep. Qed.
#[local] Hint Resolve buildAssignedAgents_ages prompt_notice_ages : ages.
Lemma ConnectMachine_ages rc i fp : keeps (ages V) (ConnectMachine w build rc i fp).
Proof. unfold ConnectMachine. keep. Qed.
Lemma MachineHeartbeat_ages rc s : keeps (ages V) (MachineHeartbeat w rc s).
Proof. unfold MachineHeartbeat, GetMachineSession. keep. Qed.
Lemma MachineDisconnect_ages rc s r : keeps (ages V) (MachineDisconnect w rc s r).
Proof. unfold MachineDisconnect. keep. Qed.
Lemma ForceDisconnectMachine_ages user name r : keeps (ages V) (ForceDisconnectMachine w user name r).
Proof. unfold ForceDisconnectMachine. keep. Qed.
Lemma DeleteMachineIfNoAgents_ages r : keeps (ages V) (DeleteMachineIfNoAgents w r).
Proof.
  apply k_stmt; [apply _|]. intros d. apply machines_age; try apply _; [|done..]. by intros x _; split_and!.
Qed.
Lemma UpdateMachineProvisioning_ages id p : keeps (ages V) (UpdateMachineProvisioning w id p).
Proof.
  unfold UpdateMachineProvisioning. apply k_bind; [apply _| |keep]. apply k_stmt; [apply _|].
  intros d. apply machines_age; try apply _; [|done..]. by intros x _; split_and!.
Qed.
#[local] Hint Resolve DeleteMachineIfNoAgents_ages UpdateMachineProvisioning_ages CreateMachineWithToken_ages
  store_CreateProvisioner_ages : ages.
Lemma begin_teardown_ages m : keeps (ages V) (begin_teardown w m).
Proof. unfold begin_teardown, GetProvisioner. keep. Qed.
#[local] Hint Resolve begin_teardown_ages : ages.
Lemma DeleteMachine_ages user name : keeps (ages V) (DeleteMachine w user name).
Proof. unfold DeleteMachine, GetMachineByResourceID. keep. Qed.
Lemma getProvisionerByName_ages name : keeps (ages V) (getProvisionerByName w name).
Proof. unfold getProvisionerByName, GetProvisionerByResourceID. keep. Qed.
Lemma closeProvisionerStream_ages id del : keeps (ages V) (closeProvisionerStream w id del).
Proof. unfold closeProvisionerStream. keep. Qed.
Lemma mint_provisioner_ages p : keeps (ages V) (mint_provisioner w p).
Proof. unfold mint_provisioner. keep. Qed.
#[local] Hint Resolve getProvisionerByName_ages closeProvisionerStream_ages mint_provisioner_ages : ages.
Lemma CreateProvisioner_ages user t b ds : keeps (ages V) (CreateProvisioner w user t b ds).
Proof. unfold CreateProvisioner. keep. Qed.
Lemma resolveOwner_ages user o : keeps (ages V) (resolveProvisionedMachineOwner w user o).
Proof. unfold resolveProvisionedMachineOwner. keep. Qed.
Lemma compose_ages m : keeps (ages V) (composeProvisionMachineJob w build setting m).
Proof. unfold composeProvisionMachineJob. keep. Qed.
#[local] Hint Resolve compose_ages : ages.
Lemma deliver_ages p m t : keeps (ages V) (deliverProvisionJob w build setting p m t).
Proof. unfold deliverProvisionJob. keep. Qed.
#[local] Hint Resolve resolveOwner_ages deliver_ages : ages.
Lemma ProvisionMachine_ages user req : keeps (ages V) (ProvisionMachine w build setting user req).
Proof. unfold ProvisionMachine. keep. Qed.
Lemma remint_ages m fp : keeps (ages V) (mintProvisionedMachineRefreshToken w m fp).
Proof. unfold mintProvisionedMachineRefreshToken. keep. Qed.
#[local] Hint Resolve remint_ages : ages.
Lemma handleReady_ages p r : keeps (ages V) (handleReady w p r).
Proof. unfold handleReady. keep. Qed.
Lemma stamp_ages id c : keeps (ages V) (stampProvisionerConnected w id c).
Proof. unfold stampProvisionerConnected, GetProvisioner. keep. Qed.
Lemma handleJobProgress_ages p m ph e wl : keeps (ages V) (handleJobProgress w p m ph e wl).
Proof. unfold handleJobProgress, GetMachineByResourceID. keep. Qed.
Lemma replay_job_ages p m : keeps (ages V) (replay_job w build setting p m).
Proof. unfold replay_job. keep. Qed.
Lemma replay_ages p : keeps (ages V) (replayProvisionJobs w build setting p).
Proof.
  unfold replayProvisionJobs, ListReplayableProvisioningMachines. keep.
  induction a as [|m l IH]; simpl; keep. apply replay_job_ages.
Qed.
End requests.

