(* ===== verification/Credentials.v ===== *)
(** What the credentials of the manager promise: whom a request is authenticated
    as, which tokens are refused for good, and what a refresh, a revocation and a
    deletion do to the tokens and the machines before them. *)

From Stdlib Require Import Ascii.
From stdpp Require Import base list strings numbers gmap sets.
From S2P Require Import Prelude Strings Names Quantity Nonce Iam Jwt Provision Tokens AgentTokens Machines TokensSpec.
Local Open Scope Z_scope.

(** ** What a program that answers has done *)

Section answers.
Context (w : TokenWorld).

Lemma ret_done {A} (a b : A) (d d' : Db) : (mret a : M Db Code A) d = (d', Ok b) → d' = d ∧ b = a.
Proof. by intros [= <- <-]. Qed.
Lemma throw_done {A} c (b : A) (d d' : Db) : (throw c : M Db Code A) d = (d', Ok b) → False.
Proof. done. Qed.
Lemma gets_done {A} (f : Db → A) (b : A) (d d' : Db) : (gets f : M Db Code A) d = (d', Ok b) → d' = d ∧ b = f d.
Proof. by intros [= <- <-]. Qed.
Lemma modify_done f u (d d' : Db) : (modify f : M Db Code unit) d = (d', Ok u) → d' = f d.
Proof. by intros [= <- <-]. Qed.
Lemma wrap_done {A} c (m : M Db Code A) (b : A) d d' : wrap c m d = (d', Ok b) → m d = (d', Ok b).
Proof. unfold wrap. destruct (m d) as [x [a|[]]]; by intros [= -> ->]. Qed.
Lemma query_done {A} name (f : Db → A) b d d' : query w name f d = (d', Ok b) → d' = d ∧ b = f d.
Proof. unfold query, stmt. destruct (tw_fails w name); [done|]. by intros [= <- <-]. Qed.
Lemma exec_done name f b d d' : exec w name f d = (d', Ok b) → d' = f d.
Proof. unfold exec, stmt. destruct (tw_fails w name); [done|]. by intros [= <- _]. Qed.
Lemma draw_done b d d' : draw w d = (d', Ok b) → d' = set_Draws S d ∧ b = tw_random w (d_Draws d).
Proof. by intros [= <- <-]. Qed.
Lemma check_done b c u (d d' : Db) : check b c d = (d', Ok u) → d' = d ∧ b = true.
Proof. destruct b; [by intros [= <- _]|done]. Qed.
Lemma found_done {A} c (o : option A) a (d d' : Db) : found c o d = (d', Ok a) → d' = d ∧ o = Some a.
Proof. destruct o; [by intros [= <- <-]|done]. Qed.
Lemma parsed_done {A} (r : res nameerr A) a (d d' : Db) : parsed r d = (d', Ok a) → d' = d ∧ r = Ok a.
Proof. destruct r; [by intros [= <- <-]|done]. Qed.

Lemma find_elem {A} (p : A → bool) l x : List.find p l = Some x → x ∈ l ∧ p x = true.
Proof. intros [H1 H2]%List.find_some. split; [by apply list_elem_of_In|done]. Qed.
End answers.

(** Follow the run of [H], which ended in [Ok]. *)
Ltac run H :=
  match type of H with
  | mbind _ _ _ = (_, Ok _) =>
      let d := fresh "d" in let a := fresh "a" in let E := fresh "E" in let K := fresh "K" in
      apply bind_ok_inv in H as (d & a & E & K); rename K into H; repeat (progress run E)
  | wrap _ _ _ = (_, Ok _) => apply wrap_done in H; run H
  | query _ _ _ _ = (_, Ok _) => apply query_done in H as [-> ->]
  | exec _ _ _ _ = (_, Ok _) => apply exec_done in H as ->
  | draw _ _ = (_, Ok _) => apply draw_done in H as [-> ->]
  | check _ _ _ = (_, Ok _) => let K := fresh "K" in apply check_done in H as [-> K]
  | found _ _ _ = (_, Ok _) => let K := fresh "K" in apply found_done in H as [-> K]
  | parsed _ _ = (_, Ok _) => let K := fresh "K" in apply parsed_done in H as [-> K]
  | gets _ _ = (_, Ok _) => apply gets_done in H as [-> ->]
  | modify _ _ = (_, Ok _) => apply modify_done in H as ->
  | mret _ _ = (_, Ok _) => first [apply ret_done in H as [-> ->] | let K := fresh "K" in apply ret_done in H as [-> K]; simplify_eq]
  | throw _ _ = (_, Ok _) => destruct (throw_done _ _ _ _ H)
  | (if ?b then _ else _) _ = (_, Ok _) => destruct b eqn:?
  | _ => idtac
  end.
Ltac runs H := repeat (progress run H).

(** ** The interceptor *)

Section interceptor.
Context {J : Jwt} {D : Digest} {L : JwtLaws} (w : TokenWorld).

Lemma keyFunc_key secret alg kid key : keyFunc secret alg kid = Some key → alg = HS256 ∧ kid = Some keyID ∧ key = secret.
Proof.
  unfold keyFunc. destruct (String.eqb_spec alg HS256) as [->|]; [|done]. simpl.
  destruct kid as [k|]; [|done]. destruct (String.eqb_spec k keyID) as [->|]; [|done]. by intros [= <-].
Qed.

(** Who the caller is, of the tables that were read. *)
Definition stands_for (d : Db) (c : Claims) (caller : Caller) : Prop :=
  match caller with
  | CUser u => u ∈ d_Users d ∧ Atoi (c_Subject c) = Some (u_id u) ∧ u_deleted u = false
  | CAgent a =>
      a ∈ d_Agents d ∧ an_ResourceID a = c_Subject c ∧ an_Deleted a = false ∧ an_TokenVersion a = c_TokenVersion c
  | CMachine m =>
      m ∈ d_Machines d ∧ mc_ResourceID m = c_Subject c ∧ mc_Deleted m = false ∧ mc_TokenVersion m = c_TokenVersion c ∧
      c_TokenType c = TokenTypeAccess
  | CProvisioner p =>
      p ∈ d_Provisioners d ∧ pr_ResourceID p = c_Subject c ∧ pr_Deleted p = false ∧
      pr_TokenVersion p = c_TokenVersion c
  end.
Definition audience_of (caller : Caller) : string :=
  match caller with
  | CUser _ => AccessTokenAudienceFmt (tw_mode w)
  | CAgent _ => AgentAccessTokenAudienceFmt (tw_mode w)
  | CMachine _ => MachineAccessTokenAudienceFmt (tw_mode w)
  | CProvisioner _ => ProvisionerAccessTokenAudienceFmt (tw_mode w)
  end.

Lemma parse_for_done aud t c d d' : parse_for w aud t d = (d', Ok c) →
  d' = d ∧ audienceContains (c_Audience c) aud = true ∧ fresh (d_Clock d) c = true ∧ signed HS256 (tw_secret w) t c.
Proof.
  unfold parse_for. intros H. runs H.
  destruct (ParseWithClaims _ _ _) as [x|] eqn:E; [|done]. destruct (audienceContains _ _) eqn:Ea; [|done]. runs H.
  apply parse_signed in E as (Hf & alg & kid & key & (-> & -> & ->)%keyFunc_key & Hs). done.
Qed.

Lemma expires_done c e d d' : expires_at c d = (d', Ok e) → d' = d ∧ c_ExpiresAt c = Some e.
Proof. unfold expires_at. destruct (c_ExpiresAt c); [by intros [= <- <-]|done]. Qed.

Lemma mark_done d d' u : mark_active d = (d', Ok u) → ∃ n, d' = set_LastActive (λ _, n) d.
Proof. intros [= <- _]. eauto. Qed.

Lemma agent_done c a d d' : authenticateAgentByClaims w c d = (d', Ok a) →
  stands_for d c (CAgent a) ∧ ∃ n, d' = set_LastActive (λ _, n) d.
Proof.
  unfold authenticateAgentByClaims, GetAgentByResourceID. intros H. runs H.
  destruct (List.find _ _) as [x|] eqn:Ef; [|done]. apply find_elem in Ef as [Hin Hr%String.eqb_eq]. runs H; try done.
  apply mark_done in E. apply negb_false_iff in Heqb0. repeat split; auto; lia.
Qed.

Lemma machine_done c m d d' : authenticateMachineByClaims w c d = (d', Ok m) →
  stands_for d c (CMachine m) ∧ ∃ n, d' = set_LastActive (λ _, n) d.
Proof.
  unfold authenticateMachineByClaims, GetMachineByResourceID. intros H. runs H.
  destruct (List.find _ _) as [x|] eqn:Ef; [|done]. apply find_elem in Ef as [Hin Hr%String.eqb_eq]. runs H; try done.
  apply mark_done in E. apply negb_false_iff in Heqb0 as Ht%String.eqb_eq. apply negb_false_iff in Heqb1.
  repeat split; auto; lia.
Qed.

Lemma user_done c u d d' : authenticateUserByClaims w c d = (d', Ok u) →
  stands_for d c (CUser u) ∧ ∃ n, d' = set_LastActive (λ _, n) d.
Proof.
  unfold authenticateUserByClaims, GetUserByID. destruct (Atoi _) as [i|] eqn:Ei; [|done]. intros H. runs H.
  destruct (List.find _ _) as [x|] eqn:Ef; [|done]. apply find_elem in Ef as [Hin Hr]. runs H; try done.
  apply mark_done in E. repeat split; auto. rewrite Ei. f_equal. lia.
Qed.

Lemma provisioner_done c p d d' : authenticateProvisionerByClaims w c d = (d', Ok p) →
  stands_for d c (CProvisioner p) ∧ ∃ n, d' = set_LastActive (λ _, n) d.
Proof.
  unfold authenticateProvisionerByClaims, GetProvisionerByResourceID. intros H. runs H.
  destruct (List.find _ _) as [x|] eqn:Ef; [|done]. apply find_elem in Ef as [Hin Hr%String.eqb_eq]. runs H; try done.
  apply mark_done in E. apply negb_false_iff in Heqb0. repeat split; auto; lia.
Qed.

(** The token is good, and what the tables say of its bearer. *)
Definition bears (d : Db) (t : string) (caller : Caller) : Prop :=
  t ∉ d_Expired d ∧
  ∃ c, signed HS256 (tw_secret w) t c ∧ fresh (d_Clock d) c = true ∧
       audienceContains (c_Audience c) (audience_of caller) = true ∧ stands_for d c caller.

Lemma caller_done t d d' caller e : getUserOrAgentConnect w t d = (d', Ok (caller, e)) →
  bears d t caller ∧ ∃ n, d' = set_LastActive (λ _, n) d.
Proof.
  unfold getUserOrAgentConnect. destruct (String.eqb t ""); [done|]. intros H. runs H.
  match goal with H : bool_decide _ = false |- _ => apply bool_decide_eq_false in H end.
  destruct (audienceKind _ _) as [[|[|[|n]]]|]; [| | | |done]; runs H; simplify_eq/=;
    repeat match goal with
    | H : parse_for _ _ _ _ = _ |- _ => apply parse_for_done in H as (-> & ? & ? & ?)
    | H : expires_at _ _ = _ |- _ => apply expires_done in H as [-> ?]
    | H : authenticateAgentByClaims _ _ _ = _ |- _ => apply agent_done in H as [? ?]
    | H : authenticateMachineByClaims _ _ _ = _ |- _ => apply machine_done in H as [? ?]
    | H : authenticateUserByClaims _ _ _ = _ |- _ => apply user_done in H as [? ?]
    | H : authenticateProvisionerByClaims _ _ _ = _ |- _ => apply provisioner_done in H as [? ?]
    end; (split; [split; [done|]; eauto|done]).
Qed.

Lemma declared_done m h d d' a : resolveDeclaredAgent w m h d = (d', Ok a) →
  d' = d ∧ ∀ x, a = Some x → x ∈ d_Agents d ∧ an_Deleted x = false ∧ an_MachineID x = mc_ID m ∧
                 GetAgentResourceID (h_DeclaredAgent h) = Ok (an_ResourceID x).
Proof.
  unfold resolveDeclaredAgent, GetAgentByResourceID. destruct (String.eqb _ _); [by intros [-> ->]%ret_done|].
  destruct (GetAgentResourceID _) as [r|] eqn:Er; [|done]. intros H. runs H.
  destruct (List.find _ _) as [x|] eqn:Ef; [|done]. apply find_elem in Ef as [Hin Hr%String.eqb_eq]. runs H; try done.
  split; [done|]. intros ? [= <-]. repeat split; auto; [lia|congruence].
Qed.

(** The agent a request acts as: its own, or one that the machine hosts and the
    header names. *)
Definition acts_as (d : Db) (caller : Caller) (h : Header) (a : AgentMessage) : Prop :=
  a ∈ d_Agents d ∧ an_Deleted a = false ∧
  (caller = CAgent a ∨
   ∃ m, caller = CMachine m ∧ an_MachineID a = mc_ID m ∧ GetAgentResourceID (h_DeclaredAgent h) = Ok (an_ResourceID a)).

(** The tables are as they were; the manager knows when it was last used. *)
Definition marks (d d' : Db) : Prop := ∃ n, d' = set_LastActive (λ _, n) d.
#[local] Instance marks_preorder : PreOrder marks.
Proof.
  split; [intros d; exists (d_LastActive d); by destruct d|]. intros a b c [n ->] [m ->]. by exists m.
Qed.

Lemma mark_marks : keeps marks mark_active.
Proof. intros d. eexists. reflexivity. Qed.
#[local] Hint Resolve mark_marks : ages.
Lemma bearer_marks t : keeps marks (getUserOrAgentConnect w t).
Proof.
  unfold getUserOrAgentConnect, parse_for, expires_at, authenticateAgentByClaims, authenticateMachineByClaims,
    authenticateUserByClaims, authenticateProvisionerByClaims, GetAgentByResourceID, GetMachineByResourceID, GetUserByID,
    GetProvisionerByResourceID. keep.
Qed.
Lemma inject_marks ip r h : keeps marks (injectAuthResult w ip r h).
Proof. unfold injectAuthResult, resolveDeclaredAgent, GetAgentByResourceID. keep. Qed.
#[local] Hint Resolve bearer_marks inject_marks : ages.
Lemma authenticate_marks h peer procedure : keeps marks (authenticate w h peer procedure).
Proof. unfold authenticate. keep. Qed.

(** What the context says of the bearer. *)
Definition names_bearer (d : Db) (h : Header) (caller : Caller) (rc : ReqContext) : Prop :=
  rc_User rc = (match caller with CUser u => Some u | _ => None end) ∧
  rc_Machine rc = (match caller with CMachine m => Some m | _ => None end) ∧
  rc_Provisioner rc = (match caller with CProvisioner p => Some p | _ => None end) ∧
  (∀ a, rc_Agent rc = Some a → acts_as d caller h a) ∧
  (∀ a, caller = CAgent a → rc_Agent rc = Some a).

Lemma inject_done ip caller e h n d d' rc :
  (∃ c, stands_for d c caller) →
  injectAuthResult w ip (caller, e) h (set_LastActive (λ _, n) d) = (d', Ok rc) → names_bearer d h caller rc.
Proof.
  intros Hs. unfold injectAuthResult. destruct caller as [u|a|m|p]; simpl; intros H; runs H; simplify_eq;
    (split_and!; try done); simpl; intros; simplify_eq; try done.
  - destruct Hs as (c & ? & ? & ? & ?); split_and!; auto.
  - apply declared_done in E as [_ Ha]. destruct (Ha _ eq_refl) as (? & ? & ? & ?). split_and!; eauto.
Qed.

(** C2: whom a request is authenticated as.  A context that names anyone comes of a
    token in the headers that is signed with the manager's key, for the audience of
    its bearer's kind, not expired and not signed out; the bearer is a row that is
    not deleted, of the token's subject and version, and a machine comes only by an
    access token.  An agent in the context is the bearer or is hosted by the machine
    that is.  The tables do not change. *)
Theorem request_is_its_bearers h peer procedure d d' rc : authenticate w h peer procedure d = (d', Ok rc) →
  marks d d' ∧
  (rc = anonymous (extractSourceIP h peer (tw_trustProxy w)) ∨
   ∃ t caller, GetTokenFromHeaders (tw_unicode w) h = Some t ∧ bears d t caller ∧ names_bearer d h caller rc).
Proof.
  intros H. split; [by pose proof (authenticate_marks h peer procedure d) as Hm; rewrite H in Hm|]. revert H.
  unfold authenticate. destruct (GetTokenFromHeaders _ _) as [t|]; [|done].
  destruct (resolveAuthContext _ _) as [ac|]; [|done].
  intros (d1 & r & E & H)%bind_ok_inv. unfold attempt in E.
  destruct (getUserOrAgentConnect w t d) as [d2 [[caller e]|c]] eqn:Eg; injection E as <- <-.
  - apply caller_done in Eg as [Hb [n ->]]. right. exists t, caller. split_and!; [done..|].
    eapply inject_done; [|exact H]. destruct Hb as (_ & c & _ & _ & _ & Hs). eauto.
  - left. destruct c; runs H; try done; by injection H as _ <-.
Qed.
End interceptor.

(** ** What is minted is accepted *)

(** No statement fails, and nothing runs in the gaps. *)
Record calm (w : TokenWorld) : Prop := MkCalm { calm_fails name : tw_fails w name = false; calm_gaps n d : tw_others w n d = d }.

Section minting.
Context {J : Jwt} {D : Digest} {L : JwtLaws} (w : TokenWorld).

(** A token of the manager, not expired and not signed out. *)
Definition standing (d : Db) (t : string) (c : Claims) : Prop :=
  t = SignedString keyID (tw_secret w) c ∧ fresh (d_Clock d) c = true ∧ t ∉ d_Expired d.

Lemma keyFunc_own secret : keyFunc secret HS256 (Some keyID) = Some secret.
Proof. reflexivity. Qed.

Lemma parse_for_own d t c aud : standing d t c → audienceContains (c_Audience c) aud = true →
  parse_for w aud t d = (d, Ok c).
Proof.
  intros (-> & Hf & _) Ha. unfold parse_for, mbind, M_bind, gets. rewrite (parse_own _ _ _ _ c (keyFunc_own _) Hf).
  by rewrite Ha.
Qed.

Lemma kind_of d t c k : standing d t c → audienceKind (c_Audience c) (expected_audiences w) = Some k →
  getUserOrAgentConnect w t d =
  match k with
  | 0%nat => mbind (λ claims, mbind (λ a, mbind (λ e, mret (CAgent a, e)) (expires_at claims))
               (authenticateAgentByClaims w claims)) (parse_for w (AgentAccessTokenAudienceFmt (tw_mode w)) t) d
  | 1%nat => mbind (λ claims, mbind (λ m, mbind (λ e, mret (CMachine m, e)) (expires_at claims))
               (authenticateMachineByClaims w claims)) (parse_for w (MachineAccessTokenAudienceFmt (tw_mode w)) t) d
  | 2%nat => mbind (λ claims, mbind (λ u, mbind (λ e, mret (CUser u, e)) (expires_at claims))
               (authenticateUserByClaims w claims)) (parse_for w (AccessTokenAudienceFmt (tw_mode w)) t) d
  | _ => mbind (λ claims, mbind (λ p, mret (CProvisioner p, 0)) (authenticateProvisionerByClaims w claims))
           (parse_for w (ProvisionerAccessTokenAudienceFmt (tw_mode w)) t) d
  end.
Proof.
  intros (-> & _ & He) Hk. unfold getUserOrAgentConnect.
  destruct (String.eqb_spec (SignedString keyID (tw_secret w) c) "") as [E|_]; [by destruct (signed_nonempty _ _ _ E)|].
  unfold mbind at 1, M_bind at 1, gets. rewrite bool_decide_eq_false_2 by done. rewrite peek_own, Hk.
  by destruct k as [|[|[|]]].
Qed.

Lemma agent_kind mode : audienceContains [AgentAccessTokenAudienceFmt mode] (AgentAccessTokenAudienceFmt mode) = true.
Proof. unfold audienceContains. simpl. by rewrite String.eqb_refl. Qed.
Lemma machine_kind mode : audienceContains [MachineAccessTokenAudienceFmt mode] (MachineAccessTokenAudienceFmt mode) = true.
Proof. unfold audienceContains. simpl. by rewrite String.eqb_refl. Qed.

Lemma agent_token d t c e : standing d t c → c_Audience c = [AgentAccessTokenAudienceFmt (tw_mode w)] →
  c_ExpiresAt c = Some e →
  getUserOrAgentConnect w t d =
  (let '(d', r) := authenticateAgentByClaims w c d in (d', match r with Ok a => Ok (CAgent a, e) | Err x => Err x end)).
Proof.
  intros Hs Ha He. rewrite (kind_of d t c 0) by (rewrite ?Ha; done || (unfold audienceKind; simpl; by rewrite String.eqb_refl)).
  unfold mbind at 1, M_bind at 1. rewrite (parse_for_own d t c); [|done|by rewrite Ha; apply agent_kind].
  unfold mbind at 1, M_bind at 1. destruct (authenticateAgentByClaims w c d) as [d' [a|x]]; [|done].
  unfold expires_at. by rewrite He.
Qed.

Lemma machine_token d t c e : standing d t c → c_Audience c = [MachineAccessTokenAudienceFmt (tw_mode w)] →
  c_ExpiresAt c = Some e →
  getUserOrAgentConnect w t d =
  (let '(d', r) := authenticateMachineByClaims w c d in (d', match r with Ok m => Ok (CMachine m, e) | Err x => Err x end)).
Proof.
  intros Hs Ha He. rewrite (kind_of d t c 1) by (rewrite ?Ha; done || (unfold audienceKind; simpl; by rewrite String.eqb_refl)).
  unfold mbind at 1, M_bind at 1. rewrite (parse_for_own d t c); [|done|by rewrite Ha; apply machine_kind].
  unfold mbind at 1, M_bind at 1. destruct (authenticateMachineByClaims w c d) as [d' [m|x]]; [|done].
  unfold expires_at. by rewrite He.
Qed.

(** Any row of a key is the one the lookup finds, when keys are unique. *)
Lemma find_nodup {A} (key : A → string) l x : NoDup (key <$> l) → x ∈ l → List.find (λ y, String.eqb (key y) (key x)) l = Some x.
Proof.
  induction l as [|y l IH]; intros Hn Hx; [by apply elem_of_nil in Hx|]. simpl. inversion Hn as [|? ? Hy Hn']; subst.
  apply elem_of_cons in Hx as [->|Hx]; [by rewrite String.eqb_refl|].
  destruct (String.eqb_spec (key y) (key x)) as [E|_]; [|by apply IH].
  destruct Hy. rewrite E. by apply list_elem_of_fmap_2.
Qed.
Lemma find_key {A} (key : A → Z) l x : NoDup (key <$> l) → x ∈ l → List.find (λ y, key y =? key x) l = Some x.
Proof.
  induction l as [|y l IH]; intros Hn Hx; [by apply elem_of_nil in Hx|]. simpl. inversion Hn as [|? ? Hy Hn']; subst.
  apply elem_of_cons in Hx as [->|Hx]; [by rewrite Z.eqb_refl|].
  destruct (Z.eqb_spec (key y) (key x)) as [E|_]; [|by apply IH].
  destruct Hy. rewrite E. by apply list_elem_of_fmap_2.
Qed.

(** C21: what a token's type decides.  A token that the manager signed for an agent
    authenticates it whatever its type, a refresh token that was exchanged and a
    bootstrap token that was consumed or revoked with it: the stored rows are not
    read.  A token of a machine authenticates it when its type is ACCESS and not
    otherwise. *)
Theorem bearer_types jti iat resourceID version ty session family exp name d :
  (∀ n, tw_fails w n = false) → d_Clock d < NumericDate exp * Second →
  (∀ a t, t = signAgentToken jti iat name resourceID version ty session family (AgentAccessTokenAudienceFmt (tw_mode w)) exp (tw_secret w) →
     t ∉ d_Expired d → List.find (λ x, String.eqb (an_ResourceID x) resourceID) (d_Agents d) = Some a → an_Deleted a = false → an_TokenVersion a = version →
     (getUserOrAgentConnect w t d).2 = Ok (CAgent a, NumericDate exp)) ∧
  (∀ m t, t = signMachineToken jti iat name resourceID version ty session family (MachineAccessTokenAudienceFmt (tw_mode w)) exp (tw_secret w) →
     t ∉ d_Expired d → List.find (λ x, String.eqb (mc_ResourceID x) resourceID) (d_Machines d) = Some m → mc_Deleted m = false → mc_TokenVersion m = version →
     (getUserOrAgentConnect w t d).2 =
       if String.eqb ty TokenTypeAccess then Ok (CMachine m, NumericDate exp) else Err CodeUnauthenticated).
Proof.
  intros Hf Hexp. split.
  - intros a t -> He Ha Hd Hv. erewrite agent_token; [|split; [reflexivity|split; [by apply Z.ltb_lt|exact He]]|reflexivity..].
    unfold authenticateAgentByClaims, GetAgentByResourceID, query, stmt, wrap, mbind, M_bind. simpl. rewrite Hf. simpl.
    by rewrite Ha, Hd, Hv, Z.eqb_refl.
  - intros m t -> He Hm Hd Hv. erewrite machine_token; [|split; [reflexivity|split; [by apply Z.ltb_lt|exact He]]|reflexivity..].
    unfold authenticateMachineByClaims, GetMachineByResourceID, query, stmt, wrap, mbind, M_bind. simpl. rewrite Hf. simpl.
    rewrite Hm, Hd, Hv, Z.eqb_refl. by destruct (String.eqb ty _).
Qed.
End minting.


(** ** Refreshing *)

Section refreshing.
Context {J : Jwt} {D : Digest} {L : JwtLaws} (w : TokenWorld).
Hypothesis no_failure : ∀ name, tw_fails w name = false.
Hypothesis checks_alone : ∀ n d, (n < 2)%nat → tw_others w n d = d.

Lemma query_calm {A} name (f : Db → A) d : query w name f d = (d, Ok (f d)).
Proof. unfold query, stmt. by rewrite no_failure. Qed.
Lemma exec_calm name f d : exec w name f d = (f d, Ok tt).
Proof. unfold exec, stmt. by rewrite no_failure. Qed.

(** The fingerprint given does not contradict the one on record. *)
Definition same_device (fp : string) (fp' : string) : Prop := fp = "" ∨ fp' = "" ∨ fp = fp'.

Lemma same_device_passes fp fp' : same_device fp fp' →
  negb (String.eqb fp "") && negb (String.eqb fp' "") && negb (String.eqb fp fp') = false.
Proof.
  intros [-> | [-> | ->]]; simpl; [done|by rewrite andb_false_r|rewrite String.eqb_refl; by rewrite andb_false_r].
Qed.

Lemma validate_forward t fp parse lookup act rev load d v s p :
  t ≠ "" → parse (d_Clock d) t = Some (v, TokenTypeRefresh) → lookup (hashToken t) d = (d, Ok s) → rt_ID s ≠ 0 →
  act (rt_State s) = refreshActionProceed → d_Clock d ≤ rt_ExpiresAt s → same_device fp (rt_Fingerprint s) →
  load (rt_PrincipalID s) d = (d, Ok p) → rp_Deleted p = false → rp_TokenVersion p = v →
  validateRefreshToken w t fp parse lookup act rev load d = (d, Ok (p, s)).
Proof.
  intros Ht Hp Hl Hid Ha He Hf Hload Hd Hv. unfold validateRefreshToken.
  rewrite (proj2 (String.eqb_neq _ _) Ht). unfold mbind, M_bind, gets, wrap. rewrite Hp. simpl. rewrite Hl. cbv beta iota.
  rewrite (proj2 (Z.eqb_neq _ _) Hid), Ha. cbv beta iota. rewrite checks_alone by lia.
  rewrite (proj2 (Z.ltb_ge _ _) He), same_device_passes by done. rewrite Hload. cbv beta iota.
  rewrite checks_alone, Hd, Hv by lia. rewrite Z.eqb_refl. done.
Qed.

(** A token that the manager signed, of a type and version, not expired. *)
Definition minted (d : Db) (t : string) (version : Z) (ty : string) (c : Claims) : Prop :=
  t = SignedString keyID (tw_secret w) c ∧ fresh (d_Clock d) c = true ∧ c_TokenVersion c = version ∧ c_TokenType c = ty.

Lemma minted_parses d t v ty c : minted d t v ty c →
  parseAgent w (d_Clock d) t = Some (v, ty) ∧ parseMachine w (d_Clock d) t = Some (v, ty) ∧ t ≠ "".
Proof.
  intros (-> & Hf & <- & <-). unfold parseAgent, parseMachine, ParseAgentToken, ParseMachineToken.
  rewrite (parse_own _ _ _ _ c (keyFunc_own _) Hf). split_and!; [done..|]. apply signed_nonempty.
Qed.

(** An active row of a principal's refresh token. *)
Definition usable_row (d : Db) (l : list TokenRow) (t fp : string) (id : Z) (x : TokenRow) : Prop :=
  find_token (hashToken t) l = Some x ∧ tk_ID x ≠ 0 ∧ tk_State x = "ACTIVE" ∧ tk_Principal x = id ∧
  d_Clock d ≤ tk_ExpiresAt x ∧ same_device fp (tk_Fingerprint x).

Lemma validate_agent t fp d x a c :
  minted d t (an_TokenVersion a) TokenTypeRefresh c → usable_row d (d_AgentTokens d) t fp (an_ID a) x →
  List.find (λ y, an_ID y =? an_ID a) (d_Agents d) = Some a → an_Deleted a = false →
  validateRefreshToken w t fp (parseAgent w) (lookupAgentToken w) refreshReuseAction (RevokeTokenFamily w) (loadAgent w) d =
  (d, Ok (MkRefreshPrincipal (an_ID a) (an_Name a) (an_ResourceID a) (an_TokenVersion a) false, stored_token (Some x))).
Proof.
  intros (Hp & _ & Ht)%minted_parses (Hx & Hid & Hs & Hpr & He & Hf) Ha Hd.
  eapply validate_forward; try done.
  - unfold lookupAgentToken, GetAgentTokenByHash, mbind, M_bind. rewrite query_calm. by rewrite Hx.
  - simpl. by rewrite Hs.
  - unfold loadAgent, GetAgent, mbind, M_bind. rewrite query_calm. simpl. by rewrite Hpr, Ha, Hd.
Qed.
Lemma validate_machine t fp d x m c :
  minted d t (mc_TokenVersion m) TokenTypeRefresh c → usable_row d (d_MachineTokens d) t fp (mc_ID m) x →
  List.find (λ y, mc_ID y =? mc_ID m) (d_Machines d) = Some m → mc_Deleted m = false →
  validateRefreshToken w t fp (parseMachine w) (lookupMachineToken w) machineRefreshReuseAction (RevokeMachineTokenFamily w)
    (loadMachine w) d =
  (d, Ok (MkRefreshPrincipal (mc_ID m) (mc_Name m) (mc_ResourceID m) (mc_TokenVersion m) false, stored_token (Some x))).
Proof.
  intros (_ & Hp & Ht)%minted_parses (Hx & Hid & Hs & Hpr & He & Hf) Ha Hd.
  eapply validate_forward; try done.
  - unfold lookupMachineToken, GetMachineTokenByHash, mbind, M_bind. rewrite query_calm. by rewrite Hx.
  - simpl. by rewrite Hs.
  - unfold loadMachine, GetMachine, mbind, M_bind. rewrite query_calm. simpl. by rewrite Hpr, Ha, Hd.
Qed.

Lemma fresh_for now dur c : Second ≤ dur → c_ExpiresAt c = Some (NumericDate (now + dur)) → fresh now c = true.
Proof.
  intros Hd He. unfold fresh, NumericDate in *. rewrite He. apply Z.ltb_lt.
  assert (0 < Second) by done. pose proof (Z.mul_succ_div_gt (now + dur) Second ltac:(done)). lia.
Qed.

Lemma hash_untaken_find h l y : hash_taken h l = false → tk_Hash y = h → find_token h (l ++ [y]) = Some y.
Proof.
  intros Hh Hy. unfold find_token. induction l as [|x l IH]; simpl; [by rewrite Hy, String.eqb_refl|].
  simpl in Hh. apply orb_false_iff in Hh as [-> Hh]. by apply IH.
Qed.
Lemma find_token_app h l y : tk_Hash y ≠ h → find_token h (l ++ [y]) = find_token h l.
Proof.
  intros Hy. unfold find_token. induction l as [|x l IH]; simpl; [by rewrite (proj2 (String.eqb_neq _ _) Hy)|].
  by rewrite IH.
Qed.
Lemma find_token_update h q f l : (∀ x, tk_Hash (f x) = tk_Hash x) →
  find_token h (update q f l) = (λ x, if q x then f x else x) <$> find_token h l.
Proof.
  intros Hf. unfold find_token, update. induction l as [|x l IH]; [done|]. simpl.
  assert (tk_Hash (if q x then f x else x) = tk_Hash x) as -> by (destruct (q x); [apply Hf|done]). by destruct (String.eqb _ _).
Qed.
Lemma hash_taken_update h q f l : (∀ x, tk_Hash (f x) = tk_Hash x) → hash_taken h (update q f l) = hash_taken h l.
Proof.
  intros Hf. unfold hash_taken, update. induction l as [|x l IH]; [done|]. simpl.
  assert (tk_Hash (if q x then f x else x) = tk_Hash x) as -> by (destruct (q x); [apply Hf|done]). by f_equal.
Qed.
Lemma set_state_hash now st c t : tk_Hash (set_state now st c t) = tk_Hash t.
Proof. unfold set_state. by destruct st, c. Qed.
Lemma create_agent_token id h ty f st fp e c d : hash_taken h (d_AgentTokens d) = false →
  CreateAgentToken w id h ty f st fp e c d =
  (set_Seq Z.succ (set_AgentTokens (λ l, l ++ [token_row (d_Seq d) id h ty f st fp e c]) d), Ok tt).
Proof. intros Hh. unfold CreateAgentToken. by rewrite no_failure, Hh. Qed.

(** The refresh token that a refresh at [d] makes for the agent. *)
Definition next_refresh (d : Db) (a : AgentMessage) : string :=
  GenerateAgentTokenWithSession (tw_random w (S (d_Draws d))) (d_Clock d) (an_Name a) (an_ResourceID a) (an_TokenVersion a)
    TokenTypeRefresh "" (tw_mode w) (tw_secret w) refreshTokenDuration.

(** The state in which a refresh ends, from the state in which it consumes the row
    [x]; and the access token it makes. *)
Definition consumes (d : Db) (a : AgentMessage) (x : TokenRow) (fp : string) : Db :=
  set_Seq Z.succ (set_AgentTokens (λ l, l ++ [token_row (d_Seq d) (an_ID a) (hashToken (next_refresh d a)) TYPE_REFRESH
      (tk_Family x) STATE_ACTIVE fp (d_Clock d + refreshTokenDuration) ""])
    (set_Draws (λ n, S (S n)) (set_Timers (λ l, l ++ [(tk_ID x, d_Clock d + refreshTokenReuseWindow)])
      (set_AgentTokens (update (λ y, tk_ID y =? tk_ID x) (set_state (d_Clock d) STATE_CONSUMED (Some (d_Clock d)))) d)))).
Definition next_access (d : Db) (a : AgentMessage) : string :=
  GenerateAgentTokenWithSession (tw_random w (d_Draws d)) (d_Clock d) (an_Name a) (an_ResourceID a) (an_TokenVersion a)
    TokenTypeAccess "" (tw_mode w) (tw_secret w) accessTokenDuration.

(** A refresh, with what runs in the gap before the row is consumed. *)
Lemma refresh_answers t fp d x a c :
  minted d t (an_TokenVersion a) TokenTypeRefresh c → usable_row d (d_AgentTokens d) t fp (an_ID a) x →
  List.find (λ y, an_ID y =? an_ID a) (d_Agents d) = Some a → an_Deleted a = false →
  let d2 := tw_others w 2 d in hash_taken (hashToken (next_refresh d2 a)) (d_AgentTokens d2) = false →
  RefreshAgentToken w t fp d =
  (consumes d2 a x fp, Ok (next_access d2 a, next_refresh d2 a, d_Clock d2 + accessTokenDuration)).
Proof.
  intros Hm Hx Ha Hd d2 Hh. pose proof (validate_agent t fp d x a c Hm Hx Ha Hd) as Hv.
  destruct Hx as (Hx & Hid & Hs & Hpr & He & Hf).
  unfold RefreshAgentToken. unfold mbind at 1, M_bind at 1. rewrite Hv. unfold mbind at 1, M_bind at 1, gap, modify. fold d2.
  simpl rt_State. rewrite Hs. change (stringToAgentTokenState "ACTIVE") with STATE_ACTIVE. cbv beta iota.
  unfold UpdateAgentTokenState, wrap, scheduleTokenRevoke, draw, gets, modify, mbind, M_bind.
  rewrite exec_calm by done. cbv beta iota zeta.
  by rewrite create_agent_token by (simpl; rewrite hash_taken_update; [done|apply set_state_hash]).
Qed.

(** What the exchange of the row [x] for the token [new] leaves. *)
Definition exchanged (d d' : Db) (t new fp : string) (a : AgentMessage) (x : TokenRow) : Prop :=
  (∃ x', find_token (hashToken t) (d_AgentTokens d') = Some x' ∧ tk_ID x' = tk_ID x ∧ tk_State x' = "CONSUMED") ∧
  (∃ y, usable_row d' (d_AgentTokens d') new fp (an_ID a) y ∧ tk_Family y = tk_Family x ∧ tk_Fingerprint y = fp ∧
     tk_ID y = d_Seq d) ∧
  (∀ h y, h ≠ hashToken new → tk_ID y ≠ tk_ID x → find_token h (d_AgentTokens d) = Some y →
     find_token h (d_AgentTokens d') = Some y) ∧
  (tk_ID x, d_Clock d + refreshTokenReuseWindow) ∈ d_Timers d'.

Lemma exchange_leaves d d' t new fp a x x0 : 0 < d_Seq d →
  find_token (hashToken t) (d_AgentTokens d) = Some x0 → tk_ID x0 = tk_ID x → hash_taken (hashToken new) (d_AgentTokens d) = false →
  d_AgentTokens d' =
    update (λ y, tk_ID y =? tk_ID x) (set_state (d_Clock d) STATE_CONSUMED (Some (d_Clock d))) (d_AgentTokens d) ++
    [token_row (d_Seq d) (an_ID a) (hashToken new) TYPE_REFRESH (tk_Family x) STATE_ACTIVE fp
       (d_Clock d + refreshTokenDuration) ""] →
  d_Clock d' = d_Clock d → d_Timers d' = d_Timers d ++ [(tk_ID x, d_Clock d + refreshTokenReuseWindow)] →
  exchanged d d' t new fp a x.
Proof.
  intros Hok Hx Hid Hh Et Ec Ei.
  assert (∀ h z, find_token h (d_AgentTokens d) = Some z → h ≠ hashToken new) as Hne.
  { intros h z [Hz Hhz%String.eqb_eq]%find_elem ->. apply hash_fresh in Hh. destruct Hh. rewrite <- Hhz. by apply list_elem_of_fmap_2. }
  unfold exchanged, usable_row. rewrite Et, Ec, Ei. split_and!.
  - eexists. rewrite find_token_app by (simpl; intros E; by apply (Hne _ _ Hx)). rewrite find_token_update by apply set_state_hash.
    rewrite Hx. simpl. by rewrite Hid, Z.eqb_refl.
  - exists (token_row (d_Seq d) (an_ID a) (hashToken new) TYPE_REFRESH (tk_Family x) STATE_ACTIVE fp
              (d_Clock d + refreshTokenDuration) "").
    split; [|done]. split; [apply hash_untaken_find; [|done]; rewrite hash_taken_update; [done|apply set_state_hash]|].
    split_and!; try done; [simpl; lia|simpl; unfold refreshTokenDuration, Hour, Minute, Second; lia|unfold same_device; tauto].
  - intros h y Hh' Hy Hf. rewrite find_token_app by (simpl; congruence). rewrite find_token_update by apply set_state_hash.
    rewrite Hf. simpl. by rewrite (proj2 (Z.eqb_neq _ _) Hy).
  - apply elem_of_app. right. by apply list_elem_of_singleton.
Qed.

(** What the access token of a refresh is worth. *)
Lemma access_authenticates d d' a : a ∈ d_Agents d' → an_Deleted a = false → NoDup (an_ResourceID <$> d_Agents d') →
  d_Clock d' = d_Clock d → next_access d a ∉ d_Expired d' →
  (getUserOrAgentConnect w (next_access d a) d').2 = Ok (CAgent a, NumericDate (d_Clock d + accessTokenDuration)).
Proof.
  intros Ha Hd Hn Hc He'. erewrite agent_token; [|split; [reflexivity|split; [|exact He']]|reflexivity..].
  - unfold authenticateAgentByClaims, GetAgentByResourceID. unfold wrap, mbind, M_bind. rewrite query_calm by done. simpl.
    by rewrite (find_nodup an_ResourceID _ _ Hn Ha), Hd, Z.eqb_refl.
  - rewrite Hc. by apply (fresh_for _ accessTokenDuration).
Qed.

(** A machine's refresh away from its renewal: a new access token, the same refresh
    token. *)
Definition machine_access (d : Db) (m : MachineMessage) : string :=
  GenerateMachineTokenWithSession (tw_random w (d_Draws d)) (d_Clock d) (mc_Name m) (mc_ResourceID m) (mc_TokenVersion m)
    TokenTypeAccess "" (tw_mode w) (tw_secret w) accessTokenDuration.

Lemma machine_refresh_answers t fp d x m c :
  minted d t (mc_TokenVersion m) TokenTypeRefresh c → usable_row d (d_MachineTokens d) t fp (mc_ID m) x →
  List.find (λ y, mc_ID y =? mc_ID m) (d_Machines d) = Some m → mc_Deleted m = false →
  machineRefreshRotateWindow ≤ tk_ExpiresAt x - d_Clock d →
  RefreshMachineToken w t fp d = (set_Draws S d, Ok (machine_access d m, "", d_Clock d + accessTokenDuration)).
Proof.
  intros Hm Hx Ha Hd He. pose proof (validate_machine t fp d x m c Hm Hx Ha Hd) as Hv.
  unfold RefreshMachineToken. unfold mbind at 1, M_bind at 1. rewrite Hv. unfold draw, gets, mbind, M_bind.
  cbn [rt_ExpiresAt stored_token]. cbn [set_Draws d_Clock]. by rewrite (proj2 (Z.ltb_ge _ _) He).
Qed.

Lemma machine_authenticates d d' m : m ∈ d_Machines d' → mc_Deleted m = false → NoDup (mc_ResourceID <$> d_Machines d') →
  d_Clock d' = d_Clock d → machine_access d m ∉ d_Expired d' →
  (getUserOrAgentConnect w (machine_access d m) d').2 = Ok (CMachine m, NumericDate (d_Clock d + accessTokenDuration)).
Proof.
  intros Ha Hd Hn Hc He'. erewrite machine_token; [|split; [reflexivity|split; [|exact He']]|reflexivity..].
  - unfold authenticateMachineByClaims, GetMachineByResourceID. unfold wrap, mbind, M_bind. rewrite query_calm by done. simpl.
    by rewrite (find_nodup mc_ResourceID _ _ Hn Ha), Hd, Z.eqb_refl.
  - rewrite Hc. by apply (fresh_for _ accessTokenDuration).
Qed.
End refreshing.

Section exchange.
Context {J : Jwt} {D : Digest} {L : JwtLaws} (w : TokenWorld).

(** What a refresh token needs to be exchanged: of a live agent and of its version,
    with an active row. *)
Record exchangeable (d : Db) (t fp : string) (a : AgentMessage) (x : TokenRow) : Prop := MkExchangeable {
  ex_rows : rows_ok d;
  ex_minted : ∃ c, minted w d t (an_TokenVersion a) TokenTypeRefresh c;
  ex_row : usable_row d (d_AgentTokens d) t fp (an_ID a) x;
  ex_agent : a ∈ d_Agents d;
  ex_live : an_Deleted a = false;
  ex_names : NoDup (an_ResourceID <$> d_Agents d) }.

(** C15: a refresh exchanges the token.  A refresh token of a live agent and of its
    version, whose row is active, is answered with an access token that authenticates
    the agent and with a refresh token that can be exchanged in turn, of the same
    family; the row of the old one is consumed, and no other row is written. *)
Theorem refresh_hands_over t fp d x a : calm w → exchangeable d t fp a x →
  hash_taken (hashToken (next_refresh w d a)) (d_AgentTokens d) = false →
  ∃ acc new d', RefreshAgentToken w t fp d = (d', Ok (acc, new, d_Clock d + accessTokenDuration)) ∧
    exchanged d d' t new fp a x ∧
    (acc ∉ d_Expired d' →
     (getUserOrAgentConnect w acc d').2 = Ok (CAgent a, NumericDate (d_Clock d + accessTokenDuration))).
Proof.
  intros [Hfail Hgap] [Hok [c Hm] Hx Ha Hd Hn] Hh. pose proof (rows_agents _ Hok) as [Hk _].
  eexists _, _, _. split.
  - rewrite (refresh_answers w Hfail (λ n d _, Hgap n d) t fp d x a c Hm Hx (find_key an_ID _ _ Hk Ha) Hd);
      rewrite !Hgap; done.
  - split; [by eapply exchange_leaves; [apply Hok|apply Hx|..]|]. intros He. by apply access_authenticates.
Qed.

(** C23: two refreshes of one token that overlap both exchange it.  When a refresh
    runs between the checks of another and its write, both are answered with a
    refresh token that can be exchanged in turn: the write does not ask for the row to
    be active, and nothing is taken for reuse. *)
Theorem raced_refresh_exchanges_twice w' t fp d x a : calm w' → exchangeable d t fp a x →
  tw_secret w' = tw_secret w →
  (∀ name, tw_fails w name = false) → (∀ n d, tw_others w n d = if Nat.eqb n 2 then (RefreshAgentToken w' t fp d).1 else d) →
  hash_taken (hashToken (next_refresh w' d a)) (d_AgentTokens d) = false →
  hash_taken (hashToken (next_refresh w (consumes w' d a x fp) a)) (d_AgentTokens (consumes w' d a x fp)) = false →
  ∃ acc new acc' new' e e' d',
    (RefreshAgentToken w' t fp d).2 = Ok (acc', new', e') ∧ RefreshAgentToken w t fp d = (d', Ok (acc, new, e)) ∧ new ≠ new' ∧
    (∃ y, usable_row d' (d_AgentTokens d') new fp (an_ID a) y) ∧ (∃ y, usable_row d' (d_AgentTokens d') new' fp (an_ID a) y).
Proof.
  intros [Hfail' Hgap'] [Hok [c Hm] Hx Ha Hd Hn] Hsec Hfail Hgap Hh' Hh. pose proof (rows_agents _ Hok) as [Hk _].
  pose proof (find_key an_ID _ _ Hk Ha) as Hfind.
  assert (RefreshAgentToken w' t fp d = (consumes w' d a x fp, Ok (next_access w' d a, next_refresh w' d a, d_Clock d + accessTokenDuration))) as E'.
  { rewrite (refresh_answers w' Hfail' (λ n d _, Hgap' n d) t fp d x a c); rewrite ?Hgap'; try done.
    unfold minted in *. by rewrite Hsec. }
  set (d1 := consumes w' d a x fp) in *.
  assert (tw_others w 2 d = d1) as Hd1 by (rewrite Hgap; simpl; by rewrite E').
  assert (∀ n d, (n < 2)%nat → tw_others w n d = d) as Hg by (intros n d0 Hlt; rewrite Hgap; by destruct (Nat.eqb_spec n 2); [lia|]).
  assert (exchanged d d1 t (next_refresh w' d a) fp a x) as X1
    by (eapply exchange_leaves; [apply Hok|apply Hx|done..]).
  assert (exchanged d1 (consumes w d1 a x fp) t (next_refresh w d1 a) fp a x) as X2.
  { destruct X1 as ((x1 & Hx1 & Hid & _) & _). eapply exchange_leaves; [|apply Hx1|done..].
    pose proof (rows_seq _ Hok). simpl. lia. }
  assert (hashToken (next_refresh w' d a) ≠ hashToken (next_refresh w d1 a)) as Hne.
  { intros E. rewrite <- E in Hh. apply hash_fresh in Hh. apply Hh. simpl. rewrite fmap_app. apply elem_of_app. right.
    by apply list_elem_of_singleton. }
  exists (next_access w d1 a), (next_refresh w d1 a), (next_access w' d a), (next_refresh w' d a).
  eexists _, _, (consumes w d1 a x fp). split_and!.
  - by rewrite E'.
  - rewrite (refresh_answers w Hfail Hg t fp d x a c); rewrite ?Hd1; try done.
  - intros E. apply Hne. by rewrite E.
  - destruct X2 as (_ & (y & Hy & _) & _). eauto.
  - destruct X1 as (_ & (y & (Hy & Hi & Hs & Hp & He & Hfp) & _ & _ & Hid) & _). exists y.
    destruct X2 as (_ & _ & Hsame & _). split; [|by split_and!]. apply Hsame; [done| |done].
    destruct (rows_agent_tokens _ Hok) as [_ Hb]. rewrite Forall_forall in Hb.
    pose proof (find_elem _ _ _ (proj1 Hx)) as [Hin _]. specialize (Hb (tk_ID x) (list_elem_of_fmap_2 _ _ _ Hin)). lia.
Qed.
End exchange.
