(* ===== verification/MachinesSpec.v ===== *)
(** What the deletion of a provisioned machine and the replay of its jobs do. *)

From stdpp Require Import base list strings numbers gmap sets.
From S2P Require Import Prelude Strings Names Quantity Nonce Iam Jwt Provision Tokens AgentTokens Machines TokensSpec Credentials.
Local Open Scope Z_scope.

(** ** Events are not taken back *)

Section replay.
Context {J : Jwt} {D : Digest} (w : TokenWorld) (build : Build) (setting : ProvisioningSetting).

Definition tells (d d' : Db) : Prop := ∀ e, e ∈ d_Events d → e ∈ d_Events d'.
#[local] Instance tells_preorder : PreOrder tells.
Proof. split; [by intros d e|]. intros a b c H1 H2 e He. by apply H2, H1. Qed.

Lemma emit_tells e : keeps tells (emit e).
Proof. apply k_modify. intros d x Hx. apply elem_of_app. by left. Qed.
Lemma draw_tells : keeps tells (draw w).
Proof. intros d e He. exact He. Qed.
Lemma create_tells id h ty f s fp e c : keeps tells (CreateMachineToken w id h ty f s fp e c).
Proof. intros d x Hx. unfold CreateMachineToken. by destruct (_ || _). Qed.
#[local] Hint Resolve emit_tells draw_tells create_tells tells_preorder : ages.

Lemma replay_job_tells p m : keeps tells (replay_job w build setting p m).
Proof. unfold replay_job, mintProvisionedMachineRefreshToken, composeProvisionMachineJob. keep. Qed.

(** A replay of a job ends well whatever becomes of the job. *)
Lemma replay_job_ok p m d : ∃ d', replay_job w build setting p m d = (d', Ok tt).
Proof.
  unfold replay_job. destruct (_ =? PHASE_DEPROVISIONING); [by eexists|].
  unfold mbind at 1, M_bind at 1. unfold attempt at 1.
  match goal with |- context [let (_, _) := mbind ?f ?x d in _] => destruct (mbind f x d) as [d1 r] end. by eexists.
Qed.

Lemma each_reaches (f : MachineMessage → M Db Code unit) m e l d :
  (∀ x d, ∃ d', f x d = (d', Ok tt)) → (∀ x, keeps tells (f x)) → m ∈ l → (∀ d, e ∈ d_Events (f m d).1) →
  e ∈ d_Events (each f l d).1.
Proof.
  intros Hok Hk Hm He. revert d. induction l as [|x l IH]; intros d; [by apply elem_of_nil in Hm|].
  simpl. unfold mbind, M_bind. destruct (Hok x d) as [d' E]. rewrite E. apply elem_of_cons in Hm as [->|Hm]; [|by apply IH].
  assert (keeps tells (each f l)) as Hl.
  { clear - Hk. induction l as [|y l IH]; simpl; [apply k_ret; apply _|]. apply k_bind; [apply _|apply Hk|done]. }
  apply Hl. specialize (He d). by rewrite E in He.
Qed.

Lemma each_ok (f : MachineMessage → M Db Code unit) l d : (∀ x d, ∃ d', f x d = (d', Ok tt)) → (each f l d).2 = Ok tt.
Proof.
  intros Hok. revert d. induction l as [|x l IH]; intros d; [done|]. simpl. unfold mbind, M_bind.
  destruct (Hok x d) as [d' ->]. apply IH.
Qed.

(** A deprovisioning machine of the provisioner is torn down by every replay. *)
Lemma replay_tears_down p m pv d : tw_fails w "ListReplayableProvisioningMachines" = false →
  m ∈ d_Machines d → mc_ProvisionerID m = pr_ID p → mc_Provisioning m = Some pv → pv_Phase pv = PHASE_DEPROVISIONING →
  (replayProvisionJobs w build setting p d).2 = Ok tt ∧
  SendDeprovisionJob (pr_ID p) (FormatMachineUID (mc_ResourceID m)) false ∈
    d_Events (replayProvisionJobs w build setting p d).1.
Proof.
  intros Hf Hm Hp Hpv Hph. unfold replayProvisionJobs, ListReplayableProvisioningMachines, attempt.
  unfold mbind at 1 2, M_bind at 1 2, query, stmt. rewrite Hf. cbv iota beta.
  split; [apply each_ok; intros; apply replay_job_ok|].
  apply (each_reaches _ m); [intros; apply replay_job_ok|intros; apply replay_job_tells| |].
  - apply list_elem_of_In, filter_In. split; [by apply list_elem_of_In|]. unfold replayable. rewrite Hp, Z.eqb_refl, Hpv, Hph. done.
  - intros d'. unfold replay_job. rewrite Hpv, Hph. simpl. apply elem_of_app. right. by apply list_elem_of_singleton.
Qed.
End replay.

(** ** A deletion that is refused *)

Section deletion.
Context {J : Jwt} {D : Digest} (w : TokenWorld) (build : Build) (setting : ProvisioningSetting).

(** A machine that its provisioner made, and that hosts an agent. *)
Record occupied (d : Db) (m : MachineMessage) (p : ProvisionerMessage) (pv : ProvisioningStatus) : Prop := MkOccupied {
  oc_machine : m ∈ d_Machines d; oc_live : mc_Deleted m = false;
  oc_bound : mc_ProvisionerID m = pr_ID p; oc_id : pr_ID p ≠ 0;
  oc_provisioner : p ∈ d_Provisioners d; oc_there : pr_Deleted p = false; oc_status : mc_Provisioning m = Some pv;
  oc_agent : ∃ a, a ∈ d_Agents d ∧ an_MachineID a = mc_ID m ∧ an_Deleted a = false }.

Lemma bind_step {A B} (m : M Db Code A) (f : A → M Db Code B) d d' a : m d = (d', Ok a) → mbind f m d = f a d'.
Proof. intros E. unfold mbind, M_bind. by rewrite E. Qed.

Lemma wrap_forward {A} c (m : M Db Code A) d d' a : m d = (d', Ok a) → wrap c m d = (d', Ok a).
Proof. intros E. unfold wrap. by rewrite E. Qed.

Lemma begin_teardown_forward d m p pv : calm w → rows_ok d → occupied d m p pv →
  begin_teardown w m d =
  (set_Machines (update (λ x, mc_ID x =? mc_ID m) (machine_provisioning (with_phase PHASE_DEPROVISIONING pv))) d, Ok (Some p)).
Proof.
  intros [Hfail _] Hok [Hm Hl Hb Hid Hp Hpd Hs _]. unfold begin_teardown.
  rewrite Hb, (proj2 (Z.eqb_neq _ _) Hid).
  erewrite bind_step; [|by unfold wrap, GetProvisioner; rewrite query_calm by done; rewrite (find_key pr_ID _ _ (proj1 (rows_provisioners _ Hok)) Hp)].
  rewrite Hs, Hpd. erewrite bind_step; [reflexivity|]. unfold wrap, UpdateMachineProvisioning, mbind, M_bind, stmt.
  rewrite Hfail. assert (existsb (λ x, mc_ID x =? mc_ID m) (d_Machines d) = true) as ->; [|done].
  apply existsb_exists. exists m. split; [by apply list_elem_of_In|apply Z.eqb_refl].
Qed.

Lemma update_none {A} (q : A → bool) f l : (∀ y, y ∈ l → q y = false) → update q f l = l.
Proof.
  intros H. unfold update. rewrite <- (list_fmap_id l) at 2. apply list_fmap_ext. intros i y Hy.
  by rewrite H by (by eapply list_elem_of_lookup_2).
Qed.

(** The statement finds no row to delete. *)
Lemma refused_statement d m p pv : (∀ name, tw_fails w name = false) → rows_ok d → occupied d m p pv →
  let d' := set_Machines (update (λ x, mc_ID x =? mc_ID m) (machine_provisioning (with_phase PHASE_DEPROVISIONING pv))) d in
  DeleteMachineIfNoAgents w (mc_ResourceID m) d' = (d', Ok false).
Proof.
  intros Hfail Hok [Hm _ _ _ _ _ _ (a & Ha & Ham & Had)] d'. unfold DeleteMachineIfNoAgents, stmt. rewrite Hfail.
  match goal with |- (set_Machines (update ?q _) _, _) = _ => assert (∀ y, y ∈ d_Machines d' → q y = false) as Hnone end.
  { intros y Hy. destruct (String.eqb_spec (mc_ResourceID y) (mc_ResourceID m)) as [E|]; [|done].
    assert (mc_ID y = mc_ID m) as Ey.
    { simpl in Hy. apply list_elem_of_fmap in Hy as (z & -> & Hz). destruct (mc_ID z =? mc_ID m) eqn:Ez; [by apply Z.eqb_eq|].
      pose proof (find_nodup mc_ResourceID _ _ (rows_machine_names _ Hok) Hz) as H1.
      rewrite E, (find_nodup mc_ResourceID _ _ (rows_machine_names _ Hok) Hm) in H1. congruence. }
    simpl. apply andb_false_iff. right. apply negb_false_iff, existsb_exists. exists a.
    split; [by apply list_elem_of_In|]. by rewrite Ey, Ham, Had, Z.eqb_refl. }
  unfold set_Machines at 1. rewrite (update_none _ _ _ Hnone). do 2 f_equal. apply not_true_iff_false.
  intros (y & Hy & Hq)%existsb_exists. rewrite Hnone in Hq; [done|by apply list_elem_of_In].
Qed.

(** C18: a refused deletion tears the machine down.  The deletion of a provisioned
    machine that hosts an agent is refused, but the machine, which is not deleted,
    stays in DEPROVISIONING, and the next time its provisioner connects it is told to
    remove the machine and its data, whatever its setting to retain data. *)
Theorem refused_deletion_tears_down user name d m p pv : calm w → rows_ok d → occupied d m p pv →
  GetMachineResourceID name = Ok (mc_ResourceID m) → canDeleteMachine w user m = true →
  let m' := machine_provisioning (with_phase PHASE_DEPROVISIONING pv) m in
  ∃ d', DeleteMachine w user name d = (d', Err CodeFailedPrecondition) ∧ m' ∈ d_Machines d' ∧ mc_Deleted m' = false ∧
    d_Events d' = d_Events d ∧
    SendDeprovisionJob (pr_ID p) (FormatMachineUID (mc_ResourceID m)) false ∈
      d_Events (replayProvisionJobs w build setting p d').1.
Proof.
  intros Hcalm Hok Hocc Hn Hcan m'. pose proof Hocc as [Hm Hl Hb Hid Hp Hpd Hs (a & Ha & Ham & Had)].
  pose proof Hcalm as [Hfail Hgap].
  set (d' := set_Machines (update (λ x, mc_ID x =? mc_ID m) (machine_provisioning (with_phase PHASE_DEPROVISIONING pv))) d).
  assert (m' ∈ d_Machines d') as Hm'.
  { pose proof (elem_update (λ x, mc_ID x =? mc_ID m) (machine_provisioning (with_phase PHASE_DEPROVISIONING pv)) _ _ Hm) as H.
    cbv beta in H. by rewrite Z.eqb_refl in H. }
  exists d'. split_and!; [|done|done|done|].
  - pose proof (find_nodup mc_ResourceID _ _ (rows_machine_names _ Hok) Hm) as Hfind.
    unfold DeleteMachine. erewrite bind_step; [|by rewrite Hn].
    erewrite bind_step; [|by unfold wrap, GetMachineByResourceID; rewrite query_calm by done; rewrite Hfind].
    erewrite bind_step; [|reflexivity]. rewrite Hcan. erewrite bind_step; [|reflexivity].
    erewrite bind_step; [|by unfold gap, modify; rewrite Hgap].
    erewrite bind_step; [|by apply (begin_teardown_forward d m p pv)].
    fold d'. erewrite bind_step; [|apply wrap_forward; by apply (refused_statement d m p pv)].
    change (negb false) with true. cbv iota. fold d'. erewrite bind_step; [|by unfold wrap, GetMachineByResourceID; rewrite query_calm by done].
    erewrite bind_step; [reflexivity|]. unfold found.
    change (d_Machines d') with (update (λ x, mc_ID x =? mc_ID m) (machine_provisioning (with_phase PHASE_DEPROVISIONING pv)) (d_Machines d)).
    rewrite find_update by done. by rewrite Hfind.
  - by apply (replay_tears_down w build setting p m' (with_phase PHASE_DEPROVISIONING pv)).
Qed.
End deletion.
