(* ===== verification/Device.v ===== *)
(** The device login: the sessions in memory ([component/device/device.go]) and the
    service that starts, polls, shows and approves them ([api/v1/device.go]).

    A session is an object: both maps of the store, and the handlers, hold its
    address.  Other requests run at gap 7, between the lookup of a session and the
    reading of its status by a poll, and at gap 8, between the check that a session
    is pending and its approval. *)

From Stdlib Require Import Ascii.
From stdpp Require Import base list strings numbers gmap.
From S2P Require Import Prelude Strings Names Iam Nonce Jwt Provision Tokens AgentTokens Machines.
Import Strings.
Local Open Scope Z_scope.

(** ** The store *)

Inductive DeviceStatus := StatusPending | StatusApproved | StatusExpired | StatusDenied.

Definition SessionTTL : Z := 10 * Minute.
Definition GraceWindow : Z := 10 * Minute.
Definition deviceMinPollInterval : Z := 2 * Second.
Definition deviceSessionTTLSeconds : Z := 600.
Definition devicePollIntervalSeconds : Z := 5.

Record DeviceResult := MkDeviceResult { dr_MachineID : string; dr_MachineTitle : string; dr_RefreshToken : string }.

(** What the CLI says of its host. *)
Record DeviceInfo := MkDeviceInfo {
  di_MachineID : string; di_Hostname : string; di_Os : string; di_Arch : string; di_Ip : string; di_Version : string;
  di_Fingerprint : string }.

Record DeviceSession := MkDeviceSession {
  dn_DeviceCode : string; dn_UserCode : string; dn_Status : DeviceStatus; dn_Info : DeviceInfo;
  dn_CreatedAt : Z; dn_ExpiresAt : Z; dn_LastPolledAt : option Z; dn_ApprovedAt : Z; dn_ApprovedBy : Z;
  dn_Result : option DeviceResult; dn_DenialReason : string }.

Record DeviceStore := MkDeviceStore {
  dv_heap : gmap nat DeviceSession; dv_next : nat; dv_byDevice : gmap string nat; dv_byUser : gmap string nat }.

Definition NewStore : DeviceStore := MkDeviceStore ∅ 0 ∅ ∅.

Definition expired (now : Z) (s : DeviceSession) : bool :=
  match dn_Status s with
  | StatusPending => dn_ExpiresAt s <? now
  | StatusApproved => dn_ApprovedAt s + GraceWindow <? now
  | StatusDenied | StatusExpired => true
  end.

(** The object at an address of a map. *)
Definition session_at (s : DeviceStore) (p : nat) : option DeviceSession := dv_heap s !! p.
Definition dead (now : Z) (s : DeviceStore) (p : nat) : bool :=
  match session_at s p with Some x => expired now x | None => false end.

(** The user codes of the purged sessions. *)
Definition purged_codes (now : Z) (s : DeviceStore) : list string :=
  omap (λ kv : string * nat, if dead now s kv.2 then dn_UserCode <$> session_at s kv.2 else None)
    (map_to_list (dv_byDevice s)).

Definition sweepLocked (now : Z) (s : DeviceStore) : DeviceStore :=
  MkDeviceStore (dv_heap s) (dv_next s) (filter (λ kv, dead now s kv.2 = false) (dv_byDevice s))
    (filter (λ kv, kv.1 ∉ purged_codes now s) (dv_byUser s)).

Definition Start (now : Z) (deviceCode userCode : string) (info : DeviceInfo) (s : DeviceStore) : DeviceStore :=
  let s := sweepLocked now s in
  let sess := MkDeviceSession deviceCode userCode StatusPending info now (now + SessionTTL) None 0 0 None "" in
  MkDeviceStore (<[dv_next s := sess]> (dv_heap s)) (S (dv_next s)) (<[deviceCode := dv_next s]> (dv_byDevice s))
    (<[userCode := dv_next s]> (dv_byUser s)).

Definition GetByDeviceCode (now : Z) (code : string) (s : DeviceStore) : DeviceStore * option nat :=
  let s := sweepLocked now s in (s, dv_byDevice s !! code).
Definition GetByUserCode (now : Z) (code : string) (s : DeviceStore) : DeviceStore * option nat :=
  let s := sweepLocked now s in (s, dv_byUser s !! code).

Definition alter_session (f : DeviceSession → DeviceSession) (p : nat) (s : DeviceStore) : DeviceStore :=
  MkDeviceStore (alter f p (dv_heap s)) (dv_next s) (dv_byDevice s) (dv_byUser s).

Definition Approve (now : Z) (p : nat) (approvedBy : Z) (result : DeviceResult) : DeviceStore → DeviceStore :=
  alter_session (λ x, MkDeviceSession (dn_DeviceCode x) (dn_UserCode x) StatusApproved (dn_Info x) (dn_CreatedAt x)
    (dn_ExpiresAt x) (dn_LastPolledAt x) now approvedBy (Some result) (dn_DenialReason x)) p.
Definition Deny (p : nat) (reason : string) : DeviceStore → DeviceStore :=
  alter_session (λ x, MkDeviceSession (dn_DeviceCode x) (dn_UserCode x) StatusDenied (dn_Info x) (dn_CreatedAt x)
    (dn_ExpiresAt x) (dn_LastPolledAt x) (dn_ApprovedAt x) (dn_ApprovedBy x) (dn_Result x) reason) p.

Definition polled (now : Z) (x : DeviceSession) : DeviceSession :=
  MkDeviceSession (dn_DeviceCode x) (dn_UserCode x) (dn_Status x) (dn_Info x) (dn_CreatedAt x) (dn_ExpiresAt x)
    (Some now) (dn_ApprovedAt x) (dn_ApprovedBy x) (dn_Result x) (dn_DenialReason x).
Definition too_soon (now minInterval : Z) (x : DeviceSession) : bool :=
  match dn_LastPolledAt x with Some l => now - l <? minInterval | None => false end.
Definition TouchPoll (now : Z) (p : nat) (minInterval : Z) (s : DeviceStore) : DeviceStore * bool :=
  match session_at s p with
  | Some x => if too_soon now minInterval x then (s, false) else (alter_session (polled now) p s, true)
  | None => (s, true)
  end.

(** ** The service *)

(** The sessions and the tables. *)
Record Logins := MkLogins { lg_store : DeviceStore; lg_db : Db }.

Inductive DeviceLoginStatus := LOGIN_PENDING | LOGIN_APPROVED | LOGIN_EXPIRED | LOGIN_DENIED.

Definition convertDeviceStatus (st : DeviceStatus) : DeviceLoginStatus :=
  match st with
  | StatusPending => LOGIN_PENDING | StatusApproved => LOGIN_APPROVED | StatusDenied => LOGIN_DENIED
  | StatusExpired => LOGIN_EXPIRED
  end.

Definition deviceUserCodeAlphabet : string := "ABCDEFGHJKLMNPQRSTUVWXYZ23456789".
Definition deviceUserCodeLength : nat := 8.

Definition user_char (c : ascii) : ascii :=
  default "A"%char (String.get (nat_of_ascii c mod String.length deviceUserCodeAlphabet) deviceUserCodeAlphabet).
Definition map_string (f : ascii → ascii) (s : string) : string :=
  String.string_of_list_ascii (f <$> String.list_ascii_of_string s).

(** [random]: eight random bytes; the code is two groups of four. *)
Definition generateUserCode (random : string) : string :=
  let code := map_string user_char random in
  String.substring 0 4 code +:+ "-" +:+ String.substring 4 (String.length code - 4) code.

Record PollResponse := MkPoll { pl_Status : DeviceLoginStatus; pl_Result : option DeviceResult; pl_DenialReason : string }.
Record StatusResponse := MkStatusResponse {
  sr_Status : DeviceLoginStatus; sr_UserCode : string; sr_Info : option DeviceInfo; sr_ReauthExisting : bool;
  sr_MachineTitle : string; sr_MachineOwner : string; sr_DenialReason : string }.

(** What of it the page of the approver shows. *)
Definition shown_info (i : DeviceInfo) : DeviceInfo :=
  MkDeviceInfo "" (di_Hostname i) (di_Os i) (di_Arch i) (di_Ip i) "" "".

Section device.
Context `{!Jwt, !Digest} (w : TokenWorld) (others : nat → Logins → Logins).
(** GetDisallowUserCreateMachine, or the failure to read it; and the text of a
    denial, which names the owner and the machine. *)
Context (disallow : res Code bool) (denial : string → string → string).

Definition on_db {A} (m : M Db Code A) : M Logins Code A := λ k,
  let '(d, r) := m (lg_db k) in (MkLogins (lg_store k) d, r).
Definition on_store {A} (f : Z → DeviceStore → DeviceStore * A) : M Logins Code A := λ k,
  let '(s, a) := f (d_Clock (lg_db k)) (lg_store k) in (MkLogins s (lg_db k), Ok a).
Definition on_store_ (f : Z → DeviceStore → DeviceStore) : M Logins Code unit := on_store (λ now s, (f now s, tt)).
Definition meanwhile (n : nat) : M Logins Code unit := modify (others n).
(** The object at an address. *)
Definition deref (p : nat) : M Logins Code DeviceSession := λ k,
  (k, match session_at (lg_store k) p with Some x => Ok x | None => Err Panic end).
Definition ensure (b : bool) (c : Code) : M Logins Code unit := if b then mret tt else throw c.

Definition resolveUserHandle (id : Z) : M Db Code string :=
  if id =? 0 then mret "" else
  r ← attempt (GetUserByID w id);
  mret (match r with Ok (Some u) => u_handle u | _ => "" end).

(** The device code and the user code. *)
Definition StartDeviceLogin (info : DeviceInfo) : M Logins Code (string * string) :=
  random ← on_db (draw w);
  let deviceCode := base64urlEncode random in
  random' ← on_db (draw w);
  let userCode := generateUserCode random' in
  on_store_ (λ now, Start now deviceCode userCode info) ;;
  mret (deviceCode, userCode).

Definition PollDeviceLogin (deviceCode : string) : M Logins Code PollResponse :=
  ensure (negb (String.eqb deviceCode "")) CodeInvalidArgument ;;
  sess ← on_store (λ now, GetByDeviceCode now deviceCode);
  match sess with
  | None => mret (MkPoll LOGIN_EXPIRED None "")
  | Some p =>
      meanwhile 7 ;;
      allowed ← on_store (λ now, TouchPoll now p deviceMinPollInterval);
      ensure allowed CodeResourceExhausted ;;
      x ← deref p;
      match dn_Status x with
      | StatusPending => mret (MkPoll LOGIN_PENDING None "")
      | StatusApproved =>
          match dn_Result x with
          | Some r => mret (MkPoll LOGIN_APPROVED (Some r) "")
          | None => throw Panic
          end
      | StatusDenied => mret (MkPoll LOGIN_DENIED None (dn_DenialReason x))
      | StatusExpired => mret (MkPoll LOGIN_EXPIRED None "")
      end
  end.

Definition GetDeviceLoginStatus (userCode : string) : M Logins Code StatusResponse :=
  ensure (negb (String.eqb userCode "")) CodeInvalidArgument ;;
  sess ← on_store (λ now, GetByUserCode now userCode);
  match sess with
  | None => mret (MkStatusResponse LOGIN_EXPIRED "" None false "" "" "")
  | Some p =>
      x ← deref p;
      let machineID := di_MachineID (dn_Info x) in
      '(title, owner) ←
        (if String.eqb machineID "" then mret ("", "") else
         r ← attempt (on_db (GetMachineByResourceID w machineID));
         match r with
         | Ok (Some m) => owner ← on_db (resolveUserHandle (mc_CreatedBy m)); mret (mc_Name m, owner)
         | _ => mret ("", "")
         end);
      mret (MkStatusResponse (convertDeviceStatus (dn_Status x)) (dn_UserCode x) (Some (shown_info (dn_Info x)))
        (negb (String.eqb machineID "")) title owner
        (match dn_Status x with StatusDenied => dn_DenialReason x | _ => "" end))
  end.

(** A new version, no other token, and a refresh token for the session's
    fingerprint. *)
Definition approveReauth (info : DeviceInfo) (approverID : Z) (m : MachineMessage) : M Db Code DeviceResult :=
  let newVersion := mc_TokenVersion m + 1 in
  jti ← draw w; now ← gets d_Clock;
  let refreshToken := GenerateMachineTokenWithFamily jti now (mc_Name m) (mc_ResourceID m) newVersion TokenTypeRefresh
                        (mc_ResourceID m) (tw_mode w) (tw_secret w) machineRefreshTokenDuration in
  createdBy ← resolveUserHandle approverID;
  updated ← wrap CodeInternal (RotateMachineTokens w m newVersion (hashToken refreshToken) (di_Fingerprint info)
              (now + machineRefreshTokenDuration) createdBy);
  mret (MkDeviceResult (mc_ResourceID updated) (mc_Name updated) refreshToken).

Definition requireCanCreateNewMachine (user : User) : M Db Code unit :=
  match CheckPermission (tw_env w) "laelia.machines.create" (Some user) None None with
  | Err _ => throw CodeInternal
  | Ok true => mret tt
  | Ok false =>
      match disallow with
      | Err _ => throw CodeInternal
      | Ok true => throw CodePermissionDenied
      | Ok false => mret tt
      end
  end.

Definition approveNewMachine (info : DeviceInfo) (user : User) : M Db Code DeviceResult :=
  let title := or_default "machine" (di_Hostname info) in
  resourceID ← draw w;
  jti ← draw w; now ← gets d_Clock;
  let refreshToken := GenerateMachineTokenWithFamily jti now title resourceID 1 TokenTypeRefresh resourceID
                        (tw_mode w) (tw_secret w) machineRefreshTokenDuration in
  created ← wrap CodeInternal (CreateMachineWithToken w resourceID title
    (MkInfo (di_Hostname info) (di_Os info) (di_Arch info) (di_Ip info) (di_Version info) "" []) (u_id user) 0 None
    (hashToken refreshToken) (di_Fingerprint info) (now + machineRefreshTokenDuration) (u_handle user));
  mret (MkDeviceResult (mc_ResourceID created) (mc_Name created) refreshToken).

(** The machine a session asks to authenticate again, when it still exists. *)
Definition reauth_machine (info : DeviceInfo) : M Db Code (option MachineMessage) :=
  if String.eqb (di_MachineID info) "" then mret None else
  machine ← wrap CodeInternal (GetMachineByResourceID w (di_MachineID info));
  mret (match machine with Some m => if mc_Deleted m then None else Some m | None => None end).

Definition ApproveDeviceLogin (caller : option User) (userCode : string) : M Logins Code unit :=
  ensure (negb (String.eqb userCode "")) CodeInvalidArgument ;;
  user ← (match caller with Some u => mret u | None => throw CodeUnauthenticated end);
  sess ← on_store (λ now, GetByUserCode now userCode);
  p ← (match sess with Some p => mret p | None => throw CodeNotFound end);
  x ← deref p;
  match dn_Status x with
  | StatusPending =>
      machine ← on_db (reauth_machine (dn_Info x));
      meanwhile 8 ;;
      match machine with
      | Some m =>
          if isMachineAdmin w caller m then
            r ← on_db (approveReauth (dn_Info x) (u_id user) m);
            on_store_ (λ now, Approve now p (u_id user) r)
          else
            owner ← on_db (resolveUserHandle (mc_CreatedBy m));
            on_store_ (λ _, Deny p (denial owner (mc_Name m))) ;;
            throw CodePermissionDenied
      | None =>
          on_db (requireCanCreateNewMachine user) ;;
          r ← on_db (approveNewMachine (dn_Info x) user);
          on_store_ (λ now, Approve now p (u_id user) r)
      end
  | _ => throw CodeFailedPrecondition
  end.
End device.
