(* ===== verification/LoginRequests.v ===== *)
(** The requests that touch credentials, in any order and interleaved: what they
    never undo.

    A [Manager] is what the service is made of; [serve] runs one request on the
    device sessions and the tables, and [Rq] lists the requests of [AgentTokens],
    [Machines] and [Device], the timers and the passing of time.  A manager is
    [interleaved] when what runs in the gaps of its handlers are such requests. *)

From Stdlib Require Import Ascii.
From stdpp Require Import base list strings numbers gmap sets.
From S2P Require Import Prelude Strings Names Quantity Nonce Iam Jwt Provision Tokens AgentTokens Machines Device TokensSpec Credentials.
Local Open Scope Z_scope.

Record Manager := MkManager {
  mg_world : TokenWorld; mg_others : nat → Logins → Logins; mg_disallow : res Code bool;
  mg_denial : string → string → string; mg_build : Build; mg_setting : ProvisioningSetting }.

Inductive Rq :=
| RqAuthenticate (h : Header) (peer procedure : string)
| RqAuthenticateHTTP (h : Header) (remoteAddr : string)
| RqRotateAgentToken (user : option User) (name reason : string)
| RqRevokeAgentToken (user : option User) (name reason : string)
| RqRefreshAgentToken (refreshToken fingerprint : string)
| RqFireTokenRevoke (tokenID : Z)
| RqForceDisconnectAgent (user : option User) (name reason : string)
| RqConnectAgent (rc : ReqContext) (req : ConnectAgentRequest)
| RqAgentHeartbeat (rc : ReqContext) (sessionID previousNonce : string)
| RqAgentDisconnect (rc : ReqContext) (sessionID reason : string)
| RqRevokeMachineToken (user : option User) (name reason : string)
| RqRefreshMachineToken (refreshToken fingerprint : string)
| RqConnectMachine (rc : ReqContext) (info : option Info) (fingerprint : string)
| RqMachineHeartbeat (rc : ReqContext) (sessionID : string)
| RqMachineDisconnect (rc : ReqContext) (sessionID reason : string)
| RqForceDisconnectMachine (user : option User) (name reason : string)
| RqDeleteMachine (user : option User) (name : string)
| RqCreateProvisioner (user : option User) (title backend description : string)
| RqRotateProvisionerToken (name : string)
| RqDeleteProvisioner (name : string)
| RqProvisionMachine (user : option User) (req : ProvisionRequest)
| RqReady (p : ProvisionerMessage) (ready : ProvisionerReady)
| RqConnected (provisionerID : Z) (connected : bool)
| RqJobProgress (p : ProvisionerMessage) (machine : string) (phase : Z) (err workload : string)
| RqReplay (p : ProvisionerMessage)
| RqStartDeviceLogin (info : DeviceInfo)
| RqPollDeviceLogin (deviceCode : string)
| RqGetDeviceLoginStatus (userCode : string)
| RqApproveDeviceLogin (caller : option User) (userCode : string)
| RqSweep
| RqTick (n : N).

Section serve.
Context `{!Jwt, !Digest, !Hmac} (mg : Manager).

Definition db_run {A} (m : M Db Code A) (k : Logins) : Logins := MkLogins (lg_store k) (m (lg_db k)).1.

Definition serve (rq : Rq) (k : Logins) : Logins :=
  let w := mg_world mg in
  match rq with
  | RqAuthenticate h peer procedure => db_run (authenticate w h peer procedure) k
  | RqAuthenticateHTTP h remoteAddr => db_run (AuthenticateHTTP w h remoteAddr) k
  | RqRotateAgentToken user name reason => db_run (RotateAgentToken w user name reason) k
  | RqRevokeAgentToken user name reason => db_run (RevokeAgentToken w user name reason) k
  | RqRefreshAgentToken t fp => db_run (RefreshAgentToken w t fp) k
  | RqFireTokenRevoke id => db_run (fireTokenRevoke w id) k
  | RqForceDisconnectAgent user name reason => db_run (ForceDisconnectAgent w user name reason) k
  | RqConnectAgent rc req => db_run (ConnectAgent w rc req) k
  | RqAgentHeartbeat rc s n => db_run (AgentHeartbeat w rc s n) k
  | RqAgentDisconnect rc s r => db_run (AgentDisconnect w rc s r) k
  | RqRevokeMachineToken user name reason => db_run (RevokeMachineToken w user name reason) k
  | RqRefreshMachineToken t fp => db_run (RefreshMachineToken w t fp) k
  | RqConnectMachine rc info fp => db_run (ConnectMachine w (mg_build mg) rc info fp) k
  | RqMachineHeartbeat rc s => db_run (MachineHeartbeat w rc s) k
  | RqMachineDisconnect rc s r => db_run (MachineDisconnect w rc s r) k
  | RqForceDisconnectMachine user name reason => db_run (ForceDisconnectMachine w user name reason) k
  | RqDeleteMachine user name => db_run (DeleteMachine w user name) k
  | RqCreateProvisioner user t b ds => db_run (CreateProvisioner w user t b ds) k
  | RqRotateProvisionerToken name => db_run (RotateProvisionerToken w name) k
  | RqDeleteProvisioner name => db_run (DeleteProvisioner w name) k
  | RqProvisionMachine user req => db_run (ProvisionMachine w (mg_build mg) (mg_setting mg) user req) k
  | RqReady p ready => db_run (handleReady w p ready) k
  | RqConnected id c => db_run (stampProvisionerConnected w id c) k
  | RqJobProgress p machine phase err workload => db_run (handleJobProgress w p machine phase err workload) k
  | RqReplay p => db_run (replayProvisionJobs w (mg_build mg) (mg_setting mg) p) k
  | RqStartDeviceLogin info => (StartDeviceLogin w info k).1
  | RqPollDeviceLogin code => (PollDeviceLogin (mg_others mg) code k).1
  | RqGetDeviceLoginStatus code => (GetDeviceLoginStatus w code k).1
  | RqApproveDeviceLogin caller code =>
      (ApproveDeviceLogin w (mg_others mg) (mg_disallow mg) (mg_denial mg) caller code k).1
  | RqSweep => MkLogins (sweepLocked (d_Clock (lg_db k)) (lg_store k)) (lg_db k)
  | RqTick n => MkLogins (lg_store k) (set_Clock (λ c, c + Z.of_N n) (lg_db k))
  end.

Definition serve_all (rqs : list Rq) (k : Logins) : Logins := fold_left (λ k rq, serve rq k) rqs k.
End serve.

Section interleaving.
Context `{!Jwt, !Digest, !Hmac}.

(** What runs in the gaps are requests of interleaved managers: at a gap in the
    tables, on any sessions. *)
Inductive interleaved : Manager → Prop :=
| alone mg : (∀ n d, tw_others (mg_world mg) n d = d) → (∀ n k, mg_others mg n k = k) → interleaved mg
| among mg (mg1 : nat → Db → Manager) (store1 : nat → Db → DeviceStore) (rqs1 : nat → Db → list Rq)
    (mg2 : nat → Logins → Manager) (rqs2 : nat → Logins → list Rq) :
    (∀ n d, interleaved (mg1 n d)) → (∀ n k, interleaved (mg2 n k)) →
    (∀ n d, tw_others (mg_world mg) n d = lg_db (serve_all (mg1 n d) (rqs1 n d) (MkLogins (store1 n d) d))) →
    (∀ n k, mg_others mg n k = serve_all (mg2 n k) (rqs2 n k) k) → interleaved mg.
End interleaving.

(** ** Every request ages the tables *)

Section all.
Context {J : Jwt} {D : Digest} {N : Hmac}.

(** Any change of a version. *)
Definition anyhow (_ _ : Z) : Prop := True.
#[local] Instance anyhow_preorder : PreOrder anyhow.
Proof. by split. Qed.

(** The tables, under the sessions. *)
Definition under (P : Db → Db → Prop) (k k' : Logins) : Prop := P (lg_db k) (lg_db k').
#[local] Instance under_preorder P `{!PreOrder P} : PreOrder (under P).
Proof. split; [by intros k; unfold under|]. intros a b c. unfold under. intros. by etrans. Qed.

Section device.
Context (P : Db → Db → Prop) `{!PreOrder P}.

Lemma k_on_db {A} (m : M Db Code A) : keeps P m → keeps (under P) (on_db m).
Proof. intros Hm k. unfold on_db, under. specialize (Hm (lg_db k)). by destruct (m (lg_db k)). Qed.
Lemma k_on_store {A} (f : Z → DeviceStore → DeviceStore * A) : keeps (under P) (on_store f).
Proof. intros k. unfold on_store, under. by destruct (f _ _). Qed.
Lemma k_on_store_ f : keeps (under P) (on_store_ f).
Proof. apply k_on_store. Qed.
Lemma k_deref p : keeps (under P) (deref p).
Proof. intros k. unfold deref, under. by destruct (session_at _ _). Qed.
Lemma k_ensure b c : keeps (under P) (ensure b c).
Proof. destruct b; [apply k_ret|apply k_throw]; apply _. Qed.
Lemma k_meanwhile others n : (∀ n k, under P k (others n k)) → keeps (under P) (meanwhile others n).
Proof. intros Ho. apply k_modify. apply Ho. Qed.
End device.

(** [keep], for the device service too. *)
Ltac keep_login :=
  repeat first
  [ progress keep
  | apply k_on_db | apply k_on_store; apply _ | apply k_on_store_; apply _ | apply k_deref; apply _
  | apply k_ensure; apply _ | apply k_meanwhile; [assumption] ].

Section versions.
Context (w : TokenWorld) (others : nat → Logins → Logins) (disallow : res Code bool) (denial : string → string → string).
Hypothesis world_age : ∀ n d, ages anyhow d (tw_others w n d).
Hypothesis others_age : ∀ n k, under (ages anyhow) k (others n k).

Lemma machine_patch_version v : machine_patch anyhow (machine_version v).
Proof. by intros m; split_and!. Qed.
Lemma agent_patch_version v : agent_patch anyhow (agent_version v).
Proof. by intros m; split_and!. Qed.
Lemma provisioner_patch_version v del : (del = true) → provisioner_patch anyhow (provisioner_version v del).
Proof. by intros -> m; split_and!. Qed.
Lemma provisioner_patch_rotate v : provisioner_patch anyhow (λ p, provisioner_version v (pr_Deleted p) p).
Proof. by intros m; split_and!. Qed.
#[local] Hint Resolve anyhow_preorder draw_ages gap_ages emit_ages UpdateMachine_ages UpdateAgent_ages UpdateProvisioner_ages machine_patch_version agent_patch_version
  provisioner_patch_version provisioner_patch_rotate RevokeAllAgentTokens_ages RevokeAllMachineTokens_ages
  TerminateAllAgentSessions_ages TerminateAllMachineSessions_ages CreateAgentToken_ages CreateMachineWithToken_ages
  editable_agent_ages machine_by_name_ages getProvisionerByName_ages mint_provisioner_ages closeProvisionerStream_ages : ages.

Lemma bump_any a : keeps (ages anyhow) (bump_agent w a).
Proof. unfold bump_agent. keep. Qed.
#[local] Hint Resolve bump_any : ages.
Lemma RotateAgentToken_any user name r : keeps (ages anyhow) (RotateAgentToken w user name r).
Proof. unfold RotateAgentToken. keep. Qed.
Lemma RevokeAgentToken_any user name r : keeps (ages anyhow) (RevokeAgentToken w user name r).
Proof. unfold RevokeAgentToken. keep. Qed.
Lemma RevokeMachineToken_any user name r : keeps (ages anyhow) (RevokeMachineToken w user name r).
Proof. unfold RevokeMachineToken. keep. Qed.
Lemma RotateProvisionerToken_any name : keeps (ages anyhow) (RotateProvisionerToken w name).
Proof. unfold RotateProvisionerToken. keep. Qed.
Lemma DeleteProvisioner_any name : keeps (ages anyhow) (DeleteProvisioner w name).
Proof. unfold DeleteProvisioner, CountMachinesByProvisioner. keep. Qed.

Lemma rotate_machine_any m v h fp e c : keeps (ages anyhow) (RotateMachineTokens w m v h fp e c).
Proof.
  unfold RotateMachineTokens, GetMachine. keep. intros d. destruct (_ || _) eqn:E; [reflexivity|]. simpl.
  apply orb_false_iff in E as [_ E]. simpl in E.
  etrans; [apply (machines_age anyhow (λ x, mc_ID x =? mc_ID m) (machine_version v)); try done; intros; by apply machine_patch_version|].
  etrans; [apply (machine_tokens_age anyhow (λ t, (tk_Principal t =? mc_ID m) && usable t) (revoke (d_Clock d))); try done; intros; by apply revoke_ages|].
  by apply (machine_token_new anyhow).
Qed.
Lemma resolveUserHandle_any i : keeps (ages anyhow) (resolveUserHandle w i).
Proof. unfold resolveUserHandle, GetUserByID. keep. Qed.
#[local] Hint Resolve rotate_machine_any resolveUserHandle_any : ages.
Lemma approveReauth_any info u m : keeps (ages anyhow) (approveReauth w info u m).
Proof. unfold approveReauth. keep. Qed.
Lemma approveNew_any info u : keeps (ages anyhow) (approveNewMachine w info u).
Proof. unfold approveNewMachine. keep. Qed.
Lemma require_any u : keeps (ages anyhow) (requireCanCreateNewMachine w disallow u).
Proof. unfold requireCanCreateNewMachine. keep. Qed.
#[local] Hint Resolve approveReauth_any approveNew_any require_any : ages.

Lemma StartDeviceLogin_any info : keeps (under (ages anyhow)) (StartDeviceLogin w info).
Proof. unfold StartDeviceLogin. keep_login. Qed.
Lemma PollDeviceLogin_any c : keeps (under (ages anyhow)) (PollDeviceLogin others c).
Proof. unfold PollDeviceLogin. keep_login. Qed.
Lemma GetDeviceLoginStatus_any c : keeps (under (ages anyhow)) (GetDeviceLoginStatus w c).
Proof. unfold GetDeviceLoginStatus, GetMachineByResourceID. keep_login. Qed.
Lemma ApproveDeviceLogin_any u c : keeps (under (ages anyhow)) (ApproveDeviceLogin w others disallow denial u c).
Proof. unfold ApproveDeviceLogin, reauth_machine, GetMachineByResourceID. keep_login. Qed.
End versions.

Lemma db_run_ages {A} P (m : M Db Code A) k : keeps P m → under P k (db_run m k).
Proof. intros Hm. apply Hm. Qed.

Lemma tick_ages n d : ages anyhow d (set_Clock (λ c, c + Z.of_N n) d).
Proof. split; try reflexivity; [simpl; lia|]. by intros []. Qed.

Section served.
Context (mg : Manager).
Hypothesis world_age : ∀ n d, ages anyhow d (tw_others (mg_world mg) n d).
Hypothesis others_age : ∀ n k, under (ages anyhow) k (mg_others mg n k).

#[local] Hint Resolve anyhow_preorder authenticate_ages AuthenticateHTTP_ages RotateAgentToken_any RevokeAgentToken_any
  RefreshAgentToken_ages fireTokenRevoke_ages ForceDisconnectAgent_ages ConnectAgent_ages AgentHeartbeat_ages
  AgentDisconnect_ages RevokeMachineToken_any RefreshMachineToken_ages ConnectMachine_ages MachineHeartbeat_ages
  MachineDisconnect_ages ForceDisconnectMachine_ages DeleteMachine_ages CreateProvisioner_ages
  RotateProvisionerToken_any DeleteProvisioner_any ProvisionMachine_ages handleReady_ages stamp_ages
  handleJobProgress_ages replay_ages : ages.

Lemma serve_ages rq k : under (ages anyhow) k (serve mg rq k).
Proof.
  destruct rq; simpl; try (apply db_run_ages; eauto with ages).
  - apply StartDeviceLogin_any.
  - by apply PollDeviceLogin_any.
  - apply GetDeviceLoginStatus_any.
  - by apply ApproveDeviceLogin_any.
  - unfold under. simpl. reflexivity.
  - apply tick_ages.
Qed.

Lemma serve_all_ages rqs k : under (ages anyhow) k (serve_all mg rqs k).
Proof.
  revert k. induction rqs as [|rq rqs IH]; intros k; [reflexivity|]. simpl. etrans; [apply serve_ages|apply IH].
Qed.
End served.

Lemma interleaved_ages mg : interleaved mg →
  (∀ n d, ages anyhow d (tw_others (mg_world mg) n d)) ∧ (∀ n k, under (ages anyhow) k (mg_others mg n k)).
Proof.
  induction 1 as [mg H1 H2|mg mg1 store1 rqs1 mg2 rqs2 _ IH1 _ IH2 H1 H2].
  - split; intros; [rewrite H1|rewrite H2]; reflexivity.
  - split.
    + intros n d. rewrite H1. destruct (IH1 n d) as [Ha Hb].
      apply (serve_all_ages _ Ha Hb (rqs1 n d) (MkLogins (store1 n d) d)).
    + intros n k. rewrite H2. destruct (IH2 n k) as [Ha Hb]. by apply serve_all_ages.
Qed.

(** A token's row that is no longer active. *)
Definition spent (l : list TokenRow) (t : string) : Prop :=
  ∃ x, find_token (hashToken t) l = Some x ∧ tk_State x ≠ "ACTIVE".

Lemma spent_ages l l' t : aged token_ages l l' → spent l t → spent l' t.
Proof.
  intros Ha (x & Hx & Hs). unfold find_token in Hx.
  eapply (aged_find token_ages) in Hx as (x' & Hx' & R); [|by intros a b (_ & _ & -> & _)|exact Ha].
  exists x'. split; [exact Hx'|]. destruct R as (_ & _ & _ & _ & _ & _ & Hst). tauto.
Qed.

Lemma spent_is_reuse x : tk_State x ≠ "ACTIVE" → stringToAgentTokenState (tk_State x) ≠ STATE_ACTIVE.
Proof. unfold stringToAgentTokenState. intros H. destruct (String.eqb_spec (tk_State x) "ACTIVE"); [done|]. by repeat case_match. Qed.

Lemma spent_refused w t fp parse lookup act revoke load d r :
  (∀ s, act s = refreshActionProceed → s = STATE_ACTIVE) →
  (∀ d' s, wrap CodeInternal (lookup (hashToken t)) d = (d', Ok s) → rt_State s ≠ STATE_ACTIVE) →
  (validateRefreshToken w t fp parse lookup act revoke load d).2 ≠ Ok r.
Proof.
  intros Hact Hl H. destruct (validateRefreshToken w t fp parse lookup act revoke load d) as [d' x] eqn:E. simpl in H. subst x.
  unfold validateRefreshToken in E. destruct (String.eqb t ""); [done|].
  apply bind_ok_inv in E as (d1 & now & [-> ->]%gets_done & E). destruct (parse _ _) as [[v ty]|]; [|done].
  destruct (negb _); [done|]. apply bind_ok_inv in E as (d2 & s & Es & E). apply Hl in Es.
  destruct (rt_ID s =? 0); [done|]. destruct (act (rt_State s)) eqn:Ea; [by destruct Es; apply Hact| |done].
  apply bind_ok_inv in E as (? & ? & _ & E). by apply throw_done in E.
Qed.

Lemma spent_agent_token w t fp d r : spent (d_AgentTokens d) t → (RefreshAgentToken w t fp d).2 ≠ Ok r.
Proof.
  intros (x & Hx & Hst) Hr. destruct (RefreshAgentToken _ _ _ _) as [d' y] eqn:E. simpl in Hr. subst y.
  unfold RefreshAgentToken in E. apply bind_ok_inv in E as (d1 & p & E & _). eapply spent_refused; [| |by rewrite E].
  - by intros [].
  - intros d2 s Hl%wrap_done. unfold lookupAgentToken, GetAgentTokenByHash in Hl.
    apply bind_ok_inv in Hl as (d3 & y & [-> ->]%query_done & [-> ->]%ret_done). rewrite Hx. by apply spent_is_reuse.
Qed.
Lemma spent_machine_token w t fp d r : spent (d_MachineTokens d) t → (RefreshMachineToken w t fp d).2 ≠ Ok r.
Proof.
  intros (x & Hx & Hst) Hr. destruct (RefreshMachineToken _ _ _ _) as [d' y] eqn:E. simpl in Hr. subst y.
  unfold RefreshMachineToken in E. apply bind_ok_inv in E as (d1 & p & E & _). eapply spent_refused; [| |by rewrite E].
  - by intros [].
  - intros d2 s Hl%wrap_done. unfold lookupMachineToken, GetMachineTokenByHash in Hl.
    apply bind_ok_inv in Hl as (d3 & y & [-> ->]%query_done & [-> ->]%ret_done). rewrite Hx. by apply spent_is_reuse.
Qed.

(** C7: a refresh token that is spent stays spent.  When the row of an agent's token
    is consumed or revoked, then after any requests, whatever runs in their gaps, the
    token is not exchanged; the same holds of a machine's token. *)
Theorem spent_tokens_stay_spent mg rqs k w t fp : interleaved mg →
  (∀ r, spent (d_AgentTokens (lg_db k)) t → (RefreshAgentToken w t fp (lg_db (serve_all mg rqs k))).2 ≠ Ok r) ∧
  (∀ r, spent (d_MachineTokens (lg_db k)) t → (RefreshMachineToken w t fp (lg_db (serve_all mg rqs k))).2 ≠ Ok r).
Proof.
  intros [Ha Hb]%interleaved_ages. pose proof (serve_all_ages mg Ha Hb rqs k) as [].
  split; intros r Hs; (eapply spent_ages in Hs; [|done]); [by apply spent_agent_token|by apply spent_machine_token].
Qed.

(** ** Without interleaving, versions only rise *)

Section rising.
Context (w : TokenWorld).
Hypothesis quiet : ∀ n d, tw_others w n d = d.

(** Of tables that are in order. *)
Definition rises (d d' : Db) : Prop := rows_ok d → ages Z.le d d'.
#[local] Instance rises_preorder : PreOrder rises.
Proof.
  split; [intros d _; reflexivity|]. intros a b c H1 H2 Ha. pose proof (H1 Ha) as Hab. etrans; [exact Hab|].
  by apply H2, (ages_rows _ _ _ Hab).
Qed.

Lemma ages_rise {A} (m : M Db Code A) : keeps (ages Z.le) m → keeps rises m.
Proof. intros Hm d _. apply Hm. Qed.

Lemma quiet_ages n d : ages Z.le d (tw_others w n d).
Proof. by rewrite quiet. Qed.

(** One step of a program, and the rest of it in the state it leaves. *)
Lemma rise_bind {A B} (m : M Db Code A) (k : A → M Db Code B) d : keeps (ages Z.le) m →
  (∀ d' a, m d = (d', Ok a) → rises d' (k a d').1) → rises d (mbind k m d).1.
Proof.
  intros Hm Hk Ho. specialize (Hm d). unfold mbind, M_bind. destruct (m d) as [d' [a|e]] eqn:E; simpl in *; [|done].
  etrans; [exact Hm|]. by apply Hk, (ages_rows _ _ _ Hm).
Qed.

Lemma rise_end {A} (m : M Db Code A) d : keeps (ages Z.le) m → rises d (m d).1.
Proof. intros Hm _. apply Hm. Qed.

Lemma bind_rise {A B} (m : M Db Code A) (k : A → M Db Code B) d : rises d (m d).1 →
  (∀ a, keeps (ages Z.le) (k a)) → rises d (mbind k m d).1.
Proof.
  intros Hm Hk. unfold mbind, M_bind. destruct (m d) as [d' [a|e]]; simpl in *; [|done].
  etrans; [exact Hm|]. by apply rise_end.
Qed.

Lemma exec_rise name f d : rises d (f d) → rises d (exec w name f d).1.
Proof. unfold exec, stmt. destruct (tw_fails w name); [reflexivity|done]. Qed.

(** A write of the next version to the row that was read. *)
Lemma same_row {A} (key : A → Z) n (l : list A) x y : keyed key n l → x ∈ l → y ∈ l → (key y =? key x) = true → y = x.
Proof.
  intros [Hn _] Hx Hy E%Z.eqb_eq. pose proof (find_key key l x Hn Hx) as H1. pose proof (find_key key l y Hn Hy) as H2.
  rewrite E in H2. congruence.
Qed.

Lemma update_row {A} (key : A → Z) n (l : list A) x f g : keyed key n l → x ∈ l → f x = g x →
  update (λ y, key y =? key x) f l = update (λ y, key y =? key x) g l.
Proof.
  intros Hk Hx Hfg. unfold update. apply list_fmap_ext. intros i y Hy%list_elem_of_lookup_2.
  destruct (key y =? key x) eqn:E; [|done]. by rewrite (same_row key n l x y Hk Hx Hy E).
Qed.

Lemma machine_raised m d : m ∈ d_Machines d →
  rises d (set_Machines (update (λ x, mc_ID x =? mc_ID m) (machine_version (mc_TokenVersion m + 1))) d).
Proof.
  intros Hm Ho. replace (set_Machines _ d) with
    (set_Machines (update (λ x, mc_ID x =? mc_ID m) (λ x, machine_version (mc_TokenVersion x + 1) x)) d).
  - apply machines_age; [apply _| |done..]. intros x _. split_and!; try done. simpl. lia.
  - unfold set_Machines. f_equal. eapply (update_row mc_ID); [apply Ho|done|done].
Qed.
Lemma agent_raised a d : a ∈ d_Agents d →
  rises d (set_Agents (update (λ x, an_ID x =? an_ID a) (agent_version (an_TokenVersion a + 1))) d).
Proof.
  intros Ha Ho. replace (set_Agents _ d) with
    (set_Agents (update (λ x, an_ID x =? an_ID a) (λ x, agent_version (an_TokenVersion x + 1) x)) d).
  - apply agents_age; [apply _| |done..]. intros x _. split_and!; try done. simpl. lia.
  - unfold set_Agents. f_equal. eapply (update_row an_ID); [apply Ho|done|done].
Qed.
Lemma provisioner_raised p d g : p ∈ d_Provisioners d → (∀ x, pr_Deleted x = true → g x = true) →
  rises d (set_Provisioners (update (λ x, pr_ID x =? pr_ID p) (λ x, provisioner_version (pr_TokenVersion p + 1) (g x) x)) d).
Proof.
  intros Hp Hg Ho. replace (set_Provisioners _ d) with
    (set_Provisioners (update (λ x, pr_ID x =? pr_ID p) (λ x, provisioner_version (pr_TokenVersion x + 1) (g x) x)) d).
  - apply provisioners_age; [apply _| |done..]. intros x _. split_and!; try done; [apply Hg|simpl; lia].
  - unfold set_Provisioners. f_equal. eapply (update_row pr_ID); [apply Ho|done|done].
Qed.

Lemma UpdateMachine_rises m d : m ∈ d_Machines d → rises d (UpdateMachine w m (machine_version (mc_TokenVersion m + 1)) d).1.
Proof.
  intros Hm. unfold UpdateMachine, GetMachine. apply bind_rise; [|intros; keep]. by apply exec_rise, machine_raised.
Qed.
Lemma UpdateAgent_rises a d : a ∈ d_Agents d → rises d (UpdateAgent w a (agent_version (an_TokenVersion a + 1)) d).1.
Proof.
  intros Ha. unfold UpdateAgent, GetAgent. apply bind_rise; [|intros; keep]. by apply exec_rise, agent_raised.
Qed.
Lemma UpdateProvisioner_rises p d g : p ∈ d_Provisioners d → (∀ x, pr_Deleted x = true → g x = true) →
  rises d (UpdateProvisioner w p (λ x, provisioner_version (pr_TokenVersion p + 1) (g x) x) d).1.
Proof.
  intros Hp Hg. unfold UpdateProvisioner, GetProvisioner. apply bind_rise; [|intros; keep]. by apply exec_rise, (provisioner_raised p d g).
Qed.

Lemma wrap_rise {A} c (m : M Db Code A) d : rises d (m d).1 → rises d (wrap c m d).1.
Proof. unfold wrap. by destruct (m d) as [d' [a|[]]]. Qed.

Lemma editable_done user name d d' a : editable_agent w user name d = (d', Ok a) → d' = d ∧ a ∈ d_Agents d.
Proof.
  unfold editable_agent, GetAgentByResourceID. intros H. runs H. split; [done|].
  by match goal with H : List.find _ _ = Some _ |- _ => apply find_elem in H as [? _] end.
Qed.
Lemma machine_by_name_done name d d' m : machine_by_name w name d = (d', Ok m) → d' = d ∧ m ∈ d_Machines d.
Proof.
  unfold machine_by_name, GetMachineByResourceID. intros H. runs H. split; [done|].
  by match goal with H : List.find _ _ = Some _ |- _ => apply find_elem in H as [? _] end.
Qed.
Lemma provisioner_by_name_done name d d' p : getProvisionerByName w name d = (d', Ok p) → d' = d ∧ p ∈ d_Provisioners d.
Proof.
  unfold getProvisionerByName, GetProvisionerByResourceID. intros H. runs H. split; [done|].
  by match goal with H : List.find _ _ = Some _ |- _ => apply find_elem in H as [? _] end.
Qed.
Lemma gap_done n d d' u : gap w n d = (d', Ok u) → d' = d.
Proof. intros [= <- _]. by rewrite quiet. Qed.

#[local] Hint Resolve Z.le_preorder quiet_ages draw_ages emit_ages RevokeAllAgentTokens_ages RevokeAllMachineTokens_ages
  TerminateAllAgentSessions_ages TerminateAllMachineSessions_ages CreateAgentToken_ages CreateMachineWithToken_ages
  editable_agent_ages machine_by_name_ages getProvisionerByName_ages mint_provisioner_ages closeProvisionerStream_ages
  gap_ages : ages.

(** One step of a program whose result is known. *)
Ltac step H := apply rise_bind; [solve [keep]|]; intros ? ? H.

Lemma bump_rises a d : a ∈ d_Agents d → rises d (bump_agent w a d).1.
Proof. intros Ha. by apply wrap_rise, UpdateAgent_rises. Qed.

Lemma RotateAgentToken_rises user name r : keeps rises (RotateAgentToken w user name r).
Proof.
  intros d. unfold RotateAgentToken. step H. apply editable_done in H as [-> Ha].
  step H. apply gap_done in H as ->. step H. apply draw_done in H as [-> ->]. step H. apply gets_done in H as [-> ->].
  apply bind_rise; [by apply bump_rises|]. intros ?. keep.
Qed.
Lemma RevokeAgentToken_rises user name r : keeps rises (RevokeAgentToken w user name r).
Proof.
  intros d. unfold RevokeAgentToken. step H. apply editable_done in H as [-> Ha]. step H. apply gap_done in H as ->.
  apply bind_rise; [by apply bump_rises|]. intros ?. keep.
Qed.
Lemma RevokeMachineToken_rises user name r : keeps rises (RevokeMachineToken w user name r).
Proof.
  intros d. unfold RevokeMachineToken. step H. apply machine_by_name_done in H as [-> Hm].
  step H. apply check_done in H as [-> _]. step H. apply check_done in H as [-> _]. step H. apply gap_done in H as ->.
  apply bind_rise; [by apply wrap_rise, UpdateMachine_rises|]. intros ?. keep.
Qed.
Lemma RotateProvisionerToken_rises name : keeps rises (RotateProvisionerToken w name).
Proof.
  intros d. unfold RotateProvisionerToken. step H. apply provisioner_by_name_done in H as [-> Hp].
  apply bind_rise; [by apply wrap_rise, (UpdateProvisioner_rises _ _ pr_Deleted)|]. intros ?. keep.
Qed.
Lemma DeleteProvisioner_rises name : keeps rises (DeleteProvisioner w name).
Proof.
  intros d. unfold DeleteProvisioner, CountMachinesByProvisioner. step H. apply provisioner_by_name_done in H as [-> Hp].
  step H. apply wrap_done, query_done in H as [-> _]. step H. apply check_done in H as [-> _].
  step H. assert (d_Provisioners d' = d_Provisioners d) as Ed.
  { unfold closeProvisionerStream, emit in H. by runs H. }
  apply bind_rise; [|intros; keep]. apply wrap_rise, (UpdateProvisioner_rises _ _ (λ _, true)); [by rewrite Ed|done].
Qed.

(** *** The device service *)

Lemma rotate_rises m h fp e c d : m ∈ d_Machines d →
  rises d (RotateMachineTokens w m (mc_TokenVersion m + 1) h fp e c d).1.
Proof.
  intros Hm. unfold RotateMachineTokens, GetMachine. apply bind_rise; [|intros; keep].
  destruct (_ || _) eqn:E; [reflexivity|]. simpl. apply orb_false_iff in E as [_ E]. simpl in E.
  etrans; [by apply (machine_raised m)|]. intros _.
  etrans; [apply (machine_tokens_age Z.le (λ t, (tk_Principal t =? mc_ID m) && usable t) (revoke (d_Clock d))); try done; intros; by apply revoke_ages|].
  by apply (machine_token_new Z.le).
Qed.

Lemma resolveUserHandle_ages V `{!PreOrder V} i : keeps (ages V) (resolveUserHandle w i).
Proof. unfold resolveUserHandle, GetUserByID. keep. Qed.
#[local] Hint Resolve resolveUserHandle_ages : ages.

Lemma handle_done i d d' h : resolveUserHandle w i d = (d', Ok h) → d' = d.
Proof.
  unfold resolveUserHandle, GetUserByID, attempt, query, stmt. destruct (i =? 0); [by intros [= -> _]|].
  intros (d1 & r & E & H)%bind_ok_inv. apply ret_done in H as [-> _]. destruct (tw_fails w _); by injection E as -> _.
Qed.

Lemma approveReauth_rises info u m d : m ∈ d_Machines d → rises d (approveReauth w info u m d).1.
Proof.
  intros Hm. unfold approveReauth. step H. apply draw_done in H as [-> ->]. step H. apply gets_done in H as [-> ->].
  step H. apply handle_done in H as ->. apply bind_rise; [by apply wrap_rise, rotate_rises|]. intros; keep.
Qed.

Context (others : nat → Logins → Logins) (disallow : res Code bool) (denial : string → string → string).
Hypothesis alone_too : ∀ n k, others n k = k.

Lemma at_bind {A B} (m : M Logins Code A) (f : A → M Logins Code B) k : under rises k (m k).1 →
  (∀ k' a, m k = (k', Ok a) → under rises k' (f a k').1) → under rises k (mbind f m k).1.
Proof.
  intros Hm Hf. unfold mbind, M_bind. destruct (m k) as [k' [a|e]] eqn:E; simpl in *; [|done].
  by etrans; [exact Hm|apply Hf].
Qed.

Lemma on_db_done {A} (m : M Db Code A) k k' a : on_db m k = (k', Ok a) →
  lg_store k' = lg_store k ∧ m (lg_db k) = (lg_db k', Ok a).
Proof. unfold on_db. destruct (m (lg_db k)) as [d r]. by intros [= <- <-]. Qed.
Lemma reauth_machine_done info d d' m : reauth_machine w info d = (d', Ok (Some m)) →
  d' = d ∧ m ∈ d_Machines d ∧ mc_ResourceID m = di_MachineID info ∧ mc_Deleted m = false.
Proof.
  unfold reauth_machine, GetMachineByResourceID. destruct (String.eqb _ _); [done|]. intros H. runs H.
  destruct (List.find _ _) as [x|] eqn:E; [|done]. apply find_elem in E as [Hin Hr%String.eqb_eq].
  destruct (mc_Deleted x) eqn:Ed; [done|]. by simplify_eq.
Qed.

Lemma ages_under {A} (m : M Logins Code A) : keeps (under (ages Z.le)) m → keeps (under rises) m.
Proof. intros Hm k _. apply Hm. Qed.

Lemma ApproveDeviceLogin_rises caller code : keeps (under rises) (ApproveDeviceLogin w others disallow denial caller code).
Proof.
  assert (∀ n k, under (ages Z.le) k (others n k)) as Ho by (intros; unfold under; by rewrite alone_too).
  assert (∀ u, keeps (ages Z.le) (requireCanCreateNewMachine w disallow u)) as Hr
    by (intros; unfold requireCanCreateNewMachine; keep).
  assert (∀ i u, keeps (ages Z.le) (approveNewMachine w i u)) as Hn by (intros; unfold approveNewMachine; keep).
  intros k. unfold ApproveDeviceLogin. do 5 (apply at_bind; [apply ages_under; keep_login|intros ? ? _]).
  destruct (dn_Status _); [|apply ages_under; keep_login..].
  apply at_bind; [apply ages_under, k_on_db; unfold reauth_machine, GetMachineByResourceID; keep|].
  intros k1 m [_ H]%on_db_done. apply at_bind; [apply ages_under; keep_login|]. intros k2 u E.
  assert (k2 = k1) as -> by (injection E as <- _; apply alone_too).
  destruct m as [m|]; [|apply ages_under; keep_login]. apply reauth_machine_done in H as (Hd & Hm & _).
  destruct (isMachineAdmin _ _ _); [|apply ages_under; keep_login].
  apply at_bind; [|intros; apply ages_under; keep_login]. rewrite <- Hd in Hm.
  pose proof (approveReauth_rises (dn_Info a3) (u_id a0) m _ Hm) as Hr'.
  unfold on_db, under. by destruct (approveReauth _ _ _ _ _) as [d1 r].
Qed.
End rising.

(** ** A revocation is final *)

Section revoked.
Context {L : JwtLaws} (mg : Manager).
Notation w := (mg_world mg).
Hypothesis quiet : ∀ n d, tw_others w n d = d.
Hypothesis alone_too : ∀ n k, mg_others mg n k = k.

#[local] Hint Resolve Z.le_preorder authenticate_ages AuthenticateHTTP_ages
  RefreshAgentToken_ages fireTokenRevoke_ages ForceDisconnectAgent_ages ConnectAgent_ages AgentHeartbeat_ages
  AgentDisconnect_ages RefreshMachineToken_ages ConnectMachine_ages MachineHeartbeat_ages
  MachineDisconnect_ages ForceDisconnectMachine_ages DeleteMachine_ages CreateProvisioner_ages
  ProvisionMachine_ages handleReady_ages stamp_ages handleJobProgress_ages replay_ages quiet_ages
  resolveUserHandle_ages draw_ages : ages.

#[local] Existing Instance rises_preorder.
Lemma serve_rises rq k : under rises k (serve mg rq k).
Proof.
  assert (∀ n k, under (ages Z.le) k (mg_others mg n k)) as Ho by (intros; unfold under; by rewrite alone_too).
  destruct rq; simpl; try (apply db_run_ages, ages_rise; eauto with ages; fail).
  - by apply db_run_ages, RotateAgentToken_rises.
  - by apply db_run_ages, RevokeAgentToken_rises.
  - by apply db_run_ages, RevokeMachineToken_rises.
  - by apply db_run_ages, RotateProvisionerToken_rises.
  - by apply db_run_ages, DeleteProvisioner_rises.
  - apply (ages_under (StartDeviceLogin w info)). unfold StartDeviceLogin. keep_login.
  - apply (ages_under (PollDeviceLogin (mg_others mg) deviceCode)). unfold PollDeviceLogin. keep_login.
  - apply (ages_under (GetDeviceLoginStatus w userCode)). unfold GetDeviceLoginStatus, GetMachineByResourceID. keep_login.
  - by apply ApproveDeviceLogin_rises.
  - unfold under. simpl. reflexivity.
  - intros _. split; try reflexivity; [simpl; lia|]. by intros [].
Qed.

Lemma serve_all_rises rqs k : under rises k (serve_all mg rqs k).
Proof.
  revert k. induction rqs as [|rq rqs IH]; intros k; [reflexivity|]. simpl. etrans; [apply serve_rises|apply IH].
Qed.

Lemma UpdateMachine_done m f d d' r : UpdateMachine w m f d = (d', Ok r) →
  d' = set_Machines (update (λ x, mc_ID x =? mc_ID m) f) d.
Proof.
  unfold UpdateMachine, GetMachine. intros H. runs H. destruct (List.find _ _); [|done]. by apply ret_done in H as [-> _].
Qed.

(** What a revocation leaves. *)
Lemma revoke_done user name reason d d' : RevokeMachineToken w user name reason d = (d', Ok tt) →
  ∃ m, GetMachineResourceID name = Ok (mc_ResourceID m) ∧ m ∈ d_Machines d ∧
    d_Machines d' = update (λ x, mc_ID x =? mc_ID m) (machine_version (mc_TokenVersion m + 1)) (d_Machines d) ∧
    d_MachineTokens d' = update (λ t, (tk_Principal t =? mc_ID m) && usable t) (revoke (d_Clock d)) (d_MachineTokens d) ∧
    d_MachineSessions d' =
      update (λ s, (ss_Principal s =? mc_ID m) && live s) (session_end "KICKED" (or_default "token_revoked" reason) (d_Clock d))
        (d_MachineSessions d).
Proof.
  unfold RevokeMachineToken, machine_by_name, GetMachineByResourceID, emit. intros H. runs H.
  repeat match goal with
  | H : gap _ _ _ = _ |- _ => apply gap_done in H as ->; [|done]
  | H : UpdateMachine _ _ _ _ = _ |- _ => apply UpdateMachine_done in H as ->
  | H : RevokeAllMachineTokens _ _ _ = _ |- _ => apply exec_done in H as ->
  | H : TerminateAllMachineSessions _ _ _ _ = _ |- _ => apply exec_done in H as ->
  end.
  match goal with H : List.find _ _ = Some _ |- _ => apply find_elem in H as [Hin Hr%String.eqb_eq] end.
  exists a. split_and!; try done. by rewrite Hr.
Qed.

Lemma revoked_spent now id l t x : find_token (hashToken t) l = Some x → tk_Principal x = id →
  spent (update (λ t, (tk_Principal t =? id) && usable t) (revoke now) l) t.
Proof.
  intros Hx <-. unfold spent, find_token in *. rewrite find_update by done. rewrite Hx. simpl. rewrite Z.eqb_refl. simpl.
  eexists. split; [done|]. unfold usable. destruct (String.eqb_spec (tk_State x) "ACTIVE"); [done|]. simpl. by destruct (String.eqb _ _).
Qed.

(** C3: a revocation of a machine is final.  Once it has answered, and after any
    requests that do not overlap: a token minted for a version up to the one that
    was revoked authenticates no machine of that name, a refresh token of the
    machine that had a row is not exchanged, and its sessions have ended. *)
Theorem revoked_machine_is_shut_out user name reason k d1 rqs m :
  rows_ok (lg_db k) → RevokeMachineToken w user name reason (lg_db k) = (d1, Ok tt) →
  m ∈ d_Machines (lg_db k) → GetMachineResourceID name = Ok (mc_ResourceID m) →
  let later := lg_db (serve_all mg rqs (MkLogins (lg_store k) d1)) in
  (∀ jti iat title version ty session family aud exp t m' e, version ≤ mc_TokenVersion m →
     t = signMachineToken jti iat title (mc_ResourceID m) version ty session family aud exp (tw_secret w) →
     (getUserOrAgentConnect w t later).2 ≠ Ok (CMachine m', e)) ∧
  (∀ t fp x r, find_token (hashToken t) (d_MachineTokens (lg_db k)) = Some x → tk_Principal x = mc_ID m →
     (RefreshMachineToken w t fp later).2 ≠ Ok r) ∧
  (∀ s, s ∈ d_MachineSessions (lg_db k) → ss_Principal s = mc_ID m →
     ∃ s', s' ∈ d_MachineSessions later ∧ ss_ID s' = ss_ID s ∧ ss_State s' ≠ "ACTIVE").
Proof.
  intros Hok Hrev Hm Hn later.
  assert (ages Z.le (lg_db k) d1) as Hages.
  { pose proof (RevokeMachineToken_rises _ quiet user name reason (lg_db k) Hok) as H. by rewrite Hrev in H. }
  apply revoke_done in Hrev as (m0 & Hn0 & Hm0 & Em & Et & Es).
  assert (m0 = m) as ->.
  { rewrite Hn in Hn0. injection Hn0 as E. pose proof (find_nodup mc_ResourceID _ _ (rows_machine_names _ Hok) Hm) as H1.
    pose proof (find_nodup mc_ResourceID _ _ (rows_machine_names _ Hok) Hm0) as H2. rewrite E in H1. congruence. }
  assert (ages Z.le d1 later) as Hlater by (apply (serve_all_rises rqs (MkLogins (lg_store k) d1)), (ages_rows _ _ _ Hages), Hok).
  assert (rows_ok later) as Hok' by apply (ages_rows _ _ _ Hlater), (ages_rows _ _ _ Hages), Hok.
  split_and!.
  - intros jti iat title version ty session family aud exp t m' e Hv -> H.
    destruct (getUserOrAgentConnect _ _ _) as [d2 r] eqn:E. simpl in H. subst r.
    apply caller_done in E as [(_ & c & Hc & _ & _ & Hin & Hr & _ & Hver & _) _].
    apply (signed_claims _ _ _ _ _ _ _ (signs _ _ _)) in Hc as ->. simpl in *.
    pose proof (elem_update (λ x, mc_ID x =? mc_ID m) (machine_version (mc_TokenVersion m + 1)) _ _ Hm) as Hm1.
    cbv beta in Hm1. rewrite Z.eqb_refl, <- Em in Hm1. apply (aged_elem _ _ _ _ (ages_machines _ _ _ Hlater)) in Hm1 as (m2 & Hm2 & _ & Hr2 & _ & _ & Hv2).
    pose proof (find_nodup mc_ResourceID _ _ (rows_machine_names _ Hok') Hin) as H1.
    pose proof (find_nodup mc_ResourceID _ _ (rows_machine_names _ Hok') Hm2) as H2. simpl in *.
    rewrite Hr2, <- Hr, H1 in H2. simplify_eq. lia.
  - intros t fp x r Hx Hp. apply spent_machine_token. eapply spent_ages; [apply (ages_machine_tokens _ _ _ Hlater)|].
    rewrite Et. by eapply revoked_spent.
  - intros s Hs Hp. pose proof (elem_update (λ s, (ss_Principal s =? mc_ID m) && live s)
      (session_end "KICKED" (or_default "token_revoked" reason) (d_Clock (lg_db k))) _ _ Hs) as Hs1.
    cbv beta in Hs1. rewrite <- Es in Hs1.
    apply (aged_elem _ _ _ _ (ages_machine_sessions _ _ _ Hlater)) in Hs1 as (s' & Hs' & Hid & _ & Hst).
    exists s'. rewrite Hp, Z.eqb_refl in *. unfold live in *. destruct (String.eqb_spec (ss_State s) "ACTIVE"); simpl in *; split_and!; try done.
    + by intros ?%Hst.
    + by intros ?%Hst.
Qed.
End revoked.
End all.

