(* ===== verification/DeviceSpec.v ===== *)
(** What a device login promises: an approved one hands over a working credential,
    a denied one is not told apart from one that expired. *)

From Stdlib Require Import Ascii.
From stdpp Require Import base list strings numbers gmap sets.
From S2P Require Import Prelude Strings Names Quantity Nonce Iam Jwt Provision Tokens AgentTokens Machines Device TokensSpec Credentials LoginRequests.
Local Open Scope Z_scope.

(** ** The sessions *)

Section store.

Lemma sweep_keeps now s code p : dv_byDevice (sweepLocked now s) !! code = Some p →
  dv_byDevice s !! code = Some p ∧ dead now s p = false.
Proof. unfold sweepLocked. simpl. by intros [? ?]%map_lookup_filter_Some. Qed.

Lemma sweep_alive now s code p : dv_byDevice s !! code = Some p → dead now s p = false →
  dv_byDevice (sweepLocked now s) !! code = Some p.
Proof. intros. apply map_lookup_filter_Some. done. Qed.

Lemma sweep_user now s code p : dv_byUser (sweepLocked now s) !! code = Some p → dv_byUser s !! code = Some p.
Proof. unfold sweepLocked. simpl. by intros [? _]%map_lookup_filter_Some. Qed.

Lemma sweep_user_alive now s code dc p x : dv_byUser (sweepLocked now s) !! code = Some p → session_at s p = Some x →
  dv_byDevice s !! dc = Some p → dn_UserCode x = code → dead now s p = false.
Proof.
  unfold sweepLocked. simpl. intros [_ Hc]%map_lookup_filter_Some Hx Hd <-. destruct (dead now s p) eqn:E; [|done].
  destruct Hc. simpl. unfold purged_codes. apply list_elem_of_omap. exists (dc, p).
  split; [by apply elem_of_map_to_list|]. simpl. by rewrite E, Hx.
Qed.

(** A session that a lookup by its device code finds is pending or approved. *)
Lemma found_session now s code p x : (GetByDeviceCode now code s).2 = Some p → session_at s p = Some x →
  dn_Status x = StatusPending ∨ dn_Status x = StatusApproved.
Proof.
  intros [_ Hd]%sweep_keeps Hx. unfold dead in Hd. rewrite Hx in Hd. unfold expired in Hd.
  destruct (dn_Status x); auto; discriminate.
Qed.
End store.

Section polls.
Context (others : nat → Logins → Logins).
Hypothesis alone : ∀ n k, others n k = k.

Lemma on_store_done {A} (f : Z → DeviceStore → DeviceStore * A) k k' a : on_store f k = (k', Ok a) →
  lg_db k' = lg_db k ∧ f (d_Clock (lg_db k)) (lg_store k) = (lg_store k', a).
Proof. unfold on_store. destruct (f _ _) as [s b]. by intros [= <- <-]. Qed.
Lemma deref_done p k k' x : deref p k = (k', Ok x) → k' = k ∧ session_at (lg_store k) p = Some x.
Proof. unfold deref. destruct (session_at _ _); [by intros [= <- <-]|done]. Qed.
Lemma ensure_done b c k k' u : ensure b c k = (k', Ok u) → k' = k ∧ b = true.
Proof. destruct b; [by intros [= <- _]|done]. Qed.
Lemma meanwhile_done n k k' u : meanwhile others n k = (k', Ok u) → k' = k.
Proof. intros [= <- _]. apply alone. Qed.

(** A poll writes the time of the poll and nothing else of a session. *)
Lemma touched now i p s s' ok q : TouchPoll now p i s = (s', ok) →
  dv_byDevice s' = dv_byDevice s ∧ dn_Status <$> session_at s' q = dn_Status <$> session_at s q ∧
  dn_Result <$> session_at s' q = dn_Result <$> session_at s q.
Proof.
  unfold TouchPoll. destruct (session_at s p) as [x|] eqn:E; [|by intros [= <- <-]].
  destruct (too_soon _ _ _); intros [= <- <-]; [done|]. unfold session_at, alter_session in *. simpl. split; [done|].
  destruct (decide (q = p)) as [->|Hq]; [rewrite lookup_alter_eq, E; done|by rewrite lookup_alter_ne].
Qed.

(** C25: a denial is not told.  A poll that nothing overlaps is never answered with
    DENIED: the lookup purges a denied session first, so the poll of one is answered
    as that of an expired or unknown code, without the reason. *)
Theorem denial_is_not_told code k :
  (∀ resp, (PollDeviceLogin others code k).2 = Ok resp → pl_Status resp ≠ LOGIN_DENIED) ∧
  (∀ p x, code ≠ "" → dv_byDevice (lg_store k) !! code = Some p → session_at (lg_store k) p = Some x →
     dn_Status x = StatusDenied → (PollDeviceLogin others code k).2 = Ok (MkPoll LOGIN_EXPIRED None "")).
Proof.
  split.
  - intros resp H. destruct (PollDeviceLogin others code k) as [k' r] eqn:E. simpl in H. subst r. unfold PollDeviceLogin in E.
    apply bind_ok_inv in E as (k1 & u & [-> _]%ensure_done & E).
    apply bind_ok_inv in E as (k1 & sess & [Hdb Hs]%on_store_done & E).
    destruct sess as [p|]; [|by injection E as _ <-].
    apply bind_ok_inv in E as (k2 & v & ->%meanwhile_done & E).
    apply bind_ok_inv in E as (k2 & ok & [_ Ht]%on_store_done & E).
    apply bind_ok_inv in E as (k3 & v' & [-> _]%ensure_done & E).
    apply bind_ok_inv in E as (k3 & x & [-> Hx]%deref_done & E).
    apply (touched _ _ _ _ _ _ p) in Ht as (_ & Ht & _). rewrite Hx in Ht. simpl in Ht.
    destruct (session_at (lg_store k1) p) as [y|] eqn:Ey; [|done]. injection Ht as Ht.
    injection Hs as Hst Hp.
    destruct (found_session (d_Clock (lg_db k)) (lg_store k) code p y) as [Hy|Hy]; [done|by rewrite <- Hst in Ey|..];
      rewrite Ht, Hy in E; [by injection E as _ <-|]. by destruct (dn_Result x); [injection E as _ <-|].
  - intros p x Hc Hp Hx Hs. unfold PollDeviceLogin, ensure. rewrite (proj2 (String.eqb_neq _ _) Hc). simpl.
    unfold mbind, M_bind, on_store. simpl.
    replace (filter _ (dv_byDevice (lg_store k)) !! code) with (@None nat); [done|].
    symmetry. apply map_lookup_filter_None. right. intros q Hq. simpl. rewrite Hp in Hq. injection Hq as <-.
    unfold dead. rewrite Hx. unfold expired. by rewrite Hs.
Qed.
End polls.

(** ** The credential of an approval *)

Section approval.
Context {J : Jwt} {D : Digest} {L : JwtLaws} (w : TokenWorld).

(** A machine that is not deleted, and an active row of the refresh token in the
    result, good for 90 days. *)
Definition issued (d : Db) (r : DeviceResult) (fp : string) (m : MachineMessage) : Prop :=
  m ∈ d_Machines d ∧ mc_ResourceID m = dr_MachineID r ∧ mc_Deleted m = false ∧
  (∃ c, dr_RefreshToken r = SignedString keyID (tw_secret w) c ∧
        c_ExpiresAt c = Some (NumericDate (d_Clock d + machineRefreshTokenDuration)) ∧
        c_TokenVersion c = mc_TokenVersion m ∧ c_TokenType c = TokenTypeRefresh) ∧
  (∃ x, find_token (hashToken (dr_RefreshToken r)) (d_MachineTokens d) = Some x ∧ tk_ID x ≠ 0 ∧ tk_State x = "ACTIVE" ∧
        tk_Principal x = mc_ID m ∧ tk_ExpiresAt x = d_Clock d + machineRefreshTokenDuration ∧ tk_Fingerprint x = fp).

Lemma rotate_done m v h fp e c d d' m' : RotateMachineTokens w m v h fp e c d = (d', Ok m') →
  rows_ok d → m ∈ d_Machines d →
  m' = machine_version v m ∧ m' ∈ d_Machines d' ∧ d_Clock d' = d_Clock d ∧
  find_token h (d_MachineTokens d') =
    Some (token_row (d_Seq d) (mc_ID m) h TYPE_REFRESH (mc_ResourceID m) STATE_ACTIVE fp e c).
Proof.
  unfold RotateMachineTokens, GetMachine. intros H Hok Hm. apply bind_ok_inv in H as (d1 & u & E & H).
  destruct (_ || _) eqn:Eb; [done|]. apply orb_false_iff in Eb as [_ Eb]. injection E as <- <-.
  apply bind_ok_inv in H as (d2 & o & [-> ->]%query_done & H). simpl in H.
  rewrite find_update in H by done. rewrite (find_key mc_ID _ _ (proj1 (rows_machines _ Hok)) Hm) in H. simpl in H.
  rewrite Z.eqb_refl in H. injection H as <- <-. simpl. split_and!; try done.
  - pose proof (elem_update (λ x, mc_ID x =? mc_ID m) (machine_version v) _ _ Hm) as H. cbv beta in H.
    by rewrite Z.eqb_refl in H.
  - by apply hash_untaken_find.
Qed.

Lemma reauth_done info u m d d' r : approveReauth w info u m d = (d', Ok r) → rows_ok d → m ∈ d_Machines d →
  mc_Deleted m = false →
  d_Clock d' = d_Clock d ∧ issued d' r (di_Fingerprint info) (machine_version (mc_TokenVersion m + 1) m).
Proof.
  unfold approveReauth. intros H Hok Hm Hd. apply bind_ok_inv in H as (d1 & jti & [-> ->]%draw_done & H).
  apply bind_ok_inv in H as (d1 & now & [-> ->]%gets_done & H).
  apply bind_ok_inv in H as (d1 & h & ->%handle_done & H).
  apply bind_ok_inv in H as (d1 & m' & E%wrap_done & [-> ->]%ret_done).
  apply rotate_done in E as (-> & Hin & Hc & Hf); [|by destruct Hok; split|done].
  split; [done|]. split_and!; try done; [|]; rewrite Hc; simpl.
  - by eexists.
  - eexists. split; [exact Hf|]. pose proof (rows_seq _ Hok). simpl. split_and!; try done. lia.
Qed.

Lemma new_done info u d d' r : approveNewMachine w info u d = (d', Ok r) → rows_ok d →
  d_Clock d' = d_Clock d ∧ ∃ m, issued d' r (di_Fingerprint info) m ∧ mc_CreatedBy m = u_id u.
Proof.
  unfold approveNewMachine. intros H Hok. apply bind_ok_inv in H as (d1 & id & [-> ->]%draw_done & H).
  apply bind_ok_inv in H as (d1 & jti & [-> ->]%draw_done & H).
  apply bind_ok_inv in H as (d1 & now & [-> ->]%gets_done & H).
  apply bind_ok_inv in H as (d1 & m' & E%wrap_done & [-> ->]%ret_done).
  unfold CreateMachineWithToken in E. destruct (_ || _) eqn:Eb; [done|]. apply orb_false_iff in Eb as [_ Eb].
  injection E as <- <-. split; [done|]. eexists.
  split; [split; [apply elem_of_app; right; apply list_elem_of_singleton; reflexivity|]|reflexivity].
  split_and!; try done; simpl.
  - by eexists.
  - eexists. split; [by apply hash_untaken_find|]. pose proof (rows_seq _ Hok). simpl. split_and!; try done. lia.
Qed.

Context (others : nat → Logins → Logins) (disallow : res Code bool) (denial : string → string → string).
Hypothesis alone : ∀ n k, others n k = k.

Lemma require_done u d d' v : requireCanCreateNewMachine w disallow u d = (d', Ok v) → d' = d.
Proof.
  unfold requireCanCreateNewMachine. destruct (CheckPermission _ _ _ _ _) as [[]|]; [by intros [= <- _]| |done].
  destruct disallow as [[]|]; [done|by intros [= <- _]|done].
Qed.

(** The machine is the approver's, or one that the approver administers. *)
Definition entitled (u : User) (m : MachineMessage) : Prop :=
  mc_CreatedBy m = u_id u ∨ isMachineAdmin w (Some u) m = true.

Lemma approve_done caller code k k' : ApproveDeviceLogin w others disallow denial caller code k = (k', Ok tt) →
  rows_ok (lg_db k) →
  ∃ u p x r m, caller = Some u ∧ dv_byUser (sweepLocked (d_Clock (lg_db k)) (lg_store k)) !! code = Some p ∧ session_at (lg_store k) p = Some x ∧
    dn_Status x = StatusPending ∧ d_Clock (lg_db k') = d_Clock (lg_db k) ∧
    lg_store k' = Approve (d_Clock (lg_db k)) p (u_id u) r (sweepLocked (d_Clock (lg_db k)) (lg_store k)) ∧
    issued (lg_db k') r (di_Fingerprint (dn_Info x)) m ∧ entitled u m.
Proof.
  unfold ApproveDeviceLogin. intros H Hok.
  apply bind_ok_inv in H as (k1 & v & [-> _]%ensure_done & H).
  apply bind_ok_inv in H as (k1 & u & Eu & H). destruct caller as [u'|]; [|done]. injection Eu as <- <-.
  apply bind_ok_inv in H as (k1 & sess & [Hdb Hs]%on_store_done & H). injection Hs as Hst Hp.
  apply bind_ok_inv in H as (k2 & p & Ep & H). destruct sess as [p'|]; [|done]. injection Ep as <- <-.
  apply bind_ok_inv in H as (k2 & x & [-> Hx]%deref_done & H).
  destruct (dn_Status x) eqn:Ex; [|done..].
  apply bind_ok_inv in H as (k2 & m & [Hst2 Em]%on_db_done & H).
  apply bind_ok_inv in H as (k3 & v2 & ->%(meanwhile_done _ alone) & H).
  rewrite <- Hst in Hx.
  destruct m as [m|].
  - apply reauth_machine_done in Em as (Hdb2 & Hin & _ & Hdel). destruct (isMachineAdmin w (Some u') m) eqn:Ea.
    + apply bind_ok_inv in H as (k3 & r & [Hst3 Er]%on_db_done & H).
      apply (on_store_done (λ now s, (Approve now p' (u_id u') r s, tt))) in H as [Hdb3 Hst4]. injection Hst4 as Hst4.
      rewrite Hdb2, Hdb in Er. rewrite Hdb in Hin. apply reauth_done in Er as [Hc Hi]; [|done..].
      rewrite <- Hdb3 in Hi, Hc. exists u', p', x, r, (machine_version (mc_TokenVersion m + 1) m). split_and!; try done.
      * rewrite <- Hst4, Hst3, Hst2, <- Hst. by rewrite Hdb3 in Hc; rewrite Hc.
      * by right.
    + apply bind_ok_inv in H as (k3 & ? & _ & H). by apply bind_ok_inv in H as (k4 & ? & _ & H).
  - assert (lg_db k2 = lg_db k1) as Hdb2.
    { revert Em. unfold reauth_machine, GetMachineByResourceID. destruct (String.eqb _ _); [by intros [= <-]|].
      intros (d9 & o & [-> _]%wrap_done%query_done & [-> _]%ret_done)%bind_ok_inv. reflexivity. }
    apply bind_ok_inv in H as (k3 & v3 & [Hst3 Er]%on_db_done & H). apply require_done in Er as Hdb3.
    apply bind_ok_inv in H as (k4 & r & [Hst4 En]%on_db_done & H).
    apply (on_store_done (λ now s, (Approve now p' (u_id u') r s, tt))) in H as [Hdb5 Hst5]. injection Hst5 as Hst5.
    rewrite Hdb3, Hdb2, Hdb in En. apply new_done in En as (Hc & m & Hi & Hcb); [|done].
    rewrite <- Hdb5 in Hi, Hc. exists u', p', x, r, m.
    split_and!; [reflexivity|exact Hp|exact Hx|exact Ex|exact Hc| |exact Hi|left; exact Hcb].
    rewrite Hdb5 in Hc. rewrite Hc, Hst4, Hst3, Hst2, <- Hst in Hst5. symmetry. exact Hst5.
Qed.

(** Later, when only time has passed. *)
Definition waited (n : Z) (k : Logins) : Logins := MkLogins (lg_store k) (set_Clock (λ c, c + n) (lg_db k)).

Lemma issued_refreshes d r fp m n : calm w → rows_ok d → issued d r fp m → 0 ≤ n ≤ GraceWindow →
  let d' := set_Clock (λ c, c + n) d in
  RefreshMachineToken w (dr_RefreshToken r) fp d' =
  (set_Draws S d', Ok (machine_access w d' m, "", d_Clock d' + accessTokenDuration)).
Proof.
  intros [Hfail Hgap] Hok (Hm & Hr & Hd & (c & Ht & He & Hv & Hty) & (x & Hx & Hid & Hs & Hp & Hxe & Hfp)) Hn d'.
  unfold GraceWindow, machineRefreshTokenDuration, Hour, Minute, Second in *.
  apply (machine_refresh_answers w Hfail (λ n d _, Hgap n d) _ _ _ x m c).
  - split_and!; try done. replace (d_Clock d + 90 * 24 * (60 * (60 * 1000000000))) with
      (d_Clock d' + (90 * 24 * (60 * (60 * 1000000000)) - n)) in He by (simpl; lia).
    eapply fresh_for; [|exact He]. unfold Second. lia.
  - split_and!; try done; [simpl; lia|]. rewrite Hfp. right. by right.
  - by apply find_key; [apply (rows_machines _ Hok)|].
  - done.
  - rewrite Hxe. unfold machineRefreshRotateWindow, Hour, Minute, Second. simpl. lia.
Qed.

(** The session an approval leaves. *)
Definition approved (now by_ : Z) (r : DeviceResult) (x : DeviceSession) : DeviceSession :=
  MkDeviceSession (dn_DeviceCode x) (dn_UserCode x) StatusApproved (dn_Info x) (dn_CreatedAt x) (dn_ExpiresAt x)
    (dn_LastPolledAt x) now by_ (Some r) (dn_DenialReason x).

Lemma poll_of_approved dc k p x c u r : dc ≠ "" → dv_byDevice (lg_store k) !! dc = Some p →
  session_at (lg_store k) p = Some (approved c u r x) → d_Clock (lg_db k) ≤ c + GraceWindow →
  too_soon (d_Clock (lg_db k)) deviceMinPollInterval x = false →
  ∃ s, PollDeviceLogin others dc k = (MkLogins s (lg_db k), Ok (MkPoll LOGIN_APPROVED (Some r) "")).
Proof.
  intros Hne Hp Hx Hg Hs. unfold PollDeviceLogin, ensure. rewrite (proj2 (String.eqb_neq _ _) Hne). simpl negb. cbv iota.
  unfold mbind, M_bind. unfold mret at 1, M_ret at 1. cbv iota. unfold on_store, GetByDeviceCode.
  rewrite (sweep_alive _ _ _ p); [|done|unfold dead; rewrite Hx; apply Z.ltb_ge; simpl; lia].
  unfold meanwhile, modify. cbv iota. rewrite alone. unfold TouchPoll. cbn [lg_db lg_store].
  assert (session_at (sweepLocked (d_Clock (lg_db k)) (lg_store k)) p = Some (approved c u r x)) as Hx' by exact Hx.
  rewrite Hx'. assert (too_soon (d_Clock (lg_db k)) deviceMinPollInterval (approved c u r x) = false) as Hs' by exact Hs.
  rewrite Hs'. cbv iota. unfold deref. cbn [lg_store]. unfold session_at in Hx' |- *. unfold alter_session.
  unfold mret, M_ret. cbv beta iota zeta. cbn [lg_store dv_heap]. rewrite lookup_alter_eq, Hx'. simpl. by eexists.
Qed.

(** C10: an approved login hands over a credential.  When an approval has answered and
    the CLI polls within the grace window and not too soon, the poll returns a result;
    its refresh token, sent with the fingerprint of the session, is exchanged for an
    access token that authenticates the machine of the result, which the approver
    owns or administers. *)
Theorem approved_login_hands_over caller code k k' p x n :
  calm w → rows_ok (lg_db k) → ApproveDeviceLogin w others disallow denial caller code k = (k', Ok tt) →
  dv_byUser (lg_store k) !! code = Some p → session_at (lg_store k) p = Some x → dn_UserCode x = code →
  dv_byDevice (lg_store k) !! dn_DeviceCode x = Some p → dn_DeviceCode x ≠ "" →
  0 ≤ n ≤ GraceWindow → too_soon (d_Clock (lg_db k) + n) deviceMinPollInterval x = false →
  ∃ u r m acc later d',
    caller = Some u ∧ PollDeviceLogin others (dn_DeviceCode x) (waited n k') = (later, Ok (MkPoll LOGIN_APPROVED (Some r) "")) ∧
    RefreshMachineToken w (dr_RefreshToken r) (di_Fingerprint (dn_Info x)) (lg_db later) =
      (d', Ok (acc, "", d_Clock (lg_db k) + n + accessTokenDuration)) ∧
    mc_ResourceID m = dr_MachineID r ∧ entitled u m ∧
    (acc ∉ d_Expired d' → ∃ e, (getUserOrAgentConnect w acc d').2 = Ok (CMachine m, e)).
Proof.
  intros Hcalm Hok Happ Hp Hx Hcode Hdev Hne Hn Hsoon.
  assert (rows_ok (lg_db k')) as Hok'.
  { pose proof (ApproveDeviceLogin_rises w others disallow denial alone caller code k Hok) as H.
    rewrite Happ in H. apply (ages_rows _ _ _ H), Hok. }
  apply approve_done in Happ as (u & p' & x' & r & m & -> & Hp' & Hx' & Hpend & Hclock & Hstore & Hiss & Hent); [|done].
  pose proof (sweep_user _ _ _ _ Hp') as Hp2. rewrite Hp in Hp2. injection Hp2 as <-. rewrite Hx in Hx'. injection Hx' as <-.
  pose proof (issued_refreshes _ _ _ _ n Hcalm Hok' Hiss Hn) as Href.
  destruct (poll_of_approved (dn_DeviceCode x) (waited n k') p x (d_Clock (lg_db k)) (u_id u) r) as [s Hpoll]; try done.
  - unfold waited. simpl lg_store. rewrite Hstore. apply sweep_alive; [done|]. by eapply sweep_user_alive.
  - unfold waited. simpl lg_store. rewrite Hstore. unfold session_at, Approve, alter_session in *. cbn [dv_heap].
    rewrite lookup_alter_eq. unfold sweepLocked. cbn [dv_heap]. by rewrite Hx.
  - simpl. lia.
  - simpl. by rewrite Hclock.
  - eexists u, r, m, _, _, _. split_and!; [done|exact Hpoll| |apply Hiss|done|].
    + rewrite <- Hclock. apply Href.
    + intros He. eexists. apply machine_authenticates; try done; [apply Hcalm|apply Hiss|apply Hiss|apply (rows_machine_names _ Hok')].
Qed.
End approval.
