(* ===== verification/CredentialDemo.v ===== *)
(** A small JWT that satisfies the laws, a workspace with a machine, an agent, a
    provisioner and their tokens, and the theorems on credentials at it. *)

From Stdlib Require Import Ascii.
From stdpp Require Import base list strings numbers countable gmap sets.
From S2P Require Import Prelude Strings Names Quantity Nonce Runes Iam IamSpec Jwt Provision Tokens AgentTokens Machines Device TokensSpec Credentials.
From S2P Require Import LoginRequests DeviceSpec MachinesSpec.
Import Strings.
Local Open Scope Z_scope.

(** ** A JWT *)

Module ToyJwt.

(** A number as digits. *)
Fixpoint digits (p : positive) : string :=
  match p with
  | xH => EmptyString
  | xO p => String "0" (digits p)
  | xI p => String "1" (digits p)
  end.
Fixpoint number (s : string) : positive :=
  match s with
  | EmptyString => xH
  | String c s => if Ascii.eqb c "0" then xO (number s) else xI (number s)
  end.
Lemma number_digits p : number (digits p) = p.
Proof. by induction p as [p IH|p IH|]; simpl; rewrite ?IH. Qed.

Definition written `{Countable A} (a : A) : string := digits (countable.encode a).
Definition read (A : Type) `{Countable A} (s : string) : option A := countable.decode (number s).
Lemma read_written `{Countable A} (a : A) : read A (written a) = Some a.
Proof. unfold read, written. by rewrite number_digits, countable.decode_encode. Qed.

#[local] Arguments written : simpl never.
#[local] Arguments read : simpl never.

(** The fields as strings, the audience last. *)
#[local] Instance Claims_countable : Countable Claims.
Proof.
  apply (inj_countable
    (λ c, [c_Name c; written (c_TokenVersion c); c_TokenType c; c_SessionID c; c_TokenFamily c; c_ID c;
           written (c_ExpiresAt c); written (c_IssuedAt c); c_Issuer c; c_Subject c] ++ c_Audience c)
    (λ l, match l with
          | n :: v :: ty :: s :: f :: i :: e :: ia :: is_ :: su :: a =>
              v ← read Z v; e ← read (option Z) e; ia ← read Z ia; Some (MkClaims n v ty s f i a e ia is_ su)
          | _ => None
          end)).
  intros [n v ty s f i a e ia is_ su].
  cbn [app c_Name c_TokenVersion c_TokenType c_SessionID c_TokenFamily c_ID c_Audience c_ExpiresAt c_IssuedAt c_Issuer c_Subject].
  rewrite read_written. cbn [mbind option_bind]. rewrite read_written. cbn [mbind option_bind]. by rewrite !read_written.
Defined.

Definition sign (kid key : string) (c : Claims) : string :=
  written kid +:+ String dot (base64urlEncode (written c) +:+ String dot (written key)).

(** The kid, the claims and the key. *)
Definition parts (t : string) : option (string * Claims * string) :=
  match split_dots t with
  | [h; p; s] => kid ← read string h; b ← RawURLDecode p; c ← read Claims b; key ← read string s; Some (kid, c, key)
  | _ => None
  end.

#[export] Instance jwt : Jwt := {|
  SignedString := sign;
  ParseWithClaims := λ now kf t,
    match parts t with
    | Some (kid, c, key) =>
        if String.eqb t (sign kid key c) && bool_decide (kf HS256 (Some kid) = Some key)
        then if fresh now c then Ok c else Err true
        else Err false
    | None => Err false
    end;
  UnmarshalAud := λ b, c_Audience <$> read Claims b;
  signed := λ alg key t c, alg = HS256 ∧ ∃ kid, t = sign kid key c |}.

Definition plain (s : string) : Prop := Forall (λ c, c ≠ dot) (String.list_ascii_of_string s).

Lemma split_plain a b : plain a → split_dots (a +:+ String dot b) = a :: split_dots b.
Proof.
  unfold plain. induction a as [|c a IH]; simpl; [done|]. intros [Hc Ha]%Forall_cons.
  destruct (Ascii.eqb_spec c dot); [done|]. by rewrite IH.
Qed.
Lemma split_last a : plain a → split_dots a = [a].
Proof.
  unfold plain. induction a as [|c a IH]; simpl; [done|]. intros [Hc Ha]%Forall_cons.
  destruct (Ascii.eqb_spec c dot); [done|]. by rewrite IH.
Qed.
Lemma plain_digits p : plain (digits p).
Proof. unfold plain. induction p; simpl; constructor; done. Qed.

Lemma char_plain n : (n < 64)%N → base64_char n ≠ dot.
Proof. intros Hn E. destruct (sextet n Hn) as [_ H]. rewrite E in H. by vm_compute in H. Qed.

Local Ltac Zify.zify_post_hook ::= Z.to_euclidean_division_equations.

Lemma plain_base64 s : plain (base64urlEncode s).
Proof.
  assert (∀ n, (String.length s < n)%nat → plain (base64urlEncode s)) as H; [|by apply (H _ (Nat.lt_succ_diag_r _))].
  intros n. revert s. induction n as [|n IH]; [lia|]. intros s Hs. unfold plain.
  destruct s as [|a [|b [|c s]]]; [constructor| | |]; cbn [base64urlEncode];
    pose proof (byte_bound a) as Ha; [|pose proof (byte_bound b) as Hb..].
  - repeat constructor; apply char_plain; lia.
  - repeat constructor; apply char_plain; lia.
  - pose proof (byte_bound c) as Hc. repeat (constructor; [apply char_plain; lia|]). apply IH. simpl in Hs. lia.
Qed.

Lemma split_sign kid key c : split_dots (sign kid key c) = [written kid; base64urlEncode (written c); written key].
Proof.
  unfold sign. rewrite split_plain, split_plain, split_last; [done|apply plain_digits|apply plain_base64|apply plain_digits].
Qed.

Lemma parts_sign kid key c : parts (sign kid key c) = Some (kid, c, key).
Proof.
  unfold parts. rewrite split_sign, read_written. cbn [mbind option_bind]. rewrite RawURLDecode_encode.
  cbn [mbind option_bind]. by rewrite !read_written.
Qed.

#[export] Instance jwt_laws : JwtLaws.
Proof.
  split.
  - intros now kf t c. simpl. destruct (parts t) as [[[kid c'] key]|]; [|done].
    destruct (String.eqb_spec t (sign kid key c')) as [->|]; [|done]. simpl. case_bool_decide as Hk; [|done].
    destruct (fresh now c') eqn:Hf; [|done]. intros [= <-]. split; [done|]. exists HS256, (Some kid), key.
    split; [done|]. split; [done|]. by exists kid.
  - intros kid key c. split; [done|]. by exists kid.
  - intros alg key alg' key' t c c' [_ [kid ->]] [_ [kid' E]]. apply (f_equal parts) in E. rewrite !parts_sign in E. congruence.
  - intros now kf kid key c Hk Hf. simpl. rewrite parts_sign, String.eqb_refl. simpl. by rewrite bool_decide_true, Hf by done.
  - intros now kf kid key c Hk Hf. simpl. rewrite parts_sign, String.eqb_refl. simpl. by rewrite bool_decide_true, Hf by done.
  - intros kid key c. unfold peekTokenAudience. simpl. rewrite split_sign, RawURLDecode_encode. simpl. by rewrite read_written.
  - intros kid key c. simpl. unfold sign. intros E. apply (f_equal String.length) in E. rewrite str_length_app in E. simpl in E. lia.
Qed.

(** The identity stands for the digests. *)
#[export] Instance digest : Digest := {| sha256 := λ s, s |}.
#[export] Instance hmac : Hmac := {| hmac_sha256 := λ k s, k +:+ s |}.

End ToyJwt.

(** ** A workspace *)

Module CredentialDemo.
Import ToyJwt.

Definition ann : User := IamDemo.ann.
Definition now : Z := 1000 * Second.

Definition methods (m : string) : option MethodOptions :=
  if String.eqb m "Work" then Some (MkOptions (Some false) (Some "laelia.agents.get") (Some 1) (Some false)) else None.
Definition registry : Registry := λ s, if String.eqb s "laelia.v1.Service" then Some (Some methods) else None.

(** A world in which nothing fails, with [others] in its gaps and its random values
    named after [r]. *)
Definition world (r : string) (others : nat → Db → Db) : TokenWorld :=
  MkTokenWorld IamDemo.e "k" "prod" false registry ascii_unicode (λ _, false) (λ n, r +:+ pretty.pretty n) others
    (λ _, true) (λ s, s).
Definition w : TokenWorld := world "r" (λ _ d, d).

Lemma w_calm : calm w.
Proof. by split. Qed.

Definition m1 : MachineMessage := MkMachine 1 "m1" "Box" 1 false no_info OFFLINE 1 0 None.
Definition status : ProvisioningStatus := MkProvisioning 3 "" "laelia-machine-m2" "" ∅ ∅ 0 0 0.
Definition m2 : MachineMessage := MkMachine 2 "m2" "Pod" 1 false no_info OFFLINE 1 5 (Some status).
Definition a1 : AgentMessage := MkAgentMessage 3 "a1" "Helper" 1 false 2 1 true no_info "" "" OFFLINE.
Definition p1 : ProvisionerMessage := MkProvisionerMessage 5 "p1" "Cluster" "kubernetes" "" 1 1 false
  (MkProvisionerStatus true 0 "" "kubernetes" false true "" []).

(** The refresh tokens of the machine and of the agent, and access tokens. *)
Definition machine_refresh : string :=
  GenerateMachineTokenWithFamily "j1" now "Box" "m1" 1 TokenTypeRefresh "m1" "prod" "k" machineRefreshTokenDuration.
Definition agent_refresh : string :=
  GenerateAgentTokenWithSession "j2" now "Helper" "a1" 1 TokenTypeRefresh "" "prod" "k" refreshTokenDuration.
Definition machine_access : string :=
  GenerateMachineTokenWithSession "j3" now "Box" "m1" 1 TokenTypeAccess "" "prod" "k" accessTokenDuration.

Definition agent_row (state : TokenState) : TokenRow :=
  token_row 11 3 (hashToken agent_refresh) TYPE_REFRESH "a1" state "f" (now + refreshTokenDuration) "".
Definition machine_row : TokenRow :=
  token_row 10 1 (hashToken machine_refresh) TYPE_REFRESH "m1" STATE_ACTIVE "f" (now + machineRefreshTokenDuration) "ann".

Definition session : SessionRow := MkSession "s1" 1 "m1" "ACTIVE" "" "f" "" now None now None.

Definition db (agent_state : TokenState) : Db :=
  MkDb [m1; m2] [a1] [p1] [ann] [machine_row] [agent_row agent_state] [session] [] NewNonceManager [] ∅ [] 0 20 0 now [].
Definition d0 : Db := db STATE_ACTIVE.

Lemma db_ok st : rows_ok (db st).
Proof.
  split; unfold keyed; simpl; try done; try (apply (bool_decide_unpack _); vm_compute; exact I).
Qed.

(** *** Authentication *)

Definition header (t : string) : Header := MkHeader ("Bearer " +:+ t) [] "" "" "".
Definition work : string := "/laelia.v1.Service/Work".
Definition peer : string := "10.0.0.1:99".
Definition after : Db := (authenticate w (header machine_access) peer work d0).1.
Definition rc1 : ReqContext := MkReqContext None None (Some m1) None (Some 1900) "10.0.0.1".

Lemma answered : authenticate w (header machine_access) peer work d0 = (after, Ok rc1).
Proof. vm_compute. reflexivity. Qed.

Lemma request_is_its_bearers_witness :
  authenticate w (header machine_access) peer work d0 = (after, Ok rc1) ∧ rc_Machine rc1 = Some m1 ∧
  (rc1 = anonymous (extractSourceIP (header machine_access) peer (tw_trustProxy w)) ∨
   ∃ t caller, GetTokenFromHeaders (tw_unicode w) (header machine_access) = Some t ∧ bears w d0 t caller ∧
     names_bearer d0 (header machine_access) caller rc1).
Proof.
  split; [exact answered|]. split; [reflexivity|].
  exact (proj2 (request_is_its_bearers w (header machine_access) peer work d0 after rc1 answered)).
Defined.

(** The agent's refresh token is its bearer token too, when it was consumed. *)
Lemma bearer_types_witness :
  d_AgentTokens (db STATE_CONSUMED) = [agent_row STATE_CONSUMED] ∧
  (getUserOrAgentConnect w agent_refresh (db STATE_CONSUMED)).2 = Ok (CAgent a1, NumericDate (now + refreshTokenDuration)) ∧
  (getUserOrAgentConnect w machine_refresh d0).2 = Err CodeUnauthenticated.
Proof.
  split; [reflexivity|]. split.
  - apply (proj1 (bearer_types w "j2" now "a1" 1 TokenTypeRefresh "" "a1" (now + refreshTokenDuration) "Helper" (db STATE_CONSUMED)
      (λ _, eq_refl) eq_refl)); [reflexivity|set_solver|reflexivity..].
  - rewrite (proj2 (bearer_types w "j1" now "m1" 1 TokenTypeRefresh "" "m1" (now + machineRefreshTokenDuration) "Box" d0
      (λ _, eq_refl) eq_refl) m1 machine_refresh); [reflexivity|reflexivity|set_solver|reflexivity..].
Defined.

(** *** Refreshing *)

Lemma agent_exchangeable r others : exchangeable (world r others) d0 agent_refresh "f" a1 (agent_row STATE_ACTIVE).
Proof.
  split; [apply db_ok| | | |reflexivity|].
  - eexists. split_and!; reflexivity.
  - split_and!; [vm_compute; reflexivity|done|reflexivity|reflexivity|done|unfold same_device; tauto].
  - apply list_elem_of_singleton. reflexivity.
  - apply NoDup_singleton.
Qed.

Lemma refresh_hands_over_witness :
  exchangeable w d0 agent_refresh "f" a1 (agent_row STATE_ACTIVE) ∧
  ∃ acc new d', RefreshAgentToken w agent_refresh "f" d0 = (d', Ok (acc, new, d_Clock d0 + accessTokenDuration)) ∧
    exchanged d0 d' agent_refresh new "f" a1 (agent_row STATE_ACTIVE) ∧
    (acc ∉ d_Expired d' → (getUserOrAgentConnect w acc d').2 = Ok (CAgent a1, NumericDate (d_Clock d0 + accessTokenDuration))).
Proof.
  split; [apply agent_exchangeable|]. apply (refresh_hands_over w); [apply w_calm|apply agent_exchangeable|].
  vm_compute. reflexivity.
Defined.

(** The other request draws its own random values. *)
Definition w' : TokenWorld := world "q" (λ _ d, d).
Definition raced : TokenWorld := world "r" (λ n d, if Nat.eqb n 2 then (RefreshAgentToken w' agent_refresh "f" d).1 else d).

Lemma raced_refresh_exchanges_twice_witness :
  ∃ acc new acc' new' e e' d',
    (RefreshAgentToken w' agent_refresh "f" d0).2 = Ok (acc', new', e') ∧
    RefreshAgentToken raced agent_refresh "f" d0 = (d', Ok (acc, new, e)) ∧ new ≠ new' ∧
    (∃ y, usable_row d' (d_AgentTokens d') new "f" (an_ID a1) y) ∧ (∃ y, usable_row d' (d_AgentTokens d') new' "f" (an_ID a1) y).
Proof.
  apply (raced_refresh_exchanges_twice raced w' agent_refresh "f" d0 (agent_row STATE_ACTIVE) a1); try reflexivity.
  - by split.
  - apply agent_exchangeable.
Defined.

(** *** Revocation *)

Definition mg : Manager := MkManager w (λ _ k, k) (Ok false) (λ _ _, "denied") (MkBuild "1.0" (λ _, true) "v1")
  (MkSetting "img" "" false false [] "https://x").

Lemma mg_alone : interleaved mg.
Proof. by apply alone. Qed.

(** What runs in the gaps of this manager is the timer of a token. *)
Definition busy : Manager :=
  MkManager (world "r" (λ _ d, lg_db (serve_all mg [RqFireTokenRevoke 11] (MkLogins NewStore d))))
    (λ _ k, serve_all mg [RqTick 5] k) (Ok false) (λ _ _, "denied") (mg_build mg) (mg_setting mg).

Lemma busy_interleaved : interleaved busy.
Proof.
  by apply (among busy (λ _ _, mg) (λ _ _, NewStore) (λ _ _, [RqFireTokenRevoke 11]) (λ _ _, mg) (λ _ _, [RqTick 5]));
    try (intros; apply mg_alone).
Qed.

Definition consumed : Logins := MkLogins NewStore (db STATE_CONSUMED).
Lemma consumed_spent : spent (d_AgentTokens (lg_db consumed)) agent_refresh.
Proof. exists (agent_row STATE_CONSUMED). split; [vm_compute; reflexivity|discriminate]. Qed.

Lemma spent_tokens_stay_spent_witness :
  spent (d_AgentTokens (lg_db consumed)) agent_refresh ∧
  ∀ r, (RefreshAgentToken w agent_refresh "f"
          (lg_db (serve_all busy [RqTick 7; RqRefreshAgentToken agent_refresh "f"; RqSweep] consumed))).2 ≠ Ok r.
Proof.
  split; [apply consumed_spent|]. intros r.
  apply (proj1 (spent_tokens_stay_spent busy _ consumed w agent_refresh "f" busy_interleaved) r), consumed_spent.
Defined.

Definition k0 : Logins := MkLogins NewStore d0.
Definition revoked : Db := (RevokeMachineToken w (Some ann) "machines/m1" "" d0).1.
Lemma revokes : RevokeMachineToken w (Some ann) "machines/m1" "" (lg_db k0) = (revoked, Ok tt).
Proof. vm_compute. reflexivity. Qed.

Lemma revoked_machine_is_shut_out_witness :
  let later := lg_db (serve_all mg [RqTick 7; RqRefreshMachineToken machine_refresh "f"] (MkLogins (lg_store k0) revoked)) in
  (∀ m e, (getUserOrAgentConnect w machine_access later).2 ≠ Ok (CMachine m, e)) ∧
  (∀ r, (RefreshMachineToken w machine_refresh "f" later).2 ≠ Ok r) ∧
  ∃ s, s ∈ d_MachineSessions later ∧ ss_ID s = "s1" ∧ ss_State s ≠ "ACTIVE".
Proof.
  assert (m1 ∈ d_Machines (lg_db k0)) as Hm by (apply elem_of_cons; by left).
  pose proof (revoked_machine_is_shut_out mg (λ _ _, eq_refl) (λ _ _, eq_refl) (Some ann) "machines/m1" "" k0 revoked
    [RqTick 7; RqRefreshMachineToken machine_refresh "f"] m1 (db_ok STATE_ACTIVE) revokes Hm eq_refl) as (H1 & H2 & H3).
  intros later. split; [|split].
  - intros m e. by apply (H1 "j3" now "Box" 1 TokenTypeAccess "" "m1" "ll.machine.access.prod" (now + accessTokenDuration)).
  - intros r. apply (H2 machine_refresh "f" machine_row r); [vm_compute; reflexivity|reflexivity].
  - apply (H3 session); [apply list_elem_of_singleton; reflexivity|reflexivity].
Defined.


(** *** A device login *)

Definition laptop : DeviceInfo := MkDeviceInfo "" "laptop" "linux" "amd64" "" "1.0" "f".
Definition alone2 : nat → Logins → Logins := λ _ k, k.
Definition no_denial : string → string → string := λ _ _, "denied".
Definition started : Logins := (StartDeviceLogin w laptop k0).1.
Definition user_code : string := Eval vm_compute in match (StartDeviceLogin w laptop k0).2 with Ok c => c.2 | Err _ => "" end.
Definition device_code : string := Eval vm_compute in match (StartDeviceLogin w laptop k0).2 with Ok c => c.1 | Err _ => "" end.
Definition pending : DeviceSession :=
  MkDeviceSession device_code user_code StatusPending laptop now (now + SessionTTL) None 0 0 None "".
Definition approved_k : Logins := (ApproveDeviceLogin w alone2 (Ok false) no_denial (Some ann) user_code started).1.
Lemma approves : ApproveDeviceLogin w alone2 (Ok false) no_denial (Some ann) user_code started = (approved_k, Ok tt).
Proof. vm_compute. reflexivity. Qed.

Lemma started_ok : rows_ok (lg_db started).
Proof. apply (ages_rows _ _ _ (StartDeviceLogin_any w laptop k0)), db_ok. Qed.

Lemma approved_login_hands_over_witness :
  ∃ u r m acc later d',
    Some ann = Some u ∧
    PollDeviceLogin alone2 device_code (waited (3 * Second) approved_k) = (later, Ok (MkPoll LOGIN_APPROVED (Some r) "")) ∧
    RefreshMachineToken w (dr_RefreshToken r) "f" (lg_db later) =
      (d', Ok (acc, "", d_Clock (lg_db started) + 3 * Second + accessTokenDuration)) ∧
    mc_ResourceID m = dr_MachineID r ∧ entitled w u m ∧
    (acc ∉ d_Expired d' → ∃ e, (getUserOrAgentConnect w acc d').2 = Ok (CMachine m, e)).
Proof.
  apply (approved_login_hands_over w alone2 (Ok false) no_denial (λ _ _, eq_refl) (Some ann) user_code started approved_k 0%nat pending).
  - apply w_calm.
  - apply started_ok.
  - apply approves.
  - vm_compute. reflexivity.
  - vm_compute. reflexivity.
  - reflexivity.
  - vm_compute. reflexivity.
  - discriminate.
  - unfold GraceWindow, Minute, Second. lia.
  - reflexivity.
Defined.

(** A login that was denied. *)
Definition denied : Logins := MkLogins (Deny 0 "machine m1 belongs to bob" (lg_store started)) (lg_db started).
Definition denied_session : DeviceSession :=
  MkDeviceSession device_code user_code StatusDenied laptop now (now + SessionTTL) None 0 0 None "machine m1 belongs to bob".

Lemma denial_is_not_told_witness :
  session_at (lg_store denied) 0 = Some denied_session ∧
  (PollDeviceLogin alone2 device_code denied).2 = Ok (MkPoll LOGIN_EXPIRED None "").
Proof.
  assert (session_at (lg_store denied) 0 = Some denied_session) as Hs by (vm_compute; reflexivity).
  split; [exact Hs|]. apply (proj2 (denial_is_not_told alone2 (λ _ _, eq_refl) device_code denied) 0%nat denied_session);
    [discriminate|vm_compute; reflexivity|exact Hs|reflexivity].
Defined.

(** *** A deletion *)

Lemma m2_occupied : occupied d0 m2 p1 status.
Proof.
  split; try done; [apply elem_of_cons; right; by apply list_elem_of_singleton|by apply list_elem_of_singleton|].
  exists a1. split; [by apply list_elem_of_singleton|done].
Qed.

Lemma refused_deletion_tears_down_witness :
  occupied d0 m2 p1 status ∧
  ∃ d', DeleteMachine w (Some ann) "machines/m2" d0 = (d', Err CodeFailedPrecondition) ∧
    machine_provisioning (with_phase PHASE_DEPROVISIONING status) m2 ∈ d_Machines d' ∧
    mc_Deleted (machine_provisioning (with_phase PHASE_DEPROVISIONING status) m2) = false ∧ d_Events d' = d_Events d0 ∧
    SendDeprovisionJob (pr_ID p1) (FormatMachineUID (mc_ResourceID m2)) false ∈
      d_Events (replayProvisionJobs w (mg_build mg) (mg_setting mg) p1 d').1.
Proof.
  split; [apply m2_occupied|].
  apply (refused_deletion_tears_down w (mg_build mg) (mg_setting mg) (Some ann) "machines/m2" d0 m2 p1 status);
    [apply w_calm|apply db_ok|apply m2_occupied|reflexivity|vm_compute; reflexivity].
Defined.

End CredentialDemo.
